(* ===== verification/_CoqProject ===== *)
-Q . S2P
Prelude.v
Hash32.v
SnapshotFormat.v
Task.v
Workflow.v
TaskIndex.v
Serializable.v
Snapshot.v
Backend.v
InMemory.v
ClaimStore.v
Runtime.v
Lifecycle.v
SyncExec.v
Checkpoint.v
Client.v
Durability.v
WorkerNav.v
Worker.v
WorkerLoop.v
WorkerProps.v
WorkerChain.v
WorkerDeviations.v
Distributed.v
Registry.v
Builder.v
BuilderProps.v
TypedFlow.v
FlowBuilder.v
Cloudflare.v
CloudflareProps.v
CloudflareResume.v
Stepper.v
StepperProps.v
StepperWasm.v
WasmFlow.v
Postgres.v
PostgresSignals.v
PostgresClaims.v
PostgresProps.v
PostgresComposites.v
PostgresDispatch.v
PostgresInvariant.v
PostgresWakeup.v
PostgresPool.v
PostgresExample.v
Simulation.v
D1.v
D1Props.v
D1Invariant.v
D1Engine.v
D1Migrations.v
D1Example.v
Json.v
NodeCodec.v
Node.v
NodeCodecProps.v
NodeProps.v
NodeFlow.v
NodeAgree.v
NodeBackend.v
NodeExample.v
Python.v
PythonFlow.v
PythonProps.v
PythonExample.v
