(* ===== verification/Prelude.v ===== *)
(** * Sayiir: a verification development of the durable workflow engine

    Sayiir runs workflows: trees of tasks with forks, joins, conditional branches,
    loops, delays, awaited signals and child workflows.  A run is durable: its
    progress is a snapshot in a persistent backend, so that a run can be stopped by
    a crash, a delay, a pause or a missing signal and be resumed by another process.

    ** Parts of the program and their models

    - [Hash32.v] ([sayiir-core/src/hash32.rs]): 32-byte identifiers, their hex form,
      task ids and definition hashes.  SHA-256 is the class parameter [Sha256];
      theorems that need distinct names to have distinct ids say [collision_free].
    - [SnapshotFormat.v] ([snapshot_format.rs], [codec.rs]): the snapshot frame and
      the loop envelope, byte by byte; the payload codec is a class with laws.
    - [Task.v] ([task.rs], [priority.rs], [validation.rs]): durations and instants in
      nanoseconds, chrono's checked arithmetic as a class, IEEE floats by
      [SpecFloat], retry policies, priorities, instance-id validation.
    - [Workflow.v] ([workflow.rs]): the continuation tree as an inductive type with
      the source's constructors, its queries, setters, duplicate check and append.
    - [TaskIndex.v] ([task_index.rs], [NodeIter] of [workflow.rs]): the iterator as a
      stack machine and the index built from it.
    - [Serializable.v] ([workflow.rs]): the serialized tree, rehydration against a
      registry, the definition hash.
    - [Snapshot.v] ([snapshot.rs]): the snapshot record and all its operations, the
      status machine, deadlines, retries, loop counters; histories of operations and
      what they tell about the snapshot they lead to.
    - [Backend.v] ([sayiir-persistence/src/backend.rs], [validation.rs],
      [task_claim.rs]): the storage traits as the class [PersistentBackend], with
      the default bodies of the composite methods; claims.
    - [InMemory.v] ([in_memory.rs]): the in-memory backend, an instance of the class,
      with task claims and the search for available tasks.
    - [Runtime.v] ([error.rs] of both crates): errors and their messages; the world:
      a store and a step counter, a clock and other clients that act between any
      two steps.
    - [Lifecycle.v] ([sayiir-persistence/src/lifecycle.rs],
      [sayiir-runtime/src/execution/lifecycle.rs], [helpers.rs]): conflict policies,
      starting, parked positions, resuming, finalizing.
    - [SyncExec.v] ([executors.rs], [loop_runner.rs], [helpers.rs], [fork.rs]): the
      synchronous and asynchronous executors, and the big-step specification
      [evaluates] of what a workflow computes.
    - [Checkpoint.v] ([executors.rs], [fork.rs], [helpers.rs], [control_flow.rs],
      [loop_runner.rs]): the durable executor and the branch executor with its own
      snapshot, and the reasoning principles for durable runs.
    - [Client.v] ([client.rs], [runner/in_process.rs]): the client and the in-process
      runner; a client's cancel and pause followed into a durable run.
    - [Durability.v]: the theorems about the durable executor.
    - [ClaimStore.v] ([sayiir-persistence/src/backend.rs]): the trait [TaskClaimStore]
      as a class, its default bodies, the fence it documents ([FencedStore]), and the
      wake-up hints with their wire form.
    - [WorkerNav.v], [Worker.v] ([sayiir-runtime/src/worker.rs]): the worker's searches
      in the tree, and one dispatch: validation, claim, guards, the run under a
      heartbeat, settlement, over any backend and on the worker's own snapshot.
    - [WorkerLoop.v] ([worker.rs]): both actor loops as one state machine whose inputs
      are what tokio delivers, with the concurrency cap and shutdown.
    - [WorkerProps.v], [WorkerChain.v]: leases, the fence, failures, the draining of a
      signal, and a task chain driven to completion.
    - [WorkerDeviations.v]: workflows on which the worker differs from the executors.
    - [Distributed.v] ([runner/distributed.rs]): the checkpointing runner; spawned
      branches run one at a time, from start to end, in the scheduler's finish order.
    - [Registry.v] ([task.rs], [registry.rs], [deps.rs], [loop_result.rs],
      [branch_results.rs]): typed tasks and their erasure to functions on bytes over
      any codec, the registry, the container of injected services.
    - [Builder.v] ([builder.rs], [branch_key.rs]): the typed builder with its fork,
      route and sub-builders; [BuilderProps.v]: what it builds, as an invariant of
      every sequence of steps.
    - [TypedFlow.v]: typed pipelines, from functions to the executor's output.
    - [FlowBuilder.v] ([continuation_builder.rs]): the builder of the bindings.
    - [Cloudflare.v] ([sayiir-cloudflare/src/durable.rs], [lifecycle.rs], [codec.rs]): the
      engine of the Worker binding, an executor of its own over JavaScript functions,
      with its requests; [CloudflareProps.v], [CloudflareResume.v]: runs, crashes,
      delays.  The backend is any [PersistentBackend].
    - [Stepper.v] ([sayiir-cloudflare/src/engine.rs], the caller's loop from
      [sayiir-nodejs/src/executor.ts]): the compilation of a tree to a flat plan and
      the machine that runs it, over an interface for the binding's codec;
      [StepperProps.v]: termination and correctness; [StepperWasm.v]: the Worker's
      instance.
    - [WasmFlow.v] ([sayiir-cloudflare/src/flow.rs], [status.rs]): the Worker's flow builder, and what
      it builds run by the stepper.
    - [Postgres.v] ([sayiir-postgres/src/backend.rs], [error.rs], [history.rs],
      [snapshot_store.rs], [task_result_store.rs] and the schema of [migrations/]): the
      tables as a record of finite maps, each SQL statement as a function on them,
      transactions that keep their effects only on success, connection faults and the
      transient retry.
    - [PostgresSignals.v] ([signal_store.rs]), [PostgresClaims.v]
      ([task_claim_store.rs]): signals, events and the composites as transactions;
      claims under the advisory lock, the dispatch query with its scoring, hints and
      the fenced save.  Both interfaces have their Postgres instance here.
    - [PostgresProps.v], [PostgresComposites.v], [PostgresDispatch.v]: the invariant of
      the tables ([db_wf]), the snapshot a load returns ([view]) and what each
      operation does to it; [PostgresInvariant.v]: every operation as a step, and the
      guarantees of the backend.
    - [PostgresWakeup.v] ([wakeup.rs]): the listener and the waiters as interleaved
      atomic steps.
    - [PostgresPool.v] ([backend.rs]): pool options, session timeouts, the version check.
    - [PostgresExample.v]: a concrete server and lawful codecs, for the witnesses.
    - [Simulation.v]: two backends that answer alike ([BackendSim]), and the Worker
      engine over both of them; nothing here names a backend.
    - [D1.v] ([sayiir-d1/src/backend.rs], [snapshot_store.rs], [signal_store.rs],
      [helpers.rs]): the SQLite backend, statement by statement over a driver that may
      fail at any of them, with the cron sweep; [D1Props.v]: it simulates the in-memory
      backend; [D1Invariant.v]: its tables under any calls and faults; [D1Engine.v]:
      the Worker engine on it; [D1Migrations.v] ([schema.rs], [migrations/]): the
      migrations on a model of SQLite's schema; [D1Example.v]: a concrete database.
    - [Json.v] ([sayiir-runtime/src/serialization/json.rs]): documents as data, their text
      as a class with laws, and the JSON codec of envelopes.
    - [NodeCodec.v] ([sayiir-node/src/codec.rs]): JavaScript values as trees, with buffers,
      and both directions of the codec; [NodeCodecProps.v]: what survives it.
    - [Node.v] ([sayiir-node/src/engine.rs], [durable_engine.rs], [workflow_client.rs],
      [worker.rs], [exceptions.rs]; the callers in [sayiir-nodejs/src/executor.ts],
      [binary-codec.ts], [worker.ts]): the synchronous engine, the stepper's instance and
      its caller, the durable engine, the client, the worker's task executor;
      [NodeProps.v]: a durable run; [NodeAgree.v]: engine and stepper compared.
    - [NodeFlow.v] ([sayiir-node/src/flow.rs], [task.rs]): the binding's flow builder.
    - [NodeBackend.v] ([sayiir-node/src/backend.rs], [worker.rs]): the backend enum and the
      configuration of a worker.  [NodeExample.v]: a concrete JSON text and JavaScript
      side, for the witnesses.
    - [Python.v] ([sayiir-py/src/codec.rs], [engine.rs], [durable_engine.rs],
      [workflow_client.rs], [worker.rs], [exceptions.rs]): the Python binding;
      [PythonFlow.v] ([flow.rs], [task.rs]): its flow builder; [PythonProps.v]: its engines
      compared, its codec; [PythonExample.v]: a concrete Python side.
    - [Prelude.v] (this file): results, the state-and-error monad [io], machine
      integers, bytes, the order of strings, automation.

    The executors and the worker call the backend only through [PersistentBackend] and
    [TaskClaimStore]; the in-memory and the Postgres backends implement both, the SQLite
    backend the first.  Every
    backend call and clock reading of the runtime is a step of the world, before which
    the other clients may change the store.

    ** What the theorems show

    - Data: a snapshot is well formed and is what the history of its operations tells
      (status, position, results, retries, loop iterations), and moves only along the
      status machine; serialization, framing, envelopes and pause/unpause round-trip; the
      iterator and the index agree with the recursive definitions.
    - Storage: the store invariant holds in every reachable state; the overrides of
      the composite methods refine their default bodies; claims exclude other
      workers until they expire; the task search returns exactly the eligible tasks
      it may; signals and events behave as documented.
    - Execution: the synchronous executor computes the specification, the
      asynchronous one agrees with it, and does so up to the order of branch results
      for every schedule; the durable executor, started, run and finalized on a backend
      nobody else touches, computes and stores the same output for trees that wait for
      nothing (no delay, signal or task timeout); a run stopped between two tasks at
      the top of the tree, or parked at a delay there, is resumed to the same output,
      when what follows waits for nothing; retries stop; a client's cancel or pause
      stops the run at its next node, and unpausing restores it.
    - Workers: the searches agree with the tree; heartbeats keep a live lease and
      give up after three failures; a worker that lost its claim writes nothing
      behind a fence; failures are retried or fail the workflow; one
      worker completes a chain of tasks with the specified output; the loop respects
      its cap, and a shutdown request stops it.
    - The checkpointing runner: without forks and branches it is the durable executor
      step by step; a fresh run of a tree that waits for nothing, its spawned branches
      finishing in order, computes and stores the specified output; a linear run whose
      process died between two tasks is resumed to it.
    - Builders: a built workflow is implemented, has distinct ids and total routes;
      with a registry it is rehydrated from its own state; a typed pipeline, erased,
      built and executed, computes the encodings of its typed values for every
      schedule; the bindings' builder and the typed one make the same definitions.
    - The Worker binding: its engine computes and stores the specified output, resumes
      after a crash between two tasks or a delay at the top of the tree; the stepper's
      plans compute it too, for trees without signals whose forks have joins, are not
      nested and have branches named after their first task, the only forks its
      builder makes; stepping ends.
    - Postgres: the invariant of the tables holds after any interleaving of operations,
      clocks and faults; what is saved is loaded, outputs reassembled from the task
      rows (only the flushed one comes from the snapshot saved); terminal snapshots are permanent; a task result is recorded once whatever
      acknowledgements are lost; the single-transaction composites refine the default
      bodies; claims exclude other workers and the fence holds; events resume a parked
      instance or queue in order; dispatch offers only tasks that may run, and all of
      them when the limit allows; a notification leads to its task; between the listener
      and the waiters its hint is under way, returned or dropped, counted when the
      channel is full and silently when nobody waits, and the hints under way settle.
    - SQLite: a fault-free operation answers as the in-memory backend's does, on related
      stores (but for a pause of a paused instance and a cancel of a cancelled one), so the Worker engine computes and stores the same on both, and a run on
      SQLite the specified output; the invariant of the tables holds after any calls,
      whichever statements fail, and a failed call leaves every other instance alone;
      the migrations bring an empty or a current database to the same schema, repeated
      or interrupted, and a database that predates them, without the awaited signal's
      column, to an error.
    - The Node.js binding: a value survives a checkpoint, buffers included; its durable
      engine computes and stores the specified output; what the synchronous engine
      computes the stepper and its caller compute, on trees the stepper runs as they
      mean whose forks are joined by tasks, with portable values; the composites its worker runs answer
      as the backend's own.
    - The Python binding: what its synchronous engine returns, a durable run reports and
      stores, for trees that wait for nothing; an object survives a checkpoint, and a join is given a dict of results.
    - Deviations: theorems that exhibit them are named in their comments (definition
      hash, retry delays, the two ways of starting a run, resumed forks, forks and
      other nodes under the worker, collected branches, generated ids, parked branches
      and repeated task ids on the Worker's engine, nested forks in a stepper, the
      output of a task before a delay on Postgres, the sweep on SQLite, values that read
      like branch results, the inputs of joins and the missing fence under the Node.js
      worker, tasks of one name under the Python worker).

    ** Bounds and fuel

    Executors and loops are structural: a tree by its structure, a loop by the
    length of its iteration range.  The iterator's fuel is the number of nodes, and
    it is exactly enough.  The durable retry loop has fuel [max_retries + 2], and
    never uses it up; draining a signal has two turns, and the second never finds
    another signal.  A stepper's fuel is the weight of its plan, loops counted with all their
    iterations, and is enough.  Heartbeats are counted by a parameter, so their loop is
    structural.  A run on Postgres is bounded by the 32-bit history version: a step adds
    at most three versions, so the invariant is stated for runs of up to a third of
    [i32::MAX] steps.  Integers keep their machine width where the source's arithmetic
    can wrap or saturate.

    ** What is not modelled

    Macros, the migrations of Postgres (sqlx runs them), task-local storage, the
    threads and handles of the bindings' workers, telemetry.  JavaScript values are trees:
    a value that contains itself is not one of them.  N-API and the bulk conversions of
    napi-rs are parameters, as are the text of JSON and Python's objects, [json] and [asyncio].  The SQLite driver runs one operation at a time, and the statements of a
    migration in order.  Statements of one Postgres operation are not
    interleaved with another session's: row locks serialise the operations that read
    and then write.  User tasks, the scheduler, timers, [backon], [chrono], [serde_json],
    [dyn Any], JavaScript, the server's collation and row order, and the codecs are parameters, with their documented behaviour as laws
    where a theorem uses it; a hash map is iterated in any order.  Panics of user code are modelled in
    the worker, which catches them, and not in the executors; panics of date
    arithmetic are modelled everywhere.  The clock is any function of the step
    number: no theorem assumes that it is monotone. *)

From stdpp Require Import base gmap strings list sorting numbers option pretty.
From stdpp Require Export base gmap strings list sorting numbers option pretty.
From Stdlib Require Export Strings.Byte.

#[global] Open Scope string_scope.
#[global] Open Scope Z_scope.
#[global] Open Scope list_scope.

(** ** Results

    Rust's [Result<A, E>].  The error type comes first so that [result E] is a
    functor and stdpp's monadic notations [x ← e; k] read like Rust's [?]. *)

Inductive result (E A : Type) : Type :=
| Ok (a : A)
| Err (e : E).
Arguments Ok {E A} a.
Arguments Err {E A} e.
#[export] Instance result_eq_dec {E A} `{EqDecision E, EqDecision A} : EqDecision (result E A).
Proof. solve_decision. Defined.

#[export] Instance result_ret {E} : MRet (result E) := fun A a => Ok a.
#[export] Instance result_bind {E} : MBind (result E) := fun A B k m =>
  match m with Ok a => k a | Err e => Err e end.
#[export] Instance result_fmap {E} : FMap (result E) := fun A B f m =>
  match m with Ok a => Ok (f a) | Err e => Err e end.

(** [Option::ok_or] and [Result::map_err]. *)
Definition ok_or {E A} (o : option A) (e : E) : result E A :=
  match o with Some a => Ok a | None => Err e end.

Definition map_err {E E' A} (f : E → E') (m : result E A) : result E' A :=
  match m with Ok a => Ok a | Err e => Err (f e) end.

(** [Result::ok]. *)
Definition ok {E A} (m : result E A) : option A :=
  match m with Ok a => Some a | Err _ => None end.

(** Collecting an iterator of results: [iter.map(f).collect::<Result<Vec<_>,_>>()],
    which stops at the first error. *)
Fixpoint result_collect {E A} (l : list (result E A)) : result E (list A) :=
  match l with
  | [] => Ok []
  | m :: l => a ← m; as_ ← result_collect l; Ok (a :: as_)
  end.

(** [Option<Result>::transpose]. *)
Definition transpose {E A} (o : option (result E A)) : result E (option A) :=
  match o with None => Ok None | Some m => Some <$> m end.

Lemma result_bind_Ok {E A B} (m : result E A) (k : A → result E B) b :
  (m ≫= k) = Ok b ↔ ∃ a, m = Ok a ∧ k a = Ok b.
Proof. destruct m; cbn; (split; [|by intros (? & ? & ?); simplify_eq]); [|done]. eauto. Qed.

Lemma result_fmap_Ok {E A B} (m : result E A) (f : A → B) b :
  (f <$> m) = Ok b ↔ ∃ a, m = Ok a ∧ b = f a.
Proof.
  destruct m; cbn; (split; [|by intros (? & ? & ->); simplify_eq]); [|done].
  intros [= <-]. eauto.
Qed.

Lemma result_bind_assoc {E A B C} (m : result E A) (f : A → result E B) (g : B → result E C) :
  (m ≫= f) ≫= g = m ≫= (λ a, f a ≫= g).
Proof. by destruct m. Qed.

Lemma result_collect_Ok {E A} (l : list (result E A)) (r : list A) :
  result_collect l = Ok r ↔ Forall2 (λ m a, m = Ok a) l r.
Proof.
  revert r; induction l as [|m l IH]; intros r; cbn.
  - split; [intros [= <-]; constructor|]. by inversion 1.
  - rewrite result_bind_Ok. setoid_rewrite result_bind_Ok. split.
    + intros (a & -> & as_ & Hl & [= <-]). constructor; [done|]. by apply IH.
    + inversion 1 as [|? a ? r' -> Hr]; subst. exists a. split; [done|].
      exists r'. split; [by apply IH|done].
Qed.

Lemma transpose_Ok {E A} (o : option (result E A)) (r : option A) :
  transpose o = Ok r ↔
  match o with None => r = None | Some m => ∃ a, m = Ok a ∧ r = Some a end.
Proof.
  destruct o as [m|]; cbn; [|naive_solver]. rewrite result_fmap_Ok. naive_solver.
Qed.

(** ** Stateful fallible computations

    An operation that mutates shared state [S] and may fail with [E]; as in Rust,
    the effects before an error stay. *)

Definition io (S E A : Type) : Type := S → result E A * S.

#[export] Instance io_ret {S E} : MRet (io S E) := λ A a s, (Ok a, s).
#[export] Instance io_bind {S E} : MBind (io S E) := λ A B k m s,
  match m s with (Ok a, s) => k a s | (Err e, s) => (Err e, s) end.
#[export] Instance io_fmap {S E} : FMap (io S E) := λ A B f m s,
  match m s with (Ok a, s) => (Ok (f a), s) | (Err e, s) => (Err e, s) end.

Definition throw {S E A} (e : E) : io S E A := λ s, (Err e, s).
Definition get_state {S E} : io S E S := λ s, (Ok s, s).
Definition put_state {S E} (s : S) : io S E unit := λ _, (Ok (), s).
Definition lift_result {S E A} (r : result E A) : io S E A := λ s, (r, s).

(** [?] on an operation with a smaller error type: [map_err(From::from)]. *)
Definition io_map_err {S E E' A} (f : E → E') (m : io S E A) : io S E' A := λ s,
  match m s with (Ok a, s) => (Ok a, s) | (Err e, s) => (Err (f e), s) end.

(** A successful run is a chain of successful steps. *)
Lemma io_bind_Ok {S E A B} (m : io S E A) (k : A → io S E B) s b s' :
  (m ≫= k) s = (Ok b, s') ↔ ∃ a s1, m s = (Ok a, s1) ∧ k a s1 = (Ok b, s').
Proof.
  unfold mbind, io_bind. destruct (m s) as [[a|e] s1]; split; try naive_solver.
Qed.

(** ** Machine integers

    A [w]-bit unsigned value is a [Z] in [[0, 2^w)]; the casts the source
    writes ([as u64]) reduce modulo [2^w]. *)

Definition u8_max : Z := 2 ^ 8 - 1.
Definition u32_max : Z := 2 ^ 32 - 1.
Definition u64_max : Z := 2 ^ 64 - 1.
Definition i32_max : Z := 2 ^ 31 - 1.
Definition as_u64 (z : Z) : Z := z mod 2 ^ 64.
Definition is_u32 (z : Z) : Prop := 0 ≤ z ≤ u32_max.
Definition is_u64 (z : Z) : Prop := 0 ≤ z ≤ u64_max.
#[export] Instance is_u32_dec z : Decision (is_u32 z) := _.
#[export] Instance is_u64_dec z : Decision (is_u64 z) := _.

Lemma as_u64_range z : is_u64 (as_u64 z).
Proof. unfold as_u64, is_u64, u64_max. pose proof (Z.mod_pos_bound z (2^64)); lia. Qed.

Lemma as_u64_id z : is_u64 z → as_u64 z = z.
Proof. unfold as_u64, is_u64, u64_max. intros; apply Z.mod_small; lia. Qed.

(** Decimal rendering of an unsigned integer ([to_string]). *)
Definition u_to_string (z : Z) : string := pretty (Z.to_N z).

Lemma u_to_string_inj a b : 0 ≤ a → 0 ≤ b → u_to_string a = u_to_string b → a = b.
Proof. unfold u_to_string. intros ?? H. apply (inj (pretty (A:=N))) in H. lia. Qed.

(** ** Bytes and strings

    [bytes::Bytes] and [&[u8]] are lists of bytes; a Rust [String] is the
    sequence of its UTF-8 bytes, here a Rocq [string]. *)

Abbreviation Bytes := (list byte).

#[export] Instance byte_eq_dec : EqDecision byte := Byte.byte_eq_dec.
#[export] Program Instance byte_countable : Countable byte :=
  inj_countable Byte.to_N Byte.of_N _.
Next Obligation. apply Byte.of_to_N. Qed.

Definition as_bytes (s : string) : Bytes := String.list_byte_of_string s.

Lemma as_bytes_inj s t : as_bytes s = as_bytes t → s = t.
Proof.
  intros H. rewrite <-(String.string_of_list_byte_of_string s),
    <-(String.string_of_list_byte_of_string t). unfold as_bytes in H. by rewrite H.
Qed.

Lemma as_bytes_app s t : as_bytes (s +:+ t) = as_bytes s ++ as_bytes t.
Proof. induction s as [|a s IH]; [done|]. exact (f_equal (cons _) IH). Qed.

Lemma as_bytes_length s : length (as_bytes s) = String.length s.
Proof. induction s as [|a s IH]; [done|]. exact (f_equal S IH). Qed.

(** ** The byte-lexicographic order of Rust strings ([String: Ord]) *)

Fixpoint string_le (s t : string) : bool :=
  match s, t with
  | EmptyString, _ => true
  | String _ _, EmptyString => false
  | String a s, String b t =>
      let x := Ascii.N_of_ascii a in let y := Ascii.N_of_ascii b in
      if bool_decide (x < y)%N then true
      else if bool_decide (x = y) then string_le s t else false
  end.

Lemma string_le_refl s : string_le s s.
Proof.
  induction s as [|a s IH]; cbn; [done|].
  rewrite bool_decide_false by lia. by rewrite bool_decide_true.
Qed.

Lemma string_le_total s t : string_le s t ∨ string_le t s.
Proof.
  revert t; induction s as [|a s IH]; intros [|b t]; cbn; auto.
  repeat (case_bool_decide; auto); lia.
Qed.

Lemma string_le_antisym s t : string_le s t → string_le t s → s = t.
Proof.
  revert t; induction s as [|a s IH]; intros [|b t]; cbn; try done.
  repeat case_bool_decide; try done; try lia. intros ??.
  f_equal; [|by apply IH].
  rewrite <-(Ascii.ascii_N_embedding a), <-(Ascii.ascii_N_embedding b). by f_equal.
Qed.

Lemma string_le_trans s t u : string_le s t → string_le t u → string_le s u.
Proof.
  revert t u; induction s as [|a s IH]; intros [|b t] [|c u]; cbn; try done.
  repeat case_bool_decide; try done; try lia. eauto.
Qed.

(** Sorting a list of pairs by their string key. *)
Definition key_le {A} (p q : string * A) : Prop := string_le p.1 q.1.
#[export] Instance key_le_dec {A} (p q : string * A) : Decision (key_le p q) := _.
#[export] Instance key_le_total {A} : Total (@key_le A).
Proof. intros p q. apply string_le_total. Qed.
#[export] Instance key_le_trans {A} : Transitive (@key_le A).
Proof. intros p q r. apply string_le_trans. Qed.

(** [keys.sort()] followed by lookups: the entries in key order. *)
Definition sort_by_key {A} (l : list (string * A)) : list (string * A) :=
  merge_sort key_le l.

Lemma StronglySorted_key_unique {A} (l k : list (string * A)) :
  NoDup l.*1 → l ≡ₚ k → StronglySorted key_le l → StronglySorted key_le k → l = k.
Proof.
  revert k; induction l as [|p l IH]; intros k Hnd Hp Hl Hk.
  { by apply Permutation_nil_l in Hp as ->. }
  destruct k as [|q k]; [by apply Permutation_nil_r in Hp|].
  assert (p = q) as <-.
  { inversion Hl as [|? ? Hl' Hpl]; inversion Hk as [|? ? Hk' Hqk]; subst.
    assert (Hq : q ∈ p :: l) by (rewrite Hp; constructor).
    assert (Hp' : p ∈ q :: k) by (rewrite <-Hp; constructor).
    apply elem_of_cons in Hq as [->|Hq]; [done|].
    apply elem_of_cons in Hp' as [->|Hp']; [done|].
    rewrite Forall_forall in Hpl, Hqk.
    assert (p.1 = q.1) as Heq by (apply string_le_antisym; [by apply Hpl|by apply Hqk]).
    exfalso. cbn in Hnd. apply NoDup_cons in Hnd as [Hnin _]. apply Hnin.
    rewrite Heq. apply list_elem_of_fmap. eauto. }
  f_equal. inversion Hl; inversion Hk; subst. apply IH; try done.
  - by apply NoDup_cons in Hnd as [_ ?].
  - by apply Permutation_cons_inv in Hp.
Qed.

(** Sorting forgets the iteration order of a map with unique keys. *)
Lemma sort_by_key_perm {A} (l k : list (string * A)) :
  NoDup l.*1 → l ≡ₚ k → sort_by_key l = sort_by_key k.
Proof.
  intros Hnd Hp. unfold sort_by_key. apply StronglySorted_key_unique.
  - by rewrite merge_sort_Permutation.
  - by rewrite !merge_sort_Permutation.
  - apply (StronglySorted_merge_sort _).
  - apply (StronglySorted_merge_sort _).
Qed.

(** Sorting compares keys only, so it commutes with a map of the values. *)
Section SortFmap.
Context {A B : Type} (f : A → B).
Let g : string * A → string * B := prod_map id f.
Let gs : list (option (list (string * A))) → list (option (list (string * B))) :=
  map (option_map (map g)).

Lemma list_merge_fmap (l k : list (string * A)) :
  g <$> list_merge key_le l k = list_merge key_le (g <$> l) (g <$> k).
Proof.
  revert k; induction l as [|x l IHl]; intros k; [by destruct k|].
  induction k as [|y k IHk]; [done|]. rewrite !fmap_cons. cbn.
  destruct (decide (key_le x y)) as [Hxy|Hxy].
  - rewrite decide_True by (by destruct x, y). rewrite fmap_cons, IHl. done.
  - rewrite decide_False by (by destruct x, y). rewrite fmap_cons. f_equal. exact IHk.
Qed.

Lemma merge_list_to_stack_fmap (st : list (option (list (string * A)))) l :
  gs (merge_list_to_stack key_le st l) = merge_list_to_stack key_le (gs st) (g <$> l).
Proof.
  revert l; induction st as [|[l'|] st IH]; intros l; cbn; [done| |done].
  f_equal. rewrite IH. f_equal. apply list_merge_fmap.
Qed.

Lemma merge_stack_fmap (st : list (option (list (string * A)))) :
  g <$> merge_stack key_le st = merge_stack key_le (gs st).
Proof.
  induction st as [|[l|] st IH]; cbn; [done| |done]. rewrite list_merge_fmap. by f_equal.
Qed.

Lemma sort_by_key_fmap (l : list (string * A)) : g <$> sort_by_key l = sort_by_key (g <$> l).
Proof.
  unfold sort_by_key, merge_sort.
  change (@nil (option (list (string * B)))) with (gs []).
  generalize (@nil (option (list (string * A)))).
  induction l as [|x l IH]; intros st; cbn; [apply merge_stack_fmap|].
  rewrite IH. f_equal. apply merge_list_to_stack_fmap.
Qed.
End SortFmap.

(** ** Maps as association lists

    A [HashMap] whose iteration order the source observes is a list of its
    entries in that (unspecified) order, with unique keys. *)

Fixpoint assoc {A} (k : string) (l : list (string * A)) : option A :=
  match l with
  | [] => None
  | (k', a) :: l => if bool_decide (k = k') then Some a else assoc k l
  end.

Lemma assoc_elem {A} k (l : list (string * A)) a : assoc k l = Some a → (k, a) ∈ l.
Proof.
  induction l as [|[k' a'] l IH]; cbn; [done|]. case_bool_decide; subst.
  - intros [= ->]. constructor.
  - intros ?. constructor. auto.
Qed.

Lemma assoc_fmap {A B} (f : A → B) k (l : list (string * A)) :
  assoc k (prod_map id f <$> l) = f <$> assoc k l.
Proof. induction l as [|[k' a] l IH]; cbn; [done|]. by case_bool_decide. Qed.

(** ** Automation *)

Create HintDb sayiir.

(** Split a monadic [result] computation that succeeded. *)
Ltac inv_result :=
  repeat match goal with
  | H : (_ ≫= _) = Ok _ |- _ => apply result_bind_Ok in H as (? & ? & H)
  | H : (_ <$> _) = Ok _ |- _ => apply result_fmap_Ok in H as (? & ? & H)
  | H : ok_or ?o _ = Ok _ |- _ => destruct o eqn:?; cbn in H; [|discriminate H]
  | H : (_ ≫= _) _ = (Ok _, _) |- _ => apply io_bind_Ok in H as (? & ? & ? & H)
  | H : Ok _ = Ok _ |- _ => injection H as H
  | H : Err _ = Ok _ |- _ => discriminate H
  | H : Ok _ = Err _ |- _ => discriminate H
  end; simplify_eq/=.
