(* ===== verification/Hash32.v ===== *)
(** * 32-byte identifiers ([sayiir-core/src/hash32.rs])

    [Hash32] is a [[u8; 32]]: a byte list with a length certificate.  The
    semantic newtypes [TaskId] and [DefinitionHash] wrap it.  SHA-256 comes from
    the [sha2] crate and is an operation of the class [Sha256]; it is never
    assumed injective, only collision-free on the finite set of names at hand. *)

From S2P Require Import Prelude.

(** ** The value type *)

Record Hash32 : Type := MkHash32 {
  hash_bytes : Bytes;
  hash_length : bool_decide (length hash_bytes = 32%nat)
}.
Add Printing Constructor Hash32.

(** [Hash32ParseError]. *)
Inductive Hash32ParseError : Type :=
| WrongLength (len : nat)
| InvalidChar (c : byte).

Lemma Hash32_eq (a b : Hash32) : hash_bytes a = hash_bytes b → a = b.
Proof.
  destruct a as [la Ha], b as [lb Hb]; cbn. intros ->. f_equal. apply proof_irrel.
Qed.

Lemma hash_bytes_length (h : Hash32) : length (hash_bytes h) = 32%nat.
Proof. destruct h as [l Hl]. exact (bool_decide_unpack _ Hl). Qed.

#[export] Instance Hash32_eq_dec : EqDecision Hash32.
Proof.
  intros a b. destruct (decide (hash_bytes a = hash_bytes b)) as [H|H].
  - left. by apply Hash32_eq.
  - right. congruence.
Defined.

(** [Hash32::from_slice]: length-checked construction. *)
Definition from_slice (bytes : Bytes) : result Hash32ParseError Hash32 :=
  match decide (length bytes = 32%nat) with
  | left H => Ok (MkHash32 bytes (bool_decide_pack _ H))
  | right _ => Err (WrongLength (length bytes))
  end.

#[export] Program Instance Hash32_countable : Countable Hash32 :=
  inj_countable hash_bytes (λ l, ok (from_slice l)) _.
Next Obligation.
  intros h. unfold from_slice. case_decide as Hd; cbn.
  - f_equal. by apply Hash32_eq.
  - exfalso. apply Hd. apply hash_bytes_length.
Qed.

(** [Hash32::ZERO] and [Default]. *)
Definition ZERO : Hash32 := MkHash32 (replicate 32 x00) I.

(** ** Hexadecimal rendering *)

(** One lowercase hexadecimal digit of [{:x}]. *)
Definition hex_digit (n : N) : byte :=
  default x00 (Byte.of_N (if bool_decide (n < 10)%N then n + 48 else n + 87)%N).

(** [write!(s, "{byte:02x}")]. *)
Definition hex_byte (b : byte) : Bytes :=
  [hex_digit (Byte.to_N b / 16); hex_digit (Byte.to_N b mod 16)].

(** [Hash32::to_hex] (and [Display]). *)
Definition to_hex (h : Hash32) : string :=
  String.string_of_list_byte (hash_bytes h ≫= hex_byte).

(** [decode_nibble]: the ranges are [b'0'..=b'9'], [b'a'..=b'f'], [b'A'..=b'F']. *)
Definition decode_nibble (c : byte) : result Hash32ParseError N :=
  let n := Byte.to_N c in
  if bool_decide (48 ≤ n ∧ n ≤ 57)%N then Ok (n - 48)%N
  else if bool_decide (97 ≤ n ∧ n ≤ 102)%N then Ok (n - 97 + 10)%N
  else if bool_decide (65 ≤ n ∧ n ≤ 70)%N then Ok (n - 65 + 10)%N
  else Err (InvalidChar c).

(** The decoding loop of [from_hex]: the [i]-th output byte reads input bytes
    [2i] and [2i+1]; [unwrap_or(0)] never fires because the length is 64. *)
Fixpoint decode_pairs (i : nat) (input : Bytes) : result Hash32ParseError Bytes :=
  match i with
  | O => Ok []
  | S i =>
      let lo := default x00 (input !! 0%nat) in
      let hi := default x00 (input !! 1%nat) in
      a ← decode_nibble lo;
      b ← decode_nibble hi;
      rest ← decode_pairs i (drop 2 input);
      Ok (default x00 (Byte.of_N (N.lor (N.shiftl a 4) b)) :: rest)
  end.

(** [Hash32::from_hex]. *)
Definition from_hex (s : string) : result Hash32ParseError Hash32 :=
  let bytes_in := as_bytes s in
  if bool_decide (length bytes_in = 64%nat)
  then bytes ← decode_pairs 32 bytes_in; from_slice bytes
  else Err (WrongLength (length bytes_in)).

(** ** Correctness of the hexadecimal codec *)

Lemma as_bytes_of_list_byte (l : Bytes) : as_bytes (String.string_of_list_byte l) = l.
Proof. apply String.list_byte_of_string_of_list_byte. Qed.

Lemma decode_hex_byte (b : byte) (rest : Bytes) :
  ∃ hi lo, hex_byte b = [hi; lo] ∧
    ∃ x y, decode_nibble hi = Ok x ∧ decode_nibble lo = Ok y ∧
      Byte.of_N (N.lor (N.shiftl x 4) y) = Some b.
Proof. destruct b; (do 2 eexists; split; [done|]; do 2 eexists; by vm_compute). Qed.

Lemma decode_pairs_cons i x y (rest : Bytes) :
  decode_pairs (S i) (x :: y :: rest) =
  (a ← decode_nibble x; b ← decode_nibble y; r ← decode_pairs i rest;
   Ok (default x00 (Byte.of_N (N.lor (N.shiftl a 4) b)) :: r)).
Proof. reflexivity. Qed.

Lemma decode_pairs_hex (l rest : Bytes) :
  decode_pairs (length l) ((l ≫= hex_byte) ++ rest) = Ok l.
Proof.
  induction l as [|b l IH]; [done|]. rewrite bind_cons.
  destruct (decode_hex_byte b rest) as (hi & lo & -> & x & y & Hx & Hy & Hb).
  cbn [length app]. rewrite decode_pairs_cons, Hx, Hy. cbn [mbind result_bind].
  rewrite IH. cbn. by rewrite Hb.
Qed.

Lemma hex_length (l : Bytes) : length (l ≫= hex_byte) = (2 * length l)%nat.
Proof. induction l as [|b l IH]; [done|]. rewrite bind_cons, length_app, IH. cbn. lia. Qed.

Lemma from_slice_hash (h : Hash32) : from_slice (hash_bytes h) = Ok h.
Proof.
  unfold from_slice. case_decide as Hd; [|by destruct Hd; apply hash_bytes_length].
  f_equal. by apply Hash32_eq.
Qed.

Lemma to_hex_bytes (h : Hash32) : as_bytes (to_hex h) = hash_bytes h ≫= hex_byte.
Proof. apply as_bytes_of_list_byte. Qed.

Lemma to_hex_length (h : Hash32) : length (as_bytes (to_hex h)) = 64%nat.
Proof. by rewrite to_hex_bytes, hex_length, hash_bytes_length. Qed.

Lemma from_hex_to_hex (h : Hash32) : from_hex (to_hex h) = Ok h.
Proof.
  unfold from_hex. rewrite bool_decide_true by apply to_hex_length.
  rewrite to_hex_bytes, <-(app_nil_r (_ ≫= _)).
  rewrite <-(hash_bytes_length h) at 1. rewrite decode_pairs_hex. cbn.
  apply from_slice_hash.
Qed.

Lemma to_hex_inj (a b : Hash32) : to_hex a = to_hex b → a = b.
Proof.
  intros H. assert (Ok a = (Ok b : result Hash32ParseError _)) by
    (by rewrite <-!from_hex_to_hex, H). by simplify_eq.
Qed.

(** ** Which strings parse *)

Definition is_hex_digit (c : byte) : bool :=
  match decode_nibble c with Ok _ => true | Err _ => false end.

Lemma decode_nibble_bound c n : decode_nibble c = Ok n → (n < 16)%N.
Proof.
  unfold decode_nibble. repeat case_bool_decide; intros; simplify_eq; lia.
Qed.

Definition nibbles : list N := N.of_nat <$> seq 0 16.

Lemma elem_nibbles a : (a < 16)%N → a ∈ nibbles.
Proof. intros. apply list_elem_of_fmap. exists (N.to_nat a). rewrite elem_of_seq. lia. Qed.

(** A fact about two nibbles, checked on all 256 pairs. *)
Lemma nibbles_check (P : N → N → bool) :
  bool_decide (Forall (λ a, Forall (P a) nibbles) nibbles) →
  ∀ a b, (a < 16)%N → (b < 16)%N → P a b.
Proof.
  intros HF%bool_decide_unpack a b Ha%elem_nibbles Hb%elem_nibbles.
  rewrite Forall_forall in HF. specialize (HF _ Ha). rewrite Forall_forall in HF. auto.
Qed.

(** Joining two nibbles into a byte and splitting it again. *)
Lemma join_nibbles a b : (a < 16)%N → (b < 16)%N →
  hex_byte (default x00 (Byte.of_N (N.lor (N.shiftl a 4) b))) = [hex_digit a; hex_digit b].
Proof.
  revert a b. pose (P a b := bool_decide
    (hex_byte (default x00 (Byte.of_N (N.lor (N.shiftl a 4) b))) = [hex_digit a; hex_digit b])).
  assert (∀ a b, (a < 16)%N → (b < 16)%N → P a b) as HP
    by (apply (nibbles_check P); by vm_compute).
  intros a b Ha Hb. exact (bool_decide_unpack _ (HP a b Ha Hb)).
Qed.

(** ASCII lowercase of a byte. *)
Definition ascii_lower (c : byte) : byte :=
  if bool_decide (65 ≤ Byte.to_N c ∧ Byte.to_N c ≤ 90)%N
  then default c (Byte.of_N (Byte.to_N c + 32)) else c.

Lemma decode_nibble_lower c n : decode_nibble c = Ok n → hex_digit n = ascii_lower c.
Proof. destruct c; vm_compute; intros; by simplify_eq. Qed.

Lemma decode_nibble_err c e : decode_nibble c = Err e → e = InvalidChar c.
Proof. unfold decode_nibble. repeat case_bool_decide; intros; by simplify_eq. Qed.

(** What the decoding loop computes: the bytes whose lowercase rendering is the
    input, or the first character that is not a hexadecimal digit. *)
Definition decode_outcome (input : Bytes) (o : result Hash32ParseError Bytes) : Prop :=
  match o with
  | Ok r => Forall (λ c, is_hex_digit c) input ∧ r ≫= hex_byte = ascii_lower <$> input
  | Err (InvalidChar c) => ∃ pre post, input = pre ++ c :: post ∧
      Forall (λ c, is_hex_digit c) pre ∧ is_hex_digit c = false
  | Err (WrongLength _) => False
  end.

Lemma decode_pairs_spec i (input : Bytes) :
  length input = (2 * i)%nat → decode_outcome input (decode_pairs i input).
Proof.
  revert input; induction i as [|i IH]; intros input Hlen.
  { destruct input; [|done]. split; [constructor|done]. }
  destruct input as [|x [|y rest]]; cbn in Hlen; try lia.
  assert (length rest = (2 * i)%nat) as Hr by lia. specialize (IH rest Hr).
  rewrite decode_pairs_cons.
  destruct (decode_nibble x) as [a|ex] eqn:Ex; cbn [mbind result_bind].
  2:{ rewrite (decode_nibble_err _ _ Ex). exists [], (y :: rest). split; [done|].
      split; [done|]. unfold is_hex_digit. by rewrite Ex. }
  assert (is_hex_digit x) as Hx by (unfold is_hex_digit; by rewrite Ex).
  destruct (decode_nibble y) as [b|ey] eqn:Ey; cbn [mbind result_bind].
  2:{ rewrite (decode_nibble_err _ _ Ey). exists [x], rest. split; [done|].
      split; [by constructor|]. unfold is_hex_digit. by rewrite Ey. }
  assert (is_hex_digit y) as Hy by (unfold is_hex_digit; by rewrite Ey).
  destruct (decode_pairs i rest) as [r|[n|c]]; cbn [mbind result_bind];
    unfold decode_outcome in *.
  - destruct IH as [HF HB]. split; [by repeat constructor|].
    rewrite bind_cons, join_nibbles by (by eapply decode_nibble_bound).
    rewrite HB. cbn. by rewrite (decode_nibble_lower _ _ Ex), (decode_nibble_lower _ _ Ey).
  - done.
  - destruct IH as (pre & post & -> & HF & Hc). exists (x :: y :: pre), post.
    split; [done|]. split; [by repeat constructor|done].
Qed.

Lemma decode_pairs_length i input r : decode_pairs i input = Ok r → length r = i.
Proof.
  revert input r; induction i as [|i IH]; intros input r; cbn; intros H; inv_result; [done|].
  f_equal. eauto.
Qed.

(** ** Semantic newtypes *)

Record TaskId : Type := MkTaskId { task_hash : Hash32 }.
Record DefinitionHash : Type := MkDefinitionHash { def_hash : Hash32 }.
Add Printing Constructor TaskId.
Add Printing Constructor DefinitionHash.

#[export] Instance TaskId_eq_dec : EqDecision TaskId.
Proof. solve_decision. Defined.
#[export] Instance DefinitionHash_eq_dec : EqDecision DefinitionHash.
Proof. solve_decision. Defined.
#[export] Program Instance TaskId_countable : Countable TaskId :=
  inj_countable task_hash (λ h, Some (MkTaskId h)) _.
Next Obligation. by intros []. Qed.
#[export] Program Instance DefinitionHash_countable : Countable DefinitionHash :=
  inj_countable def_hash (λ h, Some (MkDefinitionHash h)) _.
Next Obligation. by intros []. Qed.

Definition TaskId_default : TaskId := MkTaskId ZERO.
Definition DefinitionHash_default : DefinitionHash := MkDefinitionHash ZERO.

(** SHA-256, from the [sha2] crate. *)
Class Sha256 : Type := sha256 : Bytes → Hash32.

Section Names.
Context `{Sha256}.

(** [TaskId::from(&str)] hashes the name; it does not parse hexadecimal. *)
Definition TaskId_from (name : string) : TaskId := MkTaskId (sha256 (as_bytes name)).

(** No two names of the list collide: what the engine relies on when it keys
    results by [TaskId]. *)
Definition collision_free (names : list string) : Prop :=
  ∀ a b, a ∈ names → b ∈ names → TaskId_from a = TaskId_from b → a = b.

Lemma collision_free_subset names names' :
  names' ⊆ names → collision_free names → collision_free names'.
Proof. intros Hsub Hcf a b Ha Hb. apply Hcf; by apply Hsub. Qed.

#[export] Instance collision_free_dec names : Decision (collision_free names).
Proof.
  destruct (decide (Forall (λ a, Forall (λ b, TaskId_from a = TaskId_from b → a = b) names) names))
    as [HF|HF].
  - left. intros a b Ha Hb. rewrite Forall_forall in HF. specialize (HF a Ha).
    rewrite Forall_forall in HF. by apply HF.
  - right. intros Hcf. apply HF, Forall_forall. intros a Ha. apply Forall_forall.
    intros b Hb. by apply Hcf.
Defined.
End Names.

(** ** Properties *)

(** Rendering an identifier as hexadecimal and parsing it back gives the
    same identifier, and the rendering always has 64 characters. *)
Theorem hex_roundtrip (h : Hash32) :
  from_hex (to_hex h) = Ok h ∧ length (as_bytes (to_hex h)) = 64%nat.
Proof. split; [apply from_hex_to_hex|apply to_hex_length]. Qed.

(** [from_hex] is characterised on every input: it accepts exactly the
    strings of 64 hexadecimal digits, in either case, and the accepted
    identifier renders as the lowercase of the input; otherwise it reports the
    actual length, or the first character that is not a digit. *)
Theorem from_hex_spec (s : string) :
  match from_hex s with
  | Ok h => length (as_bytes s) = 64%nat ∧ Forall (λ c, is_hex_digit c) (as_bytes s) ∧
      as_bytes (to_hex h) = ascii_lower <$> as_bytes s
  | Err (WrongLength n) => n = length (as_bytes s) ∧ n ≠ 64%nat
  | Err (InvalidChar c) => length (as_bytes s) = 64%nat ∧
      ∃ pre post, as_bytes s = pre ++ c :: post ∧
        Forall (λ c, is_hex_digit c) pre ∧ is_hex_digit c = false
  end.
Proof.
  unfold from_hex. case_bool_decide as Hlen; [|done].
  pose proof (decode_pairs_spec 32 (as_bytes s) Hlen) as HD.
  destruct (decode_pairs 32 (as_bytes s)) as [r|[n|c]] eqn:E; cbn in HD |- *; [|done|done].
  assert (length r = 32%nat) as Hr by (by eapply decode_pairs_length).
  unfold from_slice. case_decide; [|done]. rewrite to_hex_bytes. naive_solver.
Qed.
