(* ===== verification/SnapshotFormat.v ===== *)
(** * The durable snapshot envelope and the loop envelope

    [sayiir-core/src/snapshot_format.rs]: the frozen v1 frame
    [magic | version | codec id | payload] every durable backend stores, and
    [sayiir-core/src/codec.rs]: the one-byte loop envelope.  The payload codecs
    (serde_json, rkyv) are third-party and enter as the class [SnapshotCodec]. *)

From S2P Require Import Prelude.

(** ** The v1 frame *)

Module Frame.

(** [SNAPSHOT_MAGIC = *b"SYRS"]. *)
Definition SNAPSHOT_MAGIC : Bytes := as_bytes "SYRS".
Definition SNAPSHOT_FORMAT_VERSION : byte := x01.
Definition HEADER_LEN : nat := (length SNAPSHOT_MAGIC + 2)%nat.

Inductive CodecId : Type := Json | Rkyv.
#[export] Instance CodecId_eq_dec : EqDecision CodecId.
Proof. solve_decision. Defined.

Inductive FormatError : Type :=
| MissingMagic
| Truncated
| UnsupportedVersion (v : byte)
| UnknownCodec (b : byte)
| CodecMismatch (expected found : CodecId).

Record SnapshotFrame : Type := MkSnapshotFrame {
  format_version : byte;
  codec_id : CodecId;
  payload : Bytes
}.

(** [CodecId::as_u8], [CodecId::from_u8] and [CodecId::name]. *)
Definition CodecId_as_u8 (c : CodecId) : byte :=
  match c with Json => x01 | Rkyv => x02 end.

Definition CodecId_from_u8 (b : byte) : result FormatError CodecId :=
  match b with
  | x01 => Ok Json
  | x02 => Ok Rkyv
  | other => Err (UnknownCodec other)
  end.

Definition CodecId_name (c : CodecId) : string :=
  match c with Json => "json" | Rkyv => "rkyv" end.

(** [slice::strip_prefix] and [slice::split_first]. *)
Fixpoint strip_prefix (p l : Bytes) : option Bytes :=
  match p, l with
  | [], _ => Some l
  | _ :: _, [] => None
  | a :: p, b :: l => if bool_decide (a = b) then strip_prefix p l else None
  end.

Definition split_first (l : Bytes) : option (byte * Bytes) :=
  match l with [] => None | a :: l => Some (a, l) end.

(** [frame_snapshot]. *)
Definition frame_snapshot (codec_id : CodecId) (payload : Bytes) : Bytes :=
  SNAPSHOT_MAGIC ++ [SNAPSHOT_FORMAT_VERSION] ++ [CodecId_as_u8 codec_id] ++ payload.

(** [unframe_snapshot]. *)
Definition unframe_snapshot (bytes : Bytes) : result FormatError SnapshotFrame :=
  after_magic ← ok_or (strip_prefix SNAPSHOT_MAGIC bytes) MissingMagic;
  '(format_version, after_version) ← ok_or (split_first after_magic) Truncated;
  if bool_decide (format_version ≠ SNAPSHOT_FORMAT_VERSION)
  then Err (UnsupportedVersion format_version)
  else
    '(codec_byte, payload) ← ok_or (split_first after_version) Truncated;
    codec_id ← CodecId_from_u8 codec_byte;
    Ok (MkSnapshotFrame format_version codec_id payload).

(** [unframe_snapshot_checked]. *)
Definition unframe_snapshot_checked (bytes : Bytes) (expected : CodecId) :
    result FormatError SnapshotFrame :=
  frame ← unframe_snapshot bytes;
  if bool_decide (codec_id frame ≠ expected)
  then Err (CodecMismatch expected (codec_id frame))
  else Ok frame.

(** *** Lemmas *)

Lemma strip_prefix_app p l : strip_prefix p (p ++ l) = Some l.
Proof. induction p as [|a p IH]; [done|]. cbn. by rewrite bool_decide_true. Qed.

Lemma strip_prefix_Some p l r : strip_prefix p l = Some r ↔ l = p ++ r.
Proof.
  split; [|intros ->; apply strip_prefix_app].
  revert l; induction p as [|a p IH]; intros l; cbn; [by intros [= ->]|].
  destruct l as [|b l]; [done|]. case_bool_decide; [|done]. subst.
  intros ->%IH. done.
Qed.

Lemma CodecId_from_as_u8 c : CodecId_from_u8 (CodecId_as_u8 c) = Ok c.
Proof. by destruct c. Qed.

Lemma CodecId_from_u8_Ok b c : CodecId_from_u8 b = Ok c → b = CodecId_as_u8 c.
Proof. destruct b; cbn; intros; by simplify_eq. Qed.

Lemma CodecId_from_u8_Err b e : CodecId_from_u8 b = Err e →
  e = UnknownCodec b ∧ ∀ c, b ≠ CodecId_as_u8 c.
Proof. destruct b; cbn; intros; simplify_eq; split; try done; intros []; done. Qed.

(** The specification of the reader: what each outcome says about the blob. *)
Definition unframe_outcome (bytes : Bytes) (o : result FormatError SnapshotFrame) : Prop :=
  match o with
  | Ok f => format_version f = SNAPSHOT_FORMAT_VERSION ∧
      bytes = frame_snapshot (codec_id f) (payload f)
  | Err MissingMagic => ∀ r, bytes ≠ SNAPSHOT_MAGIC ++ r
  | Err Truncated => bytes = SNAPSHOT_MAGIC ∨ bytes = SNAPSHOT_MAGIC ++ [SNAPSHOT_FORMAT_VERSION]
  | Err (UnsupportedVersion v) => v ≠ SNAPSHOT_FORMAT_VERSION ∧
      ∃ r, bytes = SNAPSHOT_MAGIC ++ v :: r
  | Err (UnknownCodec b) => (∀ c, b ≠ CodecId_as_u8 c) ∧
      ∃ r, bytes = SNAPSHOT_MAGIC ++ SNAPSHOT_FORMAT_VERSION :: b :: r
  | Err (CodecMismatch _ _) => False
  end.

(** Every blob is classified by [unframe_snapshot] according to the format
    document: a parsed frame is exactly a v1 frame of its payload, and each
    error names the first header field that is wrong (so a blob written under
    another version or codec is never mis-read). *)
Theorem unframe_snapshot_spec (bytes : Bytes) :
  unframe_outcome bytes (unframe_snapshot bytes).
Proof.
  unfold unframe_snapshot.
  destruct (strip_prefix SNAPSHOT_MAGIC bytes) as [r|] eqn:E; cbn [ok_or mbind result_bind].
  2:{ intros r ->. by rewrite strip_prefix_app in E. }
  apply strip_prefix_Some in E as ->.
  destruct r as [|v r]; cbn [split_first ok_or mbind result_bind].
  { left. by rewrite app_nil_r. }
  case_bool_decide as Hv; [by split; [|exists r]|]. subst v.
  destruct r as [|b r]; cbn [split_first ok_or mbind result_bind]; [by right|].
  destruct (CodecId_from_u8 b) as [c|e] eqn:Eb; cbn [mbind result_bind].
  - apply CodecId_from_u8_Ok in Eb as ->. done.
  - apply CodecId_from_u8_Err in Eb as [-> Hb]. cbn. eauto.
Qed.

Lemma unframe_checked_frame (c expected : CodecId) (p : Bytes) :
  unframe_snapshot_checked (frame_snapshot c p) expected =
  if bool_decide (c = expected)
  then Ok (MkSnapshotFrame SNAPSHOT_FORMAT_VERSION c p)
  else Err (CodecMismatch expected c).
Proof. destruct c, expected; reflexivity. Qed.

(** Framing then reading with the same codec returns the payload; reading
    with another codec fails and names both codecs. *)
Theorem frame_roundtrip (c expected : CodecId) (p : Bytes) :
  unframe_snapshot_checked (frame_snapshot c p) expected =
  if bool_decide (c = expected)
  then Ok (MkSnapshotFrame SNAPSHOT_FORMAT_VERSION c p)
  else Err (CodecMismatch expected c).
Proof. apply unframe_checked_frame. Qed.

(** ** Durable encode and decode of snapshots *)

(** What the backends know of a codec: it encodes and decodes snapshots, either
    of which may fail, and it has an identity. *)
Class SnapshotCodec (T BoxError : Type) : Type := {
  encode_value : T → result BoxError Bytes;
  decode_value : Bytes → result BoxError T;
  identity : CodecId
}.

(** Decoding is a left inverse of encoding. *)
Class SnapshotCodecLaws (T BoxError : Type) `{SnapshotCodec T BoxError} : Prop :=
  decode_encode_value : ∀ v b, encode_value v = Ok b → decode_value b = Ok v.

(** A decode error is either a format error or the codec's own. *)
Inductive DecodeError (BoxError : Type) : Type :=
| FromFormat (e : FormatError)
| FromCodec (e : BoxError).
Arguments FromFormat {BoxError}.
Arguments FromCodec {BoxError}.

Section Framed.
Context {T BoxError : Type} `{SnapshotCodec T BoxError}.

(** [encode_framed]. *)
Definition encode_framed (snapshot : T) : result BoxError Bytes :=
  payload ← encode_value snapshot;
  Ok (frame_snapshot identity payload).

(** [decode_framed]. *)
Definition decode_framed (data : Bytes) : result (DecodeError BoxError) T :=
  frame ← map_err FromFormat (unframe_snapshot_checked data identity);
  map_err FromCodec (decode_value (payload frame)).

(** A snapshot that was durably encoded decodes to itself, for any codec
    whose decoder inverts its encoder. *)
Theorem framed_roundtrip `{!SnapshotCodecLaws T BoxError} (v : T) (blob : Bytes) :
  encode_framed v = Ok blob → decode_framed blob = Ok v.
Proof.
  unfold encode_framed, decode_framed. intros Henc. inv_result.
  rewrite unframe_checked_frame, bool_decide_true by done. cbn.
  by erewrite decode_encode_value.
Qed.
End Framed.

(** A one-byte-per-value codec, to exhibit the laws. *)
#[local] Instance toy_codec : SnapshotCodec bool unit := {
  encode_value b := Ok [if b then x01 else x00];
  decode_value l := match l with [x01] => Ok true | [x00] => Ok false | _ => Err tt end;
  identity := Json
}.
#[local] Instance toy_codec_laws : SnapshotCodecLaws bool unit.
Proof. intros [] b [= <-]; reflexivity. Qed.

Lemma framed_roundtrip_witness :
  decode_framed [x53; x59; x52; x53; x01; x01; x01] = (Ok true : result (DecodeError unit) bool).
Proof. apply (framed_roundtrip true). reflexivity. Defined.

End Frame.

(** ** The loop envelope *)

Module LoopEnvelope.

Inductive LoopDecision : Type := Again | Done.
#[export] Instance LoopDecision_eq_dec : EqDecision LoopDecision.
Proof. solve_decision. Defined.

(** The error strings of [decode_loop_envelope], as a type. *)
Inductive EnvelopeError : Type :=
| EmptyEnvelope
| InvalidTag (tag : byte).

(** [encode_loop_envelope]. *)
Definition encode_loop_envelope (decision : LoopDecision) (inner : Bytes) : Bytes :=
  match decision with Again => x00 | Done => x01 end :: inner.

(** [codec::decode_loop_envelope]. *)
Definition decode_loop_envelope (bytes : Bytes) : result EnvelopeError (LoopDecision * Bytes) :=
  match bytes with
  | [] => Err EmptyEnvelope
  | tag :: inner =>
      match tag with
      | x00 => Ok (Again, inner)
      | x01 => Ok (Done, inner)
      | _ => Err (InvalidTag tag)
      end
  end.

(** The loop envelope is a bijection between decision/payload pairs and
    the byte strings that start with tag 0 or 1; every other input is rejected. *)
Theorem loop_envelope_spec (bytes : Bytes) (d : LoopDecision) (inner : Bytes) :
  decode_loop_envelope bytes = Ok (d, inner) ↔ bytes = encode_loop_envelope d inner.
Proof.
  split; [|intros ->; by destruct d].
  destruct bytes as [|tag r]; [done|]. destruct tag; cbn; intros; by simplify_eq.
Qed.

End LoopEnvelope.
