(* ===== verification/Task.v ===== *)
(** * Time, retry policies, priorities, task metadata, instance ids

    The values tasks are configured with: [sayiir-core/src/task.rs]
    ([RetryPolicy], [TaskMetadata]), [priority.rs], [validation.rs], and the
    clock and floating-point operations the engine uses on them.

    Instants and durations are integers of nanoseconds.  [chrono] is a
    third-party crate: its range-checked operations are the class [Chrono], of
    which only exactness is assumed ([ChronoLaws]).  [f32]/[f64] are IEEE-754
    values ([SpecFloat]); [powi], whose precision Rust leaves unspecified, and
    the decimal rendering of floats are operations of the class [FloatOps]. *)

From S2P Require Import Prelude.
From Stdlib Require Import Floats.SpecFloat.

(** ** Time *)

(** [chrono::DateTime<Utc>]: nanoseconds since the epoch. *)
Abbreviation DateTime := Z.
(** [std::time::Duration] and [chrono::Duration]: nanoseconds. *)
Abbreviation Duration := Z.

Definition ns_per_sec : Z := 10 ^ 9.
Definition ns_per_ms : Z := 10 ^ 6.

(** [Duration::as_millis], [Duration::from_millis], [Duration::from_secs]. *)
Definition as_millis (d : Duration) : Z := d / ns_per_ms.
Definition from_millis (ms : Z) : Duration := ms * ns_per_ms.
Definition from_secs (s : Z) : Duration := s * ns_per_sec.

(** [DateTime::timestamp] and the [as u64] cast the engine applies to it. *)
Definition timestamp (t : DateTime) : Z := t / ns_per_sec.
Definition timestamp_u64 (t : DateTime) : Z := as_u64 (timestamp t).

(** [as i64] of a [u64]. *)
Definition as_i64 (z : Z) : Z :=
  let w := z mod 2 ^ 64 in if bool_decide (w < 2 ^ 63) then w else w - 2 ^ 64.

Lemma millis_roundtrip ms : as_millis (from_millis ms) = ms.
Proof. unfold as_millis, from_millis, ns_per_ms. by rewrite Z.div_mul. Qed.

(** Range-checked date arithmetic of [chrono]. *)
Class Chrono : Type := {
  checked_add_signed : DateTime → Duration → option DateTime;
  duration_from_std : Duration → option Duration;
  duration_milliseconds : Z → option Duration;
  DURATION_MAX : Duration
}.

Class ChronoLaws `{Chrono} : Prop := {
  checked_add_exact : ∀ t d r, checked_add_signed t d = Some r → r = t + d;
  from_std_exact : ∀ d r, duration_from_std d = Some r → r = d;
  milliseconds_exact : ∀ ms r, duration_milliseconds ms = Some r → r = from_millis ms
}.

(** ** Floating point *)

Definition f32 : Type := spec_float.
Definition f64 : Type := spec_float.

Class FloatOps : Type := {
  powi : f32 → Z → f32;
  f32_to_string : f32 → string
}.

(** [u128 as f64] and [f64::from(f32)]: rounding to 53 bits. *)
Definition f64_of_Z (z : Z) : f64 := binary_normalize 53 1024 z 0 false.
Definition f64_of_f32 (x : f32) : f64 :=
  match x with
  | S754_finite s m e => binary_normalize 53 1024 (if s then Z.neg m else Z.pos m) e s
  | _ => x
  end.
Definition f64_mul (x y : f64) : f64 := SFmul 53 1024 x y.

Definition i64_max : Z := 2 ^ 63 - 1.
Definition i64_min : Z := - 2 ^ 63.

(** [f64 as i64]: truncate toward zero, saturate, and map NaN to 0. *)
Definition f64_as_i64 (x : f64) : Z :=
  match x with
  | S754_zero _ | S754_nan => 0
  | S754_infinity s => if s then i64_min else i64_max
  | S754_finite s m e =>
      let v := if bool_decide (0 ≤ e) then Z.pos m * 2 ^ e else Z.pos m / 2 ^ (- e) in
      Z.max i64_min (Z.min i64_max (if s then - v else v))
  end.

Lemma f64_as_i64_range x : i64_min ≤ f64_as_i64 x ≤ i64_max.
Proof.
  destruct x as [|[]| |s m e]; unfold f64_as_i64; try case_match; unfold i64_min, i64_max; lia.
Qed.

(** ** Retry policies *)

Record RetryPolicy : Type := MkRetryPolicy {
  max_retries : Z;               (* u32 *)
  initial_delay : Duration;
  backoff_multiplier : f32;
  max_delay : option Duration
}.

(** [2.0_f32]. *)
Definition f32_two : f32 := binary_normalize 24 128 2 0 false.

(** [RetryPolicy::with_max_retries]. *)
Definition with_max_retries (n : Z) : RetryPolicy :=
  MkRetryPolicy n (from_secs 1) f32_two None.

(** ** Priorities ([priority.rs]) *)

Inductive Priority : Type := Critical | High | Normal | Low | Minimal.
#[export] Instance Priority_eq_dec : EqDecision Priority.
Proof. solve_decision. Defined.

Definition Priority_default : Priority := Normal.

Definition Priority_from_u8 (value : Z) : option Priority :=
  match value with
  | 1 => Some Critical
  | 2 => Some High
  | 3 => Some Normal
  | 4 => Some Low
  | 5 => Some Minimal
  | _ => None
  end.

Definition Priority_as_u8 (p : Priority) : Z :=
  match p with Critical => 1 | High => 2 | Normal => 3 | Low => 4 | Minimal => 5 end.

Lemma Priority_from_u8_spec v p : Priority_from_u8 v = Some p ↔ v = Priority_as_u8 p.
Proof.
  split; [|intros ->; by destruct p].
  unfold Priority_from_u8. intros ?. repeat case_match; by simplify_eq.
Qed.

(** ** Task metadata *)

Record TaskMetadata : Type := MkTaskMetadata {
  display_name : option string;
  description : option string;
  md_timeout : option Duration;
  md_retries : option RetryPolicy;
  md_tags : list string;
  md_version : option string;
  md_priority : option Priority
}.

Definition TaskMetadata_default : TaskMetadata :=
  MkTaskMetadata None None None None [] None None.

(** [TaskMetadata::from_node_fields]. *)
Definition from_node_fields (timeout : option Duration) (retries : option RetryPolicy)
    (version : option string) (priority : option Z) (tags : list string) : TaskMetadata :=
  MkTaskMetadata None None timeout retries tags version (priority ≫= Priority_from_u8).

(** ** Instance ids ([validation.rs]) *)

Definition MAX_INSTANCE_ID_LEN : nat := 256.

Inductive InvalidInstanceId : Type :=
| Empty
| TooLong (len max : nat).

(** [validate_instance_id]. *)
Definition validate_instance_id (instance_id : string) : result InvalidInstanceId unit :=
  if bool_decide (instance_id = "") then Err Empty
  else if bool_decide (MAX_INSTANCE_ID_LEN < length (as_bytes instance_id))%nat
  then Err (TooLong (length (as_bytes instance_id)) MAX_INSTANCE_ID_LEN)
  else Ok ().

Lemma validate_instance_id_Ok s :
  validate_instance_id s = Ok () ↔ (1 ≤ length (as_bytes s) ≤ 256)%nat.
Proof.
  unfold validate_instance_id, MAX_INSTANCE_ID_LEN.
  rewrite as_bytes_length. case_bool_decide as Hs.
  - subst. cbn. split; [done|lia].
  - assert (String.length s ≠ 0%nat) by (destruct s; cbn in *; congruence).
    case_bool_decide; split; try done; lia.
Qed.

(** ** Concrete instances, used to run the model on examples *)

Module Examples.

(** chrono's documented ranges: dates within about 262 000 years of year 0, and
    durations up to [i64::MAX] milliseconds. *)
Definition MAX_UTC_ns : Z := 8210266876799 * ns_per_sec + 999999999.
Definition MIN_UTC_ns : Z := -8334601228800 * ns_per_sec.

#[export] Instance chrono : Chrono := {
  checked_add_signed t d :=
    if bool_decide (MIN_UTC_ns ≤ t + d ≤ MAX_UTC_ns) then Some (t + d) else None;
  duration_from_std d :=
    if bool_decide (d ≤ i64_max * ns_per_ms) then Some d else None;
  duration_milliseconds ms :=
    if bool_decide (- i64_max ≤ ms) then Some (from_millis ms) else None;
  DURATION_MAX := i64_max * ns_per_ms
}.

#[export] Instance chrono_laws : ChronoLaws.
Proof. split; intros *; cbn; case_bool_decide; intros; by simplify_eq. Qed.

(** [powi] by repeated multiplication; floats rendered by their mantissa. *)
Fixpoint powi_nat (x : f32) (n : nat) : f32 :=
  match n with
  | O => binary_normalize 24 128 1 0 false
  | S n => SFmul 24 128 x (powi_nat x n)
  end.

#[export] Instance float_ops : FloatOps := {
  powi x n := powi_nat x (Z.to_nat n);
  f32_to_string x := match x with S754_finite _ m e => pretty (Npos m) | _ => "0" end
}.

End Examples.
