(* ===== verification/Workflow.v ===== *)
(** * The continuation tree ([sayiir-core/src/workflow.rs])

    [WorkflowContinuation] is the execution graph of a workflow: seven node
    kinds, each with its successor.  A node's implementation handle ([func],
    [key_fn]) is an element of a parameter type [F].  The [HashMap] of a [Branch]
    node is the list of its entries in the map's iteration order, which the
    source does not specify: every theorem holds for any order.

    The file models the id queries, the duplicate-id check, the stack-based
    node iterator, the task lookup and its mutable twin with the setters, and
    [append_to_chain]. *)

From S2P Require Import Prelude Hash32 Task.

(** ** Data *)

Inductive MaxIterationsPolicy : Type := Fail | ExitWithLast.
#[export] Instance MaxIterationsPolicy_eq_dec : EqDecision MaxIterationsPolicy.
Proof. solve_decision. Defined.

(** [strum::Display] of the policy. *)
Definition MaxIterationsPolicy_to_string (p : MaxIterationsPolicy) : string :=
  match p with Fail => "fail" | ExitWithLast => "exit_with_last" end.

Inductive NodeKind : Type :=
| KTask | KFork | KDelay | KAwaitSignal | KBranch | KLoop | KChildWorkflow.
#[export] Instance NodeKind_eq_dec : EqDecision NodeKind.
Proof. solve_decision. Defined.

(* The generated schemes do not reach children inside lists and options;
   [continuation_ind] below does. *)
Unset Elimination Schemes.
Inductive WorkflowContinuation (F : Type) : Type :=
| Task (id : string) (func : option F) (timeout : option Duration)
    (retry_policy : option RetryPolicy) (version : option string)
    (priority : option Z) (tags : list string) (next : option (WorkflowContinuation F))
| Fork (id : string) (branches : list (WorkflowContinuation F))
    (join : option (WorkflowContinuation F))
| Delay (id : string) (duration : Duration) (next : option (WorkflowContinuation F))
| AwaitSignal (id : string) (signal_name : string) (timeout : option Duration)
    (next : option (WorkflowContinuation F))
| Branch (id : string) (key_fn : option F)
    (branches : list (string * WorkflowContinuation F))
    (default : option (WorkflowContinuation F)) (next : option (WorkflowContinuation F))
| Loop (id : string) (body : WorkflowContinuation F) (max_iterations : Z)
    (on_max : MaxIterationsPolicy) (next : option (WorkflowContinuation F))
| ChildWorkflow (id : string) (child : WorkflowContinuation F)
    (next : option (WorkflowContinuation F)).
Set Elimination Schemes.
Arguments Task {F}.
Arguments Fork {F}.
Arguments Delay {F}.
Arguments AwaitSignal {F}.
Arguments Branch {F}.
Arguments Loop {F}.
Arguments ChildWorkflow {F}.

(** A predicate on an optional child. *)
Definition opt_all {A} (P : A → Prop) (o : option A) : Prop :=
  match o with Some a => P a | None => True end.

Section Induction.
Context {F : Type} (P : WorkflowContinuation F → Prop).
Hypothesis HTask : ∀ id f t r v p tg n, opt_all P n → P (Task id f t r v p tg n).
Hypothesis HFork : ∀ id bs j, Forall P bs → opt_all P j → P (Fork id bs j).
Hypothesis HDelay : ∀ id d n, opt_all P n → P (Delay id d n).
Hypothesis HSignal : ∀ id s t n, opt_all P n → P (AwaitSignal id s t n).
Hypothesis HBranch : ∀ id k bs d n, Forall (λ kb, P kb.2) bs → opt_all P d → opt_all P n →
  P (Branch id k bs d n).
Hypothesis HLoop : ∀ id b m o n, P b → opt_all P n → P (Loop id b m o n).
Hypothesis HChild : ∀ id c n, P c → opt_all P n → P (ChildWorkflow id c n).

(** The induction principle that reaches the children inside lists and options. *)
Fixpoint continuation_ind (c : WorkflowContinuation F) : P c :=
  let opt (o : option (WorkflowContinuation F)) : opt_all P o :=
    match o with Some n => continuation_ind n | None => I end in
  match c with
  | Task id f t r v p tg n => HTask id f t r v p tg n (opt n)
  | Fork id bs j => HFork id bs j
      ((fix go l := match l return Forall P l with
        | [] => List.Forall_nil _
        | b :: l => List.Forall_cons _ _ _ (continuation_ind b) (go l) end) bs) (opt j)
  | Delay id d n => HDelay id d n (opt n)
  | AwaitSignal id s t n => HSignal id s t n (opt n)
  | Branch id k bs d n => HBranch id k bs d n
      ((fix go l := match l return Forall (λ kb, P kb.2) l with
        | [] => List.Forall_nil _
        | b :: l => List.Forall_cons _ _ _ (continuation_ind b.2) (go l) end) bs) (opt d) (opt n)
  | Loop id b m o n => HLoop id b m o n (continuation_ind b) (opt n)
  | ChildWorkflow id c n => HChild id c n (continuation_ind c) (opt n)
  end.
End Induction.

(** ** Node ids *)

(** [key_fn_id] and [loop_node_id]. *)
Definition key_fn_id (branch_id : string) : string := branch_id +:+ "::key_fn".
Definition loop_node_id (counter : nat) : string := "loop_" +:+ pretty (N.of_nat counter).

(** [WorkflowContinuation::derive_fork_id]: [branch_ids.join("||")]. *)
Definition derive_fork_id (branch_ids : list string) : string :=
  String.concat "||" branch_ids.

Section Queries.
Context {F : Type}.
Implicit Types c : WorkflowContinuation F.

(** [WorkflowContinuation::id]. *)
Definition cont_id c : string :=
  match c with
  | Task id _ _ _ _ _ _ _ | Fork id _ _ | Delay id _ _ | AwaitSignal id _ _ _
  | Branch id _ _ _ _ | Loop id _ _ _ _ | ChildWorkflow id _ _ => id
  end.

(** [WorkflowContinuation::get_next]. *)
Definition get_next c : option (WorkflowContinuation F) :=
  match c with
  | Task _ _ _ _ _ _ _ next | Delay _ _ next | AwaitSignal _ _ _ next
  | Branch _ _ _ _ next | Loop _ _ _ _ next | ChildWorkflow _ _ next => next
  | Fork _ _ join => join
  end.

(** [first_task_id], [first_task_priority], [first_task_tags]. *)
Fixpoint first_task_id c : string :=
  match c with
  | Task id _ _ _ _ _ _ _ | Delay id _ _ | AwaitSignal id _ _ _ | Branch id _ _ _ _ => id
  | Fork _ branches _ =>
      match branches with b :: _ => first_task_id b | [] => "unknown" end
  | Loop _ body _ _ _ => first_task_id body
  | ChildWorkflow _ child _ => first_task_id child
  end.

Fixpoint first_task_priority c : option Z :=
  match c with
  | Task _ _ _ _ _ priority _ _ => priority
  | Delay _ _ _ | AwaitSignal _ _ _ _ | Branch _ _ _ _ _ => None
  | Fork _ branches _ =>
      match branches with b :: _ => first_task_priority b | [] => None end
  | Loop _ body _ _ _ => first_task_priority body
  | ChildWorkflow _ child _ => first_task_priority child
  end.

Fixpoint first_task_tags c : list string :=
  match c with
  | Task _ _ _ _ _ _ tags _ => tags
  | Delay _ _ _ | AwaitSignal _ _ _ _ | Branch _ _ _ _ _ => []
  | Fork _ branches _ =>
      match branches with b :: _ => first_task_tags b | [] => [] end
  | Loop _ body _ _ _ => first_task_tags body
  | ChildWorkflow _ child _ => first_task_tags child
  end.

(** [terminal_task_id]: follow [get_next] to the end of the chain. *)
Fixpoint terminal_task_id c : string :=
  match c with
  | Task _ _ _ _ _ _ _ (Some n) | Delay _ _ (Some n) | AwaitSignal _ _ _ (Some n)
  | Branch _ _ _ _ (Some n) | Loop _ _ _ _ (Some n) | ChildWorkflow _ _ (Some n)
  | Fork _ _ (Some n) => terminal_task_id n
  | _ => first_task_id c
  end.

End Queries.

(** [snapshot::TaskHint] and [first_task_hint]. *)
Record TaskHint : Type := MkTaskHint {
  hint_id : TaskId;
  hint_priority : option Z;
  hint_tags : list string
}.
Definition TaskHint_default : TaskHint := MkTaskHint TaskId_default None [].

Definition TaskHint_new `{Sha256} (name : string) (priority : option Z) (tags : list string) :
    TaskHint := MkTaskHint (TaskId_from name) priority tags.

Definition first_task_hint `{Sha256} {F} (c : WorkflowContinuation F) : TaskHint :=
  TaskHint_new (first_task_id c) (first_task_priority c) (first_task_tags c).

(** ** The duplicate-id check *)

(** [HashSet::insert] in a scan for the first repeated id. *)
Definition visit (id : string) (k : gset string → option string * gset string)
    (seen : gset string) : option string * gset string :=
  if bool_decide (id ∈ seen) then (Some id, seen) else k ({[id]} ∪ seen).

(** [o1.or_else(|| o2)] threading the [seen] set. *)
Definition or_else (o : option string * gset string)
    (k : gset string → option string * gset string) : option string * gset string :=
  match o with (Some d, seen) => (Some d, seen) | (None, seen) => k seen end.

(** [iter.find_map(|b| collect(b, seen))]. *)
Section FindMap.
Context {A : Type} (f : A → gset string → option string * gset string).
Fixpoint find_map (l : list A) (seen : gset string) : option string * gset string :=
  match l with
  | [] => (None, seen)
  | a :: l => or_else (f a seen) (find_map l)
  end.
End FindMap.

Section DuplicateIds.
Context {F : Type}.
Implicit Types c : WorkflowContinuation F.

(** [collect] of [impl_find_duplicate_id!]. *)
Fixpoint collect c (seen : gset string) {struct c} : option string * gset string :=
  let opt (o : option (WorkflowContinuation F)) (seen : gset string) :=
    match o with Some n => collect n seen | None => (None, seen) end in
  match c with
  | Task id _ _ _ _ _ _ next | Delay id _ next | AwaitSignal id _ _ next =>
      visit id (λ seen, opt next seen) seen
  | Fork id branches join =>
      visit id (λ seen, or_else (find_map collect branches seen) (λ seen, opt join seen)) seen
  | Branch id _ branches default next =>
      visit id (λ seen,
        or_else (or_else (find_map (λ kb, collect (snd kb)) branches seen) (λ seen, opt default seen))
          (λ seen, opt next seen)) seen
  | Loop id body _ _ next =>
      visit id (λ seen, or_else (collect body seen) (λ seen, opt next seen)) seen
  | ChildWorkflow id child next =>
      visit id (λ seen, or_else (collect child seen) (λ seen, opt next seen)) seen
  end.

Definition find_duplicate_id c : option string := (collect c ∅).1.

(** *** Specification: the ids of all nodes, in visiting order *)

Fixpoint node_ids c : list string :=
  let opt (o : option (WorkflowContinuation F)) :=
    match o with Some n => node_ids n | None => [] end in
  match c with
  | Task id _ _ _ _ _ _ next | Delay id _ next | AwaitSignal id _ _ next => id :: opt next
  | Fork id branches join => id :: flat_map node_ids branches ++ opt join
  | Branch id _ branches default next =>
      id :: flat_map (λ kb, node_ids (snd kb)) branches ++ opt default ++ opt next
  | Loop id body _ _ next => id :: node_ids body ++ opt next
  | ChildWorkflow id child next => id :: node_ids child ++ opt next
  end.
End DuplicateIds.

(** Scanning a list for its first repetition: what [collect] does along [node_ids]. *)
Fixpoint scan (l : list string) (seen : gset string) : option string * gset string :=
  match l with
  | [] => (None, seen)
  | id :: l => visit id (scan l) seen
  end.

Lemma scan_app l k seen : scan (l ++ k) seen = or_else (scan l seen) (scan k).
Proof.
  revert seen; induction l as [|a l IH]; intros seen; [done|]. cbn.
  unfold visit. case_bool_decide; [done|]. by rewrite IH.
Qed.

Lemma find_map_scan {A} (f : A → gset string → option string * gset string) (g : A → list string) l seen :
  Forall (λ a, ∀ seen, f a seen = scan (g a) seen) l →
  find_map f l seen = scan (flat_map g l) seen.
Proof.
  intros HF. revert seen. induction HF as [|a l Ha _ IH]; intros seen; [done|].
  cbn. rewrite scan_app, Ha. destruct (scan (g a) seen) as [[]]; cbn; auto.
Qed.

(** [scan] finds no repetition exactly when the list is duplicate-free and
    disjoint from what was seen; a reported id does repeat. *)
Lemma scan_None l seen : (scan l seen).1 = None ↔ NoDup l ∧ ∀ x, x ∈ l → x ∉ seen.
Proof.
  revert seen; induction l as [|a l IH]; intros seen; cbn.
  { split; [|done]. split; [constructor|]. by intros x ?%elem_of_nil. }
  unfold visit. case_bool_decide as Ha; cbn.
  { split; [done|]. intros [_ H]. exfalso. apply (H a); [constructor|done]. }
  rewrite IH, NoDup_cons. setoid_rewrite elem_of_cons. set_solver.
Qed.

Lemma scan_Some l seen d :
  (scan l seen).1 = Some d → ∃ l1 l2, l = l1 ++ d :: l2 ∧ (d ∈ seen ∨ d ∈ l1).
Proof.
  revert seen; induction l as [|a l IH]; intros seen; cbn; [done|].
  unfold visit. case_bool_decide as Ha; cbn.
  { intros [= <-]. exists [], l. auto. }
  intros (l1 & l2 & -> & H)%IH. exists (a :: l1), l2. split; [done|].
  rewrite elem_of_cons. set_solver.
Qed.

Section DuplicateIdsSpec.
Context {F : Type}.
Implicit Types c : WorkflowContinuation F.

Lemma or_else_ext o k k' : (∀ s, k s = k' s) → or_else o k = or_else o k'.
Proof. intros Hk. destruct o as [[] ?]; [done|]. apply Hk. Qed.

Lemma visit_ext id k k' seen : (∀ s, k s = k' s) → visit id k seen = visit id k' seen.
Proof. intros Hk. unfold visit. case_bool_decide; auto. Qed.

Lemma collect_opt_scan (o : option (WorkflowContinuation F)) seen :
  opt_all (λ c, ∀ seen, collect c seen = scan (node_ids c) seen) o →
  match o with Some n => collect n seen | None => (None, seen) end =
  scan match o with Some n => node_ids n | None => [] end seen.
Proof. destruct o; cbn; auto. Qed.

Lemma collect_scan c seen : collect c seen = scan (node_ids c) seen.
Proof.
  revert seen. induction c as [??????? n Hn|? bs j Hbs Hj|?? n Hn|??? n Hn|?? bs d n Hbs Hd Hn
    |? b ?? n Hb Hn|? b n Hb Hn] using continuation_ind; intros seen; cbn; apply visit_ext; intros sn;
    rewrite ?scan_app.
  - by apply collect_opt_scan.
  - rewrite (find_map_scan _ node_ids) by done. apply or_else_ext; intros; by apply collect_opt_scan.
  - by apply collect_opt_scan.
  - by apply collect_opt_scan.
  - rewrite (find_map_scan _ (λ kb, node_ids kb.2)) by done.
    destruct (scan _ sn) as [[] sn']; [done|]. cbn. rewrite collect_opt_scan by done.
    rewrite scan_app. apply or_else_ext; intros; by apply collect_opt_scan.
  - rewrite Hb. apply or_else_ext; intros; by apply collect_opt_scan.
  - rewrite Hb. apply or_else_ext; intros; by apply collect_opt_scan.
Qed.

Lemma find_duplicate_id_correct c :
  match find_duplicate_id c with
  | None => NoDup (node_ids c)
  | Some d => ∃ l1 l2 l3, node_ids c = l1 ++ d :: l2 ++ d :: l3
  end.
Proof.
  unfold find_duplicate_id. rewrite collect_scan.
  destruct (scan (node_ids c) ∅).1 as [d|] eqn:E.
  - apply scan_Some in E as (l1 & l2 & Heq & [?|Hd]); [set_solver|].
    apply list_elem_of_split in Hd as (k1 & k2 & ->).
    exists k1, k2, l2. by rewrite Heq, <-app_assoc.
  - by apply scan_None in E as [? _].
Qed.
End DuplicateIdsSpec.

(** ** Task lookup *)

(** The configuration fields a [Task] node carries. *)
Record TaskConfig : Type := MkTaskConfig {
  tc_id : string;
  tc_timeout : option Duration;
  tc_retry_policy : option RetryPolicy;
  tc_version : option string;
  tc_priority : option Z;
  tc_tags : list string
}.

(** [iter.find_map]/[for .. return] over children, first hit wins. *)
Section FirstSome.
Context {A B : Type} (f : A → option B).
Fixpoint first_some (l : list A) : option B :=
  match l with
  | [] => None
  | a :: l => match f a with Some b => Some b | None => first_some l end
  end.

(** The same search on an updatable list: the hit is replaced in place. *)
Context (g : A → option A).
Fixpoint first_update (l : list A) : option (list A) :=
  match l with
  | [] => None
  | a :: l => match g a with Some a' => Some (a' :: l) | None => cons a <$> first_update l end
  end.
End FirstSome.

Section FindTask.
Context `{Sha256} {F : Type}.
Implicit Types c : WorkflowContinuation F.

(** [find_task]. *)
Fixpoint find_task (target : TaskId) c : option (WorkflowContinuation F) :=
  let opt (o : option (WorkflowContinuation F)) :=
    match o with Some n => find_task target n | None => None end in
  match c with
  | Task id _ _ _ _ _ _ next =>
      if bool_decide (TaskId_from id = target) then Some c else opt next
  | Delay _ _ next | AwaitSignal _ _ _ next => opt next
  | Fork _ branches join =>
      match first_some (find_task target) branches with
      | Some found => Some found
      | None => opt join
      end
  | Branch _ _ branches default next =>
      match first_some (λ kb, find_task target (snd kb)) branches with
      | Some found => Some found
      | None => match opt default with Some found => Some found | None => opt next end
      end
  | Loop _ body _ _ next =>
      match find_task target body with Some found => Some found | None => opt next end
  | ChildWorkflow _ child next =>
      match find_task target child with Some found => Some found | None => opt next end
  end.

(** The fields the callers of [find_task] read off a [Task] node. *)
Definition task_config c : option TaskConfig :=
  match c with
  | Task id _ timeout retry_policy version priority tags _ =>
      Some (MkTaskConfig id timeout retry_policy version priority tags)
  | _ => None
  end.

Definition find_config (target : TaskId) c : option TaskConfig :=
  find_task target c ≫= task_config.

(** [find_task_name] and the [get_task_*] getters. *)
Definition find_task_name (target : TaskId) c : option string := tc_id <$> find_config target c.
Definition get_task_retry_policy (target : TaskId) c : option RetryPolicy :=
  find_config target c ≫= tc_retry_policy.
Definition get_task_timeout (target : TaskId) c : option Duration :=
  find_config target c ≫= tc_timeout.
Definition get_task_priority (target : TaskId) c : option Z :=
  find_config target c ≫= tc_priority.
Definition get_task_tags (target : TaskId) c : list string :=
  match find_config target c with Some t => tc_tags t | None => [] end.

(** [build_task_metadata]. *)
Definition build_task_metadata (target : TaskId) c : TaskMetadata :=
  match find_config target c with
  | Some t => from_node_fields (tc_timeout t) (tc_retry_policy t) (tc_version t)
      (tc_priority t) (tc_tags t)
  | None => TaskMetadata_default
  end.

(** [find_task_mut] with the write its caller performs on the node it finds:
    [Some c'] is the tree after the write, [None] means no node was found.
    Fork branches and child workflows are behind [Arc] and are skipped. *)
Fixpoint find_task_mut (target : TaskId)
    (write : WorkflowContinuation F → WorkflowContinuation F) c : option (WorkflowContinuation F) :=
  let opt (o : option (WorkflowContinuation F)) : option (option (WorkflowContinuation F)) :=
    match o with Some n => Some <$> find_task_mut target write n | None => None end in
  match c with
  | Task id f t r v p tg next =>
      if bool_decide (TaskId_from id = target) then Some (write c)
      else Task id f t r v p tg <$> opt next
  | Delay id d next => Delay id d <$> opt next
  | AwaitSignal id s t next => AwaitSignal id s t <$> opt next
  | Fork id branches join => Fork id branches <$> opt join
  | Branch id k branches default next =>
      match first_update
        (λ kb, pair (fst kb) <$> find_task_mut target write (snd kb)) branches with
      | Some branches' => Some (Branch id k branches' default next)
      | None =>
          match opt default with
          | Some default' => Some (Branch id k branches default' next)
          | None => Branch id k branches default <$> opt next
          end
      end
  | Loop id body m o next =>
      match find_task_mut target write body with
      | Some body' => Some (Loop id body' m o next)
      | None => Loop id body m o <$> opt next
      end
  | ChildWorkflow id child next => ChildWorkflow id child <$> opt next
  end.

Definition write_task (target : TaskId)
    (write : WorkflowContinuation F → WorkflowContinuation F) c : WorkflowContinuation F :=
  match find_task_mut target write c with Some c' => c' | None => c end.

(** [set_task_timeout], [set_task_retry_policy], [set_task_version], [set_task_tags]. *)
Definition set_task_timeout (target : TaskId) (timeout : option Duration) c :=
  write_task target (λ n, match n with
    | Task id f _ r v p tg next => Task id f timeout r v p tg next | _ => n end) c.
Definition set_task_retry_policy (target : TaskId) (policy : option RetryPolicy) c :=
  write_task target (λ n, match n with
    | Task id f t _ v p tg next => Task id f t policy v p tg next | _ => n end) c.
Definition set_task_version (target : TaskId) (ver : option string) c :=
  write_task target (λ n, match n with
    | Task id f t r _ p tg next => Task id f t r ver p tg next | _ => n end) c.
Definition set_task_tags (target : TaskId) (new_tags : list string) c :=
  write_task target (λ n, match n with
    | Task id f t r v p _ next => Task id f t r v p new_tags next | _ => n end) c.

(** *** Specification: the configurations of all [Task] nodes, in search order *)

Fixpoint task_configs c : list TaskConfig :=
  let opt (o : option (WorkflowContinuation F)) :=
    match o with Some n => task_configs n | None => [] end in
  match c with
  | Task id _ t r v p tg next => MkTaskConfig id t r v p tg :: opt next
  | Delay _ _ next | AwaitSignal _ _ _ next => opt next
  | Fork _ branches join => flat_map task_configs branches ++ opt join
  | Branch _ _ branches default next =>
      flat_map (λ kb, task_configs (snd kb)) branches ++ opt default ++ opt next
  | Loop _ body _ _ next => task_configs body ++ opt next
  | ChildWorkflow _ child next => task_configs child ++ opt next
  end.

(** The part of them [find_task_mut] can reach. *)
Fixpoint mutable_configs c : list TaskConfig :=
  let opt (o : option (WorkflowContinuation F)) :=
    match o with Some n => mutable_configs n | None => [] end in
  match c with
  | Task id _ t r v p tg next => MkTaskConfig id t r v p tg :: opt next
  | Delay _ _ next | AwaitSignal _ _ _ next | Fork _ _ next | ChildWorkflow _ _ next => opt next
  | Branch _ _ branches default next =>
      flat_map (λ kb, mutable_configs (snd kb)) branches ++ opt default ++ opt next
  | Loop _ body _ _ next => mutable_configs body ++ opt next
  end.

Definition is_target (target : TaskId) (t : TaskConfig) : bool :=
  bool_decide (TaskId_from (tc_id t) = target).

Lemma find_app {A} (p : A → bool) l k :
  List.find p (l ++ k) = match List.find p l with Some a => Some a | None => List.find p k end.
Proof. induction l as [|a l IH]; [done|]. cbn. by destruct (p a). Qed.

(** A search result agrees with searching a list of configurations. *)
Definition agrees (target : TaskId) (o : option (WorkflowContinuation F)) (l : list TaskConfig) : Prop :=
  match List.find (is_target target) l with
  | Some cfg => ∃ n, o = Some n ∧ task_config n = Some cfg
  | None => o = None
  end.

Lemma agrees_or target o o' l l' :
  agrees target o l → agrees target o' l' →
  agrees target (match o with Some n => Some n | None => o' end) (l ++ l').
Proof.
  unfold agrees. rewrite find_app. destruct (List.find _ l) as [cfg|].
  - intros (n & -> & ?) _. eauto.
  - by intros ->.
Qed.

Lemma agrees_opt target (o : option (WorkflowContinuation F)) :
  opt_all (λ c, agrees target (find_task target c) (task_configs c)) o →
  agrees target match o with Some n => find_task target n | None => None end
    match o with Some n => task_configs n | None => [] end.
Proof. by destruct o. Qed.

Lemma agrees_list {A} (proj : A → WorkflowContinuation F) target (l : list A) :
  Forall (λ a, agrees target (find_task target (proj a)) (task_configs (proj a))) l →
  agrees target (first_some (λ a, find_task target (proj a)) l)
    (flat_map (λ a, task_configs (proj a)) l).
Proof. induction 1 as [|a l Ha _ IH]; [done|]. by apply agrees_or. Qed.

Lemma find_task_agrees target c : agrees target (find_task target c) (task_configs c).
Proof.
  induction c as [??????? n Hn|? bs j Hbs Hj|?? n Hn|??? n Hn|?? bs d n Hbs Hd Hn
    |? b ?? n Hb Hn|? b n Hb Hn] using continuation_ind; cbn [find_task task_configs];
    repeat first [by apply agrees_opt | by apply (agrees_list (λ a, a)) |
      by apply (agrees_list snd) | apply agrees_or | done].
  unfold agrees. cbn. unfold is_target at 1. cbn. case_bool_decide; [by eauto|].
  by apply agrees_opt.
Qed.

Lemma find_config_find target c :
  find_config target c = List.find (is_target target) (task_configs c).
Proof.
  pose proof (find_task_agrees target c) as Ha. unfold agrees, find_config in *.
  destruct (List.find _ _) as [cfg|]; [by destruct Ha as (n & -> & ?)|by rewrite Ha].
Qed.

(** [find] on a list where the target occurs at one known place. *)
Lemma find_target_at target l1 t l2 :
  (∀ x, x ∈ l1 → is_target target x = false) → is_target target t = true →
  List.find (is_target target) (l1 ++ t :: l2) = Some t.
Proof.
  intros Hl1 Ht. induction l1 as [|a l1 IH]; cbn.
  - by rewrite Ht.
  - rewrite Hl1 by (by constructor). apply IH. intros x Hx. apply Hl1. by constructor.
Qed.

(** *** What a write does to the configurations *)

(** [l'] is [l] with its first occurrence of the target rewritten by [w]. *)
Definition rewrites (target : TaskId) (w : TaskConfig → TaskConfig) (l l' : list TaskConfig) : Prop :=
  ∃ l1 t l2, l = l1 ++ t :: l2 ∧ l' = l1 ++ w t :: l2 ∧ is_target target t = true.

Lemma rewrites_app_l target w l l' k :
  rewrites target w l l' → rewrites target w (l ++ k) (l' ++ k).
Proof.
  intros (l1 & t & l2 & -> & -> & Ht). exists l1, t, (l2 ++ k).
  by rewrite <-!app_assoc.
Qed.

Lemma rewrites_app_r target w l l' k :
  rewrites target w l l' → rewrites target w (k ++ l) (k ++ l').
Proof.
  intros (l1 & t & l2 & -> & -> & Ht). exists (k ++ l1), t, l2. by rewrite <-!app_assoc.
Qed.

(** A node write that acts on the configuration by [w] and nowhere else. *)
Definition writes (write : WorkflowContinuation F → WorkflowContinuation F)
    (w : TaskConfig → TaskConfig) : Prop :=
  ∀ id f t r v p tg n, ∃ t' r' v' p' tg',
    write (Task id f t r v p tg n) = Task id f t' r' v' p' tg' n ∧
    w (MkTaskConfig id t r v p tg) = MkTaskConfig id t' r' v' p' tg'.

Lemma is_target_false target (l : list TaskConfig) :
  Forall (λ t, is_target target t = false) l → existsb (is_target target) l = false.
Proof. induction 1 as [|t l Ht _ IH]; [done|]. cbn. by rewrite Ht. Qed.

Section Write.
Context (target : TaskId) (write : WorkflowContinuation F → WorkflowContinuation F).
Context (w : TaskConfig → TaskConfig) (Hw : writes write w).

(** The outcome of a mutable search: a hit rewrites one configuration, both of
    the whole tree and of its reachable part; a miss means none is reachable. *)
Definition mut_outcome {T} (cfgs mcfgs : T → list TaskConfig) (x : T) (o : option T) : Prop :=
  match o with
  | Some x' => rewrites target w (cfgs x) (cfgs x') ∧ existsb (is_target target) (mcfgs x) = true
  | None => Forall (λ t, is_target target t = false) (mcfgs x)
  end.

Abbreviation opt_configs := (from_option task_configs []).
Abbreviation opt_mconfigs := (from_option mutable_configs []).

Lemma mut_opt (o : option (WorkflowContinuation F)) :
  opt_all (λ c, mut_outcome task_configs mutable_configs c (find_task_mut target write c)) o →
  mut_outcome opt_configs opt_mconfigs o
    match o with Some n => Some <$> find_task_mut target write n | None => None end.
Proof. destruct o as [n|]; cbn; [|by constructor]. by destruct (find_task_mut target write n). Qed.

Lemma mut_branches (l : list (string * WorkflowContinuation F)) :
  Forall (λ kb, mut_outcome task_configs mutable_configs kb.2 (find_task_mut target write kb.2)) l →
  mut_outcome (flat_map (λ kb, task_configs kb.2)) (flat_map (λ kb, mutable_configs kb.2)) l
    (first_update (λ kb, pair (fst kb) <$> find_task_mut target write (snd kb)) l).
Proof.
  induction 1 as [|[k b] l Hb _ IH]; cbn; [constructor|]. cbn in Hb.
  destruct (find_task_mut target write b) as [b'|]; cbn in *.
  - destruct Hb as [Hr Hex]. split; [by apply rewrites_app_l|]. by rewrite existsb_app, Hex.
  - destruct (first_update _ l) as [l'|]; cbn in *.
    + destruct IH as [Hr Hex]. split; [by apply rewrites_app_r|].
      by rewrite existsb_app, Hex, orb_true_r.
    + by apply Forall_app.
Qed.

Lemma find_task_mut_outcome c :
  mut_outcome task_configs mutable_configs c (find_task_mut target write c).
Proof.
  induction c as [id f t r v p tg n Hn|id bs j Hbs Hj|id du n Hn|id sg tm n Hn|id k bs d n Hbs Hd Hn
    |id b m o n Hb Hn|id b n Hb Hn] using continuation_ind;
    cbn [find_task_mut]; try apply mut_opt in Hn; try apply mut_opt in Hj.
  - case_bool_decide as Hid.
    + destruct (Hw id f t r v p tg n) as (t' & r' & v' & p' & tg' & Hwr & Hwc).
      assert (is_target target (MkTaskConfig id t r v p tg) = true) as Ht
        by (by apply bool_decide_true).
      cbn. rewrite Hwr, Ht. split; [|done]. eexists [], _, _. split; [done|].
      rewrite Hwc, Ht. done.
    + destruct n as [n|]; cbn in *; [|by repeat constructor; apply bool_decide_false].
      destruct (find_task_mut target write n); cbn in *.
      * destruct Hn as [Hr Hex]. split; [by apply (rewrites_app_r _ _ _ _ [_])|].
        rewrite Hex. apply orb_true_r.
      * constructor; [by apply bool_decide_false|done].
  - destruct j as [n|]; cbn in *; [|by constructor].
    destruct (find_task_mut target write n); cbn in *; [|done].
    destruct Hj as [Hr Hex]. split; [by apply rewrites_app_r|done].
  - destruct n as [n|]; cbn in *; [|by constructor]. by destruct (find_task_mut target write n).
  - destruct n as [n|]; cbn in *; [|by constructor]. by destruct (find_task_mut target write n).
  - apply mut_branches in Hbs. apply mut_opt in Hd. cbn [find_task_mut].
    destruct (first_update _ bs) as [bs'|]; cbn in Hbs |- *.
    { destruct Hbs as [Hr Hex]. split; [by apply rewrites_app_l|]. by rewrite existsb_app, Hex. }
    destruct (match d with Some _ => _ | None => None end) as [d'|]; cbn in Hd |- *.
    { destruct Hd as [Hr Hex]. split; [by apply rewrites_app_r, rewrites_app_l|].
      unfold from_option in Hex. by rewrite !existsb_app, Hex, orb_true_r. }
    destruct (match n with Some _ => _ | None => None end) as [n'|]; cbn in Hn |- *.
    { destruct Hn as [Hr Hex]. split; [by apply rewrites_app_r, rewrites_app_r|].
      unfold from_option in Hex. by rewrite !existsb_app, Hex, !orb_true_r. }
    rewrite !Forall_app. auto.
  - destruct (find_task_mut target write b) as [b'|]; cbn in Hb |- *.
    { destruct Hb as [Hr Hex]. split; [by apply rewrites_app_l|]. by rewrite existsb_app, Hex. }
    destruct (match n with Some _ => _ | None => None end) as [n'|]; cbn in Hn |- *.
    { destruct Hn as [Hr Hex]. split; [by apply rewrites_app_r|].
      unfold from_option in Hex. by rewrite !existsb_app, Hex, !orb_true_r. }
    rewrite !Forall_app. auto.
  - destruct n as [n|]; cbn in *; [|by constructor].
    destruct (find_task_mut target write n); cbn in *; [|done].
    destruct Hn as [Hr Hex]. split; [by apply rewrites_app_r|done].
Qed.

Lemma writes_id t : tc_id (w t) = tc_id t.
Proof.
  destruct t as [id t r v p tg].
  destruct (Hw id None t r v p tg None) as (? & ? & ? & ? & ? & _ & ->). done.
Qed.

(** With distinct, non-colliding ids a target has one occurrence. *)
Lemma target_unique l1 t l2 :
  NoDup (tc_id <$> (l1 ++ t :: l2)) → collision_free (tc_id <$> (l1 ++ t :: l2)) →
  is_target target t = true → ∀ x, x ∈ l1 → is_target target x = false.
Proof.
  intros Hnd Hcf Ht%bool_decide_eq_true x Hx. apply bool_decide_false. intros Hx'.
  rewrite fmap_app, fmap_cons in Hnd, Hcf. apply NoDup_app in Hnd as (_ & Hdis & _).
  assert (tc_id x ∈ tc_id <$> l1) as Hin by (apply list_elem_of_fmap; eauto).
  apply (Hdis _ Hin). replace (tc_id x) with (tc_id t); [constructor|].
  apply Hcf; [set_solver|set_solver|congruence].
Qed.

Lemma write_task_configs c t' :
  NoDup (tc_id <$> task_configs c) → collision_free (tc_id <$> task_configs c) →
  find_config t' (write_task target write c) =
  if bool_decide (t' = target) && existsb (is_target target) (mutable_configs c)
  then w <$> find_config t' c else find_config t' c.
Proof.
  intros Hnd Hcf. pose proof (find_task_mut_outcome c) as Ho. unfold write_task.
  destruct (find_task_mut target write c) as [c'|]; cbn in Ho.
  2:{ by rewrite is_target_false, andb_false_r. }
  destruct Ho as [(l1 & t & l2 & Hl & Hl' & Ht) ->]. rewrite andb_true_r.
  rewrite !find_config_find, Hl, Hl'. rewrite Hl in Hnd, Hcf. case_bool_decide as Htt.
  - subst t'. pose proof (target_unique _ _ _ Hnd Hcf Ht) as Hl1.
    assert (is_target target (w t) = true) as Hwt by (unfold is_target; by rewrite writes_id).
    rewrite !find_target_at; rewrite ?Ht, ?Hwt; done.
  - rewrite !find_app. destruct (List.find _ l1); [done|]. cbn.
    assert (is_target t' t = false) as Hf.
    { apply bool_decide_eq_true in Ht. apply bool_decide_false. congruence. }
    assert (is_target t' (w t) = false) as Hf'
      by (unfold is_target in *; by rewrite writes_id). by rewrite Hf, Hf'.
Qed.
End Write.
End FindTask.

(** ** Ids of tasks among ids of nodes *)

Section TaskIds.
Context {F : Type}.
Implicit Types c : WorkflowContinuation F.

Lemma flat_map_sublist {A} (f g : A → list string) l :
  Forall (λ a, f a `sublist_of` g a) l → flat_map f l `sublist_of` flat_map g l.
Proof. induction 1; cbn; [done|]. by apply sublist_app. Qed.

Lemma fmap_flat_map {A B C} (f : B → C) (g : A → list B) (l : list A) :
  f <$> flat_map g l = flat_map (λ a, f <$> g a) l.
Proof. induction l as [|a l IH]; [done|]. cbn. by rewrite fmap_app, IH. Qed.

Lemma task_ids_opt_sublist (o : option (WorkflowContinuation F)) :
  opt_all (λ c, (tc_id <$> task_configs c) `sublist_of` node_ids c) o →
  (tc_id <$> match o with Some n => task_configs n | None => [] end) `sublist_of`
  match o with Some n => node_ids n | None => [] end.
Proof. by destruct o. Qed.

Lemma task_ids_sublist c : (tc_id <$> task_configs c) `sublist_of` node_ids c.
Proof.
  induction c as [??????? n Hn|? bs j Hbs Hj|?? n Hn|??? n Hn|?? bs d n Hbs Hd Hn
    |? b ?? n Hb Hn|? b n Hb Hn] using continuation_ind; cbn [task_configs node_ids];
    rewrite ?fmap_cons, ?fmap_app, ?fmap_flat_map;
    repeat first [done | by apply task_ids_opt_sublist | by apply flat_map_sublist
      | apply sublist_skip | apply sublist_app | apply sublist_cons].
Qed.

Lemma task_ids_nodup c : NoDup (node_ids c) → NoDup (tc_id <$> task_configs c).
Proof. intros Hnd. eapply sublist_NoDup; [done|apply task_ids_sublist]. Qed.

Lemma no_duplicate_nodup c : find_duplicate_id c = None → NoDup (node_ids c).
Proof. pose proof (find_duplicate_id_correct c) as Hd. intros E. by rewrite E in Hd. Qed.

Lemma task_ids_collision_free `{Sha256} c :
  collision_free (node_ids c) → collision_free (tc_id <$> task_configs c).
Proof.
  apply collision_free_subset. intros x Hx. eapply elem_of_sublist; [done|apply task_ids_sublist].
Qed.
End TaskIds.

(** ** Appending to a chain *)

(** [append_to_chain]. *)
Fixpoint append_to_chain {F} (new_node : WorkflowContinuation F) (c : WorkflowContinuation F) :
    WorkflowContinuation F :=
  let opt (o : option (WorkflowContinuation F)) : option (WorkflowContinuation F) :=
    match o with Some n => Some (append_to_chain new_node n) | None => Some new_node end in
  match c with
  | Task id f t r v p tg next => Task id f t r v p tg (opt next)
  | Delay id d next => Delay id d (opt next)
  | AwaitSignal id s t next => AwaitSignal id s t (opt next)
  | Branch id k bs d next => Branch id k bs d (opt next)
  | Loop id b m o next => Loop id b m o (opt next)
  | ChildWorkflow id ch next => ChildWorkflow id ch (opt next)
  | Fork id bs join => Fork id bs (opt join)
  end.

Section Append.
Context {F : Type}.
Implicit Types c : WorkflowContinuation F.

(** The nodes of the main chain, head first: a node, then [get_next]. *)
Fixpoint chain c : list (WorkflowContinuation F) :=
  c :: match c with
       | Task _ _ _ _ _ _ _ (Some n) | Delay _ _ (Some n) | AwaitSignal _ _ _ (Some n)
       | Branch _ _ _ _ (Some n) | Loop _ _ _ _ (Some n) | ChildWorkflow _ _ (Some n)
       | Fork _ _ (Some n) => chain n
       | _ => []
       end.

Lemma chain_unfold c : chain c = c :: match get_next c with Some n => chain n | None => [] end.
Proof. by destruct c as [??????? []|?? []|?? []|??? []|???? []|???? []|?? []]. Qed.

Lemma append_next n c :
  get_next (append_to_chain n c) =
  match get_next c with Some m => Some (append_to_chain n m) | None => Some n end.
Proof. by destruct c. Qed.

Lemma append_id n c : cont_id (append_to_chain n c) = cont_id c.
Proof. by destruct c. Qed.

Lemma node_ids_append n c : node_ids (append_to_chain n c) = node_ids c ++ node_ids n.
Proof.
  induction c as [??????? o Hn|? bs o Hbs Hn|?? o Hn|??? o Hn|?? bs d o Hbs Hd Hn
    |? b ?? o Hb Hn|? b o Hb Hn] using continuation_ind; cbn; f_equal;
    destruct o; cbn in *; rewrite ?Hn, ?app_nil_r, ?app_assoc; done.
Qed.

Lemma chain_ids_append n c :
  cont_id <$> chain (append_to_chain n c) = (cont_id <$> chain c) ++ (cont_id <$> chain n).
Proof.
  induction c as [??????? o Hn|? bs o Hbs Hn|?? o Hn|??? o Hn|?? bs d o Hbs Hd Hn
    |? b ?? o Hb Hn|? b o Hb Hn] using continuation_ind;
    rewrite !(chain_unfold (append_to_chain _ _)), append_next, (chain_unfold (_ _)); cbn;
    destruct o; cbn in *; rewrite ?Hn; done.
Qed.

Lemma terminal_append n c : terminal_task_id (append_to_chain n c) = terminal_task_id n.
Proof.
  induction c as [??????? o Hn|? bs o Hbs Hn|?? o Hn|??? o Hn|?? bs d o Hbs Hd Hn
    |? b ?? o Hb Hn|? b o Hb Hn] using continuation_ind; cbn; destruct o; cbn in *; done.
Qed.

Lemma first_task_append n c : first_task_id (append_to_chain n c) = first_task_id c.
Proof. by destruct c. Qed.
End Append.

(** ** Properties *)

Section Properties.
Context {F : Type}.
Implicit Types c : WorkflowContinuation F.

(** [find_duplicate_id] decides uniqueness of the node ids of the whole
    tree (forks, routed branches, default branches, loop bodies and child
    workflows included): it returns nothing exactly when all ids are distinct,
    and an id it returns does occur twice. *)
Theorem find_duplicate_id_spec c :
  match find_duplicate_id c with
  | None => NoDup (node_ids c)
  | Some d => ∃ l1 l2 l3, node_ids c = l1 ++ d :: l2 ++ d :: l3
  end.
Proof. apply find_duplicate_id_correct. Qed.

(** [append_to_chain] puts the new node after the last node of the main
    chain: the nodes of the tree, the ids along the main chain, the first task
    and the terminal task are the expected ones. *)
Theorem append_to_chain_spec n c :
  node_ids (append_to_chain n c) = node_ids c ++ node_ids n ∧
  cont_id <$> chain (append_to_chain n c) = (cont_id <$> chain c) ++ (cont_id <$> chain n) ∧
  first_task_id (append_to_chain n c) = first_task_id c ∧
  terminal_task_id (append_to_chain n c) = terminal_task_id n.
Proof.
  eauto using node_ids_append, chain_ids_append, first_task_append, terminal_append.
Qed.

Context `{Sha256}.

Lemma set_task_writes (w : TaskConfig → TaskConfig)
    (write : WorkflowContinuation F → WorkflowContinuation F) target c t' :
  writes write w → find_duplicate_id c = None → collision_free (node_ids c) →
  find_config t' (write_task target write c) =
  if bool_decide (t' = target) && existsb (is_target target) (mutable_configs c)
  then w <$> find_config t' c else find_config t' c.
Proof.
  intros Hw Hd%no_duplicate_nodup Hcf. apply write_task_configs; [done|..].
  - by apply task_ids_nodup.
  - by apply task_ids_collision_free.
Qed.

(** The setters change exactly the task they name, and only when it is
    reachable without crossing an [Arc] (not inside a fork branch or a child
    workflow): afterwards that task's configuration has the new field and every
    other task's configuration is unchanged. *)
Theorem set_task_spec c target t' :
  find_duplicate_id c = None → collision_free (node_ids c) →
  let hit := bool_decide (t' = target) && existsb (is_target target) (mutable_configs c) in
  let changed (w : TaskConfig → TaskConfig) :=
    if hit then w <$> find_config t' c else find_config t' c in
  (∀ tmo, find_config t' (set_task_timeout target tmo c) =
    changed (λ t, MkTaskConfig (tc_id t) tmo (tc_retry_policy t) (tc_version t) (tc_priority t) (tc_tags t))) ∧
  (∀ rp, find_config t' (set_task_retry_policy target rp c) =
    changed (λ t, MkTaskConfig (tc_id t) (tc_timeout t) rp (tc_version t) (tc_priority t) (tc_tags t))) ∧
  (∀ v, find_config t' (set_task_version target v c) =
    changed (λ t, MkTaskConfig (tc_id t) (tc_timeout t) (tc_retry_policy t) v (tc_priority t) (tc_tags t))) ∧
  (∀ tg, find_config t' (set_task_tags target tg c) =
    changed (λ t, MkTaskConfig (tc_id t) (tc_timeout t) (tc_retry_policy t) (tc_version t) (tc_priority t) tg)).
Proof.
  intros Hd Hcf. cbv zeta.
  repeat split; intros x; apply set_task_writes; try done;
    intros id f t r v p tg n; by repeat eexists.
Qed.
End Properties.

(** A hash that pads or truncates the name to 32 bytes: injective on short names. *)
Module Toy.
Program Definition pad32 (b : Bytes) : Hash32 :=
  MkHash32 (take 32 (b ++ replicate 32 x00)) _.
Next Obligation.
  intros b. apply bool_decide_pack. rewrite length_take, length_app, length_replicate. lia.
Qed.
#[export] Instance toy_sha : Sha256 := pad32.
End Toy.

(** ** An example tree, used as a witness *)

Module WorkflowExample.
Import Toy.

(** [validate → (route: "eu" ↦ ship_eu, default ship_any) → fork [mail, audit] → close]. *)
Definition task (id : string) (next : option (WorkflowContinuation unit)) : WorkflowContinuation unit :=
  Task id (Some tt) None None None None [] next.

Definition order_flow : WorkflowContinuation unit :=
  task "validate" (Some
    (Branch "route" (Some tt) [("eu", task "ship_eu" None)] (Some (task "ship_any" None)) (Some
      (Fork "mail||audit" [task "mail" None; task "audit" None] (Some (task "close" None)))))).

Lemma order_flow_unique : find_duplicate_id order_flow = None.
Proof. vm_compute. reflexivity. Qed.

Lemma order_flow_collision_free : collision_free (node_ids order_flow).
Proof. apply (bool_decide_unpack _). vm_compute. exact I. Qed.
End WorkflowExample.

Lemma set_task_spec_witness :
  @find_config Toy.toy_sha _ (@TaskId_from Toy.toy_sha "ship_eu")
    (@set_task_timeout Toy.toy_sha _ (@TaskId_from Toy.toy_sha "ship_eu") (Some 5) WorkflowExample.order_flow)
  = Some (MkTaskConfig "ship_eu" (Some 5) None None None []).
Proof.
  rewrite (proj1 (@set_task_spec _ Toy.toy_sha WorkflowExample.order_flow
    (@TaskId_from Toy.toy_sha "ship_eu") (@TaskId_from Toy.toy_sha "ship_eu")
    WorkflowExample.order_flow_unique WorkflowExample.order_flow_collision_free) (Some 5)).
  vm_compute. reflexivity.
Defined.
