(* ===== verification/TaskIndex.v ===== *)
(** * The node iterator and the task index

    [NodeIter] of [sayiir-core/src/workflow.rs], the stack-based walk over a
    continuation tree, and [sayiir-core/src/task_index.rs], the table from task
    ids to node metadata that is built with it.  The iterator is shown to stop
    after exactly one step per node, to visit the tree in preorder with every
    node after its predecessor, and the table to answer every query as the
    recursive search of [Workflow.v] does. *)

From S2P Require Import Prelude Hash32 Task Workflow.

(** ** The iterator *)

Record NodeInfo : Type := MkNodeInfo {
  ni_id : string;
  ni_kind : NodeKind;
  ni_predecessor_id : option string;
  ni_timeout : option Duration;
  ni_retry_policy : option RetryPolicy;
  ni_priority : option Z;
  ni_tags : list string;
  ni_version : option string
}.

Section Iterator.
Context {F : Type}.
Implicit Types c : WorkflowContinuation F.

(** [NodeIter]: the stack, top first, of nodes with their predecessors. *)
Definition NodeIter : Type := list (WorkflowContinuation F * option string).

(** The first [match] of [NodeIter::next]. *)
Definition node_info c (predecessor : option string) : NodeInfo :=
  match c with
  | Task id _ timeout retry_policy version priority tags _ =>
      MkNodeInfo id KTask predecessor timeout retry_policy priority tags version
  | Fork id _ _ => MkNodeInfo id KFork predecessor None None None [] None
  | Delay id duration _ => MkNodeInfo id KDelay predecessor (Some duration) None None [] None
  | AwaitSignal id _ timeout _ => MkNodeInfo id KAwaitSignal predecessor timeout None None [] None
  | Branch id _ _ _ _ => MkNodeInfo id KBranch predecessor None None None [] None
  | Loop id _ _ _ _ => MkNodeInfo id KLoop predecessor None None None [] None
  | ChildWorkflow id _ _ => MkNodeInfo id KChildWorkflow predecessor None None None [] None
  end.

(** [self.stack.push((n, Some(id)))], for one node, an optional node, and the
    nodes of a reversed iteration. *)
Definition push (id : string) c (stack : NodeIter) : NodeIter := (c, Some id) :: stack.
Definition push_opt (id : string) (o : option (WorkflowContinuation F)) (stack : NodeIter) : NodeIter :=
  match o with Some n => push id n stack | None => stack end.
Definition push_rev (id : string) (l : list (WorkflowContinuation F)) (stack : NodeIter) : NodeIter :=
  foldl (λ stack b, push id b stack) stack (reverse l).

(** The second [match] of [NodeIter::next]: push the children. *)
Definition push_children c (stack : NodeIter) : NodeIter :=
  match c with
  | Task id _ _ _ _ _ _ next | Delay id _ next | AwaitSignal id _ _ next => push_opt id next stack
  | Fork id branches join => push_rev id branches (push_opt id join stack)
  | Branch id _ branches default next =>
      push_rev id (sort_by_key branches).*2 (push_opt id default (push_opt id next stack))
  | Loop id body _ _ next => push id body (push_opt id next stack)
  | ChildWorkflow id child next => push id child (push_opt id next stack)
  end.

(** [NodeIter::next]. *)
Definition iter_next (stack : NodeIter) : option (NodeInfo * NodeIter) :=
  match stack with
  | [] => None
  | (c, predecessor) :: stack => Some (node_info c predecessor, push_children c stack)
  end.

(** Driving the iterator for at most [fuel] calls of [next]; [None] when the
    iterator has not returned [None] by then. *)
Fixpoint drain (fuel : nat) (stack : NodeIter) : option (list NodeInfo) :=
  match iter_next stack with
  | None => Some []
  | Some (n, stack) =>
      match fuel with
      | O => None
      | S fuel => cons n <$> drain fuel stack
      end
  end.

(** [iter_nodes(..).collect()]: one call of [next] per node is enough. *)
Definition iter_nodes c : list NodeInfo :=
  default [] (drain (length (node_ids c)) [(c, None)]).

(** *** Specification: preorder, branches in key order *)

Fixpoint preorder c (predecessor : option string) : list NodeInfo :=
  let opt id (o : option (WorkflowContinuation F)) :=
    match o with Some n => preorder n (Some id) | None => [] end in
  node_info c predecessor ::
  match c with
  | Task id _ _ _ _ _ _ next | Delay id _ next | AwaitSignal id _ _ next => opt id next
  | Fork id branches join => flat_map (λ b, preorder b (Some id)) branches ++ opt id join
  | Branch id _ branches default next =>
      flat_map snd (sort_by_key (prod_map (λ k, k) (λ b, preorder b (Some id)) <$> branches)) ++
      opt id default ++ opt id next
  | Loop id body _ _ next => preorder body (Some id) ++ opt id next
  | ChildWorkflow id child next => preorder child (Some id) ++ opt id next
  end.

Definition preorder_stack (stack : NodeIter) : list NodeInfo :=
  flat_map (λ cp, preorder (fst cp) (snd cp)) stack.

Lemma push_rev_app id l stack : push_rev id l stack = ((λ b, (b, Some id)) <$> l) ++ stack.
Proof.
  unfold push_rev. induction l as [|b l IH]; [done|].
  rewrite reverse_cons, foldl_app, IH. done.
Qed.

Lemma preorder_push_rev id l stack :
  preorder_stack (push_rev id l stack) = flat_map (λ b, preorder b (Some id)) l ++ preorder_stack stack.
Proof.
  rewrite push_rev_app. induction l as [|b l IH]; [done|].
  unfold preorder_stack in *. cbn. by rewrite IH, app_assoc.
Qed.

Lemma preorder_push_opt id (o : option (WorkflowContinuation F)) stack :
  preorder_stack (push_opt id o stack) =
  match o with Some n => preorder n (Some id) | None => [] end ++ preorder_stack stack.
Proof. by destruct o. Qed.

Lemma flat_map_fmap {A B C} (g : B → list C) (f : A → B) (l : list A) :
  flat_map g (f <$> l) = flat_map (λ a, g (f a)) l.
Proof. induction l as [|a l IH]; [done|]. cbn. by f_equal. Qed.

Lemma sorted_branches_preorder id (branches : list (string * WorkflowContinuation F)) :
  flat_map snd (sort_by_key (prod_map (λ k, k) (λ b, preorder b (Some id)) <$> branches)) =
  flat_map (λ b, preorder b (Some id)) (sort_by_key branches).*2.
Proof. rewrite <-(sort_by_key_fmap (λ b, preorder b (Some id))). by rewrite !flat_map_fmap. Qed.

(** One call of [next] takes the head off the preorder of the stack. *)
Lemma iter_next_preorder c p stack :
  preorder_stack ((c, p) :: stack) = node_info c p :: preorder_stack (push_children c stack).
Proof.
  assert (preorder_stack ((c, p) :: stack) = preorder c p ++ preorder_stack stack) as -> by done.
  destruct c; cbn [preorder push_children app];
    rewrite ?preorder_push_rev, ?sorted_branches_preorder, ?preorder_push_opt, <-?app_assoc; try done;
    cbn; rewrite <-?app_assoc; f_equal; f_equal; f_equal; symmetry; apply preorder_push_opt.
Qed.

Lemma drain_preorder fuel stack :
  (length (preorder_stack stack) ≤ fuel)%nat → drain fuel stack = Some (preorder_stack stack).
Proof.
  revert stack; induction fuel as [|fuel IH]; intros [|[c p] stack] Hf; try done.
  - rewrite iter_next_preorder in Hf. cbn in Hf. lia.
  - rewrite iter_next_preorder in *. cbn in Hf |- *. rewrite IH by lia. done.
Qed.

Lemma drain_short fuel stack :
  (fuel < length (preorder_stack stack))%nat → drain fuel stack = None.
Proof.
  revert stack; induction fuel as [|fuel IH]; intros [|[c p] stack] Hf; try done; try (cbn in Hf; lia).
  rewrite iter_next_preorder in Hf. cbn in Hf |- *. by rewrite IH by lia.
Qed.

Lemma drain_node_info fuel stack l :
  drain fuel stack = Some l → Forall (λ n, ∃ c p, n = node_info c p) l.
Proof.
  revert stack l; induction fuel as [|fuel IH]; intros [|[c p] stack] l; cbn;
    [by intros [= <-]|done|by intros [= <-]|].
  intros (k & Hk & ->)%fmap_Some. constructor; eauto.
Qed.

Lemma elem_of_preorder c p n : n ∈ preorder c p → ∃ c' p', n = node_info c' p'.
Proof.
  revert n. apply Forall_forall. eapply (drain_node_info _ [(c, p)]).
  rewrite drain_preorder by done. cbn. by rewrite app_nil_r.
Qed.

(** *** The same nodes in the order of [node_ids] *)

Fixpoint unsorted c (predecessor : option string) : list NodeInfo :=
  let opt id (o : option (WorkflowContinuation F)) :=
    match o with Some n => unsorted n (Some id) | None => [] end in
  node_info c predecessor ::
  match c with
  | Task id _ _ _ _ _ _ next | Delay id _ next | AwaitSignal id _ _ next => opt id next
  | Fork id branches join => flat_map (λ b, unsorted b (Some id)) branches ++ opt id join
  | Branch id _ branches default next =>
      flat_map (λ kb, unsorted (snd kb) (Some id)) branches ++ opt id default ++ opt id next
  | Loop id body _ _ next => unsorted body (Some id) ++ opt id next
  | ChildWorkflow id child next => unsorted child (Some id) ++ opt id next
  end.

Lemma flat_map_Permutation {A B} (f g : A → list B) (l : list A) :
  Forall (λ a, f a ≡ₚ g a) l → flat_map f l ≡ₚ flat_map g l.
Proof. induction 1 as [|a l Ha _ IH]; [done|]. cbn. by rewrite Ha, IH. Qed.

Lemma flat_map_Permutation_l {A B} (f : A → list B) (l k : list A) :
  l ≡ₚ k → flat_map f l ≡ₚ flat_map f k.
Proof.
  induction 1 as [|a l k _ IH|a b l|l k m _ IH1 _ IH2]; cbn; [done|by rewrite IH| |by etrans].
  rewrite !app_assoc. by rewrite (Permutation_app_comm (f b)).
Qed.

Lemma preorder_opt_unsorted id (o : option (WorkflowContinuation F)) :
  opt_all (λ c, ∀ p, preorder c p ≡ₚ unsorted c p) o →
  match o with Some n => preorder n (Some id) | None => [] end ≡ₚ
  match o with Some n => unsorted n (Some id) | None => [] end.
Proof. destruct o; cbn; auto. Qed.

Lemma preorder_unsorted c p : preorder c p ≡ₚ unsorted c p.
Proof.
  revert p. induction c as [??????? n Hn|? bs j Hbs Hj|?? n Hn|??? n Hn|?? bs d n Hbs Hd Hn
    |? b ?? n Hb Hn|? b n Hb Hn] using continuation_ind; intros pred; cbn; apply Permutation_skip;
    try (by apply preorder_opt_unsorted); repeat apply Permutation_app;
    auto using preorder_opt_unsorted.
  - apply flat_map_Permutation. eapply Forall_impl; [done|]. cbn. auto.
  - unfold sort_by_key. rewrite (flat_map_Permutation_l snd) by apply merge_sort_Permutation.
    rewrite flat_map_fmap. apply flat_map_Permutation. eapply Forall_impl; [done|]. intros [] Hx; apply Hx.
Qed.

(** What a node contributes to [node_ids] and to [task_configs]. *)
Definition node_config (n : NodeInfo) : list TaskConfig :=
  match ni_kind n with
  | KTask => [MkTaskConfig (ni_id n) (ni_timeout n) (ni_retry_policy n) (ni_version n)
      (ni_priority n) (ni_tags n)]
  | _ => []
  end.

Lemma flat_map_flat_map {A B C} (f : B → list C) (g : A → list B) (l : list A) :
  flat_map f (flat_map g l) = flat_map (λ a, flat_map f (g a)) l.
Proof. induction l as [|a l IH]; [done|]. cbn. by rewrite flat_map_app, IH. Qed.

Lemma flat_map_ext_Forall {A B} (f g : A → list B) (l : list A) :
  Forall (λ a, f a = g a) l → flat_map f l = flat_map g l.
Proof. induction 1 as [|a l Ha _ IH]; [done|]. cbn. by rewrite Ha, IH. Qed.

Definition node_view {A} (h : NodeInfo → list A) (spec : WorkflowContinuation F → list A) c : Prop :=
  ∀ p, flat_map h (unsorted c p) = spec c.

Lemma node_view_opt {A} (h : NodeInfo → list A) spec id (o : option (WorkflowContinuation F)) :
  opt_all (node_view h spec) o →
  flat_map h match o with Some n => unsorted n (Some id) | None => [] end =
  match o with Some n => spec n | None => [] end.
Proof. destruct o; cbn; auto. Qed.

Ltac node_view_induction :=
  match goal with |- node_view _ _ ?c =>
    induction c as [??????? n Hn|? bs j Hbs Hj|?? n Hn|??? n Hn|?? bs d n Hbs Hd Hn
      |? b ?? n Hb Hn|? b n Hb Hn] using continuation_ind
  end; intros pred; cbn; rewrite ?flat_map_app, ?flat_map_flat_map; try apply (f_equal (cons _));
  repeat first [by apply node_view_opt | by auto
    | apply flat_map_ext_Forall; eapply Forall_impl; [eassumption|]; cbn; by auto
    | apply f_equal2].

Lemma unsorted_ids c : node_view (λ n, [ni_id n]) node_ids c.
Proof. node_view_induction. Qed.

Lemma unsorted_configs c : node_view node_config task_configs c.
Proof. node_view_induction. Qed.

(** The ids of the nodes the index holds. *)
Fixpoint leaf_ids c : list string :=
  let opt (o : option (WorkflowContinuation F)) := match o with Some n => leaf_ids n | None => [] end in
  match c with
  | Task id _ _ _ _ _ _ next | Delay id _ next | AwaitSignal id _ _ next => id :: opt next
  | Fork _ branches join => flat_map leaf_ids branches ++ opt join
  | Branch _ _ branches default next =>
      flat_map (λ kb, leaf_ids (snd kb)) branches ++ opt default ++ opt next
  | Loop _ inner _ _ next | ChildWorkflow _ inner next => leaf_ids inner ++ opt next
  end.

Definition leaf_view (n : NodeInfo) : list string :=
  match ni_kind n with KTask | KDelay | KAwaitSignal => [ni_id n] | _ => [] end.

Lemma unsorted_leaves c : node_view leaf_view leaf_ids c.
Proof. node_view_induction. Qed.

Lemma flat_map_singleton {A B} (f : A → B) (l : list A) : flat_map (λ a, [f a]) l = f <$> l.
Proof. induction l as [|a l IH]; [done|]. cbn. by f_equal. Qed.

Lemma preorder_ids c p : ni_id <$> preorder c p ≡ₚ node_ids c.
Proof.
  rewrite <-(unsorted_ids c p), <-flat_map_singleton.
  apply flat_map_Permutation_l, preorder_unsorted.
Qed.

Lemma preorder_configs c p : flat_map node_config (preorder c p) ≡ₚ task_configs c.
Proof. rewrite <-(unsorted_configs c p). apply flat_map_Permutation_l, preorder_unsorted. Qed.

Lemma preorder_length c p : length (preorder c p) = length (node_ids c).
Proof. by rewrite <-(preorder_ids c p), length_fmap. Qed.

Lemma iter_nodes_preorder c : iter_nodes c = preorder c None.
Proof.
  unfold iter_nodes. rewrite drain_preorder; unfold preorder_stack; cbn; rewrite app_nil_r; [done|].
  by rewrite preorder_length.
Qed.

(** *** Topological order *)

(** Every node but those entered from outside comes after its predecessor. *)
Definition after_predecessors (before : list string) (l : list NodeInfo) : Prop :=
  ∀ l1 n l2, l = l1 ++ n :: l2 →
    ∃ q, ni_predecessor_id n = Some q ∧ (q ∈ before ∨ q ∈ ni_id <$> l1).

Lemma after_predecessors_nil before : after_predecessors before [].
Proof. intros [|? l1] m l2 Heq; discriminate Heq. Qed.

Lemma after_predecessors_app before l k :
  after_predecessors before l → after_predecessors before k → after_predecessors before (l ++ k).
Proof.
  intros Hl Hk l1 n l2 Heq.
  apply app_eq_inv in Heq as [([|n' m] & -> & Heq)|(m & -> & Heq)]; cbn in Heq.
  - destruct (Hk [] n l2) as (q & ? & [|]); [done|eauto|set_solver].
  - injection Heq as -> ->. exact (Hl l1 n' m eq_refl).
  - destruct (Hk m n l2 Heq) as (q & ? & Hq); exists q. split; [done|].
    rewrite fmap_app. set_solver.
Qed.

Lemma after_predecessors_cons before n l q :
  ni_predecessor_id n = Some q → q ∈ before →
  after_predecessors (ni_id n :: before) l → after_predecessors before (n :: l).
Proof.
  intros Hq Hb Hl [|m l1] n' l2 Heq; cbn in Heq; injection Heq as -> ->; [eauto|].
  destruct (Hl l1 n' l2 eq_refl) as (q' & ? & Hq'). exists q'. split; [done|]. set_solver.
Qed.

Lemma after_predecessors_flat_map {A} before (f : A → list NodeInfo) l :
  Forall (λ a, after_predecessors before (f a)) l → after_predecessors before (flat_map f l).
Proof.
  induction 1; cbn; [apply after_predecessors_nil|by apply after_predecessors_app].
Qed.

Lemma after_predecessors_opt before id (o : option (WorkflowContinuation F)) :
  opt_all (λ c, ∀ before q, q ∈ before → after_predecessors before (preorder c (Some q))) o →
  id ∈ before →
  after_predecessors before match o with Some n => preorder n (Some id) | None => [] end.
Proof. destruct o; cbn; auto using after_predecessors_nil. Qed.

Lemma node_info_id c p : ni_id (node_info c p) = cont_id c.
Proof. by destruct c. Qed.
Lemma node_info_predecessor c p : ni_predecessor_id (node_info c p) = p.
Proof. by destruct c. Qed.

Definition topological c : Prop :=
  ∀ before q, q ∈ before → after_predecessors before (preorder c (Some q)).

Lemma Forall_sorted {A} (P : A → Prop) (l : list (string * A)) :
  Forall (λ kb, P kb.2) l → Forall P (sort_by_key l).*2.
Proof.
  intros HP. apply Forall_fmap. unfold sort_by_key. by rewrite merge_sort_Permutation.
Qed.

(** The nodes below the root of a tree. *)
Lemma preorder_tail c p : preorder c p = node_info c p :: tail (preorder c None).
Proof. by destruct c. Qed.

Lemma topological_tail c before :
  (∀ before q, q ∈ before → after_predecessors before (preorder c (Some q))) →
  after_predecessors (cont_id c :: before) (tail (preorder c None)).
Proof.
  intros H l1 n l2 Heq.
  destruct (H [cont_id c] (cont_id c) ltac:(set_solver) (node_info c (Some (cont_id c)) :: l1) n l2)
    as (q & ? & Hq).
  { by rewrite preorder_tail, Heq. }
  exists q. split; [done|]. rewrite fmap_cons, node_info_id in Hq. set_solver.
Qed.

Lemma preorder_topological c : topological c.
Proof.
  unfold topological.
  induction c as [??????? n Hn|? bs j Hbs Hj|?? n Hn|??? n Hn|?? bs d n Hbs Hd Hn
    |? b ?? n Hb Hn|? b n Hb Hn] using continuation_ind; intros before q Hq; cbn [preorder];
    rewrite ?sorted_branches_preorder;
    (eapply after_predecessors_cons; [apply node_info_predecessor|done|rewrite node_info_id; cbn]);
    repeat apply after_predecessors_app;
    try (apply after_predecessors_opt; [done|set_solver]); try (apply Hb; set_solver).
  - apply after_predecessors_flat_map. eapply Forall_impl; [done|]. intros b Hb; apply Hb; set_solver.
  - apply after_predecessors_flat_map, Forall_sorted. eapply Forall_impl; [done|].
    intros b Hb; apply Hb; set_solver.
Qed.

End Iterator.

(** ** The index *)

Record TaskNodeMetadata : Type := MkTaskNodeMetadata {
  tn_name : string;
  tn_timeout : option Duration;
  tn_priority : option Z;
  tn_tags : list string;
  tn_retry_policy : option RetryPolicy;
  tn_version : option string
}.

(** The tuple struct around the [HashMap]. *)
Record TaskIndex : Type := MkTaskIndex { by_id : gmap TaskId TaskNodeMetadata }.

Section Index.
Context `{Sha256} {F : Type}.
Implicit Types c : WorkflowContinuation F.
Implicit Types index : TaskIndex.

(** The [filter] and [map] closures of [TaskIndex::build]. *)
Definition indexed (n : NodeInfo) : bool :=
  match ni_kind n with KTask | KDelay | KAwaitSignal => true | _ => false end.

Definition index_entry (n : NodeInfo) : TaskId * TaskNodeMetadata :=
  (TaskId_from (ni_id n),
   MkTaskNodeMetadata (ni_id n)
     (match ni_timeout n with
      | Some t => if bool_decide (ni_kind n = KTask) then Some t else None
      | None => None
      end)
     (ni_priority n) (ni_tags n) (ni_retry_policy n) (ni_version n)).

(** [TaskIndex::build]: [collect] into a [HashMap] inserts in order. *)
Definition index_build c : TaskIndex :=
  MkTaskIndex (foldl (λ m e, <[fst e := snd e]> m) ∅ (index_entry <$> List.filter indexed (iter_nodes c))).

(** The queries of [TaskIndex]. *)
Definition index_get index (task_id : TaskId) : option TaskNodeMetadata := by_id index !! task_id.
Definition index_len index : nat := size (by_id index).
Definition index_is_empty index : bool := bool_decide (by_id index = ∅).
Definition index_contains index (task_id : TaskId) : bool := bool_decide (is_Some (by_id index !! task_id)).
Definition index_name index (task_id : TaskId) : option string := tn_name <$> by_id index !! task_id.
Definition index_priority index (task_id : TaskId) : option Z := by_id index !! task_id ≫= tn_priority.
Definition index_timeout index (task_id : TaskId) : option Duration := by_id index !! task_id ≫= tn_timeout.
Definition index_tags index (task_id : TaskId) : list string :=
  match by_id index !! task_id with Some m => tn_tags m | None => [] end.
Definition index_retry_policy index (task_id : TaskId) : option RetryPolicy :=
  by_id index !! task_id ≫= tn_retry_policy.
Definition index_build_task_metadata index (task_id : TaskId) : TaskMetadata :=
  match by_id index !! task_id with
  | Some m => from_node_fields (tn_timeout m) (tn_retry_policy m) (tn_version m)
      (tn_priority m) (tn_tags m)
  | None => TaskMetadata_default
  end.

Lemma foldl_insert_lookup {A} (l : list (TaskId * A)) (m : gmap TaskId A) k :
  NoDup l.*1 →
  (∀ a, (k, a) ∈ l → foldl (λ m e, <[fst e := snd e]> m) m l !! k = Some a) ∧
  (k ∉ l.*1 → foldl (λ m e, <[fst e := snd e]> m) m l !! k = m !! k).
Proof.
  revert m; induction l as [|[k' a'] l IH]; intros m; cbn.
  { intros _. split; [by intros a ?%elem_of_nil|done]. }
  intros [Hk' Hnd]%NoDup_cons. destruct (IH (<[k':=a']> m) Hnd) as [IH1 IH2]. split.
  - intros a [[= -> ->]|Ha]%elem_of_cons; [|by apply IH1].
    rewrite IH2 by done. by rewrite lookup_insert_eq.
  - intros [Hne Hk]%not_elem_of_cons. rewrite IH2 by done. by rewrite lookup_insert_ne.
Qed.

(** Two nodes of a tree with the same task id are the same node. *)
Lemma node_unique c (x y : NodeInfo) :
  NoDup (node_ids c) → collision_free (node_ids c) →
  x ∈ preorder c None → y ∈ preorder c None →
  TaskId_from (ni_id x) = TaskId_from (ni_id y) → x = y.
Proof.
  intros Hnd Hcf Hx Hy Heq.
  apply list_elem_of_lookup in Hx as [i Hi], Hy as [j Hj].
  assert (ni_id x = ni_id y) as Hid.
  { apply Hcf; [..|done]; rewrite <-(preorder_ids c None); apply list_elem_of_fmap;
      eauto using list_elem_of_lookup_2. }
  assert (i = j) as ->; [|congruence].
  assert (NoDup (ni_id <$> preorder c None)) as Hnd' by (by rewrite preorder_ids).
  eapply NoDup_lookup; [exact Hnd'| |]; rewrite list_lookup_fmap, ?Hi, ?Hj; cbn; by rewrite ?Hid.
Qed.

(** The index holds, for each id, the entry of the one node that hashes to it. *)
Lemma index_build_lookup c task_id :
  NoDup (node_ids c) → collision_free (node_ids c) →
  match List.find (λ n, bool_decide (TaskId_from (ni_id n) = task_id))
    (List.filter indexed (preorder c None)) with
  | Some n => by_id (index_build c) !! task_id = Some (index_entry n).2
  | None => by_id (index_build c) !! task_id = None
  end.
Proof.
  intros Hnd Hcf. unfold index_build. rewrite iter_nodes_preorder. cbn [by_id].
  set (l := List.filter indexed (preorder c None)).
  assert (Hsub : l `sublist_of` preorder c None).
  { unfold l. generalize (preorder c None). intros k. induction k as [|n k IH]; cbn; [constructor|].
    destruct (indexed n); by constructor. }
  assert (NoDup (index_entry <$> l).*1) as Hk.
  { rewrite <-list_fmap_compose. apply NoDup_fmap_2_strong.
    - intros x y Hx Hy Heq. apply (node_unique c); eauto using elem_of_sublist.
    - eapply sublist_NoDup; [|done]. eapply NoDup_fmap_1 with (f := ni_id). by rewrite preorder_ids. }
  destruct (foldl_insert_lookup (index_entry <$> l) ∅ task_id Hk) as [H1 H2].
  destruct (List.find _ l) as [n|] eqn:Hf.
  - apply List.find_some in Hf as [Hn Heq%bool_decide_eq_true]. apply H1.
    apply list_elem_of_fmap. exists n. split; [by rewrite <-Heq|]. by apply list_elem_of_In.
  - rewrite H2; [done|]. intros Hin. rewrite <-list_fmap_compose in Hin.
    apply list_elem_of_fmap in Hin as (n & Heq & Hn).
    eapply List.find_none in Hf; [|by apply list_elem_of_In].
    apply bool_decide_eq_false in Hf. by cbn in Heq.
Qed.

Lemma elem_of_task_configs c t :
  t ∈ task_configs c ↔ ∃ n, n ∈ preorder c None ∧ t ∈ node_config n.
Proof.
  rewrite <-(preorder_configs c None), list_elem_of_In, in_flat_map.
  by setoid_rewrite list_elem_of_In.
Qed.

Lemma node_config_id n t : t ∈ node_config n →
  ni_kind n = KTask ∧ t = MkTaskConfig (ni_id n) (ni_timeout n) (ni_retry_policy n) (ni_version n)
    (ni_priority n) (ni_tags n).
Proof. unfold node_config. case_match; set_solver. Qed.

Lemma find_config_node c target n :
  NoDup (node_ids c) → collision_free (node_ids c) →
  n ∈ preorder c None → TaskId_from (ni_id n) = target →
  find_config target c = head (node_config n).
Proof.
  intros Hnd Hcf Hn Hid. rewrite find_config_find.
  destruct (List.find (is_target target) (task_configs c)) as [t|] eqn:Hf.
  - apply List.find_some in Hf as [Ht Htgt%bool_decide_eq_true].
    apply list_elem_of_In, elem_of_task_configs in Ht as (n' & Hn' & Ht).
    pose proof (node_config_id _ _ Ht) as [Hk ->]. cbn in Htgt.
    rewrite (node_unique c n n') by (congruence || done). unfold node_config. by rewrite Hk.
  - destruct (node_config n) as [|t l] eqn:Hc; [done|].
    assert (t ∈ node_config n) as Ht by (rewrite Hc; set_solver).
    assert (t ∈ task_configs c) as Htc by (apply elem_of_task_configs; eauto).
    eapply List.find_none in Hf; [|by apply list_elem_of_In].
    apply node_config_id in Ht as [_ ->]. apply bool_decide_eq_false in Hf. by cbn in Hf.
Qed.

(** The index entry of an id is the configuration the tree search finds. *)
Lemma index_lookup_config c target :
  NoDup (node_ids c) → collision_free (node_ids c) →
  match find_config target c with
  | Some t => by_id (index_build c) !! target = Some (MkTaskNodeMetadata (tc_id t) (tc_timeout t)
      (tc_priority t) (tc_tags t) (tc_retry_policy t) (tc_version t))
  | None => by_id (index_build c) !! target = None ∨
      ∃ id, by_id (index_build c) !! target = Some (MkTaskNodeMetadata id None None [] None None)
  end.
Proof.
  intros Hnd Hcf. pose proof (index_build_lookup c target Hnd Hcf) as Hi.
  destruct (List.find _ _) as [n|] eqn:Hf.
  - apply List.find_some in Hf as [[Hn Hx]%List.filter_In Ht%bool_decide_eq_true].
    apply list_elem_of_In in Hn. rewrite (find_config_node c target n) by done. rewrite Hi.
    apply elem_of_preorder in Hn as (c' & p & ->). destruct c'; cbn in *; try done; try (by right; eauto).
    + by destruct timeout.
    + right. exists id. by destruct timeout.
  - destruct (find_config target c) as [t|] eqn:Hc; [|by left].
    rewrite find_config_find in Hc. apply List.find_some in Hc as [Ht Htgt].
    apply list_elem_of_In, elem_of_task_configs in Ht as (n & Hn & Ht).
    apply node_config_id in Ht as [Hk ->]. apply List.find_none with (x := n) in Hf.
    + cbn in Hf. unfold is_target in Htgt. cbn in Htgt. congruence.
    + apply List.filter_In. split; [by apply list_elem_of_In|]. unfold indexed. by rewrite Hk.
Qed.
End Index.

(** ** Properties *)

(** [NodeIter] terminates: it returns [None] after exactly one call of
    [next] per node and not before.  The nodes it yields are those of the tree,
    each once; every node but the root is yielded after the predecessor it names,
    and the root first, without one. *)
Theorem node_iter_spec {F} (c : WorkflowContinuation F) :
  drain (length (node_ids c)) [(c, None)] = Some (iter_nodes c) ∧
  (∀ fuel, (fuel < length (node_ids c))%nat → drain fuel [(c, None)] = None) ∧
  ni_id <$> iter_nodes c ≡ₚ node_ids c ∧
  (∀ l1 n l2, iter_nodes c = l1 ++ n :: l2 →
    match ni_predecessor_id n with
    | None => l1 = [] ∧ ni_id n = cont_id c
    | Some q => q ∈ ni_id <$> l1
    end).
Proof.
  assert (preorder_stack [(c, None)] = preorder c None) as Hs.
  { unfold preorder_stack. cbn. by rewrite app_nil_r. }
  rewrite iter_nodes_preorder. split_and!.
  - rewrite drain_preorder; rewrite Hs; [done|by rewrite preorder_length].
  - intros fuel Hf. apply drain_short. by rewrite Hs, preorder_length.
  - apply preorder_ids.
  - intros l1 n l2 Heq. rewrite preorder_tail in Heq. destruct l1 as [|m l1]; cbn in Heq.
    + injection Heq as <- _. rewrite node_info_predecessor, node_info_id. done.
    + injection Heq as <- Heq.
      destruct (topological_tail c [] (preorder_topological c) l1 n l2 Heq) as (q & -> & Hq).
      rewrite fmap_cons, node_info_id. set_solver.
Qed.

(** The index answers every query as the recursive search over the tree
    does: for a workflow without duplicate ids (whose names SHA-256 does not
    confuse), [build_task_metadata], the timeout, the priority, the tags and the
    retry policy looked up in the table are those [find_task] reads off the node,
    for task ids and for ids of any other node alike. *)
Theorem task_index_equivalent `{Sha256} {F} (c : WorkflowContinuation F) (target : TaskId) :
  find_duplicate_id c = None → collision_free (node_ids c) →
  index_build_task_metadata (index_build c) target = build_task_metadata target c ∧
  index_timeout (index_build c) target = get_task_timeout target c ∧
  index_priority (index_build c) target = get_task_priority target c ∧
  index_tags (index_build c) target = get_task_tags target c ∧
  index_retry_policy (index_build c) target = get_task_retry_policy target c.
Proof.
  intros Hd%no_duplicate_nodup Hcf.
  pose proof (index_lookup_config c target Hd Hcf) as Hi.
  unfold index_build_task_metadata, build_task_metadata, index_timeout, get_task_timeout,
    index_priority, get_task_priority, index_tags, get_task_tags, index_retry_policy,
    get_task_retry_policy.
  destruct (find_config target c) as [t|]; [by rewrite Hi|].
  by destruct Hi as [->|[id ->]].
Qed.

Lemma task_index_equivalent_witness :
  @index_timeout (@index_build Toy.toy_sha _ (WorkflowExample.order_flow))
    (@TaskId_from Toy.toy_sha "ship_eu") = None.
Proof.
  pose proof (@task_index_equivalent Toy.toy_sha _ WorkflowExample.order_flow
    (@TaskId_from Toy.toy_sha "ship_eu") WorkflowExample.order_flow_unique
    WorkflowExample.order_flow_collision_free) as (_ & Ht & _).
  rewrite Ht. vm_compute. reflexivity.
Defined.
