(* ===== verification/Serializable.v ===== *)
(** * Serializable workflows ([sayiir-core/src/workflow.rs], second half)

    [SerializableContinuation] strips the implementations off a continuation
    tree; [to_runnable] rehydrates it from a task registry.  The definition
    hash is SHA-256 over a textual rendering of the tree: the bytes fed to the
    hasher are modelled exactly. *)

From S2P Require Import Prelude Hash32 Task Workflow.

(** ** Data *)

Unset Elimination Schemes.
Inductive SerializableContinuation : Type :=
| STask (id : string) (timeout_ms : option Z) (retry_policy : option RetryPolicy)
    (version : option string) (priority : option Z) (tags : list string)
    (next : option SerializableContinuation)
| SFork (id : string) (branches : list SerializableContinuation)
    (join : option SerializableContinuation)
| SDelay (id : string) (duration_ms : Z) (next : option SerializableContinuation)
| SAwaitSignal (id : string) (signal_name : string) (timeout_ms : option Z)
    (next : option SerializableContinuation)
| SBranch (id : string) (branches : list (string * SerializableContinuation))
    (default : option SerializableContinuation) (next : option SerializableContinuation)
| SLoop (id : string) (body : SerializableContinuation) (max_iterations : Z)
    (on_max : MaxIterationsPolicy) (next : option SerializableContinuation)
| SChildWorkflow (id : string) (child : SerializableContinuation)
    (next : option SerializableContinuation).
Set Elimination Schemes.

Section Induction.
Context (P : SerializableContinuation → Prop).
Hypothesis HTask : ∀ id t r v p tg n, opt_all P n → P (STask id t r v p tg n).
Hypothesis HFork : ∀ id bs j, Forall P bs → opt_all P j → P (SFork id bs j).
Hypothesis HDelay : ∀ id d n, opt_all P n → P (SDelay id d n).
Hypothesis HSignal : ∀ id s t n, opt_all P n → P (SAwaitSignal id s t n).
Hypothesis HBranch : ∀ id bs d n, Forall (λ kb, P kb.2) bs → opt_all P d → opt_all P n →
  P (SBranch id bs d n).
Hypothesis HLoop : ∀ id b m o n, P b → opt_all P n → P (SLoop id b m o n).
Hypothesis HChild : ∀ id c n, P c → opt_all P n → P (SChildWorkflow id c n).

Fixpoint serializable_ind (c : SerializableContinuation) : P c :=
  let opt (o : option SerializableContinuation) : opt_all P o :=
    match o with Some n => serializable_ind n | None => I end in
  match c with
  | STask id t r v p tg n => HTask id t r v p tg n (opt n)
  | SFork id bs j => HFork id bs j
      ((fix go l := match l return Forall P l with
        | [] => List.Forall_nil _
        | b :: l => List.Forall_cons _ _ _ (serializable_ind b) (go l) end) bs) (opt j)
  | SDelay id d n => HDelay id d n (opt n)
  | SAwaitSignal id s t n => HSignal id s t n (opt n)
  | SBranch id bs d n => HBranch id bs d n
      ((fix go l := match l return Forall (λ kb, P kb.2) l with
        | [] => List.Forall_nil _
        | b :: l => List.Forall_cons _ _ _ (serializable_ind b.2) (go l) end) bs) (opt d) (opt n)
  | SLoop id b m o n => HLoop id b m o n (serializable_ind b) (opt n)
  | SChildWorkflow id c n => HChild id c n (serializable_ind c) (opt n)
  end.
End Induction.

(** ** Stripping implementations *)

(** [WorkflowContinuation::to_serializable]; durations become milliseconds, cast to [u64]. *)
Fixpoint to_serializable {F} (c : WorkflowContinuation F) : SerializableContinuation :=
  let opt (o : option (WorkflowContinuation F)) : option SerializableContinuation :=
    match o with Some n => Some (to_serializable n) | None => None end in
  let ms (d : Duration) : Z := as_u64 (as_millis d) in
  match c with
  | Task id _ timeout r v p tg next => STask id (ms <$> timeout) r v p tg (opt next)
  | Fork id branches join => SFork id (map to_serializable branches) (opt join)
  | Delay id duration next => SDelay id (ms duration) (opt next)
  | AwaitSignal id s timeout next => SAwaitSignal id s (ms <$> timeout) (opt next)
  | Branch id _ branches default next =>
      SBranch id (map (λ kb, (fst kb, to_serializable (snd kb))) branches) (opt default) (opt next)
  | ChildWorkflow id child next => SChildWorkflow id (to_serializable child) (opt next)
  | Loop id body m o next => SLoop id (to_serializable body) m o (opt next)
  end.

(** ** Ids of a serializable tree *)

(** [collect] of [impl_find_duplicate_id!], at this type. *)
Fixpoint scollect (c : SerializableContinuation) (seen : gset string) {struct c} :
    option string * gset string :=
  let opt (o : option SerializableContinuation) (seen : gset string) :=
    match o with Some n => scollect n seen | None => (None, seen) end in
  match c with
  | STask id _ _ _ _ _ next | SDelay id _ next | SAwaitSignal id _ _ next =>
      visit id (λ seen, opt next seen) seen
  | SFork id branches join =>
      visit id (λ seen, or_else (find_map scollect branches seen) (λ seen, opt join seen)) seen
  | SBranch id branches default next =>
      visit id (λ seen,
        or_else (or_else (find_map (λ kb, scollect (snd kb)) branches seen) (λ seen, opt default seen))
          (λ seen, opt next seen)) seen
  | SLoop id body _ _ next =>
      visit id (λ seen, or_else (scollect body seen) (λ seen, opt next seen)) seen
  | SChildWorkflow id child next =>
      visit id (λ seen, or_else (scollect child seen) (λ seen, opt next seen)) seen
  end.

Definition sfind_duplicate_id (c : SerializableContinuation) : option string := (scollect c ∅).1.

(** [SerializableContinuation::task_ids]: every node id, not only tasks. *)
Fixpoint task_ids (c : SerializableContinuation) : list string :=
  let opt (o : option SerializableContinuation) :=
    match o with Some n => task_ids n | None => [] end in
  match c with
  | STask id _ _ _ _ _ next | SDelay id _ next | SAwaitSignal id _ _ next => id :: opt next
  | SFork id branches join => id :: flat_map task_ids branches ++ opt join
  | SBranch id branches default next =>
      id :: flat_map (λ kb, task_ids (snd kb)) branches ++ opt default ++ opt next
  | SLoop id body _ _ next => id :: task_ids body ++ opt next
  | SChildWorkflow id child next => id :: task_ids child ++ opt next
  end.

(** ** Rehydration *)

(** The variants of [BuildError] the model raises. *)
Inductive BuildError : Type :=
| DuplicateTaskId (id : string)
| TaskNotFound (id : string)
| EmptyBranch
| EmptyFork
| MissingBranches (branch_id : string) (missing_keys : list string)
| OrphanBranches (branch_id : string) (orphan_keys : list string)
| InvalidMaxIterations (id : string)
| EmptyWorkflow
| InvalidDuration (what : string)
| DefinitionMismatch (expected found : DefinitionHash)
| MissingDep (task_id type_name : string)
| RegistryDepsConflict (task_id : string).

Section Runnable.
Context {F : Type} (registry : string → option F).

(** [to_runnable_unchecked].  A [Fork] and a [Branch] build the vector (map) of
    their branches lazily: its error is reported after those of the join, the
    default and the next node. *)
Fixpoint to_runnable_unchecked (s : SerializableContinuation) :
    result BuildError (WorkflowContinuation F) :=
  let opt (o : option SerializableContinuation) : result BuildError (option (WorkflowContinuation F)) :=
    transpose (match o with Some n => Some (to_runnable_unchecked n) | None => None end) in
  match s with
  | STask id timeout_ms r v p tg next =>
      func ← ok_or (registry id) (TaskNotFound id);
      next ← opt next;
      Ok (Task id (Some func) (from_millis <$> timeout_ms) r v p tg next)
  | SFork id branches join =>
      let branches := result_collect (map to_runnable_unchecked branches) in
      join ← opt join;
      branches ← branches;
      Ok (Fork id branches join)
  | SDelay id duration_ms next =>
      next ← opt next;
      Ok (Delay id (from_millis duration_ms) next)
  | SAwaitSignal id sn timeout_ms next =>
      next ← opt next;
      Ok (AwaitSignal id sn (from_millis <$> timeout_ms) next)
  | SBranch id branches default next =>
      key_fn ← ok_or (registry (key_fn_id id)) (TaskNotFound (key_fn_id id));
      let branches := result_collect
        (map (λ kb, pair (fst kb) <$> to_runnable_unchecked (snd kb)) branches) in
      default ← opt default;
      next ← opt next;
      branches ← branches;
      Ok (Branch id (Some key_fn) branches default next)
  | SLoop id body m o next =>
      body ← to_runnable_unchecked body;
      next ← opt next;
      Ok (Loop id body m o next)
  | SChildWorkflow id child next =>
      child ← to_runnable_unchecked child;
      next ← opt next;
      Ok (ChildWorkflow id child next)
  end.

(** [SerializableContinuation::to_runnable]. *)
Definition to_runnable (s : SerializableContinuation) : result BuildError (WorkflowContinuation F) :=
  match sfind_duplicate_id s with
  | Some dup => Err (DuplicateTaskId dup)
  | None => to_runnable_unchecked s
  end.
End Runnable.

(** ** The definition hash *)

(** The text [hash_continuation] feeds to the hasher, in order. *)
Section HashText.
Context `{FloatOps}.

Definition hash_retry_policy (rp : RetryPolicy) : string :=
  ":r:" +:+ u_to_string (max_retries rp) +:+ ":" +:+ u_to_string (as_millis (initial_delay rp))
  +:+ ":" +:+ f32_to_string (backoff_multiplier rp).

Definition opt_text {A} (f : A → string) (o : option A) : string :=
  match o with Some a => f a | None => "" end.

Fixpoint hash_text (c : SerializableContinuation) : string :=
  let opt (o : option SerializableContinuation) : string :=
    match o with Some n => hash_text n | None => "" end in
  match c with
  | STask id timeout_ms retry_policy version _ _ next =>
      "T:" +:+ id
      +:+ opt_text (λ ms, ":t:" +:+ u_to_string ms) timeout_ms
      +:+ opt_text hash_retry_policy retry_policy
      +:+ opt_text (λ v, ":v:" +:+ v) version
      +:+ ";" +:+ opt next
  | SFork id branches join =>
      "F:" +:+ id +:+ "["
      +:+ String.concat "" (map (λ b, hash_text b +:+ ",") branches)
      +:+ "]"
      +:+ match join with Some j => "J:" +:+ hash_text j | None => "" end
  | SDelay id duration_ms next =>
      "D:" +:+ id +:+ ":" +:+ u_to_string duration_ms +:+ ";" +:+ opt next
  | SAwaitSignal id signal_name timeout_ms next =>
      "S:" +:+ id +:+ ":" +:+ signal_name
      +:+ opt_text (λ ms, ":t:" +:+ u_to_string ms) timeout_ms
      +:+ ";" +:+ opt next
  | SBranch id branches default next =>
      "B:" +:+ id +:+ "{"
      +:+ String.concat "" (snd <$> sort_by_key
            (map (λ kb, (fst kb, fst kb +:+ "=>" +:+ hash_text (snd kb) +:+ ",")) branches))
      +:+ "}"
      +:+ match default with Some d => "_=>" +:+ hash_text d | None => "" end
      +:+ ";" +:+ opt next
  | SLoop id body max_iterations on_max next =>
      "L:" +:+ id +:+ ":" +:+ u_to_string max_iterations +:+ ":"
      +:+ MaxIterationsPolicy_to_string on_max
      +:+ "{" +:+ hash_text body +:+ "}" +:+ ";" +:+ opt next
  | SChildWorkflow id child next =>
      "CW:" +:+ id +:+ "{" +:+ hash_text child +:+ "}" +:+ ";" +:+ opt next
  end.

(** [compute_definition_hash]. *)
Definition compute_definition_hash `{Sha256} (c : SerializableContinuation) : DefinitionHash :=
  MkDefinitionHash (sha256 (as_bytes (hash_text c))).
End HashText.

(** ** Serialized workflow states *)

(** [SerializedWorkflowState]. *)
Record SerializedWorkflowState : Type := MkSerializedWorkflowState {
  sws_workflow_id : string;
  sws_definition_hash : DefinitionHash;
  sws_continuation : SerializableContinuation
}.

(** The fields of [Workflow] and [SerializableWorkflow] that serialization uses. *)
Record SerializableWorkflow (F : Type) : Type := MkSerializableWorkflow {
  wf_name : string;
  wf_definition_hash : DefinitionHash;
  wf_continuation : WorkflowContinuation F;
  wf_registry : string → option F
}.
Arguments wf_name {F}.
Arguments wf_definition_hash {F}.
Arguments wf_continuation {F}.
Arguments wf_registry {F}.

(** [SerializableWorkflow::to_serializable]. *)
Definition workflow_to_serializable {F} (w : SerializableWorkflow F) : SerializedWorkflowState :=
  MkSerializedWorkflowState (wf_name w) (wf_definition_hash w)
    (to_serializable (wf_continuation w)).

(** [SerializableWorkflow::to_runnable]. *)
Definition workflow_to_runnable {F} (w : SerializableWorkflow F) (state : SerializedWorkflowState) :
    result BuildError (WorkflowContinuation F) :=
  if bool_decide (sws_definition_hash state ≠ wf_definition_hash w)
  then Err (DefinitionMismatch (wf_definition_hash w) (sws_definition_hash state))
  else to_runnable (wf_registry w) (sws_continuation state).

(** ** Lemmas on ids *)

Lemma scollect_opt_scan (o : option SerializableContinuation) seen :
  opt_all (λ c, ∀ seen, scollect c seen = scan (task_ids c) seen) o →
  match o with Some n => scollect n seen | None => (None, seen) end =
  scan match o with Some n => task_ids n | None => [] end seen.
Proof. destruct o; cbn; auto. Qed.

Lemma scollect_scan c seen : scollect c seen = scan (task_ids c) seen.
Proof.
  revert seen. induction c as [?????? n Hn|? bs j Hbs Hj|?? n Hn|??? n Hn|? bs d n Hbs Hd Hn
    |? b ?? n Hb Hn|? b n Hb Hn] using serializable_ind; intros seen; cbn; apply visit_ext; intros sn;
    rewrite ?scan_app.
  - by apply scollect_opt_scan.
  - rewrite (find_map_scan _ task_ids) by done. apply or_else_ext; intros; by apply scollect_opt_scan.
  - by apply scollect_opt_scan.
  - by apply scollect_opt_scan.
  - rewrite (find_map_scan _ (λ kb, task_ids kb.2)) by done.
    destruct (scan _ sn) as [[] sn']; [done|]. cbn. rewrite scollect_opt_scan by done.
    rewrite scan_app. apply or_else_ext; intros; by apply scollect_opt_scan.
  - rewrite Hb. apply or_else_ext; intros; by apply scollect_opt_scan.
  - rewrite Hb. apply or_else_ext; intros; by apply scollect_opt_scan.
Qed.

Lemma sfind_duplicate_None s : sfind_duplicate_id s = None ↔ NoDup (task_ids s).
Proof. unfold sfind_duplicate_id. rewrite scollect_scan, scan_None. set_solver. Qed.

(** Serialization keeps the node ids and their order. *)
Lemma task_ids_to_serializable {F} (c : WorkflowContinuation F) :
  task_ids (to_serializable c) = node_ids c.
Proof.
  induction c as [??????? n Hn|? bs j Hbs Hj|?? n Hn|??? n Hn|?? bs d n Hbs Hd Hn
    |? b ?? n Hb Hn|? b n Hb Hn] using continuation_ind; cbn; f_equal;
    rewrite ?Hb; try f_equal;
    try (destruct n; cbn in *; congruence); try (destruct j; cbn in *; congruence).
  - induction Hbs as [|b bs Hb _ IH]; [done|]. cbn. by rewrite Hb, IH.
  - induction Hbs as [|b bs Hb _ IH]; [done|]. cbn. by rewrite Hb, IH.
  - destruct d, n; cbn in *; congruence.
Qed.

Lemma duplicate_to_serializable {F} (c : WorkflowContinuation F) :
  sfind_duplicate_id (to_serializable c) = find_duplicate_id c.
Proof.
  unfold sfind_duplicate_id, find_duplicate_id.
  by rewrite scollect_scan, collect_scan, task_ids_to_serializable.
Qed.

(** ** Rehydration inverts serialization *)

(** Every millisecond field is a [u64]. *)
Fixpoint ms_valid (s : SerializableContinuation) : Prop :=
  let opt (o : option SerializableContinuation) := match o with Some n => ms_valid n | None => True end in
  match s with
  | STask _ t _ _ _ _ next => opt_all is_u64 t ∧ opt next
  | SFork _ bs join => foldr (λ b, and (ms_valid b)) True bs ∧ opt join
  | SDelay _ d next => is_u64 d ∧ opt next
  | SAwaitSignal _ _ t next => opt_all is_u64 t ∧ opt next
  | SBranch _ bs d next => foldr (λ kb, and (ms_valid (snd kb))) True bs ∧ opt d ∧ opt next
  | SLoop _ body _ _ next => ms_valid body ∧ opt next
  | SChildWorkflow _ child next => ms_valid child ∧ opt next
  end.

Lemma ms_roundtrip (t : option Z) :
  opt_all is_u64 t → (λ d, as_u64 (as_millis d)) <$> (from_millis <$> t) = t.
Proof. destruct t; cbn; [|done]. intros ?. by rewrite millis_roundtrip, as_u64_id. Qed.

Section RoundTrip.
Context {F : Type} (registry : string → option F).

Definition rehydrates (s : SerializableContinuation) : Prop :=
  ∀ c, ms_valid s → to_runnable_unchecked registry s = Ok c → to_serializable c = s.

Lemma rehydrates_opt (o : option SerializableContinuation) (o' : option (WorkflowContinuation F)) :
  opt_all rehydrates o →
  match o with Some n => ms_valid n | None => True end →
  transpose (match o with Some n => Some (to_runnable_unchecked registry n) | None => None end) = Ok o' →
  match o' with Some n => Some (to_serializable n) | None => None end = o.
Proof.
  intros Ho Hv Ht. apply transpose_Ok in Ht. destruct o as [n|]; [|by subst].
  destruct Ht as (c & Hc & ->). f_equal. by apply Ho.
Qed.

Lemma rehydrates_list (l : list SerializableContinuation) r :
  Forall rehydrates l → foldr (λ b, and (ms_valid b)) True l →
  result_collect (map (to_runnable_unchecked registry) l) = Ok r → map to_serializable r = l.
Proof.
  intros HF. revert r. induction HF as [|s l Hs _ IH]; intros r Hv Hr; cbn in *; inv_result; [done|].
  destruct Hv as [Hv1 Hv2]. f_equal; [by apply Hs|by apply IH].
Qed.

Lemma rehydrates_branches (l : list (string * SerializableContinuation)) r :
  Forall (λ kb, rehydrates kb.2) l → foldr (λ kb, and (ms_valid (snd kb))) True l →
  result_collect (map (λ kb, pair (fst kb) <$> to_runnable_unchecked registry (snd kb)) l) = Ok r →
  map (λ kb, (fst kb, to_serializable (snd kb))) r = l.
Proof.
  intros HF. revert r. induction HF as [|[k s] l Hs _ IH]; intros r Hv Hr; cbn in *; inv_result; [done|].
  destruct Hv as [Hv1 Hv2]. f_equal; [|by apply IH]. f_equal. by apply Hs.
Qed.

Lemma to_runnable_unchecked_rehydrates s : rehydrates s.
Proof.
  induction s as [?????? n Hn|? bs j Hbs Hj|?? n Hn|??? n Hn|? bs d n Hbs Hd Hn
    |? b ?? n Hb Hn|? b n Hb Hn] using serializable_ind; intros c Hv Hc; cbn in Hv, Hc;
    inv_result; destruct_and?; cbn [to_serializable]; f_equal;
    first [ by eapply rehydrates_opt | by eapply rehydrates_list | by eapply rehydrates_branches
          | by apply ms_roundtrip | by apply Hb | by rewrite millis_roundtrip, as_u64_id ].
Qed.

(** ** When rehydration succeeds *)

(** The names [to_runnable] looks up: each task's id and each branch's key function. *)
Fixpoint required_names (s : SerializableContinuation) : list string :=
  let opt (o : option SerializableContinuation) :=
    match o with Some n => required_names n | None => [] end in
  match s with
  | STask id _ _ _ _ _ next => id :: opt next
  | SDelay _ _ next | SAwaitSignal _ _ _ next => opt next
  | SFork _ bs join => flat_map required_names bs ++ opt join
  | SBranch id bs d next =>
      key_fn_id id :: flat_map (λ kb, required_names (snd kb)) bs ++ opt d ++ opt next
  | SLoop _ body _ _ next => required_names body ++ opt next
  | SChildWorkflow _ child next => required_names child ++ opt next
  end.

Definition registered (names : list string) : Prop := Forall (λ n, is_Some (registry n)) names.

(** An outcome of rehydration says which names are registered: all of them, or
    the reported one is required and missing. *)
Definition outcome {A} (names : list string) (m : result BuildError A) : Prop :=
  match m with
  | Ok _ => registered names
  | Err (TaskNotFound n) => n ∈ names ∧ registry n = None
  | Err _ => False
  end.

Lemma outcome_bind {A B} n1 n2 (m : result BuildError A) (k : A → result BuildError B) :
  outcome n1 m → (∀ a, m = Ok a → outcome n2 (k a)) → outcome (n1 ++ n2) (m ≫= k).
Proof.
  intros Hm Hk. destruct m as [a|e]; cbn in *.
  - specialize (Hk a eq_refl). destruct (k a) as [b|[]]; cbn in *; try done.
    + by apply Forall_app.
    + set_solver.
  - destruct e; set_solver.
Qed.

Lemma outcome_perm {A} n1 n2 (m : result BuildError A) : n1 ≡ₚ n2 → outcome n1 m → outcome n2 m.
Proof.
  intros Hp. destruct m as [a|[]]; cbn; try done.
  - unfold registered. by rewrite Hp.
  - by rewrite Hp.
Qed.

Lemma outcome_Ok {A} (a : A) : outcome [] (Ok a).
Proof. constructor. Qed.

Lemma outcome_lookup n : outcome [n] (ok_or (registry n) (TaskNotFound n)).
Proof.
  destruct (registry n) eqn:E; cbn; [by repeat constructor|]. split; [constructor|done].
Qed.

Lemma outcome_fmap {A B} (f : A → B) names m : outcome names m → outcome names (f <$> m).
Proof. by destruct m as [|[]]. Qed.

Lemma outcome_opt (o : option SerializableContinuation) :
  opt_all (λ s, outcome (required_names s) (to_runnable_unchecked registry s)) o →
  outcome (match o with Some n => required_names n | None => [] end)
    (transpose (match o with Some n => Some (to_runnable_unchecked registry n) | None => None end)).
Proof. destruct o; cbn; [apply outcome_fmap|constructor]. Qed.

Lemma outcome_collect {A B} (names : A → list string) (f : A → result BuildError B) (l : list A) :
  Forall (λ a, outcome (names a) (f a)) l →
  outcome (flat_map names l) (result_collect (map f l)).
Proof.
  induction 1 as [|a l Ha _ IH]; [constructor|]. cbn. apply outcome_bind; [done|]. intros b _.
  rewrite <-(app_nil_r (flat_map _ _)). apply outcome_bind; [done|]. intros; apply outcome_Ok.
Qed.

Lemma to_runnable_unchecked_outcome s :
  outcome (required_names s) (to_runnable_unchecked registry s).
Proof.
  induction s as [id ????? n Hn|? bs j Hbs Hj|?? n Hn|??? n Hn|id bs d n Hbs Hd Hn
    |? b ?? n Hb Hn|? b n Hb Hn] using serializable_ind; cbn [required_names to_runnable_unchecked].
  - apply (outcome_bind [id]); [apply outcome_lookup|]. intros f _.
    rewrite <-(app_nil_r (match n with _ => _ end)).
    apply outcome_bind; [by apply outcome_opt|]. intros; apply outcome_Ok.
  - eapply outcome_perm; [apply Permutation_app_comm|].
    apply outcome_bind; [by apply outcome_opt|]. intros j' _.
    rewrite <-(app_nil_r (flat_map _ _)).
    apply outcome_bind; [by apply outcome_collect|]. intros; apply outcome_Ok.
  - rewrite <-(app_nil_r (match n with _ => _ end)).
    apply outcome_bind; [by apply outcome_opt|]. intros; apply outcome_Ok.
  - rewrite <-(app_nil_r (match n with _ => _ end)).
    apply outcome_bind; [by apply outcome_opt|]. intros; apply outcome_Ok.
  - apply (outcome_bind [key_fn_id id]); [apply outcome_lookup|]. intros f _. cbv zeta.
    eapply outcome_perm; [apply Permutation_app_comm|]. rewrite <-app_assoc.
    apply outcome_bind; [by apply outcome_opt|]. intros d' _.
    apply outcome_bind; [by apply outcome_opt|]. intros n' _.
    rewrite <-(app_nil_r (flat_map _ _)).
    apply outcome_bind; [|intros; apply outcome_Ok].
    apply (outcome_collect (λ kb, required_names kb.2)).
    eapply Forall_impl; [done|]. intros kb Hkb. by apply outcome_fmap.
  - apply outcome_bind; [done|]. intros b' _. rewrite <-(app_nil_r (match n with _ => _ end)).
    apply outcome_bind; [by apply outcome_opt|]. intros; apply outcome_Ok.
  - apply outcome_bind; [done|]. intros b' _. rewrite <-(app_nil_r (match n with _ => _ end)).
    apply outcome_bind; [by apply outcome_opt|]. intros; apply outcome_Ok.
Qed.
End RoundTrip.

(** ** The definition hash does not depend on the iteration order of maps *)

(** Pointwise relation, structural on the first list. *)
Section All2.
Context {A B : Type} (R : A → B → Prop).
Fixpoint all2 (l : list A) (k : list B) : Prop :=
  match l, k with
  | [], [] => True
  | a :: l, b :: k => R a b ∧ all2 l k
  | _, _ => False
  end.
End All2.

(** Two trees describe the same definition: they agree on everything but the
    order of branch maps, the priorities and the tags. *)
Fixpoint same_definition (s s' : SerializableContinuation) : Prop :=
  let opt (o o' : option SerializableContinuation) :=
    match o, o' with
    | Some n, Some n' => same_definition n n'
    | None, None => True
    | _, _ => False
    end in
  match s, s' with
  | STask id t r v _ _ n, STask id' t' r' v' _ _ n' =>
      id = id' ∧ t = t' ∧ r = r' ∧ v = v' ∧ opt n n'
  | SFork id bs j, SFork id' bs' j' => id = id' ∧ all2 same_definition bs bs' ∧ opt j j'
  | SDelay id d n, SDelay id' d' n' => id = id' ∧ d = d' ∧ opt n n'
  | SAwaitSignal id sn t n, SAwaitSignal id' sn' t' n' => id = id' ∧ sn = sn' ∧ t = t' ∧ opt n n'
  | SBranch id bs d n, SBranch id' bs' d' n' =>
      id = id' ∧
      (∃ p, p ≡ₚ bs' ∧ all2 (λ kb kb', fst kb = fst kb' ∧ same_definition (snd kb) (snd kb')) bs p) ∧
      opt d d' ∧ opt n n'
  | SLoop id b m o n, SLoop id' b' m' o' n' =>
      id = id' ∧ same_definition b b' ∧ m = m' ∧ o = o' ∧ opt n n'
  | SChildWorkflow id c n, SChildWorkflow id' c' n' => id = id' ∧ same_definition c c' ∧ opt n n'
  | _, _ => False
  end.

(** Branch maps have unique keys. *)
Fixpoint unique_keys (s : SerializableContinuation) : Prop :=
  let opt (o : option SerializableContinuation) :=
    match o with Some n => unique_keys n | None => True end in
  match s with
  | STask _ _ _ _ _ _ n | SDelay _ _ n | SAwaitSignal _ _ _ n => opt n
  | SFork _ bs j => foldr (λ b, and (unique_keys b)) True bs ∧ opt j
  | SBranch _ bs d n => NoDup bs.*1 ∧ foldr (λ kb, and (unique_keys (snd kb))) True bs ∧ opt d ∧ opt n
  | SLoop _ b _ _ n => unique_keys b ∧ opt n
  | SChildWorkflow _ c n => unique_keys c ∧ opt n
  end.

Section HashOrder.
Context `{FloatOps}.

Definition order_free (s : SerializableContinuation) : Prop :=
  ∀ s', unique_keys s → same_definition s s' → hash_text s = hash_text s'.

Lemma order_free_opt (o o' : option SerializableContinuation) :
  opt_all order_free o →
  match o with Some n => unique_keys n | None => True end →
  match o, o' with
  | Some n, Some n' => same_definition n n' | None, None => True | _, _ => False end →
  match o with Some n => hash_text n | None => "" end =
  match o' with Some n => hash_text n | None => "" end.
Proof. destruct o, o'; cbn; try done. auto. Qed.

Lemma order_free_list (l k : list SerializableContinuation) :
  Forall order_free l → foldr (λ b, and (unique_keys b)) True l → all2 same_definition l k →
  map (λ b, hash_text b +:+ ",") l = map (λ b, hash_text b +:+ ",") k.
Proof.
  intros HF. revert k. induction HF as [|s l Hs _ IH]; intros [|s' k]; cbn; try done.
  intros [Hu Hul] [Hsd Hl]. f_equal; [by rewrite (Hs s')|by apply IH].
Qed.

Definition branch_text (kb : string * SerializableContinuation) : string * string :=
  (fst kb, fst kb +:+ "=>" +:+ hash_text (snd kb) +:+ ",").

Lemma order_free_branches (l k : list (string * SerializableContinuation)) :
  Forall (λ kb, order_free kb.2) l → foldr (λ kb, and (unique_keys (snd kb))) True l →
  all2 (λ kb kb', fst kb = fst kb' ∧ same_definition (snd kb) (snd kb')) l k →
  map branch_text l = map branch_text k.
Proof.
  intros HF. revert k. induction HF as [|[a s] l Hs _ IH]; intros [|[a' s'] k]; cbn; try done.
  intros [Hu Hul] [[-> Hsd] Hl]. f_equal; [|by apply IH].
  specialize (Hs s' Hu Hsd). cbn in Hs. unfold branch_text. cbn. by rewrite Hs.
Qed.

Lemma branch_text_keys l : (map branch_text l).*1 = l.*1.
Proof. induction l as [|[] l IH]; cbn; [done|]. by f_equal. Qed.

Lemma hash_text_order_free s : order_free s.
Proof.
  induction s as [?????? n Hn|? bs j Hbs Hj|?? n Hn|??? n Hn|? bs d n Hbs Hd Hn
    |? b ?? n Hb Hn|? b n Hb Hn] using serializable_ind;
    intros [?????? n'|? bs' j'|?? n'|??? n'|? bs' d' n'|? b' ?? n'|? b' n'] Hu Hsd;
    cbn in Hu, Hsd; try done; cbn [hash_text].
  - destruct Hsd as (-> & -> & -> & -> & Ho). by rewrite (order_free_opt n n').
  - destruct Hsd as (-> & Hb & Ho), Hu as [Hub Huj]. rewrite (order_free_list bs bs') by done.
    pose proof (order_free_opt j j' Hj Huj Ho) as Ej.
    destruct j, j'; cbn in Ej |- *; try done. by rewrite Ej.
  - destruct Hsd as (-> & -> & Ho). by rewrite (order_free_opt n n').
  - destruct Hsd as (-> & -> & -> & Ho). by rewrite (order_free_opt n n').
  - destruct Hsd as (-> & (p & Hp & Hb) & Ho & Ho'), Hu as (Hk & Hub & Hud & Hun).
    rewrite (order_free_opt n n') by done.
    pose proof (order_free_opt d d' Hd Hud Ho) as Ed.
    change (map (λ kb : string * SerializableContinuation, _) bs) with (map branch_text bs).
    change (map (λ kb : string * SerializableContinuation, _) bs') with (map branch_text bs').
    rewrite (sort_by_key_perm (map branch_text bs) (map branch_text bs')).
    + destruct d, d'; cbn in Ed |- *; try done. by rewrite Ed.
    + by rewrite branch_text_keys.
    + rewrite (order_free_branches bs p) by done. by rewrite Hp.
  - destruct Hsd as (-> & Hb' & -> & -> & Ho), Hu as [Hub Hun].
    by rewrite (order_free_opt n n'), (Hb b').
  - destruct Hsd as (-> & Hb' & Ho), Hu as [Hub Hun].
    by rewrite (order_free_opt n n'), (Hb b').
Qed.
End HashOrder.

(** ** Properties *)

Section Properties.
Context {F : Type}.

(** Rehydrating a serialized workflow and serializing it again gives back
    the same tree (so also the same definition hash), for every registry and
    whatever the implementations are. *)
Theorem to_runnable_roundtrip (registry : string → option F) s c :
  ms_valid s → to_runnable registry s = Ok c → to_serializable c = s.
Proof.
  intros Hv. unfold to_runnable. destruct (sfind_duplicate_id s); [done|].
  by apply to_runnable_unchecked_rehydrates.
Qed.

(** [to_runnable] succeeds exactly on trees with distinct ids whose tasks
    and branch key functions are all registered; otherwise it reports a
    duplicated id, or a required name that is missing from the registry. *)
Theorem to_runnable_outcome (registry : string → option F) s :
  match to_runnable registry s with
  | Ok _ => NoDup (task_ids s) ∧ Forall (λ n, is_Some (registry n)) (required_names s)
  | Err (DuplicateTaskId d) => ∃ l1 l2 l3, task_ids s = l1 ++ d :: l2 ++ d :: l3
  | Err (TaskNotFound n) => NoDup (task_ids s) ∧ n ∈ required_names s ∧ registry n = None
  | Err _ => False
  end.
Proof.
  unfold to_runnable. destruct (sfind_duplicate_id s) as [d|] eqn:E.
  - unfold sfind_duplicate_id in E. rewrite scollect_scan in E.
    apply scan_Some in E as (l1 & l2 & -> & [?|(k1 & k2 & ->)%list_elem_of_split]); [set_solver|].
    exists k1, k2, l2. by rewrite <-app_assoc.
  - apply sfind_duplicate_None in E. pose proof (to_runnable_unchecked_outcome registry s) as Ho.
    destruct (to_runnable_unchecked registry s) as [c|[]]; cbn in Ho; done.
Qed.

(** A workflow accepts its own serialized state: if its ids are distinct
    and its registry has every implementation it needs, hydrating the state
    returns a tree with the same structure; a state with another definition
    hash is rejected before anything is looked up. *)
Theorem workflow_self_hydration (w : SerializableWorkflow F) (state : SerializedWorkflowState) :
  ms_valid (to_serializable (wf_continuation w)) →
  find_duplicate_id (wf_continuation w) = None →
  Forall (λ n, is_Some (wf_registry w n)) (required_names (to_serializable (wf_continuation w))) →
  (∃ c, workflow_to_runnable w (workflow_to_serializable w) = Ok c ∧
    to_serializable c = to_serializable (wf_continuation w)) ∧
  (sws_definition_hash state ≠ wf_definition_hash w →
    workflow_to_runnable w state =
      Err (DefinitionMismatch (wf_definition_hash w) (sws_definition_hash state))).
Proof.
  intros Hv Hd Hr. unfold workflow_to_runnable. split.
  - rewrite bool_decide_false by (cbn; auto). cbn. unfold to_runnable.
    rewrite duplicate_to_serializable, Hd.
    pose proof (to_runnable_unchecked_outcome (wf_registry w)
      (to_serializable (wf_continuation w))) as Ho.
    destruct (to_runnable_unchecked _ _) as [c|e] eqn:E; cbn in Ho.
    + exists c. split; [done|]. by eapply to_runnable_unchecked_rehydrates.
    + exfalso. destruct e as [|n| | | | | | | | | |]; try done. destruct Ho as [Hin Hn].
      rewrite Forall_forall in Hr. destruct (Hr n Hin). congruence.
  - intros Hne. by rewrite bool_decide_true.
Qed.
End Properties.

(** The definition hash does not depend on the order in which the maps of
    conditional branches are iterated, nor on priorities and tags. *)
Theorem definition_hash_order_independent `{FloatOps, Sha256} s s' :
  unique_keys s → same_definition s s' →
  compute_definition_hash s = compute_definition_hash s'.
Proof. intros Hu Hs. unfold compute_definition_hash. by rewrite (hash_text_order_free s s' Hu Hs). Qed.

(** The definition hash does not separate definitions whose ids contain
    the rendering's separators: a task named ["a:t:5"] without a timeout and a
    task named ["a"] with a 5 ms timeout have the same definition hash,
    whatever the hash function. *)
Theorem definition_hash_ambiguous `{FloatOps, Sha256} :
  let s := STask "a:t:5" None None None None [] None in
  let s' := STask "a" (Some 5) None None None [] None in
  s ≠ s' ∧ NoDup (task_ids s) ∧ NoDup (task_ids s') ∧
  compute_definition_hash s = compute_definition_hash s'.
Proof.
  cbv zeta. split; [done|]. split; [repeat constructor; set_solver|].
  split; [repeat constructor; set_solver|]. reflexivity.
Qed.

(** ** Witnesses *)

Module SerializableExample.
Import Task.Examples Toy.

Definition flow : SerializableContinuation :=
  STask "validate" (Some 2000) None (Some "v1") (Some 1) ["gpu"] (Some
    (SBranch "route" [("us", STask "ship_us" None None None None [] None);
                      ("eu", STask "ship_eu" None None None None [] None)] None (Some
      (SLoop "loop_0" (SDelay "poll" 500 None) 3 ExitWithLast None)))).

(** The same definition with the branch map iterated the other way round. *)
Definition flow' : SerializableContinuation :=
  STask "validate" (Some 2000) None (Some "v1") None [] (Some
    (SBranch "route" [("eu", STask "ship_eu" None None None None [] None);
                      ("us", STask "ship_us" None None None None [] None)] None (Some
      (SLoop "loop_0" (SDelay "poll" 500 None) 3 ExitWithLast None)))).

Definition workflow : SerializableWorkflow unit :=
  MkSerializableWorkflow unit "orders" (compute_definition_hash flow)
    (Task "a" (Some tt) (Some (from_millis 5)) None None None [] None) (λ _, Some tt).
End SerializableExample.

Lemma to_runnable_roundtrip_witness :
  ∃ c, to_runnable (λ _, Some tt) SerializableExample.flow = Ok c ∧
    to_serializable c = SerializableExample.flow.
Proof.
  eexists. split; [vm_compute; reflexivity|].
  eapply (to_runnable_roundtrip (λ _, Some tt)); [|vm_compute; reflexivity].
  cbn. unfold is_u64, u64_max. lia.
Defined.

Lemma workflow_self_hydration_witness :
  ∃ c, workflow_to_runnable SerializableExample.workflow
    (workflow_to_serializable SerializableExample.workflow) = Ok c.
Proof.
  destruct (workflow_self_hydration SerializableExample.workflow
    (workflow_to_serializable SerializableExample.workflow)) as [(c & Hc & _) _].
  - cbn. unfold is_u64, as_u64, u64_max. vm_compute. by repeat split.
  - vm_compute. reflexivity.
  - cbn. repeat constructor. by eexists.
  - exists c. exact Hc.
Defined.

Lemma definition_hash_order_independent_witness :
  @compute_definition_hash Task.Examples.float_ops Toy.toy_sha SerializableExample.flow =
  @compute_definition_hash Task.Examples.float_ops Toy.toy_sha SerializableExample.flow'.
Proof.
  apply (@definition_hash_order_independent Task.Examples.float_ops Toy.toy_sha).
  - cbn. split; [|done]. apply (bool_decide_unpack _). vm_compute. exact I.
  - cbn. repeat split. exists [("us", STask "ship_us" None None None None [] None);
      ("eu", STask "ship_eu" None None None None [] None)]. split; [|by repeat split].
    apply Permutation_swap.
Defined.
