(* ===== verification/Snapshot.v ===== *)
(** * Workflow snapshots ([sayiir-core/src/snapshot.rs])

    The durable state of a workflow instance: the execution position, the
    results of completed tasks, deadlines, retry and loop bookkeeping, and the
    status machine (in progress, paused, completed, failed, cancelled), with the
    status types of [workflow.rs] that are derived from it.

    Operations that read the clock take the instant as an argument [now] (one
    reading per operation); those whose date arithmetic can panic return an
    [option], [None] being the panic.  [HashMap]s are finite maps. *)

From S2P Require Import Prelude Hash32 Task Workflow.

(** ** Data *)

Record TaskDeadline : Type := MkTaskDeadline {
  td_task_id : TaskId;
  td_deadline : DateTime;
  td_timeout_ms : Z               (* u64 *)
}.

Record TaskRetryState : Type := MkTaskRetryState {
  attempts : Z;                   (* u32 *)
  policy : RetryPolicy;
  last_error : string;
  last_failed_worker : option string;
  next_retry_at : DateTime
}.

Record TaskResult : Type := MkTaskResult {
  tr_task_id : TaskId;
  tr_output : Bytes
}.
#[export] Instance TaskResult_eq_dec : EqDecision TaskResult.
Proof. solve_decision. Defined.

Abbreviation CompletedTasks := (gmap TaskId TaskResult).

Inductive ExecutionPosition : Type :=
| NotStarted
| AtTask (task_id : TaskId)
| AtFork (fork_id : TaskId) (completed_branches : gmap string TaskResult) (wake_at : DateTime)
| AtJoin (join_id : TaskId) (completed_branches : gmap string TaskResult)
| AtDelay (delay_id : TaskId) (entered_at wake_at : DateTime) (next_task_id : option TaskId)
| AtSignal (signal_id : TaskId) (signal_name : string) (wake_at : option DateTime)
    (next_task_id : option TaskId)
| InLoop (loop_id : TaskId) (iteration : Z) (next_task_id : option TaskId).
#[export] Instance ExecutionPosition_eq_dec : EqDecision ExecutionPosition.
Proof. solve_decision. Defined.

(** [strum::AsRefStr] of the position. *)
Definition position_as_ref (p : ExecutionPosition) : string :=
  match p with
  | NotStarted => "NotStarted" | AtTask _ => "AtTask" | AtFork _ _ _ => "AtFork"
  | AtJoin _ _ => "AtJoin" | AtDelay _ _ _ _ => "AtDelay" | AtSignal _ _ _ _ => "AtSignal"
  | InLoop _ _ _ => "InLoop"
  end.

Record CancellationRequest : Type := MkCancellationRequest {
  cr_reason : option string; cr_requested_by : option string; cr_requested_at : DateTime }.
Record PauseRequest : Type := MkPauseRequest {
  pr_reason : option string; pr_requested_by : option string; pr_requested_at : DateTime }.
Record SignalRequest : Type := MkSignalRequest {
  sr_reason : option string; sr_requested_by : option string; sr_requested_at : DateTime }.

Inductive SignalKind : Type := Cancel | Pause.
#[export] Instance SignalKind_eq_dec : EqDecision SignalKind.
Proof. solve_decision. Defined.
#[export] Program Instance SignalKind_countable : Countable SignalKind :=
  inj_countable' (λ k, match k with Cancel => true | Pause => false end)
    (λ b : bool, if b then Cancel else Pause) _.
Next Obligation. by intros []. Qed.

(** The [From] conversions and the constructors. *)
Definition signal_of_cancellation (r : CancellationRequest) : SignalRequest :=
  MkSignalRequest (cr_reason r) (cr_requested_by r) (cr_requested_at r).
Definition signal_of_pause (r : PauseRequest) : SignalRequest :=
  MkSignalRequest (pr_reason r) (pr_requested_by r) (pr_requested_at r).
Definition cancellation_of_signal (r : SignalRequest) : CancellationRequest :=
  MkCancellationRequest (sr_reason r) (sr_requested_by r) (sr_requested_at r).
Definition pause_of_signal (r : SignalRequest) : PauseRequest :=
  MkPauseRequest (sr_reason r) (sr_requested_by r) (sr_requested_at r).
Definition SignalRequest_new (now : DateTime) (reason requested_by : option string) : SignalRequest :=
  MkSignalRequest reason requested_by now.

Inductive WorkflowSnapshotState : Type :=
| InProgress (position : ExecutionPosition) (completed_tasks : CompletedTasks)
    (last_completed_task_id : option TaskId)
| Completed (final_output : Bytes)
| Failed (error : string)
| Cancelled (reason cancelled_by : option string) (cancelled_at : DateTime)
    (completed_tasks : CompletedTasks) (interrupted_at_task : option TaskId)
| Paused (reason paused_by : option string) (paused_at : DateTime)
    (completed_tasks : CompletedTasks) (position : ExecutionPosition)
    (last_completed_task_id : option TaskId).

Record WorkflowSnapshot : Type := MkSnapshot {
  instance_id : string;
  snapshot_definition_hash : DefinitionHash;
  state : WorkflowSnapshotState;
  created_at : Z;                 (* u64 *)
  updated_at : Z;                 (* u64 *)
  initial_input : option Bytes;
  task_deadline : option TaskDeadline;
  task_retries : gmap TaskId TaskRetryState;
  loop_iterations : gmap TaskId Z;   (* u32 *)
  task_priority : option Z;       (* u8 *)
  task_tags : list string;
  trace_parent : option string;
  output_unflushed : bool
}.

(** Field updates: [self.f = v]. *)
Definition with_state (v : WorkflowSnapshotState) (s : WorkflowSnapshot) : WorkflowSnapshot :=
  MkSnapshot (instance_id s) (snapshot_definition_hash s) v (created_at s) (updated_at s)
    (initial_input s) (task_deadline s) (task_retries s) (loop_iterations s) (task_priority s)
    (task_tags s) (trace_parent s) (output_unflushed s).
Definition with_updated_at (v : Z) (s : WorkflowSnapshot) : WorkflowSnapshot :=
  MkSnapshot (instance_id s) (snapshot_definition_hash s) (state s) (created_at s) v
    (initial_input s) (task_deadline s) (task_retries s) (loop_iterations s) (task_priority s)
    (task_tags s) (trace_parent s) (output_unflushed s).
Definition with_task_deadline (v : option TaskDeadline) (s : WorkflowSnapshot) : WorkflowSnapshot :=
  MkSnapshot (instance_id s) (snapshot_definition_hash s) (state s) (created_at s) (updated_at s)
    (initial_input s) v (task_retries s) (loop_iterations s) (task_priority s)
    (task_tags s) (trace_parent s) (output_unflushed s).
Definition with_task_retries (v : gmap TaskId TaskRetryState) (s : WorkflowSnapshot) : WorkflowSnapshot :=
  MkSnapshot (instance_id s) (snapshot_definition_hash s) (state s) (created_at s) (updated_at s)
    (initial_input s) (task_deadline s) v (loop_iterations s) (task_priority s)
    (task_tags s) (trace_parent s) (output_unflushed s).
Definition with_loop_iterations (v : gmap TaskId Z) (s : WorkflowSnapshot) : WorkflowSnapshot :=
  MkSnapshot (instance_id s) (snapshot_definition_hash s) (state s) (created_at s) (updated_at s)
    (initial_input s) (task_deadline s) (task_retries s) v (task_priority s)
    (task_tags s) (trace_parent s) (output_unflushed s).
Definition with_task_priority (v : option Z) (s : WorkflowSnapshot) : WorkflowSnapshot :=
  MkSnapshot (instance_id s) (snapshot_definition_hash s) (state s) (created_at s) (updated_at s)
    (initial_input s) (task_deadline s) (task_retries s) (loop_iterations s) v
    (task_tags s) (trace_parent s) (output_unflushed s).
Definition with_task_tags (v : list string) (s : WorkflowSnapshot) : WorkflowSnapshot :=
  MkSnapshot (instance_id s) (snapshot_definition_hash s) (state s) (created_at s) (updated_at s)
    (initial_input s) (task_deadline s) (task_retries s) (loop_iterations s) (task_priority s)
    v (trace_parent s) (output_unflushed s).
Definition with_output_unflushed (v : bool) (s : WorkflowSnapshot) : WorkflowSnapshot :=
  MkSnapshot (instance_id s) (snapshot_definition_hash s) (state s) (created_at s) (updated_at s)
    (initial_input s) (task_deadline s) (task_retries s) (loop_iterations s) (task_priority s)
    (task_tags s) (trace_parent s) v.
Definition with_trace_parent (v : option string) (s : WorkflowSnapshot) : WorkflowSnapshot :=
  MkSnapshot (instance_id s) (snapshot_definition_hash s) (state s) (created_at s) (updated_at s)
    (initial_input s) (task_deadline s) (task_retries s) (loop_iterations s) (task_priority s)
    (task_tags s) v (output_unflushed s).

(** ** Statuses ([workflow.rs]) *)

Module Status.
Inductive WorkflowStatus : Type :=
| InProgress
| Completed
| Failed (error : string)
| Cancelled (reason cancelled_by : option string)
| Paused (reason paused_by : option string)
| Waiting (wake_at : DateTime) (delay_id : TaskId)
| AwaitingSignal (signal_id : TaskId) (signal_name : string) (wake_at : option DateTime).

#[global] Instance WorkflowStatus_eq_dec : EqDecision WorkflowStatus.
Proof. solve_decision. Defined.

(** [strum::AsRefStr] of the status. *)
Definition as_ref (s : WorkflowStatus) : string :=
  match s with
  | InProgress => "in_progress" | Completed => "completed" | Failed _ => "failed"
  | Cancelled _ _ => "cancelled" | Paused _ _ => "paused" | Waiting _ _ => "waiting"
  | AwaitingSignal _ _ _ => "awaiting_signal"
  end.

Record FlatWorkflowStatus : Type := MkFlat {
  flat_status : string;
  flat_error : option string;
  flat_reason : option string;
  flat_cancelled_by : option string;
  flat_paused_by : option string;
  flat_wake_at : option string;
  flat_delay_id : option string;
  flat_signal_id : option string;
  flat_signal_name : option string
}.

(** [From<WorkflowStatus> for FlatWorkflowStatus]; chrono's RFC 3339 rendering is a
    parameter. *)
Definition flatten (to_rfc3339 : DateTime → string) (s : WorkflowStatus) : FlatWorkflowStatus :=
  match s with
  | Completed | InProgress => MkFlat (as_ref s) None None None None None None None None
  | Failed e => MkFlat (as_ref s) (Some e) None None None None None None None
  | Cancelled reason by_ => MkFlat (as_ref s) None reason by_ None None None None None
  | Paused reason by_ => MkFlat (as_ref s) None reason None by_ None None None None
  | Waiting wake_at delay_id =>
      MkFlat (as_ref s) None None None None (Some (to_rfc3339 wake_at))
        (Some (to_hex (task_hash delay_id))) None None
  | AwaitingSignal signal_id signal_name wake_at =>
      MkFlat (as_ref s) None None None None (to_rfc3339 <$> wake_at) None
        (Some (to_hex (task_hash signal_id))) (Some signal_name)
  end.

(** Flattening loses nothing: equal flat statuses come from equal statuses. *)
Lemma flatten_inj (to_rfc3339 : DateTime → string) :
  Inj (=) (=) to_rfc3339 → Inj (=) (=) (flatten to_rfc3339).
Proof.
  intros Hr [] [] Heq; cbn in Heq; try done; injection Heq; intros; subst;
    repeat match goal with
    | H : to_hex _ = to_hex _ |- _ => apply to_hex_inj in H
    | H : to_rfc3339 _ = to_rfc3339 _ |- _ => apply Hr in H
    | H : _ <$> _ = _ <$> _ |- _ => apply (inj (fmap to_rfc3339)) in H
    | i : TaskId |- _ => destruct i
    end; cbn in *; by subst.
Qed.
End Status.

(** ** State queries *)

Definition is_completed (s : WorkflowSnapshotState) : bool :=
  match s with Completed _ => true | _ => false end.
Definition is_failed (s : WorkflowSnapshotState) : bool :=
  match s with Failed _ => true | _ => false end.
Definition is_in_progress (s : WorkflowSnapshotState) : bool :=
  match s with InProgress _ _ _ => true | _ => false end.
Definition is_cancelled (s : WorkflowSnapshotState) : bool :=
  match s with Cancelled _ _ _ _ _ => true | _ => false end.
Definition is_paused (s : WorkflowSnapshotState) : bool :=
  match s with Paused _ _ _ _ _ _ => true | _ => false end.
Definition is_terminal (s : WorkflowSnapshotState) : bool :=
  match s with Completed _ | Failed _ | Cancelled _ _ _ _ _ => true | _ => false end.

Definition as_terminal_status (s : WorkflowSnapshotState) : option Status.WorkflowStatus :=
  match s with
  | Completed _ => Some Status.Completed
  | Failed error => Some (Status.Failed error)
  | Cancelled reason cancelled_by _ _ _ => Some (Status.Cancelled reason cancelled_by)
  | Paused reason paused_by _ _ _ _ => Some (Status.Paused reason paused_by)
  | InProgress _ _ _ => None
  end.

Definition as_status (s : WorkflowSnapshotState) : Status.WorkflowStatus :=
  match as_terminal_status s with
  | Some terminal => terminal
  | None =>
      match s with
      | InProgress (AtDelay delay_id _ wake_at _) _ _ => Status.Waiting wake_at delay_id
      | InProgress (AtFork fork_id _ wake_at) _ _ => Status.Waiting wake_at fork_id
      | InProgress (AtSignal signal_id signal_name wake_at _) _ _ =>
          Status.AwaitingSignal signal_id signal_name wake_at
      | _ => Status.InProgress
      end
  end.

Definition completed_output (s : WorkflowSnapshotState) : option Bytes :=
  match s with Completed final_output => Some final_output | _ => None end.
Definition cancellation_details (s : WorkflowSnapshotState) : option (option string * option string) :=
  match s with Cancelled reason cancelled_by _ _ _ => Some (reason, cancelled_by) | _ => None end.
Definition pause_details (s : WorkflowSnapshotState) : option (option string * option string) :=
  match s with Paused reason paused_by _ _ _ _ => Some (reason, paused_by) | _ => None end.

(** ** Snapshot operations *)

(** [set_task_hint]. *)
Definition set_task_hint (hint : TaskHint) (s : WorkflowSnapshot) : WorkflowSnapshot :=
  with_task_tags (hint_tags hint) (with_task_priority (hint_priority hint) s).

(** [new] and [with_initial_input]. *)
Definition snapshot_new (now : DateTime) (id : string) (hash : DefinitionHash) : WorkflowSnapshot :=
  MkSnapshot id hash (InProgress NotStarted ∅ None) (timestamp_u64 now) (timestamp_u64 now)
    None None ∅ ∅ None [] None false.
Definition with_initial_input (now : DateTime) (id : string) (hash : DefinitionHash) (input : Bytes) :
    WorkflowSnapshot :=
  MkSnapshot id hash (InProgress NotStarted ∅ None) (timestamp_u64 now) (timestamp_u64 now)
    (Some input) None ∅ ∅ None [] None false.

(** [get_all_task_results], [get_task_result], [get_task_result_bytes]. *)
Definition get_all_task_results (s : WorkflowSnapshot) : option CompletedTasks :=
  match state s with
  | InProgress _ completed _ | Cancelled _ _ _ completed _ | Paused _ _ _ completed _ _ =>
      Some completed
  | Completed _ | Failed _ => None
  end.
Definition get_task_result (task_id : TaskId) (s : WorkflowSnapshot) : option TaskResult :=
  match state s with
  | InProgress _ completed _ | Cancelled _ _ _ completed _ | Paused _ _ _ completed _ _ =>
      completed !! task_id
  | _ => None
  end.
Definition get_task_result_bytes (task_id : TaskId) (s : WorkflowSnapshot) : option Bytes :=
  tr_output <$> get_task_result task_id s.

(** [completed_tasks_mut] with the write its caller performs through the
    reference; the state is unchanged when there is no map. *)
Definition completed_tasks_mut (f : CompletedTasks → CompletedTasks) (s : WorkflowSnapshot) :
    WorkflowSnapshot :=
  match state s with
  | InProgress p completed l => with_state (InProgress p (f completed) l) s
  | Cancelled r b t completed i => with_state (Cancelled r b t (f completed) i) s
  | Paused r b t completed p l => with_state (Paused r b t (f completed) p l) s
  | Completed _ | Failed _ => s
  end.

Definition clear_output (r : TaskResult) : TaskResult := MkTaskResult (tr_task_id r) [].

(** [strip_task_outputs]. *)
Definition strip_task_outputs (s : WorkflowSnapshot) : WorkflowSnapshot :=
  completed_tasks_mut (fmap clear_output) s.

(** [take_task_outputs]: the non-empty outputs, in the map's iteration order,
    under the task id each result carries. *)
Definition taken_output (r : TaskResult) : option (TaskId * Bytes) :=
  if bool_decide (tr_output r = []) then None else Some (tr_task_id r, tr_output r).
Definition take_task_outputs (s : WorkflowSnapshot) : list (TaskId * Bytes) * WorkflowSnapshot :=
  match get_all_task_results s with
  | None => ([], s)
  | Some completed =>
      (omap taken_output (map_to_list completed).*2,
       completed_tasks_mut (fmap clear_output) s)
  end.

(** [hydrate_task_outputs]. *)
Definition hydrate_one (completed : CompletedTasks) (o : TaskId * Bytes) : CompletedTasks :=
  match completed !! o.1 with
  | Some r => <[o.1 := MkTaskResult (tr_task_id r) o.2]> completed
  | None => completed
  end.
Definition hydrate_task_outputs (outputs : list (TaskId * Bytes)) (s : WorkflowSnapshot) :
    WorkflowSnapshot :=
  completed_tasks_mut (λ completed, foldl hydrate_one completed outputs) s.

(** [mark_task_completed]. *)
Definition mark_task_completed (now : DateTime) (task_id : TaskId) (output : Bytes)
    (s : WorkflowSnapshot) : WorkflowSnapshot :=
  match state s with
  | InProgress p completed _ =>
      with_output_unflushed true
        (with_updated_at (timestamp_u64 now)
          (with_state (InProgress p (<[task_id := MkTaskResult task_id output]> completed)
            (Some task_id)) s))
  | _ => s
  end.

(** [last_completed_task_id], [get_last_task_output], [final_output_bytes]. *)
Definition last_completed_task_id (s : WorkflowSnapshot) : option TaskId :=
  match state s with
  | InProgress _ _ last | Paused _ _ _ _ _ last => last
  | _ => None
  end.
Definition get_last_task_output (s : WorkflowSnapshot) : option Bytes :=
  match state s with
  | InProgress _ completed last =>
      id ← last; r ← completed !! id; Some (tr_output r)
  | _ => None
  end.
Definition final_output_bytes (s : WorkflowSnapshot) : option Bytes :=
  match state s with Completed final_output => Some final_output | _ => None end.

(** [update_position]. *)
Definition update_position (now : DateTime) (position : ExecutionPosition) (s : WorkflowSnapshot) :
    WorkflowSnapshot :=
  match state s with
  | InProgress _ completed last =>
      with_updated_at (timestamp_u64 now) (with_state (InProgress position completed last) s)
  | _ => s
  end.

Section Deadlines.
Context `{Chrono}.

(** [set_task_deadline]: [Utc::now() + d] panics when the date overflows. *)
Definition set_task_deadline (now : DateTime) (task_id : TaskId) (timeout : Duration)
    (s : WorkflowSnapshot) : option WorkflowSnapshot :=
  let d := default DURATION_MAX (duration_from_std timeout) in
  deadline ← checked_add_signed now d;
  Some (with_task_deadline (Some (MkTaskDeadline task_id deadline (as_u64 (as_millis timeout)))) s).

(** [refresh_task_deadline]. *)
Definition refresh_task_deadline (now : DateTime) (s : WorkflowSnapshot) : option WorkflowSnapshot :=
  match task_deadline s with
  | Some d =>
      timeout ← duration_milliseconds (as_i64 (td_timeout_ms d));
      deadline ← checked_add_signed now timeout;
      Some (with_task_deadline (Some (MkTaskDeadline (td_task_id d) deadline (td_timeout_ms d))) s)
  | None => Some s
  end.
End Deadlines.

(** [clear_task_deadline], [expired_task_deadline]. *)
Definition clear_task_deadline (s : WorkflowSnapshot) : WorkflowSnapshot := with_task_deadline None s.
Definition expired_task_deadline (now : DateTime) (s : WorkflowSnapshot) : option (TaskId * Duration) :=
  d ← task_deadline s;
  if bool_decide (td_deadline d ≤ now) then Some (td_task_id d, from_millis (td_timeout_ms d)) else None.

(** ** Retries *)

(** [as i32] of a [u32]; [u32] addition and [saturating_sub]. *)
Definition as_i32 (z : Z) : Z :=
  let w := z mod 2 ^ 32 in if bool_decide (w < 2 ^ 31) then w else w - 2 ^ 32.
Definition u32_add (a b : Z) : Z := (a + b) mod 2 ^ 32.
Definition u32_saturating_sub (a b : Z) : Z := Z.max 0 (a - b).

Section Retries.
Context `{Chrono} `{FloatOps}.

(** The delay [record_retry] computes for the attempt [n], in milliseconds:
    [(initial_delay.as_millis() as f64 * f64::from(multiplier)) as i64]. *)
Definition retry_delay_ms (p : RetryPolicy) (n : Z) : Z :=
  let exponent := u32_saturating_sub n 1 in
  let multiplier := powi (backoff_multiplier p) (as_i32 exponent) in
  f64_as_i64 (f64_mul (f64_of_Z (as_millis (initial_delay p))) (f64_of_f32 multiplier)).

(** [record_retry]; [None] is a panic of the date arithmetic. *)
Definition record_retry (now : DateTime) (task_id : TaskId) (p : RetryPolicy) (error : string)
    (worker_id : option string) (s : WorkflowSnapshot) : option (DateTime * WorkflowSnapshot) :=
  let entry_attempts := match task_retries s !! task_id with Some e => attempts e | None => 0 end in
  let n := u32_add entry_attempts 1 in
  delay ← duration_milliseconds (retry_delay_ms p n);
  next ← checked_add_signed now delay;
  Some (next,
    with_updated_at (timestamp_u64 now)
      (with_task_retries
        (<[task_id := MkTaskRetryState n p error worker_id next]> (task_retries s)) s)).
End Retries.

(** [get_retry_state], [clear_retry_state], [retries_exhausted],
    [has_failed_on_worker]. *)
Definition get_retry_state (task_id : TaskId) (s : WorkflowSnapshot) : option TaskRetryState :=
  task_retries s !! task_id.
Definition clear_retry_state (task_id : TaskId) (s : WorkflowSnapshot) : WorkflowSnapshot :=
  with_task_retries (delete task_id (task_retries s)) s.
Definition retries_exhausted (task_id : TaskId) (s : WorkflowSnapshot) : bool :=
  match task_retries s !! task_id with
  | Some rs => bool_decide (max_retries (policy rs) ≤ attempts rs)
  | None => false
  end.
Definition has_failed_on_worker (task_id : TaskId) (worker_id : string) (s : WorkflowSnapshot) : bool :=
  match task_retries s !! task_id ≫= last_failed_worker with
  | Some w => bool_decide (w = worker_id)
  | None => false
  end.

(** [loop_iteration], [set_loop_iteration], [clear_loop_iteration]. *)
Definition loop_iteration (loop_id : TaskId) (s : WorkflowSnapshot) : Z :=
  default 0 (loop_iterations s !! loop_id).
Definition set_loop_iteration (now : DateTime) (loop_id : TaskId) (iteration : Z)
    (s : WorkflowSnapshot) : WorkflowSnapshot :=
  with_updated_at (timestamp_u64 now)
    (with_loop_iterations (<[loop_id := iteration]> (loop_iterations s)) s).
Definition clear_loop_iteration (loop_id : TaskId) (s : WorkflowSnapshot) : WorkflowSnapshot :=
  with_loop_iterations (delete loop_id (loop_iterations s)) s.

(** [remove_task_result]. *)
Definition remove_task_result (now : DateTime) (task_id : TaskId) (s : WorkflowSnapshot) :
    WorkflowSnapshot :=
  match state s with
  | InProgress p completed last =>
      with_updated_at (timestamp_u64 now) (with_state (InProgress p (delete task_id completed) last) s)
  | _ => s
  end.

(** ** Status transitions *)

Definition clear_bookkeeping (s : WorkflowSnapshot) : WorkflowSnapshot :=
  with_loop_iterations ∅ (with_task_retries ∅ (with_task_deadline None s)).

(** [mark_completed], [mark_failed]. *)
Definition mark_completed (now : DateTime) (final_output : Bytes) (s : WorkflowSnapshot) :
    WorkflowSnapshot :=
  with_updated_at (timestamp_u64 now) (with_state (Completed final_output) (clear_bookkeeping s)).
Definition mark_failed (now : DateTime) (error : string) (s : WorkflowSnapshot) : WorkflowSnapshot :=
  with_updated_at (timestamp_u64 now) (with_state (Failed error) (clear_bookkeeping s)).

(** [mark_paused], [mark_unpaused]. *)
Definition mark_paused (now : DateTime) (request : PauseRequest) (s : WorkflowSnapshot) :
    WorkflowSnapshot :=
  match state s with
  | InProgress position completed last =>
      with_updated_at (timestamp_u64 now)
        (with_state (Paused (pr_reason request) (pr_requested_by request) now completed position last)
          (with_task_deadline None s))
  | _ => s
  end.
Definition mark_unpaused (now : DateTime) (s : WorkflowSnapshot) : WorkflowSnapshot :=
  match state s with
  | Paused _ _ _ completed position last =>
      with_updated_at (timestamp_u64 now) (with_state (InProgress position completed last) s)
  | _ => s
  end.

(** [mark_cancelled]. *)
Definition mark_cancelled (now : DateTime) (reason cancelled_by : option string)
    (interrupted_at_task : option TaskId) (s : WorkflowSnapshot) : WorkflowSnapshot :=
  let completed := match state s with InProgress _ completed _ => completed | _ => ∅ end in
  with_updated_at (timestamp_u64 now)
    (with_state (Cancelled reason cancelled_by now completed interrupted_at_task)
      (with_task_deadline None s)).

(** ** Column extraction *)

Definition current_task_priority (s : WorkflowSnapshot) : Z := default 3 (task_priority s).
Definition current_task_id (s : WorkflowSnapshot) : option TaskId :=
  match state s with InProgress (AtTask task_id) _ _ => Some task_id | _ => None end.
Definition completed_task_count (s : WorkflowSnapshot) : Z :=
  match state s with
  | InProgress _ completed _ | Cancelled _ _ _ completed _ | Paused _ _ _ completed _ _ =>
      Z.min (Z.of_nat (size completed)) i32_max
  | _ => 0
  end.
Definition error_message (s : WorkflowSnapshot) : option string :=
  match state s with Failed error => Some error | _ => None end.
Definition position_kind (s : WorkflowSnapshot) : option string :=
  match state s with
  | InProgress position _ _ | Paused _ _ _ _ position _ => Some (position_as_ref position)
  | _ => None
  end.
Definition awaited_signal_name (s : WorkflowSnapshot) : option string :=
  match state s with InProgress (AtSignal _ signal_name _ _) _ _ => Some signal_name | _ => None end.
Definition delay_wake_at (s : WorkflowSnapshot) : option DateTime :=
  match state s with
  | InProgress (AtDelay _ _ wake_at _) _ _ | InProgress (AtFork _ _ wake_at) _ _ => Some wake_at
  | InProgress (AtSignal _ _ (Some wake_at) _) _ _ => Some wake_at
  | _ => None
  end.

(** ** The snapshot as a state machine

    Every mutating operation as a step; [Panic]-able ones when they return. *)

Inductive snapshot_step `{Chrono} `{FloatOps} : DateTime → WorkflowSnapshot → WorkflowSnapshot → Prop :=
| step_hint now hint s : snapshot_step now s (set_task_hint hint s)
| step_strip now s : snapshot_step now s (strip_task_outputs s)
| step_take now s : snapshot_step now s (take_task_outputs s).2
| step_hydrate now outputs s : snapshot_step now s (hydrate_task_outputs outputs s)
| step_task_completed now task_id output s : snapshot_step now s (mark_task_completed now task_id output s)
| step_position now position s : snapshot_step now s (update_position now position s)
| step_set_deadline now task_id timeout s s' :
    set_task_deadline now task_id timeout s = Some s' → snapshot_step now s s'
| step_refresh_deadline now s s' : refresh_task_deadline now s = Some s' → snapshot_step now s s'
| step_clear_deadline now s : snapshot_step now s (clear_task_deadline s)
| step_retry now task_id p error worker next s s' :
    record_retry now task_id p error worker s = Some (next, s') → snapshot_step now s s'
| step_clear_retry now task_id s : snapshot_step now s (clear_retry_state task_id s)
| step_set_loop now loop_id iteration s : snapshot_step now s (set_loop_iteration now loop_id iteration s)
| step_clear_loop now loop_id s : snapshot_step now s (clear_loop_iteration loop_id s)
| step_remove now task_id s : snapshot_step now s (remove_task_result now task_id s)
| step_completed now output s : snapshot_step now s (mark_completed now output s)
| step_failed now error s : snapshot_step now s (mark_failed now error s)
| step_paused now request s : snapshot_step now s (mark_paused now request s)
| step_unpaused now s : snapshot_step now s (mark_unpaused now s)
| step_cancelled now reason by_ at_ s : snapshot_step now s (mark_cancelled now reason by_ at_ s).

(** *** The invariant *)

(** Results are filed under the id of the task that produced them. *)
Definition keyed (completed : CompletedTasks) : Prop := map_Forall (λ k r, tr_task_id r = k) completed.

Definition results_keyed (s : WorkflowSnapshot) : Prop :=
  match get_all_task_results s with Some completed => keyed completed | None => True end.

Definition retries_u32 (m : gmap TaskId TaskRetryState) : Prop :=
  map_Forall (λ _ e, is_u32 (attempts e)) m.

Definition snapshot_wf (s : WorkflowSnapshot) : Prop :=
  results_keyed s ∧
  retries_u32 (task_retries s) ∧
  is_u64 (created_at s) ∧ is_u64 (updated_at s) ∧
  opt_all (λ d, is_u64 (td_timeout_ms d)) (task_deadline s).

Lemma keyed_fmap (f : TaskResult → TaskResult) completed :
  (∀ r, tr_task_id (f r) = tr_task_id r) → keyed completed → keyed (f <$> completed).
Proof.
  intros Hf Hk k r. rewrite lookup_fmap. intros (r0 & Hr0 & ->)%fmap_Some.
  rewrite Hf. by apply Hk.
Qed.

Lemma keyed_hydrate outputs completed : keyed completed → keyed (foldl hydrate_one completed outputs).
Proof.
  revert completed; induction outputs as [|[k o] outputs IH]; intros completed Hk; [done|].
  apply IH. unfold hydrate_one. cbn. destruct (completed !! k) as [r|] eqn:Hr; [|done].
  apply map_Forall_insert_2; [|done]. cbn. by apply Hk.
Qed.

Lemma keyed_insert task_id output completed :
  keyed completed → keyed (<[task_id := MkTaskResult task_id output]> completed).
Proof. intros Hk. by apply map_Forall_insert_2. Qed.

Lemma keyed_delete task_id completed : keyed completed → keyed (delete task_id completed).
Proof. apply map_Forall_delete. Qed.

Lemma keyed_empty : keyed ∅.
Proof. apply map_Forall_empty. Qed.

Lemma results_keyed_mut f s :
  (∀ completed, keyed completed → keyed (f completed)) →
  results_keyed s → results_keyed (completed_tasks_mut f s).
Proof.
  unfold results_keyed, get_all_task_results, completed_tasks_mut. intros Hf.
  destruct (state s) eqn:Hs; cbn; rewrite ?Hs; auto.
Qed.

Lemma completed_tasks_mut_fields f s :
  task_retries (completed_tasks_mut f s) = task_retries s ∧
  created_at (completed_tasks_mut f s) = created_at s ∧
  updated_at (completed_tasks_mut f s) = updated_at s ∧
  task_deadline (completed_tasks_mut f s) = task_deadline s.
Proof. unfold completed_tasks_mut. by destruct (state s). Qed.

Lemma snapshot_wf_mut f s :
  (∀ completed, keyed completed → keyed (f completed)) →
  snapshot_wf s → snapshot_wf (completed_tasks_mut f s).
Proof.
  intros Hf (Hk & Hr). split; [by apply results_keyed_mut|].
  destruct (completed_tasks_mut_fields f s) as (-> & -> & -> & ->). done.
Qed.

Lemma u32_add_range a b : is_u32 (u32_add a b).
Proof. unfold is_u32, u32_add, u32_max. pose proof (Z.mod_pos_bound (a + b) (2^32)); lia. Qed.

Lemma timestamp_u64_range t : is_u64 (timestamp_u64 t).
Proof. apply as_u64_range. Qed.

Lemma retries_u32_insert task_id a p error worker next m :
  retries_u32 m → retries_u32 (<[task_id := MkTaskRetryState (u32_add a 1) p error worker next]> m).
Proof. intros Hm. apply map_Forall_insert_2; [apply u32_add_range|done]. Qed.

Lemma retries_u32_delete task_id m : retries_u32 m → retries_u32 (delete task_id m).
Proof. apply map_Forall_delete. Qed.

Lemma retries_u32_empty : retries_u32 ∅.
Proof. apply map_Forall_empty. Qed.

#[export] Hint Resolve as_u64_range timestamp_u64_range u32_add_range retries_u32_insert
  retries_u32_delete retries_u32_empty keyed_insert keyed_delete keyed_empty : sayiir.

Section Invariant.
Context `{Chrono} `{FloatOps}.

Lemma take_snd s : (take_task_outputs s).2 = strip_task_outputs s.
Proof.
  unfold take_task_outputs, strip_task_outputs, get_all_task_results, completed_tasks_mut.
  by destruct (state s).
Qed.

Ltac wf_step :=
  repeat match goal with
  | H : match ?o with Some _ => _ | None => _ end = Some _ |- _ => destruct o eqn:?
  | H : _ = Some _ |- _ => progress (cbn in H; simplify_option_eq)
  end;
  unfold snapshot_wf, results_keyed, get_all_task_results in *; cbn;
  split_and!; intuition eauto with sayiir.

Lemma snapshot_step_wf now s s' : snapshot_step now s s' → snapshot_wf s → snapshot_wf s'.
Proof.
  intros Hstep Hwf. destruct Hstep; rewrite ?take_snd;
    try (apply snapshot_wf_mut; [|done]; intros; by auto using keyed_fmap, keyed_hydrate);
    unfold set_task_hint, mark_task_completed, update_position, set_task_deadline, refresh_task_deadline,
      clear_task_deadline, record_retry, clear_retry_state, set_loop_iteration, clear_loop_iteration,
      remove_task_result, mark_completed, mark_failed, mark_paused, mark_unpaused, mark_cancelled in *;
    try (destruct s as [? ? []]; cbn in *; try done; wf_step; fail).
  all: destruct s as [? ? []]; wf_step.
Qed.
End Invariant.

(** *** The status machine *)

(** [SnapshotStatus]: the discriminant of the state. *)
Inductive SnapshotStatus : Type := SInProgress | SCompleted | SFailed | SCancelled | SPaused.
#[export] Instance SnapshotStatus_eq_dec : EqDecision SnapshotStatus.
Proof. solve_decision. Defined.

Definition snapshot_status (s : WorkflowSnapshot) : SnapshotStatus :=
  match state s with
  | InProgress _ _ _ => SInProgress | Completed _ => SCompleted | Failed _ => SFailed
  | Cancelled _ _ _ _ _ => SCancelled | Paused _ _ _ _ _ _ => SPaused
  end.

(** The edges of the status machine: nothing leads out of the terminal statuses
    except to another terminal status. *)
Definition status_edge (a b : SnapshotStatus) : bool :=
  bool_decide (a = b) ||
  match a, b with
  | _, SCompleted | _, SFailed | _, SCancelled => true
  | SInProgress, SPaused | SPaused, SInProgress => true
  | _, _ => false
  end.

(** What no operation changes. *)
Definition identity (s : WorkflowSnapshot) : string * DefinitionHash * Z * option Bytes * option string :=
  (instance_id s, snapshot_definition_hash s, created_at s, initial_input s, trace_parent s).

Section Transitions.
Context `{Chrono} `{FloatOps}.

Lemma snapshot_step_edge now s s' :
  snapshot_step now s s' →
  identity s' = identity s ∧ status_edge (snapshot_status s) (snapshot_status s').
Proof.
  intros Hstep. destruct Hstep; rewrite ?take_snd;
    unfold strip_task_outputs, hydrate_task_outputs, completed_tasks_mut,
      set_task_hint, mark_task_completed, update_position, set_task_deadline, refresh_task_deadline,
      clear_task_deadline, record_retry, clear_retry_state, set_loop_iteration, clear_loop_iteration,
      remove_task_result, mark_completed, mark_failed, mark_paused, mark_unpaused, mark_cancelled in *;
    repeat match goal with
    | H : match ?o with Some _ => _ | None => _ end = Some _ |- _ => destruct o eqn:?
    | H : _ = Some _ |- _ => progress (cbn in H; simplify_option_eq)
    end; unfold snapshot_status; cbn;
    repeat match goal with |- context [state ?x] => destruct (state x) eqn:?; cbn end; done.
Qed.
End Transitions.

(** *** Pausing *)

Lemma unpause_pause now1 now2 request s :
  is_in_progress (state s) →
  mark_unpaused now2 (mark_paused now1 request s) =
  with_updated_at (timestamp_u64 now2) (clear_task_deadline s).
Proof. destruct s as [? ? []]; by intros. Qed.

(** *** Moving outputs out and back *)

Lemma hydrate_one_lookup completed o k :
  hydrate_one completed o !! k =
  if bool_decide (o.1 = k) then (λ r, MkTaskResult (tr_task_id r) o.2) <$> completed !! k
  else completed !! k.
Proof.
  unfold hydrate_one. destruct o as [k' b]; cbn.
  case_bool_decide as Hk; subst; destruct (completed !! _) eqn:E; cbn;
    rewrite ?lookup_insert_eq, ?lookup_insert_ne by done; try done; by rewrite ?E.
Qed.

(** After hydrating from outputs with unique ids, the entry of [k] has the output
    listed for [k], if any. *)
Lemma hydrate_lookup outputs completed k :
  NoDup outputs.*1 →
  foldl hydrate_one completed outputs !! k =
  match list_find (λ o : TaskId * Bytes, o.1 = k) outputs with
  | Some (_, o) => (λ r, MkTaskResult (tr_task_id r) o.2) <$> completed !! k
  | None => completed !! k
  end.
Proof.
  revert completed; induction outputs as [|o outputs IH]; intros completed Hnd; [done|].
  cbn in Hnd. apply NoDup_cons in Hnd as [Ho Hnd]. cbn. rewrite IH by done.
  destruct (decide (o.1 = k)) as [<-|Hne].
  - assert (list_find (λ o' : TaskId * Bytes, o'.1 = o.1) outputs = None) as ->.
    { apply list_find_None, Forall_forall. intros x Hx Heq. apply Ho. rewrite <-Heq.
      apply list_elem_of_fmap. eauto. }
    rewrite hydrate_one_lookup. by rewrite bool_decide_true.
  - rewrite !hydrate_one_lookup, bool_decide_false by done.
    by destruct (list_find _ outputs) as [[]|].
Qed.

Lemma taken_output_Some r o :
  taken_output r = Some o ↔ o = (tr_task_id r, tr_output r) ∧ tr_output r ≠ [].
Proof. unfold taken_output. case_bool_decide; naive_solver. Qed.

Lemma elem_taken completed k b :
  keyed completed →
  (k, b) ∈ omap taken_output (map_to_list completed).*2 ↔
  completed !! k = Some (MkTaskResult k b) ∧ b ≠ [].
Proof.
  intros Hk. rewrite list_elem_of_omap. split.
  - intros (r & Hr & [Heq Hne]%taken_output_Some). injection Heq as -> ->.
    apply list_elem_of_fmap in Hr as ([k' r'] & -> & Hin%elem_of_map_to_list). cbn in *.
    pose proof (Hk _ _ Hin) as Hid. destruct r' as [i o]; cbn in *. by subst.
  - intros [Hl Hb]. exists (MkTaskResult k b). split.
    + apply list_elem_of_fmap. exists (k, MkTaskResult k b). split; [done|].
      by apply elem_of_map_to_list.
    + by apply taken_output_Some.
Qed.

Lemma NoDup_taken completed :
  keyed completed → NoDup (omap taken_output (map_to_list completed).*2).*1.
Proof.
  intros Hk. pose proof (NoDup_fst_map_to_list completed) as Hnd.
  assert (Forall (λ kr : TaskId * TaskResult, tr_task_id kr.2 = kr.1) (map_to_list completed)) as Hall.
  { apply Forall_forall. intros [k r] Hin%elem_of_map_to_list. by apply Hk. }
  induction Hall as [|[k r] l Hkr Hall IH]; cbn in *; [constructor|].
  apply NoDup_cons in Hnd as [Hk' Hnd]. destruct (taken_output r) as [o|] eqn:Ho; [|by apply IH].
  apply taken_output_Some in Ho as [-> _]. cbn. apply NoDup_cons. split; [|by apply IH].
  intros Hin. apply Hk'. rewrite <-Hkr. apply list_elem_of_fmap in Hin as (o & Heq & Hin).
  apply list_elem_of_omap in Hin as (r' & Hr' & [-> _]%taken_output_Some). cbn in Heq.
  apply list_elem_of_fmap in Hr' as ([k' r2] & -> & Hin). rewrite Forall_forall in Hall.
  pose proof (Hall _ Hin) as Hid. cbn in *. apply list_elem_of_fmap. exists (k', r2). cbn. by subst.
Qed.

Lemma hydrate_taken completed outputs :
  keyed completed → outputs ≡ₚ omap taken_output (map_to_list completed).*2 →
  foldl hydrate_one (clear_output <$> completed) outputs = completed.
Proof.
  intros Hk Hp. assert (NoDup outputs.*1) as Hnd by (rewrite Hp; by apply NoDup_taken).
  apply map_eq. intros k. rewrite hydrate_lookup, lookup_fmap by done.
  assert (∀ b, (k, b) ∈ outputs ↔ completed !! k = Some (MkTaskResult k b) ∧ b ≠ []) as Helem.
  { intros b. rewrite Hp. by apply elem_taken. }
  destruct (list_find _ outputs) as [[i [k' b]]|] eqn:Hf.
  - apply list_find_Some in Hf as (Hi & Hk' & _). cbn in Hk'. subst k'.
    apply list_elem_of_lookup_2, Helem in Hi as [-> _]. done.
  - apply list_find_None in Hf. destruct (completed !! k) as [[k' b]|] eqn:Hl; [|done]. cbn.
    pose proof (Hk _ _ Hl) as Hk'. cbn in Hk'. subst k'. destruct b as [|x b]; [done|].
    assert ((k, x :: b) ∈ outputs) as Hin by by apply Helem.
    rewrite Forall_forall in Hf. by destruct (Hf _ Hin).
Qed.

Lemma completed_tasks_mut_compose f g s :
  completed_tasks_mut f (completed_tasks_mut g s) = completed_tasks_mut (λ m, f (g m)) s.
Proof. destruct s as [? ? []]; done. Qed.

Lemma completed_tasks_mut_id f s :
  match get_all_task_results s with Some m => f m = m | None => True end →
  completed_tasks_mut f s = s.
Proof.
  destruct s as [? ? []]; unfold get_all_task_results, completed_tasks_mut; cbn; intros Hf;
    try done; by rewrite Hf.
Qed.

(** *** Retry counting *)

Section RetryCount.
Context `{Chrono} `{FloatOps}.

(** The recordings of successive failures of one task under one policy. *)
Fixpoint record_failures (task_id : TaskId) (p : RetryPolicy)
    (failures : list (DateTime * string * option string)) (s : WorkflowSnapshot) :
    option WorkflowSnapshot :=
  match failures with
  | [] => Some s
  | (now, error, worker) :: failures =>
      r ← record_retry now task_id p error worker s; record_failures task_id p failures r.2
  end.

Lemma record_retry_Some now task_id p error worker s next s' :
  record_retry now task_id p error worker s = Some (next, s') →
  let n := u32_add (match task_retries s !! task_id with Some e => attempts e | None => 0 end) 1 in
  task_retries s' = <[task_id := MkTaskRetryState n p error worker next]> (task_retries s) ∧
  state s' = state s.
Proof. unfold record_retry. intros ?. by simplify_option_eq. Qed.

Lemma u32_add_exact a b : 0 ≤ a → 0 ≤ b → a + b ≤ u32_max → u32_add a b = a + b.
Proof. unfold u32_add, u32_max. intros. apply Z.mod_small. lia. Qed.

Lemma record_failures_count task_id p failures s s' a :
  record_failures task_id p failures s = Some s' →
  0 ≤ a → a + Z.of_nat (length failures) ≤ u32_max →
  match task_retries s !! task_id with Some e => attempts e | None => 0 end = a →
  failures ≠ [] →
  ∃ e, task_retries s' !! task_id = Some e ∧ attempts e = a + Z.of_nat (length failures) ∧ policy e = p.
Proof.
  revert s a; induction failures as [|[[now error] worker] failures IH]; intros s a; [done|].
  cbn [record_failures length]. intros Hf Ha Hb Hs _.
  destruct (record_retry now task_id p error worker s) as [[next s1]|] eqn:Hr; [|done]. cbn in Hf.
  apply record_retry_Some in Hr as [Hr _]. rewrite Hs, u32_add_exact in Hr by lia.
  destruct failures as [|f failures].
  - injection Hf as <-. rewrite Hr, lookup_insert_eq. eexists. split; [done|]. cbn. split; [lia|done].
  - destruct (IH s1 (a + 1) Hf) as (e & He & Hae & Hp);
      [lia|cbn in *; lia|by rewrite Hr, lookup_insert_eq|done|].
    exists e. split; [done|]. split; [rewrite Hae; cbn; lia|done].
Qed.

End RetryCount.

(** *** The snapshot as its history tells it

    Every operation as a value, a history as the list of the operations that
    were applied (the newest first, with the instants they read), and what a
    history tells about the snapshot it leads to, said without the snapshot:
    which events a reader of the history would look for, and since when. *)

Inductive snapshot_op : Type :=
| OpHint (hint : TaskHint)
| OpStrip
| OpTake
| OpHydrate (outputs : list (TaskId * Bytes))
| OpTaskCompleted (task_id : TaskId) (output : Bytes)
| OpPosition (position : ExecutionPosition)
| OpSetDeadline (task_id : TaskId) (timeout : Duration)
| OpRefreshDeadline
| OpClearDeadline
| OpRetry (task_id : TaskId) (p : RetryPolicy) (error : string) (worker : option string)
| OpClearRetry (task_id : TaskId)
| OpSetLoop (loop_id : TaskId) (iteration : Z)
| OpClearLoop (loop_id : TaskId)
| OpRemove (task_id : TaskId)
| OpCompleted (output : Bytes)
| OpFailed (error : string)
| OpPaused (request : PauseRequest)
| OpUnpaused
| OpCancelled (reason cancelled_by : option string) (interrupted_at : option TaskId).

(** The operation, [None] when its date arithmetic panics. *)
Definition apply_op `{Chrono} `{FloatOps} (now : DateTime) (op : snapshot_op) (s : WorkflowSnapshot) :
    option WorkflowSnapshot :=
  match op with
  | OpHint hint => Some (set_task_hint hint s)
  | OpStrip => Some (strip_task_outputs s)
  | OpTake => Some (take_task_outputs s).2
  | OpHydrate outputs => Some (hydrate_task_outputs outputs s)
  | OpTaskCompleted task_id output => Some (mark_task_completed now task_id output s)
  | OpPosition position => Some (update_position now position s)
  | OpSetDeadline task_id timeout => set_task_deadline now task_id timeout s
  | OpRefreshDeadline => refresh_task_deadline now s
  | OpClearDeadline => Some (clear_task_deadline s)
  | OpRetry task_id p error worker => snd <$> record_retry now task_id p error worker s
  | OpClearRetry task_id => Some (clear_retry_state task_id s)
  | OpSetLoop loop_id iteration => Some (set_loop_iteration now loop_id iteration s)
  | OpClearLoop loop_id => Some (clear_loop_iteration loop_id s)
  | OpRemove task_id => Some (remove_task_result now task_id s)
  | OpCompleted output => Some (mark_completed now output s)
  | OpFailed error => Some (mark_failed now error s)
  | OpPaused request => Some (mark_paused now request s)
  | OpUnpaused => Some (mark_unpaused now s)
  | OpCancelled reason cancelled_by interrupted_at =>
      Some (mark_cancelled now reason cancelled_by interrupted_at s)
  end.

Abbreviation history := (list (DateTime * snapshot_op)).

Fixpoint replay `{Chrono} `{FloatOps} (h : history) (s : WorkflowSnapshot) : option WorkflowSnapshot :=
  match h with
  | [] => Some s
  | (now, op) :: earlier => s' ← replay earlier s; apply_op now op s'
  end.

(** A snapshot as the constructors make it. *)
Definition fresh_snapshot (s : WorkflowSnapshot) : Prop :=
  ∃ now id hash,
    s = snapshot_new now id hash ∨ ∃ input, s = with_initial_input now id hash input.

(** The newest event [f] looks for; the events after the newest one that
    satisfies [P]. *)
Definition newest {A B} (f : A → option B) (l : list A) : option B := head (omap f l).
Fixpoint since {A} (P : A → bool) (l : list A) : list A :=
  match l with [] => [] | x :: l => if P x then [] else x :: since P l end.

(** The status: that of the newest ending if there is one; otherwise paused when
    the newest of the pauses and unpauses is a pause. *)
Definition ending (e : DateTime * snapshot_op) : option SnapshotStatus :=
  match e.2 with
  | OpCompleted _ => Some SCompleted | OpFailed _ => Some SFailed | OpCancelled _ _ _ => Some SCancelled
  | _ => None
  end.
Definition pausing (e : DateTime * snapshot_op) : option SnapshotStatus :=
  match e.2 with OpPaused _ => Some SPaused | OpUnpaused => Some SInProgress | _ => None end.
Definition told_status (h : history) : SnapshotStatus :=
  match newest ending h with Some st => st | None => default SInProgress (newest pausing h) end.

(** Each operation with the status the history before it tells. *)
Fixpoint stamped (h : history) : list (SnapshotStatus * snapshot_op) :=
  match h with [] => [] | (_, op) :: earlier => (told_status earlier, op) :: stamped earlier end.

(** The output of a task: completions count while the instance is in progress;
    a removal, an ending that keeps no results and the cancellation of an
    instance that is not in progress forget them; strips and hydrations rewrite
    the bytes of a result that is there. *)
Definition forgets_result (k : TaskId) (e : SnapshotStatus * snapshot_op) : bool :=
  match e.2 with
  | OpCompleted _ | OpFailed _ => true
  | OpCancelled _ _ _ => negb (bool_decide (e.1 = SInProgress))
  | OpRemove j => bool_decide (e.1 = SInProgress) && bool_decide (j = k)
  | _ => false
  end.
Definition completes (k : TaskId) (e : SnapshotStatus * snapshot_op) : option Bytes :=
  match e with
  | (SInProgress, OpTaskCompleted j output) => if bool_decide (j = k) then Some output else None
  | _ => None
  end.
Definition listed_output (k : TaskId) (o : TaskId * Bytes) : option Bytes :=
  if bool_decide (o.1 = k) then Some o.2 else None.
Definition writes_output (k : TaskId) (e : SnapshotStatus * snapshot_op) : option Bytes :=
  match e.2 with
  | OpStrip | OpTake => Some []
  | OpHydrate outputs => last (omap (listed_output k) outputs)
  | _ => completes k e
  end.
Definition told_result (k : TaskId) (h : history) : option Bytes :=
  let l := since (forgets_result k) (stamped h) in
  match newest (completes k) l with Some _ => newest (writes_output k) l | None => None end.

(** The retries of a task: its failures recorded since the last clearing or
    ending, counted in 32 bits, with what the newest of them said. *)
Definition forgets_retry (k : TaskId) (e : DateTime * snapshot_op) : bool :=
  match e.2 with
  | OpCompleted _ | OpFailed _ => true | OpClearRetry j => bool_decide (j = k) | _ => false
  end.
Definition fails (k : TaskId) (e : DateTime * snapshot_op) : option (RetryPolicy * string * option string) :=
  match e.2 with
  | OpRetry j p error worker => if bool_decide (j = k) then Some (p, error, worker) else None
  | _ => None
  end.
Definition told_retry (k : TaskId) (h : history) : option (Z * (RetryPolicy * string * option string)) :=
  let failures := omap (fails k) (since (forgets_retry k) h) in
  pair (Z.of_nat (length failures) mod 2 ^ 32) <$> head failures.

(** The iteration of a loop: the newest one set since the last clearing or
    ending. *)
Definition forgets_loop (k : TaskId) (e : DateTime * snapshot_op) : bool :=
  match e.2 with
  | OpCompleted _ | OpFailed _ => true | OpClearLoop j => bool_decide (j = k) | _ => false
  end.
Definition iterates (k : TaskId) (e : DateTime * snapshot_op) : option Z :=
  match e.2 with OpSetLoop j i => if bool_decide (j = k) then Some i else None | _ => None end.
Definition told_iteration (k : TaskId) (h : history) : Z :=
  default 0 (newest (iterates k) (since (forgets_loop k) h)).

(** Position and last completed task: the newest update, and the newest
    completion, made while the instance was in progress. *)
Definition moves (e : SnapshotStatus * snapshot_op) : option ExecutionPosition :=
  match e with (SInProgress, OpPosition p) => Some p | _ => None end.
Definition completes_some (e : SnapshotStatus * snapshot_op) : option TaskId :=
  match e with (SInProgress, OpTaskCompleted j _) => Some j | _ => None end.
Definition told_progress (h : history) : option (ExecutionPosition * option TaskId) :=
  match told_status h with
  | SInProgress | SPaused =>
      Some (default NotStarted (newest moves (stamped h)), newest completes_some (stamped h))
  | _ => None
  end.
Definition progress (s : WorkflowSnapshot) : option (ExecutionPosition * option TaskId) :=
  match state s with
  | InProgress p _ last | Paused _ _ _ _ p last => Some (p, last)
  | _ => None
  end.

Definition retry_of (e : TaskRetryState) : Z * (RetryPolicy * string * option string) :=
  (attempts e, (policy e, last_error e, last_failed_worker e)).

(** The snapshot is what the history tells. *)
Record as_told (h : history) (s : WorkflowSnapshot) : Prop := {
  told_st : snapshot_status s = told_status h;
  told_at : progress s = told_progress h;
  told_res k : get_task_result k s = MkTaskResult k <$> told_result k h;
  told_ret k : retry_of <$> get_retry_state k s = told_retry k h;
  told_iter k : loop_iteration k s = told_iteration k h }.

Section History.
Context `{Chrono} `{FloatOps}.

(** The operations are the steps. *)
Lemma snapshot_step_op now s s' : snapshot_step now s s' ↔ ∃ op, apply_op now op s = Some s'.
Proof.
  split.
  - intros Hstep. destruct Hstep;
      [exists (OpHint hint)|exists OpStrip|exists OpTake|exists (OpHydrate outputs)
      |exists (OpTaskCompleted task_id output)|exists (OpPosition position)
      |exists (OpSetDeadline task_id timeout)|exists OpRefreshDeadline|exists OpClearDeadline
      |exists (OpRetry task_id p error worker)|exists (OpClearRetry task_id)
      |exists (OpSetLoop loop_id iteration)|exists (OpClearLoop loop_id)|exists (OpRemove task_id)
      |exists (OpCompleted output)|exists (OpFailed error)|exists (OpPaused request)|exists OpUnpaused
      |exists (OpCancelled reason by_ at_)]; try done; cbn.
    match goal with H : record_retry _ _ _ _ _ _ = _ |- _ => by rewrite H end.
  - intros [op Hop]. destruct op; cbn [apply_op] in Hop;
      try (lazymatch type of Hop with Some _ = Some _ => injection Hop as <-; constructor end);
      [by eapply step_set_deadline|by apply step_refresh_deadline|].
    apply fmap_Some in Hop as ([next s2] & Hr & ->). by eapply step_retry.
Qed.

(** What one event adds to what is told. *)
Lemma ending_terminal h st : newest ending h = Some st → st ∈ [SCompleted; SFailed; SCancelled].
Proof.
  unfold newest. induction h as [|[now op] h IH]; [done|]. cbn.
  destruct op; cbn; auto; intros [= <-]; set_solver.
Qed.

Lemma pausing_either h st : newest pausing h = Some st → st ∈ [SPaused; SInProgress].
Proof.
  unfold newest. induction h as [|[now op] h IH]; [done|]. cbn.
  destruct op; cbn; auto; intros [= <-]; set_solver.
Qed.

Lemma told_status_cons e h :
  told_status (e :: h) =
  match ending e with
  | Some st => st
  | None => match told_status h with
            | SInProgress | SPaused => default (told_status h) (pausing e)
            | st => st
            end
  end.
Proof.
  unfold told_status at 1. unfold newest. cbn. destruct (ending e) as [st|]; [done|].
  unfold told_status. destruct (newest ending h) as [st|] eqn:He; unfold newest in He; rewrite He.
  - apply ending_terminal in He. set_unfold. by destruct He as [->|[->|[->|[]]]].
  - destruct (pausing e) as [st|]; cbn;
      (destruct (newest pausing h) as [st'|] eqn:Hp; unfold newest in Hp; rewrite ?Hp; cbn;
       [|done]; apply pausing_either in Hp; set_unfold; by destruct Hp as [->|[->|[]]]).
Qed.

Lemma told_result_cons k now op h :
  told_result k ((now, op) :: h) =
  let e := (told_status h, op) in
  if forgets_result k e then None
  else match completes k e with
       | Some output => Some output
       | None => (λ b, default b (writes_output k e)) <$> told_result k h
       end.
Proof.
  unfold told_result, newest. cbn [stamped since]. cbn zeta.
  destruct (forgets_result k _); [done|]. cbn [omap list_omap].
  set (l := since _ _). clearbody l.
  assert (∀ b, head (omap (completes k) l) = Some b → is_Some (head (omap (writes_output k) l))) as Hw.
  { clear. induction l as [|[st op] l IH]; cbn; [done|]. intros b.
    destruct op, st; cbn; try apply IH; try done;
      try (case_bool_decide; cbn; [done|apply IH]);
      destruct (last _); cbn; try done; apply IH. }
  cbn -[completes writes_output].
  destruct (completes k (told_status h, op)) as [b|] eqn:Hc; cbn -[completes writes_output].
  - destruct (told_status h), op; cbn in Hc |- *; try done; by rewrite Hc.
  - destruct (head (omap (completes k) l)) as [b|] eqn:Hl; [|done].
    destruct (Hw b eq_refl) as [b' Hb']. rewrite Hb'.
    by destruct (writes_output k (told_status h, op)).
Qed.

Lemma told_retry_cons k e h :
  told_retry k (e :: h) =
  if forgets_retry k e then None
  else match fails k e with
       | Some d => Some (u32_add (default 0 (fst <$> told_retry k h)) 1, d)
       | None => told_retry k h
       end.
Proof.
  unfold told_retry. cbn [since]. destruct (forgets_retry k e); [done|].
  set (l := since _ _). cbn. destruct (fails k e) as [d|]; [|done]. cbn. do 2 f_equal. unfold u32_add.
  destruct (omap (fails k) l) as [|x xs]; [done|].
  cbn -[Z.modulo Z.of_nat Z.add Z.pow]. rewrite Z.add_mod_idemp_l by done. f_equal. lia.
Qed.

Lemma told_iteration_cons k e h :
  told_iteration k (e :: h) =
  if forgets_loop k e then 0 else default (told_iteration k h) (iterates k e).
Proof.
  unfold told_iteration, newest. cbn [since]. destruct (forgets_loop k e); [done|].
  cbn. by destruct (iterates k e).
Qed.

Lemma told_progress_cons now op h :
  told_progress ((now, op) :: h) =
  match told_status ((now, op) :: h) with
  | SInProgress | SPaused =>
      (λ pr, (default pr.1 (moves (told_status h, op)),
              match completes_some (told_status h, op) with Some k => Some k | None => pr.2 end))
      <$> told_progress h
  | _ => None
  end.
Proof.
  unfold told_progress. rewrite told_status_cons. unfold newest. cbn [stamped omap list_omap].
  destruct (ending (now, op)) eqn:He.
  - by destruct op; cbn in He; simplify_eq.
  - destruct (told_status h); try done; destruct op; try done.
Qed.
(** What one operation does to the snapshot. *)
Ltac op_cases op s Hop :=
  destruct op; destruct s as [? ? []]; cbn [apply_op] in Hop;
  unfold set_task_deadline, refresh_task_deadline, record_retry, take_task_outputs in Hop;
  lazymatch type of Hop with
  | Some _ = Some _ => injection Hop as <-
  | _ => cbn in Hop;
      try match type of Hop with match ?d with Some _ => _ | None => _ end = _ => destruct d end;
      simplify_option_eq
  end.

Lemma op_status now op s s' :
  apply_op now op s = Some s' →
  snapshot_status s' =
    match ending (now, op) with
    | Some st => st
    | None => match snapshot_status s with
              | SInProgress | SPaused => default (snapshot_status s) (pausing (now, op))
              | st => st
              end
    end.
Proof. intros Hop. op_cases op s Hop; done. Qed.

Lemma op_progress now op s s' :
  apply_op now op s = Some s' →
  progress s' =
    match snapshot_status s' with
    | SInProgress | SPaused =>
        (λ pr, (default pr.1 (moves (snapshot_status s, op)),
                match completes_some (snapshot_status s, op) with Some k => Some k | None => pr.2 end))
        <$> progress s
    | _ => None
    end.
Proof. intros Hop. op_cases op s Hop; done. Qed.

Lemma op_iteration k now op s s' :
  apply_op now op s = Some s' →
  loop_iteration k s' =
    if forgets_loop k (now, op) then 0 else default (loop_iteration k s) (iterates k (now, op)).
Proof.
  intros Hop. unfold loop_iteration.
  op_cases op s Hop; cbn; try done; try case_bool_decide; subst; cbn;
    by rewrite ?lookup_empty, ?lookup_insert_eq, ?lookup_insert_ne, ?lookup_delete_eq, ?lookup_delete_ne.
Qed.

Lemma op_retry k now op s s' :
  apply_op now op s = Some s' →
  retry_of <$> get_retry_state k s' =
    if forgets_retry k (now, op) then None
    else match fails k (now, op) with
         | Some d => Some (u32_add (default 0 (fst <$> (retry_of <$> get_retry_state k s))) 1, d)
         | None => retry_of <$> get_retry_state k s
         end.
Proof.
  intros Hop. unfold get_retry_state.
  op_cases op s Hop; cbn; try done; try case_bool_decide; subst; cbn;
    rewrite ?lookup_empty, ?lookup_insert_eq, ?lookup_insert_ne, ?lookup_delete_eq, ?lookup_delete_ne by done;
    try done; cbn; by destruct (_ !! _).
Qed.

Lemma hydrate_last outputs completed k :
  foldl hydrate_one completed outputs !! k =
  (λ r, match last (omap (listed_output k) outputs) with
        | Some b => MkTaskResult (tr_task_id r) b | None => r end) <$> completed !! k.
Proof.
  revert completed; induction outputs as [|o outputs IH]; intros completed; cbn.
  { by destruct (completed !! k). }
  rewrite IH, hydrate_one_lookup. unfold listed_output at 2. case_bool_decide; [|done].
  rewrite last_cons. destruct (completed !! k); cbn; [|done]. by destruct (last _).
Qed.

Lemma op_result k now op s s' b :
  apply_op now op s = Some s' →
  get_task_result k s = MkTaskResult k <$> b →
  let e := (snapshot_status s, op) in
  get_task_result k s' =
    MkTaskResult k <$>
    if forgets_result k e then None
    else match completes k e with
         | Some output => Some output
         | None => (λ b, default b (writes_output k e)) <$> b
         end.
Proof.
  intros Hop. unfold get_task_result.
  op_cases op s Hop; cbn; intros Hb; try done; repeat case_bool_decide; subst; cbn; try done;
    rewrite ?lookup_empty, ?lookup_insert_eq, ?lookup_insert_ne, ?lookup_delete_eq, ?lookup_delete_ne,
      ?lookup_fmap, ?hydrate_last by done; try done;
    rewrite ?Hb; destruct b; cbn; try done;
    match goal with |- context [last ?l] => by destruct (last l) end.
Qed.

Lemma as_told_step now op h s s' : as_told h s → apply_op now op s = Some s' → as_told ((now, op) :: h) s'.
Proof.
  intros [Hst Hp Hres Hret Hit] Hop. constructor.
  - by rewrite told_status_cons, <-Hst; apply op_status.
  - rewrite told_progress_cons, told_status_cons, <-Hst, <-Hp, <-(op_status _ _ _ _ Hop).
    by apply op_progress with now.
  - intros k. rewrite told_result_cons, <-Hst. by apply (op_result _ now op s s').
  - intros k. rewrite told_retry_cons, <-Hret. by apply op_retry.
  - intros k. rewrite told_iteration_cons, <-Hit. by apply op_iteration.
Qed.

Lemma as_told_fresh s : fresh_snapshot s → as_told [] s.
Proof. intros (now & id & hash & [->|[input ->]]); by constructor. Qed.

Lemma fresh_wf s : fresh_snapshot s → snapshot_wf s.
Proof.
  intros (now & id & hash & [->|[input ->]]); unfold snapshot_wf, results_keyed; cbn;
    split_and!; auto with sayiir.
Qed.

Lemma replay_induct (P : history → WorkflowSnapshot → Prop) s0 :
  P [] s0 → (∀ now op h s s', P h s → apply_op now op s = Some s' → P ((now, op) :: h) s') →
  ∀ h s, replay h s0 = Some s → P h s.
Proof.
  intros Hnil Hstep h. induction h as [|[now op] h IH]; cbn; intros s Hs; [by injection Hs as <-|].
  apply bind_Some in Hs as (s1 & Hs1 & Hop). eauto.
Qed.
End History.

(** ** Properties *)

Section Properties.
Context `{Chrono} `{FloatOps}.

(** C5. A snapshot is what its history tells.  Take any sequence of snapshot
    operations, in any order, at any times and with any arguments, applied to a
    new snapshot (none of them panicking).  Then the status is that of the newest
    ending, or else says whether the newest of the pauses and unpauses is a
    pause; the position and the last completed task are the newest ones written
    while the instance was in progress; a task has a result, filed under its own
    id, exactly when it was completed while the instance was in progress and
    nothing forgot it since (a removal, a completion or failure of the instance,
    its cancellation when not in progress), with the bytes written last
    (completion, strip, hydration); the retry state of a task carries the number
    of failures recorded since it was last cleared, modulo 2^32, and the policy,
    error and worker of the newest; a loop's iteration is the one set last since
    it was last cleared, 0 when there is none.  The snapshot is well formed. *)
Theorem snapshot_invariant (h : history) (s0 s : WorkflowSnapshot) :
  fresh_snapshot s0 → replay h s0 = Some s → as_told h s ∧ snapshot_wf s.
Proof.
  intros Hf. apply (replay_induct (λ h s, as_told h s ∧ snapshot_wf s)).
  - split; [by apply as_told_fresh|by apply fresh_wf].
  - intros now op h' s1 s2 [Ht Hw] Hop. split; [by eapply as_told_step|].
    eapply snapshot_step_wf; [|done]. apply snapshot_step_op. by exists op.
Qed.

(** C6. The status machine: no operation changes a snapshot's identity
    (instance, definition hash, creation time, input, trace parent), and the
    status only moves along its edges; in particular a completed, failed or
    cancelled instance never becomes runnable or paused again, and a paused one
    only returns to in-progress or ends. *)
Theorem snapshot_transitions (now : DateTime) (s s' : WorkflowSnapshot) :
  snapshot_step now s s' →
  identity s' = identity s ∧
  status_edge (snapshot_status s) (snapshot_status s') ∧
  (is_terminal (state s) → is_terminal (state s')).
Proof.
  intros [? He]%snapshot_step_edge. split_and!; [done..|].
  unfold snapshot_status in He. by destruct (state s), (state s').
Qed.

(** Pausing and resuming an in-progress instance restores it exactly
    (position, results, last completed task, retries, loop counters, hints):
    only the deadline is dropped and the update time moves.  On any other
    state both operations do nothing that the other must undo: pausing leaves a
    snapshot that is not in progress unchanged, unpausing one that is not
    paused. *)
Theorem pause_roundtrip (now1 now2 : DateTime) (request : PauseRequest) (s : WorkflowSnapshot) :
  if is_in_progress (state s)
  then mark_unpaused now2 (mark_paused now1 request s) =
         with_updated_at (timestamp_u64 now2) (clear_task_deadline s) ∧
       pause_details (state (mark_paused now1 request s)) =
         Some (pr_reason request, pr_requested_by request)
  else mark_paused now1 request s = s ∧
       (is_paused (state s) = false → mark_unpaused now2 s = s).
Proof. destruct s as [? ? []]; by cbn. Qed.

(** [take_task_outputs] and [hydrate_task_outputs] are inverse: the outputs
    moved out, handed back in any order, restore the snapshot, and in between
    every stored output is empty. *)
Theorem take_hydrate_roundtrip (s : WorkflowSnapshot) (outputs : list (TaskId * Bytes)) :
  results_keyed s → outputs ≡ₚ (take_task_outputs s).1 →
  hydrate_task_outputs outputs (take_task_outputs s).2 = s ∧
  (∀ k r, get_task_result k (take_task_outputs s).2 = Some r → tr_output r = []).
Proof.
  intros Hk Hp. rewrite take_snd. split.
  - unfold hydrate_task_outputs, strip_task_outputs. rewrite completed_tasks_mut_compose.
    apply completed_tasks_mut_id. unfold results_keyed in Hk. unfold take_task_outputs in Hp.
    destruct (get_all_task_results s); [|done]. by apply hydrate_taken.
  - intros k r. unfold get_task_result, strip_task_outputs, completed_tasks_mut.
    destruct s as [? ? []]; cbn; try done; rewrite lookup_fmap;
      intros (r0 & _ & ->)%fmap_Some; done.
Qed.

(** Retry bookkeeping counts exactly: after [n] recorded failures of a task
    under a policy, the durable counter is [n] (no wrap-around up to
    [u32::MAX]) and [retries_exhausted] answers whether [n] has reached
    [max_retries]; clearing the state resets it. *)
Theorem retry_counting (task_id : TaskId) (p : RetryPolicy)
    (failures : list (DateTime * string * option string)) (s s' : WorkflowSnapshot) :
  task_retries s !! task_id = None → failures ≠ [] → Z.of_nat (length failures) ≤ u32_max →
  record_failures task_id p failures s = Some s' →
  attempts <$> get_retry_state task_id s' = Some (Z.of_nat (length failures)) ∧
  retries_exhausted task_id s' = bool_decide (max_retries p ≤ Z.of_nat (length failures)) ∧
  retries_exhausted task_id (clear_retry_state task_id s') = false.
Proof.
  intros Hs Hne Hlen Hf.
  destruct (record_failures_count task_id p failures s s' 0) as (e & He & Ha & Hp);
    [done|lia|lia|by rewrite Hs|done|].
  unfold get_retry_state, retries_exhausted, clear_retry_state. rewrite He. cbn.
  rewrite lookup_delete_eq, Ha, Hp. done.
Qed.

(** The retry delay is [initial_delay * multiplier^(attempt - 1)] in whole
    milliseconds and nothing else: [max_delay], documented as the cap on it, has
    no influence on the scheduled time. *)
Theorem record_retry_ignores_max_delay (now : DateTime) (task_id : TaskId) (p : RetryPolicy)
    (cap : option Duration) (error : string) (worker : option string) (s : WorkflowSnapshot) :
  fst <$> record_retry now task_id
    (MkRetryPolicy (max_retries p) (initial_delay p) (backoff_multiplier p) cap) error worker s =
  fst <$> record_retry now task_id p error worker s.
Proof.
  unfold record_retry, retry_delay_ms. cbn.
  destruct (duration_milliseconds _); cbn; [|done]. by destruct (checked_add_signed _ _).
Qed.

(** Deadlines: a deadline set at [now] expires exactly from [now + timeout]
    on; refreshing it at [now2] moves it to [now2] plus the timeout in whole
    milliseconds; the reported timeout is the configured one in milliseconds. *)
Theorem deadline_spec `{!ChronoLaws} (now now2 : DateTime) (task_id : TaskId) (timeout : Duration)
    (s s' s'' : WorkflowSnapshot) :
  is_Some (duration_from_std timeout) → 0 ≤ as_millis timeout < 2 ^ 63 →
  set_task_deadline now task_id timeout s = Some s' →
  refresh_task_deadline now2 s' = Some s'' →
  ∀ t, expired_task_deadline t s' =
         (if bool_decide (now + timeout ≤ t)
          then Some (task_id, from_millis (as_millis timeout)) else None) ∧
       expired_task_deadline t s'' =
         (if bool_decide (now2 + from_millis (as_millis timeout) ≤ t)
          then Some (task_id, from_millis (as_millis timeout)) else None).
Proof.
  intros [d Hd] Hms Hset Href t. apply from_std_exact in Hd as Heq. subst d.
  unfold set_task_deadline in Hset. rewrite Hd in Hset. cbn in Hset.
  destruct (checked_add_signed now timeout) as [dl|] eqn:Hadd; cbn in Hset; [|done].
  apply checked_add_exact in Hadd as ->. injection Hset as <-.
  unfold refresh_task_deadline in Href. cbn in Href.
  assert (as_u64 (as_millis timeout) = as_millis timeout) as Hu.
  { apply as_u64_id. unfold is_u64, u64_max. lia. }
  assert (as_i64 (as_millis timeout) = as_millis timeout) as Hi.
  { unfold as_i64. rewrite Z.mod_small by lia. by rewrite bool_decide_true by lia. }
  rewrite Hu, Hi in Href. destruct (duration_milliseconds _) as [d|] eqn:Hm; cbn in Href; [|done].
  apply milliseconds_exact in Hm as ->.
  destruct (checked_add_signed now2 _) as [dl|] eqn:Hadd; cbn in Href; [|done].
  apply checked_add_exact in Hadd as ->. injection Href as <-.
  unfold expired_task_deadline. cbn. by rewrite Hu.
Qed.

(** A timeout chrono cannot represent does not saturate: [set_task_deadline]
    substitutes [Duration::MAX] and adds it to the current time, which panics
    whenever that sum is not a representable date. *)
Theorem set_task_deadline_overflow (now : DateTime) (task_id : TaskId) (timeout : Duration)
    (s : WorkflowSnapshot) :
  duration_from_std timeout = None → checked_add_signed now DURATION_MAX = None →
  set_task_deadline now task_id timeout s = None.
Proof. intros Hd Ha. unfold set_task_deadline. by rewrite Hd; cbn; rewrite Ha. Qed.

(** Cancelling keeps the results of an in-progress instance but discards
    those of a paused one. *)
Theorem mark_cancelled_results (now : DateTime) (reason by_ : option string) (at_ : option TaskId)
    (s : WorkflowSnapshot) :
  get_all_task_results (mark_cancelled now reason by_ at_ s) =
  if is_in_progress (state s) then get_all_task_results s else Some ∅.
Proof. by destruct s as [? ? []]. Qed.

(** The columns derived for dashboards and sweepers agree with the reported
    status: a wake-up time exists exactly for a [Waiting] status or an
    [AwaitingSignal] one with a timeout, and is the time the status shows; the
    awaited signal is that of [AwaitingSignal]; the status is terminal, or
    paused, exactly as the state is. *)
Theorem status_columns_consistent (s : WorkflowSnapshot) :
  delay_wake_at s =
    match as_status (state s) with
    | Status.Waiting wake_at _ => Some wake_at
    | Status.AwaitingSignal _ _ wake_at => wake_at
    | _ => None
    end ∧
  awaited_signal_name s =
    match as_status (state s) with Status.AwaitingSignal _ n _ => Some n | _ => None end ∧
  is_terminal (state s) =
    match as_status (state s) with
    | Status.Completed | Status.Failed _ | Status.Cancelled _ _ => true | _ => false end ∧
  is_paused (state s) = match as_status (state s) with Status.Paused _ _ => true | _ => false end.
Proof.
  unfold delay_wake_at, awaited_signal_name. destruct s as [? ? []]; try done.
  destruct position; try done. by destruct wake_at.
Qed.
End Properties.

(** ** Witnesses *)

Module SnapshotExample.
Import Toy Examples.

Definition s0 : WorkflowSnapshot :=
  with_initial_input 0 "order-1" DefinitionHash_default [x2a].
Definition s1 : WorkflowSnapshot :=
  mark_task_completed 1 (TaskId_from "b") [] (mark_task_completed 1 (TaskId_from "a") [x01; x02] s0).

(** Three retries, first after 100 ms, without growth. *)
Definition flat_policy : RetryPolicy :=
  MkRetryPolicy 3 (from_millis 100) (Floats.SpecFloat.binary_normalize 24 128 1 0 false) None.
Definition two_failures : list (DateTime * string * option string) :=
  [(0, "boom", None); (1, "again", Some "w1")].

(** A task completed, retried twice with a pause between, its loop set, its
    outputs moved out and one of them back, another task removed. *)
Definition busy_history : history :=
  [(9, OpHydrate [(TaskId_from "a", [x2a])]); (8, OpTake); (7, OpSetLoop (TaskId_from "l") 4);
   (6, OpRetry (TaskId_from "a") flat_policy "again" (Some "w1")); (5, OpUnpaused);
   (4, OpTaskCompleted (TaskId_from "c") [x01]); (3, OpPaused (MkPauseRequest None None 3));
   (2, OpRemove (TaskId_from "b")); (1, OpTaskCompleted (TaskId_from "b") [x02]);
   (1, OpRetry (TaskId_from "a") flat_policy "boom" None);
   (1, OpTaskCompleted (TaskId_from "a") [x01; x02])].

Lemma busy_history_runs : bool_decide (is_Some (replay busy_history s0)) = true.
Proof. vm_compute. reflexivity. Qed.

Lemma snapshot_invariant_witness :
  ∃ s, replay busy_history s0 = Some s ∧ snapshot_wf s ∧ snapshot_status s = SInProgress ∧
    get_task_result_bytes (TaskId_from "a") s = Some [x2a] ∧
    get_task_result_bytes (TaskId_from "b") s = None ∧
    get_task_result_bytes (TaskId_from "c") s = None ∧
    attempts <$> get_retry_state (TaskId_from "a") s = Some 2 ∧
    loop_iteration (TaskId_from "l") s = 4.
Proof.
  destruct (proj1 (bool_decide_eq_true _) busy_history_runs) as [s E]. exists s. split; [exact E|].
  destruct (snapshot_invariant busy_history s0 s) as [[Hst Hp Hres Hret Hit] Hwf];
    [exists 0, "order-1", DefinitionHash_default; right; by exists [x2a]|exact E|].
  unfold get_task_result_bytes. rewrite Hst, Hit, !Hres. split; [exact Hwf|]. split; [reflexivity|].
  split; [reflexivity|]. split; [reflexivity|]. split; [reflexivity|]. split; [|reflexivity].
  pose proof (f_equal (fmap fst) (Hret (TaskId_from "a"))) as Ha.
  destruct (get_retry_state (TaskId_from "a") s); exact Ha.
Defined.

Lemma snapshot_transitions_witness :
  is_terminal (state (mark_paused 5 (MkPauseRequest None None 4) (mark_failed 3 "x" s1))).
Proof.
  apply (snapshot_transitions 5 (mark_failed 3 "x" s1) _ (step_paused 5 _ _)). exact I.
Defined.

Lemma take_hydrate_roundtrip_witness :
  hydrate_task_outputs [(TaskId_from "a", [x01; x02])] (take_task_outputs s1).2 = s1.
Proof.
  apply (take_hydrate_roundtrip s1 [(TaskId_from "a", [x01; x02])]).
  - apply (bool_decide_unpack (map_Forall (λ k r, tr_task_id r = k) _)). vm_compute. exact I.
  - assert ((take_task_outputs s1).1 = [(TaskId_from "a", [x01; x02])]) as -> by (vm_compute; reflexivity).
    reflexivity.
Defined.

Lemma two_failures_recorded :
  bool_decide (is_Some (record_failures (TaskId_from "a") flat_policy two_failures s1)) = true.
Proof. vm_compute. reflexivity. Qed.

Lemma retry_counting_witness :
  ∃ s', record_failures (TaskId_from "a") flat_policy two_failures s1 = Some s' ∧
    retries_exhausted (TaskId_from "a") s' = false.
Proof.
  destruct (proj1 (bool_decide_eq_true _) two_failures_recorded) as [s' E].
  exists s'. split; [exact E|].
  destruct (retry_counting (TaskId_from "a") flat_policy two_failures s1 s') as (_ & -> & _);
    [vm_compute; reflexivity|discriminate|vm_compute; discriminate|exact E|vm_compute; reflexivity].
Defined.

Lemma deadline_spec_witness :
  ∃ s' s'', set_task_deadline 10 (TaskId_from "a") (from_secs 2) s1 = Some s' ∧
    refresh_task_deadline 20 s' = Some s'' ∧
    expired_task_deadline (20 + from_secs 2) s'' = Some (TaskId_from "a", from_secs 2).
Proof.
  eexists _, _. split; [reflexivity|]. split; [reflexivity|].
  refine (proj2 (deadline_spec 10 20 (TaskId_from "a") (from_secs 2) s1 _ _ _ _ eq_refl eq_refl
    (20 + from_secs 2))).
  - exists (from_secs 2). reflexivity.
  - vm_compute. split; [discriminate|reflexivity].
Defined.

Lemma set_task_deadline_overflow_witness :
  set_task_deadline 0 (TaskId_from "a") (from_millis (2 ^ 63)) s1 = None.
Proof. apply set_task_deadline_overflow; vm_compute; reflexivity. Defined.

End SnapshotExample.
