(* ===== verification/Backend.v ===== *)
(** * The persistence interface ([sayiir-persistence/src/backend.rs], [validation.rs])

    The traits [SnapshotStore] and [SignalStore] as a class of operations on a
    backend state [B], their default composite methods as definitions over the
    primitives, claims ([sayiir-core/src/task_claim.rs]) and the shared signal
    validation.  Each operation is atomic and takes the clock reading it uses. *)

From S2P Require Import Prelude Hash32 Task Workflow Snapshot.

(** ** Errors *)

Inductive BackendError : Type :=
| NotFound (id : string)
| Serialization (msg : string)
| BackendErr (msg : string)
| CannotCancel (st : string)
| CannotPause (st : string)
| ClaimLost (msg : string).
#[export] Instance BackendError_eq_dec : EqDecision BackendError.
Proof. solve_decision. Defined.

Inductive ControlSignal : Type := CSCancelled | CSPaused.
#[export] Instance ControlSignal_eq_dec : EqDecision ControlSignal.
Proof. solve_decision. Defined.

(** ** The interface *)

(** The primitives of [SnapshotStore] and [SignalStore].  [save_snapshot] takes
    [&mut WorkflowSnapshot]: it returns the caller's snapshot as it is afterwards. *)
Class PersistentBackend (B : Type) : Type := {
  save_snapshot : WorkflowSnapshot → io B BackendError WorkflowSnapshot;
  save_task_result : DateTime → string → TaskId → Bytes → io B BackendError unit;
  load_snapshot : string → io B BackendError WorkflowSnapshot;
  delete_snapshot : string → io B BackendError unit;
  list_snapshots : io B BackendError (list string);
  store_signal : string → SignalKind → SignalRequest → io B BackendError unit;
  get_signal : string → SignalKind → io B BackendError (option SignalRequest);
  clear_signal : string → SignalKind → io B BackendError unit;
  send_event : string → string → Bytes → io B BackendError unit;
  consume_event : string → string → io B BackendError (option Bytes);
  check_and_cancel : DateTime → string → option TaskId → io B BackendError bool;
  check_and_pause : DateTime → string → io B BackendError bool;
  unpause : DateTime → string → io B BackendError WorkflowSnapshot
}.

(** [{:?}] of a state name: quoted. *)
Definition dquote : string := String (Ascii.ascii_of_nat 34) EmptyString.
Definition debug_str (s : string) : string := dquote +:+ s +:+ dquote.

Definition state_name (st : WorkflowSnapshotState) : string :=
  match st with
  | InProgress _ _ _ => "InProgress" | Completed _ => "Completed" | Failed _ => "Failed"
  | Cancelled _ _ _ _ _ => "Cancelled" | Paused _ _ _ _ _ _ => "Paused"
  end.

(** The default bodies of the composite methods. *)
Section Defaults.
Context {B : Type} `{PersistentBackend B}.

Definition default_check_and_cancel (now : DateTime) (id : string) (interrupted_at_task : option TaskId) :
    io B BackendError bool :=
  request ← get_signal id Cancel;
  match request with
  | None => mret false
  | Some request =>
      snapshot ← load_snapshot id;
      if negb (is_in_progress (state snapshot)) then mret false
      else
        save_snapshot (mark_cancelled now (sr_reason request) (sr_requested_by request)
          interrupted_at_task snapshot) ≫= λ _,
        clear_signal id Cancel ≫= λ _,
        mret true
  end.

Definition default_check_and_pause (now : DateTime) (id : string) : io B BackendError bool :=
  request ← get_signal id Pause;
  match request with
  | None => mret false
  | Some request =>
      snapshot ← load_snapshot id;
      if negb (is_in_progress (state snapshot)) then mret false
      else
        save_snapshot (mark_paused now (pause_of_signal request) snapshot) ≫= λ _,
        clear_signal id Pause ≫= λ _,
        mret true
  end.

(** [check_control_signals]: the default body (the Postgres backend overrides it). *)
Definition check_control_signals (now : DateTime) (id : string) (interrupted_at_task : option TaskId) :
    io B BackendError (option ControlSignal) :=
  cancelled ← check_and_cancel now id interrupted_at_task;
  if (cancelled : bool) then mret (Some CSCancelled)
  else
    paused ← check_and_pause now id;
    if (paused : bool) then mret (Some CSPaused) else mret None.

Definition default_unpause (now : DateTime) (id : string) : io B BackendError WorkflowSnapshot :=
  snapshot ← load_snapshot id;
  if negb (is_paused (state snapshot)) then
    throw (CannotPause ("Workflow is not paused (current state: " +:+
      debug_str (state_name (state snapshot)) +:+ ")"))
  else save_snapshot (mark_unpaused now snapshot).
End Defaults.

(** ** Claims ([task_claim.rs]) *)

Record TaskClaim : Type := MkTaskClaim {
  claim_instance_id : string;
  claim_task_id : TaskId;
  claim_worker_id : string;
  claimed_at : Z;                  (* u64 *)
  expires_at : option Z            (* u64 *)
}.
#[export] Instance TaskClaim_eq_dec : EqDecision TaskClaim.
Proof. solve_decision. Defined.

(** [TaskClaim::new]: a TTL that overflows the calendar gives no expiry. *)
Definition TaskClaim_new `{Chrono} (now : DateTime) (id : string) (task_id : TaskId)
    (worker_id : string) (ttl : option Duration) : TaskClaim :=
  MkTaskClaim id task_id worker_id (timestamp_u64 now)
    (duration ← ttl; timestamp_u64 <$> checked_add_signed now duration).

Definition is_expired (now : DateTime) (c : TaskClaim) : bool :=
  match expires_at c with
  | Some e => bool_decide (e ≤ timestamp_u64 now)
  | None => false
  end.
Definition is_owned_by (c : TaskClaim) (worker_id : string) : bool :=
  bool_decide (claim_worker_id c = worker_id).

Record AvailableTask : Type := MkAvailableTask {
  at_instance_id : string;
  at_task_id : TaskId;
  at_input : Bytes;
  at_workflow_definition_hash : DefinitionHash;
  at_trace_parent : option string;
  at_snapshot : WorkflowSnapshot
}.

(** ** Signal validation ([validation.rs]) *)

(** [SnapshotStatus::from_str]/[as_ref]: the variant names. *)
Definition SnapshotStatus_as_ref (st : SnapshotStatus) : string :=
  match st with
  | SInProgress => "InProgress" | SCompleted => "Completed" | SFailed => "Failed"
  | SCancelled => "Cancelled" | SPaused => "Paused"
  end.
Definition SnapshotStatus_from_str (s : string) : option SnapshotStatus :=
  if bool_decide (s = "InProgress") then Some SInProgress
  else if bool_decide (s = "Completed") then Some SCompleted
  else if bool_decide (s = "Failed") then Some SFailed
  else if bool_decide (s = "Cancelled") then Some SCancelled
  else if bool_decide (s = "Paused") then Some SPaused
  else None.

Definition validate_signal_allowed (st : string) (kind : SignalKind) : result BackendError unit :=
  match SnapshotStatus_from_str st with
  | None => Ok ()
  | Some st =>
      match kind with
      | Cancel =>
          match st with
          | SCompleted | SFailed => Err (CannotCancel (SnapshotStatus_as_ref st))
          | _ => Ok ()
          end
      | Pause =>
          match st with
          | SCompleted | SFailed | SCancelled => Err (CannotPause (SnapshotStatus_as_ref st))
          | _ => Ok ()
          end
      end
  end.

Lemma SnapshotStatus_roundtrip st : SnapshotStatus_from_str (SnapshotStatus_as_ref st) = Some st.
Proof. by destruct st. Qed.

Lemma state_name_status s : state_name (state s) = SnapshotStatus_as_ref (snapshot_status s).
Proof. unfold snapshot_status. by destruct (state s). Qed.
