(* ===== verification/InMemory.v ===== *)
(** * The in-memory backend ([sayiir-persistence/src/in_memory.rs])

    The five locked maps of [InMemoryBackend] as one record, and every method of
    the four traits it implements.  A method runs to completion without
    interference (lock poisoning, the one error source of the locks, cannot
    occur as no operation panics while holding one).  The order in which a
    [HashMap] iterates is a parameter of the operation that observes it. *)

From S2P Require Import Prelude Hash32 Task Workflow Snapshot Backend.
From Stdlib Require Import Floats.SpecFloat.

Record InMemoryBackend : Type := MkBackend {
  snapshots : gmap string WorkflowSnapshot;
  claims : gmap string TaskClaim;
  signals : gmap string (gmap SignalKind SignalRequest);
  events : gmap string (gmap string (list Bytes));
  task_results_cache : gmap string (gmap TaskId TaskResult)
}.

Definition backend_new : InMemoryBackend := MkBackend ∅ ∅ ∅ ∅ ∅.

Definition with_snapshots v b := MkBackend v (claims b) (signals b) (events b) (task_results_cache b).
Definition with_claims v b := MkBackend (snapshots b) v (signals b) (events b) (task_results_cache b).
Definition with_signals v b := MkBackend (snapshots b) (claims b) v (events b) (task_results_cache b).
Definition with_events v b := MkBackend (snapshots b) (claims b) (signals b) v (task_results_cache b).
Definition with_cache v b := MkBackend (snapshots b) (claims b) (signals b) (events b) v.

(** [claim_key]: the task id is rendered as 64 hex digits. *)
Definition claim_key (id : string) (task_id : TaskId) : string :=
  id +:+ ":" +:+ to_hex (task_hash task_id).

Abbreviation Op := (io InMemoryBackend BackendError).

(** ** [SnapshotStore] *)

Definition mem_save_snapshot (s : WorkflowSnapshot) : Op WorkflowSnapshot := λ b,
  let b' :=
    if is_completed (state s) || is_failed (state s) then
      match snapshots b !! instance_id s with
      | Some prev =>
          match get_all_task_results prev with
          | Some tasks =>
              if bool_decide (tasks = ∅) then b
              else with_cache (<[instance_id s := tasks]> (task_results_cache b)) b
          | None => b
          end
      | None => b
      end
    else b in
  (Ok s, with_snapshots (<[instance_id s := s]> (snapshots b')) b').

Definition mem_save_task_result (now : DateTime) (id : string) (task_id : TaskId) (output : Bytes) :
    Op unit := λ b,
  match snapshots b !! id with
  | None => (Err (NotFound id), b)
  | Some s =>
      (Ok (), with_snapshots (<[id := mark_task_completed now task_id output s]> (snapshots b)) b)
  end.

Definition mem_load_snapshot (id : string) : Op WorkflowSnapshot := λ b,
  (ok_or (snapshots b !! id) (NotFound id), b).

Definition mem_delete_snapshot (id : string) : Op unit := λ b,
  match snapshots b !! id with
  | None => (Err (NotFound id), b)
  | Some _ =>
      (Ok (), with_cache (delete id (task_results_cache b))
        (with_snapshots (delete id (snapshots b)) b))
  end.

Definition mem_list_snapshots : Op (list string) := λ b, (Ok (map_to_list (snapshots b)).*1, b).

(** ** [TaskResultStore] *)

Definition load_task_result (id : string) (task_id : TaskId) : Op (option Bytes) := λ b,
  match snapshots b !! id with
  | None => (Err (NotFound id), b)
  | Some s =>
      match get_task_result_bytes task_id s with
      | Some r => (Ok (Some r), b)
      | None =>
          if is_completed (state s) || is_failed (state s) then
            match task_results_cache b !! id with
            | Some tasks => (Ok (tr_output <$> tasks !! task_id), b)
            | None => (Ok None, b)
            end
          else (Ok None, b)
      end
  end.

(** ** [SignalStore] *)

(** The state check of [store_signal]: [Some r] returns early with [r]. *)
Definition signal_check (kind : SignalKind) (st : WorkflowSnapshotState) :
    option (result BackendError unit) :=
  match kind with
  | Cancel =>
      if is_completed st then Some (Err (CannotCancel "Completed"))
      else if is_failed st then Some (Err (CannotCancel "Failed"))
      else if is_cancelled st then Some (Ok ())
      else None
  | Pause =>
      if is_completed st then Some (Err (CannotPause "Completed"))
      else if is_failed st then Some (Err (CannotPause "Failed"))
      else if is_cancelled st then Some (Err (CannotPause "Cancelled"))
      else if is_paused st then Some (Ok ())
      else None
  end.

Definition mem_store_signal (id : string) (kind : SignalKind) (request : SignalRequest) : Op unit := λ b,
  match snapshots b !! id with
  | None => (Err (NotFound id), b)
  | Some s =>
      match signal_check kind (state s) with
      | Some r => (r, b)
      | None =>
          (Ok (), with_signals
            (<[id := <[kind := request]> (default ∅ (signals b !! id))]> (signals b)) b)
      end
  end.

Definition pending (b : InMemoryBackend) (id : string) (kind : SignalKind) : option SignalRequest :=
  signals b !! id ≫= λ m, m !! kind.

Definition mem_get_signal (id : string) (kind : SignalKind) : Op (option SignalRequest) := λ b,
  (Ok (pending b id kind), b).

Definition remove_signal (id : string) (kind : SignalKind) (b : InMemoryBackend) : InMemoryBackend :=
  match signals b !! id with
  | Some inner =>
      if bool_decide (delete kind inner = ∅) then with_signals (delete id (signals b)) b
      else with_signals (<[id := delete kind inner]> (signals b)) b
  | None => b
  end.
Definition mem_clear_signal (id : string) (kind : SignalKind) : Op unit := λ b,
  (Ok (), remove_signal id kind b).

Definition mem_send_event (id name : string) (payload : Bytes) : Op unit := λ b,
  let by_signal := default ∅ (events b !! id) in
  (Ok (), with_events
    (<[id := <[name := default [] (by_signal !! name) ++ [payload]]> by_signal]> (events b)) b).

(** Popping the front of a queue and dropping emptied queues and maps, as
    [consume_event] and [find_available_tasks] both do. *)
Definition pop_event (id name : string) (ev : gmap string (gmap string (list Bytes))) :
    option Bytes * gmap string (gmap string (list Bytes)) :=
  match ev !! id with
  | None => (None, ev)
  | Some by_signal =>
      let queue := by_signal !! name in
      let payload := match queue with Some (p :: _) => Some p | _ => None end in
      let by_signal := match queue with Some q => <[name := tail q]> by_signal | None => by_signal end in
      let by_signal :=
        if bool_decide (by_signal !! name = Some []) then delete name by_signal else by_signal in
      (payload, if bool_decide (by_signal = ∅) then delete id ev else <[id := by_signal]> ev)
  end.
Definition mem_consume_event (id name : string) : Op (option Bytes) := λ b,
  let '(payload, ev) := pop_event id name (events b) in (Ok payload, with_events ev b).

(** The overrides of the composites: the snapshot is updated in place. *)
Definition mem_check_and_cancel (now : DateTime) (id : string) (interrupted_at_task : option TaskId) :
    Op bool := λ b,
  match pending b id Cancel with
  | None => (Ok false, b)
  | Some request =>
      match snapshots b !! id with
      | None => (Err (NotFound id), b)
      | Some s =>
          if negb (is_in_progress (state s)) then (Ok false, b)
          else
            (Ok true, remove_signal id Cancel
              (with_snapshots (<[id := mark_cancelled now (sr_reason request)
                 (sr_requested_by request) interrupted_at_task s]> (snapshots b)) b))
      end
  end.

Definition mem_check_and_pause (now : DateTime) (id : string) : Op bool := λ b,
  match pending b id Pause with
  | None => (Ok false, b)
  | Some request =>
      match snapshots b !! id with
      | None => (Err (NotFound id), b)
      | Some s =>
          if negb (is_in_progress (state s)) then (Ok false, b)
          else
            (Ok true, remove_signal id Pause
              (with_snapshots (<[id := mark_paused now (pause_of_signal request) s]> (snapshots b)) b))
      end
  end.

Definition mem_unpause (now : DateTime) (id : string) : Op WorkflowSnapshot := λ b,
  match snapshots b !! id with
  | None => (Err (NotFound id), b)
  | Some s =>
      if negb (is_paused (state s)) then
        (Err (CannotPause ("Workflow is not paused (current state: " +:+ debug_str
          (if is_in_progress (state s) then "InProgress"
           else if is_completed (state s) then "Completed"
           else if is_failed (state s) then "Failed"
           else if is_cancelled (state s) then "Cancelled"
           else "Unknown") +:+ ")")), b)
      else
        (Ok (mark_unpaused now s),
         with_snapshots (<[id := mark_unpaused now s]> (snapshots b)) b)
  end.

#[export] Instance in_memory : PersistentBackend InMemoryBackend := {
  save_snapshot := mem_save_snapshot;
  save_task_result := mem_save_task_result;
  load_snapshot := mem_load_snapshot;
  delete_snapshot := mem_delete_snapshot;
  list_snapshots := mem_list_snapshots;
  store_signal := mem_store_signal;
  get_signal := mem_get_signal;
  clear_signal := mem_clear_signal;
  send_event := mem_send_event;
  consume_event := mem_consume_event;
  check_and_cancel := mem_check_and_cancel;
  check_and_pause := mem_check_and_pause;
  unpause := mem_unpause
}.

(** ** [TaskClaimStore] *)

Section Claims.
Context `{Chrono}.

Definition claim_task (now : DateTime) (id : string) (task_id : TaskId) (worker_id : string)
    (ttl : option Duration) : Op (option TaskClaim) := λ b,
  let key := claim_key id task_id in
  let live := match claims b !! key with Some c => negb (is_expired now c) | None => false end in
  if live then (Ok None, b)
  else
    let claim := TaskClaim_new now id task_id worker_id ttl in
    (Ok (Some claim), with_claims (<[key := claim]> (delete key (claims b))) b).

Definition release_task_claim (id : string) (task_id : TaskId) (worker_id : string) : Op unit := λ b,
  let key := claim_key id task_id in
  match claims b !! key with
  | Some claim =>
      if bool_decide (claim_worker_id claim ≠ worker_id)
      then (Err (ClaimLost ("claim owned by " +:+ claim_worker_id claim)), b)
      else (Ok (), with_claims (delete key (claims b)) b)
  | None => (Err (NotFound key), b)
  end.

Definition extend_task_claim (now : DateTime) (id : string) (task_id : TaskId) (worker_id : string)
    (ttl : Duration) : Op unit := λ b,
  let key := claim_key id task_id in
  match claims b !! key with
  | Some claim =>
      if bool_decide (claim_worker_id claim ≠ worker_id)
      then (Err (ClaimLost ("claim owned by " +:+ claim_worker_id claim)), b)
      else
        match expires_at claim with
        | Some _ =>
            match checked_add_signed now ttl with
            | None => (Err (BackendErr "Time overflow"), b)
            | Some new_expiry =>
                (Ok (), with_claims (<[key := MkTaskClaim (claim_instance_id claim)
                  (claim_task_id claim) (claim_worker_id claim) (claimed_at claim)
                  (Some (timestamp_u64 new_expiry))]> (claims b)) b)
            end
        | None => (Ok (), b)
        end
  | None => (Err (NotFound key), b)
  end.
End Claims.

(** *** [find_available_tasks] *)

(** The position advancements it collects, one constructor per [Vec]. *)
Inductive Advance : Type :=
| DelayAdvance (id : string) (next : TaskId)
| DelayCompletion (id : string) (delay_id : TaskId)
| SignalAdvance (id name : string) (next : option TaskId)
| SignalTimeoutAdvance (id name : string) (next : option TaskId).

Definition advance_phase (a : Advance) : nat :=
  match a with
  | DelayAdvance _ _ => 0 | DelayCompletion _ _ => 1 | SignalAdvance _ _ _ => 2
  | SignalTimeoutAdvance _ _ _ => 3
  end.

(** Instances with a pending cancel or pause are skipped. *)
Definition signalled (b : InMemoryBackend) (id : string) : bool :=
  bool_decide (is_Some (pending b id Cancel)) || bool_decide (is_Some (pending b id Pause)).

Definition has_payload (b : InMemoryBackend) (id name : string) : bool :=
  match events b !! id ≫= λ m, m !! name with
  | Some (_ :: _) => true
  | _ => false
  end.

(** The body of the first loop. *)
Definition collect_advance (now : DateTime) (b : InMemoryBackend) (p : string * WorkflowSnapshot) :
    option Advance :=
  let '(id, s) := p in
  if negb (is_in_progress (state s)) then None
  else if signalled b id then None
  else
    match state s with
    | InProgress (AtDelay delay_id _ wake_at next_task_id) _ _ =>
        if bool_decide (wake_at ≤ now) then
          match next_task_id with
          | Some next_id => Some (DelayAdvance id next_id)
          | None => Some (DelayCompletion id delay_id)
          end
        else None
    | InProgress (AtSignal _ signal_name wake_at next_task_id) _ _ =>
        if has_payload b id signal_name then Some (SignalAdvance id signal_name next_task_id)
        else
          match wake_at with
          | Some wt =>
              if bool_decide (wt ≤ now) then Some (SignalTimeoutAdvance id signal_name next_task_id)
              else None
          | None => None
          end
    | _ => None
    end.

Definition update_snapshot (id : string) (f : WorkflowSnapshot → WorkflowSnapshot)
    (b : InMemoryBackend) : InMemoryBackend :=
  match snapshots b !! id with
  | Some s => with_snapshots (<[id := f s]> (snapshots b)) b
  | None => b
  end.

(** The bodies of the four loops that apply them. *)
Definition apply_advance `{Sha256} (now : DateTime) (b : InMemoryBackend) (a : Advance) : InMemoryBackend :=
  match a with
  | DelayAdvance id next => update_snapshot id (update_position now (AtTask next)) b
  | DelayCompletion id delay_id =>
      update_snapshot id (λ s, mark_completed now (default [] (get_task_result_bytes delay_id s)) s) b
  | SignalAdvance id name next =>
      let '(payload, ev) := pop_event id name (events b) in
      update_snapshot id (λ s,
        let s := mark_task_completed now (TaskId_from name) (default [] payload) s in
        match next with
        | Some next_id => update_position now (AtTask next_id) s
        | None => mark_completed now (default [] (get_task_result_bytes (TaskId_from name) s)) s
        end) (with_events ev b)
  | SignalTimeoutAdvance id name next =>
      update_snapshot id (λ s,
        let s := mark_task_completed now (TaskId_from name) [] s in
        match next with
        | Some next_id => update_position now (AtTask next_id) s
        | None => mark_completed now [] s
        end) b
  end.

Definition advances_of (phase : nat) (l : list Advance) : list Advance :=
  List.filter (λ a, bool_decide (advance_phase a = phase)) l.

Definition apply_advances `{Sha256} (now : DateTime) (l : list Advance) (b : InMemoryBackend) :
    InMemoryBackend :=
  foldl (apply_advance now) b
    (advances_of 0 l ++ advances_of 1 l ++ advances_of 2 l ++ advances_of 3 l).

(** The body of the dispatch loop: the task an instance offers, if any. *)
Definition tags_match (worker_tags task_tags : list string) : bool :=
  bool_decide (worker_tags = []) || bool_decide (task_tags = []) ||
  forallb (λ t, bool_decide (t ∈ worker_tags)) task_tags.

Definition backoff_pending (now : DateTime) (task_id : TaskId) (s : WorkflowSnapshot) : bool :=
  match task_retries s !! task_id with
  | Some rs => bool_decide (now < next_retry_at rs)
  | None => false
  end.

Definition candidate (now : DateTime) (worker_tags : list string) (b : InMemoryBackend)
    (p : string * WorkflowSnapshot) : option AvailableTask :=
  let '(id, s) := p in
  if negb (is_in_progress (state s)) then None
  else if signalled b id then None
  else
    match state s with
    | InProgress (AtTask task_id) completed _ =>
        let is_claimed := bool_decide (is_Some (claims b !! claim_key id task_id)) in
        let is_completed := bool_decide (is_Some (completed !! task_id)) in
        if negb is_completed && negb is_claimed then
          if backoff_pending now task_id s then None
          else if negb (tags_match worker_tags (task_tags s)) then None
          else
            let input := if bool_decide (completed = ∅) then initial_input s else get_last_task_output s in
            (λ bytes, MkAvailableTask id task_id bytes (snapshot_definition_hash s) None s) <$> input
        else None
    | _ => None
    end.

(** The loop with its [break]: the limit is tested after each push. *)
Fixpoint dispatch (limit : nat) (f : string * WorkflowSnapshot → option AvailableTask)
    (l : list (string * WorkflowSnapshot)) (available : list AvailableTask) : list AvailableTask :=
  match l with
  | [] => available
  | p :: l =>
      match f p with
      | Some t =>
          let available := available ++ [t] in
          if bool_decide (limit ≤ length available)%nat then available
          else dispatch limit f l available
      | None => dispatch limit f l available
      end
  end.

(** The comparison of the final sort, on [f64] priorities with aging. *)
Definition f64_sub (x y : f64) : f64 := SFsub 53 1024 x y.
Definition f64_div (x y : f64) : f64 := SFdiv 53 1024 x y.
Definition f64_max (x y : f64) : f64 :=
  match SFcompare x y with Some Gt => x | Some _ => y | None => match x with S754_nan => y | _ => x end end.

Definition aging_secs (aging_interval : Duration) : f64 :=
  f64_max (f64_div (f64_of_Z (Z.quot aging_interval ns_per_ms)) (f64_of_Z 1000)) (f64_of_Z 1).

Definition worker_bias (m : gmap string WorkflowSnapshot) (worker_id : string) (t : AvailableTask) : bool :=
  match m !! at_instance_id t with
  | Some s => has_failed_on_worker (at_task_id t) worker_id s
  | None => false
  end.

Definition eff_priority (now : DateTime) (aging_interval : Duration) (m : gmap string WorkflowSnapshot)
    (t : AvailableTask) : f64 :=
  let now_ts := f64_of_Z (timestamp now) in
  let snap := m !! at_instance_id t in
  let base := match snap with Some s => f64_of_Z (current_task_priority s) | None => f64_of_Z 3 end in
  let updated := match snap with Some s => f64_of_Z (updated_at s) | None => now_ts end in
  let wait := f64_sub now_ts updated in
  f64_sub base (f64_div wait (aging_secs aging_interval)).

Definition bool_cmp (a b : bool) : comparison :=
  match a, b with false, true => Lt | true, false => Gt | _, _ => Eq end.

Definition task_cmp (now : DateTime) (worker_id : string) (aging_interval : Duration)
    (m : gmap string WorkflowSnapshot) (a b : AvailableTask) : comparison :=
  match bool_cmp (worker_bias m worker_id a) (worker_bias m worker_id b) with
  | Eq => default Eq (SFcompare (eff_priority now aging_interval m a) (eff_priority now aging_interval m b))
  | c => c
  end.

#[export] Instance comparison_eq_dec : EqDecision comparison.
Proof. solve_decision. Defined.

(** [sort_by]: a stable sort. *)
Definition not_after (cmp : AvailableTask → AvailableTask → comparison) (a b : AvailableTask) : Prop :=
  cmp a b ≠ Gt.
#[export] Instance not_after_dec cmp a b : Decision (not_after cmp a b).
Proof. unfold not_after. apply _. Defined.
Definition sort_by (cmp : AvailableTask → AvailableTask → comparison) (l : list AvailableTask) :
    list AvailableTask := merge_sort (not_after cmp) l.

(** A [HashMap]'s iteration order: some enumeration of its entries. *)
Class MapIter : Type := map_iter : gmap string WorkflowSnapshot → list (string * WorkflowSnapshot).
Class MapIterLaws `{MapIter} : Prop := map_iter_entries : ∀ m, map_iter m ≡ₚ map_to_list m.

(** The state after the clean-up and advancement phases. *)
Definition advanced `{Sha256, MapIter} (now : DateTime) (b : InMemoryBackend) : InMemoryBackend :=
  let b := with_claims (filter (λ p : string * TaskClaim, is_expired now p.2 = false) (claims b)) b in
  apply_advances now (omap (collect_advance now b) (map_iter (snapshots b))) b.

Definition find_available_tasks `{Sha256, MapIter} (now : DateTime) (worker_id : string) (limit : nat)
    (aging_interval : Duration) (worker_tags : list string) : Op (list AvailableTask) := λ b,
  let b := advanced now b in
  let available := dispatch limit (candidate now worker_tags b) (map_iter (snapshots b)) [] in
  (Ok (sort_by (task_cmp now worker_id aging_interval (snapshots b)) available), b).

(** ** Store invariant *)

(** Snapshots and claims are filed under their own keys, snapshots are well
    formed, and no empty inner map or queue is left behind. *)
Definition snap_ok (k : string) (s : WorkflowSnapshot) : Prop := instance_id s = k ∧ snapshot_wf s.
Definition claim_ok (k : string) (c : TaskClaim) : Prop :=
  claim_key (claim_instance_id c) (claim_task_id c) = k.
Definition queues_ok (m : gmap string (list Bytes)) : Prop :=
  m ≠ ∅ ∧ map_Forall (λ _ q, q ≠ []) m.

Definition store_wf (b : InMemoryBackend) : Prop :=
  map_Forall snap_ok (snapshots b) ∧ map_Forall claim_ok (claims b) ∧
  map_Forall (λ _ m, m ≠ ∅) (signals b) ∧ map_Forall (λ _ m, queues_ok m) (events b).

(** Operations on a stored snapshot keep it well formed and its id. *)
Definition keeps_ok (f : WorkflowSnapshot → WorkflowSnapshot) : Prop :=
  ∀ k s, snap_ok k s → snap_ok k (f s).

Section StepOk.
Context `{Chrono} `{FloatOps}.

Lemma step_keeps_ok now f : (∀ s, snapshot_step now s (f s)) → keeps_ok f.
Proof.
  intros Hf k s [Hid Hwf]. split; [|by eapply snapshot_step_wf].
  destruct (snapshot_step_edge now s (f s)) as [Heq _]; [done|].
  unfold identity in Heq. congruence.
Qed.
End StepOk.

Lemma keeps_ok_compose f g : keeps_ok f → keeps_ok g → keeps_ok (λ s, f (g s)).
Proof. unfold keeps_ok. auto. Qed.

(** The snapshot steps use no clock arithmetic here, so any instance will do. *)
Section KeepsOk.
Import Examples.
Lemma mark_task_completed_ok now t o : keeps_ok (mark_task_completed now t o).
Proof. apply (step_keeps_ok now). intros; apply step_task_completed. Qed.
Lemma update_position_ok now p : keeps_ok (update_position now p).
Proof. apply (step_keeps_ok now). intros; apply step_position. Qed.
Lemma mark_completed_ok now (o : WorkflowSnapshot → Bytes) : keeps_ok (λ s, mark_completed now (o s) s).
Proof. apply (step_keeps_ok now). intros; apply step_completed. Qed.
Lemma mark_cancelled_ok now r b t : keeps_ok (mark_cancelled now r b t).
Proof. apply (step_keeps_ok now). intros; apply step_cancelled. Qed.
Lemma mark_paused_ok now r : keeps_ok (mark_paused now r).
Proof. apply (step_keeps_ok now). intros; apply step_paused. Qed.
Lemma mark_unpaused_ok now : keeps_ok (mark_unpaused now).
Proof. apply (step_keeps_ok now). intros; apply step_unpaused. Qed.
End KeepsOk.
#[export] Hint Resolve mark_task_completed_ok update_position_ok mark_completed_ok mark_cancelled_ok
  mark_paused_ok mark_unpaused_ok : sayiir.

Lemma store_wf_insert k f s b :
  store_wf b → snapshots b !! k = Some s → keeps_ok f →
  store_wf (with_snapshots (<[k := f s]> (snapshots b)) b).
Proof.
  intros (Hs & Hrest) Hk Hf. split; [|done]. apply map_Forall_insert_2; [|done].
  apply Hf. by apply Hs.
Qed.

Lemma update_snapshot_wf k f b : store_wf b → keeps_ok f → store_wf (update_snapshot k f b).
Proof.
  intros Hb Hf. unfold update_snapshot. destruct (snapshots b !! k) eqn:E; [|done].
  by eapply store_wf_insert.
Qed.

Lemma remove_signal_wf id kind b : store_wf b → store_wf (remove_signal id kind b).
Proof.
  intros (Hs & Hc & Hsig & He). unfold remove_signal.
  destruct (signals b !! id) as [inner|]; [|done]. case_bool_decide; split_and!; try done; cbn.
  - by apply map_Forall_delete.
  - by apply map_Forall_insert_2.
Qed.

Lemma pop_event_ok id name ev :
  map_Forall (λ _ m, queues_ok m) ev → map_Forall (λ _ m, queues_ok m) (pop_event id name ev).2.
Proof.
  intros He. unfold pop_event. destruct (ev !! id) as [m|] eqn:Hm; [|done]. cbn.
  destruct (He _ _ Hm) as [_ Hq]. destruct (m !! name) as [q|] eqn:Hn.
  - rewrite lookup_insert_eq. case_bool_decide as Hemp; case_bool_decide as Hne;
      try (by apply map_Forall_delete); apply map_Forall_insert_2; try done; split; try done.
    + rewrite delete_insert_eq. by apply map_Forall_delete.
    + apply map_Forall_insert_2; [|done]. congruence.
  - rewrite Hn, (bool_decide_false (None = Some [])) by done. case_bool_decide; [by apply map_Forall_delete|].
    by apply map_Forall_insert_2.
Qed.

Lemma apply_advance_wf `{Sha256} now b a : store_wf b → store_wf (apply_advance now b a).
Proof.
  intros Hb. destruct a as [id next|id d|id name next|id name next]; cbn.
  - apply update_snapshot_wf; auto with sayiir.
  - apply update_snapshot_wf; [done|].
    apply (mark_completed_ok now (λ s, default [] (get_task_result_bytes d s))).
  - destruct (pop_event id name (events b)) as [payload ev] eqn:Hp.
    apply update_snapshot_wf.
    + destruct Hb as (? & ? & ? & He). split_and!; try done. cbn.
      replace ev with (pop_event id name (events b)).2 by (by rewrite Hp). by apply pop_event_ok.
    + destruct next as [n|].
      * apply (keeps_ok_compose (update_position now (AtTask n))); auto with sayiir.
      * apply (keeps_ok_compose
          (λ s, mark_completed now (default [] (get_task_result_bytes (TaskId_from name) s)) s));
          [apply (mark_completed_ok now (λ s, default [] _))|auto with sayiir].
  - apply update_snapshot_wf; [done|]. destruct next as [n|].
    + apply (keeps_ok_compose (update_position now (AtTask n))); auto with sayiir.
    + apply (keeps_ok_compose (λ s, mark_completed now [] s));
        [apply (mark_completed_ok now (λ _, []))|auto with sayiir].
Qed.

Lemma apply_advances_wf `{Sha256} now l b : store_wf b → store_wf (apply_advances now l b).
Proof.
  unfold apply_advances. generalize (advances_of 0 l ++ advances_of 1 l ++ advances_of 2 l ++ advances_of 3 l).
  intros k. revert b. induction k as [|a k IH]; intros b Hb; cbn; [done|].
  by apply IH, apply_advance_wf.
Qed.

Lemma advanced_wf `{Sha256, MapIter} now b : store_wf b → store_wf (advanced now b).
Proof.
  intros (Hs & Hc & Hsig & He). apply apply_advances_wf. split_and!; try done. cbn.
  intros k c [Hk _]%map_lookup_filter_Some. by apply Hc.
Qed.

(** *** Every operation of the backend, as a step *)

Inductive backend_step `{Sha256, Chrono, MapIter} : InMemoryBackend → InMemoryBackend → Prop :=
| bs_save s b : snapshot_wf s → backend_step b (mem_save_snapshot s b).2
| bs_result now id t o b : backend_step b (mem_save_task_result now id t o b).2
| bs_delete id b : backend_step b (mem_delete_snapshot id b).2
| bs_store_signal id k r b : backend_step b (mem_store_signal id k r b).2
| bs_clear_signal id k b : backend_step b (mem_clear_signal id k b).2
| bs_send id n p b : backend_step b (mem_send_event id n p b).2
| bs_consume id n b : backend_step b (mem_consume_event id n b).2
| bs_cancel now id t b : backend_step b (mem_check_and_cancel now id t b).2
| bs_pause now id b : backend_step b (mem_check_and_pause now id b).2
| bs_unpause now id b : backend_step b (mem_unpause now id b).2
| bs_claim now id t w ttl b : backend_step b (claim_task now id t w ttl b).2
| bs_release id t w b : backend_step b (release_task_claim id t w b).2
| bs_extend now id t w ttl b : backend_step b (extend_task_claim now id t w ttl b).2
| bs_find now w limit aging tags b : backend_step b (find_available_tasks now w limit aging tags b).2.

Section StoreInvariant.
Context `{Sha256, Chrono, MapIter}.

Lemma claim_new_ok now id t w ttl : claim_ok (claim_key id t) (TaskClaim_new now id t w ttl).
Proof. done. Qed.

Lemma send_event_ok id name p b :
  store_wf b → map_Forall (λ _ m, queues_ok m)
    (<[id := <[name := default [] (default ∅ (events b !! id) !! name) ++ [p]]>
      (default ∅ (events b !! id))]> (events b)).
Proof.
  intros (_ & _ & _ & He). apply map_Forall_insert_2; [|done]. split; [apply insert_non_empty|].
  apply map_Forall_insert_2; [by intros []%app_eq_nil|].
  destruct (events b !! id) as [m|] eqn:Hm; cbn; [by destruct (He _ _ Hm)|apply map_Forall_empty].
Qed.

Lemma backend_step_wf b b' : backend_step b b' → store_wf b → store_wf b'.
Proof.
  intros Hstep Hb. destruct Hstep; cbn.
  - destruct Hb as (Hs & Hrest).
    assert (map_Forall snap_ok (<[instance_id s := s]> (snapshots b))) by (by apply map_Forall_insert_2).
    unfold mem_save_snapshot, store_wf. cbn. by repeat case_match.
  - unfold mem_save_task_result. destruct (snapshots b !! id) eqn:E; [|done].
    eapply store_wf_insert; eauto with sayiir.
  - unfold mem_delete_snapshot. destruct (snapshots b !! id) eqn:E; [|done].
    destruct Hb as (Hs & Hrest). split; [|done]. by apply map_Forall_delete.
  - unfold mem_store_signal. destruct (snapshots b !! id) eqn:E; [|done].
    destruct (signal_check _ _); [done|]. destruct Hb as (? & ? & Hsig & ?). split_and!; try done. cbn.
    apply map_Forall_insert_2; [|done]. apply insert_non_empty.
  - by apply remove_signal_wf.
  - pose proof (send_event_ok id n p b Hb). by destruct Hb as (? & ? & ? & ?).
  - unfold mem_consume_event. pose proof (pop_event_ok id n (events b)) as Hp.
    destruct (pop_event id n (events b)). destruct Hb as (? & ? & ? & He). split_and!; try done. by apply Hp.
  - unfold mem_check_and_cancel. destruct (pending _ _ _); [|done].
    destruct (snapshots b !! id) eqn:E; [|done]. case_match; [done|].
    apply remove_signal_wf. eapply store_wf_insert; eauto with sayiir.
  - unfold mem_check_and_pause. destruct (pending _ _ _); [|done].
    destruct (snapshots b !! id) eqn:E; [|done]. case_match; [done|].
    apply remove_signal_wf. eapply store_wf_insert; eauto with sayiir.
  - unfold mem_unpause. destruct (snapshots b !! id) eqn:E; [|done]. case_match; [done|].
    eapply store_wf_insert; eauto with sayiir.
  - unfold claim_task. destruct Hb as (Hs & Hc & Hsig & He).
    destruct (match claims b !! _ with Some _ => _ | None => _ end); [done|].
    split_and!; try done. apply map_Forall_insert_2; [done|]. by apply map_Forall_delete.
  - unfold release_task_claim. destruct Hb as (Hs & Hc & Hsig & He). repeat case_match; try done.
    split_and!; try done. by apply map_Forall_delete.
  - unfold extend_task_claim. destruct Hb as (Hs & Hc & Hsig & He). case_match eqn:Hk; [|done].
    repeat case_match; try done. split_and!; try done. apply map_Forall_insert_2; [|done].
    exact (Hc _ _ Hk).
  - by apply advanced_wf.
Qed.
End StoreInvariant.

(** ** The overrides refine the default composites *)

Lemma with_snapshots_cache m b :
  with_snapshots m b = MkBackend m (claims b) (signals b) (events b) (task_results_cache b).
Proof. done. Qed.

(** Saving a snapshot that is not completed or failed touches no cache. *)
Lemma mem_save_live s b :
  is_completed (state s) = false → is_failed (state s) = false →
  mem_save_snapshot s b = (Ok s, with_snapshots (<[instance_id s := s]> (snapshots b)) b).
Proof. intros Hc Hf. unfold mem_save_snapshot. by rewrite Hc, Hf. Qed.

(** The overrides take the key, the defaults the snapshot's own id. *)
Definition filed (b : InMemoryBackend) : Prop := map_Forall (λ k s, instance_id s = k) (snapshots b).
Lemma store_wf_filed b : store_wf b → filed b.
Proof. intros (Hs & _). by eapply map_Forall_impl; [exact Hs|intros ?? []]. Qed.

Lemma check_and_cancel_default now id t b :
  filed b → mem_check_and_cancel now id t b = default_check_and_cancel now id t b.
Proof.
  intros Hs. unfold default_check_and_cancel, mem_check_and_cancel. cbn.
  unfold mbind, io_bind. cbn. destruct (pending b id Cancel) as [r|]; [|done].
  unfold mem_load_snapshot. destruct (snapshots b !! id) as [s|] eqn:E; cbn; [|done].
  destruct (Hs _ _ E). by destruct (is_in_progress (state s)).
Qed.

Lemma check_and_pause_default now id b :
  filed b → mem_check_and_pause now id b = default_check_and_pause now id b.
Proof.
  intros Hs. unfold default_check_and_pause, mem_check_and_pause. cbn.
  unfold mbind, io_bind. cbn. destruct (pending b id Pause) as [r|]; [|done].
  unfold mem_load_snapshot. destruct (snapshots b !! id) as [s|] eqn:E; cbn; [|done].
  destruct (Hs _ _ E). destruct s as [? ? []]; cbn; try done.
Qed.

Lemma unpause_default now id b :
  filed b → mem_unpause now id b = default_unpause now id b.
Proof.
  intros Hs. unfold default_unpause, mem_unpause. unfold mbind, io_bind. cbn.
  unfold mem_load_snapshot. destruct (snapshots b !! id) as [s|] eqn:E; cbn; [|done].
  destruct (Hs _ _ E). destruct s as [? ? []]; cbn; done.
Qed.

(** ** Signals *)

Lemma pending_store id kind request b id' kind' :
  pending (with_signals (<[id := <[kind := request]> (default ∅ (signals b !! id))]> (signals b)) b)
    id' kind' =
  if bool_decide (id' = id ∧ kind' = kind) then Some request else pending b id' kind'.
Proof.
  unfold pending. cbn. destruct (decide (id' = id)) as [->|Hid].
  - rewrite lookup_insert_eq. cbn. destruct (decide (kind' = kind)) as [->|Hk].
    + by rewrite lookup_insert_eq, bool_decide_true.
    + rewrite lookup_insert_ne by done. rewrite bool_decide_false by tauto.
      destruct (signals b !! id); cbn; [done|]. apply lookup_empty.
  - by rewrite lookup_insert_ne, bool_decide_false by naive_solver.
Qed.

Lemma pending_remove id kind b id' kind' :
  pending (remove_signal id kind b) id' kind' =
  if bool_decide (id' = id ∧ kind' = kind) then None else pending b id' kind'.
Proof.
  unfold remove_signal, pending. destruct (signals b !! id) as [inner|] eqn:E; cbn; cycle 1.
  { case_bool_decide as Hb; [|done]. destruct Hb as [-> ->]. by rewrite E. }
  case_bool_decide as Hemp; cbn.
  - destruct (decide (id' = id)) as [->|Hid].
    + rewrite lookup_delete_eq, E. cbn. destruct (decide (kind' = kind)) as [->|Hk].
      * by rewrite bool_decide_true.
      * rewrite bool_decide_false by tauto. rewrite <-(lookup_delete_ne inner kind kind') by done.
        by rewrite Hemp, lookup_empty.
    + by rewrite lookup_delete_ne, bool_decide_false by naive_solver.
  - destruct (decide (id' = id)) as [->|Hid].
    + rewrite lookup_insert_eq, E. cbn. destruct (decide (kind' = kind)) as [->|Hk].
      * by rewrite lookup_delete_eq, bool_decide_true.
      * by rewrite lookup_delete_ne, bool_decide_false by naive_solver.
    + by rewrite lookup_insert_ne, bool_decide_false by naive_solver.
Qed.

(** ** Event queues *)

(** The abstract queue of a signal. *)
Definition queue (b : InMemoryBackend) (id name : string) : list Bytes :=
  default [] (events b !! id ≫= λ m, m !! name).

Lemma queue_send id name p b id' name' :
  queue (mem_send_event id name p b).2 id' name' =
  if bool_decide (id' = id ∧ name' = name) then queue b id name ++ [p] else queue b id' name'.
Proof.
  unfold queue. cbn. destruct (decide (id' = id)) as [->|Hid].
  - rewrite lookup_insert_eq. cbn. destruct (decide (name' = name)) as [->|Hn].
    + rewrite lookup_insert_eq, bool_decide_true by done. cbn. by destruct (events b !! id).
    + rewrite lookup_insert_ne, bool_decide_false by naive_solver. by destruct (events b !! id).
  - by rewrite lookup_insert_ne, bool_decide_false by naive_solver.
Qed.

Lemma cleaned_lookup (m : gmap string (list Bytes)) name name' :
  default [] ((if bool_decide (m !! name = Some []) then delete name m else m) !! name') =
  default [] (m !! name').
Proof.
  case_bool_decide as Hm; [|done]. destruct (decide (name' = name)) as [->|].
  - by rewrite lookup_delete_eq, Hm.
  - by rewrite lookup_delete_ne.
Qed.

Lemma cleaned_events (ev : gmap string (gmap string (list Bytes))) (m : gmap string (list Bytes)) id id' name' :
  default [] ((if bool_decide (m = ∅) then delete id ev else <[id := m]> ev) !! id' ≫= λ m, m !! name') =
  if bool_decide (id' = id) then default [] (m !! name')
  else default [] (ev !! id' ≫= λ m, m !! name').
Proof.
  destruct (decide (id' = id)) as [->|Hid].
  - rewrite (bool_decide_true (id = id)) by done. case_bool_decide as Hm.
    + rewrite lookup_delete_eq. subst. by rewrite lookup_empty.
    + by rewrite lookup_insert_eq.
  - rewrite (bool_decide_false (id' = id)) by done. case_bool_decide.
    + by rewrite lookup_delete_ne.
    + by rewrite lookup_insert_ne.
Qed.

Lemma queue_consume id name b :
  (mem_consume_event id name b).1 = Ok (head (queue b id name)) ∧
  ∀ id' name', queue (mem_consume_event id name b).2 id' name' =
    if bool_decide (id' = id ∧ name' = name) then tail (queue b id name) else queue b id' name'.
Proof.
  unfold mem_consume_event, pop_event, queue.
  destruct (events b !! id) as [m|] eqn:Em; cbn; cycle 1.
  { split; [done|]. intros. case_bool_decide as Hb; [|done]. destruct Hb as [-> ->]. by rewrite Em. }
  split; [by destruct (m !! name) as [[]|]|]. intros id' name'. rewrite cleaned_events, cleaned_lookup.
  destruct (decide (id' = id)) as [->|Hid].
  - rewrite (bool_decide_true (id = id)) by done. rewrite Em. cbn.
    destruct (decide (name' = name)) as [->|Hn].
    + rewrite bool_decide_true by done. destruct (m !! name) as [q|] eqn:Eq.
      * by rewrite lookup_insert_eq.
      * by rewrite Eq.
    + rewrite bool_decide_false by tauto. destruct (m !! name); [by rewrite lookup_insert_ne|done].
  - by rewrite !bool_decide_false by naive_solver.
Qed.

(** ** Claims *)

Lemma string_app_inj_r (a b c d : string) :
  String.length b = String.length d → a +:+ b = c +:+ d → a = c ∧ b = d.
Proof.
  intros Hl Heq. apply (f_equal as_bytes) in Heq. rewrite !as_bytes_app in Heq.
  apply app_inj_2 in Heq as [H1 H2]; [|by rewrite !as_bytes_length].
  split; by apply as_bytes_inj.
Qed.

Lemma claim_key_inj id t id' t' : claim_key id t = claim_key id' t' → id = id' ∧ t = t'.
Proof.
  intros [-> Hh]%string_app_inj_r.
  - split; [done|]. injection Hh as Hh. apply to_hex_inj in Hh. by destruct t, t'; cbn in *; subst.
  - change (S (String.length (to_hex (task_hash t))) = S (String.length (to_hex (task_hash t')))).
    by rewrite <-(as_bytes_length (to_hex (task_hash t))), <-(as_bytes_length (to_hex (task_hash t'))),
      !to_hex_length.
Qed.

(** Operations on claims by workers, executed in sequence at given times. *)
Inductive ClaimOp : Type :=
| OpClaim (id : string) (task_id : TaskId) (worker_id : string) (ttl : option Duration)
| OpRelease (id : string) (task_id : TaskId) (worker_id : string)
| OpExtend (id : string) (task_id : TaskId) (worker_id : string) (ttl : Duration)
| OpFind (worker_id : string) (limit : nat) (aging_interval : Duration) (worker_tags : list string).

Section ClaimOps.
Context `{Sha256, Chrono, MapIter}.

Definition run_op (b : InMemoryBackend) (no : DateTime * ClaimOp) : InMemoryBackend :=
  match no.2 with
  | OpClaim id t w ttl => (claim_task no.1 id t w ttl b).2
  | OpRelease id t w => (release_task_claim id t w b).2
  | OpExtend id t w ttl => (extend_task_claim no.1 id t w ttl b).2
  | OpFind w limit aging tags => (find_available_tasks no.1 w limit aging tags b).2
  end.
Definition run_ops (b : InMemoryBackend) (ops : list (DateTime * ClaimOp)) : InMemoryBackend :=
  foldl run_op b ops.

(** The operation is another worker's. *)
Definition foreign (w : string) (op : ClaimOp) : Prop :=
  match op with
  | OpClaim _ _ w' _ | OpRelease _ _ w' | OpExtend _ _ w' _ => w' ≠ w
  | OpFind _ _ _ _ => True
  end.

Lemma apply_advances_claims now l b : claims (apply_advances now l b) = claims b.
Proof.
  unfold apply_advances. generalize (advances_of 0 l ++ advances_of 1 l ++ advances_of 2 l ++ advances_of 3 l).
  intros k. revert b. induction k as [|a k IH]; intros b; cbn; [done|]. rewrite IH.
  destruct a; cbn; unfold update_snapshot; repeat case_match; done.
Qed.

Lemma run_op_keeps_claim now op b key c :
  claims b !! key = Some c → is_expired now c = false → foreign (claim_worker_id c) op →
  claims (run_op b (now, op)) !! key = Some c.
Proof.
  intros Hc Hlive Hf. destruct op as [id t w ttl|id t w|id t w ttl|w limit aging tags];
    unfold run_op; cbn in *.
  - unfold claim_task. destruct (decide (claim_key id t = key)) as [<-|Hne].
    + rewrite Hc, Hlive. done.
    + destruct (match claims b !! _ with Some _ => _ | None => _ end); cbn; [done|].
      by rewrite lookup_insert_ne, lookup_delete_ne.
  - unfold release_task_claim. destruct (decide (claim_key id t = key)) as [<-|Hne].
    + rewrite Hc. by rewrite bool_decide_true.
    + repeat case_match; cbn; rewrite ?lookup_delete_ne; done.
  - unfold extend_task_claim. destruct (decide (claim_key id t = key)) as [<-|Hne].
    + rewrite Hc. by rewrite bool_decide_true.
    + repeat case_match; cbn; rewrite ?lookup_insert_ne; done.
  - unfold advanced. rewrite apply_advances_claims. cbn. by apply map_lookup_filter_Some.
Qed.

Lemma run_ops_keep_claim ops b key c :
  claims b !! key = Some c →
  Forall (λ no, is_expired no.1 c = false ∧ foreign (claim_worker_id c) no.2) ops →
  claims (run_ops b ops) !! key = Some c.
Proof.
  intros Hc HF. revert b Hc. induction HF as [|[now op] ops [Hl Hf] _ IH]; intros b Hc; [done|].
  apply IH. by apply run_op_keeps_claim.
Qed.

(** Successive lease renewals by the holder. *)
Definition heartbeats (id : string) (task_id : TaskId) (w : string) (ttl : Duration)
    (times : list DateTime) (b : InMemoryBackend) : InMemoryBackend :=
  foldl (λ b now, (extend_task_claim now id task_id w ttl b).2) b times.

Lemma extend_own now id t w ttl b c e r :
  claims b !! claim_key id t = Some c → claim_worker_id c = w → expires_at c = Some e →
  checked_add_signed now ttl = Some r →
  claims (extend_task_claim now id t w ttl b).2 !! claim_key id t =
    Some (MkTaskClaim (claim_instance_id c) (claim_task_id c) w (claimed_at c) (Some (timestamp_u64 r))).
Proof.
  intros Hc <- He Hr. unfold extend_task_claim. rewrite Hc, bool_decide_false by tauto.
  rewrite He, Hr. cbn. by rewrite lookup_insert_eq.
Qed.

Lemma heartbeats_last id t w ttl times now b c e r :
  claims b !! claim_key id t = Some c → claim_worker_id c = w → expires_at c = Some e →
  Forall (λ t, is_Some (checked_add_signed t ttl)) times → checked_add_signed now ttl = Some r →
  claims (heartbeats id t w ttl (times ++ [now]) b) !! claim_key id t =
    Some (MkTaskClaim (claim_instance_id c) (claim_task_id c) w (claimed_at c) (Some (timestamp_u64 r))).
Proof.
  intros Hc Hw He HF Hr. revert b c e Hc Hw He.
  induction HF as [|now' times [r' Hr'] _ IH]; intros b c e Hc Hw He.
  - exact (extend_own now id t w ttl b c e r Hc Hw He Hr).
  - pose proof (extend_own now' id t w ttl b c e r' Hc Hw He Hr') as H'.
    exact (IH _ _ _ H' eq_refl eq_refl).
Qed.
End ClaimOps.

(** ** Dispatch *)

Lemma SFcompare_antisym x y : SFcompare y x = CompOpp <$> SFcompare x y.
Proof.
  destruct x as [[]|[]| |[] m e], y as [[]|[]| |[] m' e']; cbn; try done; f_equal.
  - rewrite (Z.compare_antisym e e'). destruct (e ?= e')%Z; cbn; try done.
    change (Pos.compare_cont Eq) with Pos.compare. by rewrite (Pos.compare_antisym m m').
  - rewrite (Z.compare_antisym e e'). destruct (e ?= e')%Z; cbn; try done.
    apply (Pos.compare_antisym m m').
Qed.

#[export] Instance task_cmp_total now w aging m : Total (not_after (task_cmp now w aging m)).
Proof.
  intros a b. unfold not_after, task_cmp.
  destruct (worker_bias m w a), (worker_bias m w b); cbn; auto;
    rewrite (SFcompare_antisym (eff_priority now aging m a));
    destruct (SFcompare (eff_priority now aging m a) _) as [[]|]; cbn; auto.
Qed.

Lemma dispatch_take limit f l acc :
  (length acc < Nat.max 1 limit)%nat →
  dispatch limit f l acc = acc ++ take (Nat.max 1 limit - length acc) (omap f l).
Proof.
  revert acc; induction l as [|p l IH]; intros acc Hacc; cbn.
  { by rewrite take_nil, app_nil_r. }
  destruct (f p) as [t|]; [|by apply IH]. rewrite length_app. cbn. case_bool_decide as Hlim.
  - replace (Nat.max 1 limit - length acc)%nat with 1%nat by lia. done.
  - rewrite IH by (rewrite length_app; cbn; lia). rewrite <-app_assoc, length_app. cbn.
    replace (Nat.max 1 limit - length acc)%nat with
      (S (Nat.max 1 limit - (length acc + 1))) by lia. done.
Qed.

Section FindSpec.
Context `{Sha256, MapIter, !MapIterLaws}.

(** What it takes for an instance to offer a task. *)
Definition eligible (now : DateTime) (worker_tags : list string) (b : InMemoryBackend)
    (t : AvailableTask) : Prop :=
  ∃ completed last,
    snapshots b !! at_instance_id t = Some (at_snapshot t) ∧
    state (at_snapshot t) = InProgress (AtTask (at_task_id t)) completed last ∧
    completed !! at_task_id t = None ∧
    claims b !! claim_key (at_instance_id t) (at_task_id t) = None ∧
    pending b (at_instance_id t) Cancel = None ∧ pending b (at_instance_id t) Pause = None ∧
    backoff_pending now (at_task_id t) (at_snapshot t) = false ∧
    (worker_tags ≠ [] → ∀ tag, tag ∈ task_tags (at_snapshot t) → tag ∈ worker_tags) ∧
    Some (at_input t) =
      (if bool_decide (completed = ∅) then initial_input (at_snapshot t)
       else get_last_task_output (at_snapshot t)) ∧
    at_workflow_definition_hash t = snapshot_definition_hash (at_snapshot t) ∧
    at_trace_parent t = None.

Lemma tags_match_spec worker_tags tags :
  tags_match worker_tags tags = true ↔ (worker_tags ≠ [] → ∀ tag, tag ∈ tags → tag ∈ worker_tags).
Proof.
  unfold tags_match. rewrite !orb_true_iff, !bool_decide_eq_true, forallb_forall.
  setoid_rewrite bool_decide_eq_true. setoid_rewrite <-list_elem_of_In. split.
  - intros [[Hw| ->]|Hall] Hne tag Htag; [done|by apply elem_of_nil in Htag|by apply Hall].
  - intros Ht. destruct (decide (worker_tags = [])) as [->|Hw]; [by left; left|]. right. by apply Ht.
Qed.

Lemma signalled_false b id : signalled b id = false ↔ pending b id Cancel = None ∧ pending b id Pause = None.
Proof.
  unfold signalled. rewrite orb_false_iff, !bool_decide_eq_false, <-!eq_None_not_Some. done.
Qed.

Lemma candidate_eligible now tags b id s t :
  snapshots b !! id = Some s →
  candidate now tags b (id, s) = Some t ↔ eligible now tags b t ∧ at_instance_id t = id.
Proof.
  intros Hs. unfold candidate, eligible. split.
  - intros Hc. destruct (is_in_progress (state s)) eqn:Hip; [|done]. cbn in Hc.
    destruct (signalled b id) eqn:Hsig; [done|]. apply signalled_false in Hsig.
    destruct (state s) as [[|task_id| | | | | ] completed last| | | | ] eqn:Hst; try done.
    destruct (negb _ && negb _) eqn:Hfree; [|done].
    apply andb_true_iff in Hfree as [Hd%negb_true_iff Hcl%negb_true_iff].
    apply bool_decide_eq_false, eq_None_not_Some in Hd, Hcl.
    destruct (backoff_pending now task_id s) eqn:Hb; [done|].
    destruct (tags_match tags (task_tags s)) eqn:Ht; [|done]. cbn in Hc.
    pose proof (proj1 (tags_match_spec _ _) Ht) as Ht'.
    apply fmap_Some in Hc as (bytes & Hbytes & ->). cbn. split; [|done].
    exists completed, last. naive_solver.
  - intros [(completed & last & Hs' & Hst & Hd & Hcl & Hp1 & Hp2 & Hb & Ht & Hin & Hh & Htp) <-].
    rewrite Hs in Hs'. injection Hs' as ->. rewrite Hst. cbn.
    rewrite (proj2 (signalled_false b (at_instance_id t))) by done.
    rewrite Hd, Hcl, Hb. cbn.
    rewrite (proj2 (tags_match_spec _ _) Ht). cbn. rewrite <-Hin.
    destruct t; cbn in *. by subst.
Qed.

Lemma elem_of_candidates now tags b t :
  t ∈ omap (candidate now tags b) (map_iter (snapshots b)) ↔ eligible now tags b t.
Proof.
  rewrite list_elem_of_omap. split.
  - intros ([id s] & Hin & Hc). rewrite map_iter_entries in Hin. apply elem_of_map_to_list in Hin.
    by apply candidate_eligible in Hc as [? _].
  - intros Ht. pose proof Ht as (completed & last & Hs & _).
    exists (at_instance_id t, at_snapshot t). split.
    + rewrite map_iter_entries. by apply elem_of_map_to_list.
    + by apply candidate_eligible.
Qed.

(** An instance offers at most one task. *)
Lemma candidates_nodup now tags b :
  NoDup (at_instance_id <$> omap (candidate now tags b) (map_iter (snapshots b))).
Proof.
  assert (Hid : ∀ p t, candidate now tags b p = Some t → at_instance_id t = p.1).
  { intros [id s] t. unfold candidate. repeat case_match; try done; by intros (? & _ & ->)%fmap_Some. }
  assert (NoDup (map_iter (snapshots b)).*1) as Hnd.
  { rewrite map_iter_entries. apply NoDup_fst_map_to_list. }
  induction (map_iter (snapshots b)) as [|p l IH]; cbn; [constructor|].
  cbn in Hnd. apply NoDup_cons in Hnd as [Hp Hnd]. destruct (candidate now tags b p) as [t|] eqn:E; [|auto].
  cbn. apply NoDup_cons. split; [|auto]. rewrite (Hid _ _ E). intros Hin. apply Hp.
  apply list_elem_of_fmap in Hin as (t' & -> & (p' & Hp' & Ht')%list_elem_of_omap).
  rewrite (Hid _ _ Ht'). apply list_elem_of_fmap. eauto.
Qed.

Lemma find_available_list now w limit aging tags b :
  ∃ l, find_available_tasks now w limit aging tags b = (Ok l, advanced now b) ∧
    l ≡ₚ take (Nat.max 1 limit) (omap (candidate now tags (advanced now b))
           (map_iter (snapshots (advanced now b)))) ∧
    Sorted (not_after (task_cmp now w aging (snapshots (advanced now b)))) l.
Proof.
  eexists. split; [reflexivity|]. rewrite dispatch_take by (cbn; lia). cbn. rewrite Nat.sub_0_r. split.
  - apply merge_sort_Permutation.
  - apply (Sorted_merge_sort _).
Qed.
End FindSpec.

Lemma Sorted_app_r {A} (R : A → A → Prop) l k : Sorted R (l ++ k) → Sorted R k.
Proof. induction l as [|a l IH]; cbn; [done|]. inversion 1; auto. Qed.

(** In a list sorted by [task_cmp], tasks that last failed on this worker come last. *)
Lemma sorted_bias_last now w aging m l :
  Sorted (not_after (task_cmp now w aging m)) l →
  ∀ l1 a l2, l = l1 ++ a :: l2 → worker_bias m w a = true → Forall (λ t, worker_bias m w t = true) l2.
Proof.
  intros Hs l1 a l2 -> Ha. apply Sorted_app_r in Hs.
  revert a Ha Hs. induction l2 as [|x l2 IH]; intros a Ha Hs; [done|].
  inversion Hs as [|? ? Hs' Hhd]; subst. inversion Hhd as [|? ? Hax]; subst.
  assert (worker_bias m w x = true) as Hx.
  { unfold not_after, task_cmp in Hax. rewrite Ha in Hax. by destruct (worker_bias m w x). }
  constructor; [done|]. by apply (IH x).
Qed.

(** ** Properties *)

Section Properties.
Context `{Sha256, Chrono, MapIter}.

(** The store's invariant holds initially and is preserved by every
    operation of the four traits: snapshots and claims are filed under their own
    keys, stored snapshots are well formed, and no empty signal map, event map or
    event queue is left behind. *)
Theorem store_invariant (b : InMemoryBackend) : rtc backend_step backend_new b → store_wf b.
Proof.
  intros Hr. assert (store_wf backend_new) as Hw by (split_and!; apply map_Forall_empty).
  induction Hr; eauto using backend_step_wf.
Qed.

(** C8. The in-memory overrides of [check_and_cancel], [check_and_pause] and
    [unpause] refine the trait's default bodies built from the primitives: on
    every well-formed store they return the same result and leave the same
    store, on every branch including the errors. *)
Theorem composites_refine_defaults (b : InMemoryBackend) (now : DateTime) (id : string)
    (at_ : option TaskId) :
  store_wf b →
  mem_check_and_cancel now id at_ b = default_check_and_cancel now id at_ b ∧
  mem_check_and_pause now id b = default_check_and_pause now id b ∧
  mem_unpause now id b = default_unpause now id b.
Proof.
  intros Hb%store_wf_filed. auto using check_and_cancel_default, check_and_pause_default, unpause_default.
Qed.

(** A pending cancel wins: when [check_control_signals] finds a cancel request
    on an in-progress instance it cancels it with that request's reason and
    author, keeps the completed results, records where it was interrupted, and
    consumes exactly the cancel signal. *)
Theorem cancel_wins (b : InMemoryBackend) (now : DateTime) (id : string) (at_ : option TaskId)
    (s : WorkflowSnapshot) (request : SignalRequest) :
  snapshots b !! id = Some s → is_in_progress (state s) → pending b id Cancel = Some request →
  let '(r, b') := check_control_signals now id at_ b in
  r = Ok (Some CSCancelled) ∧
  (∃ s', snapshots b' !! id = Some s' ∧
    state s' = Cancelled (sr_reason request) (sr_requested_by request) now
      (default ∅ (get_all_task_results s)) at_) ∧
  pending b' id Cancel = None ∧ pending b' id Pause = pending b id Pause.
Proof.
  intros Hs Hip Hp. unfold check_control_signals, mbind, io_bind. cbn. unfold mem_check_and_cancel.
  rewrite Hp, Hs. destruct (is_in_progress (state s)) eqn:E; [|done]. cbn. split; [done|].
  rewrite !pending_remove. rewrite bool_decide_true, bool_decide_false by naive_solver. split; [|done].
  unfold remove_signal. cbn.
  assert (∀ m b, snapshots (with_signals m b) = snapshots b) as Hsn by done.
  repeat case_match; rewrite ?Hsn; cbn; rewrite lookup_insert_eq; eexists; (split; [done|]);
    by destruct s as [? ? []].
Qed.

(** [store_signal] on every branch: an unknown instance is reported; the
    checks made on the stored state are those of the shared validator
    [validate_signal_allowed]; a signal that is already in effect is ignored;
    otherwise exactly the signal of that instance and kind is replaced. *)
Theorem store_signal_spec (b : InMemoryBackend) (id : string) (kind : SignalKind) (request : SignalRequest) :
  let '(r, b') := mem_store_signal id kind request b in
  match snapshots b !! id with
  | None => r = Err (NotFound id) ∧ b' = b
  | Some s =>
      r = validate_signal_allowed (state_name (state s)) kind ∧
      (if bool_decide (r = Ok ()) &&
         negb match kind with Cancel => is_cancelled (state s) | Pause => is_paused (state s) end
       then b' = with_signals (signals b') b ∧
         ∀ id' kind', pending b' id' kind' =
           if bool_decide (id' = id ∧ kind' = kind) then Some request else pending b id' kind'
       else b' = b)
  end.
Proof.
  unfold mem_store_signal. destruct (snapshots b !! id) as [s|]; [|done].
  destruct (state s), kind; cbn; try done; (split; [done|]); (split; [done|]); intros;
    apply pending_store.
Qed.

(** Event queues are FIFO per instance and signal name: sending appends to
    exactly one queue, consuming returns and removes the oldest event of exactly
    one queue (or nothing), and no other queue is affected. *)
Theorem event_queues_fifo (b : InMemoryBackend) (id name id' name' : string) (payload : Bytes) :
  let here := bool_decide (id' = id ∧ name' = name) in
  (mem_send_event id name payload b).1 = Ok () ∧
  queue (mem_send_event id name payload b).2 id' name' =
    (if here then queue b id name ++ [payload] else queue b id' name') ∧
  (mem_consume_event id name b).1 = Ok (head (queue b id name)) ∧
  queue (mem_consume_event id name b).2 id' name' =
    (if here then tail (queue b id name) else queue b id' name').
Proof.
  split; [done|]. split; [apply queue_send|].
  destruct (queue_consume id name b) as [? Hq]. split; [done|apply Hq].
Qed.

(** C7. Mutual exclusion: once a worker has obtained a claim, no sequence of
    operations by other workers (claims, releases, extensions, on this or other
    tasks, and task searches by anyone) removes or replaces it while it has not
    expired, and every attempt to claim the task meanwhile is refused. *)
Theorem claim_exclusion (b b0 : InMemoryBackend) (now0 : DateTime) (id : string) (task_id : TaskId)
    (w : string) (ttl : option Duration) (c : TaskClaim) (ops : list (DateTime * ClaimOp)) :
  claim_task now0 id task_id w ttl b = (Ok (Some c), b0) →
  Forall (λ no, is_expired no.1 c = false ∧ foreign w no.2) ops →
  claims (run_ops b0 ops) !! claim_key id task_id = Some c ∧
  (∀ now w' ttl', is_expired now c = false →
    claim_task now id task_id w' ttl' (run_ops b0 ops) = (Ok None, run_ops b0 ops)).
Proof.
  intros Hc Hops. unfold claim_task in Hc.
  destruct (match claims b !! _ with Some _ => _ | None => _ end); [done|]. injection Hc as <- Hb0.
  assert (claims (run_ops b0 ops) !! claim_key id task_id = Some (TaskClaim_new now0 id task_id w ttl)) as Hk.
  { apply run_ops_keep_claim; [|done]. rewrite <-Hb0. cbn. by rewrite lookup_insert_eq. }
  split; [exact Hk|]. intros now w' ttl' Hl. unfold claim_task. by rewrite Hk, Hl.
Qed.

(** Claims are per task of an instance: the key of a claim determines the
    instance and the task, so claiming one task leaves the claims of all others
    untouched, and a claim that is absent or expired is granted. *)
Theorem claim_independent (b : InMemoryBackend) (now : DateTime) (id id' : string)
    (task_id task_id' : TaskId) (w : string) (ttl : option Duration) :
  (id, task_id) ≠ (id', task_id') →
  let '(r, b') := claim_task now id task_id w ttl b in
  claims b' !! claim_key id' task_id' = claims b !! claim_key id' task_id' ∧
  ((∀ c, claims b !! claim_key id task_id = Some c → is_expired now c) →
    r = Ok (claims b' !! claim_key id task_id) ∧
    claims b' !! claim_key id task_id = Some (TaskClaim_new now id task_id w ttl)).
Proof.
  intros Hne. assert (claim_key id task_id ≠ claim_key id' task_id') as Hk.
  { intros [-> ->]%claim_key_inj. done. }
  unfold claim_task. destruct (claims b !! claim_key id task_id) as [c|] eqn:E; cbn.
  - destruct (is_expired now c) eqn:Hx; cbn.
    + by rewrite lookup_insert_ne, lookup_delete_ne, lookup_insert_eq by done.
    + split; [done|]. intros Hc. specialize (Hc c eq_refl). by rewrite Hx in Hc.
  - by rewrite lookup_insert_ne, lookup_delete_ne, lookup_insert_eq by done.
Qed.

(** Lease renewal is absolute: however many heartbeats preceded it, after the
    last one at [now] the lease runs to [now + ttl] and not longer, so from that
    second on any other worker obtains the claim. *)
Theorem lease_absolute `{!ChronoLaws} (b : InMemoryBackend) (id : string) (task_id : TaskId) (w : string)
    (ttl : Duration) (times : list DateTime) (now : DateTime) (c : TaskClaim) (e : Z) :
  claims b !! claim_key id task_id = Some c → claim_worker_id c = w → expires_at c = Some e →
  Forall (λ t, is_Some (checked_add_signed t ttl)) (times ++ [now]) →
  let b' := heartbeats id task_id w ttl (times ++ [now]) b in
  claims b' !! claim_key id task_id =
    Some (MkTaskClaim (claim_instance_id c) (claim_task_id c) w (claimed_at c)
      (Some (timestamp_u64 (now + ttl)))) ∧
  (∀ later w' ttl', timestamp_u64 (now + ttl) ≤ timestamp_u64 later →
    (claim_task later id task_id w' ttl' b').1 = Ok (Some (TaskClaim_new later id task_id w' ttl'))).
Proof.
  intros Hc Hw He [HF [[r Hr] _]%Forall_cons]%Forall_app. apply checked_add_exact in Hr as Heq. subst r.
  cbn. pose proof (heartbeats_last id task_id w ttl times now b c e _ Hc Hw He HF Hr) as Hk.
  split; [exact Hk|]. intros later w' ttl' Hl. unfold claim_task. rewrite Hk. cbn.
  unfold is_expired. cbn. by rewrite bool_decide_true.
Qed.

(** Results survive completion: when an instance with stored results is saved
    as completed or failed, [load_task_result] still returns, for every task, the
    output the previous snapshot held, although the new snapshot holds none. *)
Theorem results_survive_completion (b : InMemoryBackend) (prev s : WorkflowSnapshot)
    (tasks : CompletedTasks) (task_id : TaskId) :
  snapshots b !! instance_id s = Some prev → get_all_task_results prev = Some tasks → tasks ≠ ∅ →
  is_completed (state s) || is_failed (state s) →
  (load_task_result (instance_id s) task_id (mem_save_snapshot s b).2).1 =
    Ok (tr_output <$> tasks !! task_id).
Proof.
  intros Hp Ht Hne Hst. unfold mem_save_snapshot. rewrite Hp, Ht, bool_decide_false by done.
  destruct (is_completed (state s) || is_failed (state s)) eqn:E; [|done].
  unfold load_task_result. cbn. rewrite !lookup_insert_eq, E.
  unfold get_task_result_bytes, get_task_result. by destruct (state s).
Qed.

(** C9. Task search is sound and complete: after expired claims are dropped and
    due delays and signals advanced, it returns only tasks that are eligible
    (current task of an in-progress instance, not completed, not claimed, no
    pending cancel or pause, backoff elapsed, tags covered by the worker, with the
    right input), one per instance and at most [max 1 limit] of them; if it returns
    fewer, it returns every eligible task; and tasks that last failed on this
    worker come after all others. *)
Theorem find_available_spec `{!MapIterLaws} (b : InMemoryBackend) (now : DateTime) (w : string) (limit : nat)
    (aging : Duration) (tags : list string) :
  ∃ l, find_available_tasks now w limit aging tags b = (Ok l, advanced now b) ∧
    (∀ t, t ∈ l → eligible now tags (advanced now b) t) ∧
    NoDup (at_instance_id <$> l) ∧
    (length l ≤ Nat.max 1 limit)%nat ∧
    ((length l < Nat.max 1 limit)%nat → ∀ t, eligible now tags (advanced now b) t → t ∈ l) ∧
    (∀ l1 a l2, l = l1 ++ a :: l2 → worker_bias (snapshots (advanced now b)) w a = true →
      Forall (λ t, worker_bias (snapshots (advanced now b)) w t = true) l2).
Proof.
  destruct (find_available_list now w limit aging tags b) as (l & Hl & Hp & Hs).
  exists l. split; [done|]. split_and!.
  - intros t Ht. rewrite Hp in Ht. apply elem_of_candidates.
    eapply elem_of_sublist; [exact Ht|apply sublist_take].
  - rewrite Hp. eapply sublist_NoDup; [apply (candidates_nodup now tags (advanced now b))|].
    apply fmap_sublist, sublist_take.
  - rewrite Hp, length_take. lia.
  - intros Hlen t Ht. rewrite Hp. rewrite Hp, length_take in Hlen. rewrite take_ge by lia.
    by apply elem_of_candidates.
  - by eapply sorted_bias_last.
Qed.
End Properties.

(** ** Witnesses *)

Module InMemoryExample.
Import Toy Examples.

#[export] Instance list_iter : MapIter := map_to_list.
#[export] Instance list_iter_laws : MapIterLaws.
Proof. intros m. reflexivity. Qed.

(** An instance waiting at task "a", and one with a stored result. *)
Definition waiting : WorkflowSnapshot :=
  update_position 1 (AtTask (TaskId_from "a")) (with_initial_input 0 "i" DefinitionHash_default [x2a]).
Definition running : WorkflowSnapshot := mark_task_completed 2 (TaskId_from "a") [x07] waiting.
Definition b1 : InMemoryBackend := (mem_save_snapshot waiting backend_new).2.
Definition cancel_request : SignalRequest := MkSignalRequest (Some "stop") (Some "ops") 3.
Definition b2 : InMemoryBackend :=
  (mem_store_signal "i" Cancel cancel_request (mem_save_snapshot running backend_new).2).2.

Lemma waiting_wf : snapshot_wf waiting.
Proof.
  eapply snapshot_step_wf; [apply step_position|].
  unfold snapshot_wf, results_keyed; cbn; split_and!; auto with sayiir; apply timestamp_u64_range.
Qed.

Lemma b1_wf : store_wf b1.
Proof.
  apply (backend_step_wf backend_new); [apply bs_save, waiting_wf|].
  split_and!; apply map_Forall_empty.
Qed.

Lemma store_invariant_witness : store_wf b1.
Proof. apply (store_invariant b1). eapply rtc_l; [apply bs_save, waiting_wf|apply rtc_refl]. Defined.

Lemma composites_refine_defaults_witness :
  mem_unpause 5 "i" b1 = default_unpause 5 "i" b1.
Proof. apply (composites_refine_defaults b1 5 "i" None b1_wf). Defined.

Lemma cancel_wins_witness : (check_control_signals 4 "i" None b2).1 = Ok (Some CSCancelled).
Proof.
  pose proof (cancel_wins b2 4 "i" None running cancel_request eq_refl I eq_refl) as Hc.
  destruct (check_control_signals 4 "i" None b2) as [r b']. apply Hc.
Defined.

Definition claim1 : TaskClaim := TaskClaim_new 0 "i" (TaskId_from "a") "w1" (Some (from_secs 60)).
Definition b3 : InMemoryBackend := (claim_task 0 "i" (TaskId_from "a") "w1" (Some (from_secs 60)) b1).2.

Lemma claim_exclusion_witness :
  claims (run_ops b3 [(from_secs 10, OpClaim "i" (TaskId_from "a") "w2" None);
                      (from_secs 20, OpRelease "i" (TaskId_from "a") "w2")]) !!
    claim_key "i" (TaskId_from "a") = Some claim1.
Proof.
  apply (claim_exclusion b1 b3 0 "i" (TaskId_from "a") "w1" (Some (from_secs 60)) claim1).
  - vm_compute. reflexivity.
  - repeat constructor; try discriminate; vm_compute; reflexivity.
Defined.

Lemma claim_independent_witness :
  claims (claim_task 0 "i" (TaskId_from "a") "w1" None b1).2 !! claim_key "i" (TaskId_from "b") =
  claims b1 !! claim_key "i" (TaskId_from "b").
Proof.
  pose proof (claim_independent b1 0 "i" "i" (TaskId_from "a") (TaskId_from "b") "w1" None) as Hc.
  destruct (claim_task 0 "i" (TaskId_from "a") "w1" None b1) as [r b']. apply Hc.
  apply (bool_decide_unpack _). vm_compute. exact I.
Defined.

Lemma lease_absolute_witness :
  (claim_task (from_secs 90) "i" (TaskId_from "a") "w2" None
    (heartbeats "i" (TaskId_from "a") "w1" (from_secs 60) ([from_secs 10] ++ [from_secs 20]) b3)).1 =
  Ok (Some (TaskClaim_new (from_secs 90) "i" (TaskId_from "a") "w2" None)).
Proof.
  apply (lease_absolute b3 "i" (TaskId_from "a") "w1" (from_secs 60) [from_secs 10] (from_secs 20)
    claim1 60).
  - vm_compute. reflexivity.
  - reflexivity.
  - vm_compute. reflexivity.
  - repeat constructor; eexists; vm_compute; reflexivity.
  - vm_compute. discriminate.
Defined.

Lemma results_survive_completion_witness :
  (load_task_result "i" (TaskId_from "a") (mem_save_snapshot (mark_completed 9 [x09] running) b2).2).1 =
  Ok (Some [x07]).
Proof.
  pose proof (results_survive_completion b2 running (mark_completed 9 [x09] running)
    {[TaskId_from "a" := MkTaskResult (TaskId_from "a") [x07]]} (TaskId_from "a")) as Hr.
  rewrite lookup_singleton_eq in Hr. apply Hr; [reflexivity|reflexivity|apply map_non_empty_singleton|exact I].
Defined.

Lemma find_available_spec_witness :
  ∃ l, find_available_tasks 5 "w" 10 (from_secs 60) [] b1 = (Ok l, advanced 5 b1) ∧
    NoDup (at_instance_id <$> l).
Proof.
  destruct (find_available_spec b1 5 "w" 10 (from_secs 60) []) as (l & Hl & _ & Hnd & _).
  exists l. split; [exact Hl|exact Hnd].
Defined.

(** The search stops at [limit] before it sorts, so which tasks are dispatched
    does not depend on priority; and a limit of 0 still returns a task. *)
Lemma limit_zero_dispatches :
  at_task_id <$> default [] (ok (find_available_tasks 5 "w" 0 (from_secs 60) [] b1).1) = [TaskId_from "a"].
Proof. vm_compute. reflexivity. Qed.

End InMemoryExample.
