(* ===== verification/ClaimStore.v ===== *)
(** * Task claims as an interface ([sayiir-persistence/src/backend.rs])

    The trait [TaskClaimStore] as a class over the backend state, with the default
    bodies of its optional methods, its instance for the in-memory backend, and
    the wake-up hints workers receive.  [FencedStore] is what the trait documents
    of [save_snapshot_fenced]; the in-memory backend keeps the unfenced default. *)

From S2P Require Import Prelude Hash32 Task Workflow Snapshot Backend InMemory.

(** ** Wake-up hints *)

Record TaskWakeupHint : Type := MkWakeupHint {
  hint_instance_id : string;
  hint_task_id : Hash32;
  hint_definition_hash : Hash32;
  hint_wake_tags : list string
}.

(** The [nanoserde] and [base64] crates. *)
Class HintCodec : Type := {
  ser_bin : TaskWakeupHint → Bytes;
  deserialize_bin : Bytes → result string TaskWakeupHint;
  base64_encode : Bytes → string;
  base64_decode : string → result string Bytes
}.
Class HintCodecLaws `{HintCodec} : Prop := {
  ser_de_bin h : deserialize_bin (ser_bin h) = Ok h;
  base64_roundtrip b : base64_decode (base64_encode b) = Ok b
}.

Definition HINT_WIRE_VERSION : byte := x02.

(** [TaskWakeupHint::encode], [TaskWakeupHint::decode]. *)
Definition hint_encode `{HintCodec} (h : TaskWakeupHint) : string :=
  base64_encode (HINT_WIRE_VERSION :: ser_bin h).
Definition hint_decode `{HintCodec} (payload : string) : result string TaskWakeupHint :=
  bytes ← map_err (λ e, "base64: " +:+ e) (base64_decode payload);
  match bytes with
  | [] => Err "empty payload"
  | version :: body =>
      if bool_decide (version ≠ HINT_WIRE_VERSION)
      then Err ("unsupported wire version: " +:+ pretty (Byte.to_N version))
      else map_err (λ e, "nanoserde: " +:+ e) (deserialize_bin body)
  end.

(** ** The interface *)

Module Claims.
Class TaskClaimStore (B : Type) : Type := {
  claim_task : DateTime → string → TaskId → string → option Duration → io B BackendError (option TaskClaim);
  release_task_claim : string → TaskId → string → io B BackendError unit;
  extend_task_claim : DateTime → string → TaskId → string → Duration → io B BackendError unit;
  find_available_tasks :
    DateTime → string → nat → Duration → list string → io B BackendError (list AvailableTask);
  find_hinted_task : TaskWakeupHint → io B BackendError (option AvailableTask);
  save_snapshot_fenced :
    DateTime → WorkflowSnapshot → TaskId → string → io B BackendError (bool * WorkflowSnapshot)
}.
End Claims.
Export (hints) Claims.

(** The default bodies: no direct lookup, and an unfenced save. *)
Section Defaults.
Context {B : Type} `{PersistentBackend B}.
Definition default_find_hinted_task (hint : TaskWakeupHint) : io B BackendError (option AvailableTask) :=
  mret None.
Definition default_save_snapshot_fenced (s : WorkflowSnapshot) (task_id : TaskId) (worker_id : string) :
    io B BackendError (bool * WorkflowSnapshot) :=
  s ← save_snapshot s; mret (true, s).
End Defaults.

(** What the trait documents of the fence: the snapshot is written only while the
    worker holds a live claim ([holds]), and nothing changes otherwise. *)
Class FencedStore (B : Type) `{PersistentBackend B, Claims.TaskClaimStore B}
    (holds : DateTime → string → TaskId → string → B → Prop) : Prop := {
  fenced_held now s t worker b :
    holds now (instance_id s) t worker b →
    Claims.save_snapshot_fenced now s t worker b =
      (let '(r, b') := save_snapshot s b in (pair true <$> r, b'));
  fenced_lost now s t worker b :
    ¬ holds now (instance_id s) t worker b →
    Claims.save_snapshot_fenced now s t worker b = (Ok (false, s), b)
}.

(** [impl TaskClaimStore for InMemoryBackend]. *)
#[export] Instance in_memory_claims `{Sha256, Chrono, MapIter} : Claims.TaskClaimStore InMemoryBackend := {
  Claims.claim_task := claim_task;
  Claims.release_task_claim := release_task_claim;
  Claims.extend_task_claim := extend_task_claim;
  Claims.find_available_tasks := find_available_tasks;
  Claims.find_hinted_task := default_find_hinted_task;
  Claims.save_snapshot_fenced _ := default_save_snapshot_fenced
}.

(** ** Properties of the hint codec *)

Section HintCodec.
Context `{HintCodecLaws}.

Lemma hint_decode_encode h : hint_decode (hint_encode h) = Ok h.
Proof.
  unfold hint_decode, hint_encode. rewrite base64_roundtrip. cbn. by rewrite ser_de_bin.
Qed.

(** A payload of another wire version, or of no version, is refused. *)
Lemma hint_decode_version version body payload :
  base64_decode payload = Ok (version :: body) → version ≠ HINT_WIRE_VERSION →
  hint_decode payload = Err ("unsupported wire version: " +:+ pretty (Byte.to_N version)).
Proof. intros Hp Hv. unfold hint_decode. rewrite Hp. cbn. by rewrite bool_decide_true. Qed.

Lemma hint_encode_inj h h' : hint_encode h = hint_encode h' → h = h'.
Proof.
  intros Heq. assert (Ok h = Ok (E:=string) h') as [= ->]; [|done].
  by rewrite <-(hint_decode_encode h), <-(hint_decode_encode h'), Heq.
Qed.
End HintCodec.
