(* ===== verification/Runtime.v ===== *)
(** * Runtime errors and effects

    The error types of [sayiir-core/src/error.rs] and [sayiir-runtime/src/error.rs],
    and the effects of the runtime: every backend call and every clock reading is
    one step of a world that counts steps.  The clock and what other clients do to
    the backend between two steps of this process are functions of the step
    number, so a theorem that quantifies over them covers every interleaving at
    the granularity of backend calls. *)

From S2P Require Import Prelude Hash32 Task Workflow Serializable Snapshot Backend.

(** ** Errors *)

(** [BoxError]: a boxed [CodecError], or any other error by its message. *)
Inductive BoxError : Type :=
| BoxCodec (e : CodecError)
| BoxOther (msg : string)
with CodecError : Type :=
| DecodeFailed (task_id : TaskId) (expected_type : string) (source : BoxError)
| EncodeFailed (task_id : TaskId) (source : BoxError).

Module WF.
Inductive WorkflowError : Type :=
| TaskNotFound (id : string)
| TaskNotImplemented (id : string)
| DefinitionMismatch (expected found : DefinitionHash)
| Cancelled (reason cancelled_by : option string)
| Paused (reason paused_by : option string)
| EmptyFork
| TaskPanicked (msg : string)
| ResumeError (msg : string)
| BranchNotFound (name : string)
| BranchKeyNotFound (branch_id key : string)
| Waiting (wake_at : DateTime)
| TaskTimedOut (task_id : TaskId) (timeout : Duration)
| AwaitingSignal (signal_id : TaskId) (signal_name : string) (wake_at : option DateTime)
| MaxIterationsExceeded (loop_id : TaskId) (max_iterations : Z).

(** [WorkflowError::cancelled], [WorkflowError::paused]. *)
Definition cancelled : WorkflowError := Cancelled None None.
Definition paused : WorkflowError := Paused None None.
End WF.

Inductive RuntimeError : Type :=
| RWorkflow (e : WF.WorkflowError)
| RBuild (errors : list BuildError)
| RBackend (e : BackendError)
| RCodec (e : CodecError)
| RTask (msg : string)
| RJoin (msg : string)
| InstanceAlreadyExists (id : string)
| RInvalidInstanceId (e : InvalidInstanceId).

(** [From<BoxError>]: codec errors are recovered by downcast. *)
Definition from_box_error (e : BoxError) : RuntimeError :=
  match e with BoxCodec c => RCodec c | BoxOther msg => RTask msg end.

(** [is_decode_error]. *)
Definition is_decode_error (e : RuntimeError) : bool :=
  match e with RCodec (DecodeFailed _ _ _) => true | _ => false end.

(** [RuntimeError::to_string]: the [thiserror] messages; dates, durations and the
    messages of foreign error types are rendered by their own [Display]. *)
Class Display : Type := {
  show_datetime : DateTime → string;
  show_duration : Duration → string;
  show_codec_error : CodecError → string;
  show_build_errors : list BuildError → string;
  show_out_of_range : string         (* [chrono::OutOfRangeError] *)
}.

Section Messages.
Context `{Display}.

Definition opt_suffix (o : option string) : string :=
  match o with Some r => ": " +:+ r | None => EmptyString end.

Definition hash_display (t : TaskId) : string := to_hex (task_hash t).

Definition workflow_error_to_string (e : WF.WorkflowError) : string :=
  match e with
  | WF.TaskNotFound id => "Task '" +:+ id +:+ "' not found in registry"
  | WF.TaskNotImplemented id => "Task '" +:+ id +:+ "' has no implementation"
  | WF.DefinitionMismatch expected found =>
      "Workflow definition mismatch: expected hash '" +:+ to_hex (def_hash expected) +:+
      "', found '" +:+ to_hex (def_hash found) +:+ "'"
  | WF.Cancelled reason _ => "Workflow cancelled" +:+ opt_suffix reason
  | WF.Paused reason _ => "Workflow paused" +:+ opt_suffix reason
  | WF.EmptyFork => "Fork must have at least one branch"
  | WF.TaskPanicked msg => "Task panicked: " +:+ msg
  | WF.ResumeError msg => "Cannot resume workflow: " +:+ msg
  | WF.BranchNotFound name => "Branch '" +:+ name +:+ "' not found"
  | WF.BranchKeyNotFound branch_id key =>
      "Branch node '" +:+ branch_id +:+ "': no branch matches key '" +:+ key +:+ "'"
  | WF.Waiting wake_at => "Workflow waiting until " +:+ show_datetime wake_at
  | WF.TaskTimedOut task_id timeout =>
      "Task '" +:+ hash_display task_id +:+ "' timed out after " +:+ show_duration timeout
  | WF.AwaitingSignal signal_id signal_name _ =>
      "Workflow awaiting signal '" +:+ signal_name +:+ "' at node '" +:+ hash_display signal_id +:+ "'"
  | WF.MaxIterationsExceeded loop_id max_iterations =>
      "Loop '" +:+ hash_display loop_id +:+ "' exceeded max iterations (" +:+
      u_to_string max_iterations +:+ ")"
  end.

Definition backend_error_to_string (e : BackendError) : string :=
  match e with
  | NotFound id => "Snapshot not found: " +:+ id
  | Serialization msg => "Serialization error: " +:+ msg
  | BackendErr msg => "Backend error: " +:+ msg
  | CannotCancel st => "Cannot cancel workflow in state: " +:+ st
  | CannotPause st => "Cannot pause workflow in state: " +:+ st
  | ClaimLost msg => "Claim lost: " +:+ msg
  end.

Definition invalid_instance_id_to_string (e : InvalidInstanceId) : string :=
  match e with
  | Empty => "instance_id must not be empty"
  | TooLong len max =>
      "instance_id length " +:+ pretty (N.of_nat len) +:+ " exceeds maximum " +:+
      pretty (N.of_nat max) +:+ " bytes"
  end.

Definition error_to_string (e : RuntimeError) : string :=
  match e with
  | RWorkflow e => workflow_error_to_string e
  | RBuild errors => show_build_errors errors
  | RBackend e => backend_error_to_string e
  | RCodec e => show_codec_error e
  | RTask msg | RJoin msg => msg
  | InstanceAlreadyExists id => "Workflow instance already exists: " +:+ id
  | RInvalidInstanceId e => invalid_instance_id_to_string e
  end.
End Messages.

(** ** The world *)

Record World (B : Type) : Type := MkWorld { store : B; steps : nat }.
Arguments MkWorld {B}.
Arguments store {B}.
Arguments steps {B}.

(** The instants the clock shows, and the other clients of the backend. *)
Class Environment (B : Type) : Type := {
  clock : nat → DateTime;
  others : nat → B → B
}.

Section Effects.
Context {B : Type} `{Environment B}.

(** One reading of [Utc::now()]. *)
Definition read_clock {E} : io (World B) E DateTime := λ w,
  (Ok (clock (steps w)), MkWorld (store w) (S (steps w))).

(** One backend call: the others move first, then the call runs atomically. *)
Definition call {A} (op : DateTime → io B BackendError A) : io (World B) BackendError A := λ w,
  let '(r, b) := op (clock (steps w)) (others (steps w) (store w)) in
  (r, MkWorld b (S (steps w))).
End Effects.
Arguments call {B _ A} op w : simpl never.
