(* ===== verification/Lifecycle.v ===== *)
(** * Starting, resuming and finalizing a workflow

    [sayiir-persistence/src/lifecycle.rs] and [sayiir-runtime/src/execution/lifecycle.rs]:
    conflict policies, run preparation in both crates, resumption from a parked
    position ([helpers.rs]), the resume input, and finalization. *)

From S2P Require Import Prelude Hash32 Task Workflow Serializable Snapshot Backend InMemory Runtime.

(** ** Conflict policies ([workflow.rs]) *)

Module Conflict.
Inductive ConflictPolicy : Type := Fail | UseExisting | TerminateExisting.
#[global] Instance ConflictPolicy_eq_dec : EqDecision ConflictPolicy.
Proof. solve_decision. Defined.

(** [strum::EnumString]: the accepted spellings. *)
Definition from_str (s : string) : option ConflictPolicy :=
  if bool_decide (s = "fail") then Some Fail
  else if bool_decide (s = "use_existing" ∨ s = "useExisting") then Some UseExisting
  else if bool_decide (s = "terminate_existing" ∨ s = "terminateExisting") then Some TerminateExisting
  else None.

(** [ConflictPolicy::parse_optional]. *)
Definition parse_optional (s : option string) : result string ConflictPolicy :=
  match s with
  | None => Ok Fail
  | Some v => ok_or (from_str v) v
  end.
End Conflict.

Inductive PrepareRunOutcome : Type :=
| Fresh (snapshot : WorkflowSnapshot)
| ExistingStatus (status : Status.WorkflowStatus) (output : option Bytes).

Inductive RunConflict : Type :=
| RCInvalidInstanceId (e : InvalidInstanceId)
| RCAlreadyExists (id : string)
| RCDefinitionMismatch (expected found : DefinitionHash)
| RCBackend (e : BackendError).

(** [From<RunConflict> for RuntimeError]. *)
Definition from_run_conflict (e : RunConflict) : RuntimeError :=
  match e with
  | RCInvalidInstanceId e => RInvalidInstanceId e
  | RCAlreadyExists id => InstanceAlreadyExists id
  | RCDefinitionMismatch expected found => RWorkflow (WF.DefinitionMismatch expected found)
  | RCBackend e => RBackend e
  end.

(** Running a call and looking at its result, [match call.await { .. }]. *)
Definition try_io {S E A} (m : io S E A) {E'} : io S E' (result E A) := λ s,
  let '(r, s') := m s in (Ok r, s').

Section Lifecycle.
Context {B : Type} `{PersistentBackend B, Environment B}.

Abbreviation RunM E := (io (World B) E).

Definition rt {A} (m : io (World B) BackendError A) : RunM RuntimeError A := io_map_err RBackend m.

(** The tail both versions share: build the first snapshot and save it. *)
Definition start_fresh {E} (inj : BackendError → E) (id : string) (hash : DefinitionHash)
    (input : Bytes) (first_task : TaskHint) : RunM E PrepareRunOutcome :=
  now ← read_clock;
  let s := with_initial_input now id hash input in
  now ← read_clock;
  let s := update_position now (AtTask (hint_id first_task)) s in
  let s := set_task_hint first_task s in
  s ← io_map_err inj (call (λ _, save_snapshot s));
  mret (Fresh s).

(** [sayiir_persistence::prepare_run]. *)
Definition persistence_prepare_run (id : string) (hash : DefinitionHash) (input : Bytes)
    (first_task : TaskHint) (policy : Conflict.ConflictPolicy) : RunM RunConflict PrepareRunOutcome :=
  lift_result (map_err RCInvalidInstanceId (validate_instance_id id)) ≫= λ _,
  r ← try_io (call (λ _, load_snapshot id));
  match r with
  | Ok existing =>
      if bool_decide (snapshot_definition_hash existing ≠ hash)
      then throw (RCDefinitionMismatch hash (snapshot_definition_hash existing))
      else
        match policy with
        | Conflict.Fail => throw (RCAlreadyExists id)
        | Conflict.UseExisting =>
            mret (ExistingStatus (as_status (state existing)) (completed_output (state existing)))
        | Conflict.TerminateExisting =>
            io_map_err RCBackend (call (λ _, delete_snapshot id)) ≫= λ _,
            io_map_err RCBackend (call (λ _, clear_signal id Cancel)) ≫= λ _,
            io_map_err RCBackend (call (λ _, clear_signal id Pause)) ≫= λ _,
            start_fresh RCBackend id hash input first_task
        end
  | Err (NotFound _) => start_fresh RCBackend id hash input first_task
  | Err e => throw (RCBackend e)
  end.

(** [check_existing_instance] of the runtime. *)
Definition check_existing_instance (id : string) (hash : DefinitionHash)
    (policy : Conflict.ConflictPolicy) :
    RunM RuntimeError (option (Status.WorkflowStatus * option Bytes)) :=
  lift_result (map_err RInvalidInstanceId (validate_instance_id id)) ≫= λ _,
  if bool_decide (policy = Conflict.TerminateExisting) then mret None
  else
    r ← try_io (call (λ _, load_snapshot id));
    match r with
    | Ok existing =>
        if bool_decide (snapshot_definition_hash existing ≠ hash)
        then throw (RWorkflow (WF.DefinitionMismatch hash (snapshot_definition_hash existing)))
        else
          match policy with
          | Conflict.Fail => throw (InstanceAlreadyExists id)
          | _ => mret (Some (as_status (state existing), completed_output (state existing)))
          end
    | Err (NotFound _) => mret None
    | Err e => throw (RBackend e)
    end.

(** [prepare_run] of the runtime. *)
Definition prepare_run (id : string) (hash : DefinitionHash) (input : Bytes)
    (first_task : TaskHint) (policy : Conflict.ConflictPolicy) : RunM RuntimeError PrepareRunOutcome :=
  lift_result (map_err RInvalidInstanceId (validate_instance_id id)) ≫= λ _,
  if bool_decide (policy = Conflict.TerminateExisting) then
    r ← try_io (call (λ _, load_snapshot id));
    match r with
    | Ok _ =>
        rt (call (λ _, delete_snapshot id)) ≫= λ _,
        rt (call (λ _, clear_signal id Cancel)) ≫= λ _,
        rt (call (λ _, clear_signal id Pause)) ≫= λ _,
        start_fresh RBackend id hash input first_task
    | Err (NotFound _) => start_fresh RBackend id hash input first_task
    | Err e => throw (RBackend e)
    end
  else start_fresh RBackend id hash input first_task.

(** How a client starts a run: check first, then prepare. *)
Definition check_then_prepare (id : string) (hash : DefinitionHash) (input : Bytes)
    (first_task : TaskHint) (policy : Conflict.ConflictPolicy) : RunM RuntimeError PrepareRunOutcome :=
  early ← check_existing_instance id hash policy;
  match early with
  | Some (status, output) => mret (ExistingStatus status output)
  | None => prepare_run id hash input first_task policy
  end.

(** ** Guards ([helpers.rs]) *)

(** [check_guards]. *)
Definition check_guards (id : string) (cancel_scope : option TaskId) : RunM RuntimeError unit :=
  cancelled ← rt (call (λ now, check_and_cancel now id cancel_scope));
  if (cancelled : bool) then throw (RWorkflow WF.cancelled)
  else
    paused ← rt (call (λ now, check_and_pause now id));
    if (paused : bool) then throw (RWorkflow WF.paused) else mret ().

(** ** Parked positions ([helpers.rs]) *)

Inductive ParkedCheckResult : Type :=
| PCCancelled (status : Status.WorkflowStatus)
| PCPaused (status : Status.WorkflowStatus)
| StillWaiting (wake_at : DateTime) (node_id : TaskId)
| Expired.

(** [ParkedCheckResult::into_status]. *)
Definition into_status (r : ParkedCheckResult) : option Status.WorkflowStatus :=
  match r with
  | PCCancelled status | PCPaused status => Some status
  | StillWaiting wake_at node_id => Some (Status.Waiting wake_at node_id)
  | Expired => None
  end.

Definition cancelled_status (s : WorkflowSnapshot) : Status.WorkflowStatus :=
  let '(reason, by_) := default (None, None) (cancellation_details (state s)) in
  Status.Cancelled reason by_.
Definition paused_status (s : WorkflowSnapshot) : Status.WorkflowStatus :=
  let '(reason, by_) := default (None, None) (pause_details (state s)) in
  Status.Paused reason by_.

(** [check_parked_position]. *)
Definition check_parked_position (id : string) (node_id : TaskId) (wake_at : DateTime) :
    RunM RuntimeError ParkedCheckResult :=
  cancelled ← rt (call (λ now, check_and_cancel now id (Some node_id)));
  if (cancelled : bool) then
    s ← rt (call (λ _, load_snapshot id));
    mret (PCCancelled (cancelled_status s))
  else
    paused ← rt (call (λ now, check_and_pause now id));
    if (paused : bool) then
      s ← rt (call (λ _, load_snapshot id));
      mret (PCPaused (paused_status s))
    else
      now ← read_clock;
      if bool_decide (now < wake_at) then mret (StillWaiting wake_at node_id) else mret Expired.

Inductive ResumeParkedPosition : Type :=
| PDelay (wake_at : DateTime) (delay_id : TaskId) (next_task_id : option TaskId)
| PFork (wake_at : DateTime) (fork_id : TaskId)
| PSignal (signal_id : TaskId) (signal_name : string) (wake_at : option DateTime)
    (next_task_id : option TaskId)
| NotParked.

(** [ResumeParkedPosition::extract]. *)
Definition extract (s : WorkflowSnapshot) : ResumeParkedPosition :=
  match state s with
  | InProgress (AtDelay delay_id _ wake_at next_task_id) _ _ => PDelay wake_at delay_id next_task_id
  | InProgress (AtFork fork_id _ wake_at) _ _ => PFork wake_at fork_id
  | InProgress (AtSignal signal_id signal_name wake_at next_task_id) _ _ =>
      PSignal signal_id signal_name wake_at next_task_id
  | _ => NotParked
  end.

(** [snapshot.mark_completed(output)] at the time of the call. *)
Definition completed_now (output : Bytes) (s : WorkflowSnapshot) : RunM RuntimeError WorkflowSnapshot :=
  now ← read_clock; mret (mark_completed now output s).
Definition position_now (p : ExecutionPosition) (s : WorkflowSnapshot) : RunM RuntimeError WorkflowSnapshot :=
  now ← read_clock; mret (update_position now p s).
Definition task_completed_now (t : TaskId) (output : Bytes) (s : WorkflowSnapshot) :
    RunM RuntimeError WorkflowSnapshot :=
  now ← read_clock; mret (mark_task_completed now t output s).

(** Advance past a resolved park: to the next task, or to completion with
    [output]. *)
Definition advance (next_task_id : option TaskId) (output : WorkflowSnapshot → Bytes)
    (s : WorkflowSnapshot) : RunM RuntimeError (option Status.WorkflowStatus * WorkflowSnapshot) :=
  match next_task_id with
  | Some next_id =>
      s ← position_now (AtTask next_id) s;
      s ← rt (call (λ _, save_snapshot s));
      mret (None, s)
  | None =>
      s ← completed_now (output s) s;
      s ← rt (call (λ _, save_snapshot s));
      mret (Some Status.Completed, s)
  end.

(** [ResumeParkedPosition::resolve]; the snapshot is returned with the verdict. *)
Definition resolve (p : ResumeParkedPosition) (s : WorkflowSnapshot) (id : string) :
    RunM RuntimeError (option Status.WorkflowStatus * WorkflowSnapshot) :=
  match p with
  | NotParked => mret (None, s)
  | PDelay wake_at delay_id next_task_id =>
      result ← check_parked_position id delay_id wake_at;
      match into_status result with
      | Some status => mret (Some status, s)
      | None => advance next_task_id (λ s, default [] (get_task_result_bytes delay_id s)) s
      end
  | PFork wake_at fork_id =>
      result ← check_parked_position id fork_id wake_at;
      match into_status result with
      | Some status => mret (Some status, s)
      | None => mret (None, s)
      end
  | PSignal signal_id signal_name wake_at next_task_id =>
      cancelled ← rt (call (λ now, check_and_cancel now id (Some signal_id)));
      if (cancelled : bool) then
        snap ← rt (call (λ _, load_snapshot id));
        mret (Some (cancelled_status snap), s)
      else
        paused ← rt (call (λ now, check_and_pause now id));
        if (paused : bool) then
          snap ← rt (call (λ _, load_snapshot id));
          mret (Some (paused_status snap), s)
        else
          payload ← rt (call (λ _, consume_event id signal_name));
          match payload with
          | Some payload =>
              s ← task_completed_now signal_id payload s;
              advance next_task_id (λ s, default [] (get_task_result_bytes signal_id s)) s
          | None =>
              (* [Utc::now()] is read only when a timeout is set *)
              expired ← (match wake_at with
                         | Some wt => now ← read_clock; mret (bool_decide (wt ≤ now))
                         | None => mret false
                         end : RunM RuntimeError bool);
              if (expired : bool) then
                s ← task_completed_now signal_id [] s;
                advance next_task_id (λ _, []) s
              else mret (Some (Status.AwaitingSignal signal_id signal_name wake_at), s)
          end
  end.

(** ** Resuming *)

Inductive ResumeOutcome : Type :=
| Ready (snapshot : WorkflowSnapshot) (input_bytes : Bytes)
| AlreadyTerminal (status : Status.WorkflowStatus)
| ResumePaused (status : Status.WorkflowStatus)
| NotReady (status : Status.WorkflowStatus).

(** [get_resume_input]. *)
Definition get_resume_input (s : WorkflowSnapshot) : result RuntimeError Bytes :=
  match state s with
  | InProgress _ completed_tasks _ =>
      if bool_decide (completed_tasks = ∅) then
        ok_or (initial_input s)
          (RWorkflow (WF.ResumeError "no completed tasks and initial input not stored"))
      else ok_or (get_last_task_output s) (RWorkflow (WF.ResumeError "no task results available"))
  | _ => Err (RWorkflow (WF.ResumeError "workflow not in progress"))
  end.

(** [prepare_resume]. *)
Definition prepare_resume (id : string) (hash : DefinitionHash) : RunM RuntimeError ResumeOutcome :=
  lift_result (map_err RInvalidInstanceId (validate_instance_id id)) ≫= λ _,
  s ← rt (call (λ _, load_snapshot id));
  if bool_decide (snapshot_definition_hash s ≠ hash) then
    throw (RWorkflow (WF.DefinitionMismatch hash (snapshot_definition_hash s)))
  else
    match as_terminal_status (state s) with
    | Some status => mret (if is_paused (state s) then ResumePaused status else AlreadyTerminal status)
    | None =>
        vs ← resolve (extract s) s id;
        match vs with
        | (Some status, _) => mret (NotReady status)
        | (None, s) =>
            input_bytes ← lift_result (get_resume_input s);
            mret (Ready s input_bytes)
        end
    end.

(** ** Finalizing *)

(** [finalize_execution]; the caller's snapshot is returned with the status. *)
Definition finalize_execution `{Display} (r : result RuntimeError Bytes) (s : WorkflowSnapshot) :
    RunM RuntimeError (Status.WorkflowStatus * option Bytes * WorkflowSnapshot) :=
  match r with
  | Ok output =>
      s ← completed_now output s;
      s ← rt (call (λ _, save_snapshot s));
      mret (Status.Completed, Some output, s)
  | Err (RWorkflow (WF.Waiting wake_at)) =>
      let delay_id :=
        match state s with
        | InProgress (AtDelay delay_id _ _ _) _ _ => delay_id
        | InProgress (AtFork fork_id _ _) _ _ => fork_id
        | _ => TaskId_default
        end in
      mret (Status.Waiting wake_at delay_id, None, s)
  | Err (RWorkflow (WF.AwaitingSignal signal_id signal_name wake_at)) =>
      mret (Status.AwaitingSignal signal_id signal_name wake_at, None, s)
  | Err (RWorkflow (WF.Cancelled _ _)) =>
      r ← try_io (call (λ _, load_snapshot (instance_id s)));
      mret (match r with Ok c => cancelled_status c | Err _ => Status.Cancelled None None end, None, s)
  | Err (RWorkflow (WF.Paused _ _)) =>
      r ← try_io (call (λ _, load_snapshot (instance_id s)));
      mret (match r with Ok p => paused_status p | Err _ => Status.Paused None None end, None, s)
  | Err e =>
      now ← read_clock;
      let s := mark_failed now (error_to_string e) s in
      r ← try_io (call (λ _, save_snapshot s));
      mret (Status.Failed (error_to_string e), None, match r with Ok s => s | Err _ => s end)
  end.
End Lifecycle.

(** ** Properties of run preparation, on the in-memory backend *)

Section PrepareRun.
Context `{Environment InMemoryBackend} (quiet : ∀ n b, others n b = b).

Abbreviation W := (World InMemoryBackend).

(** Symbolic execution of the monad, one effect at a time. *)
Lemma bind_call {E A C} (inj : BackendError → E) (op : DateTime → io InMemoryBackend BackendError A)
    (k : A → io W E C) (w : W) :
  (io_map_err inj (call op) ≫= k) w =
  match op (clock (steps w)) (store w) with
  | (Ok a, b) => k a (MkWorld b (S (steps w)))
  | (Err e, b) => (Err (inj e), MkWorld b (S (steps w)))
  end.
Proof.
  unfold mbind, io_bind, io_map_err, call. rewrite quiet. by destruct (op _ _) as [[] ?].
Qed.

Lemma bind_try_call {E A C} (op : DateTime → io InMemoryBackend BackendError A)
    (k : result BackendError A → io W E C) (w : W) :
  (try_io (call op) ≫= k) w =
  let '(r, b) := op (clock (steps w)) (store w) in k r (MkWorld b (S (steps w))).
Proof. unfold mbind, io_bind, try_io, call. rewrite quiet. by destruct (op _ _) as [[] ?]. Qed.

Lemma bind_clock {E C} (k : DateTime → io W E C) (w : W) :
  (read_clock ≫= k) w = k (clock (steps w)) (MkWorld (store w) (S (steps w))).
Proof. done. Qed.

(** The snapshot a fresh run starts from, at step [n]. *)
Definition first_snapshot (n : nat) (id : string) (hash : DefinitionHash) (input : Bytes)
    (first_task : TaskHint) : WorkflowSnapshot :=
  set_task_hint first_task
    (update_position (clock (S n)) (AtTask (hint_id first_task))
      (with_initial_input (clock n) id hash input)).

Lemma start_fresh_eq {E} (inj : BackendError → E) id hash input first_task (w : W) :
  let s := first_snapshot (steps w) id hash input first_task in
  start_fresh inj id hash input first_task w =
  (Ok (Fresh s), MkWorld (with_snapshots (<[id := s]> (snapshots (store w))) (store w))
    (S (S (S (steps w))))).
Proof.
  intros s. unfold start_fresh. rewrite !bind_clock, bind_call. done.
Qed.

(** What terminating an instance leaves of the store. *)
Definition terminated (id : string) (b : InMemoryBackend) : InMemoryBackend :=
  remove_signal id Pause (remove_signal id Cancel (mem_delete_snapshot id b).2).

(** The specification of starting a run, as a function of the store. *)
Definition run_spec (id : string) (hash : DefinitionHash) (input : Bytes) (first_task : TaskHint)
    (policy : Conflict.ConflictPolicy) (w : W) : result RunConflict PrepareRunOutcome * InMemoryBackend :=
  let b := store w in
  match validate_instance_id id with
  | Err e => (Err (RCInvalidInstanceId e), b)
  | Ok _ =>
      match snapshots b !! id with
      | None =>
          let s := first_snapshot (S (steps w)) id hash input first_task in
          (Ok (Fresh s), with_snapshots (<[id := s]> (snapshots b)) b)
      | Some existing =>
          if bool_decide (snapshot_definition_hash existing = hash) then
            match policy with
            | Conflict.Fail => (Err (RCAlreadyExists id), b)
            | Conflict.UseExisting =>
                (Ok (ExistingStatus (as_status (state existing)) (completed_output (state existing))), b)
            | Conflict.TerminateExisting =>
                let s := first_snapshot (4 + steps w) id hash input first_task in
                let b := terminated id b in
                (Ok (Fresh s), with_snapshots (<[id := s]> (snapshots b)) b)
            end
          else (Err (RCDefinitionMismatch hash (snapshot_definition_hash existing)), b)
      end
  end.

Lemma persistence_prepare_run_eq id hash input first_task policy (w : W) :
  let '(r, w') := persistence_prepare_run id hash input first_task policy w in
  (r, store w') = run_spec id hash input first_task policy w.
Proof.
  unfold persistence_prepare_run, run_spec, lift_result.
  unfold mbind at 1, io_bind at 1. destruct (validate_instance_id id) as [u|e]; cbn; [|done].
  rewrite bind_try_call. cbn. unfold mem_load_snapshot.
  destruct (snapshots (store w) !! id) as [s|] eqn:Hs; cbn; [|by rewrite start_fresh_eq].
  destruct (decide (snapshot_definition_hash s = hash)) as [Hh|Hh].
  - rewrite bool_decide_false, bool_decide_true by tauto. destruct policy; cbn; [done|done|].
    rewrite bind_call. cbn. unfold terminated, mem_delete_snapshot. rewrite Hs.
    rewrite bind_call. cbn. rewrite bind_call. cbn. rewrite start_fresh_eq. done.
  - by rewrite bool_decide_true, bool_decide_false by tauto.
Qed.

Lemma bind_lift {E A C} (r : result E A) (k : A → io W E C) (w : W) :
  (lift_result r ≫= k) w = match r with Ok a => k a w | Err e => (Err e, w) end.
Proof. by destruct r. Qed.

Lemma io_bind_run {E A C} (m : io W E A) (k : A → io W E C) (w : W) :
  (m ≫= k) w = match m w with (Ok a, w) => k a w | (Err e, w) => (Err e, w) end.
Proof. done. Qed.

Lemma check_then_prepare_eq id hash input first_task policy (w : W) :
  (policy = Conflict.TerminateExisting →
    ∀ s, snapshots (store w) !! id = Some s → snapshot_definition_hash s = hash) →
  let '(r, w') := check_then_prepare id hash input first_task policy w in
  r = map_err from_run_conflict (run_spec id hash input first_task policy w).1 ∧
  store w' = (run_spec id hash input first_task policy w).2.
Proof.
  intros Hterm. unfold check_then_prepare. rewrite io_bind_run.
  unfold check_existing_instance, prepare_run, run_spec. rewrite bind_lift.
  destruct (validate_instance_id id) as [u|e] eqn:Hid; cbn; [|done].
  destruct (decide (policy = Conflict.TerminateExisting)) as [->|Hp].
  - specialize (Hterm eq_refl). rewrite bool_decide_true by done. cbn. rewrite bind_lift. cbn.
    rewrite bind_try_call. cbn. unfold mem_load_snapshot.
    destruct (snapshots (store w) !! id) as [s|] eqn:Hs; cbn; [|by rewrite start_fresh_eq].
    rewrite bool_decide_true by auto. cbn. unfold rt. rewrite bind_call. cbn.
    unfold terminated, mem_delete_snapshot. rewrite Hs.
    rewrite bind_call. cbn. rewrite bind_call. cbn. rewrite start_fresh_eq. done.
  - rewrite (bool_decide_false (policy = _)) by done. rewrite bind_try_call. cbn. unfold mem_load_snapshot.
    destruct (snapshots (store w) !! id) as [s|] eqn:Hs; cbn.
    + destruct (decide (snapshot_definition_hash s = hash)) as [Hh|Hh].
      * rewrite bool_decide_false, bool_decide_true by tauto. by destruct policy.
      * by rewrite bool_decide_true, bool_decide_false by tauto.
    + rewrite bind_lift. cbn. rewrite start_fresh_eq. done.
Qed.

(** Terminating an instance of another definition: the persistence version
    refuses, the runtime version deletes it and starts. *)
Lemma terminate_mismatch id hash input first_task (w : W) s :
  validate_instance_id id = Ok () → snapshots (store w) !! id = Some s →
  snapshot_definition_hash s ≠ hash →
  (check_then_prepare id hash input first_task Conflict.TerminateExisting w).1 =
    Ok (Fresh (first_snapshot (4 + steps w) id hash input first_task)) ∧
  (persistence_prepare_run id hash input first_task Conflict.TerminateExisting w).1 =
    Err (RCDefinitionMismatch hash (snapshot_definition_hash s)).
Proof.
  intros Hid Hs Hh. split.
  - unfold check_then_prepare. rewrite io_bind_run. unfold check_existing_instance, prepare_run.
    rewrite bind_lift, Hid. cbn. rewrite (bool_decide_true (Conflict.TerminateExisting = _)) by done.
    cbn. rewrite bind_lift. cbn. rewrite bind_try_call. cbn.
    unfold mem_load_snapshot. rewrite Hs. cbn. unfold rt. rewrite bind_call. cbn.
    unfold mem_delete_snapshot. rewrite Hs. rewrite bind_call. cbn. rewrite bind_call. cbn.
    by rewrite start_fresh_eq.
  - pose proof (persistence_prepare_run_eq id hash input first_task Conflict.TerminateExisting w) as He.
    unfold run_spec in He. rewrite Hid, Hs, bool_decide_false in He by done.
    destruct (persistence_prepare_run _ _ _ _ _ w). by injection He as -> _.
Qed.
End PrepareRun.

(** ** Properties *)

(** Starting a run on a quiet backend does what the conflict policy documents,
    on every branch: a bad id, another definition's instance, an existing
    instance under [Fail] and under [UseExisting] leave the store untouched and are
    reported as such; under [TerminateExisting] the old instance and its pending
    cancel and pause are gone; a fresh run stores exactly the returned snapshot,
    at the first task, with the input and that task's priority and tags. *)
Theorem prepare_run_spec `{Environment InMemoryBackend} (id : string) (hash : DefinitionHash)
    (input : Bytes) (first_task : TaskHint) (policy : Conflict.ConflictPolicy) (w : World InMemoryBackend) :
  (∀ n b, others n b = b) →
  let '(r, w') := persistence_prepare_run id hash input first_task policy w in
  (r, store w') = run_spec id hash input first_task policy w.
Proof. intros quiet. by apply persistence_prepare_run_eq. Qed.

(** The runtime's two-step start ([check_existing_instance], then
    [prepare_run]) agrees with the persistence crate's one-step [prepare_run] in
    result and store, on every policy and every store, except that it does not
    check the definition hash under [TerminateExisting]: there it deletes an
    instance of another definition, which the other version refuses to touch. *)
Theorem runtime_start_equivalent `{Environment InMemoryBackend} (id : string) (hash : DefinitionHash)
    (input : Bytes) (first_task : TaskHint) (policy : Conflict.ConflictPolicy) (w : World InMemoryBackend) :
  (∀ n b, others n b = b) →
  ((policy = Conflict.TerminateExisting →
      ∀ s, snapshots (store w) !! id = Some s → snapshot_definition_hash s = hash) →
    let '(r, w') := check_then_prepare id hash input first_task policy w in
    let '(r0, w0) := persistence_prepare_run id hash input first_task policy w in
    r = map_err from_run_conflict r0 ∧ store w' = store w0) ∧
  (∀ s, validate_instance_id id = Ok () → snapshots (store w) !! id = Some s →
    snapshot_definition_hash s ≠ hash →
    (check_then_prepare id hash input first_task Conflict.TerminateExisting w).1 =
      Ok (Fresh (first_snapshot (4 + steps w) id hash input first_task)) ∧
    (persistence_prepare_run id hash input first_task Conflict.TerminateExisting w).1 =
      Err (RCDefinitionMismatch hash (snapshot_definition_hash s))).
Proof.
  intros quiet. split.
  - intros Hterm. pose proof (check_then_prepare_eq quiet id hash input first_task policy w Hterm) as Hc.
    pose proof (persistence_prepare_run_eq quiet id hash input first_task policy w) as Hp.
    destruct (check_then_prepare _ _ _ _ _ w) as [r w'].
    destruct (persistence_prepare_run _ _ _ _ _ w) as [r0 w0]. rewrite <-Hp in Hc. exact Hc.
  - intros s. by apply terminate_mismatch.
Qed.

(** ** Witnesses *)

Module LifecycleExample.
#[export] Instance env : Environment InMemoryBackend :=
  {| clock n := Z.of_nat n; others _ b := b |}.

Definition w0 : World InMemoryBackend := MkWorld backend_new 0.
Definition hint : TaskHint := MkTaskHint TaskId_default (Some 2) [].

Lemma prepare_run_spec_witness :
  let '(r, w') := persistence_prepare_run "i" DefinitionHash_default [x01] hint Conflict.Fail w0 in
  (r, store w') = run_spec "i" DefinitionHash_default [x01] hint Conflict.Fail w0.
Proof. apply prepare_run_spec. reflexivity. Defined.

Lemma runtime_start_equivalent_witness :
  let '(r, w') := check_then_prepare "i" DefinitionHash_default [x01] hint Conflict.Fail w0 in
  let '(r0, w1) := persistence_prepare_run "i" DefinitionHash_default [x01] hint Conflict.Fail w0 in
  r = map_err from_run_conflict r0 ∧ store w' = store w1.
Proof.
  apply (runtime_start_equivalent "i" DefinitionHash_default [x01] hint Conflict.Fail w0);
    [reflexivity|discriminate].
Defined.
End LifecycleExample.
