(* ===== verification/SyncExec.v ===== *)
(** * The plain executors ([sayiir-runtime/src/execution/executors.rs])

    [execute_continuation_sync] and [execute_async_inner], with the helpers all
    executors share: routing ([helpers.rs]), joins ([fork.rs]) and loop iterations
    ([loop_runner.rs]).  User code is a parameter: the task callback may answer
    differently at each call, so it takes the number of the call.  The [backon]
    retry combinator, tokio's timeout and join order, the envelope codec and
    [serde_json] are parameters too.

    The executors are total: each node is visited through the structure of the
    tree, and a loop of [max_iterations] runs its body at most that often. *)

From S2P Require Import Prelude Hash32 SnapshotFormat Task Workflow Serializable Snapshot Backend Runtime.
Export LoopEnvelope.

(** ** Codecs *)

(** [codec::EnvelopeCodec]. *)
Class EnvelopeCodec : Type := {
  decode_string : Bytes → result BoxError string;
  encode_branch_envelope : string → Bytes → result BoxError Bytes;
  encode_named_results : list (string * Bytes) → result BoxError Bytes
}.

(** What the loop runner uses of [serde_json]. *)
Class SerdeJson : Type := {
  Value : Type;
  from_slice : Bytes → result BoxError Value;
  json_get : string → Value → option Value;
  as_str : Value → option string;
  to_vec : Value → result BoxError Bytes
}.

(** ** Loop iterations ([loop_runner.rs]) *)

Section LoopResolution.
Context `{Sha256, SerdeJson}.

(** The messages of [codec::decode_loop_envelope]; [{tag:#04x}] is two hex digits. *)
Definition envelope_error (e : EnvelopeError) : BoxError :=
  match e with
  | EmptyEnvelope => BoxOther "empty loop envelope"
  | InvalidTag tag =>
      BoxOther ("invalid loop envelope tag: 0x" +:+ String.string_of_list_byte (hex_byte tag))
  end.

(** [LoopDecision::from_str] (snake case). *)
Definition parse_decision (tag : string) : option LoopDecision :=
  if bool_decide (tag = "again") then Some Again
  else if bool_decide (tag = "done") then Some Done
  else None.

(** [loop_runner::decode_loop_envelope]: binary, or JSON from the bindings. *)
Definition decode_any_envelope (bytes : Bytes) : result BoxError (LoopDecision * Bytes) :=
  match bytes with
  | [] => Err (BoxOther "empty loop envelope")
  | x00 :: _ | x01 :: _ => map_err envelope_error (decode_loop_envelope bytes)
  | _ =>
      v ← from_slice bytes;
      tag ← ok_or (json_get "_loop" v ≫= as_str)
        (BoxOther "missing or invalid '_loop' tag in LoopResult JSON");
      decision ← ok_or (parse_decision tag) (BoxOther ("unknown loop decision tag: '" +:+ tag +:+ "'"));
      inner ← ok_or (json_get "value" v) (BoxOther "missing 'value' field in LoopResult JSON");
      out ← to_vec inner;
      Ok (decision, out)
  end.

(** [LoopConfig]. *)
Record LoopConfig (F : Type) : Type := MkLoopConfig {
  cfg_id : string;
  cfg_body : WorkflowContinuation F;
  cfg_max_iterations : Z;          (* u32 *)
  cfg_on_max : MaxIterationsPolicy;
  cfg_start_iteration : Z          (* u32 *)
}.

(** [ControlFlow<LoopExit, LoopNext>]. *)
Inductive LoopFlow : Type := LoopExit (output : Bytes) | LoopNext (input : Bytes).

Definition max_iterations_exceeded (id : string) (max_iterations : Z) : RuntimeError :=
  RWorkflow (WF.MaxIterationsExceeded (TaskId_from id) max_iterations).

(** [resolve_loop_iteration]; [iteration < max_iterations] fits [u32], so the
    successor does not overflow. *)
Definition resolve_loop_iteration {F} (output : Bytes) (iteration : Z) (cfg : LoopConfig F) :
    result RuntimeError LoopFlow :=
  di ← map_err (λ e, RCodec (DecodeFailed (TaskId_from (cfg_id _ cfg)) "LoopEnvelope" e))
    (decode_any_envelope output);
  let '(decision, inner) := di in
  match decision with
  | Done => Ok (LoopExit inner)
  | Again =>
      if bool_decide (cfg_max_iterations _ cfg ≤ iteration + 1) then
        match cfg_on_max _ cfg with
        | Fail => Err (max_iterations_exceeded (cfg_id _ cfg) (cfg_max_iterations _ cfg))
        | ExitWithLast => Ok (LoopExit inner)
        end
      else Ok (LoopNext inner)
  end.
End LoopResolution.
Arguments MkLoopConfig {F}.
Arguments cfg_id {F}.
Arguments cfg_body {F}.
Arguments cfg_max_iterations {F}.
Arguments cfg_on_max {F}.
Arguments cfg_start_iteration {F}.

(** ** Routing ([helpers.rs]) and joins ([fork.rs]) *)

Section Routing.
Context `{Sha256, EnvelopeCodec} {F A : Type} (f : WorkflowContinuation F → A).

(** [branches.get(&key)], with what the caller does with the branch; keys are
    unique. *)
Fixpoint get_branch (key : string) (branches : list (string * WorkflowContinuation F)) : option A :=
  match branches with
  | [] => None
  | (k, b) :: branches => if bool_decide (k = key) then Some (f b) else get_branch key branches
  end.

(** [resolve_branch]; [f] is what the executor does with the chosen branch. *)
Definition resolve_branch (branch_id : string) (key_bytes : Bytes)
    (branches : list (string * WorkflowContinuation F)) (dflt : option (WorkflowContinuation F)) :
    result RuntimeError (string * A) :=
  key ← map_err (λ e, RCodec (DecodeFailed (TaskId_from branch_id) "String (branch key)" e))
    (decode_string key_bytes);
  chosen ← ok_or
    (match get_branch key branches with
     | Some b => Some b
     | None => match dflt with Some d => Some (f d) | None => None end
     end)
    (RWorkflow (WF.BranchKeyNotFound branch_id key));
  Ok (key, chosen).
End Routing.

(** [JoinResolution]; the join node to continue with is the fork's own. *)
Inductive JoinResolution : Type := JContinue (input : Bytes) | JDone (output : Bytes).

Section Joins.
Context `{EnvelopeCodec}.

(** [serialize_branch_results]. *)
Definition serialize_branch_results (branch_results : list (string * Bytes)) :
    result RuntimeError Bytes :=
  map_err from_box_error (encode_named_results branch_results).

(** [resolve_join]. *)
Definition resolve_join {F} (join : option (WorkflowContinuation F))
    (branch_results : list (string * Bytes)) : result RuntimeError JoinResolution :=
  match join with
  | Some _ => JContinue <$> serialize_branch_results branch_results
  | None => JDone <$> ok_or (snd <$> last branch_results) (RWorkflow WF.EmptyFork)
  end.
End Joins.

(** ** Retries ([backon]) *)

(** What the executors use of [backon]: the builder and the combinator that calls
    an operation again while it fails and the builder yields another delay. *)
Class Backon : Type := {
  ExponentialBuilder : Type;
  builder_default : ExponentialBuilder;
  with_min_delay : Duration → ExponentialBuilder → ExponentialBuilder;
  with_factor : f32 → ExponentialBuilder → ExponentialBuilder;
  with_max_times : Z → ExponentialBuilder → ExponentialBuilder;
  with_max_delay : Duration → ExponentialBuilder → ExponentialBuilder;
  without_max_delay : ExponentialBuilder → ExponentialBuilder;
  max_times : ExponentialBuilder → Z;
  retry : ∀ {St E A : Type}, ExponentialBuilder → io St E A → io St E A
}.

(** At most [n] more calls after the first, each only after a failure; the last
    error is the result. *)
Inductive attempted {St E A : Type} (m : io St E A) : nat → St → result E A → St → Prop :=
| AttemptOk n s a s' : m s = (Ok a, s') → attempted m n s (Ok a) s'
| AttemptLast s e s' : m s = (Err e, s') → attempted m 0 s (Err e) s'
| AttemptAgain n s e s1 r s' : m s = (Err e, s1) → attempted m n s1 r s' → attempted m (S n) s r s'.

(** Documented behaviour of [backon]. *)
Class BackonLaws `{Backon} : Prop := {
  max_times_set n b : max_times (with_max_times n b) = n;
  max_times_max_delay d b : max_times (with_max_delay d b) = max_times b;
  max_times_no_max_delay b : max_times (without_max_delay b) = max_times b;
  retry_attempts {St E A} b (m : io St E A) s :
    attempted m (Z.to_nat (max_times b)) s (retry b m s).1 (retry b m s).2
}.

(** [policy_to_backoff]. *)
Definition policy_to_backoff `{Backon} (policy : option RetryPolicy) : ExponentialBuilder :=
  match policy with
  | Some rp =>
      let builder := with_max_times (max_retries rp)
        (with_factor (backoff_multiplier rp) (with_min_delay (initial_delay rp) builder_default)) in
      match max_delay rp with
      | Some max => with_max_delay max builder
      | None => without_max_delay builder
      end
  | None => with_max_times 0 builder_default
  end.

Lemma policy_to_backoff_times `{BackonLaws} (policy : option RetryPolicy) :
  max_times (policy_to_backoff policy) = match policy with Some rp => max_retries rp | None => 0 end.
Proof.
  destruct policy as [rp|]; cbn; [|apply max_times_set].
  destruct (max_delay rp); rewrite ?max_times_max_delay, ?max_times_no_max_delay; apply max_times_set.
Qed.

(** ** The synchronous executor *)

(** [execute_task]: the caller's callback, asked for the [n]-th time. *)
Class TaskCallback : Type := run_task : nat → string → Bytes → result BoxError Bytes.

Definition execute_task `{TaskCallback} (id : string) (input : Bytes) : io nat BoxError Bytes :=
  λ n, (run_task n id input, S n).

Section Combinators.
Context {F S E : Type}.

(** [for branch in branches { results.push((branch.id(), run(branch)?)) }]. *)
Section Branches.
Context (run : WorkflowContinuation F → io S E Bytes).
Fixpoint run_branches (branches : list (WorkflowContinuation F)) : io S E (list (string * Bytes)) :=
  match branches with
  | [] => mret []
  | branch :: branches =>
      output ← run branch;
      results ← run_branches branches;
      mret ((cont_id branch, output) :: results)
  end.
End Branches.

(** [for iteration in iteration..iteration + n] of the synchronous loop: the exit
    value, or [None] when the range is exhausted. *)
Section SyncLoop.
Context `{Sha256, SerdeJson} (inj : RuntimeError → E).
Context (cfg : LoopConfig F) (execute_body : Bytes → io S E Bytes).
Fixpoint sync_loop (n : nat) (iteration : Z) (loop_input : Bytes) : io S E (option Bytes) :=
  match n with
  | O => mret None
  | Datatypes.S n =>
      output ← execute_body loop_input;
      flow ← lift_result (map_err inj (resolve_loop_iteration output iteration cfg));
      match flow with
      | LoopExit inner => mret (Some inner)
      | LoopNext inner => sync_loop n (iteration + 1) inner
      end
  end.
End SyncLoop.

(** [LoopHooks]: what a durable executor does around the iterations. *)
Record LoopHooks : Type := MkLoopHooks {
  clear_body_tasks : WorkflowContinuation F → io S E unit;
  on_loop_exit : string → Bytes → io S E unit;
  on_iteration_progress : string → Z → WorkflowContinuation F → io S E unit
}.
Definition NoHooks : LoopHooks :=
  MkLoopHooks (λ _, mret ()) (λ _ _, mret ()) (λ _ _ _, mret ()).

(** [run_loop_async]: the range of its [for], then the loop. *)
Section AsyncLoop.
Context `{Sha256, SerdeJson} (inj : RuntimeError → E) (hooks : LoopHooks).
Context (cfg : LoopConfig F) (execute_body : Bytes → io S E Bytes).
Fixpoint async_loop (n : nat) (iteration : Z) (loop_input : Bytes) : io S E Bytes :=
  match n with
  | O => throw (inj (max_iterations_exceeded (cfg_id cfg) (cfg_max_iterations cfg)))
  | Datatypes.S n =>
      output ← execute_body loop_input;
      clear_body_tasks hooks (cfg_body cfg) ≫= λ _,
      flow ← lift_result (map_err inj (resolve_loop_iteration output iteration cfg));
      match flow with
      | LoopExit inner => on_loop_exit hooks (cfg_id cfg) inner ≫= λ _, mret inner
      | LoopNext inner =>
          on_iteration_progress hooks (cfg_id cfg) (iteration + 1) (cfg_body cfg) ≫= λ _,
          async_loop n (iteration + 1) inner
      end
  end.

Definition run_loop_async (initial_input : Bytes) : io S E Bytes :=
  async_loop (Z.to_nat (cfg_max_iterations cfg - cfg_start_iteration cfg))
    (cfg_start_iteration cfg) initial_input.
End AsyncLoop.
End Combinators.
Arguments LoopHooks : clear implicits.

Section Sync.
Context `{Sha256, SerdeJson, EnvelopeCodec, Backon, TaskCallback} {F : Type}.

Abbreviation Sync := (io nat RuntimeError).

(** [current = next] with a new input, or the return. *)
Definition proceed {S E} (run : WorkflowContinuation F → Bytes → io S E Bytes)
    (next : option (WorkflowContinuation F)) (output : Bytes) : io S E Bytes :=
  match next with Some n => run n output | None => mret output end.

(** [execute_continuation_sync]. *)
Fixpoint execute_continuation_sync (c : WorkflowContinuation F) (input : Bytes) {struct c} : Sync Bytes :=
  match c with
  | Task id _ _ retry_policy _ _ _ next =>
      output ← io_map_err from_box_error
        (retry (policy_to_backoff retry_policy) (execute_task id input));
      proceed execute_continuation_sync next output
  | Fork _ branches join =>
      branch_results ← run_branches (λ b, execute_continuation_sync b input) branches;
      resolution ← lift_result (resolve_join join branch_results);
      match resolution with
      | JContinue input => proceed execute_continuation_sync join input
      | JDone output => mret output
      end
  | Delay _ _ next => proceed execute_continuation_sync next input
  | AwaitSignal id _ _ _ =>
      throw (RWorkflow (WF.ResumeError ("AwaitSignal '" +:+ id +:+ "' not supported in sync executor")))
  | Branch id _ branches dflt next =>
      key_bytes ← io_map_err from_box_error (execute_task (key_fn_id id) input);
      chosen ← lift_result
        (resolve_branch (λ b, execute_continuation_sync b input) id key_bytes branches dflt);
      branch_output ← chosen.2;
      envelope_bytes ← lift_result (map_err from_box_error (encode_branch_envelope chosen.1 branch_output));
      proceed execute_continuation_sync next envelope_bytes
  | Loop id body max_iterations on_max next =>
      let cfg := MkLoopConfig id body max_iterations on_max 0 in
      final ← sync_loop (λ e, e) cfg (execute_continuation_sync body)
        (Z.to_nat max_iterations) 0 input;
      match final with
      | Some inner => proceed execute_continuation_sync next inner
      | None => throw (max_iterations_exceeded id max_iterations)
      end
  | ChildWorkflow _ child next =>
      output ← execute_continuation_sync child input;
      proceed execute_continuation_sync next output
  end.
End Sync.

(** ** The asynchronous executor *)

(** The tasks' own functions, the runtime's timer and scheduler: the [n]-th call
    answers [run_func n], finishes within [d] iff [timely n d], and
    [finish_order] is the order in which the spawned branches finish. *)
Class AsyncRuntime (F : Type) : Type := {
  run_func : nat → F → Bytes → result BoxError Bytes;
  timely : nat → Duration → bool;
  finish_order : ∀ {A}, nat → list A → list A
}.
Class AsyncRuntimeLaws (F : Type) `{AsyncRuntime F} : Prop :=
  finish_order_perm : ∀ {A} n (l : list A), finish_order n l ≡ₚ l.

Section Async.
Context `{Sha256, SerdeJson, EnvelopeCodec, Backon} {F : Type} `{AsyncRuntime F}.

Abbreviation Async := (io nat RuntimeError).

Definition call_func (func : F) (input : Bytes) : Async Bytes := λ n,
  (map_err from_box_error (run_func n func input), S n).

(** [run_task_with_retry]. *)
Definition run_task_with_retry (id : string) (input : Bytes) (func : F) (timeout : option Duration)
    (retry_policy : option RetryPolicy) : Async Bytes :=
  retry (policy_to_backoff retry_policy)
    (match timeout with
     | Some d => λ n,
         if timely n d then call_func func input n
         else (Err (RWorkflow (WF.TaskTimedOut (TaskId_from id) d)), S n)
     | None => call_func func input
     end).

(** [set.spawn] for every branch, each with its own result. *)
Section Spawn.
Context (run : WorkflowContinuation F → Async Bytes).
Fixpoint spawn_branches (branches : list (WorkflowContinuation F)) :
    nat → list (result RuntimeError (string * Bytes)) * nat :=
  match branches with
  | [] => λ n, ([], n)
  | branch :: branches => λ n,
      let '(r, n) := run branch n in
      let '(rs, n) := spawn_branches branches n in
      ((pair (cont_id branch) <$> r) :: rs, n)
  end.

(** The [JoinSet]: results in the order in which the branches finish; the first
    error in that order is returned. *)
Definition join_set (branches : list (WorkflowContinuation F)) : Async (list (string * Bytes)) := λ n,
  let '(rs, n) := spawn_branches branches n in
  (result_collect (finish_order n rs), n).
End Spawn.

(** [execute_async_inner]. *)
Fixpoint execute_async_inner (c : WorkflowContinuation F) (input : Bytes) (parallel_branches : bool)
    {struct c} : Async Bytes :=
  match c with
  | Task id (Some func) timeout retry_policy _ _ _ next =>
      output ← run_task_with_retry id input func timeout retry_policy;
      proceed (λ n i, execute_async_inner n i parallel_branches) next output
  | Task id None _ _ _ _ _ _ => throw (RWorkflow (WF.TaskNotImplemented id))
  | Delay _ _ next => proceed (λ n i, execute_async_inner n i parallel_branches) next input
  | AwaitSignal id _ _ _ =>
      throw (RWorkflow (WF.ResumeError
        ("AwaitSignal '" +:+ id +:+ "' not supported in non-durable async executor")))
  | Branch id (Some key_fn) branches dflt next =>
      key_bytes ← call_func key_fn input;
      chosen ← lift_result
        (resolve_branch (λ b, execute_async_inner b input false) id key_bytes branches dflt);
      branch_output ← chosen.2;
      envelope_bytes ← lift_result (map_err from_box_error (encode_branch_envelope chosen.1 branch_output));
      proceed (λ n i, execute_async_inner n i parallel_branches) next envelope_bytes
  | Branch id None _ _ _ => throw (RWorkflow (WF.TaskNotImplemented (key_fn_id id)))
  | Loop id body max_iterations on_max next =>
      let cfg := MkLoopConfig id body max_iterations on_max 0 in
      output ← run_loop_async (λ e, e) NoHooks cfg (λ i, execute_async_inner body i false) input;
      proceed (λ n i, execute_async_inner n i parallel_branches) next output
  | ChildWorkflow _ child next =>
      output ← execute_async_inner child input false;
      proceed (λ n i, execute_async_inner n i parallel_branches) next output
  | Fork _ branches join =>
      branch_results ←
        (if parallel_branches && bool_decide (1 < length branches)%nat
         then join_set (λ b, execute_async_inner b input false) branches
         else run_branches (λ b, execute_async_inner b input false) branches);
      resolution ← lift_result (resolve_join join branch_results);
      match resolution with
      | JContinue input => proceed (λ n i, execute_async_inner n i parallel_branches) join input
      | JDone output => mret output
      end
  end.

(** [execute_continuation_async]. *)
Definition execute_continuation_async (c : WorkflowContinuation F) (input : Bytes) : Async Bytes :=
  execute_async_inner c input true.
End Async.

(** ** What a workflow means

    The specification all executors are measured against: which outputs a tree has
    on an input, for tasks that compute a function [f] of their id and input.
    [R] relates the results of a fork's branches, in branch order, to the list the
    join sees. *)

Section Spec.
Context `{Sha256, SerdeJson, EnvelopeCodec} {F : Type}.
Context (f : string → Bytes → result BoxError Bytes).
Context (R : list (string * Bytes) → list (string * Bytes) → Prop).

Definition choose (key : string) (branches : list (string * WorkflowContinuation F))
    (dflt : option (WorkflowContinuation F)) : option (WorkflowContinuation F) :=
  match get_branch (λ b, b) key branches with Some b => Some b | None => dflt end.

Inductive evaluates : WorkflowContinuation F → Bytes → Bytes → Prop :=
| EvTask id fn t r v p tg next i o res :
    f id i = Ok o → continues next o res → evaluates (Task id fn t r v p tg next) i res
| EvForkJoin id bs j i rs rs' e res :
    all_evaluate bs i rs → R rs rs' → encode_named_results rs' = Ok e → evaluates j e res →
    evaluates (Fork id bs (Some j)) i res
| EvForkLast id bs i rs rs' k o :
    all_evaluate bs i rs → R rs rs' → last rs' = Some (k, o) → evaluates (Fork id bs None) i o
| EvDelay id d next i res : continues next i res → evaluates (Delay id d next) i res
| EvBranch id kf bs d next i kb key b o e res :
    f (key_fn_id id) i = Ok kb → decode_string kb = Ok key → choose key bs d = Some b →
    evaluates b i o → encode_branch_envelope key o = Ok e → continues next e res →
    evaluates (Branch id kf bs d next) i res
| EvLoop id body max pol next i o res :
    iterates body max pol 0 i o → continues next o res → evaluates (Loop id body max pol next) i res
| EvChild id child next i o res :
    evaluates child i o → continues next o res → evaluates (ChildWorkflow id child next) i res
with continues : option (WorkflowContinuation F) → Bytes → Bytes → Prop :=
| CoEnd o : continues None o o
| CoNext n o res : evaluates n o res → continues (Some n) o res
with all_evaluate : list (WorkflowContinuation F) → Bytes → list (string * Bytes) → Prop :=
| AllNil i : all_evaluate [] i []
| AllCons b bs i o rs :
    evaluates b i o → all_evaluate bs i rs → all_evaluate (b :: bs) i ((cont_id b, o) :: rs)
(** Iterations from [k] on: the body decides, [max] bounds, the policy settles. *)
with iterates : WorkflowContinuation F → Z → MaxIterationsPolicy → Z → Bytes → Bytes → Prop :=
| ItDone body max pol k i env o :
    k < max → evaluates body i env → decode_any_envelope env = Ok (Done, o) →
    iterates body max pol k i o
| ItLast body max k i env o :
    k + 1 = max → evaluates body i env → decode_any_envelope env = Ok (Again, o) →
    iterates body max ExitWithLast k i o
| ItAgain body max pol k i env i' o :
    k + 1 < max → evaluates body i env → decode_any_envelope env = Ok (Again, i') →
    iterates body max pol (k + 1) i' o → iterates body max pol k i o.

(** The rules read backwards. *)
Lemma continues_inv next o res :
  continues next o res ↔ match next with Some n => evaluates n o res | None => res = o end.
Proof.
  split; [by inversion 1|]. destruct next; [by constructor|]. intros ->. constructor.
Qed.

Lemma evaluates_task id fn t r v p tg next i res :
  evaluates (Task id fn t r v p tg next) i res ↔ ∃ o, f id i = Ok o ∧ continues next o res.
Proof. split; [inversion 1; eauto|]. intros (o & ? & ?). by econstructor. Qed.

Lemma evaluates_fork id bs j i res :
  evaluates (Fork id bs j) i res ↔
  ∃ rs', (∃ rs, all_evaluate bs i rs ∧ R rs rs') ∧
    match j with
    | Some j => ∃ e, encode_named_results rs' = Ok e ∧ evaluates j e res
    | None => ∃ k, last rs' = Some (k, res)
    end.
Proof.
  split; [inversion 1; subst; eauto 10|]. intros (rs' & (rs & ? & ?) & Hj). destruct j.
  - destruct Hj as (e & ? & ?). by eapply EvForkJoin.
  - destruct Hj as (k & ?). by eapply EvForkLast.
Qed.

Lemma evaluates_delay id d next i res : evaluates (Delay id d next) i res ↔ continues next i res.
Proof. split; [by inversion 1|]. by constructor. Qed.

Lemma evaluates_signal id n t next i res : ¬ evaluates (AwaitSignal id n t next) i res.
Proof. inversion 1. Qed.

Lemma evaluates_branch id kf bs d next i res :
  evaluates (Branch id kf bs d next) i res ↔
  ∃ kb, f (key_fn_id id) i = Ok kb ∧ ∃ key, decode_string kb = Ok key ∧
  ∃ b, choose key bs d = Some b ∧ ∃ o, evaluates b i o ∧
  ∃ e, encode_branch_envelope key o = Ok e ∧ continues next e res.
Proof.
  split; [inversion 1; subst; eauto 20|].
  intros (kb & ? & key & ? & b & ? & o & ? & e & ? & ?). by eapply EvBranch.
Qed.

Lemma evaluates_loop id body max pol next i res :
  evaluates (Loop id body max pol next) i res ↔
  ∃ o, iterates body max pol 0 i o ∧ continues next o res.
Proof. split; [inversion 1; eauto|]. intros (o & ? & ?). by econstructor. Qed.

Lemma evaluates_child id child next i res :
  evaluates (ChildWorkflow id child next) i res ↔ ∃ o, evaluates child i o ∧ continues next o res.
Proof. split; [inversion 1; eauto|]. intros (o & ? & ?). by econstructor. Qed.

Lemma all_evaluate_cons b bs i l :
  all_evaluate (b :: bs) i l ↔
  ∃ o, evaluates b i o ∧ ∃ rs, all_evaluate bs i rs ∧ l = (cont_id b, o) :: rs.
Proof. split; [inversion 1; subst; eauto|]. intros (o & ? & rs & ? & ->). by constructor. Qed.

Lemma all_evaluate_nil i l : all_evaluate [] i l ↔ l = [].
Proof. split; [by inversion 1|]. intros ->. constructor. Qed.

(** One iteration, through [resolve_loop_iteration]. *)
Lemma iterates_step cfg k i o :
  k < cfg_max_iterations cfg →
  iterates (cfg_body cfg) (cfg_max_iterations cfg) (cfg_on_max cfg) k i o ↔
  ∃ env, evaluates (cfg_body cfg) i env ∧
  ∃ flow, resolve_loop_iteration env k cfg = Ok flow ∧
    match flow with
    | LoopExit x => o = x
    | LoopNext x => iterates (cfg_body cfg) (cfg_max_iterations cfg) (cfg_on_max cfg) (k + 1) x o
    end.
Proof.
  intros Hk. unfold resolve_loop_iteration. split.
  - inversion 1 as [? ? ? ? ? env ? ? ? Hd|? ? ? ? env ? ? ? Hd Hp|? ? ? ? ? env ? ? ? ? Hd];
      subst; exists env; split; try done; rewrite Hd; cbn.
    + by eexists.
    + rewrite bool_decide_true by lia. by eexists.
    + rewrite bool_decide_false by lia. by eexists.
  - intros (env & He & flow & Hr & Hf).
    destruct (decode_any_envelope env) as [[d inner]|] eqn:Hd; cbn in Hr; [|done].
    destruct d.
    + case_bool_decide.
      * destruct (cfg_on_max cfg) eqn:Hp; [done|]. injection Hr as <-. subst o.
        eapply ItLast; [lia|done..].
      * injection Hr as <-. eapply ItAgain; [lia|done..].
    + injection Hr as <-. subst o. by eapply ItDone.
Qed.

Lemma iterates_bound body max pol k i o : iterates body max pol k i o → k < max.
Proof. inversion 1; lia. Qed.
End Spec.

(** ** Judgements on runs

    [computes m P]: from every state, [m] returns the one value of [P], or fails
    when [P] has none.  [sound m P]: whatever [m] returns is in [P]. *)

Definition computes {S E A} (m : io S E A) (P : A → Prop) : Prop := ∀ s,
  match m s with
  | (Ok a, _) => ∀ x, P x ↔ x = a
  | (Err _, _) => ∀ x, ¬ P x
  end.
Definition sound {S E A} (m : io S E A) (P : A → Prop) : Prop := ∀ s a s', m s = (Ok a, s') → P a.

Lemma computes_sound {S E A} (m : io S E A) P : computes m P → sound m P.
Proof. intros Hc s a s' Hm. specialize (Hc s). rewrite Hm in Hc. by apply Hc. Qed.

(** What the proofs below use of a judgement. *)
Class Judgement (S E : Type) (J : ∀ A, io S E A → (A → Prop) → Prop) : Prop := {
  J_computes {A} (m : io S E A) P : computes m P → J A m P;
  J_iff {A} (m : io S E A) P Q : (∀ x, P x ↔ Q x) → J A m P → J A m Q;
  J_bind {A B} (m : io S E A) (k : A → io S E B) P Q :
    J A m P → (∀ a, P a → J B (k a) (Q a)) → J B (m ≫= k) (λ b, ∃ a, P a ∧ Q a b)
}.

#[export] Instance computes_judgement {S E} : Judgement S E (@computes S E).
Proof.
  constructor; [done| |].
  - intros A m P Q HPQ Hm s. specialize (Hm s). destruct (m s) as [[a|e] s']; intros x; by rewrite <-HPQ.
  - intros A B m k P Q Hm Hk s. unfold mbind, io_bind. specialize (Hm s).
    destruct (m s) as [[a|e] s']; [|intros x (y & ? & _); by eapply Hm].
    assert (HP : P a) by by apply Hm. specialize (Hk a HP s').
    destruct (k a s') as [[b|e] s'']; intros x.
    + rewrite <-Hk. split; [|by eauto]. intros (y & Hy & ?). apply Hm in Hy as ->. done.
    + intros (y & Hy & ?). apply Hm in Hy as ->. by eapply Hk.
Qed.

#[export] Instance sound_judgement {S E} : Judgement S E (@sound S E).
Proof.
  constructor.
  - intros A m P. apply computes_sound.
  - intros A m P Q HPQ Hm s a s' Hs. apply HPQ. by eapply Hm.
  - intros A B m k P Q Hm Hk s b s'. rewrite io_bind_Ok. intros (a & s1 & Ha & Hb).
    exists a. assert (P a) by by eapply Hm. split; [done|]. by eapply Hk.
Qed.

Section JudgementRules.
Context {S E : Type} {J : ∀ A, io S E A → (A → Prop) → Prop} `{!Judgement S E J}.

Lemma J_lift {A} (r : result E A) : J A (lift_result r) (λ x, r = Ok x).
Proof. apply J_computes. intros s. destruct r; cbn; [|done]. intros x; split; congruence. Qed.

Lemma J_ret {A} (a : A) : J A (mret a) (λ x, x = a).
Proof. apply J_computes. by intros s x. Qed.

Lemma J_throw {A} (e : E) (P : A → Prop) : (∀ x, ¬ P x) → J A (throw e) P.
Proof. intros HP. apply J_computes. intros s. exact HP. Qed.

Lemma J_skip {B} (k : unit → io S E B) (P : B → Prop) : J B (k ()) P → J B (mret () ≫= k) P.
Proof. exact (λ H, H). Qed.

(** Sequencing against a goal in the shape of an inversion lemma. *)
Lemma J_bind_iff {A B} (m : io S E A) (k : A → io S E B) P Q G :
  (∀ b, G b ↔ ∃ a, P a ∧ Q a b) → J A m P → (∀ a, P a → J B (k a) (Q a)) → J B (m ≫= k) G.
Proof.
  intros HG Hm Hk. apply (J_iff _ (λ b, ∃ a, P a ∧ Q a b)); [intros x; by rewrite HG|].
  by apply J_bind.
Qed.
End JudgementRules.

(** A call that answers the same at every state answers so under [retry]. *)
Lemma attempted_const {S E A} (m : io S E A) (r : result E A) n s r' s' :
  (∀ s, (m s).1 = r) → attempted m n s r' s' → r' = r.
Proof.
  intros Hm. induction 1 as [n s a s' Hs|s e s' Hs|n s e s1 r' s' Hs Ht IH]; [| |done];
    specialize (Hm s); by rewrite Hs in Hm.
Qed.

Lemma retry_const `{BackonLaws} {S E A} b (m : io S E A) r s :
  (∀ s, (m s).1 = r) → (retry b m s).1 = r.
Proof. intros Hm. eapply attempted_const; [exact Hm|]. apply retry_attempts. Qed.

Lemma computes_const {S E A} (m : io S E A) (r : result E A) :
  (∀ s, (m s).1 = r) → computes m (λ a, r = Ok a).
Proof.
  intros Hm s. specialize (Hm s). destruct (m s) as [[a|e] s']; cbn in Hm; subst r; [|done].
  intros x; split; congruence.
Qed.

(** The last permitted iteration never asks for another one. *)
Lemma resolve_next_bound `{Sha256, SerdeJson} {F} (cfg : LoopConfig F) env k x :
  resolve_loop_iteration env k cfg = Ok (LoopNext x) → k + 1 < cfg_max_iterations cfg.
Proof.
  unfold resolve_loop_iteration. destruct (decode_any_envelope env) as [[[] ?]|]; cbn; try done.
  case_bool_decide; [by destruct (cfg_on_max cfg)|lia].
Qed.

(** ** The executors against the specification *)

Section Refinement.
Context `{Sha256, SerdeJson, EnvelopeCodec} {F : Type}.
Context (f : string → Bytes → result BoxError Bytes).
Context (R : list (string * Bytes) → list (string * Bytes) → Prop).
Context {St : Type} {J : ∀ A, io St RuntimeError A → (A → Prop) → Prop} `{!Judgement St RuntimeError J}.

Abbreviation ev := (evaluates (F:=F) f R).

Lemma J_proceed (run : WorkflowContinuation F → Bytes → io St RuntimeError Bytes) next o :
  opt_all (λ n, ∀ i, J _ (run n i) (ev n i)) next → J _ (proceed run next o) (continues f R next o).
Proof.
  intros Hn. eapply J_iff; [intros x; symmetry; apply continues_inv|].
  destruct next; cbn in *; [apply Hn|apply J_ret].
Qed.

Lemma J_branches (run : WorkflowContinuation F → io St RuntimeError Bytes) bs i :
  Forall (λ b, J _ (run b) (ev b i)) bs → J _ (run_branches run bs) (all_evaluate f R bs i).
Proof.
  induction 1 as [|b bs Hb Hbs IH]; cbn.
  - eapply J_iff; [intros x; symmetry; apply all_evaluate_nil|]. apply J_ret.
  - eapply J_bind_iff; [apply all_evaluate_cons|done|]. intros o _.
    eapply J_bind; [done|]. intros rs _. apply J_ret.
Qed.

(** A fork, from its branch results on. *)
Lemma J_join (run : WorkflowContinuation F → Bytes → io St RuntimeError Bytes)
    (m : io St RuntimeError (list (string * Bytes))) id bs join i :
  J _ m (λ rs', ∃ rs, all_evaluate f R bs i rs ∧ R rs rs') →
  opt_all (λ n, ∀ i, J _ (run n i) (ev n i)) join →
  J _ (rs ← m; r ← lift_result (resolve_join join rs);
       match r with JContinue input => proceed run join input | JDone output => mret output end)
    (ev (Fork id bs join) i).
Proof.
  intros Hm Hj. eapply J_bind_iff; [apply evaluates_fork|done|]. intros rs' _.
  destruct join as [j|]; cbn.
  - eapply (J_bind_iff _ _ (λ r, JContinue <$> serialize_branch_results rs' = Ok r)
      (λ r res, match r with JContinue e => ev j e res | JDone _ => False end)); [|apply J_lift|].
    + intros res. unfold serialize_branch_results.
      destruct (encode_named_results rs') as [e|e]; cbn; naive_solver.
    + intros r Hr. apply result_fmap_Ok in Hr as (e & _ & ->). apply Hj.
  - eapply (J_bind_iff _ _ (λ r, JDone <$> ok_or (snd <$> last rs') (RWorkflow WF.EmptyFork) = Ok r)
      (λ r res, match r with JContinue _ => False | JDone o => res = o end)); [|apply J_lift|].
    + intros res. destruct (last rs') as [[k o]|]; cbn; naive_solver.
    + intros r Hr. apply result_fmap_Ok in Hr as (e & _ & ->). apply J_ret.
Qed.

Lemma get_branch_fmap {A} (g : WorkflowContinuation F → A) key bs :
  get_branch g key bs = g <$> get_branch (λ b, b) key bs.
Proof. induction bs as [|[k b] bs IH]; cbn; [done|]. by case_bool_decide. Qed.

Lemma resolve_branch_choose {A} (g : WorkflowContinuation F → A) id kb bs d :
  resolve_branch g id kb bs d =
  (key ← map_err (λ e, RCodec (DecodeFailed (TaskId_from id) "String (branch key)" e)) (decode_string kb);
   b ← ok_or (choose key bs d) (RWorkflow (WF.BranchKeyNotFound id key));
   Ok (key, g b)).
Proof.
  unfold resolve_branch, choose. destruct (decode_string kb) as [key|]; cbn; [|done].
  rewrite get_branch_fmap. destruct (get_branch _ key bs), d; done.
Qed.

(** A conditional branch, from its routing key on. *)
Lemma J_route (run : WorkflowContinuation F → Bytes → io St RuntimeError Bytes)
    (run_b : WorkflowContinuation F → io St RuntimeError Bytes) (m : io St RuntimeError Bytes)
    id kf bs d next i :
  J _ m (λ kb, f (key_fn_id id) i = Ok kb) →
  Forall (λ kb, J _ (run_b kb.2) (ev kb.2 i)) bs →
  opt_all (λ b, J _ (run_b b) (ev b i)) d →
  opt_all (λ n, ∀ i, J _ (run n i) (ev n i)) next →
  J _ (kb ← m; chosen ← lift_result (resolve_branch run_b id kb bs d); o ← chosen.2;
       e ← lift_result (map_err from_box_error (encode_branch_envelope chosen.1 o));
       proceed run next e) (ev (Branch id kf bs d next) i).
Proof.
  intros Hm Hbs Hd Hn. eapply J_bind_iff; [apply evaluates_branch|done|]. intros kb _.
  rewrite resolve_branch_choose.
  assert (Hc : ∀ key b, choose key bs d = Some b → J _ (run_b b) (ev b i)).
  { intros key b. unfold choose. clear Hm. induction Hbs as [|[k b'] bs Hb Hbs IH]; cbn.
    - intros ->. done.
    - case_bool_decide; [intros [= <-]; exact Hb|done]. }
  destruct (decode_string kb) as [key|]; cbn.
  2:{ apply J_computes. intros s x (? & ? & _). done. }
  destruct (choose key bs d) as [b|] eqn:Hb; cbn.
  2:{ apply J_computes. intros s x (? & [= <-] & ? & Hx & _). congruence. }
  eapply (J_bind_iff _ _ (λ c, c = (key, run_b b)) (λ _ res, ∃ o, ev b i o ∧
    ∃ e, encode_branch_envelope key o = Ok e ∧ continues f R next e res)); [| |].
  - intros res. split.
    + intros (? & [= <-] & b' & Hx & ?). assert (b' = b) as -> by congruence. eauto.
    + intros (? & _ & Hx). exists key. split; [done|]. by exists b.
  - eapply J_iff; [|apply J_lift]. intros x; split; congruence.
  - intros ? ->. cbn. eapply J_bind; [by eapply Hc|]. intros o _.
    eapply (J_bind _ _ (λ e, encode_branch_envelope key o = Ok e)); [|intros e _; by apply J_proceed].
    eapply J_iff; [|apply J_lift]. intros e.
    destruct (encode_branch_envelope key o); cbn; split; congruence.
Qed.

Section Loops.
Context (cfg : LoopConfig F) (body : Bytes → io St RuntimeError Bytes).
Hypothesis Hbody : ∀ i, J _ (body i) (ev (cfg_body cfg) i).
Let iter := iterates f R (cfg_body cfg) (cfg_max_iterations cfg) (cfg_on_max cfg).

Lemma J_sync_loop n k i :
  Z.of_nat n = Z.max 0 (cfg_max_iterations cfg - k) →
  J _ (sync_loop (λ e, e) cfg body n k i)
    (λ o, match n with O => o = None | S _ => ∃ x, o = Some x ∧ iter k i x end).
Proof.
  revert k i; induction n as [|n IH]; intros k i Hn; cbn; [apply J_ret|].
  eapply (J_bind_iff _ _ (ev (cfg_body cfg) i) (λ env o, ∃ x, o = Some x ∧
    ∃ flow, resolve_loop_iteration env k cfg = Ok flow ∧
      match flow with LoopExit y => x = y | LoopNext y => iter (k + 1) y x end)); [|apply Hbody|].
  { intros o. unfold iter. setoid_rewrite iterates_step; [naive_solver|lia]. }
  intros env _.
  eapply (J_bind_iff _ _ (λ flow, resolve_loop_iteration env k cfg = Ok flow)
    (λ flow o, ∃ x, o = Some x ∧
      match flow with LoopExit y => x = y | LoopNext y => iter (k + 1) y x end)); [naive_solver| |].
  { eapply J_iff; [|apply J_lift]. intros x. by destruct (resolve_loop_iteration env k cfg). }
  intros [y|y] Hr.
  - eapply J_iff; [|apply J_ret]. naive_solver.
  - apply resolve_next_bound in Hr. eapply J_iff; [|apply IH; lia]. destruct n; [lia|done].
Qed.

Lemma J_async_loop n k i :
  Z.of_nat n = Z.max 0 (cfg_max_iterations cfg - k) →
  J _ (async_loop (λ e, e) NoHooks cfg body n k i) (iter k i).
Proof.
  revert k i; induction n as [|n IH]; intros k i Hn; cbn.
  { apply J_throw. intros x Hx%iterates_bound. lia. }
  eapply J_bind_iff; [intros b; apply iterates_step; lia|apply Hbody|]. intros env _.
  apply J_skip.
  eapply (J_bind _ _ (λ flow, resolve_loop_iteration env k cfg = Ok flow)).
  { eapply J_iff; [|apply J_lift]. intros x. by destruct (resolve_loop_iteration env k cfg). }
  intros [x|x] Hr; apply J_skip; [apply J_ret|].
  apply resolve_next_bound in Hr. apply IH. lia.
Qed.
End Loops.
End Refinement.

(** A loop range starting at 0. *)
Lemma range_from_zero m : Z.of_nat (Z.to_nat m) = Z.max 0 (m - 0).
Proof. lia. Qed.

Section SyncRefinement.
Context `{Sha256, SerdeJson, EnvelopeCodec, Backon, !BackonLaws, TaskCallback} {F : Type}.
Context (f : string → Bytes → result BoxError Bytes) (Hf : ∀ n id i, run_task n id i = f id i).

Lemma from_box_Ok {A} (r : result BoxError A) a : map_err from_box_error r = Ok a ↔ r = Ok a.
Proof. destruct r; cbn; split; congruence. Qed.

Lemma io_map_err_run {S E E' A} (g : E → E') (m : io S E A) s :
  (io_map_err g m s).1 = map_err g (m s).1.
Proof. unfold io_map_err. by destruct (m s) as [[] ?]. Qed.

Lemma execute_task_computes id i :
  computes (io_map_err from_box_error (execute_task id i)) (λ o, f id i = Ok o).
Proof.
  eapply J_iff; [intros o; apply from_box_Ok|]. apply computes_const. intros s.
  rewrite io_map_err_run. cbn. by rewrite Hf.
Qed.

Lemma retry_task_computes b id i :
  computes (io_map_err from_box_error (retry b (execute_task id i))) (λ o, f id i = Ok o).
Proof.
  eapply J_iff; [intros o; apply from_box_Ok|]. apply computes_const. intros s.
  rewrite io_map_err_run. f_equal. apply retry_const. intros s'. cbn. by rewrite Hf.
Qed.

Lemma sync_computes (c : WorkflowContinuation F) :
  ∀ i, computes (execute_continuation_sync c i) (evaluates f eq c i).
Proof.
  induction c as [id fn t r v p tg n Hn|id bs j Hbs Hj|id d n Hn|id s t n Hn|id k bs d n Hbs Hd Hn
    |id b m o n Hb Hn|id ch n Hc Hn] using continuation_ind; intros i; cbn.
  - eapply J_bind_iff; [apply evaluates_task|apply retry_task_computes|].
    intros o _. by apply (J_proceed f eq (J:=@computes nat RuntimeError)).
  - apply (J_join f eq (J:=@computes nat RuntimeError)); [|exact Hj]. eapply J_iff; [|apply (J_branches f eq (J:=@computes nat RuntimeError))].
    + cbn. naive_solver.
    + eapply Forall_impl; [exact Hbs|auto].
  - eapply J_iff; [intros x; symmetry; apply evaluates_delay|]. by apply (J_proceed f eq (J:=@computes nat RuntimeError)).
  - apply J_throw. intros x. apply evaluates_signal.
  - apply (J_route f eq (J:=@computes nat RuntimeError)); [apply execute_task_computes| | |done].
    + eapply Forall_impl; [exact Hbs|auto].
    + destruct d; cbn in *; auto.
  - pose proof (J_sync_loop f eq (J:=@computes nat RuntimeError) (MkLoopConfig id b m o 0) _ Hb _ 0 i (range_from_zero m)) as Hl.
    destruct (Z.to_nat m) as [|k] eqn:Hm; cbn.
    + apply J_throw. intros x. rewrite evaluates_loop. intros (? & Hx%iterates_bound & _). lia.
    + eapply (J_bind_iff _ _ _ (λ o' res, ∃ x, o' = Some x ∧ continues f eq n x res)); [|exact Hl|].
      * intros res. rewrite evaluates_loop. cbn. naive_solver.
      * intros o' (x & -> & _). eapply J_iff; [|by apply (J_proceed f eq (J:=@computes nat RuntimeError))]. naive_solver.
  - eapply J_bind_iff; [apply evaluates_child|apply Hc|]. intros o _. by apply (J_proceed f eq (J:=@computes nat RuntimeError)).
Qed.
End SyncRefinement.

Section AsyncRefinement.
Context `{Sha256, SerdeJson, EnvelopeCodec, Backon, !BackonLaws} {F : Type} `{AsyncRuntime F}.
Context (f : string → Bytes → result BoxError Bytes).

Definition implements (func : option F) (id : string) : Prop :=
  match func with Some g => ∀ n i, run_func n g i = f id i | None => False end.

(** Every task and every routing function has an implementation that computes [f]. *)
Fixpoint implemented (c : WorkflowContinuation F) : Prop :=
  let opt (o : option (WorkflowContinuation F)) : Prop :=
    match o with Some n => implemented n | None => True end in
  match c with
  | Task id func _ _ _ _ _ next => implements func id ∧ opt next
  | Fork _ bs join => foldr (λ b P, implemented b ∧ P) True bs ∧ opt join
  | Delay _ _ next | AwaitSignal _ _ _ next => opt next
  | Branch id key_fn bs dflt next =>
      implements key_fn (key_fn_id id) ∧ foldr (λ b P, implemented b.2 ∧ P) True bs ∧ opt dflt ∧ opt next
  | Loop _ body _ _ next => implemented body ∧ opt next
  | ChildWorkflow _ child next => implemented child ∧ opt next
  end.

Lemma foldr_Forall {A} (P Q : A → Prop) (l : list A) :
  foldr (λ a R, P a ∧ R) True l → Forall (λ a, P a → Q a) l → Forall Q l.
Proof. induction l; cbn; [constructor|]. intros [? ?]. inversion 1; subst. constructor; auto. Qed.

Context (Htimely : ∀ n d, timely n d = true).

Lemma call_func_computes g id i :
  implements (Some g) id → computes (call_func g i) (λ o, f id i = Ok o).
Proof.
  intros Hg. eapply J_iff; [intros o; apply from_box_Ok|]. apply computes_const. intros s.
  cbn. by rewrite Hg.
Qed.

Lemma run_task_computes id i g t r :
  implements (Some g) id → computes (run_task_with_retry id i g t r) (λ o, f id i = Ok o).
Proof.
  intros Hg. eapply J_iff; [intros o; apply from_box_Ok|]. apply computes_const. intros s.
  apply retry_const. intros s'. destruct t; rewrite ?Htimely; cbn; by rewrite Hg.
Qed.

Context (R : list (string * Bytes) → list (string * Bytes) → Prop).
Context {J : ∀ A, io nat RuntimeError A → (A → Prop) → Prop} `{!Judgement nat RuntimeError J}.

Definition forks_ok (run_all : (WorkflowContinuation F → io nat RuntimeError Bytes) →
    list (WorkflowContinuation F) → io nat RuntimeError (list (string * Bytes))) : Prop :=
  ∀ run bs i, Forall (λ b, J _ (run b) (evaluates f R b i)) bs →
    J _ (run_all run bs) (λ rs', ∃ rs, all_evaluate f R bs i rs ∧ R rs rs').

Context (Hseq : forks_ok run_branches) (Hpar : forks_ok join_set).

Lemma async_judged (c : WorkflowContinuation F) :
  implemented c → ∀ i par, J _ (execute_async_inner c i par) (evaluates f R c i).
Proof.
  induction c as [id fn t r v p tg n Hn|id bs j Hbs Hj|id d n Hn|id s t n Hn|id k bs d n Hbs Hd Hn
    |id b m o n Hb Hn|id ch n Hc Hn] using continuation_ind; cbn; intros Hi i par.
  - destruct Hi as [Hg Hi], fn as [g|]; [|done].
    eapply J_bind_iff; [apply evaluates_task|by apply J_computes, run_task_computes|].
    intros o _. apply (J_proceed f R (J:=J)). destruct n; cbn in *; auto.
  - destruct Hi as [Hi Hi']. apply (J_join f R (J:=J)); [|destruct j; cbn in *; auto].
    assert (Hall : Forall (λ b, J _ (execute_async_inner b i false) (evaluates f R b i)) bs).
    { eapply foldr_Forall; [exact Hi|]. eapply Forall_impl; [exact Hbs|auto]. }
    destruct (_ && _); [by apply Hpar|by apply Hseq].
  - eapply J_iff; [intros x; symmetry; apply evaluates_delay|].
    apply (J_proceed f R (J:=J)). destruct n; cbn in *; auto.
  - apply J_throw. intros x. apply evaluates_signal.
  - destruct Hi as (Hg & Hi & Hi' & Hi''), k as [g|]; [|done].
    apply (J_route f R (J:=J)).
    + by apply J_computes, call_func_computes.
    + eapply foldr_Forall; [exact Hi|]. eapply Forall_impl; [exact Hbs|auto].
    + destruct d; cbn in *; auto.
    + destruct n; cbn in *; auto.
  - destruct Hi as [Hi Hi']. eapply J_bind_iff; [apply evaluates_loop| |].
    + apply (J_async_loop f R (J:=J) (MkLoopConfig id b m o 0)); [auto|].
      cbn. rewrite <-range_from_zero. do 2 f_equal. lia.
    + intros x _. apply (J_proceed f R (J:=J)). destruct n; cbn in *; auto.
  - destruct Hi as [Hi Hi']. eapply J_bind_iff; [apply evaluates_child|by apply Hc|].
    intros o _. apply (J_proceed f R (J:=J)). destruct n; cbn in *; auto.
Qed.
End AsyncRefinement.

(** Spawned branches, in the order they finish. *)
Section Spawned.
Context `{Sha256, SerdeJson, EnvelopeCodec} {F : Type} `{AsyncRuntime F}.
Context (f : string → Bytes → result BoxError Bytes).

Lemma spawn_computes R (run : WorkflowContinuation F → io nat RuntimeError Bytes) bs i n :
  Forall (λ b, computes (run b) (evaluates f R b i)) bs →
  match result_collect (spawn_branches run bs n).1 with
  | Ok rs => ∀ x, all_evaluate f R bs i x ↔ x = rs
  | Err _ => ∀ x, ¬ all_evaluate f R bs i x
  end.
Proof.
  intros Hbs. revert n. induction Hbs as [|b bs Hb Hbs IH]; intros n; cbn.
  { intros x. apply all_evaluate_nil. }
  specialize (Hb n). destruct (run b n) as [r n1]. specialize (IH n1).
  destruct (spawn_branches run bs n1) as [rs n2]. cbn in *. destruct r as [o|e]; cbn.
  2:{ intros x (? & ? & _)%all_evaluate_cons. by eapply Hb. }
  destruct (result_collect rs) as [l|e]; cbn; intros x; rewrite all_evaluate_cons.
  - split; [|intros ->; exists o; split; [by apply Hb|exists l; split; [by apply IH|done]]].
    intros (o' & Ho & l' & Hl & ->). apply Hb in Ho as ->. by apply IH in Hl as ->.
  - intros (? & _ & l' & Hl & _). by eapply IH.
Qed.

Lemma spawn_sound R (run : WorkflowContinuation F → io nat RuntimeError Bytes) bs i n l :
  Forall (λ b, sound (run b) (evaluates f R b i)) bs →
  result_collect (spawn_branches run bs n).1 = Ok l → all_evaluate f R bs i l.
Proof.
  intros Hbs. revert n l. induction Hbs as [|b bs Hb Hbs IH]; intros n l; cbn.
  { intros [= <-]. constructor. }
  specialize (Hb n). destruct (run b n) as [r n1]. specialize (IH n1).
  destruct (spawn_branches run bs n1) as [rs n2]. cbn in *. destruct r as [o|e]; cbn; [|done].
  destruct (result_collect rs) as [l'|e]; cbn; [|done]. intros [= <-].
  constructor; [by eapply Hb|by apply IH].
Qed.

Lemma result_collect_map {E A} (l : list (result E A)) r : result_collect l = Ok r ↔ l = Ok <$> r.
Proof.
  rewrite result_collect_Ok. split.
  - induction 1; cbn; [done|]. by subst.
  - intros ->. induction r; cbn; by constructor.
Qed.

Lemma result_collect_perm {E A} (l k : list (result E A)) r :
  l ≡ₚ k → result_collect l = Ok r → ∃ r', result_collect k = Ok r' ∧ r' ≡ₚ r.
Proof.
  setoid_rewrite result_collect_map. intros Hp ->. symmetry in Hp.
  apply Permutation_map_inv in Hp as (r' & -> & Hp). exists r'. by split.
Qed.

Lemma in_order_forks : (∀ A n (l : list A), finish_order n l = l) →
  forks_ok (J:=@computes nat RuntimeError) f eq (@join_set F _).
Proof.
  intros Hord run bs i Hbs n. unfold join_set. pose proof (spawn_computes eq run bs i n Hbs) as Hs.
  destruct (spawn_branches run bs n) as [rs n']. rewrite Hord. cbn in Hs.
  destruct (result_collect rs); intros x; [rewrite <-Hs|]; naive_solver.
Qed.

Lemma any_order_forks `{!AsyncRuntimeLaws F} :
  forks_ok (J:=@sound nat RuntimeError) f (≡ₚ) (@join_set F _).
Proof.
  intros run bs i Hbs n rs' n'. unfold join_set.
  pose proof (spawn_sound (≡ₚ) run bs i n) as Hs.
  destruct (spawn_branches run bs n) as [rs m]. intros [= Hr _].
  eapply result_collect_perm in Hr as (r & Hr & Hp); [|apply finish_order_perm].
  exists r. split; [by apply Hs|done].
Qed.

Lemma sequential_forks_computes :
  forks_ok (J:=@computes nat RuntimeError) f eq (@run_branches F _ _).
Proof.
  intros run bs i Hbs. eapply J_iff; [|by apply (J_branches f eq (J:=@computes _ _))].
  naive_solver.
Qed.

Lemma sequential_forks_sound :
  forks_ok (J:=@sound nat RuntimeError) f (≡ₚ) (@run_branches F _ _).
Proof.
  intros run bs i Hbs n rs n' Hr. exists rs. split; [|done].
  by eapply (J_branches f (≡ₚ) (J:=@sound nat RuntimeError)).
Qed.
End Spawned.

(** ** Properties *)

(** C4. The synchronous executor computes the meaning of the workflow: with a
    callback that answers a function of the task id and the input, every run
    terminates; it returns an output exactly when the tree has one by the
    big-step rules (tasks in chain order, branch results in branch order, routing
    by key with the default, loops until done or the iteration bound), that output
    is unique, and otherwise the run reports an error. *)
Theorem sync_executor_correct `{Sha256, SerdeJson, EnvelopeCodec, Backon, !BackonLaws, TaskCallback}
    {F : Type} (f : string → Bytes → result BoxError Bytes) (c : WorkflowContinuation F)
    (i : Bytes) (n : nat) :
  (∀ n id i, run_task n id i = f id i) →
  match execute_continuation_sync c i n with
  | (Ok o, _) => ∀ x, evaluates f eq c i x ↔ x = o
  | (Err _, _) => ∀ x, ¬ evaluates f eq c i x
  end.
Proof. intros Hf. by apply sync_computes. Qed.

(** C10. The asynchronous executor agrees with the synchronous one: when the tasks
    carry implementations of the callback's function and none runs into its
    timeout, spawned branches that finish in spawn order give the same outcome
    (the same output, or an error in both). *)
Theorem async_agrees_with_sync
    `{Sha256, SerdeJson, EnvelopeCodec, Backon, !BackonLaws, TaskCallback} {F : Type} `{AsyncRuntime F}
    (f : string → Bytes → result BoxError Bytes) (c : WorkflowContinuation F) (i : Bytes) (n m : nat) :
  (∀ n id i, run_task n id i = f id i) → implemented f c → (∀ n d, timely n d = true) →
  (∀ A n (l : list A), finish_order n l = l) →
  ok (execute_continuation_async c i n).1 = ok (execute_continuation_sync c i m).1.
Proof.
  intros Hf Hi Ht Hord.
  pose proof (sync_computes f Hf c i m) as Hs.
  pose proof (async_judged f Ht eq (J:=@computes nat RuntimeError) (sequential_forks_computes f)
    (in_order_forks f Hord) c Hi i true n) as Ha. unfold execute_continuation_async.
  destruct (execute_continuation_sync c i m) as [[x|] ?], (execute_async_inner c i true n) as [[y|] ?];
    cbn; try done.
  - f_equal. by apply Hs, Ha.
  - exfalso. by eapply Ha, Hs.
  - exfalso. by eapply Hs, Ha.
Qed.

(** Whatever the scheduler does, an output of the asynchronous executor is an
    output of the workflow in which each join receives its branches' results in
    some order: no branch result is lost, duplicated or attributed to another
    branch. *)
Theorem async_any_schedule
    `{Sha256, SerdeJson, EnvelopeCodec, Backon, !BackonLaws} {F : Type} `{AsyncRuntime F, !AsyncRuntimeLaws F}
    (f : string → Bytes → result BoxError Bytes) (c : WorkflowContinuation F) (i o : Bytes) (n n' : nat) :
  implemented f c → (∀ n d, timely n d = true) →
  execute_continuation_async c i n = (Ok o, n') → evaluates f (≡ₚ) c i o.
Proof.
  intros Hi Ht. exact (async_judged f Ht (≡ₚ) (J:=@sound nat RuntimeError)
    (sequential_forks_sound f) (any_order_forks f) c Hi i true n o n').
Qed.

(** ** Witnesses *)

Module ExecExample.
Import Toy WorkflowExample.

(** A transparent codec: strings as they are, envelopes as [key=value]. *)
#[export] Instance codec : EnvelopeCodec := {
  decode_string b := Ok (String.string_of_list_byte b);
  encode_branch_envelope key b := Ok (as_bytes key ++ as_bytes "=" ++ b);
  encode_named_results rs := Ok (concat ((λ r, as_bytes r.1 ++ as_bytes "=" ++ r.2 ++ as_bytes ";") <$> rs))
}.
#[export] Instance no_json : SerdeJson := {
  Value := Empty_set;
  from_slice _ := Err (BoxOther "expected value");
  json_get _ v := None;
  as_str v := None;
  to_vec v := Err (BoxOther "unreachable")
}.

Fixpoint retry_loop {St E A} (n : nat) (m : io St E A) : io St E A := λ s,
  match m s, n with
  | (Ok a, s), _ => (Ok a, s)
  | (Err e, s), O => (Err e, s)
  | (Err _, s), S n => retry_loop n m s
  end.
#[export] Instance backon : Backon := {
  ExponentialBuilder := Z; builder_default := 3;
  with_min_delay _ b := b; with_factor _ b := b; with_max_times n _ := n;
  with_max_delay _ b := b; without_max_delay b := b; max_times b := b;
  retry _ _ _ b m := retry_loop (Z.to_nat b) m
}.
Lemma retry_loop_attempted {St E A} n (m : io St E A) s :
  attempted m n s (retry_loop n m s).1 (retry_loop n m s).2.
Proof.
  revert s; induction n as [|n IH]; intros s; cbn; destruct (m s) as [[a|e] s'] eqn:Hm;
    try by constructor. by econstructor.
Qed.
#[export] Instance backon_laws : BackonLaws.
Proof. constructor; try done. intros. apply retry_loop_attempted. Qed.

(** Tasks append their name; the routing function answers ["eu"]. *)
Definition append_name (id : string) (i : Bytes) : result BoxError Bytes :=
  if bool_decide (id = "route::key_fn") then Ok (as_bytes "eu")
  else Ok (i ++ as_bytes (" " +:+ id)).
#[export] Instance callback : TaskCallback := λ _, append_name.

Definition order_output : Bytes :=
  as_bytes "mail=eu=in validate ship_eu mail;audit=eu=in validate ship_eu audit; close".

Lemma sync_executor_correct_witness : evaluates append_name eq order_flow (as_bytes "in") order_output.
Proof.
  pose proof (sync_executor_correct append_name order_flow (as_bytes "in") 0%nat (λ _ _ _, eq_refl)) as Hw.
  vm_compute in Hw. apply Hw. vm_compute. reflexivity.
Defined.

(** The same tree with functions in its nodes: a function is the id it computes. *)
Definition fn_task (id : string) (next : option (WorkflowContinuation string)) :=
  Task id (Some id) (Some 5) None None None [] next.
Definition fn_flow : WorkflowContinuation string :=
  fn_task "validate" (Some
    (Branch "route" (Some "route::key_fn") [("eu", fn_task "ship_eu" None)] None (Some
      (Fork "mail||audit" [fn_task "mail" None; fn_task "audit" None] (Some (fn_task "close" None)))))).

#[export] Instance in_order : AsyncRuntime string :=
  {| run_func _ g := append_name g; timely _ _ := true; finish_order _ _ l := l |}.
(** A scheduler in which the branches finish last spawned first. *)
Definition reversed : AsyncRuntime string :=
  {| run_func _ g := append_name g; timely _ _ := true; finish_order A _ l := reverse l |}.
Lemma reversed_laws : @AsyncRuntimeLaws string reversed.
Proof. intros A n l. apply reverse_Permutation. Qed.

Lemma async_agrees_with_sync_witness :
  ok (execute_continuation_async fn_flow (as_bytes "in") 0%nat).1 = Some order_output.
Proof.
  rewrite (async_agrees_with_sync append_name fn_flow (as_bytes "in") 0%nat 0%nat);
    [vm_compute; reflexivity|done| |done|done].
  repeat split.
Defined.

Lemma async_any_schedule_witness :
  evaluates append_name (≡ₚ) fn_flow (as_bytes "in")
    (as_bytes "audit=eu=in validate ship_eu audit;mail=eu=in validate ship_eu mail; close").
Proof.
  apply (@async_any_schedule toy_sha no_json codec backon backon_laws string reversed reversed_laws
    append_name fn_flow (as_bytes "in") _ 0%nat 6%nat); [repeat split|done|vm_compute; reflexivity].
Defined.
End ExecExample.
