(* ===== verification/Checkpoint.v ===== *)
(** * The durable executor

    [execute_continuation_with_checkpointing] ([executors.rs]), the branch executor
    and fork handling ([fork.rs]), task steps with guards, deadlines and retries
    ([helpers.rs]), parking ([control_flow.rs]) and the checkpointing loop hooks
    ([loop_runner.rs]).

    The state is the executor's own snapshot beside the world: the executor
    mutates its snapshot and saves it at the source's points, and the branch
    executor works on a snapshot of its own, loaded from the backend. *)

From S2P Require Import Prelude Hash32 SnapshotFormat Task Workflow Serializable Snapshot Backend InMemory Runtime Lifecycle SyncExec.

(** Why a run stops without a result: an error value, or a panic of the date
    arithmetic.  [OutOfFuel] is the model's own: the retry loop never reaches it. *)
Inductive Fault : Type := Rt (e : RuntimeError) | Panic | OutOfFuel.

(** The instants at which the deadline of the running task is checked before the
    task completes, for the check interval the executor chose. *)
Class TaskTiming : Type := ticks : nat → Duration → list DateTime.

Section Durable.
Context `{Sha256, Chrono, FloatOps, Display, SerdeJson, EnvelopeCodec, TaskCallback, TaskTiming}.
Context {B F : Type} `{PersistentBackend B, Environment B}.

Definition ExecState : Type := WorkflowSnapshot * World B.
Abbreviation Exec := (io ExecState Fault).

(** ** Effects *)

Definition snap : Exec WorkflowSnapshot := λ st, (Ok st.1, st).
Definition modify (g : WorkflowSnapshot → WorkflowSnapshot) : Exec unit := λ st, (Ok (), (g st.1, st.2)).
Definition run {A} (m : io (World B) RuntimeError A) : Exec A := λ st,
  let '(r, w) := m st.2 in (map_err Rt r, (st.1, w)).
Definition now : Exec DateTime := run read_clock.

(** A mutation that reads the clock; [None] is a panic. *)
Definition modify_now (g : DateTime → WorkflowSnapshot → WorkflowSnapshot) : Exec unit :=
  t ← now; modify (g t).
Definition modify_panic {A} (g : WorkflowSnapshot → option (A * WorkflowSnapshot)) : Exec A := λ st,
  match g st.1 with Some (a, s) => (Ok a, (s, st.2)) | None => (Err Panic, st) end.

(** [backend.save_snapshot(snapshot).await?] and the other backend calls. *)
Definition save : Exec unit :=
  s ← snap;
  s ← run (rt (call (λ _, save_snapshot s)));
  modify (λ _, s).
Definition save_result (id : string) (task_id : TaskId) (output : Bytes) : Exec unit :=
  run (rt (call (λ t, save_task_result t id task_id output))).
Definition guards (cancel_scope : option TaskId) : Exec unit :=
  s ← snap; run (check_guards (instance_id s) cancel_scope).

Definition fail {A} (e : RuntimeError) : Exec A := throw (Rt e).
Definition lift {A} (r : result RuntimeError A) : Exec A := lift_result (map_err Rt r).

(** [execute_task(id, input).await]: one call of user code. *)
Definition user_task (id : string) (input : Bytes) : Exec Bytes := λ st,
  (map_err (λ e, Rt (from_box_error e)) (run_task (steps st.2) id input),
   (st.1, MkWorld (store st.2) (S (steps st.2)))).

(** ** Deadlines ([helpers.rs]) *)

Definition MAX_DEADLINE_CHECK_INTERVAL : Duration := from_secs 1.
Definition MIN_DEADLINE_CHECK_INTERVAL : Duration := from_millis 1.

(** [deadline_check_interval]. *)
Definition deadline_check_interval (t : DateTime) (d : TaskDeadline) : Duration :=
  let remaining := Z.max 0 (td_deadline d - t) in
  Z.min MAX_DEADLINE_CHECK_INTERVAL (Z.max MIN_DEADLINE_CHECK_INTERVAL (remaining / 2)).

(** [set_deadline_if_needed]. *)
Definition set_deadline_if_needed (id : string) (timeout : option Duration) : Exec unit :=
  s ← snap;
  match get_task_result (TaskId_from id) s, timeout with
  | None, Some d =>
      t ← now;
      modify_panic (λ s, pair () <$> set_task_deadline t (TaskId_from id) d s) ≫= λ _,
      save
  | _, _ => mret ()
  end.

(** Fail with [TaskTimedOut] when the deadline has expired at [t]. *)
Definition check_deadline (t : DateTime) : Exec unit :=
  s ← snap;
  match expired_task_deadline t s with
  | Some (tid, timeout) =>
      modify clear_task_deadline ≫= λ _, fail (RWorkflow (WF.TaskTimedOut tid timeout))
  | None => mret ()
  end.

(** The periodic checks that fire before the task completes. *)
Fixpoint deadline_race (checks : list DateTime) : Exec unit :=
  match checks with
  | [] => mret ()
  | t :: checks => check_deadline t ≫= λ _, deadline_race checks
  end.

(** ** Tasks ([helpers.rs]) *)

(** [execute_or_skip_task]. *)
Definition execute_or_skip_task (id : string) (input : Bytes) : Exec Bytes :=
  s ← snap;
  match get_task_result (TaskId_from id) s with
  | Some r => modify clear_task_deadline ≫= λ _, mret (tr_output r)
  | None =>
      t ← now;
      check_deadline t ≫= λ _,
      t ← now;
      modify_panic (λ s, pair () <$> refresh_task_deadline t s) ≫= λ _,
      s ← snap;
      output ←
        match task_deadline s with
        | Some dl =>
            t ← now;
            st ← get_state;
            (* the race: a tick that finds the deadline expired drops the task *)
            deadline_race (ticks (steps st.2) (deadline_check_interval t dl)) ≫= λ _,
            user_task id input
        | None => user_task id input
        end;
      modify clear_task_deadline ≫= λ _,
      modify_now (λ t, mark_task_completed t (TaskId_from id) output) ≫= λ _,
      mret output
  end.

(** [branch_execute_or_skip_task]. *)
Definition branch_execute_or_skip_task (id : string) (input : Bytes) (timeout : option Duration)
    (inst : string) : Exec Bytes :=
  s ← snap;
  match get_task_result (TaskId_from id) s with
  | Some r => mret (tr_output r)
  | None =>
      match timeout with
      | Some d => t ← now; modify_panic (λ s, pair () <$> set_task_deadline t (TaskId_from id) d s)
      | None => mret ()
      end ≫= λ _,
      output ← user_task id input;
      t ← now;
      check_deadline t ≫= λ _,
      modify clear_task_deadline ≫= λ _,
      save_result inst (TaskId_from id) output ≫= λ _,
      mret output
  end.

(** [retry_with_checkpoint]: [save_backend] says whether the snapshot is saved
    between the attempts. *)
Section Retry.
Context (task_id : string) (retry_policy : option RetryPolicy) (timeout : option Duration)
  (save_backend : bool) (execute : Exec Bytes).

Fixpoint retry_loop (fuel : nat) : Exec Bytes :=
  match fuel with
  | O => throw OutOfFuel
  | S fuel => λ st,
      match execute st with
      | (Ok output, st) => (modify (clear_retry_state (TaskId_from task_id)) ≫= λ _, mret output) st
      | (Err (Rt e), st) =>
          (s ← snap;
           match retry_policy with
           | Some rp =>
               if negb (retries_exhausted (TaskId_from task_id) s) then
                 t ← now;
                 modify_panic (record_retry t (TaskId_from task_id) rp (error_to_string e) None) ≫= λ _,
                 modify clear_task_deadline ≫= λ _,
                 (if save_backend then save else mret ()) ≫= λ _,
                 now ≫= λ _,                            (* the length of the sleep *)
                 (if save_backend then set_deadline_if_needed task_id timeout else mret ()) ≫= λ _,
                 retry_loop fuel
               else fail e
           | None => fail e
           end) st
      | (Err fault, st) => (Err fault, st)
      end
  end.

(** One more attempt than the policy allows retries, and one for a policy that
    was changed since the recorded attempts. *)
Definition retry_with_checkpoint : Exec Bytes :=
  retry_loop (match retry_policy with Some rp => S (S (Z.to_nat (max_retries rp))) | None => 1 end).
End Retry.

(** [execute_task_step] (without the [otel] feature). *)
Definition execute_task_step (id : string) (timeout : option Duration)
    (retry_policy : option RetryPolicy) (next : option (WorkflowContinuation F)) (input : Bytes) :
    Exec Bytes :=
  guards (Some (TaskId_from id)) ≫= λ _,
  set_deadline_if_needed id timeout ≫= λ _,
  output ← retry_with_checkpoint id retry_policy timeout true (execute_or_skip_task id input);
  (match next with
   | Some n =>
       let hint := first_task_hint n in
       modify_now (λ t, update_position t (AtTask (hint_id hint))) ≫= λ _,
       modify (set_task_hint hint)
   | None => mret ()
   end) ≫= λ _,
  save ≫= λ _,
  guards None ≫= λ _,
  mret output.

(** ** Parking ([control_flow.rs]) *)

Inductive ParkReason : Type :=
| ParkDelay (delay_id : TaskId) (wake_at : DateTime) (next_task : option TaskHint) (passthrough : Bytes)
| ParkSignal (signal_id : TaskId) (signal_name : string) (timeout : option DateTime)
    (next_task : option TaskHint).

(** [ControlFlow<StepOutcome, Bytes>]. *)
Inductive StepFlow : Type := SContinue (output : Bytes) | SDone (output : Bytes) | SPark (reason : ParkReason).

(** [now + d] panics outside the calendar. *)
Definition add_or_panic (t : DateTime) (d : Duration) : Exec DateTime :=
  lift_result (ok_or (checked_add_signed t d) Panic).

(** [compute_wake_at]. *)
Definition compute_wake_at (duration : Duration) : Exec DateTime :=
  t ← now;
  match duration_from_std duration with
  | Some d => add_or_panic t d
  | None => fail (RWorkflow (WF.ResumeError show_out_of_range))
  end.

(** [compute_signal_timeout]. *)
Definition compute_signal_timeout (timeout : option Duration) : Exec (option DateTime) :=
  match timeout ≫= duration_from_std with
  | Some d => t ← now; Some <$> add_or_panic t d
  | None => mret None
  end.

(** [save_park_checkpoint]: always an error. *)
Definition save_park_checkpoint {A} (reason : ParkReason) : Exec A :=
  match reason with
  | ParkDelay delay_id wake_at next_task passthrough =>
      modify (set_task_hint (default TaskHint_default next_task)) ≫= λ _,
      entered_at ← now;
      modify_now (λ t, update_position t (AtDelay delay_id entered_at wake_at (hint_id <$> next_task))) ≫= λ _,
      modify_now (λ t, mark_task_completed t delay_id passthrough) ≫= λ _,
      save ≫= λ _,
      fail (RWorkflow (WF.Waiting wake_at))
  | ParkSignal signal_id signal_name timeout next_task =>
      modify (set_task_hint (default TaskHint_default next_task)) ≫= λ _,
      modify_now (λ t, update_position t (AtSignal signal_id signal_name timeout (hint_id <$> next_task))) ≫= λ _,
      save ≫= λ _,
      fail (RWorkflow (WF.AwaitingSignal signal_id signal_name timeout))
  end.

(** [save_branch_park_checkpoint]. *)
Definition save_branch_park_checkpoint {A} (reason : ParkReason) (inst : string) : Exec A :=
  match reason with
  | ParkDelay delay_id wake_at _ passthrough =>
      save_result inst delay_id passthrough ≫= λ _, fail (RWorkflow (WF.Waiting wake_at))
  | ParkSignal signal_id signal_name timeout _ =>
      fail (RWorkflow (WF.AwaitingSignal signal_id signal_name timeout))
  end.

(** The end of an executor's turn: go on, return, or park. *)
Definition finish (exec : WorkflowContinuation F → Bytes → Exec Bytes) (park : ParkReason → Exec Bytes)
    (next : option (WorkflowContinuation F)) (step : StepFlow) : Exec Bytes :=
  match step with
  | SContinue output => proceed exec next output
  | SDone output => mret output
  | SPark reason => park reason
  end.

(** How a fork's step ends, in both executors. *)
Definition join_step (join : option (WorkflowContinuation F)) (branch_results : list (string * Bytes)) :
    Exec StepFlow :=
  resolution ← lift (resolve_join join branch_results);
  mret (match resolution with JContinue input => SContinue input | JDone output => SDone output end).

(** ** Loop hooks ([loop_runner.rs]) *)

(** [CheckpointingLoopHooks::clear_body_tasks]: every node id of the body. *)
Fixpoint remove_results (ids : list string) : Exec unit :=
  match ids with
  | [] => mret ()
  | id :: ids => modify_now (λ t, remove_task_result t (TaskId_from id)) ≫= λ _, remove_results ids
  end.
Definition hook_clear (body : WorkflowContinuation F) : Exec unit :=
  remove_results (task_ids (to_serializable body)).

Definition hook_exit (loop_id : string) (output : Bytes) : Exec unit :=
  modify (clear_loop_iteration (TaskId_from loop_id)) ≫= λ _,
  modify_now (λ t, mark_task_completed t (TaskId_from loop_id) output) ≫= λ _,
  save.

Definition hook_progress (track_position : bool) (loop_id : string) (next_iteration : Z)
    (body : WorkflowContinuation F) : Exec unit :=
  modify_now (λ t, set_loop_iteration t (TaskId_from loop_id) next_iteration) ≫= λ _,
  (if track_position then
     modify_now (λ t, update_position t (InLoop (TaskId_from loop_id) next_iteration
       (Some (TaskId_from (first_task_id body)))))
   else mret ()) ≫= λ _,
  save.

Definition CheckpointingLoopHooks (track_position : bool) : LoopHooks F ExecState Fault :=
  MkLoopHooks hook_clear hook_exit (hook_progress track_position).

(** ** Forks ([fork.rs]) *)

(** [build_completed_branches]: a later branch of the same name replaces an
    earlier one. *)
Definition build_completed_branches (branch_results : list (string * Bytes)) : gmap string TaskResult :=
  foldl (λ m r, <[r.1 := MkTaskResult (TaskId_from r.1) r.2]> m) ∅ branch_results.

(** [collect_cached_branches]. *)
Fixpoint collect_cached_branches (branches : list (WorkflowContinuation F)) (s : WorkflowSnapshot) :
    option (list (string * Bytes)) :=
  match branches with
  | [] => Some []
  | branch :: branches =>
      r ← get_task_result (TaskId_from (cont_id branch)) s;
      rs ← collect_cached_branches branches s;
      Some ((cont_id branch, tr_output r) :: rs)
  end.

Fixpoint save_results (inst : string) (branch_results : list (string * Bytes)) : Exec unit :=
  match branch_results with
  | [] => mret ()
  | (branch_id, output) :: rs =>
      save_result inst (TaskId_from branch_id) output ≫= λ _, save_results inst rs
  end.

(** [park_at_fork]: always an error. *)
Definition park_at_fork {A} (fork_id : string) (branch_results : list (string * Bytes))
    (wake_at : DateTime) : Exec A :=
  s ← snap;
  save_results (instance_id s) branch_results ≫= λ _,
  updated ← run (rt (call (λ _, load_snapshot (instance_id s))));
  t ← now;
  let updated := update_position t (AtFork (TaskId_from fork_id)
    (build_completed_branches branch_results) wake_at) updated in
  updated ← run (rt (call (λ _, save_snapshot updated)));
  modify (λ _, updated) ≫= λ _,
  fail (RWorkflow (WF.Waiting wake_at)).

Fixpoint mark_results (branch_results : list (string * Bytes)) : Exec unit :=
  match branch_results with
  | [] => mret ()
  | (branch_id, output) :: rs =>
      modify_now (λ t, mark_task_completed t (TaskId_from branch_id) output) ≫= λ _, mark_results rs
  end.

(** [save_join_position]. *)
Definition save_join_position (branch_results : list (string * Bytes))
    (join : option (WorkflowContinuation F)) : Exec unit :=
  mark_results branch_results ≫= λ _,
  (match join with
   | Some j =>
       modify_now (λ t, update_position t (AtJoin (TaskId_from (first_task_id j))
         (build_completed_branches branch_results)))
   | None => mret ()
   end) ≫= λ _,
  save.

(** [ForkBranchOutcome]: the results, and the latest wake time. *)
Definition ForkBranchOutcome : Type := list (string * Bytes) * option DateTime.

Definition later (max_wake_at : option DateTime) (wake_at : DateTime) : option DateTime :=
  Some (match max_wake_at with Some existing => Z.max existing wake_at | None => wake_at end).

(** [execute_fork_branches_sequential]; [exec] runs a branch. *)
Section SequentialFork.
Context (exec : WorkflowContinuation F → Exec Bytes) (inst : string).
Fixpoint fork_branches (branches : list (WorkflowContinuation F)) (results : list (string * Bytes))
    (max_wake_at : option DateTime) : Exec ForkBranchOutcome :=
  match branches with
  | [] => mret (results, max_wake_at)
  | branch :: branches =>
      let name := cont_id branch in
      s ← snap;
      match get_task_result (TaskId_from name) s with
      | Some r => fork_branches branches (results ++ [(name, tr_output r)]) max_wake_at
      | None => λ st,
          match exec branch st with
          | (Ok output, st) =>
              (modify_now (λ t, mark_task_completed t (TaskId_from name) output) ≫= λ _,
               save_result inst (TaskId_from name) output ≫= λ _,
               fork_branches branches (results ++ [(name, output)]) max_wake_at) st
          | (Err (Rt (RWorkflow (WF.Waiting wake_at))), st) =>
              fork_branches branches results (later max_wake_at wake_at) st
          | (Err e, st) => (Err e, st)
          end
      end
  end.
End SequentialFork.

Definition execute_fork_branches_sequential (exec : WorkflowContinuation F → Exec Bytes)
    (branches : list (WorkflowContinuation F)) : Exec ForkBranchOutcome :=
  s ← snap; fork_branches exec (instance_id s) branches [] None.

(** [settle_fork_outcome]. *)
Definition settle_fork_outcome (fork_id : string) (outcome : ForkBranchOutcome)
    (join : option (WorkflowContinuation F)) : Exec (list (string * Bytes)) :=
  match outcome.2 with
  | Some wake_at => park_at_fork fork_id outcome.1 wake_at
  | None =>
      guards None ≫= λ _,
      save_join_position outcome.1 join ≫= λ _,
      mret outcome.1
  end.

(** ** The branch executor ([fork.rs]) *)

(** The branch executor's own snapshot: loaded on entry, dropped at the end. *)
Definition with_own_snapshot {A} (inst : string) (m : Exec A) : Exec A := λ st,
  match run (rt (call (λ _, load_snapshot inst))) st with
  | (Ok own, st) => let '(r, st') := m (own, st.2) in (r, (st.1, st'.2))
  | (Err e, st) => (Err e, st)
  end.

Definition cached_or (id : string) (m : Exec StepFlow) : Exec StepFlow :=
  s ← snap;
  match get_task_result (TaskId_from id) s with
  | Some r => mret (SContinue (tr_output r))
  | None => m
  end.

(** The loop of [execute_branch_with_checkpointing], on its own snapshot. *)
Fixpoint branch_loop (inst : string) (c : WorkflowContinuation F) (input : Bytes) {struct c} : Exec Bytes :=
  let finish next step :=
    finish (branch_loop inst) (λ reason, save_branch_park_checkpoint reason inst) next step in
  match c with
  | Task id _ timeout retry_policy _ _ _ next =>
      output ← retry_with_checkpoint id retry_policy timeout false
        (branch_execute_or_skip_task id input timeout inst);
      finish next (SContinue output)
  | Delay id duration next =>
      step ← cached_or id
        (wake_at ← compute_wake_at duration;
         mret (SPark (ParkDelay (TaskId_from id) wake_at None input)));
      finish next step
  | AwaitSignal id signal_name timeout next =>
      step ← cached_or id
        (wake_at ← compute_signal_timeout timeout;
         mret (SPark (ParkSignal (TaskId_from id) signal_name wake_at None)));
      finish next step
  | Fork _ branches join =>
      branch_results ← run_branches (λ b, with_own_snapshot inst (branch_loop inst b input)) branches;
      step ← join_step join branch_results;
      finish join step
  | Branch id _ branches dflt next =>
      step ← cached_or id
        (key_bytes ← user_task (key_fn_id id) input;
         chosen ← lift (resolve_branch (λ b, with_own_snapshot inst (branch_loop inst b input))
           id key_bytes branches dflt);
         branch_output ← chosen.2;
         envelope_bytes ← lift (map_err from_box_error (encode_branch_envelope chosen.1 branch_output));
         save_result inst (TaskId_from id) envelope_bytes ≫= λ _,
         mret (SContinue envelope_bytes));
      finish next step
  | Loop id body max_iterations on_max next =>
      step ← cached_or id
        (s ← snap;
         let cfg := MkLoopConfig id body max_iterations on_max (loop_iteration (TaskId_from id) s) in
         SContinue <$> run_loop_async Rt (CheckpointingLoopHooks false) cfg
           (λ i, with_own_snapshot inst (branch_loop inst body i)) input);
      finish next step
  | ChildWorkflow id child next =>
      step ← cached_or id
        (output ← with_own_snapshot inst (branch_loop inst child input);
         modify_now (λ t, mark_task_completed t (TaskId_from id) output) ≫= λ _,
         save ≫= λ _,
         mret (SContinue output));
      finish next step
  end.

(** [execute_branch_with_checkpointing]. *)
Definition execute_branch_with_checkpointing (inst : string) (c : WorkflowContinuation F) (input : Bytes) :
    Exec Bytes :=
  with_own_snapshot inst (branch_loop inst c input).

(** ** The main executor ([executors.rs]) *)

(** The [for] of its loop node. *)
Section MainLoop.
Context (cfg : LoopConfig F) (execute_body : Bytes → Exec Bytes).
Fixpoint main_loop (n : nat) (iteration : Z) (loop_input : Bytes) : Exec (option Bytes) :=
  match n with
  | O => mret None
  | S n =>
      output ← execute_body loop_input;
      hook_clear (cfg_body cfg) ≫= λ _,
      flow ← lift (resolve_loop_iteration output iteration cfg);
      match flow with
      | LoopExit inner => hook_exit (cfg_id cfg) inner ≫= λ _, mret (Some inner)
      | LoopNext inner =>
          hook_progress true (cfg_id cfg) (iteration + 1) (cfg_body cfg) ≫= λ _,
          main_loop n (iteration + 1) inner
      end
  end.
End MainLoop.

(** [execute_continuation_with_checkpointing]. *)
Fixpoint execute_continuation_with_checkpointing (c : WorkflowContinuation F) (input : Bytes) {struct c} :
    Exec Bytes :=
  let finish next step :=
    finish execute_continuation_with_checkpointing save_park_checkpoint next step in
  match c with
  | Task id _ timeout retry_policy _ _ _ next =>
      output ← execute_task_step id timeout retry_policy next input;
      finish next (SContinue output)
  | Delay id duration next =>
      guards (Some (TaskId_from id)) ≫= λ _,
      s ← snap;
      step ←
        match get_task_result (TaskId_from id) s with
        | Some _ => mret (SContinue input)
        | None =>
            wake_at ← compute_wake_at duration;
            mret (SPark (ParkDelay (TaskId_from id) wake_at (first_task_hint <$> next) input))
        end;
      finish next step
  | AwaitSignal id signal_name timeout next =>
      guards (Some (TaskId_from id)) ≫= λ _,
      s ← snap;
      step ←
        match get_task_result (TaskId_from id) s with
        | Some _ => mret (SContinue (default input (get_task_result_bytes (TaskId_from id) s)))
        | None =>
            payload ← run (rt (call (λ _, consume_event (instance_id s) signal_name)));
            match payload with
            | Some payload =>
                modify_now (λ t, mark_task_completed t (TaskId_from id) payload) ≫= λ _,
                (match next with
                 | Some n =>
                     modify_now (λ t, update_position t (AtTask (hint_id (first_task_hint n)))) ≫= λ _,
                     modify (set_task_hint (first_task_hint n))
                 | None => mret ()
                 end) ≫= λ _,
                save ≫= λ _,
                s ← snap;
                mret (SContinue (default input (get_task_result_bytes (TaskId_from id) s)))
            | None =>
                wake_at ← compute_signal_timeout timeout;
                mret (SPark (ParkSignal (TaskId_from id) signal_name wake_at (first_task_hint <$> next)))
            end
        end;
      finish next step
  | Fork fork_id branches join =>
      guards None ≫= λ _,
      s ← snap;
      branch_results ←
        match collect_cached_branches branches s with
        | Some cached => mret cached
        | None =>
            outcome ← execute_fork_branches_sequential
              (λ b, execute_branch_with_checkpointing (instance_id s) b input) branches;
            settle_fork_outcome fork_id outcome join
        end;
      step ← join_step join branch_results;
      finish join step
  | Branch id _ branches dflt next =>
      guards (Some (TaskId_from id)) ≫= λ _,
      s ← snap;
      step ← cached_or id
        (key_bytes ← user_task (key_fn_id id) input;
         chosen ← lift (resolve_branch
           (λ b, execute_branch_with_checkpointing (instance_id s) b input) id key_bytes branches dflt);
         branch_output ← chosen.2;
         envelope_bytes ← lift (map_err from_box_error (encode_branch_envelope chosen.1 branch_output));
         modify_now (λ t, mark_task_completed t (TaskId_from id) envelope_bytes) ≫= λ _,
         save ≫= λ _,
         mret (SContinue envelope_bytes));
      finish next step
  | Loop id body max_iterations on_max next =>
      guards (Some (TaskId_from id)) ≫= λ _,
      step ← cached_or id
        (s ← snap;
         let start := loop_iteration (TaskId_from id) s in
         let cfg := MkLoopConfig id body max_iterations on_max start in
         final_output ← main_loop cfg (execute_continuation_with_checkpointing body)
           (Z.to_nat (max_iterations - start)) start input;
         match final_output with
         | Some output => mret (SContinue output)
         | None => fail (max_iterations_exceeded id max_iterations)
         end);
      finish next step
  | ChildWorkflow id child next =>
      guards (Some (TaskId_from id)) ≫= λ _,
      step ← cached_or id
        (output ← execute_continuation_with_checkpointing child input;
         modify_now (λ t, mark_task_completed t (TaskId_from id) output) ≫= λ _,
         save ≫= λ _,
         mret (SContinue output));
      finish next step
  end.
End Durable.

(** ** Reasoning about durable runs

    On the in-memory backend, with nobody else acting on it. *)

Section Reasoning.
Context `{Sha256, Chrono, FloatOps, Display, SerdeJson, EnvelopeCodec, TaskCallback, TaskTiming}.
Context {F : Type} `{Environment InMemoryBackend} (quiet : ∀ n b, others n b = b).
Context (inst : string).

Abbreviation ES := (@ExecState InMemoryBackend).
Abbreviation Exec := (io ES Fault).

(** A snapshot of the running instance, with no task deadline. *)
Definition running (s : WorkflowSnapshot) : Prop :=
  is_in_progress (state s) = true ∧ instance_id s = inst ∧ task_deadline s = None.

Definition stored (st : ES) : option WorkflowSnapshot := snapshots (store st.2) !! inst.

(** The executor's snapshot and the stored one are running, no signal is pending. *)
Definition Inv (st : ES) : Prop :=
  running st.1 ∧ (∃ bs, stored st = Some bs ∧ running bs) ∧
  pending (store st.2) inst Cancel = None ∧ pending (store st.2) inst Pause = None.

(** A predicate of both snapshots. *)
Definition both (P : WorkflowSnapshot → Prop) (st : ES) : Prop :=
  P st.1 ∧ ∀ bs, stored st = Some bs → P bs.
Definition absent (t : TaskId) (s : WorkflowSnapshot) : Prop := get_task_result t s = None.
Definition idle (t : TaskId) (s : WorkflowSnapshot) : Prop := loop_iterations s !! t = None.

(** What a step may touch: results of the tasks in [T], counters of the loops in [L]. *)
Definition frame (T L : list TaskId) (st st' : ES) : Prop :=
  (∀ t, t ∉ T → both (absent t) st → both (absent t) st') ∧
  (∀ t, t ∉ L → both (idle t) st → both (idle t) st').

(** [m] succeeds from [st] within its frame. *)
Definition does {A} (T L : list TaskId) (m : Exec A) (st : ES) (Q : A → ES → Prop) : Prop :=
  match m st with
  | (Ok a, st') => Inv st' ∧ frame T L st st' ∧ Q a st'
  | (Err _, _) => False
  end.

Arguments does : simpl never.

Lemma frame_refl T L st : frame T L st st.
Proof. by split. Qed.
Lemma frame_same T L st st' : st'.1 = st.1 → stored st' = stored st → frame T L st st'.
Proof. intros He Hs. split; intros t _; unfold both; by rewrite He, Hs. Qed.
Lemma frame_trans T L st1 st2 st3 : frame T L st1 st2 → frame T L st2 st3 → frame T L st1 st3.
Proof. intros [??] [??]. split; eauto. Qed.
Lemma frame_mono T L T' L' st st' : T ⊆ T' → L ⊆ L' → frame T L st st' → frame T' L' st st'.
Proof. intros Hs1 Hs2 [HT HL]. split; intros t Ht; [apply HT|apply HL]; by intros Hin; apply Ht; auto. Qed.

Lemma does_bind {A C} T L (m : Exec A) (k : A → Exec C) st Q Q' :
  does T L m st Q →
  (∀ a st', Inv st' → frame T L st st' → Q a st' → does T L (k a) st' Q') →
  does T L (m ≫= k) st Q'.
Proof.
  unfold does, mbind, io_bind. destruct (m st) as [[a|e] st']; [|done]. intros (HI & Hf & HQ) Hk.
  specialize (Hk a st' HI Hf HQ). destruct (k a st') as [[c|e] st'']; [|done].
  destruct Hk as (? & ? & ?). split; [done|]. split; [by eapply frame_trans|done].
Qed.

Lemma does_mono {A} T L T' L' (m : Exec A) st (Q Q' : A → ES → Prop) :
  T ⊆ T' → L ⊆ L' → does T L m st Q → (∀ a st', Inv st' → frame T L st st' → Q a st' → Q' a st') →
  does T' L' m st Q'.
Proof.
  unfold does. destruct (m st) as [[a|e] st']; [|done]. intros ?? (HI & Hf & HQ) HQ'.
  split; [done|]. split; [by eapply frame_mono|by apply HQ'].
Qed.

Lemma does_weaken {A} T L T' L' (m : Exec A) st (Q : A → ES → Prop) :
  T ⊆ T' → L ⊆ L' → does T L m st Q → does T' L' m st Q.
Proof. intros. by eapply does_mono. Qed.

(** Two steps with frames of their own. *)
Lemma does_seq {A C} T1 T2 T L (m : Exec A) (k : A → Exec C) st Q Q' :
  T1 ⊆ T → T2 ⊆ T → does T1 L m st Q →
  (∀ a st', Inv st' → frame T1 L st st' → Q a st' → does T2 L (k a) st' Q') →
  does T L (m ≫= k) st Q'.
Proof.
  intros Hs1 Hs2 Hm Hk. unfold does, mbind, io_bind in *.
  destruct (m st) as [[a|e] st']; [|done]. destruct Hm as (HI & Hf & HQ).
  specialize (Hk a st' HI Hf HQ). destruct (k a st') as [[c|e] st'']; [|done].
  destruct Hk as (? & ? & ?). split; [done|]. split; [|done].
  eapply frame_trans; (eapply frame_mono; [| |done]; done).
Qed.

Lemma does_ret {A} T L (a : A) st (Q : A → ES → Prop) : Inv st → Q a st → does T L (mret a) st Q.
Proof. intros ??. split; [done|]. split; [apply frame_refl|done]. Qed.

Lemma does_snap T L st : Inv st → does T L snap st (λ s st', s = st.1 ∧ st' = st).
Proof. intros ?. split; [done|]. split; [apply frame_refl|done]. Qed.

(** The mutations of a snapshot that keep it running and touch only [T], [L]. *)
Definition keeps (T L : list TaskId) (g : WorkflowSnapshot → WorkflowSnapshot) : Prop :=
  ∀ s, running s → running (g s) ∧ (∀ t, t ∉ T → absent t s → absent t (g s)) ∧
    (∀ t, t ∉ L → idle t s → idle t (g s)).

Lemma does_modify T L g st :
  keeps T L g → Inv st → does T L (modify g) st (λ _ st', st' = (g st.1, st.2)).
Proof.
  intros Hg (Hr & Hs & Hp). destruct (Hg _ Hr) as (Hr' & HT & HL).
  split; [exact (conj Hr' (conj Hs Hp))|]. split; [|done].
  split; intros t Ht [Ha Hb]; split; cbn; auto.
Qed.

Lemma does_modify_now T L g st :
  (∀ t, keeps T L (g t)) → Inv st →
  does T L (modify_now g) st (λ _ st', ∃ t, st'.1 = g t st.1 ∧ stored st' = stored st).
Proof.
  intros Hg HI. unfold modify_now, now, run, read_clock, mbind, io_bind. cbn.
  set (st1 := (st.1, MkWorld (store st.2) (S (steps st.2))) : ES).
  assert (HI1 : Inv st1) by exact HI.
  pose proof (does_modify T L (g (clock (steps st.2))) st1 (Hg _) HI1) as Hd.
  unfold does in *. cbn in *. destruct Hd as (? & Hf & _). split; [done|]. split; [exact Hf|]. by eexists.
Qed.

Lemma does_user_task f T L id i o st :
  (∀ n id i, run_task n id i = f id i) → f id i = Ok o → Inv st →
  does T L (user_task id i) st (λ r st', r = o ∧ st'.1 = st.1).
Proof.
  intros Hf Ho HI. unfold does, user_task. rewrite Hf, Ho. cbn.
  split; [exact HI|]. split; [by apply frame_same|done].
Qed.

Lemma does_lift {A} T L (r : result RuntimeError A) a st :
  r = Ok a → Inv st → does T L (lift r) st (λ x st', x = a ∧ st' = st).
Proof. intros -> HI. split; [done|]. split; [apply frame_refl|done]. Qed.

(** Saving makes the stored snapshot the executor's. *)
Lemma save_eq st : running st.1 →
  save st = (Ok (), (st.1, MkWorld (with_snapshots (<[inst := st.1]> (snapshots (store st.2))) (store st.2))
    (S (steps st.2)))).
Proof.
  intros (Hp & Hi & _). unfold save, snap, run, modify, rt, io_map_err, call, mbind, io_bind. cbn.
  unfold mem_save_snapshot. rewrite quiet. unfold is_in_progress in Hp.
  destruct (state st.1); try done. cbn. by rewrite Hi.
Qed.

Lemma does_save T L st :
  Inv st → does T L save st (λ _ st', st'.1 = st.1 ∧ stored st' = Some st.1).
Proof.
  intros (Hr & Hs & Hp). unfold does. rewrite save_eq by done.
  assert (Hst : stored (st.1, MkWorld (with_snapshots (<[inst := st.1]> (snapshots (store st.2))) (store st.2))
    (S (steps st.2))) = Some st.1) by apply lookup_insert_eq.
  split; [|split; [|done]].
  - split; [done|]. split; [exists st.1; by split|exact Hp].
  - split; intros t _ [Ha Hb]; (split; [done|]); rewrite Hst; by intros ? [= <-].
Qed.

(** *** The mutations the executors use *)

Lemma keeps_mark T L t id o : id ∈ T → keeps T L (mark_task_completed t id o).
Proof.
  intros Hid s (Hp & Hi & Hd). unfold running, absent, idle, get_task_result, mark_task_completed.
  destruct (state s) eqn:Hs; try done. cbn. repeat split; try done.
  intros t' Ht'. rewrite lookup_insert_ne; [done|]. by intros <-.
Qed.

Lemma keeps_position T L t p : keeps T L (update_position t p).
Proof.
  intros s (Hp & Hi & Hd). unfold running, absent, idle, get_task_result, update_position.
  by destruct (state s) eqn:Hs.
Qed.

Lemma keeps_hint T L h : keeps T L (set_task_hint h).
Proof. done. Qed.

Lemma keeps_clear_retry T L t : keeps T L (clear_retry_state t).
Proof. done. Qed.

Lemma keeps_clear_deadline T L : keeps T L clear_task_deadline.
Proof. by intros s (? & ? & ?). Qed.

Lemma keeps_remove T L t id : keeps T L (remove_task_result t id).
Proof.
  intros s (Hp & Hi & Hd). unfold running, absent, idle, get_task_result, remove_task_result.
  destruct (state s) eqn:Hs; try done. cbn. repeat split; try done.
  intros t' _ Ht'. by rewrite lookup_delete_None; right.
Qed.

Lemma keeps_set_loop T L t id k : id ∈ L → keeps T L (set_loop_iteration t id k).
Proof.
  intros Hid s Hr. split; [done|]. split; [done|]. intros t' Ht' Hi.
  unfold idle. cbn. rewrite lookup_insert_ne; [done|]. by intros <-.
Qed.

Lemma keeps_clear_loop T L id : keeps T L (clear_loop_iteration id).
Proof.
  intros s Hr. split; [done|]. split; [done|]. intros t' Ht' Hi.
  unfold idle. cbn. by rewrite lookup_delete_None; right.
Qed.

Lemma running_remove t id s : running s → absent id (remove_task_result t id s).
Proof.
  intros (Hp & _). unfold absent, get_task_result, remove_task_result.
  destruct (state s); try done. apply lookup_delete_eq.
Qed.

(** *** Backend calls *)

Lemma does_guards T L scope st : Inv st →
  does T L (guards scope) st (λ _ st', st'.1 = st.1 ∧ stored st' = stored st).
Proof.
  intros HI. destruct (HI) as ((_ & Hi & _) & _ & Hc & Hp).
  unfold does, guards, check_guards, snap, run, rt, io_map_err, call, mbind, io_bind. cbn.
  rewrite Hi, !quiet. unfold mem_check_and_cancel. rewrite Hc. cbn. rewrite quiet.
  unfold mem_check_and_pause. rewrite Hp. cbn. split; [exact HI|]. split; [by apply frame_same|done].
Qed.

Lemma does_save_result T L id o st : id ∈ T → Inv st →
  does T L (save_result inst id o) st (λ _ st', st'.1 = st.1).
Proof.
  intros Hid (Hr & (bs & Hs & Hb) & Hp). unfold stored in Hs.
  unfold does, save_result, run, rt, io_map_err, call. cbn. rewrite quiet.
  unfold mem_save_task_result. rewrite Hs. cbn.
  set (t := clock (steps st.2)). destruct (keeps_mark T L t id o Hid bs Hb) as (Hb' & HT & HL).
  assert (Hst : ∀ m, stored (st.1, MkWorld (with_snapshots
    (<[inst := mark_task_completed t id o bs]> (snapshots (store st.2))) (store st.2)) m) =
    Some (mark_task_completed t id o bs)) by (intros; apply lookup_insert_eq).
  split; [|split; [|done]].
  - split; [done|]. split; [eexists; split; [apply Hst|done]|exact Hp].
  - split; intros u Hu [Ha Hb'']; (split; [done|]); rewrite Hst; intros ? [= <-];
      [apply HT|apply HL]; auto.
Qed.

(** A nested executor on its own snapshot. *)
Lemma does_own {A} T L (m : Exec A) st Q :
  Inv st →
  (∀ st', Inv st' → frame [] [] st st' → does T L m st' (λ a _, Q a)) →
  does T L (with_own_snapshot inst m) st (λ a st', Q a ∧ st'.1 = st.1).
Proof.
  intros HI Hm. destruct (HI) as (Hr & (bs & Hs & Hb) & Hp). unfold stored in Hs.
  unfold does, with_own_snapshot, run, rt, io_map_err, call. cbn. rewrite quiet.
  unfold mem_load_snapshot. rewrite Hs. cbn.
  set (st1 := (bs, MkWorld (store st.2) (S (steps st.2))) : ES).
  assert (HI1 : Inv st1). { split; [done|]. split; [by exists bs|done]. }
  assert (Hf1 : frame [] [] st st1).
  { split; intros t _ [Ha Hb']; (split; [by apply Hb'|exact Hb']). }
  specialize (Hm st1 HI1 Hf1). unfold does in Hm. subst st1.
  destruct (m _) as [[a|e] st2]; [|done]. destruct Hm as ((_ & Hs2 & Hp2) & [HT HL] & HQ).
  split; [by split; [|split]|]. split; [|done].
  split; intros t Ht [Ha Hb']; (split; [done|]).
  - apply (HT t Ht). split; [by apply Hb'|exact Hb'].
  - apply (HL t Ht). split; [by apply Hb'|exact Hb'].
Qed.

Lemma does_modify_panic {A} T L (g : WorkflowSnapshot → option (A * WorkflowSnapshot)) a st :
  g st.1 = Some (a, st.1) → Inv st → does T L (modify_panic g) st (λ _ st', st'.1 = st.1).
Proof.
  intros Hg HI. unfold does, modify_panic. rewrite Hg.
  split; [by destruct st|]. split; [by apply frame_same|done].
Qed.

Lemma does_now T L st : Inv st → does T L now st (λ _ st', st'.1 = st.1).
Proof. intros HI. split; [exact HI|]. split; [by apply frame_same|done]. Qed.

(** No deadline, no timeout. *)
Lemma does_check_deadline T L t st : Inv st → does T L (check_deadline t) st (λ _ st', st'.1 = st.1).
Proof.
  intros HI. destruct (HI) as ((_ & _ & Hd) & _).
  unfold check_deadline. eapply does_bind; [by apply does_snap|]. intros s st1 HI1 _ [-> ->].
  unfold expired_task_deadline. rewrite Hd. by apply does_ret.
Qed.

(** ** Task steps *)

Section TaskSteps.
Context (f : string → Bytes → result BoxError Bytes) (Hf : ∀ n id i, run_task n id i = f id i).

Lemma does_branch_task id i o st :
  f id i = Ok o → absent (TaskId_from id) st.1 → Inv st →
  does [TaskId_from id] [] (branch_execute_or_skip_task id i None inst) st (λ r _, r = o).
Proof.
  intros Ho Ha HI. unfold branch_execute_or_skip_task.
  eapply does_bind; [by apply does_snap|]. intros s st1 HI1 _ [-> ->]. rewrite Ha.
  eapply does_bind; [by apply (does_ret _ _ () _ (λ _ _, True))|]. intros _ st1 HI1' _ _.
  eapply does_bind; [by eapply does_user_task|]. intros r st2 HI2 _ [-> _].
  eapply does_bind; [by apply does_now|]. intros t st3 HI3 _ _.
  eapply does_bind; [by apply does_check_deadline|]. intros _ st4 HI4 _ _.
  eapply does_bind; [by apply does_modify; [apply keeps_clear_deadline|]|]. intros _ st5 HI5 _ _.
  eapply does_bind; [by apply does_save_result; [apply list_elem_of_here|]|]. intros _ st6 HI6 _ _.
  by apply does_ret.
Qed.

(** A completed task, on the executor's snapshot. *)
Lemma does_main_task id i o st :
  f id i = Ok o → absent (TaskId_from id) st.1 → Inv st →
  does [TaskId_from id] [] (execute_or_skip_task id i) st
    (λ r st', r = o ∧ ∃ t, st'.1 = mark_task_completed t (TaskId_from id) o st.1).
Proof.
  intros Ho Ha HI. unfold execute_or_skip_task.
  eapply does_bind; [by apply does_snap|]. intros s st1 HI1 _ [-> ->]. rewrite Ha.
  eapply does_bind; [by apply does_now|]. intros t st1 HI1' _ He1.
  eapply does_bind; [by apply does_check_deadline|]. intros [] st2 HI2 _ He2.
  eapply does_bind; [by apply does_now|]. intros t' st3 HI3 _ He3.
  eapply does_bind.
  { apply (does_modify_panic _ _ _ ()); [|done]. destruct (HI3) as ((_ & _ & Hd) & _).
    unfold refresh_task_deadline. by rewrite Hd. }
  intros [] st4 HI4 _ He4.
  eapply does_bind; [by apply does_snap|]. intros s st5 HI5 _ [-> ->].
  destruct (HI4) as ((_ & _ & Hd) & _). rewrite Hd.
  eapply does_bind; [by eapply does_user_task|]. intros r st6 HI6 _ [-> He6].
  eapply does_bind; [by apply does_modify; [apply keeps_clear_deadline|]|]. intros [] st7 HI7 _ ->.
  eapply does_bind; [apply does_modify_now; [|done]; intros; apply keeps_mark, list_elem_of_here|].
  intros [] st8 HI8 _ (t'' & He8 & _). apply does_ret; [done|]. split; [done|]. exists t''.
  rewrite He8. cbn. rewrite He6, He4, He3, He2, He1. f_equal. destruct HI as ((_ & _ & Hd0) & _).
  destruct (st.1). cbn in *. by subst.
Qed.

Lemma does_retry T L id rp timeout sb (m : Exec Bytes) st Q :
  does T L m st Q →
  does T L (retry_with_checkpoint id rp timeout sb m) st
    (λ r st', ∃ st1, Q r st1 ∧ st'.1 = clear_retry_state (TaskId_from id) st1.1).
Proof.
  intros Hm. unfold retry_with_checkpoint.
  assert (∃ n, (match rp with Some rp => S (S (Z.to_nat (max_retries rp))) | None => 1%nat end) = S n)
    as [n ->] by (destruct rp; eauto).
  unfold does in *. cbn. destruct (m st) as [[r|e] st1]; [|done]. cbn.
  destruct Hm as (HI & Hfr & HQ). split; [exact HI|]. split; [|by exists st1].
  eapply frame_trans; [done|]. split; intros t _ [Ha Hb]; by split.
Qed.

(** The snapshot after a task step that goes on to [next]. *)
Definition after_step (t t' : DateTime) (id : string) (o : Bytes) (next : option (WorkflowContinuation F))
    (s : WorkflowSnapshot) : WorkflowSnapshot :=
  let s := clear_retry_state (TaskId_from id) (mark_task_completed t (TaskId_from id) o s) in
  match next with
  | Some n => set_task_hint (first_task_hint n) (update_position t' (AtTask (hint_id (first_task_hint n))) s)
  | None => s
  end.

Lemma does_task_step id rp (next : option (WorkflowContinuation F)) i o st :
  f id i = Ok o → absent (TaskId_from id) st.1 → Inv st →
  does [TaskId_from id] [] (execute_task_step id None rp next i) st
    (λ r st', r = o ∧ stored st' = Some st'.1 ∧ ∃ t t', st'.1 = after_step t t' id o next st.1).
Proof.
  intros Ho Ha HI. unfold execute_task_step.
  eapply does_bind; [by apply does_guards|]. intros [] st1 HI1 _ [He _]. rewrite <-He in Ha |- *.
  unfold set_deadline_if_needed.
  eapply (does_bind _ _ _ _ _ (λ _ st', st' = st1)).
  { eapply does_bind; [by apply does_snap|]. intros s st2 HI2 _ [-> ->]. rewrite Ha. by apply does_ret. }
  intros [] ? _ _ ->.
  eapply does_bind; [by eapply does_retry, does_main_task|]. intros r st3 HI3 _ (st2 & (-> & t & He2) & He3).
  eapply (does_bind _ _ _ _ _ (λ _ st', ∃ t', st'.1 = after_step t t' id o next st1.1)).
  { unfold after_step. rewrite <-He2, <-He3. destruct next; [|by apply does_ret; [done|exists 0]].
    eapply does_bind.
    - apply does_modify_now; [|done]. intros; apply keeps_position.
    - intros [] st4 HI4 _ (t' & He4 & _). eapply does_mono; [done|done|by apply does_modify; [apply keeps_hint|]|].
      intros [] ? _ _ ->. exists t'. cbn. by rewrite He4. }
  intros [] st4 HI4 _ [t' He4]. eapply does_bind; [by apply does_save|]. intros [] st5 HI5 _ [He5 Hs5].
  eapply does_bind; [by apply does_guards|]. intros [] st6 HI6 _ [He6 Hs6].
  apply does_ret; [done|]. split; [done|]. rewrite He6, Hs6, Hs5, He5. split; [done|]. by exists t, t'.
Qed.
End TaskSteps.

(** ** Loops *)

Definition tids (l : list string) : list TaskId := TaskId_from <$> l.

(** Nothing is recorded for the nodes in [T]. *)
Definition clean (T : list TaskId) (st : ES) : Prop :=
  ∀ t, t ∈ T → both (absent t) st ∧ both (idle t) st.

Lemma clean_subset T T' st : T ⊆ T' → clean T' st → clean T st.
Proof. intros Hs Hc t Ht. by apply Hc, Hs. Qed.

Lemma clean_absent T t st : t ∈ T → clean T st → absent t st.1.
Proof. intros Ht Hc. exact (proj1 (proj1 (Hc t Ht))). Qed.
Lemma clean_idle T t st : t ∈ T → clean T st → idle t st.1.
Proof. intros Ht Hc. exact (proj1 (proj2 (Hc t Ht))). Qed.

(** Cleanness outside the frame survives. *)
Lemma clean_frame T L D st st' :
  (∀ t, t ∈ D → (t ∉ T) ∧ (t ∉ L)) → clean D st → frame T L st st' → clean D st'.
Proof.
  intros Hd Hc [HT HL] t Ht. destruct (Hd t Ht), (Hc t Ht). split; auto.
Qed.

Lemma clean_after T D st st' :
  (∀ t, t ∈ T → t ∉ D) → frame T [] st st' → clean D st → clean D st'.
Proof.
  intros Hd Hfr Hc. eapply clean_frame; [|exact Hc|exact Hfr]. intros t Ht.
  split; [intros Ht'; by eapply Hd|apply not_elem_of_nil].
Qed.

Lemma subseteq_app_l {A} (l k : list A) : l ⊆ l ++ k.
Proof. clear quiet. set_solver. Qed.
Lemma subseteq_app_r {A} (l k : list A) : k ⊆ l ++ k.
Proof. clear quiet. set_solver. Qed.

Lemma does_remove_results ids st : Inv st →
  does [] [] (remove_results ids) st (λ _ st', ∀ t, t ∈ tids ids ∨ absent t st.1 → absent t st'.1).
Proof.
  revert st; induction ids as [|id ids IH]; intros st HI; cbn.
  { apply does_ret; [done|]. intros t [Ht|]; [by apply not_elem_of_nil in Ht|done]. }
  eapply does_bind; [apply does_modify_now; [intros; apply keeps_remove|done]|].
  intros [] st1 HI1 _ (t & He & _). eapply does_mono; [done|done|by apply IH|].
  intros [] st2 _ _ Hall t' Ht'. apply Hall. rewrite He.
  destruct (HI) as (Hr & _). destruct Ht' as [Ht'|Ht'].
  - apply elem_of_cons in Ht' as [->|Ht']; [right; by apply running_remove|by left].
  - right. by apply (keeps_remove [] [] t (TaskId_from id) st.1 Hr); [apply not_elem_of_nil|].
Qed.

Lemma does_hook_exit id o st : Inv st →
  does [TaskId_from id] [] (hook_exit id o) st (λ _ st', both (idle (TaskId_from id)) st').
Proof.
  intros HI. unfold hook_exit.
  eapply does_bind; [by apply does_modify; [apply keeps_clear_loop|]|]. intros [] st1 HI1 _ He1.
  eapply does_bind; [apply does_modify_now; [intros; apply keeps_mark, list_elem_of_here|done]|].
  intros [] st2 HI2 _ (t & He2 & _). eapply does_mono; [done|done|by apply does_save|].
  intros [] st3 _ _ [He3 Hs3]. assert (Hidle : idle (TaskId_from id) st2.1).
  { rewrite He2, He1. destruct (HI) as (Hr & _).
    destruct (keeps_clear_loop [] [] (TaskId_from id) _ Hr) as (Hr' & _).
    apply (keeps_mark [TaskId_from id] [] t (TaskId_from id) o (list_elem_of_here _ _) _ Hr');
      [apply not_elem_of_nil|apply lookup_delete_eq]. }
  split; [by rewrite He3|]. rewrite Hs3. by intros ? [= <-].
Qed.

Lemma does_hook_progress tp id k (body : WorkflowContinuation F) st : Inv st →
  does [] [TaskId_from id] (hook_progress tp id k body) st
    (λ _ st', ∀ t, absent t st.1 → both (absent t) st').
Proof.
  intros HI. unfold hook_progress.
  eapply does_bind; [apply does_modify_now; [intros; apply keeps_set_loop, list_elem_of_here|done]|].
  intros [] st1 HI1 _ (t1 & He1 & _).
  eapply (does_bind _ _ _ _ _ (λ _ st', ∀ t, absent t st1.1 → absent t st'.1)).
  { destruct tp; [|by apply does_ret].
    eapply does_mono; [done|done|apply does_modify_now; [intros; apply keeps_position|done]|].
    intros [] st2 _ _ (t2 & He2 & _) t Ht. rewrite He2. destruct (HI1) as (Hr & _).
    by apply (keeps_position [] [] t2 (InLoop (TaskId_from id) k (Some (TaskId_from (first_task_id body)))) st1.1 Hr); [apply not_elem_of_nil|]. }
  intros [] st2 HI2 _ Ha. eapply does_mono; [done|done|by apply does_save|].
  intros [] st3 _ _ [He3 Hs3] t Ht. assert (Ha2 : absent t st2.1) by (apply Ha; by rewrite He1).
  split; [by rewrite He3|]. rewrite Hs3. by intros ? [= <-].
Qed.

Section Loops.
Context (f : string → Bytes → result BoxError Bytes).
Context (tp : bool) (cfg : LoopConfig F) (exec : Bytes → Exec Bytes).
Let ids := tids (node_ids (cfg_body cfg)).
Let lid := TaskId_from (cfg_id cfg).
Hypothesis Hfresh : lid ∉ ids.
Hypothesis Hexec : ∀ i env st, evaluates f eq (cfg_body cfg) i env → Inv st → clean ids st →
  does ids [] (exec i) st (λ r _, r = env).

Lemma does_async_loop n k i o st :
  Z.of_nat n = Z.max 0 (cfg_max_iterations cfg - k) →
  iterates f eq (cfg_body cfg) (cfg_max_iterations cfg) (cfg_on_max cfg) k i o →
  Inv st → clean ids st →
  does (lid :: ids) [lid] (async_loop Rt (CheckpointingLoopHooks tp) cfg exec n k i) st
    (λ r st', r = o ∧ both (idle lid) st').
Proof.
  revert k i st; induction n as [|n IH]; intros k i st Hn Hit HI Hc.
  { apply iterates_bound in Hit. lia. }
  apply iterates_step in Hit as (env & He & flow & Hr & Hflow); [|lia]. cbn.
  eapply does_bind; [apply (does_weaken ids []); [set_solver..|by apply Hexec]|].
  intros r st1 HI1 Hf1 ->.
  eapply does_bind; [apply (does_weaken [] []); [set_solver..|by apply does_remove_results]|].
  intros [] st2 HI2 Hf2 Ha. rewrite task_ids_to_serializable in Ha.
  eapply does_bind; [exact (does_lift _ _ _ _ _ Hr HI2)|]. intros ? ? _ _ [-> ->].
  destruct flow as [x|x].
  - subst x. eapply does_bind; [apply (does_weaken [lid] []); [set_solver..|by apply does_hook_exit]|].
    intros [] st3 HI3 _ Hidle. by apply does_ret.
  - apply resolve_next_bound in Hr.
    eapply does_bind; [apply (does_weaken [] [lid]); [set_solver..|by apply does_hook_progress]|].
    intros [] st3 HI3 Hf3 Ha3. apply IH; [lia|done|done|].
    intros t Ht. split; [apply Ha3, Ha; by left|].
    assert (t ∉ [lid]) by (by intros ->%list_elem_of_singleton).
    apply (proj2 Hf3), (proj2 Hf2), (proj2 Hf1); try done. by apply Hc.
Qed.

(** The main executor's loop does what the hooks' loop does. *)
Lemma main_loop_async n k i o st st' :
  async_loop Rt (CheckpointingLoopHooks true) cfg exec n k i st = (Ok o, st') →
  main_loop cfg exec n k i st = (Ok (Some o), st').
Proof.
  revert k i st; induction n as [|n IH]; intros k i st; cbn; [done|].
  unfold mbind, io_bind. destruct (exec i st) as [[out|] st1]; [|done].
  destruct (hook_clear (cfg_body cfg) st1) as [[[]|] st2]; [|done]. unfold lift, lift_result.
  destruct (resolve_loop_iteration out k cfg) as [[x|x]|]; cbn; [| |done].
  - destruct (hook_exit (cfg_id cfg) x st2) as [[[]|] st3]; [|done]. by intros [= -> ->].
  - destruct (hook_progress true (cfg_id cfg) (k + 1) (cfg_body cfg) st2) as [[[]|] st3]; [|done].
    apply IH.
Qed.

Lemma does_main_loop n k i o st :
  tp = true →
  Z.of_nat n = Z.max 0 (cfg_max_iterations cfg - k) →
  iterates f eq (cfg_body cfg) (cfg_max_iterations cfg) (cfg_on_max cfg) k i o →
  Inv st → clean ids st →
  does (lid :: ids) [lid] (main_loop cfg exec n k i) st (λ r st', r = Some o ∧ both (idle lid) st').
Proof.
  intros Htp Hn Hit HI Hc. pose proof (does_async_loop n k i o st Hn Hit HI Hc) as Hd.
  unfold does in *. rewrite Htp in Hd.
  destruct (async_loop Rt (CheckpointingLoopHooks true) cfg exec n k i st) as [[y|] st1] eqn:Hrun; [|done].
  rewrite (main_loop_async _ _ _ _ _ _ Hrun). destruct Hd as (? & ? & -> & ?). done.
Qed.
End Loops.

(** ** The executors on trees that run without waiting *)

(** No task has a timeout, and nothing waits for the clock or for a signal. *)
Fixpoint immediate (c : WorkflowContinuation F) : bool :=
  let opt (o : option (WorkflowContinuation F)) : bool :=
    match o with Some n => immediate n | None => true end in
  match c with
  | Task _ _ timeout _ _ _ _ next => bool_decide (timeout = None) && opt next
  | Fork _ bs join => forallb immediate bs && opt join
  | Delay _ _ _ | AwaitSignal _ _ _ _ => false
  | Branch _ _ bs dflt next => forallb (λ kb, immediate kb.2) bs && opt dflt && opt next
  | Loop _ body _ _ next => immediate body && opt next
  | ChildWorkflow _ child next => immediate child && opt next
  end.

Definition opt_ids (o : option (WorkflowContinuation F)) : list string :=
  match o with Some n => node_ids n | None => [] end.

Lemma tids_cons id l : tids (id :: l) = TaskId_from id :: tids l.
Proof. done. Qed.
Lemma tids_mono l k : l ⊆ k → tids l ⊆ tids k.
Proof. intros Hs t (n & -> & Hn)%list_elem_of_fmap. apply list_elem_of_fmap. exists n. auto. Qed.
Lemma tids_app l k : tids (l ++ k) = tids l ++ tids k.
Proof. apply fmap_app. Qed.

(** The head and the tail of a node's ids. *)
Lemma clean_head id l st : clean (tids (id :: l)) st → absent (TaskId_from id) st.1.
Proof. apply clean_absent, list_elem_of_here. Qed.
Lemma clean_tail id l st : clean (tids (id :: l)) st → clean (tids l) st.
Proof. apply clean_subset. intros t Ht. by apply list_elem_of_further. Qed.
Lemma clean_loop id l st : clean (tids (id :: l)) st → loop_iteration (TaskId_from id) st.1 = 0.
Proof.
  intros Hc. unfold loop_iteration. by rewrite (clean_idle _ _ _ (list_elem_of_here _ _) Hc).
Qed.

Lemma does_settle {A} T x (m : Exec A) st Q :
  does T [x] m st (λ a st', Q a st' ∧ both (idle x) st') → does T [] m st Q.
Proof.
  unfold does. destruct (m st) as [[a|] st']; [|done]. intros (HI & [HT HL] & HQ & Hi).
  split; [done|]. split; [|done]. split; [done|]. intros t _ Ht.
  destruct (decide (t = x)) as [->|]; [done|]. apply HL; [|done]. by intros ?%list_elem_of_singleton.
Qed.

Lemma does_cached T L id (m : Exec StepFlow) st Q :
  absent (TaskId_from id) st.1 → Inv st → does T L m st Q → does T L (cached_or id m) st Q.
Proof.
  intros Ha HI Hm. unfold does, cached_or, snap, mbind, io_bind. by rewrite Ha.
Qed.

Section Trees.
Context (f : string → Bytes → result BoxError Bytes) (Hf : ∀ n id i, run_task n id i = f id i).

(** [exec] gives the tree's output, and records at most the tree's own nodes. *)
Definition runs_ok (exec : WorkflowContinuation F → Bytes → Exec Bytes) (c : WorkflowContinuation F) : Prop :=
  ∀ i o st, evaluates f eq c i o → Inv st → clean (tids (node_ids c)) st →
    does (tids (node_ids c)) [] (exec c i) st (λ r _, r = o).

Lemma does_proceed exec park next o res st :
  opt_all (runs_ok exec) next → continues f eq next o res → Inv st → clean (tids (opt_ids next)) st →
  does (tids (opt_ids next)) [] (finish exec park next (SContinue o)) st (λ r _, r = res).
Proof.
  intros Hn Hc%continues_inv HI Hcl. destruct next as [n|]; cbn in *; [by apply Hn|]. by apply does_ret.
Qed.

(** One node, then the rest of the chain. *)
Lemma does_node {A} (mk : A → StepFlow) exec park T (head : Exec A) a next o res st :
  does T [] head st (λ x _, x = a) → mk a = SContinue o →
  NoDup (T ++ tids (opt_ids next)) → clean (tids (opt_ids next)) st →
  opt_all (runs_ok exec) next → continues f eq next o res →
  does (T ++ tids (opt_ids next)) [] (x ← head; finish exec park next (mk x)) st (λ r _, r = res).
Proof.
  intros Hh Hmk (_ & Hdis & _)%NoDup_app Hcl Hn Hc.
  eapply does_seq; [apply subseteq_app_l|apply subseteq_app_r|exact Hh|].
  intros x st1 HI1 Hf1 ->. rewrite Hmk. apply does_proceed; [done|done|done|]. by eapply clean_after.
Qed.

Lemma does_own_branch exec b i o st :
  runs_ok exec b → evaluates f eq b i o → Inv st → clean (tids (node_ids b)) st →
  does (tids (node_ids b)) [] (with_own_snapshot inst (exec b i)) st (λ r st', r = o ∧ st'.1 = st.1).
Proof.
  intros Hb He HI Hc. apply does_own; [done|]. intros st' HI' Hf'. apply Hb; [done|done|].
  eapply clean_frame; [|exact Hc|exact Hf']. intros t _. split; apply not_elem_of_nil.
Qed.

Lemma does_run_branches exec bs i rs st :
  Forall (runs_ok exec) bs → NoDup (tids (flat_map node_ids bs)) → all_evaluate f eq bs i rs →
  Inv st → clean (tids (flat_map node_ids bs)) st →
  does (tids (flat_map node_ids bs)) [] (run_branches (λ b, with_own_snapshot inst (exec b i)) bs) st
    (λ r _, r = rs).
Proof.
  intros Hbs. revert rs st. induction Hbs as [|b bs Hb Hbs IH]; intros rs st; cbn.
  { intros _ ->%all_evaluate_nil HI _. by apply does_ret. }
  rewrite tids_app. intros (_ & Hdis & Hnd)%NoDup_app (o & Ho & rs' & Hrs & ->)%all_evaluate_cons HI Hc.
  eapply does_seq; [apply subseteq_app_l|apply subseteq_app_r| |].
  { apply does_own_branch; [done|done|done|]. eapply clean_subset; [|exact Hc]. apply subseteq_app_l. }
  intros r st1 HI1 Hf1 [-> _]. eapply does_bind; [apply IH; [done|done|done|]|].
  { eapply clean_after; [exact Hdis|exact Hf1|]. eapply clean_subset; [|exact Hc]. apply subseteq_app_r. }
  intros r st2 HI2 _ ->. by apply does_ret.
Qed.

(** A conditional branch: route, run the chosen branch, wrap, record. *)
Lemma does_routed (key_m : Exec Bytes) (resolve : Bytes → result RuntimeError (string * Exec Bytes))
    (record : Bytes → Exec StepFlow) (run_b : Exec Bytes) id kb key o e T st :
  (∀ st, Inv st → does [] [] key_m st (λ r _, r = kb)) → resolve kb = Ok (key, run_b) →
  encode_branch_envelope key o = Ok e → Inv st → clean T st →
  (∀ st, Inv st → clean T st → does T [] run_b st (λ r _, r = o)) →
  (∀ st, Inv st → does [TaskId_from id] [] (record e) st (λ x _, x = SContinue e)) →
  does (TaskId_from id :: T) []
    (key_bytes ← key_m;
     chosen ← lift (resolve key_bytes);
     branch_output ← chosen.2;
     envelope ← lift (map_err from_box_error (encode_branch_envelope chosen.1 branch_output));
     record envelope) st (λ x _, x = SContinue e).
Proof.
  clear Hf. intros Hk Hr He HI Hc Hrun Hrec.
  eapply (does_seq [] _ _); [set_solver|reflexivity|by apply Hk|]. intros r st1 HI1 Hf1 ->.
  eapply does_bind; [exact (does_lift _ _ _ _ _ Hr HI1)|]. intros ? ? _ _ [-> ->]. cbn.
  eapply (does_seq T [TaskId_from id]); [set_solver|set_solver|apply Hrun; [done|]|].
  { eapply clean_after; [|exact Hf1|exact Hc]. set_solver. }
  intros r st2 HI2 _ ->.
  eapply does_bind; [apply (does_lift _ _ _ e); [by rewrite He|done]|].
  intros ? ? _ _ [-> ->]. by apply Hrec.
Qed.

Lemma does_route (run_b : WorkflowContinuation F → Exec Bytes) (record : Bytes → Exec StepFlow)
    id bs d i kb key b o e T st :
  f (key_fn_id id) i = Ok kb → decode_string kb = Ok key → choose key bs d = Some b →
  encode_branch_envelope key o = Ok e → Inv st → clean T st →
  (∀ st, Inv st → clean T st → does T [] (run_b b) st (λ r _, r = o)) →
  (∀ st, Inv st → does [TaskId_from id] [] (record e) st (λ x _, x = SContinue e)) →
  does (TaskId_from id :: T) []
    (key_bytes ← user_task (key_fn_id id) i;
     chosen ← lift (resolve_branch run_b id key_bytes bs d);
     branch_output ← chosen.2;
     envelope ← lift (map_err from_box_error (encode_branch_envelope chosen.1 branch_output));
     record envelope) st (λ x _, x = SContinue e).
Proof.
  intros Hk Hd Hb He HI Hc Hrun Hrec.
  apply (does_routed _ (λ kb, resolve_branch run_b id kb bs d) record (run_b b) id kb key o e); try done.
  - intros st' HI'. eapply does_mono; [done|done|by eapply does_user_task|by intros ? ? ? ? []].
  - rewrite resolve_branch_choose, Hd. cbn. by rewrite Hb.
Qed.

Lemma choose_Forall (P : WorkflowContinuation F → Prop) key bs d b :
  Forall (λ kb, P kb.2) bs → opt_all P d → choose key bs d = Some b → P b.
Proof.
  intros Hbs Hd. unfold choose. induction Hbs as [|[k b'] bs Hb Hbs IH]; cbn.
  - destruct d; [by intros [= <-]|done].
  - case_bool_decide; [by intros [= <-]|done].
Qed.

Lemma choose_ids key bs d b : choose key bs d = Some b →
  tids (node_ids b) ⊆ tids (flat_map (λ kb, node_ids kb.2) bs ++ opt_ids d).
Proof.
  clear Hf quiet. intros Hb. apply tids_mono. unfold choose in Hb.
  induction bs as [|[k b'] bs IH]; cbn in *; [subst d; reflexivity|].
  case_bool_decide; [injection Hb as ->; set_solver|]. specialize (IH Hb). set_solver.
Qed.

Lemma branch_ids id (k : option F) bs d n :
  node_ids (Branch id k bs d n) = (id :: flat_map (λ kb, node_ids kb.2) bs ++ opt_ids d) ++ opt_ids n.
Proof. cbn. f_equal. by rewrite <-app_assoc. Qed.

Lemma andb_split a b : a && b = true → a = true ∧ b = true.
Proof. apply andb_true_iff. Qed.

(** What the induction over trees shows of an executor. *)
Definition tree_ok (exec : WorkflowContinuation F → Bytes → Exec Bytes) (c : WorkflowContinuation F) : Prop :=
  immediate c = true → NoDup (tids (node_ids c)) → runs_ok exec c.

Lemma opt_runs exec (next : option (WorkflowContinuation F)) :
  opt_all (tree_ok exec) next →
  match next with Some n => immediate n | None => true end = true → NoDup (tids (opt_ids next)) →
  opt_all (runs_ok exec) next.
Proof. destruct next; cbn; auto. Qed.

Lemma list_runs {A} (g : A → WorkflowContinuation F) exec (l : list A) :
  Forall (λ a, tree_ok exec (g a)) l →
  forallb (λ a, immediate (g a)) l = true → NoDup (tids (flat_map (λ a, node_ids (g a)) l)) →
  Forall (λ a, runs_ok exec (g a)) l.
Proof.
  induction 1 as [|a l Ha Hl IH]; cbn; [constructor|]. rewrite tids_app.
  intros [Hi Hl']%andb_split (Hn & _ & Hn')%NoDup_app. constructor; auto.
Qed.

(** [does_node] with the bookkeeping of ids done: the node's own ids are [l]. *)
Lemma does_chain {A} (mk : A → StepFlow) exec park l (head : Exec A) a next o res st :
  (clean (tids l) st → NoDup (tids l) → does (tids l) [] head st (λ x _, x = a)) → mk a = SContinue o →
  NoDup (tids (l ++ opt_ids next)) → clean (tids (l ++ opt_ids next)) st →
  opt_all (tree_ok exec) next →
  match next with Some n => immediate n | None => true end = true → continues f eq next o res →
  does (tids (l ++ opt_ids next)) [] (x ← head; finish exec park next (mk x)) st (λ r _, r = res).
Proof.
  rewrite tids_app. intros Hh Hmk Hnd Hcl Hn Hi Hc. pose proof Hnd as (Hl & _ & Hr)%NoDup_app.
  eapply does_node; [|done|done| |by apply opt_runs|done].
  - apply Hh; [|done]. eapply clean_subset; [apply subseteq_app_l|exact Hcl].
  - eapply clean_subset; [apply subseteq_app_r|exact Hcl].
Qed.

Lemma does_fmap {A C} T L (g : A → C) (m : Exec A) a st :
  does T L m st (λ x _, x = a) → does T L (g <$> m) st (λ x _, x = g a).
Proof.
  unfold does, fmap, io_fmap. destruct (m st) as [[x|] st']; [|done]. by intros (? & ? & ->).
Qed.

Lemma does_mark T L id o st : id ∈ T → Inv st →
  does T L (modify_now (λ t, mark_task_completed t id o)) st (λ _ _, True).
Proof.
  intros Hid HI. eapply does_mono; [done|done|apply does_modify_now; [|done]|done].
  intros; by apply keeps_mark.
Qed.

Lemma does_mark_save id o st : Inv st →
  does [TaskId_from id] [] (modify_now (λ t, mark_task_completed t (TaskId_from id) o) ≫= λ _,
    save ≫= λ _, mret (SContinue o)) st (λ x _, x = SContinue o).
Proof.
  intros HI. eapply does_bind; [by apply does_mark; [apply list_elem_of_here|]|].
  intros [] st1 HI1 _ _. eapply does_bind; [by apply does_save|]. intros [] st2 HI2 _ _. by apply does_ret.
Qed.

(** The end of a fork's step. *)
Lemma does_join_step join rs st :
  Inv st → ∀ step, (r ← resolve_join join rs;
    Ok (match r with JContinue input => SContinue input | JDone output => SDone output end)) = Ok step →
  does [] [] (join_step (F:=F) join rs) st (λ x _, x = step).
Proof.
  intros HI step. unfold join_step. destruct (resolve_join join rs) as [r|]; [|done].
  intros [= <-]. eapply does_bind; [exact (does_lift _ _ (Ok r) r st eq_refl HI)|].
  intros ? ? _ _ [-> ->]. by apply does_ret.
Qed.

(** A fork from its branch results on, in either executor. *)
Lemma does_join exec park l (head : Exec (list (string * Bytes))) join rs res st :
  (clean (tids l) st → NoDup (tids l) → does (tids l) [] head st (λ x _, x = rs)) →
  NoDup (tids (l ++ opt_ids join)) → clean (tids (l ++ opt_ids join)) st →
  opt_all (tree_ok exec) join →
  match join with Some n => immediate n | None => true end = true →
  match join with
  | Some j => ∃ e, encode_named_results rs = Ok e ∧ evaluates f eq j e res
  | None => ∃ k, last rs = Some (k, res)
  end →
  does (tids (l ++ opt_ids join)) [] (rs ← head; step ← join_step join rs; finish exec park join step) st
    (λ r _, r = res).
Proof.
  intros Hh Hnd Hcl Hn Hi He. rewrite tids_app in *. pose proof Hnd as (Hl & Hdis & Hr)%NoDup_app.
  eapply does_seq; [apply subseteq_app_l|apply subseteq_app_r|apply Hh; [|done]|].
  { eapply clean_subset; [apply subseteq_app_l|exact Hcl]. }
  intros x st1 HI1 Hf1 ->.
  assert (Hcl1 : clean (tids (opt_ids join)) st1).
  { eapply clean_after; [exact Hdis|exact Hf1|].
    eapply clean_subset; [apply subseteq_app_r|exact Hcl]. }
  destruct join as [j|]; cbn in He.
  - destruct He as (e & Hen & Hev).
    eapply does_seq; [apply list_subseteq_nil|reflexivity|eapply does_join_step; [done|]|].
    { cbn. unfold serialize_branch_results. by rewrite Hen. }
    intros x st2 HI2 Hf2 ->. cbn in *. apply Hn; [done|done|done|done|].
    eapply clean_after; [|exact Hf2|exact Hcl1]. intros t []%not_elem_of_nil.
  - destruct He as (k & Hla).
    eapply does_seq; [apply list_subseteq_nil|reflexivity|eapply does_join_step; [done|]|].
    { cbn. by rewrite Hla. }
    intros x st2 HI2 Hf2 ->. by apply does_ret.
Qed.

Lemma branch_node_task_ok id fn t r v p tg n :
  opt_all (tree_ok (branch_loop inst)) n → tree_ok (branch_loop inst) (Task id fn t r v p tg n).
Proof.
  intros Hn. unfold tree_ok. cbn [immediate node_ids]. fold (opt_ids n).
  intros [->%bool_decide_eq_true Hi]%andb_split Hnd i o st (x & Hx & Hco)%evaluates_task HI Hcl.
  apply (does_chain SContinue (branch_loop inst) (λ reason, save_branch_park_checkpoint reason inst)
    [id] _ x n x); try done.
  intros Hc _. eapply does_mono; [done|done|apply does_retry, (does_branch_task f Hf)|by intros ? ? ? ? (? & ? & _)];
    [done|by eapply clean_head|done].
Qed.

Lemma branch_node_fork_ok id bs j :
  Forall (tree_ok (branch_loop inst)) bs → opt_all (tree_ok (branch_loop inst)) j → tree_ok (branch_loop inst) (Fork id bs j).
Proof.
  intros Hbs Hj. unfold tree_ok. cbn [immediate node_ids]. fold (opt_ids j).
  intros [Hi Hi']%andb_split Hnd i o st (? & (rs & Hall & <-) & Hres)%evaluates_fork HI Hcl.
  apply (does_join (branch_loop inst) (λ reason, save_branch_park_checkpoint reason inst)
    (id :: flat_map node_ids bs) _ j rs); try done.
  intros Hc [_ Hnd']%NoDup_cons. eapply does_weaken; [|done|apply does_run_branches; try done].
  + rewrite tids_cons. set_solver.
  + by apply (list_runs (λ b, b)).
  + by eapply clean_tail.
Qed.

Lemma branch_node_route_ok id k bs d n :
  Forall (λ kb, tree_ok (branch_loop inst) kb.2) bs → opt_all (tree_ok (branch_loop inst)) d →
  opt_all (tree_ok (branch_loop inst)) n → tree_ok (branch_loop inst) (Branch id k bs d n).
Proof.
  intros Hbs Hd Hn. unfold tree_ok. cbn [immediate node_ids]. fold (opt_ids n).
  intros [[Hi Hi']%andb_split Hi'']%andb_split Hnd i o st
    (kb & Hkb & key & Hkey & b & Hb & x & Hx & e & He & Hco)%evaluates_branch HI Hcl.
  change (NoDup (tids (node_ids (Branch id k bs d n)))) in Hnd.
  rewrite branch_ids in Hnd, Hcl |- *.
  apply (does_chain (λ s, s) (branch_loop inst) (λ reason, save_branch_park_checkpoint reason inst)
    (id :: flat_map (λ kb, node_ids kb.2) bs ++ opt_ids d) _ (SContinue e) n e); try done.
  intros Hc [Hid Hnd']%NoDup_cons. apply does_cached; [by eapply clean_head|done|].
  eapply does_route; try done.
  + by eapply clean_tail.
  + intros st' HI' Hc'. assert (runs_ok (branch_loop inst) b) as Hbr.
    { rewrite tids_app in Hnd'. apply NoDup_app in Hnd' as (Hnd1 & _ & Hnd2).
      eapply choose_Forall; [by apply (list_runs snd)|exact (opt_runs _ _ Hd Hi' Hnd2)|done]. }
    eapply does_mono; [by eapply choose_ids|done|apply does_own_branch; try done|by intros ? ? ? ? []].
    eapply clean_subset; [|exact Hc']. by eapply choose_ids.
  + intros st' HI'. eapply does_bind; [by apply does_save_result; [apply list_elem_of_here|]|].
    intros [] st2 HI2 _ _. by apply does_ret.
Qed.

Lemma branch_node_loop_ok id b m o n :
  tree_ok (branch_loop inst) b → opt_all (tree_ok (branch_loop inst)) n → tree_ok (branch_loop inst) (Loop id b m o n).
Proof.
  intros Hb Hn. unfold tree_ok. cbn [immediate node_ids]. fold (opt_ids n).
  intros [Hi Hi']%andb_split Hnd i o' st (x & Hit & Hco)%evaluates_loop HI Hcl.
  apply (does_chain (λ s, s) (branch_loop inst) (λ reason, save_branch_park_checkpoint reason inst)
    (id :: node_ids b) _ (SContinue x) n x); try done.
  intros Hc [Hid Hnd']%NoDup_cons. apply does_cached; [by eapply clean_head|done|].
  eapply does_bind; [by apply does_snap|]. intros s st1 _ _ [-> ->].
  rewrite (clean_loop _ _ _ Hc).
  apply does_fmap, (does_settle _ (TaskId_from id)).
  apply (does_async_loop f false (MkLoopConfig id b m o 0)); try done.
  + intros i' env st' He HI' Hc'.
    eapply does_mono; [done|done|apply does_own_branch; try done; by apply Hb|by intros ? ? ? ? []].
  + cbn. rewrite <-range_from_zero. do 2 f_equal. lia.
  + by eapply clean_tail.
Qed.

Lemma branch_node_child_ok id ch n :
  tree_ok (branch_loop inst) ch → opt_all (tree_ok (branch_loop inst)) n → tree_ok (branch_loop inst) (ChildWorkflow id ch n).
Proof.
  intros Hc Hn. unfold tree_ok. cbn [immediate node_ids]. fold (opt_ids n).
  intros [Hi Hi']%andb_split Hnd i o st (x & Hx & Hco)%evaluates_child HI Hcl.
  apply (does_chain (λ s, s) (branch_loop inst) (λ reason, save_branch_park_checkpoint reason inst)
    (id :: node_ids ch) _ (SContinue x) n x); try done.
  intros Hc' [Hid Hnd']%NoDup_cons. apply does_cached; [by eapply clean_head|done|].
  eapply (does_seq (tids (node_ids ch)) [TaskId_from id]); [rewrite tids_cons; set_solver..| |].
  + apply does_own_branch; try done; [by apply Hc|].
    by eapply clean_tail.
  + intros r st1 HI1 _ [-> _]. by apply does_mark_save.
Qed.

Lemma branch_loop_ok c : tree_ok (branch_loop inst) c.
Proof.
  induction c using continuation_ind; [by apply branch_node_task_ok|by apply branch_node_fork_ok|done|done|by apply branch_node_route_ok|
    by apply branch_node_loop_ok|by apply branch_node_child_ok].
Qed.

(** ** Forks in the main executor *)

Lemma cont_id_in (c : WorkflowContinuation F) : cont_id c ∈ node_ids c.
Proof. destruct c; cbn; apply list_elem_of_here. Qed.

Lemma all_evaluate_ids (bs : list (WorkflowContinuation F)) i rs :
  all_evaluate f eq bs i rs → rs.*1 ⊆ flat_map node_ids bs.
Proof.
  clear Hf quiet. revert rs; induction bs as [|b bs IH]; intros rs; cbn.
  - by intros ->%all_evaluate_nil.
  - intros (o & _ & rs' & Hrs & ->)%all_evaluate_cons. specialize (IH rs' Hrs).
    pose proof (cont_id_in b). cbn. set_solver.
Qed.

Lemma does_fork_branches bs i rs acc st :
  Forall (runs_ok (branch_loop inst)) bs → NoDup (tids (flat_map node_ids bs)) →
  all_evaluate f eq bs i rs → Inv st → clean (tids (flat_map node_ids bs)) st →
  does (tids (flat_map node_ids bs)) []
    (fork_branches (λ b, execute_branch_with_checkpointing inst b i) inst bs acc None) st
    (λ r _, r = (acc ++ rs, None)).
Proof.
  intros Hbs. revert rs acc st. induction Hbs as [|b bs Hb Hbs IH]; intros rs acc st; cbn [flat_map fork_branches].
  { intros _ ->%all_evaluate_nil HI _. apply does_ret; [done|]. by rewrite app_nil_r. }
  rewrite tids_app. intros (_ & Hdis & Hnd)%NoDup_app (o & Ho & rs' & Hrs & ->)%all_evaluate_cons HI Hc.
  assert (Hcb : clean (tids (node_ids b)) st) by (eapply clean_subset; [apply subseteq_app_l|exact Hc]).
  assert (Hid : TaskId_from (cont_id b) ∈ tids (node_ids b)).
  { apply list_elem_of_fmap. exists (cont_id b). split; [done|apply cont_id_in]. }
  eapply does_bind; [by apply does_snap|]. intros s st0 _ _ [-> ->].
  rewrite (clean_absent _ _ _ Hid Hcb).
  pose proof (does_own_branch (branch_loop inst) b i o st Hb Ho HI Hcb) as Hrun.
  set (k := λ output : Bytes,
    modify_now (λ t, mark_task_completed t (TaskId_from (cont_id b)) output) ≫= λ _,
    save_result inst (TaskId_from (cont_id b)) output ≫= λ _,
    fork_branches (λ b, execute_branch_with_checkpointing inst b i) inst bs (acc ++ [(cont_id b, output)]) None).
  cut (does (tids (node_ids b) ++ tids (flat_map node_ids bs)) []
    (output ← execute_branch_with_checkpointing inst b i; k output) st (λ r _, r = (acc ++ (cont_id b, o) :: rs', None))).
  { unfold does, mbind, io_bind, execute_branch_with_checkpointing in Hrun |- *.
    destruct (with_own_snapshot inst (branch_loop inst b i) st) as [[x|] st1]; done. }
  eapply does_seq; [apply subseteq_app_l|reflexivity|exact Hrun|].
  intros r st1 HI1 Hf1 [-> _]. unfold k.
  eapply (does_seq (tids (node_ids b))); [apply subseteq_app_l|reflexivity|by apply does_mark|].
  intros [] st2 HI2 Hf2 _.
  eapply does_seq; [apply subseteq_app_l|apply subseteq_app_r|by apply does_save_result|].
  intros [] st3 HI3 Hf3 _. replace (acc ++ (cont_id b, o) :: rs') with ((acc ++ [(cont_id b, o)]) ++ rs')
    by by rewrite <-app_assoc.
  apply IH; [done|done|done|]. eapply clean_after; [exact Hdis|exact (frame_trans _ _ _ _ _ Hf1 (frame_trans _ _ _ _ _ Hf2 Hf3))|].
  eapply clean_subset; [apply subseteq_app_r|exact Hc].
Qed.

Lemma does_mark_results T rs st : tids rs.*1 ⊆ T → Inv st → does T [] (mark_results rs) st (λ _ _, True).
Proof.
  revert st; induction rs as [|[id o] rs IH]; intros st Hs HI; cbn; [by apply does_ret|].
  eapply does_bind; [apply does_mark; [|done]|].
  - apply Hs. apply list_elem_of_here.
  - intros [] st1 HI1 _ _. apply IH; [|done]. intros t Ht. apply Hs. by apply list_elem_of_further.
Qed.

Lemma does_settle_fork T id rs (join : option (WorkflowContinuation F)) st :
  tids rs.*1 ⊆ T → Inv st →
  does T [] (settle_fork_outcome id (rs, None) join) st (λ r _, r = rs).
Proof.
  intros Hs HI. unfold settle_fork_outcome, save_join_position. cbn.
  eapply does_bind; [by apply does_guards|]. intros [] st1 HI1 _ _.
  eapply (does_bind _ _ _ _ _ (λ _ _, True)).
  { eapply does_bind; [by apply does_mark_results|]. intros [] st2 HI2 _ _.
    eapply (does_bind _ _ _ _ _ (λ _ _, True)).
    - destruct join; [|by apply does_ret].
      eapply does_mono; [done|done|apply does_modify_now; [|done]; intros; apply keeps_position|done].
    - intros [] st3 HI3 _ _. eapply does_mono; [done|done|by apply does_save|done]. }
  intros [] st2 HI2 _ _. by apply does_ret.
Qed.

Lemma collect_cached_clean bs s :
  match bs with [] => True | b :: _ => absent (TaskId_from (cont_id b)) s end →
  collect_cached_branches (F:=F) bs s = match bs with [] => Some [] | _ => None end.
Proof. destruct bs as [|b bs]; cbn; [done|]. by intros ->. Qed.

Lemma does_fork_results id bs (join : option (WorkflowContinuation F)) i rs st :
  Forall (runs_ok (branch_loop inst)) bs → NoDup (tids (flat_map node_ids bs)) →
  all_evaluate f eq bs i rs → Inv st → clean (tids (flat_map node_ids bs)) st →
  does (tids (flat_map node_ids bs)) []
    (guards None ≫= λ _, s ← snap;
     match collect_cached_branches bs s with
     | Some cached => mret cached
     | None =>
         outcome ← execute_fork_branches_sequential
           (λ b, execute_branch_with_checkpointing (instance_id s) b i) bs;
         settle_fork_outcome id outcome join
     end) st (λ r _, r = rs).
Proof.
  intros Hbs Hnd Hall HI Hc.
  eapply does_bind; [by apply does_guards|]. intros [] st1 HI1 Hf1 [He1 Hs1].
  assert (Hc1 : clean (tids (flat_map node_ids bs)) st1).
  { intros t Ht. destruct (Hc t Ht). unfold both in *. by rewrite He1, Hs1. }
  eapply does_bind; [by apply does_snap|]. intros s st2 _ _ [-> ->].
  rewrite collect_cached_clean.
  2:{ destruct bs as [|b bs]; [done|]. eapply clean_absent; [|exact Hc1].
      apply list_elem_of_fmap. exists (cont_id b). split; [done|]. cbn. apply elem_of_app. left. apply cont_id_in. }
  destruct bs as [|b bs]; [apply all_evaluate_nil in Hall as ->; by apply does_ret|].
  destruct (HI1) as ((_ & -> & _) & _).
  eapply does_bind.
  { unfold execute_fork_branches_sequential. eapply does_bind; [by apply does_snap|].
    intros s st2 _ _ [-> ->]. destruct (HI1) as ((_ & -> & _) & _). by apply does_fork_branches. }
  intros r st2 HI2 _ ->. apply does_settle_fork; [|done]. apply tids_mono. by eapply all_evaluate_ids.
Qed.

(** ** The main executor *)

(** Regrouping a node's steps: head first, then the rest of the chain. *)
Lemma does_assoc {A C D} T L (m : Exec A) (k : A → Exec C) (h : C → Exec D) st Q :
  does T L ((m ≫= k) ≫= h) st Q → does T L (m ≫= λ a, k a ≫= h) st Q.
Proof. unfold does, mbind, io_bind. by destruct (m st) as [[] ?]. Qed.
Lemma does_assoc2 {A C D E} T L (m : Exec A) (k : A → Exec C) (l : A → C → Exec D) (h : D → Exec E) st Q :
  does T L ((m ≫= λ a, k a ≫= l a) ≫= h) st Q → does T L (m ≫= λ a, k a ≫= λ c, l a c ≫= h) st Q.
Proof.
  unfold does, mbind, io_bind. destruct (m st) as [[a|] st1]; [|done]. by destruct (k a st1) as [[] ?].
Qed.

(** The guards of a running instance change nothing. *)
Lemma does_guarded {A} T scope (k : Exec A) st Q :
  Inv st → (∀ st', Inv st' → frame [] [] st st' → st'.1 = st.1 → does T [] k st' Q) →
  does T [] (guards scope ≫= λ _, k) st Q.
Proof.
  intros HI Hk. eapply does_seq; [apply list_subseteq_nil|reflexivity|by apply does_guards|].
  intros [] st1 HI1 Hf1 [He1 _]. by apply Hk.
Qed.

Lemma clean_frame_nil D st st' : frame [] [] st st' → clean D st → clean D st'.
Proof. intros Hfr. apply (clean_after []); [|done]. intros t []%not_elem_of_nil. Qed.

Abbreviation exec_main := (@execute_continuation_with_checkpointing _ _ _ _ _ _ _ _ InMemoryBackend F _ _).

Lemma main_node_task_ok id fn t r v p tg n :
  opt_all (tree_ok exec_main) n → tree_ok exec_main (Task id fn t r v p tg n).
Proof.
  intros Hn. unfold tree_ok. cbn [immediate node_ids]. fold (opt_ids n).
  intros [->%bool_decide_eq_true Hi]%andb_split Hnd i o st (x & Hx & Hco)%evaluates_task HI Hcl.
  apply (does_chain SContinue exec_main save_park_checkpoint [id] _ x n x); try done.
  intros Hc _. eapply does_mono; [done|done|apply (does_task_step f Hf)|by intros ? ? ? ? (? & _)]; [done| |done].
  by eapply clean_head.
Qed.

Lemma main_node_fork_ok id bs j :
  Forall (tree_ok exec_main) bs → opt_all (tree_ok exec_main) j → tree_ok exec_main (Fork id bs j).
Proof.
  intros Hbs Hj. unfold tree_ok. cbn [immediate node_ids]. fold (opt_ids j).
  intros [Hi Hi']%andb_split Hnd i o st (? & (rs & Hall & <-) & Hres)%evaluates_fork HI Hcl.
  apply does_assoc2, (does_join exec_main save_park_checkpoint (id :: flat_map node_ids bs) _ j rs); try done.
  intros Hc [_ Hnd']%NoDup_cons. eapply does_weaken; [|done|apply does_fork_results; try done].
  + rewrite tids_cons. set_solver.
  + apply (list_runs (λ b, b)); [|done|done]. eapply Forall_impl; [exact Hbs|].
    intros b _. apply branch_loop_ok.
  + by eapply clean_tail.
Qed.

Lemma main_node_route_ok id k bs d n :
  Forall (λ kb, tree_ok exec_main kb.2) bs → opt_all (tree_ok exec_main) d →
  opt_all (tree_ok exec_main) n → tree_ok exec_main (Branch id k bs d n).
Proof.
  intros Hbs Hd Hn. unfold tree_ok. cbn [immediate node_ids]. fold (opt_ids n).
  intros [[Hi Hi']%andb_split Hi'']%andb_split Hnd i o st
    (kb & Hkb & key & Hkey & b & Hb & x & Hx & e & He & Hco)%evaluates_branch HI Hcl.
  change (NoDup (tids (node_ids (Branch id k bs d n)))) in Hnd.
  rewrite branch_ids in Hnd, Hcl |- *.
  apply does_assoc2, (does_chain (λ s, s) exec_main save_park_checkpoint
    (id :: flat_map (λ kb, node_ids kb.2) bs ++ opt_ids d) _ (SContinue e) n e); try done.
  intros Hc [Hid Hnd']%NoDup_cons. apply does_guarded; [done|]. intros st1 HI1 Hf1 He1.
  apply (clean_frame_nil _ _ _ Hf1) in Hc.
  eapply does_bind; [by apply does_snap|]. intros s ? _ _ [-> ->].
  apply does_cached; [by eapply clean_head|done|].
  destruct (HI1) as ((_ & -> & _) & _).
  eapply does_route; try done.
  + by eapply clean_tail.
  + intros st' HI' Hc'. assert (runs_ok (branch_loop inst) b) as Hbr.
    { rewrite tids_app in Hnd'. apply NoDup_app in Hnd' as (Hnd1 & _ & Hnd2).
      eapply choose_Forall; [apply (list_runs snd); [|done|done]| |done].
      - eapply Forall_impl; [exact Hbs|]. intros kb' _. apply branch_loop_ok.
      - destruct d; [by apply branch_loop_ok|done]. }
    eapply does_mono; [by eapply choose_ids|done|apply does_own_branch; try done|by intros ? ? ? ? []].
    eapply clean_subset; [|exact Hc']. by eapply choose_ids.
  + intros st' HI'. by apply does_mark_save.
Qed.

Lemma main_node_loop_ok id b m o n :
  tree_ok exec_main b → opt_all (tree_ok exec_main) n → tree_ok exec_main (Loop id b m o n).
Proof.
  intros Hb Hn. unfold tree_ok. cbn [immediate node_ids]. fold (opt_ids n).
  intros [Hi Hi']%andb_split Hnd i o' st (x & Hit & Hco)%evaluates_loop HI Hcl.
  apply does_assoc, (does_chain (λ s, s) exec_main save_park_checkpoint
    (id :: node_ids b) _ (SContinue x) n x); try done.
  intros Hc [Hid Hnd']%NoDup_cons. apply does_guarded; [done|]. intros st1 HI1 Hf1 He1.
  apply (clean_frame_nil _ _ _ Hf1) in Hc.
  apply does_cached; [by eapply clean_head|done|].
  eapply does_bind; [by apply does_snap|]. intros s ? _ _ [-> ->].
  rewrite (clean_loop _ _ _ Hc).
  apply (does_settle _ (TaskId_from id)). eapply does_bind.
  { apply (does_main_loop f true (MkLoopConfig id b m o 0) (exec_main b) Hid); try done.
    - intros i' env st' He HI' Hc'. by apply Hb.
    - cbn. lia.
    - by eapply clean_tail. }
  intros r st2 HI2 Hf2 [-> Hidle]. by apply does_ret.
Qed.

Lemma main_node_child_ok id ch n :
  tree_ok exec_main ch → opt_all (tree_ok exec_main) n → tree_ok exec_main (ChildWorkflow id ch n).
Proof.
  intros Hc Hn. unfold tree_ok. cbn [immediate node_ids]. fold (opt_ids n).
  intros [Hi Hi']%andb_split Hnd i o st (x & Hx & Hco)%evaluates_child HI Hcl.
  apply does_assoc, (does_chain (λ s, s) exec_main save_park_checkpoint
    (id :: node_ids ch) _ (SContinue x) n x); try done.
  intros Hc' [Hid Hnd']%NoDup_cons. apply does_guarded; [done|]. intros st1 HI1 Hf1 He1.
  apply (clean_frame_nil _ _ _ Hf1) in Hc'.
  apply does_cached; [by eapply clean_head|done|].
  eapply (does_seq (tids (node_ids ch)) [TaskId_from id]); [rewrite tids_cons; set_solver..| |].
  + apply Hc; try done. by eapply clean_tail.
  + intros r st2 HI2 _ ->. by apply does_mark_save.
Qed.

Lemma main_ok c : tree_ok exec_main c.
Proof.
  induction c using continuation_ind; [by apply main_node_task_ok|by apply main_node_fork_ok|done|done|by apply main_node_route_ok|
    by apply main_node_loop_ok|by apply main_node_child_ok].
Qed.
End Trees.
End Reasoning.
