(* ===== verification/Client.v ===== *)
(** * The workflow client and the in-process runner

    [sayiir-runtime/src/client.rs]: a client that shares a backend with the
    processes that run the workflows, and [runner/in_process.rs].  The theorems
    follow a client's cancel and pause requests into a durable run. *)

From S2P Require Import Prelude Hash32 SnapshotFormat Task Workflow Serializable Snapshot Backend InMemory Runtime Lifecycle SyncExec Checkpoint.

(** ** The client *)

Record WorkflowClient : Type := MkClient { conflict_policy : Conflict.ConflictPolicy }.
Definition client_new : WorkflowClient := MkClient Conflict.Fail.
Definition with_conflict_policy (p : Conflict.ConflictPolicy) (c : WorkflowClient) : WorkflowClient :=
  MkClient p.

(** [Codec::encode] of the workflow's input type. *)
Class InputCodec (I : Type) : Type := encode_input : I → result BoxError Bytes.

Section Client.
Context {B : Type} `{PersistentBackend B, Environment B}.
Abbreviation ClientM := (io (World B) RuntimeError).

(** [submit]: the input is encoded only after the check for an existing instance. *)
Definition submit `{Sha256} {F I : Type} `{InputCodec I} (c : WorkflowClient)
    (continuation : WorkflowContinuation F) (hash : DefinitionHash) (id : string) (input : I) :
    ClientM (Status.WorkflowStatus * option Bytes) :=
  early ← check_existing_instance id hash (conflict_policy c);
  match early with
  | Some early => mret early
  | None =>
      input_bytes ← lift_result (map_err from_box_error (encode_input input));
      outcome ← prepare_run id hash input_bytes (first_task_hint continuation) (conflict_policy c);
      match outcome with
      | Fresh _ => mret (Status.InProgress, None)
      | ExistingStatus status output => mret (status, output)
      end
  end.

(** [cancel], [pause], [unpause], [send_event], [status]. *)
Definition client_cancel (id : string) (reason cancelled_by : option string) : ClientM unit :=
  now ← read_clock;
  rt (call (λ _, store_signal id Cancel (SignalRequest_new now reason cancelled_by))).
Definition client_pause (id : string) (reason paused_by : option string) : ClientM unit :=
  now ← read_clock;
  rt (call (λ _, store_signal id Pause (SignalRequest_new now reason paused_by))).
Definition client_unpause (id : string) : ClientM unit :=
  rt (call (λ now, unpause now id)) ≫= λ _, mret ().
Definition client_send_event (id signal_name : string) (payload : Bytes) : ClientM unit :=
  rt (call (λ _, send_event id signal_name payload)).
Definition client_status (id : string) : ClientM Status.WorkflowStatus :=
  s ← rt (call (λ _, load_snapshot id)); mret (as_status (state s)).
End Client.

(** [get_task_result], on the backend that implements [TaskResultStore]. *)
Definition client_get_task_result `{Sha256, Environment InMemoryBackend} (id task_id : string) :
    io (World InMemoryBackend) RuntimeError (option Bytes) :=
  rt (call (λ _, load_task_result id (TaskId_from task_id))).

(** ** The in-process runner *)

(** [InProcessRunner::run]: nothing is stored. *)
Definition in_process_run `{Sha256, SerdeJson, EnvelopeCodec, Backon, Display} {F I : Type}
    `{AsyncRuntime F, InputCodec I} (c : WorkflowContinuation F) (input : I) :
    io nat RuntimeError Status.WorkflowStatus := λ n,
  match encode_input input with
  | Err e => (Err (from_box_error e), n)
  | Ok input_bytes =>
      match execute_continuation_async c input_bytes n with
      | (Ok _, n) => (Ok Status.Completed, n)
      | (Err e, n) => (Ok (Status.Failed (error_to_string e)), n)
      end
  end.

(** ** Requests reach a durable run *)

Section Requests.
Context `{Sha256, Chrono, FloatOps, Display, SerdeJson, EnvelopeCodec, TaskCallback, TaskTiming}.
Context {F : Type} `{Environment InMemoryBackend} (quiet : ∀ n b, others n b = b).
Abbreviation W := (World InMemoryBackend).

(** The task a node's guards name as interrupted. *)
Definition node_scope (c : WorkflowContinuation F) : option TaskId :=
  match c with Fork _ _ _ => None | _ => Some (TaskId_from (cont_id c)) end.

(** Every node starts with its guards. *)
Lemma exec_guarded (c : WorkflowContinuation F) i st e st' :
  guards (B:=InMemoryBackend) (node_scope c) st = (Err e, st') →
  execute_continuation_with_checkpointing c i st = (Err e, st').
Proof.
  intros Hg. destruct c; cbn in *; unfold execute_task_step, mbind, io_bind; by rewrite Hg.
Qed.

(** The store after a signal is accepted. *)
Definition signalled_store (id : string) (kind : SignalKind) (r : SignalRequest) (b : InMemoryBackend) :
    InMemoryBackend :=
  with_signals (<[id := <[kind := r]> (default ∅ (signals b !! id))]> (signals b)) b.

Lemma signalled_pending id kind r b : pending (signalled_store id kind r b) id kind = Some r.
Proof. unfold pending, signalled_store. cbn. rewrite lookup_insert_eq. cbn. apply lookup_insert_eq. Qed.

Lemma signalled_other id kind kind' r b : kind ≠ kind' →
  pending (signalled_store id kind r b) id kind' = pending b id kind'.
Proof.
  intros Hk. unfold pending, signalled_store. cbn. rewrite lookup_insert_eq. cbn.
  rewrite lookup_insert_ne by done. by destruct (signals b !! id).
Qed.

Lemma request_accepted id kind reason by_ s0 (w : W) :
  snapshots (store w) !! id = Some s0 → is_in_progress (state s0) = true →
  let r := SignalRequest_new (clock (steps w)) reason by_ in
  (now ← read_clock; rt (call (λ _, store_signal id kind (SignalRequest_new now reason by_)))) w =
  (Ok (), MkWorld (signalled_store id kind r (store w)) (2 + steps w)).
Proof.
  intros Hs Hp r. rewrite bind_clock. unfold rt, io_map_err, call. cbn. rewrite quiet.
  unfold mem_store_signal. rewrite Hs. unfold is_in_progress in Hp. destruct (state s0); try done.
  by destruct kind.
Qed.

(** *** Submitting *)

(** Submitting an encodable input is the two-step start of a run. *)
Lemma submit_eq {I : Type} `{InputCodec I} cl (c : WorkflowContinuation F) hash id (input : I) bytes (w : W) :
  encode_input input = Ok bytes →
  submit cl c hash id input w =
  match check_then_prepare id hash bytes (first_task_hint c) (conflict_policy cl) w with
  | (Ok (Fresh _), w) => (Ok (Status.InProgress, None), w)
  | (Ok (ExistingStatus status output), w) => (Ok (status, output), w)
  | (Err e, w) => (Err e, w)
  end.
Proof.
  intros He. unfold submit, check_then_prepare. rewrite !io_bind_run.
  destruct (check_existing_instance _ _ _ w) as [[[[]|]|] ?]; [done| |done].
  rewrite He. cbn [map_err]. rewrite bind_lift, io_bind_run.
  by destruct (prepare_run _ _ _ _ _ _) as [[[]|] ?].
Qed.

(** *** Cancelling *)

Definition cancelled_store (t : DateTime) (id : string) (r : SignalRequest) (scope : option TaskId)
    (s0 : WorkflowSnapshot) (b : InMemoryBackend) : InMemoryBackend :=
  remove_signal id Cancel
    (with_snapshots (<[id := mark_cancelled t (sr_reason r) (sr_requested_by r) scope s0]> (snapshots b)) b).

Lemma remove_signal_snapshots id kind b : snapshots (remove_signal id kind b) = snapshots b.
Proof. unfold remove_signal. by repeat case_match. Qed.

Lemma guards_cancelled scope s (w : W) r s0 :
  pending (store w) (instance_id s) Cancel = Some r → snapshots (store w) !! instance_id s = Some s0 →
  is_in_progress (state s0) = true →
  guards scope (s, w) = (Err (Rt (RWorkflow WF.cancelled)),
    (s, MkWorld (cancelled_store (clock (steps w)) (instance_id s) r scope s0 (store w)) (S (steps w)))).
Proof.
  intros Hr Hs Hp. unfold guards, check_guards, snap, run, rt, io_map_err, call, mbind, io_bind. cbn.
  rewrite quiet. unfold mem_check_and_cancel. rewrite Hr, Hs, Hp. done.
Qed.

(** *** Pausing *)

Definition paused_store (t : DateTime) (id : string) (r : SignalRequest) (s0 : WorkflowSnapshot)
    (b : InMemoryBackend) : InMemoryBackend :=
  remove_signal id Pause
    (with_snapshots (<[id := mark_paused t (pause_of_signal r) s0]> (snapshots b)) b).

Lemma guards_paused scope s (w : W) r s0 :
  pending (store w) (instance_id s) Cancel = None →
  pending (store w) (instance_id s) Pause = Some r → snapshots (store w) !! instance_id s = Some s0 →
  is_in_progress (state s0) = true →
  guards scope (s, w) = (Err (Rt (RWorkflow WF.paused)),
    (s, MkWorld (paused_store (clock (S (steps w))) (instance_id s) r s0 (store w)) (S (S (steps w))))).
Proof.
  intros Hc Hr Hs Hp. unfold guards, check_guards, snap, run, rt, io_map_err, call, mbind, io_bind. cbn.
  rewrite quiet. unfold mem_check_and_cancel. rewrite Hc. cbn. rewrite quiet.
  unfold mem_check_and_pause. rewrite Hr, Hs, Hp. done.
Qed.

Lemma prepare_resume_paused id hash reason by_ t p m l s (w : W) :
  validate_instance_id id = Ok () → snapshots (store w) !! id = Some s →
  snapshot_definition_hash s = hash → state s = Paused reason by_ t m p l →
  prepare_resume id hash w = (Ok (ResumePaused (Status.Paused reason by_)), MkWorld (store w) (S (steps w))).
Proof.
  intros Hid Hs Hh Hst. unfold prepare_resume. rewrite bind_lift, Hid. cbn [map_err].
  unfold rt. rewrite (bind_call quiet). cbn. unfold mem_load_snapshot. rewrite Hs. cbn.
  rewrite bool_decide_false by (by intros []). by rewrite Hst.
Qed.

Lemma client_unpause_eq id reason by_ t p m l s (w : W) :
  snapshots (store w) !! id = Some s → state s = Paused reason by_ t m p l →
  client_unpause id w = (Ok (), MkWorld (with_snapshots
    (<[id := mark_unpaused (clock (steps w)) s]> (snapshots (store w))) (store w)) (S (steps w))).
Proof.
  intros Hs Hst. unfold client_unpause, rt. rewrite (bind_call quiet). cbn. unfold mem_unpause.
  rewrite Hs, Hst. cbn. done.
Qed.
End Requests.

(** ** Properties *)

(** A client's cancel reaches the run at its next node, whatever the node: the
    executor stops with [Cancelled] after one backend call, its own snapshot
    untouched; finalizing reports the client's reason and name; the stored instance is
    cancelled at that node with all its results kept. *)
Theorem client_cancel_stops_run
    `{Sha256, Chrono, FloatOps, Display, SerdeJson, EnvelopeCodec, TaskCallback, TaskTiming}
    {F : Type} `{Environment InMemoryBackend} (id : string) (reason by_ : option string)
    (s s0 : WorkflowSnapshot) (w : World InMemoryBackend) (c : WorkflowContinuation F) (i : Bytes) :
  (∀ n b, others n b = b) →
  snapshots (store w) !! id = Some s0 → is_in_progress (state s0) = true → instance_id s = id →
  ∃ w1, client_cancel id reason by_ w = (Ok (), w1) ∧
  ∀ w2, store w2 = store w1 →
  ∃ w3 w4 s1,
    execute_continuation_with_checkpointing c i (s, w2) = (Err (Rt (RWorkflow WF.cancelled)), (s, w3)) ∧
    steps w3 = S (steps w2) ∧
    finalize_execution (Err (RWorkflow WF.cancelled)) s w3 =
      (Ok (Status.Cancelled reason by_, None, s), w4) ∧
    snapshots (store w4) !! id = Some s1 ∧ get_all_task_results s1 = get_all_task_results s0 ∧
    ∃ t m, state s1 = Cancelled reason by_ t m (node_scope c).
Proof.
  intros quiet Hs Hp Hi. eexists. split; [by apply (request_accepted quiet _ _ _ _ s0)|].
  intros w2 Hw2. set (r := SignalRequest_new (clock (steps w)) reason by_).
  pose proof (guards_cancelled quiet (node_scope c) s w2 r s0) as Hg. rewrite Hi, Hw2 in Hg.
  specialize (Hg (signalled_pending _ _ _ _) Hs Hp). set (b := cancelled_store _ _ _ _ _ _) in Hg.
  assert (Hb : snapshots b !! id = Some (mark_cancelled (clock (steps w2)) reason by_ (node_scope c) s0)).
  { unfold b, cancelled_store. rewrite remove_signal_snapshots. apply lookup_insert_eq. }
  do 3 eexists. split; [by apply exec_guarded|]. split; [done|]. split.
  { unfold finalize_execution, WF.cancelled, WF.paused. cbv iota beta. rewrite (bind_try_call quiet). cbn. unfold mem_load_snapshot. rewrite Hi, Hb. reflexivity. }
  cbn. split; [exact Hb|]. unfold is_in_progress in Hp. unfold get_all_task_results, mark_cancelled.
  destruct (state s0); try done. cbn. eauto.
Qed.

(** A client's pause stops the run at its next node, after the two backend calls
    of its guards and with its own snapshot untouched,
    and is reported with the client's reason and name; resuming the paused instance
    is refused; after the client's unpause the stored instance is in progress again
    at the same position with the same results. *)
Theorem client_pause_cycle
    `{Sha256, Chrono, FloatOps, Display, SerdeJson, EnvelopeCodec, TaskCallback, TaskTiming}
    {F : Type} `{Environment InMemoryBackend} (id : string) (reason by_ : option string)
    (s s0 : WorkflowSnapshot) (w : World InMemoryBackend) (c : WorkflowContinuation F) (i : Bytes) :
  (∀ n b, others n b = b) → validate_instance_id id = Ok () →
  snapshots (store w) !! id = Some s0 → is_in_progress (state s0) = true → instance_id s = id →
  pending (store w) id Cancel = None →
  ∃ w1, client_pause id reason by_ w = (Ok (), w1) ∧
  ∀ w2, store w2 = store w1 →
  ∃ w3 w4,
    execute_continuation_with_checkpointing c i (s, w2) = (Err (Rt (RWorkflow WF.paused)), (s, w3)) ∧
    steps w3 = S (S (steps w2)) ∧
    finalize_execution (Err (RWorkflow WF.paused)) s w3 = (Ok (Status.Paused reason by_, None, s), w4) ∧
    ∀ w5, store w5 = store w4 →
      prepare_resume id (snapshot_definition_hash s0) w5 =
        (Ok (ResumePaused (Status.Paused reason by_)), MkWorld (store w5) (S (steps w5))) ∧
      ∃ w6 s1, client_unpause id w5 = (Ok (), w6) ∧ snapshots (store w6) !! id = Some s1 ∧
        state s1 = state s0.
Proof.
  intros quiet Hid Hs Hp Hi Hc. eexists. split; [by apply (request_accepted quiet _ _ _ _ s0)|].
  intros w2 Hw2. set (r := SignalRequest_new (clock (steps w)) reason by_).
  pose proof (guards_paused quiet (node_scope c) s w2 r s0) as Hg. rewrite Hi, Hw2 in Hg. cbn in Hg.
  rewrite (signalled_other _ Pause Cancel) in Hg by done.
  specialize (Hg Hc (signalled_pending _ _ _ _) Hs Hp). set (b := paused_store _ _ _ _ _) in Hg.
  set (s1 := mark_paused (clock (S (steps w2))) (pause_of_signal r) s0).
  assert (Hb : snapshots b !! id = Some s1).
  { unfold b, paused_store. rewrite remove_signal_snapshots. apply lookup_insert_eq. }
  unfold is_in_progress in Hp. destruct (state s0) as [p m l| | | |] eqn:Hs0; try done.
  assert (Hs1 : state s1 = Paused reason by_ (clock (S (steps w2))) m p l).
  { unfold s1, mark_paused. by rewrite Hs0. }
  assert (Hh : snapshot_definition_hash s1 = snapshot_definition_hash s0).
  { unfold s1, mark_paused. by rewrite Hs0. }
  do 2 eexists. split; [by apply exec_guarded|]. split; [done|]. split.
  { unfold finalize_execution, WF.cancelled, WF.paused. cbv iota beta. rewrite (bind_try_call quiet). cbn. unfold mem_load_snapshot. rewrite Hi, Hb. cbn.
    unfold paused_status. rewrite Hs1. reflexivity. }
  intros w5 Hw5. cbn in Hw5. rewrite <-Hw5 in Hb. split; [by eapply prepare_resume_paused|].
  do 2 eexists. split; [by eapply client_unpause_eq|]. cbn. split; [apply lookup_insert_eq|].
  unfold mark_unpaused. by rewrite Hs1.
Qed.

(** ** Witnesses *)

Module ClientExample.
Import Toy WorkflowExample ExecExample Examples InMemoryExample.

#[export] Instance display : Display :=
  {| show_datetime t := u_to_string t; show_duration d := u_to_string d;
     show_codec_error _ := "codec"; show_build_errors _ := "build"; show_out_of_range := "out of range" |}.
#[export] Instance timing : TaskTiming := λ _ _, [].
#[export] Instance env : Environment InMemoryBackend :=
  {| clock n := Z.of_nat n * ns_per_sec; others _ b := b |}.

Definition world : World InMemoryBackend := MkWorld b1 0.

Lemma client_cancel_stops_run_witness :
  ∃ w1, client_cancel "i" (Some "late") (Some "ops") world = (Ok (), w1) ∧
  ∀ w2, store w2 = store w1 →
  ∃ w3 w4 s1,
    execute_continuation_with_checkpointing order_flow [] (waiting, w2) =
      (Err (Rt (RWorkflow WF.cancelled)), (waiting, w3)) ∧
    steps w3 = S (steps w2) ∧
    finalize_execution (Err (RWorkflow WF.cancelled)) waiting w3 =
      (Ok (Status.Cancelled (Some "late") (Some "ops"), None, waiting), w4) ∧
    snapshots (store w4) !! "i" = Some s1 ∧ get_all_task_results s1 = get_all_task_results waiting ∧
    ∃ t m, state s1 = Cancelled (Some "late") (Some "ops") t m (node_scope order_flow).
Proof.
  apply client_cancel_stops_run; [intros; reflexivity|vm_compute; reflexivity|reflexivity|reflexivity].
Defined.

Lemma client_pause_cycle_witness :
  ∃ w1, client_pause "i" None (Some "ops") world = (Ok (), w1) ∧
  ∀ w2, store w2 = store w1 →
  ∃ w3 w4,
    execute_continuation_with_checkpointing order_flow [] (waiting, w2) =
      (Err (Rt (RWorkflow WF.paused)), (waiting, w3)) ∧
    steps w3 = S (S (steps w2)) ∧
    finalize_execution (Err (RWorkflow WF.paused)) waiting w3 =
      (Ok (Status.Paused None (Some "ops"), None, waiting), w4) ∧
    ∀ w5, store w5 = store w4 →
      prepare_resume "i" (snapshot_definition_hash waiting) w5 =
        (Ok (ResumePaused (Status.Paused None (Some "ops"))), MkWorld (store w5) (S (steps w5))) ∧
      ∃ w6 s1, client_unpause "i" w5 = (Ok (), w6) ∧ snapshots (store w6) !! "i" = Some s1 ∧
        state s1 = state waiting.
Proof.
  apply client_pause_cycle;
    [intros; reflexivity|vm_compute; reflexivity|vm_compute; reflexivity|reflexivity|reflexivity|reflexivity].
Defined.
End ClientExample.
