(* ===== verification/Durability.v ===== *)
(** * Properties of the durable executor

    End to end: start, run, finalize; resuming after a crash; durable delays;
    termination of retries. *)

From S2P Require Import Prelude Hash32 SnapshotFormat Task Workflow Serializable Snapshot Backend InMemory Runtime Lifecycle SyncExec Checkpoint.

(** Distinct names hash to distinct ids. *)
Lemma tids_nodup `{Sha256} (l : list string) : NoDup l → collision_free l → NoDup (tids l).
Proof.
  induction 1 as [|x l Hx Hl IH]; intros Hcf; [constructor|]. rewrite tids_cons. constructor.
  - intros (y & He & Hy)%list_elem_of_fmap. apply Hx. rewrite (Hcf x y); [done|apply list_elem_of_here| |done].
    by apply list_elem_of_further.
  - apply IH. eapply collision_free_subset; [|exact Hcf]. set_solver.
Qed.

Section EndToEnd.
Context `{Sha256, Chrono, FloatOps, Display, SerdeJson, EnvelopeCodec, TaskCallback, TaskTiming}.
Context {F : Type} `{Environment InMemoryBackend} (quiet : ∀ n b, others n b = b).
Context (f : string → Bytes → result BoxError Bytes) (Hf : ∀ n id i, run_task n id i = f id i).

Lemma first_snapshot_running n id hash input hint : running id (first_snapshot n id hash input hint).
Proof. done. Qed.

(** The state a fresh run starts in. *)
Lemma fresh_start id hash input hint (w : World InMemoryBackend) :
  validate_instance_id id = Ok () → snapshots (store w) !! id = None →
  check_then_prepare id hash input hint Conflict.Fail w =
  let s := first_snapshot (1 + steps w) id hash input hint in
  (Ok (Fresh s), MkWorld (with_snapshots (<[id := s]> (snapshots (store w))) (store w)) (4 + steps w)).
Proof.
  intros Hid Hs. unfold check_then_prepare. rewrite io_bind_run.
  unfold check_existing_instance, prepare_run. rewrite bind_lift, Hid. cbn [map_err].
  rewrite (bool_decide_false (Conflict.Fail = _)) by done.
  rewrite (bind_try_call quiet). cbn. unfold mem_load_snapshot. rewrite Hs. cbn.
  rewrite bind_lift. cbn. by rewrite (start_fresh_eq quiet).
Qed.

Lemma finalize_ok o s (w : World InMemoryBackend) :
  ∃ s' w', finalize_execution (Ok o) s w = (Ok (Status.Completed, Some o, s'), w') ∧
    state s' = Completed o ∧ snapshots (store w') !! instance_id s = Some s'.
Proof.
  unfold finalize_execution, completed_now. do 2 eexists. split.
  - rewrite io_bind_run. rewrite bind_clock. cbn. unfold rt. rewrite (bind_call quiet). cbn. reflexivity.
  - split; [done|]. cbn. apply lookup_insert_eq.
Qed.

Lemma durable_end_to_end id hash input (c : WorkflowContinuation F) o (w : World InMemoryBackend) :
  find_duplicate_id c = None → collision_free (node_ids c) → immediate c = true →
  validate_instance_id id = Ok () → snapshots (store w) !! id = None →
  pending (store w) id Cancel = None → pending (store w) id Pause = None →
  evaluates f eq c input o →
  ∃ s w1 s2 w2 s3 w3,
    check_then_prepare id hash input (first_task_hint c) Conflict.Fail w = (Ok (Fresh s), w1) ∧
    execute_continuation_with_checkpointing c input (s, w1) = (Ok o, (s2, w2)) ∧
    finalize_execution (Ok o) s2 w2 = (Ok (Status.Completed, Some o, s3), w3) ∧
    state s3 = Completed o ∧ snapshots (store w3) !! id = Some s3.
Proof.
  intros Hd%no_duplicate_nodup Hcf Him Hid Hs Hc Hp He.
  rewrite (fresh_start id hash input (first_task_hint c) w Hid Hs). cbn zeta.
  set (s := first_snapshot _ _ _ _ _). set (w1 := MkWorld _ _).
  assert (Hst : stored id (s, w1) = Some s) by apply lookup_insert_eq.
  pose proof (main_ok quiet id f Hf c Him (tids_nodup _ Hd Hcf) input o (s, w1) He) as Hm.
  unfold does in Hm. destruct (execute_continuation_with_checkpointing c input (s, w1)) as [[r|] [s2 w2]] eqn:Hrun.
  - destruct Hm as (((_ & Hi & _) & _) & _ & ->).
    + split; [done|]. split; [|done]. exists s. by split.
    + intros t _. split; (split; [done|]); rewrite Hst; by intros ? [= <-].
    + destruct (finalize_ok o s2 w2) as (s3 & w3 & Hfin & Hs3 & Hlk). cbn in Hi. rewrite Hi in Hlk.
      by exists s, w1, s2, w2, s3, w3.
  - exfalso. apply Hm.
    + split; [done|]. split; [|done]. exists s. by split.
    + intros t _. split; (split; [done|]); rewrite Hst; by intros ? [= <-].
Qed.
End EndToEnd.

(** ** Retries terminate *)

Section Fuel.
Context `{Sha256, Chrono, FloatOps, Display, SerdeJson, EnvelopeCodec, TaskCallback, TaskTiming}.
Context {F : Type} `{Environment InMemoryBackend}.

Abbreviation ES := (@ExecState InMemoryBackend).
Abbreviation Exec := (io ES Fault).

Definition no_stall {A} (m : Exec A) : Prop := ∀ st, (m st).1 ≠ Err OutOfFuel.

Lemma no_stall_bind {A C} (m : Exec A) (k : A → Exec C) :
  no_stall m → (∀ a, no_stall (k a)) → no_stall (m ≫= k).
Proof.
  intros Hm Hk st. unfold mbind, io_bind. specialize (Hm st). destruct (m st) as [[a|e] st1]; [apply Hk|].
  cbn in *. congruence.
Qed.
Lemma no_stall_fmap {A C} (g : A → C) (m : Exec A) : no_stall m → no_stall (g <$> m).
Proof.
  intros Hm st. unfold fmap, io_fmap. specialize (Hm st). destruct (m st) as [[a|e] st1]; cbn in *; congruence.
Qed.
Lemma no_stall_ret {A} (a : A) : no_stall (mret a).
Proof. done. Qed.
Lemma no_stall_fail {A} e : no_stall (fail e : Exec A).
Proof. done. Qed.
Lemma no_stall_modify g : no_stall (modify g).
Proof. done. Qed.
Lemma no_stall_snap : no_stall (snap (B:=InMemoryBackend)).
Proof. done. Qed.
Lemma no_stall_run {A} (m : io (World InMemoryBackend) RuntimeError A) : no_stall (run m).
Proof. intros st. unfold run. by destruct (m st.2) as [[] ?]. Qed.
Lemma no_stall_lift {A} (r : result RuntimeError A) : no_stall (lift (B:=InMemoryBackend) r).
Proof. intros st. by destruct r. Qed.
Lemma no_stall_panic {A} (g : WorkflowSnapshot → option (A * WorkflowSnapshot)) : no_stall (modify_panic (B:=InMemoryBackend) g).
Proof. intros st. unfold modify_panic. by destruct (g st.1) as [[]|]. Qed.
Lemma no_stall_user id i : no_stall (user_task (B:=InMemoryBackend) id i).
Proof. intros st. unfold user_task. by destruct (run_task _ id i). Qed.
Lemma no_stall_add t d : no_stall (add_or_panic (B:=InMemoryBackend) t d).
Proof. intros st. unfold add_or_panic. by destruct (checked_add_signed t d). Qed.
End Fuel.

Create HintDb stall.
#[export] Hint Resolve no_stall_bind no_stall_fmap no_stall_ret no_stall_fail no_stall_modify
  no_stall_snap no_stall_run no_stall_lift no_stall_panic no_stall_user no_stall_add : stall.

(** Step through a monadic body whose calls do not stall. *)
Ltac no_stall :=
  repeat first
    [ solve [auto with stall]
    | apply no_stall_bind; intros
    | apply no_stall_fmap
    | case_match ].

Section Retries.
Context `{Sha256, Chrono, FloatOps, Display, SerdeJson, EnvelopeCodec, TaskCallback, TaskTiming}.
Context {F : Type} `{Environment InMemoryBackend}.

Abbreviation ES := (@ExecState InMemoryBackend).
Abbreviation Exec := (io ES Fault).

Lemma no_stall_modify_now g : no_stall (modify_now (B:=InMemoryBackend) g).
Proof. unfold modify_now, now. no_stall. Qed.
Lemma no_stall_save : no_stall (save (B:=InMemoryBackend)).
Proof. unfold save. no_stall. Qed.
Lemma no_stall_guards sc : no_stall (guards (B:=InMemoryBackend) sc).
Proof. unfold guards. no_stall. Qed.
Hint Resolve no_stall_modify_now no_stall_save no_stall_guards : stall.

Lemma no_stall_set_deadline id t : no_stall (set_deadline_if_needed (B:=InMemoryBackend) id t).
Proof. unfold set_deadline_if_needed, now. no_stall. Qed.
Lemma no_stall_check_deadline t : no_stall (check_deadline (B:=InMemoryBackend) t).
Proof. unfold check_deadline. no_stall. Qed.
Hint Resolve no_stall_set_deadline no_stall_check_deadline : stall.
Lemma no_stall_race l : no_stall (deadline_race (B:=InMemoryBackend) l).
Proof. induction l; cbn; no_stall. Qed.
Hint Resolve no_stall_race : stall.
Lemma no_stall_get_state : no_stall (get_state : Exec ES).
Proof. done. Qed.
Hint Resolve no_stall_get_state : stall.

(** Neither way of executing a task touches the retry states. *)
Definition keeps_retries {A} (m : Exec A) : Prop := ∀ st, task_retries (m st).2.1 = task_retries st.1.

Lemma keeps_retries_bind {A C} (m : Exec A) (k : A → Exec C) :
  keeps_retries m → (∀ a, keeps_retries (k a)) → keeps_retries (m ≫= k).
Proof.
  intros Hm Hk st. unfold mbind, io_bind. specialize (Hm st).
  destruct (m st) as [[a|e] st1]; [by rewrite (Hk a st1)|done].
Qed.
Lemma keeps_retries_modify g : (∀ s, task_retries (g s) = task_retries s) → keeps_retries (modify g).
Proof. intros Hg st. apply Hg. Qed.
Lemma keeps_retries_panic {A} (g : WorkflowSnapshot → option (A * WorkflowSnapshot)) :
  (∀ s a s', g s = Some (a, s') → task_retries s' = task_retries s) →
  keeps_retries (modify_panic (B:=InMemoryBackend) g).
Proof.
  intros Hg st. unfold modify_panic. destruct (g st.1) as [[a s']|] eqn:E; [by eapply Hg|done].
Qed.
Lemma keeps_retries_run {A} (m : io (World InMemoryBackend) RuntimeError A) : keeps_retries (run m).
Proof. intros st. unfold run. by destruct (m st.2). Qed.
Lemma keeps_retries_now : keeps_retries (now (B:=InMemoryBackend)).
Proof. done. Qed.
Lemma keeps_retries_save : keeps_retries (save (B:=InMemoryBackend)).
Proof. intros st. unfold save, snap, run, rt, io_map_err, call, modify, mbind, io_bind. cbn. done. Qed.
Lemma keeps_retries_check t : keeps_retries (check_deadline (B:=InMemoryBackend) t).
Proof.
  intros st. unfold check_deadline, snap, modify, fail, mbind, io_bind. cbn.
  by destruct (expired_task_deadline t st.1) as [[]|].
Qed.
Lemma keeps_retries_race l : keeps_retries (deadline_race (B:=InMemoryBackend) l).
Proof. induction l; [done|]. apply keeps_retries_bind; [apply keeps_retries_check|done]. Qed.

Lemma keeps_retries_set_deadline_snap t id d s a s' :
  (pair () <$> set_task_deadline t id d s) = Some (a, s') → task_retries s' = task_retries s.
Proof. unfold set_task_deadline. cbn. destruct (checked_add_signed _ _); cbn; [|done]. by intros [= _ <-]. Qed.
Lemma keeps_retries_refresh t s a s' :
  (pair () <$> refresh_task_deadline t s) = Some (a, s') → task_retries s' = task_retries s.
Proof.
  unfold refresh_task_deadline. destruct (task_deadline s); cbn; [|by intros [= _ <-]].
  destruct (duration_milliseconds _); cbn; [|done]. destruct (checked_add_signed _ _); cbn; [|done].
  by intros [= _ <-].
Qed.
Lemma keeps_retries_set_deadline id t : keeps_retries (set_deadline_if_needed (B:=InMemoryBackend) id t).
Proof.
  apply keeps_retries_bind; [done|]. intros s. repeat case_match; try done.
  apply keeps_retries_bind; [done|]. intros t'. apply keeps_retries_bind; [|intros; apply keeps_retries_save].
  apply keeps_retries_panic. intros. by eapply keeps_retries_set_deadline_snap.
Qed.
Lemma keeps_retries_mark id o : keeps_retries (modify_now (B:=InMemoryBackend) (λ t, mark_task_completed t id o)).
Proof.
  apply keeps_retries_bind; [done|]. intros t. apply keeps_retries_modify. intros s.
  unfold mark_task_completed. by destruct (state s).
Qed.
Lemma keeps_retries_user id i : keeps_retries (user_task (B:=InMemoryBackend) id i).
Proof. done. Qed.

Lemma main_task_retries id i : keeps_retries (execute_or_skip_task (B:=InMemoryBackend) id i).
Proof.
  apply keeps_retries_bind; [done|]. intros s. case_match; [done|].
  apply keeps_retries_bind; [done|]. intros t. apply keeps_retries_bind; [apply keeps_retries_check|]. intros _.
  apply keeps_retries_bind; [done|]. intros t'. apply keeps_retries_bind.
  { apply keeps_retries_panic. intros. by eapply keeps_retries_refresh. }
  intros _. apply keeps_retries_bind; [done|]. intros s'. apply keeps_retries_bind.
  { case_match; [|done]. apply keeps_retries_bind; [done|]. intros t''. apply keeps_retries_bind; [done|].
    intros st. apply keeps_retries_bind; [apply keeps_retries_race|done]. }
  intros o. apply keeps_retries_bind; [done|]. intros _. apply keeps_retries_bind; [apply keeps_retries_mark|done].
Qed.

Lemma branch_task_retries id i timeout inst :
  keeps_retries (branch_execute_or_skip_task (B:=InMemoryBackend) id i timeout inst).
Proof.
  apply keeps_retries_bind; [done|]. intros s. case_match; [done|].
  apply keeps_retries_bind.
  { case_match; [|done]. apply keeps_retries_bind; [done|]. intros t.
    apply keeps_retries_panic. intros. by eapply keeps_retries_set_deadline_snap. }
  intros _. apply keeps_retries_bind; [done|]. intros o. apply keeps_retries_bind; [done|]. intros t.
  apply keeps_retries_bind; [apply keeps_retries_check|]. intros _. apply keeps_retries_bind; [done|]. intros _.
  apply keeps_retries_bind; [apply keeps_retries_run|done].
Qed.

Lemma retries_after_record t tid rp e s x :
  is_u32 (max_retries rp) → record_retry t tid rp e None s = Some x →
  ∃ rs, task_retries x.2 !! tid = Some rs ∧ policy rs = rp ∧ 0 ≤ attempts rs ∧
    attempts rs = u32_add (match task_retries s !! tid with Some r => attempts r | None => 0 end) 1.
Proof.
  intros _. unfold record_retry.
  destruct (duration_milliseconds _); cbn; [|done]. destruct (checked_add_signed _ _); cbn; [|done].
  intros [= <-]. cbn. eexists. split; [apply lookup_insert_eq|]. split; [done|]. split; [|done].
  cbn. unfold u32_add. apply Z.mod_pos_bound. lia.
Qed.

Section Loop.
Context (tid : string) (rp : RetryPolicy) (timeout : option Duration) (sb : bool) (execute : Exec Bytes).
Context (Hrp : is_u32 (max_retries rp)) (Hex : no_stall execute) (Hkeep : keeps_retries execute).

(** One failed attempt: the loop goes on with one more recorded attempt, or stops. *)
Lemma retry_loop_S n st :
  (∀ st', (∃ rs, task_retries st'.1 !! TaskId_from tid = Some rs ∧ policy rs = rp ∧ 0 ≤ attempts rs ∧
      attempts rs = u32_add (match task_retries st.1 !! TaskId_from tid with Some r => attempts r | None => 0 end) 1) →
    retries_exhausted (TaskId_from tid) st.1 = false →
    (retry_loop tid (Some rp) timeout sb execute n st').1 ≠ Err OutOfFuel) →
  (retry_loop tid (Some rp) timeout sb execute (S n) st).1 ≠ Err OutOfFuel.
Proof.
  intros Hn. cbn. pose proof (Hex st) as Hst. pose proof (Hkeep st) as Hk.
  destruct (execute st) as [[o|e] st1]; [done|]. cbn in Hst, Hk. destruct e as [e| |]; [|done|done].
  unfold snap, mbind at 1, io_bind at 1. cbn [fst].
  destruct (retries_exhausted (TaskId_from tid) st1.1) eqn:Hx; [done|]. cbn [negb].
  unfold now, run, read_clock, modify_panic. unfold mbind at 1, io_bind at 1.
  unfold mbind at 1, io_bind at 1. cbn [map_err fst snd].
  destruct (record_retry _ _ _ _ _ st1.1) as [[d s2]|] eqn:Hrec; [|done].
  apply retries_after_record in Hrec as (rs & Hl & Hp & Ha & Heq); [|done]. rewrite Hk in Heq. cbn in Hl.
  assert (Hx0 : retries_exhausted (TaskId_from tid) st.1 = false).
  { unfold retries_exhausted in *. by rewrite <-Hk. }
  set (rest := modify clear_task_deadline ≫= _).
  assert (Hrest : ∀ st', task_retries st'.1 = task_retries s2 → (rest st').1 ≠ Err OutOfFuel); [|by apply Hrest].
  intros st' He. subst rest. unfold mbind at 1, io_bind at 1. cbn.
  set (m1 := if sb then save else mret ()). set (m2 := if sb then set_deadline_if_needed tid timeout else mret ()).
  assert (Hm1 : no_stall m1) by (subst m1; destruct sb; no_stall).
  assert (Hm1' : keeps_retries m1) by (subst m1; destruct sb; [apply keeps_retries_save|done]).
  assert (Hm2 : no_stall m2) by (subst m2; destruct sb; no_stall).
  assert (Hm2' : keeps_retries m2) by (subst m2; destruct sb; [apply keeps_retries_set_deadline|done]).
  unfold mbind at 1, io_bind at 1. set (st2 := (clear_task_deadline st'.1, st'.2) : ES).
  specialize (Hm1 st2). specialize (Hm1' st2). destruct (m1 st2) as [[[]|x] st3]; [|cbn in *; congruence].
  unfold mbind at 1, io_bind at 1. cbn. unfold mbind at 1, io_bind at 1.
  set (st4 := (st3.1, MkWorld (store st3.2) (S (steps st3.2))) : ES).
  specialize (Hm2 st4). specialize (Hm2' st4). destruct (m2 st4) as [[[]|x] st5]; [|cbn in *; congruence].
  apply Hn; [|done]. exists rs. cbn in Hm1', Hm2'. rewrite Hm2', Hm1'. cbn. by rewrite He.
Qed.

Lemma retry_loop_fuel n st rs :
  task_retries st.1 !! TaskId_from tid = Some rs → policy rs = rp → 0 ≤ attempts rs →
  max_retries rp - attempts rs < Z.of_nat n → (0 < n)%nat →
  (retry_loop tid (Some rp) timeout sb execute n st).1 ≠ Err OutOfFuel.
Proof.
  revert st rs. induction n as [|n IH]; intros st rs Hl Hp Ha Hn Hpos; [lia|].
  apply retry_loop_S. rewrite Hl. intros st' (rs' & Hl' & Hp' & Ha' & He') Hx.
  unfold retries_exhausted in Hx. rewrite Hl, Hp in Hx. apply bool_decide_eq_false in Hx.
  unfold is_u32, u32_max in Hrp. unfold u32_add in He'. rewrite Z.mod_small in He' by lia.
  eapply IH; [exact Hl'|done|done|lia|lia].
Qed.

Lemma no_stall_retry : no_stall (retry_with_checkpoint tid (Some rp) timeout sb execute).
Proof.
  intros st. unfold retry_with_checkpoint. apply retry_loop_S.
  intros st' (rs & Hl & Hp & Ha & _) _. unfold is_u32 in Hrp.
  eapply retry_loop_fuel; [exact Hl|done|done|lia|lia].
Qed.
End Loop.

Lemma no_stall_no_retry tid timeout sb (execute : Exec Bytes) :
  no_stall execute → no_stall (retry_with_checkpoint tid None timeout sb execute).
Proof.
  intros Hex st. unfold retry_with_checkpoint. cbn. specialize (Hex st).
  by destruct (execute st) as [[o|[]] st1].
Qed.

(** *** The executors *)

Definition policy_ok (t : TaskConfig) : Prop :=
  match tc_retry_policy t with Some rp => is_u32 (max_retries rp) | None => True end.
Definition policies_ok (c : WorkflowContinuation F) : Prop := Forall policy_ok (task_configs c).

Lemma no_stall_retried tid rp timeout sb (execute : Exec Bytes) :
  match rp with Some rp => is_u32 (max_retries rp) | None => True end →
  no_stall execute → keeps_retries execute → no_stall (retry_with_checkpoint tid rp timeout sb execute).
Proof. destruct rp; intros; [by apply no_stall_retry|by apply no_stall_no_retry]. Qed.

Lemma no_stall_main_task id i : no_stall (execute_or_skip_task (B:=InMemoryBackend) id i).
Proof. unfold execute_or_skip_task, now. no_stall. Qed.
Lemma no_stall_branch_task id i t inst : no_stall (branch_execute_or_skip_task (B:=InMemoryBackend) id i t inst).
Proof. unfold branch_execute_or_skip_task, now, save_result. no_stall. Qed.

Lemma no_stall_task_step id t rp (next : option (WorkflowContinuation F)) i :
  match rp with Some rp => is_u32 (max_retries rp) | None => True end →
  no_stall (execute_task_step (B:=InMemoryBackend) id t rp next i).
Proof.
  intros Hrp. unfold execute_task_step.
  pose proof (no_stall_retried id rp t true _ Hrp (no_stall_main_task id i) (main_task_retries id i)).
  no_stall.
Qed.

Lemma no_stall_own {A} inst (m : Exec A) : no_stall m → no_stall (with_own_snapshot inst m).
Proof.
  intros Hm st. unfold with_own_snapshot. pose proof (no_stall_run (rt (call (λ _, load_snapshot inst))) st) as Hr.
  destruct (run _ st) as [[own|e] st1]; cbn in *; [|congruence].
  specialize (Hm (own, st1.2)). by destruct (m (own, st1.2)).
Qed.

Lemma no_stall_cached id (m : Exec StepFlow) : no_stall m → no_stall (cached_or id m).
Proof. intros. unfold cached_or. no_stall. Qed.

Lemma no_stall_finish exec park (next : option (WorkflowContinuation F)) step :
  opt_all (λ n, ∀ i, no_stall (exec n i)) next → (∀ r, no_stall (park r)) →
  no_stall (finish exec park next step).
Proof. intros Hn Hp. destruct step; cbn; [|done|done]. destruct next; cbn in *; [done|done]. Qed.

Lemma no_stall_run_branches (exec : WorkflowContinuation F → Exec Bytes) bs :
  Forall (λ b, no_stall (exec b)) bs → no_stall (run_branches exec bs).
Proof. induction 1; cbn; no_stall. Qed.

Lemma no_stall_join join rs : no_stall (join_step (B:=InMemoryBackend) (F:=F) join rs).
Proof. unfold join_step. no_stall. Qed.

(** The chosen branch is one of the branches or the default. *)
Lemma resolve_branch_pick {A} (g : WorkflowContinuation F → A) id kb bs d x :
  resolve_branch g id kb bs d = Ok x → ∃ key b, choose key bs d = Some b ∧ x = (key, g b).
Proof.
  rewrite resolve_branch_choose. destruct (decode_string kb) as [key|]; cbn; [|done].
  destruct (choose key bs d) as [b|] eqn:Hb; cbn; [|done]. intros [= <-]. eauto.
Qed.

Lemma no_stall_route (run_b : WorkflowContinuation F → Exec Bytes) (record : Bytes → Exec StepFlow) id bs d i :
  Forall (λ kb, no_stall (run_b kb.2)) bs → opt_all (λ b, no_stall (run_b b)) d →
  (∀ e, no_stall (record e)) →
  no_stall (key_bytes ← user_task (key_fn_id id) i;
     chosen ← lift (resolve_branch run_b id key_bytes bs d);
     branch_output ← chosen.2;
     envelope ← lift (map_err from_box_error (encode_branch_envelope chosen.1 branch_output));
     record envelope).
Proof.
  intros Hbs Hd Hrec. apply no_stall_bind; [no_stall|]. intros kb st.
  destruct (resolve_branch run_b id kb bs d) as [x|e] eqn:Hr.
  2:{ done. }
  unfold mbind at 1, io_bind at 1, lift at 1, lift_result at 1. cbn [map_err].
  apply resolve_branch_pick in Hr as (key & b & Hb & ->). cbn [fst snd]. revert st.
  assert (Hrun : no_stall (run_b b)) by (by eapply (choose_Forall (λ b, no_stall (run_b b)))).
  apply no_stall_bind; [done|]. intros o. no_stall.
Qed.

Lemma no_stall_hook_clear (b : WorkflowContinuation F) : no_stall (hook_clear (B:=InMemoryBackend) b).
Proof. unfold hook_clear. induction (task_ids _); cbn; no_stall. Qed.
Hint Resolve no_stall_hook_clear no_stall_join : stall.

Lemma no_stall_async_loop tp cfg (exec : Bytes → Exec Bytes) n k i :
  (∀ i, no_stall (exec i)) → no_stall (async_loop Rt (CheckpointingLoopHooks (F:=F) tp) cfg exec n k i).
Proof.
  intros Hex. revert k i; induction n as [|n IH]; intros k i; cbn; [done|].
  unfold hook_exit, hook_progress. apply no_stall_bind; [done|]. intros o. apply no_stall_bind; [no_stall|].
  intros _. apply no_stall_bind; [apply no_stall_lift|]. intros []; no_stall.
Qed.
Lemma no_stall_main_loop cfg (exec : Bytes → Exec Bytes) n k i :
  (∀ i, no_stall (exec i)) → no_stall (main_loop (F:=F) cfg exec n k i).
Proof.
  intros Hex. revert k i; induction n as [|n IH]; intros k i; cbn; [done|].
  unfold hook_exit, hook_progress. apply no_stall_bind; [done|]. intros o. apply no_stall_bind; [no_stall|].
  intros _. apply no_stall_bind; [apply no_stall_lift|]. intros []; no_stall.
Qed.

Lemma no_stall_wake d : no_stall (compute_wake_at (B:=InMemoryBackend) d).
Proof. unfold compute_wake_at, now. no_stall. Qed.
Lemma no_stall_signal_timeout t : no_stall (compute_signal_timeout (B:=InMemoryBackend) t).
Proof. unfold compute_signal_timeout, now. no_stall. Qed.
Lemma no_stall_park {A} r : no_stall (save_park_checkpoint (B:=InMemoryBackend) (A:=A) r).
Proof. destruct r; unfold save_park_checkpoint, now; no_stall. Qed.
Lemma no_stall_branch_park {A} r inst : no_stall (save_branch_park_checkpoint (B:=InMemoryBackend) (A:=A) r inst).
Proof. destruct r; unfold save_branch_park_checkpoint, save_result; no_stall. Qed.
Hint Resolve no_stall_wake no_stall_signal_timeout no_stall_park no_stall_branch_park : stall.

Lemma no_stall_fork_branches (exec : WorkflowContinuation F → Exec Bytes) inst bs acc wake :
  Forall (λ b, no_stall (exec b)) bs → no_stall (fork_branches exec inst bs acc wake).
Proof.
  intros Hbs. revert acc wake. induction Hbs as [|b bs Hb Hbs IH]; intros acc wake; cbn; [done|].
  apply no_stall_bind; [done|]. intros s. case_match; [apply IH|]. intros st. specialize (Hb st).
  destruct (exec b st) as [[o|e] st1]; cbn in Hb.
  - revert st1. change (no_stall (modify_now (λ t, mark_task_completed t (TaskId_from (cont_id b)) o) ≫= λ _,
      save_result inst (TaskId_from (cont_id b)) o ≫= λ _,
      fork_branches exec inst bs (acc ++ [(cont_id b, o)]) wake)).
    unfold save_result. apply no_stall_bind; [no_stall|]. intros _. apply no_stall_bind; [no_stall|].
    intros _. apply IH.
  - destruct e as [[[]| | | | | | |]| |]; try done. apply IH.
Qed.

Lemma no_stall_settle id oc (join : option (WorkflowContinuation F)) :
  no_stall (settle_fork_outcome (B:=InMemoryBackend) id oc join).
Proof.
  assert (Hmark : ∀ rs, no_stall (mark_results (B:=InMemoryBackend) rs)).
  { induction rs as [|[]]; cbn; no_stall. }
  assert (Hsave : ∀ inst rs, no_stall (save_results (B:=InMemoryBackend) inst rs)).
  { intros inst. induction rs as [|[]]; cbn; unfold save_result; no_stall. }
  unfold settle_fork_outcome, park_at_fork, save_join_position, now. no_stall.
Qed.

Lemma policies_opt (next : option (WorkflowContinuation F)) (P : WorkflowContinuation F → Prop) :
  opt_all (λ c, policies_ok c → P c) next →
  Forall policy_ok (match next with Some n => task_configs n | None => [] end) → opt_all P next.
Proof. destruct next; cbn; auto. Qed.

Lemma policies_list {A} (g : A → WorkflowContinuation F) (P : WorkflowContinuation F → Prop) l :
  Forall (λ a, policies_ok (g a) → P (g a)) l →
  Forall policy_ok (flat_map (λ a, task_configs (g a)) l) → Forall (λ a, P (g a)) l.
Proof.
  induction 1 as [|a l Ha Hl IH]; cbn; [constructor|]. intros [? ?]%Forall_app. constructor; auto.
Qed.

#[local] Arguments finish : simpl never.

Ltac split_policies H :=
  unfold policies_ok in H; cbn in H; rewrite ?Forall_app, ?Forall_cons in H; destruct_and?.

Lemma no_stall_branch_loop inst (c : WorkflowContinuation F) :
  policies_ok c → ∀ i, no_stall (branch_loop (B:=InMemoryBackend) inst c i).
Proof.
  induction c as [id fn t r v p tg n Hn|id bs j Hbs Hj|id d n Hn|id s t n Hn|id k bs d n Hbs Hd Hn
    |id b m o n Hb Hn|id ch n Hc Hn] using continuation_ind; intros Hp i; split_policies Hp; cbn;
    (apply no_stall_bind; [|intros ?; try (apply no_stall_finish; [by eapply (policies_opt _ (λ n, ∀ i, no_stall (_ n i)))|no_stall])]).
  - apply no_stall_retried; [done|apply no_stall_branch_task|apply branch_task_retries].
  - apply no_stall_run_branches.
    eapply (policies_list (λ b, b) (λ b, no_stall (with_own_snapshot inst (branch_loop inst b i))));
      [|done]. eapply Forall_impl; [exact Hbs|]. intros b Hb Hpb. apply no_stall_own. auto.
  - apply no_stall_bind; [apply no_stall_join|]. intros ?.
    apply no_stall_finish; [by eapply (policies_opt _ (λ n, ∀ i, no_stall (_ n i)))|no_stall].
  - apply no_stall_cached. no_stall.
  - apply no_stall_cached. no_stall.
  - apply no_stall_cached, no_stall_route.
    + eapply (policies_list snd (λ b, no_stall (with_own_snapshot inst (branch_loop inst b i)))); [|done].
      eapply Forall_impl; [exact Hbs|]. intros kb Hb Hpb. apply no_stall_own. auto.
    + eapply (policies_opt d (λ b, no_stall (with_own_snapshot inst (branch_loop inst b i)))); [|done].
      destruct d; cbn in *; [|done]. intros. apply no_stall_own. auto.
    + intros e. unfold save_result. no_stall.
  - apply no_stall_cached, no_stall_bind; [done|]. intros s. apply no_stall_fmap, no_stall_async_loop.
    intros i'. apply no_stall_own. by apply Hb.
  - apply no_stall_cached, no_stall_bind; [apply no_stall_own; by apply Hc|]. intros; no_stall.
Qed.

Lemma no_stall_main (c : WorkflowContinuation F) :
  policies_ok c → ∀ i, no_stall (execute_continuation_with_checkpointing (B:=InMemoryBackend) c i).
Proof.
  induction c as [id fn t r v p tg n Hn|id bs j Hbs Hj|id d n Hn|id s t n Hn|id k bs d n Hbs Hd Hn
    |id b m o n Hb Hn|id ch n Hc Hn] using continuation_ind; intros Hp i; split_policies Hp; cbn;
    (apply no_stall_bind; [|intros ?]); try (apply no_stall_guards).
  - by apply no_stall_task_step.
  - apply no_stall_finish; [by eapply (policies_opt _ (λ n, ∀ i, no_stall (_ n i)))|no_stall].
  - apply no_stall_bind; [done|]. intros s. apply no_stall_bind.
    { destruct (collect_cached_branches bs s); [apply no_stall_ret|]. apply no_stall_bind; [|intros; apply no_stall_settle].
      apply no_stall_bind; [done|]. intros s'. apply no_stall_fork_branches.
      eapply (policies_list (λ b, b) (λ b, no_stall (execute_branch_with_checkpointing (instance_id s) b i))); [|done].
      eapply Forall_impl; [exact Hbs|]. intros b _ Hpb. by apply no_stall_own, no_stall_branch_loop. }
    intros rs. apply no_stall_bind; [apply no_stall_join|]. intros ?.
    apply no_stall_finish; [by eapply (policies_opt _ (λ n, ∀ i, no_stall (_ n i)))|no_stall].
  - apply no_stall_bind; [done|]. intros s. apply no_stall_bind; [no_stall|]. intros ?.
    apply no_stall_finish; [by eapply (policies_opt _ (λ n, ∀ i, no_stall (_ n i)))|no_stall].
  - apply no_stall_bind; [done|]. intros s'. apply no_stall_bind; [no_stall|]. intros ?.
    apply no_stall_finish; [by eapply (policies_opt _ (λ n, ∀ i, no_stall (_ n i)))|no_stall].
  - apply no_stall_bind; [done|]. intros s. apply no_stall_bind.
    2:{ intros ?. apply no_stall_finish; [by eapply (policies_opt _ (λ n, ∀ i, no_stall (_ n i)))|no_stall]. }
    apply no_stall_cached, no_stall_route.
    + eapply (policies_list snd (λ b, no_stall (execute_branch_with_checkpointing (instance_id s) b i))); [|done].
      eapply Forall_impl; [exact Hbs|]. intros kb _ Hpb. by apply no_stall_own, no_stall_branch_loop.
    + eapply (policies_opt d (λ b, no_stall (execute_branch_with_checkpointing (instance_id s) b i))); [|done].
      destruct d; cbn in *; [|done]. intros. by apply no_stall_own, no_stall_branch_loop.
    + intros e. no_stall.
  - apply no_stall_bind; [|intros ?; apply no_stall_finish; [by eapply (policies_opt _ (λ n, ∀ i, no_stall (_ n i)))|no_stall]].
    apply no_stall_cached, no_stall_bind; [done|]. intros s. apply no_stall_bind.
    { apply no_stall_main_loop. by apply Hb. }
    intros; no_stall.
  - apply no_stall_bind; [|intros ?; apply no_stall_finish; [by eapply (policies_opt _ (λ n, ∀ i, no_stall (_ n i)))|no_stall]].
    apply no_stall_cached, no_stall_bind; [by apply Hc|]. intros; no_stall.
Qed.
End Retries.

(** ** Resuming *)

Section Resume.
Context `{Sha256, Chrono, FloatOps, Display, SerdeJson, EnvelopeCodec, TaskCallback, TaskTiming}.
Context {F : Type} `{Environment InMemoryBackend} (quiet : ∀ n b, others n b = b).
Context (inst : string).

Abbreviation ES := (@ExecState InMemoryBackend).
Abbreviation Exec := (io ES Fault).
Abbreviation exec_main := (@execute_continuation_with_checkpointing _ _ _ _ _ _ _ _ InMemoryBackend F _ _).

Definition same_results (s s' : WorkflowSnapshot) : Prop := ∀ t, get_task_result t s' = get_task_result t s.

(** A task whose result is recorded is not run again. *)
Lemma does_cached_step id t rp (next : option (WorkflowContinuation F)) i r st :
  get_task_result (TaskId_from id) st.1 = Some r → Inv inst st →
  does inst [] [] (execute_task_step id t rp next i) st
    (λ x st', x = tr_output r ∧ same_results st.1 st'.1).
Proof.
  intros Hr HI. unfold execute_task_step.
  eapply does_bind; [by apply (does_guards quiet)|]. intros [] st1 HI1 _ [He1 _].
  eapply (does_bind _ _ _ _ _ _ (λ _ st', st' = st1)).
  { unfold set_deadline_if_needed. eapply does_bind; [by apply does_snap|].
    intros s ? _ _ [-> ->]. rewrite He1, Hr. by apply does_ret. }
  intros [] ? _ _ ->.
  eapply (does_bind _ _ _ _ _ _ (λ x st', x = tr_output r ∧ same_results st1.1 st'.1)).
  { unfold does, retry_with_checkpoint.
    assert (∃ n, (match rp with Some rp => S (S (Z.to_nat (max_retries rp))) | None => 1%nat end) = S n)
      as [n ->] by (destruct rp; eauto).
    cbn. unfold execute_or_skip_task, snap, modify, mbind, io_bind. cbn. rewrite He1, Hr. cbn.
    destruct HI1 as ((Hp & Hi & _) & Hs & Hsig). rewrite <-He1.
    split; [by split; [|split]|]. split; [by split; intros u _ [Ha Hb]|done]. }
  intros x st2 HI2 _ [-> Hs2]. rewrite <-He1.
  eapply (does_bind _ _ _ _ _ _ (λ _ st', same_results st2.1 st'.1)).
  { destruct next as [n|]; [|by apply does_ret]. eapply does_bind.
    - apply does_modify_now; [|done]. intros; apply keeps_position.
    - intros [] st3 HI3 _ (t' & He3 & _).
      eapply does_mono with (T := []) (L := []); [done|done|by apply does_modify; [apply keeps_hint|]|].
      intros [] ? _ _ ->. intros u. cbn. rewrite He3. unfold get_task_result, update_position. cbn.
      by destruct (state st2.1) eqn:Hst2; cbn; rewrite ?Hst2. }
  intros [] st3 HI3 _ Hs3. eapply does_bind; [by apply (does_save quiet)|]. intros [] st4 HI4 _ [He4 _].
  eapply does_bind; [by apply (does_guards quiet)|]. intros [] st5 HI5 _ [He5 _].
  apply does_ret; [done|]. split; [done|]. intros u. by rewrite He5, He4, Hs3, Hs2.
Qed.

(** Following the recorded tasks from the root: what is left, and its input. *)
Inductive skips (s : WorkflowSnapshot) :
    WorkflowContinuation F → Bytes → WorkflowContinuation F → Bytes → Prop :=
| SkipNone c i : skips s c i c i
| SkipTask id fn t rp v p tg n r i c x :
    get_task_result (TaskId_from id) s = Some r → skips s n (tr_output r) c x →
    skips s (Task id fn t rp v p tg (Some n)) i c x
| SkipDelay id d n r i c x :
    get_task_result (TaskId_from id) s = Some r → skips s n i c x →
    skips s (Delay id d (Some n)) i c x.

Lemma skips_mono s s' c i c' x :
  (∀ t r, get_task_result t s = Some r → get_task_result t s' = Some r) → skips s c i c' x → skips s' c i c' x.
Proof. intros Hs. induction 1; [constructor| |]; econstructor; eauto. Qed.

Lemma skips_snoc s c i id fn t rp v p tg n x r :
  skips s c i (Task id fn t rp v p tg (Some n)) x → get_task_result (TaskId_from id) s = Some r →
  skips s c i n (tr_output r).
Proof.
  intros Hs Hr. remember (Task id fn t rp v p tg (Some n)) as c'. induction Hs as [|????????????? IH|???????? IH]; subst.
  - econstructor; [exact Hr|constructor].
  - econstructor; eauto.
  - econstructor; eauto.
Qed.

Lemma skips_snoc_delay s c i id d n x r :
  skips s c i (Delay id d (Some n)) x → get_task_result (TaskId_from id) s = Some r → skips s c i n x.
Proof.
  intros Hs Hr. remember (Delay id d (Some n)) as c'. induction Hs as [|????????????? IH|???????? IH]; subst;
    econstructor; eauto. constructor.
Qed.

Context (f : string → Bytes → result BoxError Bytes) (Hf : ∀ n id i, run_task n id i = f id i).

Lemma resume_ok s c i c' x o st :
  skips s c i c' x → (∀ t r, get_task_result t s = Some r → get_task_result t st.1 = Some r) →
  immediate c' = true → NoDup (tids (node_ids c')) → evaluates f eq c' x o →
  Inv inst st → clean inst (tids (node_ids c')) st →
  does inst (tids (node_ids c')) [] (exec_main c i) st (λ r _, r = o).
Proof.
  intros Hs Hst Him Hnd He. revert st Hst.
  induction Hs as [c i|id fn t rp v p tg n r i c x Hr Hs IH|id d n r i c x Hr Hs IH]; intros st Hst HI Hc.
  - by apply (main_ok quiet inst f Hf).
  - change (exec_main (Task id fn t rp v p tg (Some n)) i) with
      (output ← execute_task_step id t rp (Some n) i; finish exec_main save_park_checkpoint (Some n) (SContinue output)).
    eapply does_seq; [apply list_subseteq_nil|reflexivity|exact (does_cached_step _ _ _ _ _ _ _ (Hst _ _ Hr) HI)|].
    intros y st1 HI1 Hf1 [-> Hsame]. apply IH; [done|done|done| |done|by eapply clean_frame_nil].
    intros t' r' Ht'. rewrite Hsame. by apply Hst.
  - cbn [execute_continuation_with_checkpointing]. apply (does_guarded quiet); [done|]. intros st1 HI1 Hf1 He1.
    eapply does_bind; [by apply does_snap|]. intros ? ? _ _ [-> ->]. rewrite He1, (Hst _ _ Hr).
    eapply does_bind; [by apply (does_ret _ _ _ _ _ (λ x st', x = SContinue i ∧ st' = st1))|].
    intros ? ? _ _ [-> ->]. cbn. apply IH; try done; [by rewrite He1|by eapply clean_frame_nil].
Qed.

Lemma resume_completes c x c' o s w :
  skips s c x c' x → immediate c' = true → NoDup (tids (node_ids c')) → evaluates f eq c' x o →
  Inv inst (s, w) → clean inst (tids (node_ids c')) (s, w) → ∃ s2 w2, exec_main c x (s, w) = (Ok o, (s2, w2)).
Proof.
  intros Hsk Him Hnd Hev HI Hcl. pose proof (resume_ok s c x c' x o (s, w) Hsk (λ _ _ E, E) Him Hnd Hev HI Hcl) as Hd.
  unfold does in Hd. destruct (exec_main c x (s, w)) as [[r|e] [s2 w2]]; [|done]. destruct Hd as (_ & _ & ->). eauto.
Qed.

(** A task that runs: its result is recorded, saved, and is the resume input. *)
Definition saved_progress (hash : DefinitionHash) (x : Bytes) (st : ES) : Prop :=
  stored inst st = Some st.1 ∧ snapshot_definition_hash st.1 = hash ∧
  extract st.1 = NotParked ∧ get_resume_input st.1 = Ok x.

Lemma does_task_step_saved id rp (n : WorkflowContinuation F) i o st :
  f id i = Ok o → absent (TaskId_from id) st.1 → Inv inst st →
  does inst [TaskId_from id] [] (execute_task_step id None rp (Some n) i) st (λ x st', x = o ∧
    saved_progress (snapshot_definition_hash st.1) o st' ∧
    get_task_result (TaskId_from id) st'.1 = Some (MkTaskResult (TaskId_from id) o) ∧
    ∀ t r, get_task_result t st.1 = Some r → get_task_result t st'.1 = Some r).
Proof.
  intros Ho Ha HI. eapply does_mono; [done|done|by apply (does_task_step quiet inst f Hf)|].
  intros x st' _ _ (-> & Hst & t & t' & He). split; [done|].
  destruct HI as ((Hp & _ & _) & _). unfold absent in Ha.
  unfold after_step, set_task_hint, update_position, clear_retry_state, mark_task_completed in He.
  unfold get_task_result in Ha. destruct (state st.1) as [p m l| | | |] eqn:Hs; try done. cbn in He.
  unfold saved_progress, extract, get_resume_input, get_task_result, get_last_task_output.
  rewrite Hst, He. cbn. rewrite bool_decide_false by apply insert_non_empty.
  rewrite !lookup_insert_eq. cbn. repeat split; try done.
  intros u r Hr. rewrite Hs in Hr. rewrite lookup_insert_ne; [done|]. intros <-. congruence.
Qed.

(** Some task steps, one after the other. *)
Inductive runs_to : WorkflowContinuation F → Bytes → ES → WorkflowContinuation F → Bytes → ES → Prop :=
| RunsNone c i st : runs_to c i st c i st
| RunsStep id fn t rp v p tg n i st o st1 c' i' st' :
    execute_task_step id t rp (Some n) i st = (Ok o, st1) → runs_to n o st1 c' i' st' →
    runs_to (Task id fn t rp v p tg (Some n)) i st c' i' st'.

(** Tasks without timeouts and delays, then a tree that runs without waiting. *)
Fixpoint paced (c : WorkflowContinuation F) : bool :=
  match c with
  | Task _ _ timeout _ _ _ _ (Some n) => bool_decide (timeout = None) && paced n
  | Delay _ _ (Some n) => paced n
  | c => immediate c
  end.

(** What holds between two steps: the work done is recorded and saved. *)
Definition at_step (hash : DefinitionHash) (c0 : WorkflowContinuation F) (o : Bytes)
    (c : WorkflowContinuation F) (x : Bytes) (st : ES) : Prop :=
  Inv inst st ∧ saved_progress hash x st ∧ skips st.1 c0 x c x ∧
  evaluates f eq c x o ∧ paced c = true ∧ NoDup (tids (node_ids c)) ∧
  clean inst (tids (node_ids c)) st.

(** The input matters only up to the first recorded task. *)
Lemma skips_input s c i c' x : skips s c i c' x → (∀ i', skips s c i' c' x) ∨ (x = i ∧ ∀ i', skips s c i' c' i').
Proof.
  induction 1 as [c i|id fn t rp v p tg n r i c x Hr Hs _|id d n r i c x Hr Hs IH].
  - right. split; [done|constructor].
  - left. intros i'. by econstructor.
  - destruct IH as [IH|[-> IH]]; [left|right; split; [done|]]; intros i'; econstructor; eauto.
Qed.

Lemma at_step_runs hash c0 o c x st c' x' st' :
  runs_to c x st c' x' st' → at_step hash c0 o c x st → at_step hash c0 o c' x' st'.
Proof.
  induction 1 as [|id fn t rp v p tg n i st y st1 c' i' st' Hrun Hruns IH]; [done|].
  intros (HI & (Hst & Hh & Hpk & Hri) & Hsk & Hev & Him & Hnd & Hcl). apply IH.
  cbn in Him. apply andb_true_iff in Him as [->%bool_decide_eq_true Him].
  apply evaluates_task in Hev as (y' & Hy & Hco). apply continues_inv in Hco.
  cbn [node_ids] in Hnd, Hcl. rewrite tids_cons in Hnd, Hcl. apply NoDup_cons in Hnd as [Hnin Hnd].
  assert (Ha : absent (TaskId_from id) st.1) by (eapply clean_absent; [apply list_elem_of_here|exact Hcl]).
  pose proof (does_task_step_saved id rp n i y' st Hy Ha HI) as Hd. unfold does in Hd. rewrite Hrun in Hd.
  destruct Hd as (HI1 & Hf1 & -> & Hsave & Hres & Hmono). rewrite Hh in Hsave.
  split; [done|]. split; [done|]. split; [|split; [done|split; [done|split; [done|]]]].
  - assert (Hs1 : ∀ j, skips st1.1 c0 j n y').
    { intros j. destruct (skips_input _ _ _ _ _ Hsk) as [Hall|[_ Hall]];
        apply (skips_snoc _ _ _ id fn None rp v p tg n _ (MkTaskResult (TaskId_from id) y') (skips_mono _ _ _ _ _ _ Hmono (Hall j)) Hres). }
    apply Hs1.
  - eapply clean_after; [|exact Hf1|].
    + intros t ->%list_elem_of_singleton. done.
    + eapply clean_subset; [|exact Hcl]. set_solver.
Qed.

(** A process that resumes from what is stored finishes the work. *)
Lemma resume_from_store hash c0 o c x st w :
  validate_instance_id inst = Ok () → immediate c = true → at_step hash c0 o c x st →
  store w = store st.2 →
  ∃ s w1 s2 w2, prepare_resume inst hash w = (Ok (Ready s x), w1) ∧
    exec_main c0 x (s, w1) = (Ok o, (s2, w2)) ∧ instance_id s2 = inst.
Proof.
  intros Hid Him (HI & (Hst & Hh & Hpk & Hri) & Hsk & Hev & _ & Hnd & Hcl) Hw.
  set (w1 := MkWorld (store w) (S (steps w))).
  assert (Hprep : prepare_resume inst hash w = (Ok (Ready st.1 x), w1)).
  { unfold prepare_resume. rewrite bind_lift, Hid. cbn [map_err]. unfold rt. rewrite (bind_call quiet). cbn.
    unfold mem_load_snapshot. rewrite Hw. unfold stored in Hst. rewrite Hst. cbn.
    rewrite bool_decide_false by (by intros []). destruct HI as ((Hp & _) & _).
    unfold as_terminal_status. unfold is_in_progress in Hp. unfold extract in Hpk |- *.
    destruct (state st.1) as [p m l| | | |] eqn:Hs; try done.
    destruct p; try done; cbn; rewrite io_bind_run; cbn; rewrite bind_lift, Hri; cbn; by rewrite <-Hw. }
  assert (HI1 : Inv inst (st.1, w1)).
  { destruct HI as (Hr & Hs & Hp). unfold stored in Hs. rewrite <-Hw in Hs, Hp. by split. }
  assert (Hcl1 : clean inst (tids (node_ids c)) (st.1, w1)).
  { intros t Ht. specialize (Hcl t Ht). unfold both, stored in *. cbn. by rewrite Hw. }
  pose proof (resume_ok st.1 c0 x c x o (st.1, w1) Hsk (λ _ _ E, E) Him Hnd Hev HI1 Hcl1) as Hd.
  unfold does in Hd. destruct (exec_main c0 x (st.1, w1)) as [[r|e] [s2 w2]] eqn:Hrun; [|done].
  destruct Hd as (((_ & Hi & _) & _) & _ & ->). by exists st.1, w1, s2, w2.
Qed.

(** *** Durable delays *)

(** The snapshot of a run parked at a delay. *)
Definition parked (t1 t2 t3 : DateTime) (id : string) (wake : DateTime) (n : WorkflowContinuation F) (x : Bytes)
    (s : WorkflowSnapshot) : WorkflowSnapshot :=
  mark_task_completed t3 (TaskId_from id) x
    (update_position t2 (AtDelay (TaskId_from id) t1 wake (Some (hint_id (first_task_hint n))))
      (set_task_hint (first_task_hint n) s)).

Lemma park_at_delay id d d' wake (n : WorkflowContinuation F) x st :
  Inv inst st → absent (TaskId_from id) st.1 →
  duration_from_std d = Some d' → checked_add_signed (clock (2 + steps st.2)) d' = Some wake →
  ∃ t1 t2 t3 st1, exec_main (Delay id d (Some n)) x st = (Err (Rt (RWorkflow (WF.Waiting wake))), st1) ∧
    st1.1 = parked t1 t2 t3 id wake n x st.1 ∧ stored inst st1 = Some st1.1 ∧ Inv inst st1 ∧
    frame inst [TaskId_from id] [] st st1.
Proof.
  intros HI Ha Hd Hw. cbn [execute_continuation_with_checkpointing].
  destruct (HI) as ((Hp & Hi & Hdl) & Hs & Hc & Hpa).
  unfold guards, check_guards, snap, run, rt, io_map_err, call, mbind, io_bind. cbn.
  rewrite Hi, !quiet. unfold mem_check_and_cancel. rewrite Hc. cbn. rewrite quiet.
  unfold mem_check_and_pause. rewrite Hpa. cbn. unfold absent in Ha. rewrite Ha.
  unfold compute_wake_at, now, run, read_clock, mbind, io_bind. cbn. rewrite Hd.
  unfold add_or_panic, lift_result. cbn in Hw. rewrite Hw. cbn.
  unfold mbind, io_bind. cbn -[parked]. unfold modify_now, modify, now, run, read_clock, mbind, io_bind. cbn.
  set (s1 := mark_task_completed _ _ _ _). do 3 eexists.
  assert (Hr1 : running inst s1).
  { subst s1. unfold running, mark_task_completed, update_position, set_task_hint. cbn.
    unfold is_in_progress in Hp. by destruct (state st.1). }
  rewrite (save_eq quiet inst); [|exact Hr1]. cbn. eexists. split; [reflexivity|]. cbn.
  split; [unfold parked; reflexivity|].
  assert (Hst : ∀ (s : WorkflowSnapshot) m k, stored inst (s, MkWorld (with_snapshots (<[inst := s1]> m) (store st.2)) k) = Some s1)
    by (intros; apply lookup_insert_eq).
  split; [apply Hst|]. split.
  - split; [done|]. split; [|done]. exists s1. by split; [apply Hst|].
  - assert (Hab : ∀ t, t ∉ [TaskId_from id] → absent t st.1 → absent t s1).
    { intros t Ht. subst s1. unfold absent, get_task_result, mark_task_completed, update_position, set_task_hint. cbn.
      unfold is_in_progress in Hp. destruct (state st.1) as [p m l| | | |]; try done. cbn.
      rewrite lookup_insert_ne; [done|]. intros <-. apply Ht, list_elem_of_here. }
    assert (Hid : ∀ t, idle t st.1 → idle t s1).
    { intros t. subst s1. unfold idle, mark_task_completed, update_position, set_task_hint. cbn.
      by destruct (state st.1). }
    split; intros t Ht [Hx Hy]; (split; [cbn; auto|]); intros bs; rewrite Hst; intros [= <-]; auto.
Qed.

(** The parked snapshot: results, progress, position. *)
Lemma parked_state t1 t2 t3 id wake n x s : running inst s →
  ∃ m, state (parked t1 t2 t3 id wake n x s) =
      InProgress (AtDelay (TaskId_from id) t1 wake (Some (hint_id (first_task_hint n))))
        (<[TaskId_from id := MkTaskResult (TaskId_from id) x]> m) (Some (TaskId_from id)) ∧
    ∀ t, get_task_result t s = m !! t.
Proof.
  intros (Hp & _ & _). unfold parked, mark_task_completed, update_position, set_task_hint, get_task_result. cbn.
  unfold is_in_progress in Hp. destruct (state s) as [p m l| | | |]; try done. cbn. by exists m.
Qed.

(** What a process finds that asks to resume the parked instance. *)
Lemma prepare_resume_parked hash t1 wake nid m t s (w : World InMemoryBackend) :
  validate_instance_id inst = Ok () → snapshots (store w) !! inst = Some s → instance_id s = inst →
  snapshot_definition_hash s = hash →
  state s = InProgress (AtDelay t t1 wake (Some nid)) m (Some t) →
  pending (store w) inst Cancel = None → pending (store w) inst Pause = None →
  prepare_resume inst hash w =
  if bool_decide (clock (3 + steps w) < wake)
  then (Ok (NotReady (Status.Waiting wake t)), MkWorld (store w) (4 + steps w))
  else
    let s' := update_position (clock (4 + steps w)) (AtTask nid) s in
    let w' := MkWorld (with_snapshots (<[inst := s']> (snapshots (store w))) (store w)) (6 + steps w) in
    match get_resume_input s' with Ok i => (Ok (Ready s' i), w') | Err e => (Err e, w') end.
Proof.
  intros Hid Hs Hi Hh Hst Hc Hp. unfold prepare_resume. rewrite bind_lift, Hid. cbn [map_err].
  unfold rt. rewrite (bind_call quiet). cbn. unfold mem_load_snapshot. rewrite Hs. cbn.
  rewrite bool_decide_false by (by intros []). unfold as_terminal_status, extract. rewrite Hst. cbn.
  rewrite io_bind_run. unfold resolve. rewrite io_bind_run.
  unfold check_parked_position. unfold rt. rewrite (bind_call quiet). cbn. unfold mem_check_and_cancel. rewrite Hc.
  rewrite (bind_call quiet). cbn. unfold mem_check_and_pause. rewrite Hp. cbn. rewrite bind_clock.
  cbn. case_bool_decide; cbn; [done|].
  unfold advance. rewrite io_bind_run. unfold position_now. rewrite bind_clock. cbn -[get_resume_input].
  unfold rt. rewrite (bind_call quiet). cbn -[get_resume_input]. unfold mem_save_snapshot, update_position.
  rewrite Hst. cbn -[get_resume_input]. rewrite bind_lift, Hi. by case_match.
Qed.

(** The snapshot of an instance that resumes past its delay, stored by the resuming
    process. *)
Lemma woken_state t t1 wake nid did x m s (b : InMemoryBackend) k :
  running inst s →
  state s = InProgress (AtDelay did t1 wake (Some nid)) (<[did := MkTaskResult did x]> m) (Some did) →
  pending b inst Cancel = None → pending b inst Pause = None →
  let s' := update_position t (AtTask nid) s in
  let st' : ES := (s', MkWorld (with_snapshots (<[inst := s']> (snapshots b)) b) k) in
  Inv inst st' ∧ stored inst st' = Some s' ∧ get_resume_input s' = Ok x ∧
  same_results s s' ∧ loop_iterations s' = loop_iterations s.
Proof.
  intros (_ & Hi & Hd) Hs Hc Hp s' st'.
  assert (Hs' : state s' = InProgress (AtTask nid) (<[did := MkTaskResult did x]> m) (Some did)).
  { subst s'. unfold update_position. by rewrite Hs. }
  assert (Hr : running inst s').
  { subst s'. unfold running, update_position. rewrite Hs. cbn. by rewrite Hi, Hd. }
  assert (Hst : stored inst st' = Some s') by apply lookup_insert_eq.
  split; [split; [done|]; split; [by exists s'|done]|]. split; [done|]. split; [|split].
  - unfold get_resume_input, get_last_task_output. rewrite Hs', bool_decide_false by apply insert_non_empty.
    cbn. by rewrite lookup_insert_eq.
  - intros u. unfold get_task_result. by rewrite Hs, Hs'.
  - subst s'. unfold update_position. by rewrite Hs.
Qed.

(** The results of a parked snapshot: those before, and the delay's. *)
Lemma parked_results t1 t2 t3 id wake n x s : running inst s →
  get_task_result (TaskId_from id) (parked t1 t2 t3 id wake n x s) = Some (MkTaskResult (TaskId_from id) x) ∧
  ∀ t, t ≠ TaskId_from id → get_task_result t (parked t1 t2 t3 id wake n x s) = get_task_result t s.
Proof.
  intros (m & Hm & Hlk)%(parked_state t1 t2 t3 id wake n x). unfold get_task_result at 1 2. rewrite Hm.
  split; [apply lookup_insert_eq|]. intros t Ht. by rewrite lookup_insert_ne, <-Hlk.
Qed.

Lemma parked_hash t1 t2 t3 id wake n x s :
  snapshot_definition_hash (parked t1 t2 t3 id wake n x s) = snapshot_definition_hash s.
Proof.
  unfold parked, mark_task_completed, update_position, set_task_hint. cbn.
  destruct (state s) eqn:Hs; cbn; by rewrite ?Hs.
Qed.

(** What a process that resumes after the wake time finds: the delay is recorded, what
    follows it is not. *)
Lemma woken_ready c0 id d n x (st st1 : ES) s' w1 :
  TaskId_from id ∉ tids (node_ids n) → absent (TaskId_from id) st.1 → clean inst (tids (node_ids n)) st →
  skips st.1 c0 x (Delay id d (Some n)) x → frame inst [TaskId_from id] [] st st1 →
  get_task_result (TaskId_from id) st1.1 = Some (MkTaskResult (TaskId_from id) x) →
  (∀ t, t ≠ TaskId_from id → get_task_result t st1.1 = get_task_result t st.1) →
  stored inst (s', w1) = Some s' → same_results st1.1 s' → loop_iterations s' = loop_iterations st1.1 →
  skips s' c0 x n x ∧ clean inst (tids (node_ids n)) (s', w1).
Proof.
  intros Hnin Ha Hcl Hsk Hf1 Hdel Hother Hst Hsame Hloops.
  assert (Hget : ∀ t r, get_task_result t st.1 = Some r → get_task_result t s' = Some r).
  { intros t r Ht. rewrite Hsame, Hother; [done|]. intros ->. unfold absent in Ha. congruence. }
  split.
  - apply (skips_snoc_delay _ _ _ id d n x (MkTaskResult (TaskId_from id) x)); [|by rewrite Hsame].
    by eapply skips_mono.
  - intros t Ht. assert (Hne : t ≠ TaskId_from id) by (by intros ->).
    assert (Hab : absent t s').
    { unfold absent. rewrite Hsame, Hother by done. by eapply clean_absent. }
    assert (Hid : idle t s').
    { unfold idle. rewrite Hloops. exact (proj1 (proj2 Hf1 t (not_elem_of_nil t) (proj2 (Hcl t Ht)))). }
    split; (split; [done|]); rewrite Hst; by intros ? [= <-].
Qed.

Lemma delay_cycle hash c0 o id d d' wake n x st :
  validate_instance_id inst = Ok () → immediate n = true →
  at_step hash c0 o (Delay id d (Some n)) x st →
  duration_from_std d = Some d' → checked_add_signed (clock (2 + steps st.2)) d' = Some wake →
  ∃ st1, exec_main (Delay id d (Some n)) x st = (Err (Rt (RWorkflow (WF.Waiting wake))), st1) ∧
    ∀ w, store w = store st1.2 →
      (clock (3 + steps w) < wake →
        prepare_resume inst hash w =
        (Ok (NotReady (Status.Waiting wake (TaskId_from id))), MkWorld (store w) (4 + steps w))) ∧
      (wake ≤ clock (3 + steps w) →
        ∃ s w1 s2 w2, prepare_resume inst hash w = (Ok (Ready s x), w1) ∧
          exec_main c0 x (s, w1) = (Ok o, (s2, w2))).
Proof.
  intros Hid Him (HI & (Hst & Hh & _ & _) & Hsk & Hev & _ & Hnd & Hcl) Hd Hw.
  cbn [node_ids] in Hnd, Hcl. pose proof (clean_head _ _ _ _ Hcl) as Ha. apply clean_tail in Hcl.
  rewrite tids_cons in Hnd. apply NoDup_cons in Hnd as [Hnin Hnd].
  destruct (park_at_delay id d d' wake n x st HI Ha Hd Hw) as (t1 & t2 & t3 & st1 & Hrun & He1 & Hs1 & HI1 & Hf1).
  exists st1. split; [exact Hrun|]. intros w Hstore.
  destruct (HI) as (Hr & _). destruct (parked_state t1 t2 t3 id wake n x st.1 Hr) as (m & Hm & _).
  destruct (parked_results t1 t2 t3 id wake n x st.1 Hr) as [Hdel Hother].
  pose proof (parked_hash t1 t2 t3 id wake n x st.1) as Hh1.
  rewrite <-He1 in Hm, Hdel, Hother, Hh1. rewrite Hh in Hh1.
  destruct (HI1) as (Hr1 & _ & Hc1 & Hp1). unfold stored in Hs1. rewrite <-Hstore in Hs1, Hc1, Hp1.
  rewrite (prepare_resume_parked _ _ _ _ _ _ _ w Hid Hs1 (proj1 (proj2 Hr1)) Hh1 Hm Hc1 Hp1).
  split; intros Hclock; [by rewrite bool_decide_true|]. rewrite bool_decide_false by lia. cbn zeta.
  destruct (woken_state (clock (4 + steps w)) _ _ _ _ _ _ _ (store w) (6 + steps w) Hr1 Hm Hc1 Hp1)
    as (HI2 & Hst2 & Hri & Hsame & Hloops). rewrite Hri.
  apply evaluates_delay, continues_inv in Hev.
  destruct (woken_ready c0 id d n x st st1 _ _ Hnin Ha Hcl Hsk Hf1 Hdel Hother Hst2 Hsame Hloops) as [Hsk' Hcl'].
  destruct (resume_completes c0 x n o _ _ Hsk' Him Hnd Hev HI2 Hcl') as (s2 & w2 & Hrun2). by do 4 eexists.
Qed.
End Resume.

(** A fresh start is a step boundary. *)
Lemma fresh_at_step `{Sha256, Chrono, FloatOps, Display, SerdeJson, EnvelopeCodec, TaskCallback, TaskTiming}
    {F : Type} `{Environment InMemoryBackend} (quiet : ∀ n b, others n b = b)
    (f : string → Bytes → result BoxError Bytes) id hash input (c : WorkflowContinuation F) o
    (w : World InMemoryBackend) s w1 :
  find_duplicate_id c = None → collision_free (node_ids c) → paced c = true →
  validate_instance_id id = Ok () → snapshots (store w) !! id = None →
  pending (store w) id Cancel = None → pending (store w) id Pause = None → evaluates f eq c input o →
  check_then_prepare id hash input (first_task_hint c) Conflict.Fail w = (Ok (Fresh s), w1) →
  at_step id f hash c o c input (s, w1).
Proof.
  intros Hd%no_duplicate_nodup Hcf Hp Hid Hs Hc Hpa He.
  rewrite (fresh_start quiet id hash input (first_task_hint c) w Hid Hs). intros [= <- <-].
  set (s := first_snapshot _ _ _ _ _). set (w1 := MkWorld _ _).
  assert (Hst : stored id (s, w1) = Some s) by apply lookup_insert_eq.
  split; [split; [done|]; split; [by exists s|done]|]. split; [done|]. split; [constructor|].
  split; [done|]. split; [done|]. split; [by apply tids_nodup|].
  intros t _. split; (split; [done|]); rewrite Hst; by intros ? [= <-].
Qed.

(** ** Properties *)

(** C1. A durable run, end to end, on a backend nobody else touches.  For trees of
    tasks without timeouts, forks, joins, conditional branches, loops and child
    workflows in any nesting (no delay and no signal anywhere), with distinct node ids
    whose hashes do not collide and tasks that answer alike at every call: when the
    specification assigns the workflow an output, starting an instance with a
    valid id that is not stored and has no pending request, running the durable executor and finalizing
    give exactly that output, the instance is reported completed and is stored as
    completed with it. *)
Theorem durable_run_correct
    `{Sha256, Chrono, FloatOps, Display, SerdeJson, EnvelopeCodec, TaskCallback, TaskTiming}
    {F : Type} `{Environment InMemoryBackend} (f : string → Bytes → result BoxError Bytes)
    (id : string) (hash : DefinitionHash) (input o : Bytes) (c : WorkflowContinuation F)
    (w : World InMemoryBackend) :
  (∀ n b, others n b = b) → (∀ n id i, run_task n id i = f id i) →
  find_duplicate_id c = None → collision_free (node_ids c) → immediate c = true →
  validate_instance_id id = Ok () → snapshots (store w) !! id = None →
  pending (store w) id Cancel = None → pending (store w) id Pause = None →
  evaluates f eq c input o →
  ∃ s w1 s2 w2 s3 w3,
    check_then_prepare id hash input (first_task_hint c) Conflict.Fail w = (Ok (Fresh s), w1) ∧
    execute_continuation_with_checkpointing c input (s, w1) = (Ok o, (s2, w2)) ∧
    finalize_execution (Ok o) s2 w2 = (Ok (Status.Completed, Some o, s3), w3) ∧
    state s3 = Completed o ∧ snapshots (store w3) !! id = Some s3.
Proof. intros quiet Hf. by apply durable_end_to_end. Qed.

(** C2. Recovery from a crash between the tasks of the chain a workflow starts with.  A
    process starts a fresh instance on a backend nobody else touches, runs any number
    of the tasks at the top of the tree (none with a timeout) and dies after one of
    them was saved, with a tree before it that waits for nothing (forks, conditional
    branches, loops and child workflows in any nesting, no delay, signal or timeout).
    Another process that finds only the stored snapshot resumes it as ready, with
    the last recorded output as input, replays from the root and returns the output the
    specification assigns to the workflow from its first input.  A crash inside a
    branch, a loop or a child is another matter: [resumed_fork_skips_rest_of_branch]
    shows one that is not recovered. *)
Theorem crash_recovery
    `{Sha256, Chrono, FloatOps, Display, SerdeJson, EnvelopeCodec, TaskCallback, TaskTiming}
    {F : Type} `{Environment InMemoryBackend} (f : string → Bytes → result BoxError Bytes)
    (id : string) (hash : DefinitionHash) (input o : Bytes) (c c' : WorkflowContinuation F)
    (w w1 w2 : World InMemoryBackend) (s : WorkflowSnapshot) (x : Bytes) (st : ExecState) :
  (∀ n b, others n b = b) → (∀ n id i, run_task n id i = f id i) →
  find_duplicate_id c = None → collision_free (node_ids c) → paced c = true →
  validate_instance_id id = Ok () → snapshots (store w) !! id = None →
  pending (store w) id Cancel = None → pending (store w) id Pause = None →
  evaluates f eq c input o →
  check_then_prepare id hash input (first_task_hint c) Conflict.Fail w = (Ok (Fresh s), w1) →
  runs_to c input (s, w1) c' x st → immediate c' = true → store w2 = store st.2 →
  ∃ s' w3 s2 w4,
    prepare_resume id hash w2 = (Ok (Ready s' x), w3) ∧
    execute_continuation_with_checkpointing c x (s', w3) = (Ok o, (s2, w4)).
Proof.
  intros quiet Hf Hd Hcf Hp Hid Hs Hc Hpa He Hprep Hruns Him Hw.
  pose proof (fresh_at_step quiet f _ _ _ _ _ _ _ _ Hd Hcf Hp Hid Hs Hc Hpa He Hprep) as Hat.
  apply (at_step_runs quiet id f Hf _ _ _ _ _ _ _ _ _ Hruns) in Hat.
  destruct (resume_from_store quiet id f Hf _ _ _ _ _ _ _ Hid Him Hat Hw) as (s' & w3 & s2 & w4 & ? & ? & _).
  by exists s', w3, s2, w4.
Qed.

(** C3. Durable delays at the top of the tree, on a backend nobody else touches: when
    the run of a fresh instance, after tasks of the top-level chain only (none with a
    timeout), reaches a delay whose wake time chrono can represent and which is
    followed by a tree that waits for nothing (no delay, signal or timeout), it stops
    with that wake time and leaves the instance parked; a process that asks to
    resume before the wake time is told to wait and changes nothing; from then on, the
    instance resumes past the delay with the value that entered it, and the run ends
    with the workflow's output. *)
Theorem durable_delay
    `{Sha256, Chrono, FloatOps, Display, SerdeJson, EnvelopeCodec, TaskCallback, TaskTiming}
    {F : Type} `{Environment InMemoryBackend} (f : string → Bytes → result BoxError Bytes)
    (id : string) (hash : DefinitionHash) (input o : Bytes) (c n : WorkflowContinuation F)
    (w w1 : World InMemoryBackend) (s : WorkflowSnapshot) (x : Bytes) (st : ExecState)
    (delay_id : string) (d d' : Duration) (wake : DateTime) :
  (∀ n b, others n b = b) → (∀ n id i, run_task n id i = f id i) →
  find_duplicate_id c = None → collision_free (node_ids c) → paced c = true →
  validate_instance_id id = Ok () → snapshots (store w) !! id = None →
  pending (store w) id Cancel = None → pending (store w) id Pause = None →
  evaluates f eq c input o →
  check_then_prepare id hash input (first_task_hint c) Conflict.Fail w = (Ok (Fresh s), w1) →
  runs_to c input (s, w1) (Delay delay_id d (Some n)) x st → immediate n = true →
  duration_from_std d = Some d' → checked_add_signed (clock (2 + steps st.2)) d' = Some wake →
  ∃ st1,
    execute_continuation_with_checkpointing (Delay delay_id d (Some n)) x st =
      (Err (Rt (RWorkflow (WF.Waiting wake))), st1) ∧
    ∀ w', store w' = store st1.2 →
      (clock (3 + steps w') < wake →
        prepare_resume id hash w' =
        (Ok (NotReady (Status.Waiting wake (TaskId_from delay_id))), MkWorld (store w') (4 + steps w'))) ∧
      (wake ≤ clock (3 + steps w') →
        ∃ s' w2 s2 w3, prepare_resume id hash w' = (Ok (Ready s' x), w2) ∧
          execute_continuation_with_checkpointing c x (s', w2) = (Ok o, (s2, w3))).
Proof.
  intros quiet Hf Hd Hcf Hp Hid Hs Hc Hpa He Hprep Hruns Him Hdur Hwake.
  pose proof (fresh_at_step quiet f _ _ _ _ _ _ _ _ Hd Hcf Hp Hid Hs Hc Hpa He Hprep) as Hat.
  apply (delay_cycle quiet id f Hf hash c o delay_id d d' wake n x st Hid Him); [|done|done].
  by eapply (at_step_runs quiet id f Hf).
Qed.

(** The retry loop always stops, whatever the tasks answer, whatever the clock
    shows and whatever other clients do to the backend: the durable executor never
    exhausts the fuel its model gives a retry loop, one attempt more than the
    policy's retries and one for a recorded policy that differs. *)
Theorem durable_retries_terminate
    `{Sha256, Chrono, FloatOps, Display, SerdeJson, EnvelopeCodec, TaskCallback, TaskTiming}
    {F : Type} `{Environment InMemoryBackend} (c : WorkflowContinuation F) (i : Bytes) (st : ExecState) :
  policies_ok c → (execute_continuation_with_checkpointing c i st).1 ≠ Err OutOfFuel.
Proof. intros Hp. by apply no_stall_main. Qed.

(** ** Witnesses *)

Module DurabilityExample.
Import Toy WorkflowExample ExecExample Examples.

#[export] Instance display : Display :=
  {| show_datetime t := u_to_string t; show_duration d := u_to_string d;
     show_codec_error _ := "codec"; show_build_errors _ := "build"; show_out_of_range := "out of range" |}.
#[export] Instance timing : TaskTiming := λ _ _, [].
(** One second per step; nobody else acts. *)
#[export] Instance env : Environment InMemoryBackend :=
  {| clock n := Z.of_nat n * ns_per_sec; others _ b := b |}.

Definition w0 : World InMemoryBackend := MkWorld backend_new 0.
Definition hash : DefinitionHash := DefinitionHash_default.

Lemma run_result {S E A} (m : io S E A) s a : (m s).1 = Ok a → m s = (Ok a, (m s).2).
Proof. destruct (m s) as [r s']. cbn. by intros ->. Qed.

Lemma meaning {F} (c : WorkflowContinuation F) i o :
  (execute_continuation_sync c i 0%nat).1 = Ok o → evaluates append_name eq c i o.
Proof.
  intros Ho%run_result.
  pose proof (@sync_computes _ _ _ _ _ callback _ append_name (λ _ _ _, eq_refl) c i 0%nat) as Hc.
  rewrite Ho in Hc. by apply Hc.
Qed.

Lemma durable_run_correct_witness :
  ∃ s w1 s2 w2 s3 w3,
    check_then_prepare "i" hash (as_bytes "in") (first_task_hint order_flow) Conflict.Fail w0 = (Ok (Fresh s), w1) ∧
    execute_continuation_with_checkpointing order_flow (as_bytes "in") (s, w1) = (Ok order_output, (s2, w2)) ∧
    finalize_execution (Ok order_output) s2 w2 = (Ok (Status.Completed, Some order_output, s3), w3) ∧
    state s3 = Completed order_output ∧ snapshots (store w3) !! "i" = Some s3.
Proof.
  apply (durable_run_correct append_name); try done.
  - exact order_flow_collision_free.
  - apply meaning. vm_compute. reflexivity.
Defined.

(** [a → b → c], stopped after [a]. *)
Definition tasks : WorkflowContinuation unit := task "a" (Some (task "b" (Some (task "c" None)))).
Definition start (c : WorkflowContinuation unit) : WorkflowSnapshot * World InMemoryBackend :=
  match check_then_prepare "i" hash (as_bytes "in") (first_task_hint c) Conflict.Fail w0 with
  | (Ok (Fresh s), w) => (s, w)
  | (_, w) => (snapshot_new 0 "i" hash, w)
  end.
Definition after_a (c : WorkflowContinuation unit) : ExecState :=
  (execute_task_step "a" None None (get_next c) (as_bytes "in") (start c)).2.

(** The clock has moved on when the next process starts. *)
Definition later_world (st : ExecState (B:=InMemoryBackend)) (n : nat) : World InMemoryBackend :=
  MkWorld (store st.2) (n + steps st.2).

Lemma later_store st n : store (later_world st n) = store st.2.
Proof. reflexivity. Qed.

Lemma start_spec c :
  check_then_prepare "i" hash (as_bytes "in") (first_task_hint c) Conflict.Fail w0 =
  (Ok (Fresh (start c).1), (start c).2).
Proof.
  unfold start. rewrite fresh_start; [|intros; reflexivity|reflexivity|reflexivity]. reflexivity.
Qed.

(** One task step of a flow that begins with [a]. *)
Lemma after_a_runs n : (execute_task_step "a" None None (Some n) (as_bytes "in") (start (task "a" (Some n)))).1 =
    Ok (as_bytes "in a") →
  runs_to (task "a" (Some n)) (as_bytes "in") ((start (task "a" (Some n))).1, (start (task "a" (Some n))).2)
    n (as_bytes "in a") (after_a (task "a" (Some n))).
Proof.
  intros Ho. rewrite <-surjective_pairing. eapply RunsStep; [apply run_result, Ho|constructor].
Qed.

Lemma crash_recovery_witness :
  ∃ s' w3 s2 w4,
    prepare_resume "i" hash (later_world (after_a tasks) 100) = (Ok (Ready s' (as_bytes "in a")), w3) ∧
    execute_continuation_with_checkpointing tasks (as_bytes "in a") (s', w3) =
      (Ok (as_bytes "in a b c"), (s2, w4)).
Proof.
  eapply (crash_recovery append_name "i" hash (as_bytes "in") (as_bytes "in a b c") tasks
    (task "b" (Some (task "c" None))) w0 (start tasks).2 (later_world (after_a tasks) 100) (start tasks).1
    (as_bytes "in a") (after_a tasks)).
  - intros; reflexivity.
  - intros; reflexivity.
  - vm_compute; reflexivity.
  - apply (bool_decide_unpack _). vm_compute. exact I.
  - vm_compute; reflexivity.
  - vm_compute; reflexivity.
  - reflexivity.
  - reflexivity.
  - reflexivity.
  - apply meaning. vm_compute. reflexivity.
  - apply start_spec.
  - apply after_a_runs. vm_compute. reflexivity.
  - vm_compute; reflexivity.
  - apply later_store.
Defined.

(** [a → wait one minute → b]. *)
Definition delayed : WorkflowContinuation unit :=
  task "a" (Some (Delay "wait" (from_secs 60) (Some (task "b" None)))).
Definition parked_at_wait : ExecState :=
  (execute_continuation_with_checkpointing (Delay "wait" (from_secs 60) (Some (task "b" None)))
    (as_bytes "in a") (after_a delayed)).2.
Definition wake_time : DateTime := clock (2 + steps (after_a delayed).2) + from_secs 60.

Lemma durable_delay_witness :
  ∃ st1,
    execute_continuation_with_checkpointing (Delay "wait" (from_secs 60) (Some (task "b" None)))
      (as_bytes "in a") (after_a delayed) = (Err (Rt (RWorkflow (WF.Waiting wake_time))), st1) ∧
    ∀ w', store w' = store st1.2 →
      (clock (3 + steps w') < wake_time →
        prepare_resume "i" hash w' =
        (Ok (NotReady (Status.Waiting wake_time (TaskId_from "wait"))), MkWorld (store w') (4 + steps w'))) ∧
      (wake_time ≤ clock (3 + steps w') →
        ∃ s' w2 s2 w3, prepare_resume "i" hash w' = (Ok (Ready s' (as_bytes "in a")), w2) ∧
          execute_continuation_with_checkpointing delayed (as_bytes "in a") (s', w2) =
            (Ok (as_bytes "in a b"), (s2, w3))).
Proof.
  eapply (durable_delay append_name "i" hash (as_bytes "in") (as_bytes "in a b") delayed (task "b" None)
    w0 (start delayed).2 (start delayed).1 (as_bytes "in a") (after_a delayed) "wait" (from_secs 60)
    (from_secs 60) wake_time).
  - intros; reflexivity.
  - intros; reflexivity.
  - vm_compute; reflexivity.
  - apply (bool_decide_unpack _). vm_compute. exact I.
  - vm_compute; reflexivity.
  - vm_compute; reflexivity.
  - reflexivity.
  - reflexivity.
  - reflexivity.
  - apply meaning. vm_compute. reflexivity.
  - apply start_spec.
  - apply after_a_runs. vm_compute. reflexivity.
  - vm_compute; reflexivity.
  - vm_compute; reflexivity.
  - vm_compute; reflexivity.
Defined.

(** A task with three retries. *)
Definition flaky : WorkflowContinuation unit :=
  Task "a" (Some tt) None (Some (with_max_retries 3)) None None [] None.

Lemma durable_retries_terminate_witness :
  (execute_continuation_with_checkpointing flaky [] (start flaky)).1 ≠ Err OutOfFuel.
Proof.
  apply durable_retries_terminate. constructor; [|constructor]. apply (bool_decide_unpack _). vm_compute. exact I.
Defined.

(** [a → fork [left → left2; right] → join], stopped in the first branch, after
    [left]. *)
Definition forked : WorkflowContinuation unit :=
  task "a" (Some (Fork "f" [task "left" (Some (task "left2" None)); task "right" None]
    (Some (task "join" None)))).
Definition in_branch : ExecState :=
  (with_own_snapshot "i" (branch_execute_or_skip_task "left" (as_bytes "in a") None "i") (after_a forked)).2.
Definition resumed : result RuntimeError ResumeOutcome * World InMemoryBackend :=
  prepare_resume "i" hash (later_world in_branch 100).
Definition resumed_output : option Bytes :=
  match resumed with
  | (Ok (Ready s x), w) => ok (execute_continuation_with_checkpointing forked x (s, w)).1
  | _ => None
  end.

(** A run that stops inside a fork branch, after the branch's first task, is
    resumed to a wrong output: the fork looks the branch's result up under the id of
    its first node, finds the recorded result of that task and takes it for the
    result of the whole branch, so the rest of the branch never runs. *)
Theorem resumed_fork_skips_rest_of_branch :
  resumed_output = Some (as_bytes "left=in a left;right=in a right; join") ∧
  evaluates append_name eq forked (as_bytes "in")
    (as_bytes "left=in a left left2;right=in a right; join").
Proof. split; [vm_compute; reflexivity|]. apply meaning. vm_compute. reflexivity. Qed.
End DurabilityExample.
