(* ===== verification/WorkerNav.v ===== *)
(** * Navigation in the worker ([sayiir-runtime/src/worker.rs])

    A pooled worker executes one task per dispatch, so it finds its way in the
    continuation tree from a task id: the branches that feed a join, the subtree
    that holds a task, the task's function, and whether the whole tree is done. *)

From S2P Require Import Prelude Hash32 Task Workflow Serializable TaskIndex Snapshot Backend Runtime.

(** [for x in l { if let Some(y) = f(x) { return Some(y) } }]. *)
Section FirstSome.
Context {A C : Type} (f : A → option C).
Fixpoint first_some (l : list A) : option C :=
  match l with
  | [] => None
  | a :: l => match f a with Some c => Some c | None => first_some l end
  end.
End FirstSome.

(** [for x in l { if p(x) { current = x; break } }], with what follows for [x]. *)
Section Pick.
Context {A C : Type} (p : A → bool) (f : A → C).
Fixpoint pick (l : list A) : option C :=
  match l with
  | [] => None
  | a :: l => if p a then Some (f a) else pick l
  end.
End Pick.

Section Navigation.
Context `{Sha256} {F : Type}.
Implicit Types c : WorkflowContinuation F.

(** [find_fork_branches_for_join]. *)
Fixpoint find_fork_branches_for_join (task_id : TaskId) c : option (list (WorkflowContinuation F)) :=
  match c with
  | Task _ _ _ _ _ _ _ next | Delay _ _ next | AwaitSignal _ _ _ next =>
      match next with Some n => find_fork_branches_for_join task_id n | None => None end
  | Fork _ branches join =>
      match
        match join with
        | Some j =>
            if bool_decide (TaskId_from (first_task_id j) = task_id) then Some branches
            else find_fork_branches_for_join task_id j
        | None => None
        end
      with
      | Some b => Some b
      | None => first_some (find_fork_branches_for_join task_id) branches
      end
  | Branch _ _ branches default next =>
      match first_some (λ kb, find_fork_branches_for_join task_id (snd kb)) branches with
      | Some b => Some b
      | None =>
          match match default with Some d => find_fork_branches_for_join task_id d | None => None end with
          | Some b => Some b
          | None => match next with Some n => find_fork_branches_for_join task_id n | None => None end
          end
      end
  | Loop _ inner _ _ next | ChildWorkflow _ inner next =>
      match find_fork_branches_for_join task_id inner with
      | Some b => Some b
      | None => match next with Some n => find_fork_branches_for_join task_id n | None => None end
      end
  end.

(** [find_task_id_in_continuation]. *)
Fixpoint find_task_id_in_continuation (task_id : TaskId) c : bool :=
  let opt (o : option (WorkflowContinuation F)) :=
    match o with Some n => find_task_id_in_continuation task_id n | None => false end in
  match c with
  | Task id _ _ _ _ _ _ next | Delay id _ next | AwaitSignal id _ _ next =>
      if bool_decide (TaskId_from id = task_id) then true else opt next
  | Fork _ branches join =>
      if existsb (find_task_id_in_continuation task_id) branches then true else opt join
  | Branch _ _ branches default next =>
      if existsb (λ kb, find_task_id_in_continuation task_id (snd kb)) branches then true
      else if opt default then true
      else opt next
  | Loop _ inner _ _ next | ChildWorkflow _ inner next =>
      if find_task_id_in_continuation task_id inner then true else opt next
  end.

(** The search of [execute_task_by_id]: the function it runs, or its error. *)
Fixpoint find_func (task_id : TaskId) c : result RuntimeError F :=
  let go (o : option (WorkflowContinuation F)) :=
    match o with
    | Some n => find_func task_id n
    | None => Err (RWorkflow (WF.TaskNotFound (hash_display task_id)))
    end in
  match c with
  | Task id func _ _ _ _ _ next =>
      if bool_decide (TaskId_from id = task_id)
      then ok_or func (RWorkflow (WF.TaskNotImplemented id))
      else go next
  | Delay _ _ next | AwaitSignal _ _ _ next => go next
  | Fork _ branches join =>
      match pick (find_task_id_in_continuation task_id) (find_func task_id) branches with
      | Some r => r
      | None => go join
      end
  | Branch _ _ branches default next =>
      match pick (λ kb, find_task_id_in_continuation task_id (snd kb))
              (λ kb, find_func task_id (snd kb)) branches with
      | Some r => r
      | None =>
          match default with
          | Some d => if find_task_id_in_continuation task_id d then find_func task_id d else go next
          | None => go next
          end
      end
  | Loop _ inner _ _ next | ChildWorkflow _ inner next =>
      if find_task_id_in_continuation task_id inner then find_func task_id inner else go next
  end.

(** [is_workflow_complete]. *)
Fixpoint is_workflow_complete (s : WorkflowSnapshot) c : bool :=
  let opt (o : option (WorkflowContinuation F)) :=
    match o with Some n => is_workflow_complete s n | None => true end in
  let has id := match get_task_result (TaskId_from id) s with Some _ => true | None => false end in
  match c with
  | Task id _ _ _ _ _ _ next | Delay id _ next | AwaitSignal id _ _ next
  | Branch id _ _ _ next | Loop id _ _ _ next | ChildWorkflow id _ next =>
      if has id then opt next else false
  | Fork _ branches join => if forallb (is_workflow_complete s) branches then opt join else false
  end.

(** ** Specifications *)

(** The task functions. *)
Fixpoint task_funcs c : list (string * option F) :=
  let opt (o : option (WorkflowContinuation F)) := match o with Some n => task_funcs n | None => [] end in
  match c with
  | Task id func _ _ _ _ _ next => (id, func) :: opt next
  | Delay _ _ next | AwaitSignal _ _ _ next => opt next
  | Fork _ branches join => flat_map task_funcs branches ++ opt join
  | Branch _ _ branches default next =>
      flat_map (λ kb, task_funcs (snd kb)) branches ++ opt default ++ opt next
  | Loop _ inner _ _ next | ChildWorkflow _ inner next => task_funcs inner ++ opt next
  end.

(** The forks with a join. *)
Fixpoint joins c : list (list (WorkflowContinuation F) * WorkflowContinuation F) :=
  let opt (o : option (WorkflowContinuation F)) := match o with Some n => joins n | None => [] end in
  match c with
  | Task _ _ _ _ _ _ _ next | Delay _ _ next | AwaitSignal _ _ _ next => opt next
  | Fork _ branches join =>
      match join with Some j => (branches, j) :: joins j | None => [] end ++ flat_map joins branches
  | Branch _ _ branches default next =>
      flat_map (λ kb, joins (snd kb)) branches ++ opt default ++ opt next
  | Loop _ inner _ _ next | ChildWorkflow _ inner next => joins inner ++ opt next
  end.
End Navigation.

(** ** The searches over lists *)

Definition hits `{Sha256} (task_id : TaskId) (id : string) : bool := bool_decide (TaskId_from id = task_id).

Section ListSearch.
Context {A C : Type}.

Lemma first_some_find (f : A → option C) {D} (p : D → bool) (g : A → list D) (h : D → C) l :
  Forall (λ a, f a = h <$> List.find p (g a)) l →
  first_some f l = h <$> List.find p (flat_map g l).
Proof.
  induction 1 as [|a l Ha _ IH]; [done|]. cbn [first_some flat_map]. rewrite Ha, IH. rewrite find_app. by destruct (List.find p (g a)).
Qed.

Lemma existsb_flat_map (f : A → bool) {D} (p : D → bool) (g : A → list D) l :
  Forall (λ a, f a = existsb p (g a)) l → existsb f l = existsb p (flat_map g l).
Proof. induction 1 as [|a l Ha _ IH]; cbn; [done|]. by rewrite existsb_app, Ha, IH. Qed.

Lemma existsb_false (p : A → bool) l : existsb p l = false ↔ ∀ a, a ∈ l → p a = false.
Proof.
  split.
  - intros Hf a Ha. destruct (p a) eqn:Hp; [|done]. exfalso.
    assert (existsb p l = true); [|congruence]. apply existsb_exists. exists a. by rewrite <-list_elem_of_In.
  - intros Hp. destruct (existsb p l) eqn:He; [|done].
    apply existsb_exists in He as (a & Ha & Hpa). rewrite <-list_elem_of_In in Ha. by rewrite Hp in Hpa.
Qed.
End ListSearch.

Section NavigationSpec.
Context `{Sha256} {F : Type}.
Implicit Types c : WorkflowContinuation F.

(** The subtree search finds exactly the ids of tasks, delays and signals. *)
Lemma find_task_id_spec t c : find_task_id_in_continuation t c = existsb (hits t) (leaf_ids c).
Proof.
  induction c as [id fn to r v p tg n Hn|id bs j Hbs Hj|id d n Hn|id s to n Hn|id k bs d n Hbs Hd Hn
    |id b m o n Hb Hn|id ch n Hc Hn] using continuation_ind; cbn;
    rewrite ?existsb_app, ?(existsb_flat_map _ (hits t) leaf_ids bs Hbs),
      ?(existsb_flat_map _ (hits t) (λ kb, leaf_ids kb.2) bs Hbs).
  1,3,4: unfold hits at 1; case_bool_decide; [done|]; by destruct n.
  - destruct (existsb _ _); [done|]. by destruct j.
  - destruct (existsb _ _); [done|]. destruct d as [d|]; cbn in *.
    + rewrite Hd. destruct (existsb _ (leaf_ids d)); [done|]. by destruct n.
    + by destruct n.
  - rewrite Hb. destruct (existsb _ _); [done|]. by destruct n.
  - rewrite Hc. destruct (existsb _ _); [done|]. by destruct n.
Qed.

(** The join search finds the first fork whose join starts at the task. *)
Lemma find_fork_spec t c :
  find_fork_branches_for_join t c = fst <$> List.find (λ bj, hits t (first_task_id bj.2)) (joins c).
Proof.
  set (p := λ bj : list (WorkflowContinuation F) * WorkflowContinuation F, hits t (first_task_id bj.2)).
  assert (Hopt : ∀ o : option (WorkflowContinuation F),
    opt_all (λ c, find_fork_branches_for_join t c = fst <$> List.find p (joins c)) o →
    match o with Some n => find_fork_branches_for_join t n | None => None end =
    fst <$> List.find p match o with Some n => joins n | None => [] end) by (by intros []).
  induction c as [id fn to r v pr tg n Hn|id bs j Hbs Hj|id d n Hn|id s to n Hn|id k bs d n Hbs Hd Hn
    |id b m o n Hb Hn|id ch n Hc Hn] using continuation_ind; cbn [find_fork_branches_for_join joins];
    try (by apply Hopt); rewrite ?find_app.
  - rewrite (first_some_find _ p joins fst bs Hbs). destruct j as [j|]; cbn; [|done].
    change (p (bs, j)) with (hits t (first_task_id j)). unfold hits. case_bool_decide; [done|]. cbn in Hj. rewrite Hj. by destruct (List.find p (joins j)).
  - rewrite (first_some_find _ p (λ kb, joins kb.2) fst bs Hbs), (Hopt d Hd), (Hopt n Hn).
    destruct (List.find p _); [done|]. cbn. by destruct (List.find p match d with Some _ => _ | None => _ end).
  - rewrite Hb, (Hopt n Hn). by destruct (List.find p (joins b)).
  - rewrite Hc, (Hopt n Hn). by destruct (List.find p (joins ch)).
Qed.

(** What running the found task answers. *)
Definition func_result (t : TaskId) (o : option (string * option F)) : result RuntimeError F :=
  match o with
  | Some (id, fn) => ok_or fn (RWorkflow (WF.TaskNotImplemented id))
  | None => Err (RWorkflow (WF.TaskNotFound (hash_display t)))
  end.
Definition find_task_func (t : TaskId) c : option (string * option F) :=
  List.find (λ p, hits t p.1) (task_funcs c).

Lemma leaves_exclusive t (l k : list string) :
  NoDup (TaskId_from <$> l ++ k) → existsb (hits t) l = true → existsb (hits t) k = false.
Proof.
  intros Hnd (x & Hx & Hh)%existsb_exists. apply existsb_false. intros y Hy. unfold hits in *.
  apply bool_decide_eq_true in Hh. apply bool_decide_eq_false. intros Hy'.
  rewrite fmap_app in Hnd. apply NoDup_app in Hnd as (_ & Hd & _). apply (Hd t).
  - apply list_elem_of_fmap. exists x. split; [done|]. by apply list_elem_of_In.
  - apply list_elem_of_fmap. by exists y.
Qed.

Lemma task_funcs_leaves c : (task_funcs c).*1 `sublist_of` leaf_ids c.
Proof.
  assert (Hopt : ∀ o : option (WorkflowContinuation F),
    opt_all (λ c, (task_funcs c).*1 `sublist_of` leaf_ids c) o →
    (match o with Some n => task_funcs n | None => [] end).*1 `sublist_of`
      match o with Some n => leaf_ids n | None => [] end) by (by intros []).
  assert (Hmap : ∀ (A : Type) (g : A → WorkflowContinuation F) l,
    Forall (λ a, (task_funcs (g a)).*1 `sublist_of` leaf_ids (g a)) l →
    (flat_map (λ a, task_funcs (g a)) l).*1 `sublist_of` flat_map (λ a, leaf_ids (g a)) l).
  { induction 1; cbn; [done|]. rewrite fmap_app. by apply sublist_app. }
  induction c as [id fn to r v pr tg n Hn|id bs j Hbs Hj|id d n Hn|id s to n Hn|id k bs d n Hbs Hd Hn
    |id b m o n Hb Hn|id ch n Hc Hn] using continuation_ind; cbn [task_funcs leaf_ids];
    rewrite ?fmap_app, ?fmap_cons; repeat (apply sublist_app); auto;
    first [by apply sublist_skip, Hopt|by apply sublist_cons, Hopt
          |by apply (Hmap _ (λ b, b))|by apply (Hmap _ snd)].
Qed.

Lemma leaves_sub {A} (g : A → WorkflowContinuation F) l :
  (flat_map (λ a, task_funcs (g a)) l).*1 `sublist_of` flat_map (λ a, leaf_ids (g a)) l.
Proof.
  induction l; cbn; [done|]. rewrite fmap_app. apply sublist_app; [apply task_funcs_leaves|done].
Qed.

Lemma find_none_missing t (fs : list (string * option F)) (l : list string) :
  fs.*1 `sublist_of` l → existsb (hits t) l = false → List.find (λ p, hits t p.1) fs = None.
Proof.
  intros Hs Hl. destruct (List.find _ fs) as [[id fn]|] eqn:Hf; [|done]. exfalso.
  apply List.find_some in Hf as [Hin Hh]. cbn in Hh. rewrite existsb_false in Hl.
  rewrite (Hl id) in Hh; [done|]. eapply elem_of_sublist; [|exact Hs].
  apply list_elem_of_fmap. exists (id, fn). split; [done|]. by apply list_elem_of_In.
Qed.

Lemma find_in_first t (fs gs : list (string * option F)) (k : list string) :
  gs.*1 `sublist_of` k → existsb (hits t) k = false →
  List.find (λ p, hits t p.1) (fs ++ gs) = List.find (λ p, hits t p.1) fs.
Proof.
  intros Hs Hk. rewrite find_app, (find_none_missing t gs k) by done. by destruct (List.find _ fs).
Qed.

Lemma pick_spec {A} (g : A → WorkflowContinuation F) t (l : list A) :
  Forall (λ a, NoDup (TaskId_from <$> leaf_ids (g a)) →
    find_func t (g a) = func_result t (find_task_func t (g a))) l →
  NoDup (TaskId_from <$> flat_map (λ a, leaf_ids (g a)) l) →
  match pick (λ a, find_task_id_in_continuation t (g a)) (λ a, find_func t (g a)) l with
  | Some r => existsb (hits t) (flat_map (λ a, leaf_ids (g a)) l) = true ∧
      r = func_result t (List.find (λ p, hits t p.1) (flat_map (λ a, task_funcs (g a)) l))
  | None => existsb (hits t) (flat_map (λ a, leaf_ids (g a)) l) = false
  end.
Proof.
  induction 1 as [|a l Ha _ IH]; [done|]. cbn [pick flat_map]. intros Hnd.
  rewrite find_task_id_spec, existsb_app. destruct (existsb (hits t) (leaf_ids (g a))) eqn:He.
  - split; [done|]. pose proof (leaves_exclusive t _ _ Hnd He) as Hex.
    rewrite fmap_app in Hnd. apply NoDup_app in Hnd as (Hnd & _ & _). rewrite Ha by done.
    unfold find_task_func. rewrite (find_in_first _ _ _ _ (leaves_sub g l)) by done. done.
  - rewrite fmap_app in Hnd. apply NoDup_app in Hnd as (_ & _ & Hnd). specialize (IH Hnd).
    rewrite find_app, (find_none_missing _ _ _ (task_funcs_leaves (g a))) by done.
    by destruct (pick _ _ l).
Qed.

Definition opt_leaves (o : option (WorkflowContinuation F)) : list string :=
  match o with Some n => leaf_ids n | None => [] end.
Definition opt_funcs (o : option (WorkflowContinuation F)) : list (string * option F) :=
  match o with Some n => task_funcs n | None => [] end.
Definition opt_func (t : TaskId) (o : option (WorkflowContinuation F)) : result RuntimeError F :=
  match o with Some n => find_func t n | None => Err (RWorkflow (WF.TaskNotFound (hash_display t))) end.
Definition found (t : TaskId) c : Prop :=
  NoDup (TaskId_from <$> leaf_ids c) → find_func t c = func_result t (find_task_func t c).

Lemma opt_func_spec t o : opt_all (found t) o → NoDup (TaskId_from <$> opt_leaves o) →
  opt_func t o = func_result t (List.find (λ p, hits t p.1) (opt_funcs o)).
Proof. destruct o; cbn; auto. Qed.

Lemma opt_sub o : (opt_funcs o).*1 `sublist_of` opt_leaves o.
Proof. destruct o; [apply task_funcs_leaves|done]. Qed.

(** A first part that is searched when it has the id, then the rest. *)
Lemma searched_first t r1 r2 (fs gs : list (string * option F)) (l k : list string) :
  fs.*1 `sublist_of` l → gs.*1 `sublist_of` k → NoDup (TaskId_from <$> l ++ k) →
  (NoDup (TaskId_from <$> l) → r1 = func_result t (List.find (λ p, hits t p.1) fs)) →
  (NoDup (TaskId_from <$> k) → r2 = func_result t (List.find (λ p, hits t p.1) gs)) →
  (if existsb (hits t) l then r1 else r2) = func_result t (List.find (λ p, hits t p.1) (fs ++ gs)).
Proof.
  intros Hf Hg Hnd H1 H2. destruct (existsb (hits t) l) eqn:He.
  - rewrite (find_in_first _ _ _ k) by (done || by eapply leaves_exclusive). apply H1.
    rewrite fmap_app in Hnd. by apply NoDup_app in Hnd as (? & _ & _).
  - rewrite find_app, (find_none_missing _ _ l) by done. apply H2.
    rewrite fmap_app in Hnd. by apply NoDup_app in Hnd as (_ & _ & ?).
Qed.

Lemma find_func_spec t c : found t c.
Proof.
  induction c as [id fn to r v pr tg n Hn|id bs j Hbs Hj|id d n Hn|id s to n Hn|id k bs d n Hbs Hd Hn
    |id b m o n Hb Hn|id ch n Hc Hn] using continuation_ind; intros Hnd; unfold find_task_func; cbn in Hnd |- *.
  - unfold hits at 1. case_bool_decide; [done|]. apply NoDup_cons in Hnd as [_ Hnd].
    by apply (opt_func_spec t n).
  - pose proof (pick_spec (λ b, b) t bs Hbs) as Hp.
    rewrite fmap_app in Hnd. pose proof Hnd as (Hb & _ & Ho)%NoDup_app. specialize (Hp Hb). cbn in Hp.
    destruct (pick _ _ bs) as [r|].
    + destruct Hp as [He ->]. rewrite (find_in_first _ _ _ _ (opt_sub j)); [done|].
      eapply leaves_exclusive; [|exact He]. by rewrite fmap_app.
    + rewrite find_app, (find_none_missing _ _ _ (leaves_sub (λ b, b) bs)) by done.
      by apply (opt_func_spec t j).
  - apply NoDup_cons in Hnd as [_ Hnd]. by apply (opt_func_spec t n).
  - apply NoDup_cons in Hnd as [_ Hnd]. by apply (opt_func_spec t n).
  - pose proof (pick_spec snd t bs Hbs) as Hp.
    rewrite fmap_app in Hnd. pose proof Hnd as (Hb & _ & Ho)%NoDup_app. specialize (Hp Hb).
    destruct (pick _ _ bs) as [r|].
    + destruct Hp as [He ->]. rewrite (find_in_first _ _ _ (opt_leaves d ++ opt_leaves n)); [done| |].
      * rewrite fmap_app. apply sublist_app; apply opt_sub.
      * eapply leaves_exclusive; [|exact He]. by rewrite fmap_app.
    + rewrite find_app, (find_none_missing _ _ _ (leaves_sub snd bs)) by done.
      destruct d as [d|]; [|by apply (opt_func_spec t n)]. rewrite find_task_id_spec.
      eapply (searched_first t _ _ _ _ _ _ (task_funcs_leaves d) (opt_sub n)); [done|by apply Hd|].
      by apply (opt_func_spec t n).
  - rewrite find_task_id_spec.
    eapply (searched_first t _ _ _ _ _ _ (task_funcs_leaves b) (opt_sub n)); [done|by apply Hb|].
    by apply (opt_func_spec t n).
  - rewrite find_task_id_spec.
    eapply (searched_first t _ _ _ _ _ _ (task_funcs_leaves ch) (opt_sub n)); [done|by apply Hc|].
    by apply (opt_func_spec t n).
Qed.
End NavigationSpec.

(** ** The index and the tree agree *)

Section IndexContains.
Context `{Sha256} {F : Type}.
Implicit Types c : WorkflowContinuation F.

Lemma filter_view (l : list NodeInfo) : ni_id <$> List.filter indexed l = flat_map leaf_view l.
Proof.
  induction l as [|n l IH]; cbn; [done|]. unfold indexed at 1, leaf_view at 1.
  destruct (ni_kind n); cbn; by rewrite <-IH.
Qed.

Lemma foldl_insert_is_Some {A} (l : list (TaskId * A)) (m : gmap TaskId A) k :
  is_Some (foldl (λ m e, <[fst e := snd e]> m) m l !! k) ↔ k ∈ l.*1 ∨ is_Some (m !! k).
Proof.
  revert m; induction l as [|[k' a] l IH]; intros m; cbn; [set_solver|].
  rewrite IH, elem_of_cons, lookup_insert_is_Some'. naive_solver.
Qed.

Lemma index_contains_leaf c t : index_contains (index_build c) t = find_task_id_in_continuation t c.
Proof.
  rewrite find_task_id_spec. unfold index_contains, index_build. cbn [by_id].
  rewrite iter_nodes_preorder. apply eq_bool_prop_intro. rewrite bool_decide_spec.
  rewrite foldl_insert_is_Some, <-list_fmap_compose. rewrite lookup_empty.
  rewrite (list_fmap_ext _ (TaskId_from ∘ ni_id)) by done.
  rewrite list_fmap_compose, filter_view.
  rewrite (flat_map_Permutation_l _ _ _ (preorder_unsorted c None)), (unsorted_leaves c None).
  rewrite Is_true_true, existsb_exists. setoid_rewrite <-list_elem_of_In. unfold hits.
  setoid_rewrite bool_decide_eq_true. rewrite list_elem_of_fmap. split.
  - intros [(x & -> & ?)|[? ?]]; [eauto|done].
  - intros (x & ? & <-). eauto.
Qed.
End IndexContains.

(** ** Properties *)

(** The worker finds its way in the tree: the index knows exactly the ids that
    the subtree search finds (so a task that passes validation can be located), the
    function executed for an id is the one of the task with that id, a missing
    implementation and an unknown id each giving their own error, and the branches
    a join is fed from are those of the first fork whose join starts at the task. *)
Theorem worker_finds_task `{Sha256} {F : Type} (c : WorkflowContinuation F) (t : TaskId) :
  NoDup (TaskId_from <$> leaf_ids c) →
  index_contains (index_build c) t = find_task_id_in_continuation t c ∧
  find_task_id_in_continuation t c = existsb (hits t) (leaf_ids c) ∧
  find_func t c = func_result t (List.find (λ p, hits t p.1) (task_funcs c)) ∧
  find_fork_branches_for_join t c = fst <$> List.find (λ bj, hits t (first_task_id bj.2)) (joins c).
Proof.
  intros Hnd. split; [apply index_contains_leaf|]. split; [apply find_task_id_spec|].
  split; [by apply find_func_spec|apply find_fork_spec].
Qed.

Module NavExample.
Import Toy WorkflowExample.

Definition leaf (id : string) (n : option (WorkflowContinuation nat)) : WorkflowContinuation nat :=
  Task id (Some (String.length id)) None None None None [] n.
Definition tree : WorkflowContinuation nat :=
  leaf "a" (Some (Fork "f" [leaf "bb" None; Loop "l" (leaf "ccc" None) 3 Fail None] (Some (leaf "join" None)))).

Lemma worker_finds_task_witness :
  find_func (TaskId_from "ccc") tree = Ok 3%nat ∧
  find_fork_branches_for_join (TaskId_from "join") tree =
    Some [leaf "bb" None; Loop "l" (leaf "ccc" None) 3 Fail None] ∧
  index_contains (index_build tree) (TaskId_from "l") = false.
Proof.
  assert (Hnd : NoDup (TaskId_from <$> leaf_ids tree)) by (apply (bool_decide_unpack _); vm_compute; exact I).
  destruct (worker_finds_task tree (TaskId_from "ccc") Hnd) as (_ & _ & -> & _).
  destruct (worker_finds_task tree (TaskId_from "join") Hnd) as (_ & _ & _ & ->).
  destruct (worker_finds_task tree (TaskId_from "l") Hnd) as (-> & -> & _ & _).
  vm_compute. repeat split.
Defined.
End NavExample.
