(* ===== verification/Worker.v ===== *)
(** * The pooled worker ([sayiir-runtime/src/worker.rs])

    One dispatch of a [PooledWorker]: validating and claiming a task, the guards,
    running it under a heartbeat, and settling its outcome.  The worker works on
    the snapshot it was dispatched with (the state of [Exec]) beside the world of
    backend calls, so everything other workers and clients do between two calls is
    the environment of the run.

    User code, its panics and the number of heartbeats that fire before it ends are
    parameters; the two calls of one heartbeat run one after the other. *)

From S2P Require Import Prelude Hash32 SnapshotFormat Task Workflow Serializable TaskIndex Snapshot Backend InMemory ClaimStore Runtime Lifecycle SyncExec Checkpoint WorkerNav.

(** ** Configuration *)

(** [NonZeroUsize] is [positive]; the backend is the world and the registry is not
    used. *)
Record PooledWorker : Type := MkWorker {
  worker_id : string;
  claim_ttl : option Duration;
  batch_size : positive;
  max_concurrent_tasks : option positive;
  aging_interval : Duration;
  worker_tags : list string
}.

Definition from_mins (n : Z) : Duration := from_secs (60 * n).

(** [PooledWorker::new]. *)
Definition worker_new (id : string) : PooledWorker :=
  MkWorker id (Some (from_mins 5)) 1 None (from_mins 5) [].

(** The setters; [with_aging_interval] asserts, [None] being the panic. *)
Definition with_claim_ttl (ttl : option Duration) (w : PooledWorker) : PooledWorker :=
  MkWorker (worker_id w) ttl (batch_size w) (max_concurrent_tasks w) (aging_interval w) (worker_tags w).
Definition with_aging_interval (interval : Duration) (w : PooledWorker) : option PooledWorker :=
  if bool_decide (interval = 0) then None
  else Some (MkWorker (worker_id w) (claim_ttl w) (batch_size w) (max_concurrent_tasks w) interval (worker_tags w)).
Definition with_batch_size (size : positive) (w : PooledWorker) : PooledWorker :=
  MkWorker (worker_id w) (claim_ttl w) size (max_concurrent_tasks w) (aging_interval w) (worker_tags w).
Definition with_max_concurrent_tasks (max : positive) (w : PooledWorker) : PooledWorker :=
  MkWorker (worker_id w) (claim_ttl w) (batch_size w) (Some max) (aging_interval w) (worker_tags w).
Definition with_tags (tags : list string) (w : PooledWorker) : PooledWorker :=
  MkWorker (worker_id w) (claim_ttl w) (batch_size w) (max_concurrent_tasks w) (aging_interval w) tags.

(** [max_concurrent]. *)
Definition max_concurrent (w : PooledWorker) : nat :=
  Pos.to_nat (default (batch_size w) (max_concurrent_tasks w)).

(** [PooledWorkerBuilder]; [hostname] and the process id are the system's. *)
Record PooledWorkerBuilder : Type := MkWorkerBuilder {
  builder_worker_id : option string;
  builder_claim_ttl : option Duration;
  builder_batch_size : positive;
  builder_max_concurrent_tasks : option positive;
  builder_aging_interval : Duration;
  builder_tags : list string
}.
Definition worker_builder : PooledWorkerBuilder :=
  MkWorkerBuilder None (Some (from_mins 5)) 1 None (from_mins 5) [].
(** The builder's setters; [builder_with_aging_interval] asserts. *)
Definition builder_with_worker_id (id : string) (b : PooledWorkerBuilder) : PooledWorkerBuilder :=
  MkWorkerBuilder (Some id) (builder_claim_ttl b) (builder_batch_size b) (builder_max_concurrent_tasks b)
    (builder_aging_interval b) (builder_tags b).
Definition builder_with_claim_ttl (ttl : option Duration) (b : PooledWorkerBuilder) : PooledWorkerBuilder :=
  MkWorkerBuilder (builder_worker_id b) ttl (builder_batch_size b) (builder_max_concurrent_tasks b)
    (builder_aging_interval b) (builder_tags b).
Definition builder_with_batch_size (size : positive) (b : PooledWorkerBuilder) : PooledWorkerBuilder :=
  MkWorkerBuilder (builder_worker_id b) (builder_claim_ttl b) size (builder_max_concurrent_tasks b)
    (builder_aging_interval b) (builder_tags b).
Definition builder_with_max_concurrent_tasks (max : positive) (b : PooledWorkerBuilder) : PooledWorkerBuilder :=
  MkWorkerBuilder (builder_worker_id b) (builder_claim_ttl b) (builder_batch_size b) (Some max)
    (builder_aging_interval b) (builder_tags b).
Definition builder_with_aging_interval (interval : Duration) (b : PooledWorkerBuilder) : option PooledWorkerBuilder :=
  if bool_decide (interval = 0) then None
  else Some (MkWorkerBuilder (builder_worker_id b) (builder_claim_ttl b) (builder_batch_size b)
    (builder_max_concurrent_tasks b) interval (builder_tags b)).
Definition builder_with_tags (tags : list string) (b : PooledWorkerBuilder) : PooledWorkerBuilder :=
  MkWorkerBuilder (builder_worker_id b) (builder_claim_ttl b) (builder_batch_size b)
    (builder_max_concurrent_tasks b) (builder_aging_interval b) tags.
Definition default_worker_id (hostname : option string) (pid : Z) : string :=
  default "unknown" hostname +:+ "-" +:+ u_to_string pid.
Definition worker_build (hostname : option string) (pid : Z) (b : PooledWorkerBuilder) : PooledWorker :=
  MkWorker (default (default_worker_id hostname pid) (builder_worker_id b)) (builder_claim_ttl b)
    (builder_batch_size b) (builder_max_concurrent_tasks b) (builder_aging_interval b) (builder_tags b).

(** The fields of [Workflow] the worker uses, and [ExternalWorkflow]. *)
Record Workflow (F : Type) : Type := MkWorkflow {
  workflow_name : string;
  workflow_metadata_json : option string;
  workflow_definition_hash : DefinitionHash;
  workflow_continuation : WorkflowContinuation F;
  workflow_task_index : TaskIndex
}.
Arguments MkWorkflow {F}.
Arguments workflow_name {F}.
Arguments workflow_metadata_json {F}.
Arguments workflow_definition_hash {F}.
Arguments workflow_continuation {F}.
Arguments workflow_task_index {F}.

Record ExternalWorkflow (F : Type) : Type := MkExternalWorkflow {
  ext_continuation : WorkflowContinuation F;
  ext_task_index : TaskIndex;
  ext_workflow_id : string;
  ext_metadata_json : option string
}.
Arguments MkExternalWorkflow {F}.
Arguments ext_continuation {F}.
Arguments ext_task_index {F}.
Arguments ext_workflow_id {F}.
Arguments ext_metadata_json {F}.

(** [TaskExecutionContext]: what running user code can ask for. *)
Record TaskExecutionContext : Type := MkTaskContext {
  ctx_workflow_id : string;
  ctx_instance_id : string;
  ctx_task_id : string;
  ctx_metadata : TaskMetadata;
  ctx_workflow_metadata_json : option string
}.

(** ** Outcomes *)

(** The payload of a panic: a [&str], a [String], or anything else. *)
Inductive PanicPayload : Type := PayloadStr (s : string) | PayloadString (s : string) | PayloadOther.

(** [extract_panic_message]. *)
Definition extract_panic_message (p : PanicPayload) : string :=
  match p with
  | PayloadStr s | PayloadString s => s
  | PayloadOther => "Task panicked with unknown payload"
  end.

(** [catch_unwind] of a future. *)
Inductive Unwind (A : Type) : Type := Returned (a : A) | Unwound (p : PanicPayload).
Arguments Returned {A}.
Arguments Unwound {A}.

Inductive HeartbeatInterrupt : Type := HTimeout (e : RuntimeError) | HCancelled | HClaimLost.

Inductive ExecutionOutcome : Type :=
| OSuccess (output : Bytes)
| OTaskError (e : RuntimeError)
| OPanic (p : PanicPayload)
| OTimeout (e : RuntimeError)
| OCancelled
| OClaimLost.

(** [From<HeartbeatInterrupt> for ExecutionOutcome]. *)
Definition outcome_of_interrupt (i : HeartbeatInterrupt) : ExecutionOutcome :=
  match i with HTimeout e => OTimeout e | HCancelled => OCancelled | HClaimLost => OClaimLost end.

(** The [match] on the result of [run_with_heartbeat]. *)
Definition outcome_of_run (r : result HeartbeatInterrupt (Unwind (result RuntimeError Bytes))) :
    ExecutionOutcome :=
  match r with
  | Err i => outcome_of_interrupt i
  | Ok (Unwound p) => OPanic p
  | Ok (Returned (Err e)) => OTaskError e
  | Ok (Returned (Ok output)) => OSuccess output
  end.

Definition HEARTBEAT_MAX_INTERVAL : Duration := from_secs 15.
Definition HEARTBEAT_FAILURE_LIMIT : Z := 3.

(** The [interval_duration] of [run_with_heartbeat]. *)
Definition heartbeat_interval (ttl : Duration) : Duration :=
  Z.max (Z.min (ttl / 4) HEARTBEAT_MAX_INTERVAL) (from_millis 1).

(** User code called at step [n] of the world, and the number of heartbeats at the
    given interval that fire before it ends. *)
Class WorkerRuntime (F : Type) : Type := {
  task_future : nat → TaskExecutionContext → F → Bytes → Unwind (result BoxError Bytes);
  heartbeats : nat → Duration → nat
}.
(** [ExternalTaskExecutor]. *)
Definition ExternalTaskExecutor : Type :=
  nat → TaskExecutionContext → string → Bytes → Unwind (result BoxError Bytes).

(** [ActiveTaskClaim]. *)
Record ActiveTaskClaim : Type := MkActiveClaim {
  active_instance_id : string;
  active_task_id : TaskId;
  active_worker_id : string
}.

(** ** Operations *)

Section Worker.
Context `{Sha256, Chrono, FloatOps, Display, SerdeJson, EnvelopeCodec}.
Context {B F : Type} `{PersistentBackend B, Claims.TaskClaimStore B, Environment B, WorkerRuntime F}.
Context (self : PooledWorker).

(** A dispatch without and with the worker's own snapshot. *)
Abbreviation Work := (io (World B) Fault).
Abbreviation Exec := (io (@ExecState B) Fault).

Definition backend {A} (op : DateTime → io B BackendError A) : Work A :=
  io_map_err Rt (rt (call op)).
(** [let _ = ...await], [if let Ok(x) = ...await]. *)
Definition quietly {A} (op : DateTime → io B BackendError A) : Work (result BackendError A) :=
  try_io (call op).
Definition local {A} (m : Work A) : Exec A := λ st, let '(r, w) := m st.2 in (r, (st.1, w)).
Definition with_snapshot {A} (s : WorkflowSnapshot) (m : Exec A) : Work A := λ w,
  let '(r, (_, w)) := m (s, w) in (r, w).

(** *** Requests *)

Definition cancel_workflow (id : string) (reason cancelled_by : option string) : Work unit :=
  t ← read_clock; backend (λ _, store_signal id Cancel (SignalRequest_new t reason cancelled_by)).
Definition pause_workflow (id : string) (reason paused_by : option string) : Work unit :=
  t ← read_clock; backend (λ _, store_signal id Pause (SignalRequest_new t reason paused_by)).

(** *** Claims *)

(** [ActiveTaskClaim::release], [release_quietly]. *)
Definition release (claim : ActiveTaskClaim) : Work unit :=
  backend (λ _, Claims.release_task_claim (active_instance_id claim) (active_task_id claim)
    (active_worker_id claim)).
Definition release_quietly (claim : ActiveTaskClaim) : Work unit :=
  quietly (λ _, Claims.release_task_claim (active_instance_id claim) (active_task_id claim)
    (active_worker_id claim)) ≫= λ _, mret ().

(** [claim_task]. *)
Definition worker_claim_task (task : AvailableTask) : Work (option ActiveTaskClaim) :=
  claim ← backend (λ now, Claims.claim_task now (at_instance_id task) (at_task_id task) (worker_id self)
    (claim_ttl self ≫= duration_from_std));
  mret (match claim with
        | Some _ => Some (MkActiveClaim (at_instance_id task) (at_task_id task) (worker_id self))
        | None => None
        end).

(** [validate_task_preconditions]. *)
Definition validate_task_preconditions (hash : DefinitionHash) (index : TaskIndex) (task : AvailableTask)
    (s : WorkflowSnapshot) : result RuntimeError bool :=
  if bool_decide (at_workflow_definition_hash task ≠ hash) then
    Err (RWorkflow (WF.DefinitionMismatch hash (at_workflow_definition_hash task)))
  else if negb (index_contains index (at_task_id task)) then
    Err (RWorkflow (WF.TaskNotFound (to_hex (task_hash (at_task_id task)))))
  else
    match get_task_result (at_task_id task) s with
    | Some _ => Ok true
    | None => Ok false
    end.

(** *** Control signals *)

(** [load_cancelled_status], [load_paused_status]. *)
Definition load_cancelled_status (id : string) : Work Status.WorkflowStatus :=
  r ← quietly (λ _, load_snapshot id);
  mret (match r with Ok s => cancelled_status s | Err _ => Status.Cancelled None None end).
Definition load_paused_status (id : string) : Work Status.WorkflowStatus :=
  r ← quietly (λ _, load_snapshot id);
  mret (match r with Ok s => paused_status s | Err _ => Status.Paused None None end).

(** The default [check_control_signals], one backend call at a time. *)
Definition control_signals (id : string) (interrupted_at_task : option TaskId) :
    Work (option ControlSignal) :=
  cancelled ← backend (λ now, check_and_cancel now id interrupted_at_task);
  if (cancelled : bool) then mret (Some CSCancelled)
  else
    paused ← backend (λ now, check_and_pause now id);
    mret (if (paused : bool) then Some CSPaused else None).

(** [signal_status]. *)
Definition signal_status (signal : ControlSignal) (task : AvailableTask) : Work Status.WorkflowStatus :=
  match signal with
  | CSCancelled => load_cancelled_status (at_instance_id task)
  | CSPaused => load_paused_status (at_instance_id task)
  end.

(** [check_post_claim_guards]. *)
Definition check_post_claim_guards (task : AvailableTask) : Work (option Status.WorkflowStatus) :=
  signal ← control_signals (at_instance_id task) (Some (at_task_id task));
  match signal with
  | Some signal => Some <$> signal_status signal task
  | None => mret None
  end.

(** *** The heartbeat *)

Section Heartbeat.
Context {T : Type} (claim : ActiveTaskClaim) (deadline : option TaskDeadline) (future : Work T).

(** One beat's deadline check. *)
Definition beat_expired : Work (option TaskDeadline) :=
  match deadline with
  | Some dl => t ← read_clock; mret (if bool_decide (td_deadline dl ≤ t) then Some dl else None)
  | None => mret None
  end.

(** The [loop] of [run_with_heartbeat] when [n] more beats fire before the future
    ends. *)
Fixpoint heartbeat_loop (chrono_ttl : Duration) (n : nat) (consecutive_failures : Z) :
    Work (result HeartbeatInterrupt T) :=
  match n with
  | O => Ok <$> future
  | S n =>
      expired ← beat_expired;
      match expired with
      | Some dl =>
          mret (Err (HTimeout (RWorkflow (WF.TaskTimedOut (td_task_id dl) (from_millis (td_timeout_ms dl))))))
      | None =>
          cancel ← quietly (λ _, get_signal (active_instance_id claim) Cancel);
          extended ← quietly (λ now, Claims.extend_task_claim now (active_instance_id claim)
            (active_task_id claim) (active_worker_id claim) chrono_ttl);
          match cancel with
          | Ok (Some _) => mret (Err HCancelled)
          | _ =>
              match extended with
              | Ok _ => heartbeat_loop chrono_ttl n 0
              | Err (NotFound _) | Err (ClaimLost _) => mret (Err HClaimLost)
              | Err _ =>
                  let consecutive_failures := consecutive_failures + 1 in
                  if bool_decide (HEARTBEAT_FAILURE_LIMIT ≤ consecutive_failures) then mret (Err HClaimLost)
                  else heartbeat_loop chrono_ttl n consecutive_failures
              end
          end
      end
  end.

(** [run_with_heartbeat]. *)
Definition run_with_heartbeat : Work (result HeartbeatInterrupt T) :=
  match claim_ttl self with
  | None => Ok <$> future
  | Some ttl =>
      match duration_from_std ttl with
      | None => Ok <$> future
      | Some chrono_ttl =>
          w ← get_state;
          heartbeat_loop chrono_ttl (heartbeats (steps w) (heartbeat_interval ttl)) 0
      end
  end.
End Heartbeat.

(** *** Running a task *)

(** [execute_task_by_id]: find the function, then call it. *)
Definition execute_task_by_id (ctx : TaskExecutionContext) (c : WorkflowContinuation F) (name : string)
    (input : Bytes) : Work (Unwind (result RuntimeError Bytes)) := λ w,
  match find_func (TaskId_from name) c with
  | Err e => (Ok (Returned (Err e)), w)
  | Ok func =>
      (Ok (match task_future (steps w) ctx func input with
           | Returned r => Returned (map_err from_box_error r)
           | Unwound p => Unwound p
           end), MkWorld (store w) (S (steps w)))
  end.

(** [executor(&task_name, input)]. *)
Definition call_executor (executor : ExternalTaskExecutor) (ctx : TaskExecutionContext) (name : string)
    (input : Bytes) : Work (Unwind (result RuntimeError Bytes)) := λ w,
  (Ok (match executor (steps w) ctx name input with
       | Returned r => Returned (map_err from_box_error r)
       | Unwound p => Unwound p
       end), MkWorld (store w) (S (steps w))).

(** The [build] closure: the join's input from its branches' terminal results. *)
Fixpoint join_results (branches : list (WorkflowContinuation F)) (s : WorkflowSnapshot) :
    result RuntimeError (list (string * Bytes)) :=
  match branches with
  | [] => Ok []
  | branch :: branches =>
      output ← ok_or (get_task_result_bytes (TaskId_from (terminal_task_id branch)) s)
        (RWorkflow (WF.TaskNotFound (cont_id branch)));
      rs ← join_results branches s;
      Ok ((cont_id branch, output) :: rs)
  end.
Definition task_input (c : WorkflowContinuation F) (task : AvailableTask) (s : WorkflowSnapshot) :
    result RuntimeError Bytes :=
  match find_fork_branches_for_join (at_task_id task) c with
  | Some branches => rs ← join_results branches s; serialize_branch_results rs
  | None => Ok (at_input task)
  end.

(** The human-readable name of a task. *)
Definition task_name (index : TaskIndex) (t : TaskId) : string :=
  match index_get index t with Some m => tn_name m | None => to_hex (task_hash t) end.

(** The deadline of a task with a timeout, kept on the worker's snapshot. *)
Definition worker_deadline (index : TaskIndex) (t : TaskId) : Exec (option TaskDeadline) :=
  match index_get index t ≫= tn_timeout with
  | Some timeout =>
      now1 ← now;
      modify_panic (λ s, pair () <$> set_task_deadline now1 t timeout s) ≫= λ _,
      now2 ← now;
      modify_panic (λ s, pair () <$> refresh_task_deadline now2 s) ≫= λ _,
      s ← snap;
      mret (task_deadline s)
  | None => mret None
  end.

(** [execute_with_deadline]. *)
Definition execute_with_deadline (wf : Workflow F) (task : AvailableTask) (claim : ActiveTaskClaim) :
    Exec ExecutionOutcome :=
  let c := workflow_continuation wf in
  let index := workflow_task_index wf in
  s ← snap;
  match task_input c task s with
  | Err e => mret (OTaskError e)
  | Ok input =>
      let name := task_name index (at_task_id task) in
      deadline ← worker_deadline index (at_task_id task);
      let ctx := MkTaskContext (workflow_name wf) (at_instance_id task) name
        (index_build_task_metadata index (at_task_id task)) (workflow_metadata_json wf) in
      r ← local (run_with_heartbeat claim deadline (execute_task_by_id ctx c name input));
      modify clear_task_deadline ≫= λ _,
      mret (outcome_of_run r)
  end.

(** [execute_with_deadline_ext]. *)
Definition execute_with_deadline_ext (wf : ExternalWorkflow F) (executor : ExternalTaskExecutor)
    (task : AvailableTask) (claim : ActiveTaskClaim) : Exec ExecutionOutcome :=
  let index := ext_task_index wf in
  let name := task_name index (at_task_id task) in
  deadline ← worker_deadline index (at_task_id task);
  let ctx := MkTaskContext (ext_workflow_id wf) (at_instance_id task) name
    (index_build_task_metadata index (at_task_id task)) (ext_metadata_json wf) in
  r ← local (run_with_heartbeat claim deadline (call_executor executor ctx name (at_input task)));
  modify clear_task_deadline ≫= λ _,
  mret (outcome_of_run r).

(** *** Positions *)

(** [set_position_at]. *)
Definition set_position_at (c : WorkflowContinuation F) : Exec unit :=
  match c with
  | Delay id duration next =>
      wake_at ← compute_wake_at duration;
      entered_at ← now;
      let next_hint := first_task_hint <$> next in
      modify (set_task_hint (default TaskHint_default next_hint)) ≫= λ _,
      modify_now (λ t, update_position t
        (AtDelay (TaskId_from id) entered_at wake_at (hint_id <$> next_hint))) ≫= λ _,
      s ← snap;
      let passthrough := default [] (get_last_task_output s) in
      modify_now (λ t, mark_task_completed t (TaskId_from id) passthrough)
  | AwaitSignal id signal_name timeout next =>
      wake_at ← compute_signal_timeout timeout;
      let next_hint := first_task_hint <$> next in
      modify (set_task_hint (default TaskHint_default next_hint)) ≫= λ _,
      modify_now (λ t, update_position t
        (AtSignal (TaskId_from id) signal_name wake_at (hint_id <$> next_hint)))
  | _ =>
      let hint := first_task_hint c in
      modify_now (λ t, update_position t (AtTask (hint_id hint))) ≫= λ _,
      modify (set_task_hint hint)
  end.

(** [for x in l { f(x)? }]. *)
Section ForEach.
Context {A : Type} (f : A → Exec unit).
Fixpoint for_each (l : list A) : Exec unit :=
  match l with
  | [] => mret ()
  | a :: l => f a ≫= λ _, for_each l
  end.
End ForEach.

(** The first branch whose entry task has no result, or the join. *)
Definition advance_fork (branches : list (WorkflowContinuation F)) (join : option (WorkflowContinuation F)) :
    Exec unit :=
  s ← snap;
  match List.find (λ b, bool_decide (get_task_result (TaskId_from (first_task_id b)) s = None)) branches with
  | Some b => set_position_at b
  | None => match join with Some j => set_position_at j | None => mret () end
  end.

(** [update_position_after_task]. *)
Fixpoint update_position_after_task (done : TaskId) (c : WorkflowContinuation F) : Exec unit :=
  let opt (o : option (WorkflowContinuation F)) :=
    match o with Some n => update_position_after_task done n | None => mret () end in
  match c with
  | Task id _ _ _ _ _ _ next | Delay id _ next | AwaitSignal id _ _ next =>
      if bool_decide (TaskId_from id = done)
      then match next with Some n => set_position_at n | None => mret () end
      else opt next
  | Fork _ branches join =>
      for_each (update_position_after_task done) branches ≫= λ _,
      opt join ≫= λ _,
      s ← snap;
      if bool_decide (current_task_id s = Some done) then advance_fork branches join else mret ()
  | Branch _ _ branches default next =>
      for_each (λ kb, update_position_after_task done (snd kb)) branches ≫= λ _,
      opt default ≫= λ _,
      opt next
  | Loop _ inner _ _ next | ChildWorkflow _ inner next =>
      update_position_after_task done inner ≫= λ _,
      opt next
  end.

(** *** Committing *)

(** One turn of [drain_pending_signal]: [true] when it goes round again. *)
Definition drain_once (id : string) : Exec bool :=
  s ← snap;
  match state s with
  | InProgress (AtSignal signal_id signal_name _ next_task_id) _ _ =>
      payload ← local (backend (λ _, consume_event id signal_name));
      match payload with
      | None => mret false
      | Some payload =>
          modify_now (λ t, mark_task_completed t signal_id payload) ≫= λ _,
          match next_task_id with
          | Some next_id => modify_now (λ t, update_position t (AtTask next_id))
          | None => modify_now (λ t, mark_completed t payload)
          end ≫= λ _,
          save ≫= λ _,
          mret true
      end
  | _ => mret false
  end.
Fixpoint drain_loop (fuel : nat) (id : string) : Exec unit :=
  match fuel with
  | O => throw OutOfFuel
  | S fuel => again ← drain_once id; if (again : bool) then drain_loop fuel id else mret ()
  end.
(** [drain_pending_signal]: the second turn is always the last. *)
Definition drain_pending_signal (id : string) : Exec unit := drain_loop 2 id.

(** [save_snapshot_fenced(snapshot, ..)]. *)
Definition save_fenced (task_id : TaskId) (worker : string) : Exec (result BackendError bool) :=
  s ← snap;
  r ← local (quietly (λ t, Claims.save_snapshot_fenced t s task_id worker));
  match r with
  | Ok (held, s) => modify (λ _, s) ≫= λ _, mret (Ok held)
  | Err e => mret (Err e)
  end.

(** [commit_task_result]. *)
Definition commit_task_result (c : WorkflowContinuation F) (task : AvailableTask) (output : Bytes)
    (claim : ActiveTaskClaim) : Exec bool :=
  modify_now (λ t, mark_task_completed t (at_task_id task) output) ≫= λ _,
  update_position_after_task (at_task_id task) c ≫= λ _,
  r ← save_fenced (active_task_id claim) (active_worker_id claim);
  held ← lift (map_err RBackend r);
  if negb held then mret false
  else
    drain_pending_signal (at_instance_id task) ≫= λ _,
    local (release claim) ≫= λ _,
    mret true.

(** *** Loops *)

(** The [Loop] arm of [resolve_loops_recursive], before the recursion. *)
Definition resolve_loop (id : string) (body : WorkflowContinuation F) (max_iterations : Z)
    (on_max : MaxIterationsPolicy) : Exec unit :=
  s ← snap;
  match get_task_result (TaskId_from id) s, get_task_result (TaskId_from (terminal_task_id body)) s with
  | None, Some result =>
      match decode_any_envelope (tr_output result) with
      | Ok (Done, inner) => hook_exit id inner
      | Ok (Again, again_value) =>
          let next_iter := u32_add (loop_iteration (TaskId_from id) s) 1 in
          if bool_decide (max_iterations ≤ next_iter) then
            match on_max with
            | Fail => fail (max_iterations_exceeded id max_iterations)
            | ExitWithLast => hook_exit id again_value
            end
          else
            hook_clear body ≫= λ _,
            modify_now (λ t, set_loop_iteration t (TaskId_from id) next_iter) ≫= λ _,
            save
      | Err e => fail (RCodec (DecodeFailed (TaskId_from id) "LoopEnvelope" e))
      end
  | _, _ => mret ()
  end.

(** [resolve_loops_recursive]. *)
Fixpoint resolve_loops_recursive (c : WorkflowContinuation F) : Exec unit :=
  let opt (o : option (WorkflowContinuation F)) :=
    match o with Some n => resolve_loops_recursive n | None => mret () end in
  match c with
  | Loop id body max_iterations on_max next =>
      resolve_loop id body max_iterations on_max ≫= λ _,
      resolve_loops_recursive body ≫= λ _,
      opt next
  | Task _ _ _ _ _ _ _ next | Delay _ _ next | AwaitSignal _ _ _ next | Branch _ _ _ _ next => opt next
  | Fork _ branches join => for_each resolve_loops_recursive branches ≫= λ _, opt join
  | ChildWorkflow _ child next => resolve_loops_recursive child ≫= λ _, opt next
  end.

(** *** Settling *)

(** [try_schedule_retry]. *)
Definition try_schedule_retry (index : TaskIndex) (task : AvailableTask) (error_msg : string) :
    Exec (option Status.WorkflowStatus) :=
  match index_retry_policy index (at_task_id task) with
  | None => mret None
  | Some policy =>
      s ← snap;
      if retries_exhausted (at_task_id task) s then mret None
      else
        t ← now;
        modify_panic (record_retry t (at_task_id task) policy error_msg (Some (worker_id self))) ≫= λ _,
        modify clear_task_deadline ≫= λ _,
        save_fenced (at_task_id task) (worker_id self) ≫= λ _,
        mret (Some Status.InProgress)
  end.

(** [fail_workflow]. *)
Definition fail_workflow (claim : ActiveTaskClaim) (error_msg : string) : Exec unit :=
  modify_now (λ t, mark_failed t error_msg) ≫= λ _,
  save_fenced (active_task_id claim) (active_worker_id claim) ≫= λ _,
  local (release_quietly claim).

(** [settle_failure]. *)
Definition settle_failure (index : TaskIndex) (task : AvailableTask) (claim : ActiveTaskClaim)
    (error_msg : string) : Exec (option Status.WorkflowStatus) :=
  r ← try_schedule_retry index task error_msg;
  match r with
  | Some status => local (release_quietly claim) ≫= λ _, mret (Some status)
  | None => fail_workflow claim error_msg ≫= λ _, mret None
  end.

(** [settle_cancelled]. *)
Definition settle_cancelled (task : AvailableTask) (claim : ActiveTaskClaim) : Work Status.WorkflowStatus :=
  release_quietly claim ≫= λ _,
  cancelled ← backend (λ now, check_and_cancel now (at_instance_id task) (Some (at_task_id task)));
  if (cancelled : bool) then load_cancelled_status (at_instance_id task) else mret Status.InProgress.

(** [settle_claim_lost]. *)
Definition settle_claim_lost : Status.WorkflowStatus := Status.InProgress.

(** [determine_post_task_status]. *)
Definition determine_post_task_status (c : WorkflowContinuation F) (task : AvailableTask) (output : Bytes) :
    Exec Status.WorkflowStatus :=
  signal ← local (control_signals (at_instance_id task) None);
  match signal with
  | Some signal => local (signal_status signal task)
  | None =>
      s ← snap;
      if is_workflow_complete s c then
        modify_now (λ t, mark_completed t output) ≫= λ _,
        save ≫= λ _,
        mret Status.Completed
      else mret Status.InProgress
  end.

(** What both settles do with a failure. *)
Definition or_fail (e : RuntimeError) (status : option Status.WorkflowStatus) : Exec Status.WorkflowStatus :=
  match status with Some status => mret status | None => fail e end.

(** [settle_execution_result] and [settle_execution_result_ext]: only the former
    resolves loops. *)
Definition settle (resolve_loops : bool) (outcome : ExecutionOutcome) (c : WorkflowContinuation F)
    (index : TaskIndex) (task : AvailableTask) (claim : ActiveTaskClaim) : Exec Status.WorkflowStatus :=
  match outcome with
  | OTimeout err | OTaskError err =>
      settle_failure index task claim (error_to_string err) ≫= or_fail err
  | OPanic payload =>
      let panic_msg := extract_panic_message payload in
      settle_failure index task claim panic_msg ≫= or_fail (RWorkflow (WF.TaskPanicked panic_msg))
  | OCancelled => local (settle_cancelled task claim)
  | OClaimLost => mret settle_claim_lost
  | OSuccess output =>
      modify (clear_retry_state (at_task_id task)) ≫= λ _,
      committed ← commit_task_result c task output claim;
      if negb committed then mret settle_claim_lost
      else
        (if resolve_loops then resolve_loops_recursive c else mret ()) ≫= λ _,
        determine_post_task_status c task output
  end.
Definition settle_execution_result (outcome : ExecutionOutcome) (wf : Workflow F) (task : AvailableTask)
    (claim : ActiveTaskClaim) : Exec Status.WorkflowStatus :=
  settle true outcome (workflow_continuation wf) (workflow_task_index wf) task claim.
Definition settle_execution_result_ext (outcome : ExecutionOutcome) (c : WorkflowContinuation F)
    (index : TaskIndex) (task : AvailableTask) (claim : ActiveTaskClaim) : Exec Status.WorkflowStatus :=
  settle false outcome c index task claim.

(** *** Dispatch *)

(** The gates of both [execute_task] and [execute_external_task]; [run] is what
    happens past the claim and its guards, on the dispatched snapshot. *)
Definition dispatch_task (hash : DefinitionHash) (index : TaskIndex) (task : AvailableTask)
    (run : ActiveTaskClaim → Exec Status.WorkflowStatus) : Work Status.WorkflowStatus :=
  already_completed ← lift_result (map_err Rt
    (validate_task_preconditions hash index task (at_snapshot task)));
  if (already_completed : bool) then mret Status.InProgress
  else
    claim ← worker_claim_task task;
    match claim with
    | None => mret Status.InProgress
    | Some claim =>
        guard ← check_post_claim_guards task;
        match guard with
        | Some status => release_quietly claim ≫= λ _, mret status
        | None => with_snapshot (at_snapshot task) (run claim)
        end
    end.

(** [execute_task]. *)
Definition worker_execute_task (wf : Workflow F) (task : AvailableTask) : Work Status.WorkflowStatus :=
  dispatch_task (workflow_definition_hash wf) (workflow_task_index wf) task (λ claim,
    outcome ← execute_with_deadline wf task claim;
    settle_execution_result outcome wf task claim).

(** [execute_external_task]. *)
Definition execute_external_task (wf : ExternalWorkflow F) (hash : DefinitionHash)
    (executor : ExternalTaskExecutor) (task : AvailableTask) : Work Status.WorkflowStatus :=
  dispatch_task hash (ext_task_index wf) task (λ claim,
    outcome ← execute_with_deadline_ext wf executor task claim;
    settle_execution_result_ext outcome (ext_continuation wf) (ext_task_index wf) task claim).

(** [poll_batch]: a failed poll is an empty batch. *)
Definition poll_batch (limit : nat) : Work (list AvailableTask) :=
  r ← quietly (λ now, Claims.find_available_tasks now (worker_id self) limit
    (default DURATION_MAX (duration_from_std (aging_interval self))) (worker_tags self));
  mret (match r with Ok tasks => tasks | Err _ => [] end).
End Worker.
