(* ===== verification/WorkerProps.v ===== *)
(** * Theorems about the pooled worker

    Leases under heartbeats, fenced commits, the draining of a signal. *)

From S2P Require Import Prelude Hash32 SnapshotFormat Task Workflow Serializable TaskIndex Snapshot Backend InMemory ClaimStore Runtime Lifecycle SyncExec Checkpoint Durability WorkerNav Worker WorkerLoop.

(** Running a computation step by step. *)
Lemma run_bind {S E A C} (m : io S E A) (k : A → io S E C) s a s1 :
  m s = (Ok a, s1) → (m ≫= k) s = k a s1.
Proof. unfold mbind, io_bind. by intros ->. Qed.

Lemma run_bind_Err {S E A C} (m : io S E A) (k : A → io S E C) s e s1 :
  m s = (Err e, s1) → (m ≫= k) s = (Err e, s1).
Proof. unfold mbind, io_bind. by intros ->. Qed.

(** ** Heartbeats *)

Section Heartbeat.
Context `{Sha256, Chrono, MapIter} `{Environment InMemoryBackend}.
Abbreviation W := (World InMemoryBackend).

Lemma quietly_run {A} (op : DateTime → io InMemoryBackend BackendError A) (w : W) r b :
  op (clock (steps w)) (others (steps w) (store w)) = (r, b) →
  quietly op w = (Ok r, MkWorld b (S (steps w))).
Proof. unfold quietly, try_io, call. by intros ->. Qed.

Lemma backend_run {A} (op : DateTime → io InMemoryBackend BackendError A) (w : W) a b :
  op (clock (steps w)) (others (steps w) (store w)) = (Ok a, b) →
  backend op w = (Ok a, MkWorld b (S (steps w))).
Proof. unfold backend, rt, io_map_err, call. by intros ->. Qed.

Context {T : Type} (claim : ActiveTaskClaim) (deadline : option TaskDeadline) (future : io W Fault T).
Context (ttl : Duration).
Let key := claim_key (active_instance_id claim) (active_task_id claim).

(** The others respect a live claim; the clock advances by less than the lease
    between two extensions, which are at most three steps apart. *)
Definition claim_respected : Prop := ∀ n b c,
  claims b !! key = Some c → claim_worker_id c = active_worker_id claim → is_expired (clock n) c = false →
  claims (others n b) !! key = Some c.
Definition lease_outlasts : Prop := ∀ n,
  ∃ e, checked_add_signed (clock n) ttl = Some e ∧
    ∀ m, (n ≤ m ≤ n + 3)%nat → timestamp_u64 (clock m) < timestamp_u64 e.

(** The claim is the worker's and will not have expired within [k] steps. *)
Definition held_for (k : nat) (w : W) : Prop := ∃ c,
  claims (store w) !! key = Some c ∧ claim_worker_id c = active_worker_id claim ∧
  ∀ m, (steps w ≤ m < steps w + k)%nat → is_expired (clock m) c = false.

Context (Hrespect : claim_respected) (Hlease : lease_outlasts) (Hfuture : ∀ w, store (future w).2 = store w).

Lemma beat_expired_run w : ∃ r k,
  beat_expired deadline w = (Ok r, MkWorld (store w) (k + steps w)) ∧ (k ≤ 1)%nat.
Proof.
  unfold beat_expired. destruct deadline as [dl|].
  - eexists _, 1%nat. split; [reflexivity|lia].
  - eexists _, 0%nat. split; [by destruct w|lia].
Qed.

(** A heartbeat renews the lease for the next one. *)
Lemma beat_renews w : held_for 2 w →
  ∃ c b, claims (store w) !! key = Some c ∧
  extend_task_claim (clock (S (steps w))) (active_instance_id claim) (active_task_id claim)
    (active_worker_id claim) ttl (others (S (steps w)) (others (steps w) (store w))) = (Ok (), b) ∧
  held_for 3 (MkWorld b (S (S (steps w)))).
Proof.
  intros (c & Hc & Ho & Hlive).
  pose proof (Hrespect (steps w) _ c Hc Ho (Hlive (steps w) ltac:(lia))) as Hc1.
  pose proof (Hrespect (S (steps w)) _ c Hc1 Ho (Hlive (S (steps w)) ltac:(lia))) as Hc2.
  set (b0 := others (S (steps w)) _) in *. unfold extend_task_claim. fold key. rewrite Hc2.
  rewrite bool_decide_false by tauto. destruct (expires_at c) as [e|] eqn:He.
  - destruct (Hlease (S (steps w))) as (e' & He' & Hb). rewrite He'.
    eexists c, _. split; [done|]. split; [reflexivity|]. eexists. cbn. split; [apply lookup_insert_eq|].
    split; [done|]. intros m Hm. unfold is_expired. cbn. rewrite bool_decide_eq_false. specialize (Hb m). lia.
  - eexists c, _. split; [done|]. split; [reflexivity|]. exists c. cbn. split; [done|]. split; [done|].
    intros m _. unfold is_expired. by rewrite He.
Qed.

Lemma heartbeat_keeps n k w : held_for 3 w →
  let '(r, w') := heartbeat_loop claim deadline future ttl n k w in
  r ≠ Ok (Err HClaimLost) ∧
  ∃ c, claims (store w') !! key = Some c ∧ claim_worker_id c = active_worker_id claim.
Proof.
  revert k w; induction n as [|n IH]; intros k w Hheld; cbn [heartbeat_loop].
  { unfold fmap, io_fmap. specialize (Hfuture w). destruct (future w) as [[r|e] w']; cbn in Hfuture;
      (split; [done|]; rewrite Hfuture; destruct Hheld as (c & ? & ? & _); eauto). }
  destruct (beat_expired_run w) as (r & j & Hbeat & Hj). rewrite (run_bind _ _ _ _ _ Hbeat).
  assert (Hheld1 : held_for 2 (MkWorld (store w) (j + steps w))).
  { destruct Hheld as (c & ? & ? & Hlive). exists c. cbn. split; [done|]. split; [done|].
    intros m Hm. apply Hlive. lia. }
  destruct r as [dl|].
  { cbn. split; [done|]. destruct Hheld as (c & ? & ? & _). eauto. }
  set (w1 := MkWorld (store w) _) in *.
  destruct (beat_renews w1 Hheld1) as (c & b & Hc & Hext & (c' & Hc' & Ho' & Hl')).
  rewrite (run_bind _ _ _ _ _ (quietly_run _ w1 _ _ eq_refl)).
  erewrite run_bind by (apply quietly_run; exact Hext). cbn.
  destruct (pending _ _ _).
  - cbn. split; [done|]. eauto.
  - apply IH. exists c'. done.
Qed.
End Heartbeat.

(** ** Heartbeats that fail *)

Lemma heartbeat_interval_bound ttl :
  from_millis 1 ≤ heartbeat_interval ttl ≤ HEARTBEAT_MAX_INTERVAL ∧
  (4 * from_millis 1 ≤ ttl → 4 * heartbeat_interval ttl ≤ ttl).
Proof.
  unfold heartbeat_interval, HEARTBEAT_MAX_INTERVAL, from_millis, from_secs, ns_per_ms, ns_per_sec.
  pose proof (Z.div_mod ttl 4 ltac:(lia)). pose proof (Z.mod_pos_bound ttl 4 ltac:(lia)). lia.
Qed.

Section Failing.
Context {B : Type} `{PersistentBackend B, Claims.TaskClaimStore B, Environment B}.
Abbreviation W := (World B).
Context {T : Type} (claim : ActiveTaskClaim) (future : io W Fault T) (ttl : Duration).

(** In the stores [P], which nobody leaves, extensions fail, but not because the
    claim is gone, and nobody cancels. *)
Record flaky (P : B → Prop) : Prop := {
  flaky_others n b : P b → P (others n b);
  flaky_signal b : P b → ∃ r b', get_signal (active_instance_id claim) Cancel b = (r, b') ∧ P b' ∧
    match r with Ok (Some _) => False | _ => True end;
  flaky_extend now b : P b → ∃ e b',
    Claims.extend_task_claim now (active_instance_id claim) (active_task_id claim) (active_worker_id claim) ttl b =
      (Err e, b') ∧ P b' ∧ match e with NotFound _ | ClaimLost _ => False | _ => True end
}.
Context (P : B → Prop) (Hflaky : flaky P).

(** One failing beat. *)
Lemma beat_fails n k w : P (store w) → ∃ w',
  (P (store w') ∧ steps w' = (2 + steps w)%nat) ∧
  heartbeat_loop claim None future ttl (S n) k w =
    (if bool_decide (HEARTBEAT_FAILURE_LIMIT ≤ k + 1) then mret (Err HClaimLost)
     else heartbeat_loop claim None future ttl n (k + 1)) w'.
Proof.
  intros HP. cbn [heartbeat_loop]. erewrite run_bind by reflexivity. cbn beta iota.
  destruct (flaky_signal P Hflaky (others (steps w) (store w))) as (r & b1 & Hsig & HP1 & Hr);
    [by apply Hflaky|].
  erewrite run_bind.
  2:{ unfold quietly, try_io, call. rewrite Hsig. reflexivity. }
  destruct (flaky_extend P Hflaky (clock (S (steps w))) (others (S (steps w)) b1)) as (e & b2 & He & HP2 & Hne);
    [by apply Hflaky|].
  erewrite run_bind.
  2:{ unfold quietly, try_io, call. cbn [steps store]. rewrite He. reflexivity. }
  exists (MkWorld b2 (2 + steps w)). split; [done|]. destruct r as [[r|]|]; [done|by destruct e..].
Qed.

Lemma heartbeat_failing n w : P (store w) →
  ∃ w', heartbeat_loop claim None future ttl n 0 w =
    (if bool_decide (n < 3)%nat then Ok <$> future else mret (Err HClaimLost)) w' ∧
    P (store w') ∧ steps w' = (2 * min n 3 + steps w)%nat.
Proof.
  intros HP. destruct n as [|n]; [by exists w|].
  destruct (beat_fails n 0 w HP) as (w1 & [HP1 Hs1] & ->). change (0 + 1) with 1.
  rewrite (bool_decide_false (HEARTBEAT_FAILURE_LIMIT ≤ _)) by (unfold HEARTBEAT_FAILURE_LIMIT; lia).
  destruct n as [|n]; [exists w1; split; [done|split; [done|lia]]|].
  destruct (beat_fails n 1 w1 HP1) as (w2 & [HP2 Hs2] & ->). change (1 + 1) with 2.
  rewrite (bool_decide_false (HEARTBEAT_FAILURE_LIMIT ≤ _)) by (unfold HEARTBEAT_FAILURE_LIMIT; lia).
  destruct n as [|n]; [exists w2; split; [done|split; [done|lia]]|].
  destruct (beat_fails n 2 w2 HP2) as (w3 & [HP3 Hs3] & ->).
  rewrite (bool_decide_true (HEARTBEAT_FAILURE_LIMIT ≤ _)) by (unfold HEARTBEAT_FAILURE_LIMIT; lia).
  rewrite bool_decide_false by lia. exists w3. split; [done|split; [done|lia]].
Qed.
End Failing.

(** ** The fence *)

Section Fence.
Context `{Sha256, Chrono, FloatOps, Display, SerdeJson, EnvelopeCodec}.
Context {B F : Type} `{PersistentBackend B, Claims.TaskClaimStore B, Environment B, WorkerRuntime F}.
Context {holds : DateTime → string → TaskId → string → B → Prop} `{!FencedStore B holds}.
Abbreviation ES := (@ExecState B).
Abbreviation Exec := (io ES Fault).

(** A computation on the worker's snapshot that leaves the store and the instance. *)
Definition local_only {A} (m : Exec A) : Prop := ∀ st,
  store (m st).2.2 = store st.2 ∧ instance_id (m st).2.1 = instance_id st.1 ∧ (steps st.2 ≤ steps (m st).2.2)%nat.

Lemma local_only_bind {A C} (m : Exec A) (k : A → Exec C) :
  local_only m → (∀ a, local_only (k a)) → local_only (m ≫= k).
Proof.
  intros Hm Hk st. unfold mbind, io_bind. specialize (Hm st). destruct (m st) as [[a|e] st1]; [|done].
  destruct (Hk a st1) as (Hst & Hi & Hn), Hm as (Hst' & Hi' & Hn'). rewrite Hst, Hi. cbn in *.
  repeat split; [done..|lia].
Qed.
Lemma local_only_ret {A} (a : A) : local_only (mret a).
Proof. done. Qed.
Lemma local_only_snap : local_only (snap (B:=B)).
Proof. done. Qed.
Lemma local_only_now : local_only (now (B:=B)).
Proof. intros st. cbn. repeat split; lia. Qed.
Lemma local_only_modify g : (∀ s, instance_id (g s) = instance_id s) → local_only (modify g).
Proof. intros Hg st. cbn. by rewrite Hg. Qed.
Lemma local_only_modify_now g : (∀ t s, instance_id (g t s) = instance_id s) → local_only (modify_now (B:=B) g).
Proof. intros Hg. apply local_only_bind; [apply local_only_now|]. intros. by apply local_only_modify. Qed.
Lemma local_only_add t d : local_only (add_or_panic (B:=B) t d).
Proof. intros st. unfold add_or_panic. by destruct (checked_add_signed t d). Qed.
Lemma local_only_lift {A} (r : result RuntimeError A) : local_only (lift (B:=B) r).
Proof. intros st. by destruct r. Qed.
Lemma local_only_fail {A} e : local_only (fail (B:=B) e : Exec A).
Proof. done. Qed.
Lemma local_only_fmap {A C} (g : A → C) (m : Exec A) : local_only m → local_only (g <$> m).
Proof. intros Hm st. unfold fmap, io_fmap. specialize (Hm st). by destruct (m st) as [[] ?]. Qed.

Lemma position_instance t p s : instance_id (update_position t p s) = instance_id s.
Proof. unfold update_position. by destruct (state s). Qed.
Lemma completed_instance t id o s : instance_id (mark_task_completed t id o s) = instance_id s.
Proof. unfold mark_task_completed. by destruct (state s). Qed.
End Fence.

Create HintDb local_only.
#[export] Hint Resolve local_only_bind local_only_ret local_only_snap local_only_now local_only_modify
  local_only_modify_now local_only_add local_only_lift local_only_fail local_only_fmap position_instance completed_instance : local_only.

Ltac local_only :=
  repeat first
    [ solve [auto with local_only]
    | apply local_only_bind; intros
    | case_match ].

Section FencedCommit.
Context `{Sha256, Chrono, FloatOps, Display, SerdeJson, EnvelopeCodec}.
Context {B F : Type} `{PersistentBackend B, Claims.TaskClaimStore B, Environment B, WorkerRuntime F}.
Context {holds : DateTime → string → TaskId → string → B → Prop} `{!FencedStore B holds}.
Abbreviation ES := (@ExecState B).

Lemma local_only_wake d : local_only (compute_wake_at (B:=B) d).
Proof. unfold compute_wake_at. local_only. Qed.
Lemma local_only_signal_timeout t : local_only (compute_signal_timeout (B:=B) t).
Proof. unfold compute_signal_timeout. local_only. Qed.
#[local] Hint Resolve local_only_wake local_only_signal_timeout : local_only.

Lemma local_only_position (c : WorkflowContinuation F) : local_only (set_position_at (B:=B) c).
Proof. destruct c; cbn; local_only. Qed.
#[local] Hint Resolve local_only_position : local_only.

Lemma local_only_for_each {A} (f : A → io ES Fault unit) l : Forall (λ a, local_only (f a)) l → local_only (for_each f l).
Proof. induction 1; cbn; local_only. Qed.

Lemma local_only_update t (c : WorkflowContinuation F) : local_only (update_position_after_task (B:=B) t c).
Proof.
  assert (Hopt : ∀ o : option (WorkflowContinuation F),
    opt_all (λ c, local_only (update_position_after_task (B:=B) t c)) o →
    local_only (match o with Some n => update_position_after_task (B:=B) t n | None => mret () end)) by (by intros []).
  induction c using continuation_ind; cbn; unfold advance_fork;
    repeat first [apply Hopt; done | apply local_only_for_each; done | local_only; fail | apply local_only_bind; intros | case_match];
    local_only.
Qed.

(** The worker does not hold the claim any more, whoever has acted meanwhile. *)
Definition claim_gone (claim : ActiveTaskClaim) (s : WorkflowSnapshot) (w : World B) : Prop := ∀ n,
  (steps w ≤ n)%nat →
  ¬ holds (clock n) (instance_id s) (active_task_id claim) (active_worker_id claim) (others n (store w)).

Lemma save_fenced_lost claim s w : claim_gone claim s w →
  save_fenced (active_task_id claim) (active_worker_id claim) (s, w) =
    (Ok (Ok false), (s, MkWorld (others (steps w) (store w)) (S (steps w)))).
Proof.
  intros Hgone. unfold save_fenced. erewrite run_bind by reflexivity. erewrite run_bind.
  2:{ unfold local, quietly, try_io, call. cbn [fst snd]. rewrite (fenced_lost (holds:=holds)) by (apply Hgone; lia).
      reflexivity. }
  done.
Qed.

(** Before the fence, a commit touches nothing but the worker's snapshot. *)
Lemma before_fence c task (o : Bytes) :
  local_only (modify_now (λ t, mark_task_completed t (at_task_id task) o) ≫= λ _,
    update_position_after_task (B:=B) (F:=F) (at_task_id task) c).
Proof. apply local_only_bind; [local_only|]. intros. apply local_only_update. Qed.

Lemma commit_lost c task o claim s w : claim_gone claim s w →
  let '(r, (_, w')) := commit_task_result (F:=F) c task o claim (s, w) in
  (r = Ok false ∧ ∃ n, store w' = others n (store w)) ∨ ((∃ e, r = Err e) ∧ store w' = store w).
Proof.
  intros Hgone.
  assert (Hassoc : commit_task_result c task o claim (s, w) =
    ((modify_now (λ t, mark_task_completed t (at_task_id task) o) ≫= λ _,
      update_position_after_task (at_task_id task) c) ≫= λ _,
     r ← save_fenced (active_task_id claim) (active_worker_id claim);
     held ← lift (map_err RBackend r);
     if negb held then mret false
     else drain_pending_signal (at_instance_id task) ≫= λ _, local (release claim) ≫= λ _, mret true) (s, w)).
  { unfold commit_task_result, mbind, io_bind. by destruct (modify_now _ _) as [[] ?]. }
  rewrite Hassoc. clear Hassoc. set (m := modify_now _ ≫= _).
  destruct (before_fence c task o (s, w)) as (Hst & Hi & Hn). fold m in Hst, Hi, Hn.
  unfold mbind at 1, io_bind at 1. destruct (m (s, w)) as [[[]|e] [s1 w1]]; cbn in Hst, Hi, Hn.
  - erewrite run_bind.
    2:{ apply save_fenced_lost. intros n Hle. rewrite Hi, Hst. apply Hgone. lia. }
    left. cbn. split; [done|]. rewrite Hst. eauto.
  - right. eauto.
Qed.

Lemma settle_lost self rl o c index task claim s w : claim_gone claim s w →
  let '(r, (_, w')) := settle (F:=F) self rl (OSuccess o) c index task claim (s, w) in
  (r = Ok Status.InProgress ∧ ∃ n, store w' = others n (store w)) ∨ ((∃ e, r = Err e) ∧ store w' = store w).
Proof.
  intros Hgone. cbn [settle]. erewrite run_bind by reflexivity. cbn [fst snd].
  pose proof (commit_lost c task o claim (clear_retry_state (at_task_id task) s) w Hgone) as Hc.
  unfold mbind, io_bind. destruct (commit_task_result _ _ _ _ _) as [r [s1 w1]].
  destruct Hc as [[-> Hn]|[[e ->] Hst]]; [by left|right; eauto].
Qed.
End FencedCommit.

(** ** Draining a signal *)

Section Drain.
Context `{Sha256, Chrono, FloatOps, Display, SerdeJson, EnvelopeCodec, MapIter}.
Context {F : Type} `{Environment InMemoryBackend, WorkerRuntime F}.

(** A drained signal leaves the workflow at a task or completed. *)
Lemma drain_once_leaves id st st' :
  drain_once id st = (Ok true, st') →
  match state st'.1 with InProgress (AtSignal _ _ _ _) _ _ => False | _ => True end.
Proof.
  unfold drain_once. erewrite run_bind by reflexivity.
  destruct (state st.1) as [[| | | | |? ? ? next|] m l| | | |] eqn:Hst; try done.
  unfold mbind at 1, io_bind at 1. destruct (local _ st) as [[[payload|]|] st1] eqn:Hl; try done.
  assert (Hst1 : st1.1 = st.1).
  { unfold local in Hl. destruct (backend _ _) as [? ?]. by injection Hl as _ <-. }
  erewrite run_bind by reflexivity. rewrite Hst1.
  destruct next as [n|]; erewrite run_bind by reflexivity; cbn;
    unfold save, run, rt, io_map_err, call, snap, modify, mbind, io_bind; cbn; intros [= <-]; cbn.
  - unfold update_position, mark_task_completed. by rewrite Hst.
  - done.
Qed.
End Drain.

(** ** Properties *)

(** A live lease is kept while a task runs: if the worker's claim is live when
    the task starts, other parties respect live claims, and the clock advances by
    less than the lease in any three consecutive steps, then however many
    heartbeats fire, and whether the task ends or is interrupted, the worker is
    never told that it lost its claim and still owns it afterwards. *)
Theorem heartbeat_keeps_lease `{Sha256, Chrono, MapIter} {F : Type}
    `{Environment InMemoryBackend, WorkerRuntime F} (self : PooledWorker) (claim : ActiveTaskClaim)
    (deadline : option TaskDeadline) (ctx : TaskExecutionContext) (c : WorkflowContinuation F) (name : string)
    (input : Bytes) (ttl chrono_ttl : Duration) (w : World InMemoryBackend) :
  claim_ttl self = Some ttl → duration_from_std ttl = Some chrono_ttl →
  claim_respected claim → lease_outlasts chrono_ttl → held_for claim 3 w →
  let '(r, w') := run_with_heartbeat (F:=F) self claim deadline (execute_task_by_id ctx c name input) w in
  r ≠ Ok (Err HClaimLost) ∧
  ∃ cl, claims (store w') !! claim_key (active_instance_id claim) (active_task_id claim) = Some cl ∧
    claim_worker_id cl = active_worker_id claim.
Proof.
  intros Ht Hd Hresp Hlease Hheld. unfold run_with_heartbeat. rewrite Ht, Hd.
  erewrite run_bind by reflexivity. apply heartbeat_keeps; [done..| |done].
  intros w'. unfold execute_task_by_id. by destruct (find_func _ c).
Qed.

(** Heartbeats that cannot reach the store: over any backend, when extensions
    keep failing without saying that the claim is gone and nobody cancels, the first
    two failures are tolerated (the task runs to its end and its result counts) and
    the third gives the claim up, without running the task any further; heartbeats
    are at least four to a lease, and between a millisecond and fifteen seconds
    apart. *)
Theorem heartbeat_gives_up {B F : Type} `{PersistentBackend B, Claims.TaskClaimStore B, Environment B, WorkerRuntime F}
    `{Chrono} {T : Type} (self : PooledWorker) (claim : ActiveTaskClaim) (future : io (World B) Fault T)
    (ttl chrono_ttl : Duration) (P : B → Prop) (w : World B) :
  claim_ttl self = Some ttl → duration_from_std ttl = Some chrono_ttl →
  flaky claim chrono_ttl P → P (store w) →
  let n := heartbeats (steps w) (heartbeat_interval ttl) in
  (from_millis 1 ≤ heartbeat_interval ttl ≤ from_secs 15 ∧
    (4 * from_millis 1 ≤ ttl → 4 * heartbeat_interval ttl ≤ ttl)) ∧
  ∃ w', (P (store w') ∧ steps w' = (2 * min n 3 + steps w)%nat) ∧
    run_with_heartbeat (F:=F) self claim None future w =
      if bool_decide (n < 3)%nat then (Ok <$> future) w' else (Ok (Err HClaimLost), w').
Proof.
  intros Ht Hd Hflaky HP n. split; [apply heartbeat_interval_bound|].
  destruct (heartbeat_failing claim future chrono_ttl P Hflaky n w HP) as (w' & Hrun & HP' & Hs).
  exists w'. split; [done|]. unfold run_with_heartbeat. rewrite Ht, Hd. erewrite run_bind by reflexivity.
  etrans; [exact Hrun|]. by case_bool_decide.
Qed.

(** C12. A worker that has lost its claim commits nothing: over any store with a
    fence, whatever the task's output and the shape of the workflow, settling a
    success after the claim is gone leaves the store as the other parties left it,
    and reports [InProgress] (the workflow is somebody else's now) or an error of
    the position's clock arithmetic; nothing is drained, released or completed. *)
Theorem lost_claim_writes_nothing
    `{Sha256, Chrono, FloatOps, Display, SerdeJson, EnvelopeCodec}
    {B F : Type} `{PersistentBackend B, Claims.TaskClaimStore B, Environment B, WorkerRuntime F}
    {holds : DateTime → string → TaskId → string → B → Prop} `{!FencedStore B holds}
    (self : PooledWorker) (output : Bytes) (wf : Worker.Workflow F) (task : AvailableTask) (claim : ActiveTaskClaim)
    (s : WorkflowSnapshot) (w : World B) :
  claim_gone (holds:=holds) claim s w →
  let '(r, (_, w')) := settle_execution_result self (OSuccess output) wf task claim (s, w) in
  (r = Ok Status.InProgress ∧ ∃ n, store w' = others n (store w)) ∨ ((∃ e, r = Err e) ∧ store w' = store w).
Proof. apply settle_lost. Qed.

(** Draining takes one signal: the loop's second turn never finds another, since a
    drained signal leaves the workflow at a task or completed. *)
Theorem drain_takes_one_signal
    `{Sha256, Chrono, FloatOps, Display, SerdeJson, EnvelopeCodec, MapIter}
    {F : Type} `{Environment InMemoryBackend, WorkerRuntime F} (id : string) (st : ExecState) :
  drain_pending_signal id st = ((λ _, ()) <$> drain_once id) st.
Proof.
  unfold drain_pending_signal. cbn [drain_loop]. unfold fmap, io_fmap, mbind at 1, io_bind at 1.
  destruct (drain_once id st) as [[[]|e] st1] eqn:Hd; [|done..].
  apply drain_once_leaves in Hd. assert (Hs : drain_once id st1 = (Ok false, st1)).
  { unfold drain_once. erewrite run_bind by reflexivity. by repeat case_match. }
  by erewrite run_bind by exact Hs.
Qed.

(** ** Witnesses *)

Module LeaseExample.
Import Toy WorkflowExample ExecExample Examples InMemoryExample DurabilityExample.

(** One second per step for a while; five heartbeats during every task. *)
#[local] Instance env : Environment InMemoryBackend :=
  {| clock n := Z.min (Z.of_nat n) 1000 * ns_per_sec; others _ b := b |}.
#[local] Instance runtime : WorkerRuntime string :=
  {| task_future n ctx fn i := Returned (append_name fn i); heartbeats _ _ := 5%nat |}.

Definition worker : PooledWorker := worker_new "w".
Definition node : WorkflowContinuation string := Task "a" (Some "a") None None None None [] None.
Definition wf : Worker.Workflow string := MkWorkflow "flow" None hash node (index_build node).
Definition claim : ActiveTaskClaim := MkActiveClaim "i" (TaskId_from "a") "w".
Definition ctx : TaskExecutionContext :=
  MkTaskContext "flow" "i" "a" (index_build_task_metadata (index_build node) (TaskId_from "a")) None.
Definition task : AvailableTask :=
  MkAvailableTask "i" (TaskId_from "a") (as_bytes "in") hash None (snapshot_new 0 "i" hash).
Definition claimed_store (holder : string) : InMemoryBackend :=
  (claim_task 0 "i" (TaskId_from "a") holder (Some (from_mins 5)) backend_new).2.

Lemma heartbeat_keeps_lease_witness :
  (run_with_heartbeat (F:=string) worker claim None (execute_task_by_id ctx node "a" (as_bytes "in"))
    (MkWorld (claimed_store "w") 0)).1 ≠ Ok (Err HClaimLost).
Proof.
  pose proof (heartbeat_keeps_lease worker claim None ctx node "a" (as_bytes "in") (from_mins 5) (from_mins 5)
    (MkWorld (claimed_store "w") 0)) as Hk.
  destruct (run_with_heartbeat _ _ _ _ _) as [r w']. apply Hk.
  - reflexivity.
  - reflexivity.
  - by intros n b c Hc _ _.
  - intros n. exists (clock n + from_mins 5). unfold from_mins, from_secs, ns_per_sec. split.
    + cbn. rewrite bool_decide_true; [done|]. unfold MIN_UTC_ns, MAX_UTC_ns, ns_per_sec. lia.
    + intros m Hm. cbn. unfold timestamp_u64, as_u64, timestamp, ns_per_sec.
      rewrite !Z.div_mul by lia. rewrite Z.div_add_l by lia. rewrite Z.div_mul by lia. rewrite !Z.mod_small by lia. lia.
  - eexists. split; [reflexivity|]. split; [reflexivity|]. intros m Hm.
    assert (m = 0%nat ∨ m = 1%nat ∨ m = 2%nat) as [->|[->| ->]] by (cbn in Hm; lia); reflexivity.
Defined.

(** A store that is never reachable when a claim is extended. *)
Section Flaky.
#[local] Instance flaky_claims : Claims.TaskClaimStore InMemoryBackend := {|
  Claims.claim_task := claim_task; Claims.release_task_claim := release_task_claim;
  Claims.extend_task_claim now id t worker ttl b := (Err (BackendErr "unreachable"), b);
  Claims.find_available_tasks := find_available_tasks; Claims.find_hinted_task := default_find_hinted_task;
  Claims.save_snapshot_fenced _ := default_save_snapshot_fenced
|}.

Lemma heartbeat_gives_up_witness :
  ∃ w', (signals (store w') = ∅ ∧ steps w' = 6%nat) ∧
  run_with_heartbeat (F:=string) worker claim None (execute_task_by_id ctx node "a" (as_bytes "in"))
    (MkWorld (claimed_store "w") 0) = (Ok (Err HClaimLost), w').
Proof.
  edestruct (heartbeat_gives_up worker claim (execute_task_by_id ctx node "a" (as_bytes "in"))
    (from_mins 5) (from_mins 5) (λ b, signals b = ∅) (MkWorld (claimed_store "w") 0)) as [_ Hw];
    [reflexivity|reflexivity| |reflexivity|exact Hw].
  constructor.
  - done.
  - intros b Hb. do 2 eexists. split; [reflexivity|]. split; [done|]. cbn. unfold pending. rewrite Hb. done.
  - intros now b Hb. do 2 eexists. split; [reflexivity|done].
Defined.
End Flaky.

(** A store with a fence. *)
Section Fenced.
Definition live (now : DateTime) (id : string) (t : TaskId) (worker : string) (b : InMemoryBackend) : bool :=
  match claims b !! claim_key id t with
  | Some c => bool_decide (claim_worker_id c = worker) && negb (is_expired now c)
  | None => false
  end.
#[local] Instance fenced_claims : Claims.TaskClaimStore InMemoryBackend := {|
  Claims.claim_task := claim_task; Claims.release_task_claim := release_task_claim;
  Claims.extend_task_claim := extend_task_claim;
  Claims.find_available_tasks := find_available_tasks; Claims.find_hinted_task := default_find_hinted_task;
  Claims.save_snapshot_fenced now s t worker b :=
    if live now (instance_id s) t worker b
    then let '(r, b') := save_snapshot s b in (pair true <$> r, b')
    else (Ok (false, s), b)
|}.
#[local] Instance fenced_claims_ok :
  FencedStore InMemoryBackend (λ now id t worker b, live now id t worker b = true).
Proof.
  constructor; intros; cbn.
  - by rewrite H.
  - by destruct (live _ _ _ _ _).
Qed.

(** Another worker has taken the claim over: the late success is dropped. *)
Lemma lost_claim_writes_nothing_witness :
  let '(r, (_, w')) := settle_execution_result worker (OSuccess (as_bytes "in a")) wf task claim
    (snapshot_new 0 "i" hash, MkWorld (claimed_store "other") 0) in
  r = Ok Status.InProgress ∧ store w' = claimed_store "other".
Proof.
  pose proof (lost_claim_writes_nothing worker (as_bytes "in a") wf task
    claim (snapshot_new 0 "i" hash) (MkWorld (claimed_store "other") 0)) as Hl.
  destruct (settle_execution_result _ _ _ _ _ _) as [r [s' w']] eqn:Hs.
  destruct Hl as [[-> [n ->]]|[[e ->] Hw]].
  - intros n _. cbn. unfold live. by vm_compute.
  - done.
  - vm_compute in Hs. discriminate.
Defined.
End Fenced.
End LeaseExample.
