(* ===== verification/WorkerChain.v ===== *)
(** * A task chain under the pooled worker

    A worker alone on an in-memory store drives a chain of tasks to completion, one
    poll and one dispatch per task, and computes what the workflow means. *)

From S2P Require Import Prelude Hash32 SnapshotFormat Task Workflow Serializable TaskIndex Snapshot Backend InMemory ClaimStore Runtime Lifecycle SyncExec Checkpoint Durability WorkerNav Worker WorkerLoop WorkerProps.

(** ** A task chain *)

Section Chain.
Context `{Sha256, Chrono, FloatOps, Display, SerdeJson, EnvelopeCodec, MapIter, !MapIterLaws}.
Context {F : Type} `{Environment InMemoryBackend, WorkerRuntime F} (quiet : ∀ n b, others n b = b).
Context (self : PooledWorker).
Abbreviation W := (World InMemoryBackend).

(** One instance, nothing claimed, nothing signalled. *)
Definition idle (inst : string) (s : WorkflowSnapshot) (b : InMemoryBackend) : Prop :=
  snapshots b = {[inst := s]} ∧ claims b = ∅ ∧ signals b = ∅.

(** The input the search offers with the task. *)
Definition next_input (s : WorkflowSnapshot) : option Bytes :=
  match state s with
  | InProgress _ completed _ => if bool_decide (completed = ∅) then initial_input s else get_last_task_output s
  | _ => None
  end.

Lemma no_signal b id kind : signals b = ∅ → pending b id kind = None.
Proof. unfold pending. intros ->. by rewrite lookup_empty. Qed.

Lemma not_signalled b id : signals b = ∅ → signalled b id = false.
Proof. intros Hs. unfold signalled. by rewrite !no_signal. Qed.

Lemma poll_offers inst s b limit t m l x now :
  idle inst s b → state s = InProgress (AtTask t) m l → m !! t = None → task_retries s = ∅ →
  worker_tags self = [] → next_input s = Some x →
  find_available_tasks now (worker_id self) limit (default DURATION_MAX (duration_from_std (aging_interval self)))
    (worker_tags self) b = (Ok [MkAvailableTask inst t x (snapshot_definition_hash s) None s], b).
Proof.
  intros (Hs & Hc & Hsig) Hst Ht Hr Htags Hx.
  assert (Hit : map_iter (snapshots b) = [(inst, s)]).
  { apply Permutation_singleton_r. rewrite (map_iter_entries (snapshots b)), Hs. by rewrite map_to_list_singleton. }
  assert (Hadv : advanced now b = b).
  { unfold advanced. rewrite Hc, map_filter_empty.
    assert (Hb : with_claims ∅ b = b) by (destruct b; cbn in *; by rewrite Hc). rewrite Hb, Hit.
    unfold omap, list_omap. cbn. rewrite Hst. cbn.
    by destruct (signalled b inst). }
  unfold find_available_tasks. rewrite Hadv, Hit. cbn [dispatch]. unfold candidate at 1. cbn [fst snd].
  unfold next_input in Hx. rewrite Hst in Hx |- *. cbn [is_in_progress negb].
  rewrite not_signalled by done. rewrite Hc, lookup_empty, Ht. 
  rewrite (bool_decide_false (is_Some (@None TaskResult))), (bool_decide_false (is_Some (@None TaskClaim)))
    by (by intros []). cbn [negb andb]. unfold backoff_pending. rewrite Hr, lookup_empty.
  unfold tags_match. rewrite Htags. cbn [bool_decide]. rewrite bool_decide_true by done. cbn [orb negb].
  rewrite Hx. cbn [fmap option_fmap option_map app length]. 
  destruct (bool_decide (limit <= 1)%nat); reflexivity.
Qed.

(** *** The gates *)

Lemma no_control b id t now : signals b = ∅ → mem_check_and_cancel now id t b = (Ok false, b).
Proof. intros Hs. unfold mem_check_and_cancel. by rewrite no_signal. Qed.
Lemma no_control' b id now : signals b = ∅ → mem_check_and_pause now id b = (Ok false, b).
Proof. intros Hs. unfold mem_check_and_pause. by rewrite no_signal. Qed.

Lemma control_signals_quiet id t (w : W) : signals (store w) = ∅ →
  control_signals id t w = (Ok None, MkWorld (store w) (2 + steps w)).
Proof.
  intros Hs. unfold control_signals.
  erewrite run_bind by (apply backend_run; rewrite quiet; by apply no_control). cbn.
  erewrite run_bind by (apply backend_run; cbn; rewrite quiet; by apply no_control'). done.
Qed.

(** The store while the worker holds its claim. *)
Definition claimed (inst : string) (t : TaskId) (c : TaskClaim) (b : InMemoryBackend) : InMemoryBackend :=
  with_claims {[claim_key inst t := c]} b.

Lemma dispatch_quiet hash index task run (w : W) :
  claims (store w) = ∅ → signals (store w) = ∅ →
  validate_task_preconditions hash index task (at_snapshot task) = Ok false →
  ∃ c, claim_worker_id c = worker_id self ∧
  dispatch_task self hash index task run w =
    with_snapshot (at_snapshot task)
      (run (MkActiveClaim (at_instance_id task) (at_task_id task) (worker_id self)))
      (MkWorld (claimed (at_instance_id task) (at_task_id task) c (store w)) (3 + steps w)).
Proof.
  intros Hc Hs Hv. unfold dispatch_task. rewrite Hv.
  erewrite run_bind by reflexivity. cbn beta iota.
  set (c := TaskClaim_new (clock (steps w)) (at_instance_id task) (at_task_id task) (worker_id self)
    (claim_ttl self ≫= duration_from_std)).
  exists c. split; [done|].
  assert (Hclaim : worker_claim_task self task w =
    (Ok (Some (MkActiveClaim (at_instance_id task) (at_task_id task) (worker_id self))),
     MkWorld (claimed (at_instance_id task) (at_task_id task) c (store w)) (S (steps w)))).
  { unfold worker_claim_task. erewrite (run_bind _ _ _ (Some c)); [reflexivity|]. apply backend_run. rewrite quiet. cbn.
    unfold claim_task. rewrite Hc, lookup_empty, delete_empty, insert_empty. done. }
  rewrite (run_bind _ _ _ _ _ Hclaim). cbn beta iota.
  assert (Hg : check_post_claim_guards task
    (MkWorld (claimed (at_instance_id task) (at_task_id task) c (store w)) (S (steps w))) =
    (Ok None, MkWorld (claimed (at_instance_id task) (at_task_id task) c (store w)) (3 + steps w))).
  { unfold check_post_claim_guards. erewrite run_bind; [|apply control_signals_quiet; exact Hs].
    done. }
  by rewrite (run_bind _ _ _ _ _ Hg).
Qed.

Lemma extend_claimed now inst t wid ttl c b :
  claim_worker_id c = wid → is_Some (checked_add_signed now ttl) →
  ∃ c', claim_worker_id c' = wid ∧
  extend_task_claim now inst t wid ttl (claimed inst t c b) = (Ok (), claimed inst t c' b).
Proof.
  intros Hc [e He]. unfold extend_task_claim. cbn. rewrite lookup_singleton_eq, bool_decide_false by tauto.
  destruct (expires_at c); [|by exists c]. rewrite He. eexists (MkTaskClaim _ _ _ _ _). split; [exact Hc|].
  by rewrite insert_singleton_eq.
Qed.

(** A run without deadline and without cancel request gets its result. *)
Lemma heartbeat_quiet {T} inst t wid c ttl (future : io W Fault T) n k b j :
  claim_worker_id c = wid → signals b = ∅ → (∀ n, is_Some (checked_add_signed (clock n) ttl)) →
  ∃ c' j', claim_worker_id c' = wid ∧
  heartbeat_loop (MkActiveClaim inst t wid) None future ttl n k (MkWorld (claimed inst t c b) j) =
    (Ok <$> future) (MkWorld (claimed inst t c' b) j').
Proof.
  intros Hc Hs Hadd. revert k c Hc j. induction n as [|n IH]; intros k c Hc j; cbn [heartbeat_loop].
  { by exists c, j. }
  destruct (extend_claimed (clock (S j)) inst t wid ttl c b Hc (Hadd _)) as (c1 & Hc1 & Hext).
  destruct (IH 0 c1 Hc1 (S (S j))) as (c' & j' & Hc' & Hrun). exists c', j'. split; [done|]. rewrite <-Hrun.
  erewrite run_bind by reflexivity. cbn beta iota.
  erewrite run_bind; [|apply quietly_run; rewrite quiet; reflexivity].
  cbn [active_instance_id steps store].
  erewrite run_bind; [|apply quietly_run; cbn [steps store]; rewrite quiet; exact Hext].
  by rewrite (no_signal (claimed inst t c b)).
Qed.

Lemma run_with_heartbeat_quiet {T} inst t c (future : io W Fault T) b j :
  claim_worker_id c = worker_id self → signals b = ∅ →
  (∀ n ttl, claim_ttl self ≫= duration_from_std = Some ttl → is_Some (checked_add_signed (clock n) ttl)) →
  ∃ c' j', claim_worker_id c' = worker_id self ∧
  run_with_heartbeat (F:=F) self (MkActiveClaim inst t (worker_id self)) None future (MkWorld (claimed inst t c b) j) =
    (Ok <$> future) (MkWorld (claimed inst t c' b) j').
Proof.
  intros Hc Hs Hadd. unfold run_with_heartbeat.
  destruct (claim_ttl self) as [ttl|]; [|by exists c, j]. cbn in Hadd.
  destruct (duration_from_std ttl) as [d|]; [|by exists c, j].
  erewrite run_bind by reflexivity. apply heartbeat_quiet; auto.
Qed.

(** *** Navigation in a chain *)

(** Tasks with a function and no timeout, one after the other. *)
Fixpoint task_chain (c : WorkflowContinuation F) : bool :=
  match c with
  | Task _ (Some _) None _ _ _ _ next => match next with Some n => task_chain n | None => true end
  | _ => false
  end.

(** [c] follows the tasks [pre] in the chain [c0]. *)
Fixpoint reached (pre : list string) (c0 c : WorkflowContinuation F) : Prop :=
  match pre with
  | [] => c0 = c
  | id :: pre => ∃ fn r v p tg n, c0 = Task id (Some fn) None r v p tg (Some n) ∧ reached pre n c
  end.

Lemma reached_snoc pre c0 id fn r v p tg n :
  reached pre c0 (Task id (Some fn) None r v p tg (Some n)) → reached (pre ++ [id]) c0 n.
Proof.
  revert c0; induction pre as [|x pre IH]; intros c0; cbn; [intros ->; do 6 eexists; done|].
  intros (? & ? & ? & ? & ? & n0 & -> & Hr). do 6 eexists. split; [done|]. auto.
Qed.

Lemma reached_chain pre c0 c : reached pre c0 c → task_chain c0 = true → task_chain c = true.
Proof.
  revert c0; induction pre as [|x pre IH]; intros c0; cbn; [by intros ->|].
  intros (? & ? & ? & ? & ? & n0 & -> & Hr). eauto.
Qed.

Lemma reached_leaves pre c0 c : reached pre c0 c → leaf_ids c0 = pre ++ leaf_ids c.
Proof.
  revert c0; induction pre as [|x pre IH]; intros c0; cbn; [by intros ->|].
  intros (? & ? & ? & ? & ? & n0 & -> & Hr). cbn. f_equal. auto.
Qed.

Lemma reached_complete pre c0 c s :
  reached pre c0 c → (∀ id, id ∈ pre → get_task_result (TaskId_from id) s ≠ None) →
  is_workflow_complete s c0 = is_workflow_complete s c.
Proof.
  revert c0; induction pre as [|x pre IH]; intros c0; cbn; [by intros ->|].
  intros (? & ? & ? & ? & ? & n0 & -> & Hr) Hall. cbn.
  destruct (get_task_result (TaskId_from x) s) eqn:He; [|by destruct (Hall x (list_elem_of_here _ _))].
  apply IH; [done|]. intros id Hid. apply Hall. by apply list_elem_of_further.
Qed.

Lemma reached_update pre c0 c t :
  reached pre c0 c → t ∉ tids pre → update_position_after_task t c0 = update_position_after_task t c.
Proof.
  revert c0; induction pre as [|x pre IH]; intros c0; cbn; [by intros ->|].
  intros (? & ? & ? & ? & ? & n0 & -> & Hr) Ht. rewrite not_elem_of_cons in Ht. cbn.
  rewrite bool_decide_false by naive_solver. apply IH; naive_solver.
Qed.

Lemma reached_func pre c0 id fn r v p tg next :
  reached pre c0 (Task id (Some fn) None r v p tg next) → TaskId_from id ∉ tids pre →
  find_func (TaskId_from id) c0 = Ok fn.
Proof.
  revert c0; induction pre as [|x pre IH]; intros c0; cbn.
  { intros -> _. cbn. by rewrite bool_decide_true. }
  intros (? & ? & ? & ? & ? & n0 & -> & Hr) Ht. rewrite not_elem_of_cons in Ht. cbn.
  rewrite bool_decide_false by naive_solver. apply IH; naive_solver.
Qed.

Lemma reached_config pre c0 id fn r v p tg next :
  reached pre c0 (Task id fn None r v p tg next) → TaskId_from id ∉ tids pre →
  ∃ t, find_config (TaskId_from id) c0 = Some t ∧ tc_id t = id ∧ tc_timeout t = None.
Proof.
  rewrite find_config_find. revert c0; induction pre as [|x pre IH]; intros c0; cbn.
  { intros -> _. cbn. unfold is_target at 1. rewrite bool_decide_true by done. by eexists. }
  intros (? & ? & ? & ? & ? & n0 & -> & Hr) Ht. rewrite not_elem_of_cons in Ht. cbn.
  unfold is_target at 1. cbn. rewrite bool_decide_false by naive_solver. apply IH; naive_solver.
Qed.

Lemma chain_node c : task_chain c = true →
  ∃ id fn r v p tg next, c = Task id (Some fn) None r v p tg next ∧ opt_all (λ n, task_chain n = true) next.
Proof.
  destruct c as [id [fn|] [to|] r v p tg next| | | | | |]; cbn; try done. intros Hc.
  do 7 eexists. split; [done|]. by destruct next.
Qed.

Lemma chain_no_fork t c : task_chain c = true → find_fork_branches_for_join t c = None.
Proof.
  induction c using continuation_ind; cbn; try done. by repeat case_match; auto.
Qed.

Lemma chain_no_loop c : task_chain c = true → resolve_loops_recursive (B:=InMemoryBackend) c = mret ().
Proof.
  induction c using continuation_ind; cbn; try done. by repeat case_match; auto.
Qed.

(** *** One dispatch *)

(** The workflow waits for the first task of [c], with input [x]: the tasks before
    it have results, the others have none. *)
Record ready (inst : string) (hash : DefinitionHash) (pre : list string) (c : WorkflowContinuation F) (x : Bytes)
    (s : WorkflowSnapshot) : Prop := {
  ready_instance : instance_id s = inst;
  ready_hash : snapshot_definition_hash s = hash;
  ready_state : ∃ m l, state s = InProgress (AtTask (TaskId_from (cont_id c))) m l ∧
    (∀ id, id ∈ pre → m !! TaskId_from id ≠ None) ∧ (∀ id, id ∈ leaf_ids c → m !! TaskId_from id = None);
  ready_retries : task_retries s = ∅;
  ready_input : next_input s = Some x
}.

(** The worker's store when it has committed: the claim is gone. *)
Lemma release_claimed inst t wid c b :
  claim_worker_id c = wid → claims b = ∅ →
  release_task_claim inst t wid (claimed inst t c b) = (Ok (), b).
Proof.
  intros Hc Hb. unfold release_task_claim. cbn. rewrite lookup_singleton_eq.
  rewrite bool_decide_false by tauto. cbn. rewrite delete_singleton_eq. destruct b; cbn in *. by subst.
Qed.

(** The snapshot after a task's success. *)
Definition committed (t : TaskId) (o : Bytes) (next : option (WorkflowContinuation F)) (t1 t2 : DateTime)
    (s : WorkflowSnapshot) : WorkflowSnapshot :=
  let s := mark_task_completed t1 t o (clear_retry_state t s) in
  match next with
  | Some n => set_task_hint (first_task_hint n) (update_position t2 (AtTask (hint_id (first_task_hint n))) s)
  | None => s
  end.

Lemma update_quiet c0 pre id fn r v p tg next (s : WorkflowSnapshot) w :
  reached pre c0 (Task id (Some fn) None r v p tg next) → TaskId_from id ∉ tids pre →
  opt_all (λ n, task_chain n = true) next →
  ∃ j, update_position_after_task (TaskId_from id) c0 (s, w) =
  (Ok (), (match next with
    | Some n => set_task_hint (first_task_hint n)
        (update_position (clock (steps w)) (AtTask (hint_id (first_task_hint n))) s)
    | None => s
    end, MkWorld (store w) j)).
Proof.
  intros Hr Hpre Hch. rewrite (reached_update _ _ _ _ Hr Hpre). cbn. rewrite bool_decide_true by done.
  destruct next as [n|]; [|exists (steps w); by destruct w]. cbn in Hch.
  apply chain_node in Hch as (? & ? & ? & ? & ? & ? & ? & -> & _). by eexists.
Qed.

(** A snapshot in progress is saved behind the fence and the claim released. *)
Lemma save_release_quiet inst t c (s : WorkflowSnapshot) b j p m l :
  instance_id s = inst → state s = InProgress p m l →
  save_fenced t (worker_id self) (s, MkWorld (claimed inst t c b) j) =
  (Ok (Ok true), (s, MkWorld (claimed inst t c (with_snapshots (<[inst := s]> (snapshots b)) b)) (S j))).
Proof.
  intros Hi Hst. unfold save_fenced. erewrite run_bind by reflexivity.
  erewrite run_bind.
  2:{ unfold local. erewrite quietly_run; [reflexivity|]. cbn [steps store]. rewrite quiet. cbn.
      unfold default_save_snapshot_fenced. erewrite run_bind; [reflexivity|]. cbn.
      rewrite mem_save_live by (by rewrite Hst). by rewrite Hi. }
  done.
Qed.

Lemma drain_no_signal inst (st : @ExecState InMemoryBackend) p m l :
  state st.1 = InProgress p m l → match p with AtSignal _ _ _ _ => False | _ => True end →
  drain_pending_signal inst st = (Ok (), st).
Proof.
  intros Hs Hp. unfold drain_pending_signal. cbn [drain_loop].
  assert (Hd : drain_once inst st = (Ok false, st)).
  { unfold drain_once. erewrite run_bind by reflexivity. rewrite Hs. by destruct p. }
  by erewrite run_bind by exact Hd.
Qed.

Lemma committed_state t o next t1 t2 s p m l :
  state s = InProgress p m l →
  state (committed t o next t1 t2 s) =
    InProgress (match next with Some n => AtTask (TaskId_from (first_task_id n)) | None => p end)
      (<[t := MkTaskResult t o]> m) (Some t).
Proof.
  intros Hs. unfold committed, mark_task_completed. cbn. rewrite Hs.
  destruct next; [|done]. unfold update_position. done.
Qed.
Lemma committed_fields t o next t1 t2 s :
  let s' := committed t o next t1 t2 s in
  instance_id s' = instance_id s ∧ snapshot_definition_hash s' = snapshot_definition_hash s ∧
  task_retries s' = delete t (task_retries s).
Proof.
  unfold committed, mark_task_completed, update_position. cbn. destruct next, (state s); cbn; repeat split; by repeat case_match.
Qed.

Lemma commit_quiet c0 pre id fn r v p tg next task c o (s0 s : WorkflowSnapshot) b j :
  reached pre c0 (Task id (Some fn) None r v p tg next) → TaskId_from id ∉ tids pre →
  opt_all (λ n, task_chain n = true) next →
  at_task_id task = TaskId_from id → at_instance_id task = instance_id s →
  claim_worker_id c = worker_id self → idle (instance_id s) s0 b →
  (∃ m l, state s = InProgress (AtTask (TaskId_from id)) m l) →
  ∃ t1 t2 s' b' j', s' = committed (TaskId_from id) o next t1 t2 s ∧ idle (instance_id s) s' b' ∧
  commit_task_result c0 task o (MkActiveClaim (instance_id s) (TaskId_from id) (worker_id self))
    (clear_retry_state (TaskId_from id) s, MkWorld (claimed (instance_id s) (TaskId_from id) c b) j) =
  (Ok true, (s', MkWorld b' j')).
Proof.
  intros Hr Hpre Hch Ht Hi Hc (Hs & Hcl & Hsig) (m & l & Hst). set (t := TaskId_from id) in *.
  unfold commit_task_result. rewrite Ht, Hi. erewrite run_bind by reflexivity.
  destruct (update_quiet c0 pre id fn r v p tg next (mark_task_completed (clock j) t o (clear_retry_state t s))
    (MkWorld (claimed (instance_id s) t c b) (S j)) Hr Hpre Hch) as (j2 & Hup). fold t in Hup.
  erewrite run_bind by exact Hup. cbn [active_task_id active_worker_id store steps].
  set (s' := match next with Some _ => _ | None => _ end).
  change s' with (committed t o next (clock j) (clock (S j)) s). clear s' Hup.
  set (s' := committed t o next (clock j) (clock (S j)) s).
  pose proof (committed_state t o next (clock j) (clock (S j)) s _ _ _ Hst) as Hst'. fold s' in Hst'.
  assert (Hi' : instance_id s' = instance_id s) by apply committed_fields.
  erewrite run_bind by (eapply save_release_quiet; [exact Hi'|exact Hst']). erewrite run_bind by reflexivity.
  cbn [negb]. erewrite run_bind by (eapply (drain_no_signal _ (_, _)); [exact Hst'|by destruct next]).
  exists (clock j), (clock (S j)), s', (with_snapshots (<[instance_id s := s']> (snapshots b)) b), (S (S j2)).
  split; [done|]. split; [split; [cbn; by rewrite Hs, insert_singleton_eq|done]|].
  erewrite run_bind; [reflexivity|]. unfold local, release. cbn [active_instance_id active_task_id active_worker_id snd].
  erewrite backend_run; [reflexivity|]. cbn [steps store]. rewrite quiet. by apply release_claimed.
Qed.

Lemma save_completed_quiet inst s0 s o b j :
  idle inst s0 b → instance_id s = inst → state s = Completed o →
  ∃ b', idle inst s b' ∧ save (s, MkWorld b j) = (Ok (), (s, MkWorld b' (S j))).
Proof.
  intros (Hs & Hc & Hsig) Hi Hst. unfold save. erewrite run_bind by reflexivity.
  exists (mem_save_snapshot s b).2. split.
  - unfold idle, mem_save_snapshot. rewrite Hst, Hi. cbn. by repeat case_match; cbn; rewrite Hs, insert_singleton_eq.
  - rewrite (run_bind _ _ _ s (s, MkWorld (mem_save_snapshot s b).2 (S j))); [done|].
    unfold run, rt, io_map_err, call. cbn. by rewrite quiet.
Qed.

(** The invariant of the remaining chain after a success. *)
Lemma committed_ready c0 inst hash pre id fn r v p tg n x o t1 t2 s :
  NoDup (tids (leaf_ids c0)) → reached pre c0 (Task id (Some fn) None r v p tg (Some n)) → task_chain n = true →
  ready inst hash pre (Task id (Some fn) None r v p tg (Some n)) x s →
  ready inst hash (pre ++ [id]) n o (committed (TaskId_from id) o (Some n) t1 t2 s).
Proof.
  intros Hnd Hr Hn [Hi Hh (m & l & Hst & Hpre & Hrest) Hret Hin].
  pose proof (committed_state (TaskId_from id) o (Some n) t1 t2 s _ _ _ Hst) as Hst'.
  destruct (committed_fields (TaskId_from id) o (Some n) t1 t2 s) as (Hi' & Hh' & Hret').
  rewrite (reached_leaves _ _ _ Hr) in Hnd. cbn in Hnd. unfold tids in Hnd. rewrite fmap_app in Hnd.
  apply NoDup_app in Hnd as (_ & _ & Hnd). apply NoDup_cons in Hnd as [Hid _].
  constructor; [congruence|congruence| |by rewrite Hret', Hret, delete_empty|].
  - do 2 eexists. rewrite Hst'. split.
    { by apply chain_node in Hn as (? & ? & ? & ? & ? & ? & ? & -> & _). }
    split.
    + intros y [Hy|Hy]%elem_of_app.
      * destruct (decide (TaskId_from y = TaskId_from id)) as [->|Hne]; [by rewrite lookup_insert_eq|].
        rewrite lookup_insert_ne by done. auto.
      * apply list_elem_of_singleton in Hy as ->. by rewrite lookup_insert_eq.
    + intros y Hy. rewrite lookup_insert_ne; [apply Hrest; cbn; set_solver|].
      intros He. apply Hid. rewrite He. by apply list_elem_of_fmap_2.
  - unfold next_input. rewrite Hst'. rewrite bool_decide_false by apply insert_non_empty.
    unfold get_last_task_output. rewrite Hst'. cbn. by rewrite lookup_insert_eq.
Qed.

(** What a dispatch of the task before [next] leaves behind. *)
Definition after_task (inst : string) (hash : DefinitionHash) (pre : list string)
    (next : option (WorkflowContinuation F)) (o : Bytes) (status : Status.WorkflowStatus) (s : WorkflowSnapshot) : Prop :=
  match next with
  | Some n => status = Status.InProgress ∧ ready inst hash pre n o s
  | None => status = Status.Completed ∧ instance_id s = inst ∧ state s = Completed o
  end.

Lemma committed_complete c0 inst hash pre id fn r v p tg next x o t1 t2 s :
  NoDup (tids (leaf_ids c0)) → reached pre c0 (Task id (Some fn) None r v p tg next) →
  opt_all (λ n, task_chain n = true) next →
  ready inst hash pre (Task id (Some fn) None r v p tg next) x s →
  is_workflow_complete (committed (TaskId_from id) o next t1 t2 s) c0 = bool_decide (next = None).
Proof.
  intros Hnd Hr Hch Hrd. pose proof Hrd as [_ _ (m & l & Hst & Hpre & _) _ _].
  pose proof (committed_state (TaskId_from id) o next t1 t2 s _ _ _ Hst) as Hst'.
  set (s' := committed _ _ _ _ _ _) in *.
  assert (Hget : ∀ t, get_task_result t s' = <[TaskId_from id := MkTaskResult (TaskId_from id) o]> m !! t)
    by (intros; unfold get_task_result; by rewrite Hst').
  rewrite (reached_complete _ _ _ _ Hr).
  2:{ intros y Hy. rewrite Hget. destruct (decide (TaskId_from y = TaskId_from id)) as [->|Hne];
        [by rewrite lookup_insert_eq|]. rewrite lookup_insert_ne by done. auto. }
  cbn. rewrite Hget, lookup_insert_eq. destruct next as [n|]; [|done]. cbn in Hch.
  pose proof (committed_ready c0 inst hash pre id fn r v p tg n x o t1 t2 s Hnd Hr Hch Hrd)
    as [_ _ (m' & l' & Hst'' & _ & Hrest) _ _]. fold s' in Hst''. clearbody s'.
  apply chain_node in Hch as (id' & ? & ? & ? & ? & ? & ? & -> & _).
  cbn. unfold get_task_result. rewrite Hst''. by rewrite (Hrest id') by apply list_elem_of_here.
Qed.

Lemma settle_quiet c0 index inst hash pre id fn r v p tg next task c x o s0 s b j :
  task_chain c0 = true → NoDup (tids (leaf_ids c0)) → reached pre c0 (Task id (Some fn) None r v p tg next) →
  at_task_id task = TaskId_from id → at_instance_id task = inst →
  claim_worker_id c = worker_id self → idle inst s0 b →
  ready inst hash pre (Task id (Some fn) None r v p tg next) x s →
  ∃ status s' b' j', idle inst s' b' ∧ after_task inst hash (pre ++ [id]) next o status s' ∧
  settle self true (OSuccess o) c0 index task (MkActiveClaim inst (TaskId_from id) (worker_id self))
    (s, MkWorld (claimed inst (TaskId_from id) c b) j) = (Ok status, (s', MkWorld b' j')).
Proof.
  intros Hc0 Hnd Hr Ht Hti Hc Hidle Hrd. pose proof Hrd as [Hi _ (m & l & Hst & _) _ _].
  assert (Hch : opt_all (λ n, task_chain n = true) next).
  { pose proof (reached_chain _ _ _ Hr Hc0) as Hch. cbn in Hch. by destruct next. }
  assert (Hpre : TaskId_from id ∉ tids pre).
  { rewrite (reached_leaves _ _ _ Hr) in Hnd. unfold tids in *. rewrite fmap_app in Hnd.
    apply NoDup_app in Hnd as (_ & Hd & _). intros Hin. apply (Hd _ Hin). apply list_elem_of_here. }
  subst inst. cbn [settle]. erewrite run_bind by reflexivity.
  destruct (commit_quiet c0 pre id fn r v p tg next task c o s0 s b j) as
    (t1 & t2 & s' & b' & j' & -> & Hidle' & Hcommit); [done..|done|by rewrite Hi|by do 2 eexists|].
  rewrite Hi in Hcommit, Hidle'. cbn [fst snd]. rewrite Ht. erewrite run_bind by exact Hcommit. cbn [negb].
  rewrite (chain_no_loop _ Hc0). erewrite run_bind by reflexivity.
  pose proof (committed_complete c0 (at_instance_id task) hash pre id fn r v p tg next x o t1 t2 s Hnd Hr Hch Hrd) as Hcompl.
  set (s' := committed _ _ _ _ _ _) in *.
  assert (Hpost : determine_post_task_status c0 task o (s', MkWorld b' j') =
    (if bool_decide (next = None) then
      (modify_now (λ t, mark_completed t o) ≫= λ _, save ≫= λ _, mret Status.Completed) (s', MkWorld b' (2 + j'))
     else (Ok Status.InProgress, (s', MkWorld b' (2 + j'))))).
  { unfold determine_post_task_status. erewrite run_bind.
    2:{ unfold local. rewrite control_signals_quiet by apply Hidle'. reflexivity. }
    cbn beta iota. erewrite run_bind by reflexivity. cbn [fst]. rewrite Hcompl. by case_bool_decide. }
  rewrite Hpost. destruct next as [n|]; cbn [bool_decide].
  - rewrite bool_decide_false by done. do 4 eexists. split; [exact Hidle'|]. split; [|reflexivity]. split; [done|].
    by apply (committed_ready c0 _ _ _ _ fn r v p tg n x).
  - rewrite bool_decide_true by done. erewrite run_bind by reflexivity. cbn [fst snd store].
    destruct (save_completed_quiet (at_instance_id task) s' (mark_completed (clock (2 + j')) o s') o b' (3 + j') Hidle')
      as (b'' & Hidle'' & Hsave); [|done|].
    { rewrite <-Hi. apply committed_fields. }
    erewrite run_bind by exact Hsave. do 4 eexists. split; [exact Hidle''|]. split; [|reflexivity].
    split; [done|]. split; [|done]. rewrite <-Hi. apply committed_fields.
Qed.

(** *** Failures *)

(** Saving and releasing, in progress or failed. *)
Lemma save_fenced_quiet inst t c s b j :
  instance_id s = inst → ∃ b', claims b' = claims b ∧ signals b' = signals b ∧
    snapshots b' = <[inst := s]> (snapshots b) ∧
  save_fenced t (worker_id self) (s, MkWorld (claimed inst t c b) j) =
    (Ok (Ok true), (s, MkWorld (claimed inst t c b') (S j))).
Proof.
  intros Hi. exists (MkBackend (<[inst := s]> (snapshots b)) (claims b) (signals b) (events b)
    (task_results_cache (mem_save_snapshot s b).2)). do 3 (split; [done|]).
  unfold save_fenced. erewrite run_bind by reflexivity. erewrite run_bind.
  2:{ unfold local. erewrite quietly_run; [reflexivity|]. cbn [steps store]. rewrite quiet. cbn.
      unfold default_save_snapshot_fenced. erewrite run_bind; reflexivity. }
  cbn. unfold mem_save_snapshot. rewrite <-Hi. by repeat case_match.
Qed.

Lemma release_quietly_run inst t c b (s : WorkflowSnapshot) j :
  claim_worker_id c = worker_id self → claims b = ∅ →
  local (release_quietly (MkActiveClaim inst t (worker_id self))) (s, MkWorld (claimed inst t c b) j) =
    (Ok (), (s, MkWorld b (S j))).
Proof.
  intros Hc Hb. unfold local, release_quietly. cbn [snd].
  erewrite run_bind; [reflexivity|]. erewrite quietly_run; [reflexivity|]. cbn [steps store]. rewrite quiet.
  by apply release_claimed.
Qed.
(** The error and the message of a failed outcome. *)
Definition failure_of (outcome : ExecutionOutcome) : option (RuntimeError * string) :=
  match outcome with
  | OTimeout e | OTaskError e => Some (e, error_to_string e)
  | OPanic p => Some (RWorkflow (WF.TaskPanicked (extract_panic_message p)), extract_panic_message p)
  | _ => None
  end.

(** The policy under which a failed task is tried again. *)
Definition retried_under (index : TaskIndex) (t : TaskId) (s : WorkflowSnapshot) : option RetryPolicy :=
  pol ← index_retry_policy index t; if retries_exhausted t s then None else Some pol.

Lemma settle_failed rl outcome e msg (c0 : WorkflowContinuation F) index task claim st :
  failure_of outcome = Some (e, msg) →
  settle self rl outcome c0 index task claim st = (settle_failure self index task claim msg ≫= or_fail e) st.
Proof. by destruct outcome; intros [= <- <-]. Qed.

Lemma failure_quiet index task c msg s0 s b j :
  let inst := instance_id s in
  let t := at_task_id task in
  claim_worker_id c = worker_id self → idle inst s0 b →
  let r := settle_failure self index task (MkActiveClaim inst t (worker_id self)) msg
    (s, MkWorld (claimed inst t c b) j) in
  match retried_under index t s with
  | Some pol => ∀ due s1, record_retry (clock j) t pol msg (Some (worker_id self)) s = Some (due, s1) →
      ∃ b' j', idle inst (clear_task_deadline s1) b' ∧
        r = (Ok (Some Status.InProgress), (clear_task_deadline s1, MkWorld b' j'))
  | None => ∃ b' j', idle inst (mark_failed (clock j) msg s) b' ∧
      r = (Ok None, (mark_failed (clock j) msg s, MkWorld b' j'))
  end.
Proof.
  intros inst t Hc (Hs & Hcl & Hsig) r. subst r. unfold settle_failure, retried_under.
  assert (Hfail : ∃ b' j', idle inst (mark_failed (clock j) msg s) b' ∧
    (fail_workflow (MkActiveClaim inst t (worker_id self)) msg ≫= λ _, mret None)
      (s, MkWorld (claimed inst t c b) j) = (Ok (@None Status.WorkflowStatus), (mark_failed (clock j) msg s, MkWorld b' j'))).
  { destruct (save_fenced_quiet inst t c (mark_failed (clock j) msg s) b (S j)) as (b' & Hcl' & Hsig' & Hs' & Hsave); [done|].
    exists b', (3 + j)%nat. split; [split; [by rewrite Hs', Hs, insert_singleton_eq|split; congruence]|].
    unfold fail_workflow. erewrite run_bind; [reflexivity|]. erewrite run_bind by reflexivity.
    erewrite run_bind by exact Hsave. rewrite release_quietly_run by congruence. reflexivity. }
  unfold try_schedule_retry. fold t. destruct (index_retry_policy index t) as [pol|]; cbn [mbind option_bind].
  2:{ erewrite run_bind by reflexivity. exact Hfail. }
  destruct (retries_exhausted t s) eqn:Hx.
  { erewrite run_bind.
    2:{ erewrite run_bind by reflexivity. cbn [fst]. rewrite Hx. reflexivity. }
    exact Hfail. }
  intros due s1 Hrec.
  assert (Hi1 : instance_id (clear_task_deadline s1) = inst).
  { unfold record_retry in Hrec. destruct (duration_milliseconds _); cbn in Hrec; [|done].
    destruct (checked_add_signed _ _); cbn in Hrec; [|done]. by injection Hrec as _ <-. }
  destruct (save_fenced_quiet inst t c (clear_task_deadline s1) b (S j)) as (b' & Hcl' & Hsig' & Hs' & Hsave); [done|].
  exists b', (3 + j)%nat. split; [split; [by rewrite Hs', Hs, insert_singleton_eq|split; congruence]|].
  erewrite run_bind.
  2:{ erewrite run_bind by reflexivity. cbn [fst]. rewrite Hx. erewrite run_bind by reflexivity.
      erewrite run_bind by (unfold modify_panic; cbn [fst snd store steps]; rewrite Hrec; reflexivity).
      erewrite run_bind by reflexivity. erewrite run_bind by exact Hsave. reflexivity. }
  cbn beta iota. erewrite run_bind by (apply release_quietly_run; congruence). reflexivity.
Qed.

(** *** A poll and its dispatch *)

Section Steps.
Context (g : F → Bytes → result BoxError Bytes).
Context (Hg : ∀ n ctx fn i, task_future n ctx fn i = Returned (g fn i)).
Context (Httl : ∀ n ttl, claim_ttl self ≫= duration_from_std = Some ttl → is_Some (checked_add_signed (clock n) ttl)).
Context (wf : Worker.Workflow F) (c0 := workflow_continuation wf) (hash := workflow_definition_hash wf).
Context (Hindex : workflow_task_index wf = index_build c0).
Context (Hchain : task_chain c0 = true) (Hdup : find_duplicate_id c0 = None) (Hcf : collision_free (node_ids c0)).

Lemma chain_leaves c : task_chain c = true → node_ids c = leaf_ids c.
Proof.
  induction c using continuation_ind; cbn; try done. repeat case_match; try done. intros. f_equal. by auto.
Qed.

Lemma chain_nodup : NoDup (tids (leaf_ids c0)).
Proof.
  rewrite <-chain_leaves by done. apply tids_nodup; [|done]. by apply no_duplicate_nodup.
Qed.

Lemma chain_entry pre id fn r v p tg next :
  reached pre c0 (Task id (Some fn) None r v p tg next) → TaskId_from id ∉ tids pre →
  ∃ e, index_get (workflow_task_index wf) (TaskId_from id) = Some e ∧ tn_name e = id ∧ tn_timeout e = None.
Proof.
  intros Hr Hpre. destruct (reached_config _ _ _ _ _ _ _ _ _ Hr Hpre) as (t & Hf & Hid & Hto).
  pose proof (index_lookup_config c0 (TaskId_from id) (no_duplicate_nodup _ Hdup) Hcf) as Hi. rewrite Hf in Hi.
  unfold index_get. rewrite Hindex, Hi. by eexists.
Qed.

Lemma execute_quiet pre id fn r v p tg next task c x o s b j :
  reached pre c0 (Task id (Some fn) None r v p tg next) → TaskId_from id ∉ tids pre →
  at_task_id task = TaskId_from id → at_input task = x →
  claim_worker_id c = worker_id self → signals b = ∅ → g fn x = Ok o →
  ∃ c' j', claim_worker_id c' = worker_id self ∧
  execute_with_deadline self wf task (MkActiveClaim (at_instance_id task) (TaskId_from id) (worker_id self))
    (s, MkWorld (claimed (at_instance_id task) (TaskId_from id) c b) j) =
  (Ok (OSuccess o), (clear_task_deadline s, MkWorld (claimed (at_instance_id task) (TaskId_from id) c' b) j')).
Proof.
  intros Hr Hpre Ht Hx Hc Hs Ho. destruct (chain_entry _ _ _ _ _ _ _ _ Hr Hpre) as (e & He & Hn & Hto).
  unfold execute_with_deadline. fold c0. erewrite run_bind by reflexivity. cbn [fst].
  unfold task_input. rewrite chain_no_fork by done. rewrite Ht, Hx.
  erewrite run_bind by (unfold worker_deadline; rewrite He; cbn; rewrite Hto; reflexivity).
  unfold task_name. rewrite He, Hn.
  match goal with |- context [run_with_heartbeat self ?claim None ?fut] =>
    destruct (run_with_heartbeat_quiet (at_instance_id task) (TaskId_from id) c fut b j Hc Hs Httl)
      as (c' & j' & Hc' & Hrun) end.
  exists c', (S j'). split; [done|]. erewrite run_bind.
  2:{ unfold local. cbn [snd]. rewrite Hrun. unfold fmap, io_fmap, execute_task_by_id.
      rewrite (reached_func _ _ _ _ _ _ _ _ _ Hr Hpre), Hg, Ho. cbn. reflexivity. }
  done.
Qed.

Lemma step_quiet pre id fn r v p tg next x o s b j :
  reached pre c0 (Task id (Some fn) None r v p tg next) → 
  ready (instance_id s) hash pre (Task id (Some fn) None r v p tg next) x s → idle (instance_id s) s b → g fn x = Ok o →
  let task := MkAvailableTask (instance_id s) (TaskId_from id) x (snapshot_definition_hash s) None s in
  ∃ status s' b' j', idle (instance_id s) s' b' ∧ after_task (instance_id s) hash (pre ++ [id]) next o status s' ∧
  worker_execute_task self wf task (MkWorld b j) = (Ok status, MkWorld b' j').
Proof.
  intros Hr Hrd Hidle Ho task. pose proof Hrd as [_ Hh (m & l & Hst & _ & Hrest) _ _].
  pose proof chain_nodup as Hnd.
  assert (Hpre : TaskId_from id ∉ tids pre).
  { rewrite (reached_leaves _ _ _ Hr) in Hnd. unfold tids in *. rewrite fmap_app in Hnd.
    apply NoDup_app in Hnd as (_ & Hd & _). intros Hin. apply (Hd _ Hin). apply list_elem_of_here. }
  assert (Hv : validate_task_preconditions hash (workflow_task_index wf) task s = Ok false).
  { unfold validate_task_preconditions. cbn. rewrite bool_decide_false by (rewrite Hh; tauto).
    destruct (chain_entry _ _ _ _ _ _ _ _ Hr Hpre) as (e & He & _). unfold index_get in He.
    unfold index_contains. rewrite He, bool_decide_true by done. cbn.
    unfold get_task_result. rewrite Hst. by rewrite (Hrest id) by apply list_elem_of_here. }
  unfold worker_execute_task. fold hash.
  edestruct (dispatch_quiet hash (workflow_task_index wf) task) as (c & Hc & ->); [apply Hidle|apply Hidle|exact Hv|].
  cbn [at_instance_id at_task_id at_snapshot task store steps].
  destruct (execute_quiet pre id fn r v p tg next task c x o s b (3 + j)) as (c' & j' & Hc' & Hex); [done..|apply Hidle|done|].
  unfold with_snapshot. erewrite run_bind by exact Hex.
  destruct (settle_quiet c0 (workflow_task_index wf) (instance_id s) hash pre id fn r v p tg next task c' x o s
    (clear_task_deadline s) b j') as (status & s' & b' & j'' & Hidle' & Haft & Hset); try done.
  { destruct Hrd. by constructor. }
  do 4 eexists. split; [exact Hidle'|]. split; [exact Haft|].
  unfold settle_execution_result. subst c0 task. cbn [at_instance_id]. by rewrite Hset.
Qed.

(** A poll, then each offered task to its end. *)
Fixpoint run_batch (tasks : list AvailableTask) : io W Fault (list (TaskId * Status.WorkflowStatus)) :=
  match tasks with
  | [] => mret []
  | task :: tasks =>
      status ← worker_execute_task self wf task;
      rest ← run_batch tasks;
      mret ((at_task_id task, status) :: rest)
  end.
Fixpoint run_cycles (limit n : nat) : io W Fault (list (TaskId * Status.WorkflowStatus)) :=
  match n with
  | O => mret []
  | S n =>
      batch ← poll_batch self limit;
      done ← run_batch batch;
      rest ← run_cycles limit n;
      mret (done ++ rest)
  end.

(** The statuses of a chain's dispatches: each but the last leaves work. *)
Fixpoint chain_statuses (ids : list string) : list (TaskId * Status.WorkflowStatus) :=
  match ids with
  | [] => []
  | id :: ids =>
      (TaskId_from id, match ids with [] => Status.Completed | _ => Status.InProgress end) :: chain_statuses ids
  end.

Lemma cycle_quiet limit pre id fn r v p tg next x o s b j :
  reached pre c0 (Task id (Some fn) None r v p tg next) → worker_tags self = [] →
  ready (instance_id s) hash pre (Task id (Some fn) None r v p tg next) x s → idle (instance_id s) s b → g fn x = Ok o →
  ∃ status s' b' j', idle (instance_id s) s' b' ∧ after_task (instance_id s) hash (pre ++ [id]) next o status s' ∧
  (poll_batch self limit ≫= run_batch) (MkWorld b j) = (Ok [(TaskId_from id, status)], MkWorld b' j').
Proof.
  intros Hr Htags Hrd Hidle Ho.
  destruct (step_quiet pre id fn r v p tg next x o s b (S j) Hr Hrd Hidle Ho)
    as (status & s' & b' & j' & Hidle' & Haft & Hstep).
  exists status, s', b', j'. split; [done|]. split; [done|].
  destruct Hrd as [_ Hh (m & l & Hst & _ & Hrest) Hret Hin].
  assert (Hpoll : poll_batch self limit (MkWorld b j) = (Ok
    [MkAvailableTask (instance_id s) (TaskId_from id) x (snapshot_definition_hash s) None s], MkWorld b (S j))).
  { unfold poll_batch. erewrite run_bind.
    2:{ apply quietly_run. cbn [steps store]. rewrite quiet. cbn.
        eapply poll_offers; [exact Hidle|exact Hst|apply Hrest, list_elem_of_here|done..]. }
    done. }
  erewrite run_bind by exact Hpoll. cbn [run_batch]. erewrite run_bind by exact Hstep. done.
Qed.

Context (f : string → Bytes → result BoxError Bytes).
Context (Hf : ∀ id fn i, (id, Some fn) ∈ task_funcs c0 → f id i = g fn i).

Lemma reached_task_func pre c id fn r v p tg next :
  reached pre c (Task id (Some fn) None r v p tg next) → (id, Some fn) ∈ task_funcs c.
Proof.
  revert c; induction pre as [|y pre IH]; intros c; cbn; [intros ->; apply list_elem_of_here|].
  intros (? & ? & ? & ? & ? & n0 & -> & Hr). cbn. apply list_elem_of_further. auto.
Qed.

Lemma cycles_quiet limit c pre x o s b j :
  worker_tags self = [] → reached pre c0 c → task_chain c = true → evaluates f eq c x o →
  ready (instance_id s) hash pre c x s → idle (instance_id s) s b →
  ∃ s' b' j', idle (instance_id s) s' b' ∧ state s' = Completed o ∧
  run_cycles limit (length (leaf_ids c)) (MkWorld b j) = (Ok (chain_statuses (leaf_ids c)), MkWorld b' j').
Proof.
  intros Htags. revert pre x s b j.
  induction c as [id fn to r v p tg n IH| | | | | |] using continuation_ind; try done.
  intros pre x s b j Hr Hch Hev Hrd Hidle.
  pose proof Hch as (? & fn' & ? & ? & ? & ? & ? & [= <- -> -> <- <- <- <- <-] & Hn)%chain_node.
  apply evaluates_task in Hev as (y & Hy & Hco). apply continues_inv in Hco.
  rewrite (Hf id fn') in Hy by (by eapply reached_task_func).
  destruct (cycle_quiet limit pre id fn' r v p tg n x y s b j Hr Htags Hrd Hidle Hy)
    as (status & s' & b' & j' & Hidle' & Haft & Hcyc).
  assert (Hrun : ∀ k, run_cycles limit (S k) (MkWorld b j) =
    (rest ← run_cycles limit k; mret ((TaskId_from id, status) :: rest)) (MkWorld b' j')).
  { intros k. cbn [run_cycles]. unfold mbind at 1, io_bind at 1. unfold mbind, io_bind in Hcyc |- *.
    destruct (poll_batch self limit (MkWorld b j)) as [[batch|] ?]; [|done]. by rewrite Hcyc. }
  cbn [leaf_ids length]. rewrite Hrun. destruct n as [n|]; cbn in Haft, Hn, Hco.
  - destruct Haft as [-> Hrd']. pose proof (ready_instance _ _ _ _ _ _ Hrd') as Hi'. rewrite <-Hi' in Hrd', Hidle'.
    destruct (IH (pre ++ [id]) y s' b' j') as (s'' & b'' & j'' & Hidle'' & Hst & Hrest); try done.
    { by eapply reached_snoc. }
    rewrite Hi' in Hidle''. exists s'', b'', j''. split; [done|]. split; [done|].
    erewrite run_bind by exact Hrest. cbn. by apply chain_node in Hn as (? & ? & ? & ? & ? & ? & ? & -> & _).
  - subst o. destruct Haft as (-> & Hi & Hst). by exists s', b', j'.
Qed.
End Steps.
End Chain.

(** ** Liveness *)

(** C11. Liveness: one worker alone on an in-memory store completes a chain of
    tasks.  After the workflow is started, polling as many times as there are tasks
    and running what each poll offers (under any number of heartbeats, with any
    batch limit) executes each task exactly once, in order, every dispatch but the
    last reporting [InProgress] and the last [Completed], and leaves the stored
    snapshot completed with the output the workflow's meaning gives it, no claim
    held. *)
Theorem worker_completes_chain
    `{Sha256, Chrono, FloatOps, Display, SerdeJson, EnvelopeCodec, MapIter, !MapIterLaws}
    {F : Type} `{Environment InMemoryBackend, WorkerRuntime F} (self : PooledWorker) (wf : Worker.Workflow F)
    (f : string → Bytes → result BoxError Bytes) (g : F → Bytes → result BoxError Bytes)
    (limit : nat) (id : string) (input o : Bytes) (w : World InMemoryBackend) :
  let c := workflow_continuation wf in
  (∀ n b, others n b = b) →
  (∀ n ctx fn i, task_future n ctx fn i = Returned (g fn i)) →
  (∀ id fn i, (id, Some fn) ∈ task_funcs c → f id i = g fn i) →
  (∀ n ttl, claim_ttl self ≫= duration_from_std = Some ttl → is_Some (checked_add_signed (clock n) ttl)) →
  workflow_task_index wf = index_build c → worker_tags self = [] →
  task_chain c = true → find_duplicate_id c = None → collision_free (node_ids c) → evaluates f eq c input o →
  validate_instance_id id = Ok () →
  snapshots (store w) = ∅ → claims (store w) = ∅ → signals (store w) = ∅ →
  ∃ s w1 s' w2,
    check_then_prepare id (workflow_definition_hash wf) input (first_task_hint c) Conflict.Fail w = (Ok (Fresh s), w1) ∧
    run_cycles self wf limit (length (leaf_ids c)) w1 = (Ok (chain_statuses (leaf_ids c)), w2) ∧
    snapshots (store w2) !! id = Some s' ∧ state s' = Completed o ∧ claims (store w2) = ∅.
Proof.
  intros c Hq Hg Hf Httl Hix Htags Hch Hd Hcf He Hid Hs Hc Hsig.
  rewrite (fresh_start Hq id _ input (first_task_hint c) w Hid) by (by rewrite Hs). cbn zeta.
  set (s := first_snapshot _ _ _ _ _). set (w1 := MkWorld _ _).
  destruct (cycles_quiet Hq self g Hg Httl wf Hix Hch Hd Hcf f Hf limit c [] input o s (store w1) (steps w1))
    as (s' & b' & j' & (Hs' & Hc' & _) & Hst & Hrun); try done.
  - constructor; try done. exists ∅, None. split; [|split; [by intros ? ?%not_elem_of_nil|done]].
    by apply chain_node in Hch as (? & ? & ? & ? & ? & ? & ? & -> & _).
  - split; [|done]. cbn. by rewrite Hs, insert_empty.
  - exists s, w1, s', (MkWorld b' j'). split; [done|]. split; [exact Hrun|]. cbn.
    rewrite Hs'. split; [apply lookup_singleton_eq|done].
Qed.

(** C32. How a worker settles a failed task (an error, a panic or a timeout): while
    the task's policy leaves retries, the attempt is recorded on the stored snapshot
    with its error, the worker's id and the time of the next attempt, and the
    workflow goes on; without a policy or with the retries used up, the stored
    workflow fails with the error's message and the dispatch returns the error.
    Either way the claim is given back and any deadline is cleared. *)
Theorem worker_failure_settled
    `{Sha256, Chrono, FloatOps, Display, SerdeJson, EnvelopeCodec, MapIter}
    {F : Type} `{Environment InMemoryBackend, WorkerRuntime F} (self : PooledWorker) (wf : Worker.Workflow F)
    (outcome : ExecutionOutcome) (e : RuntimeError) (msg : string) (task : AvailableTask) (c : TaskClaim)
    (s0 s : WorkflowSnapshot) (b : InMemoryBackend) (j : nat) :
  let inst := instance_id s in
  let t := at_task_id task in
  (∀ n b, others n b = b) → failure_of outcome = Some (e, msg) →
  claim_worker_id c = worker_id self → idle inst s0 b →
  let r := settle_execution_result self outcome wf task (MkActiveClaim inst t (worker_id self))
    (s, MkWorld (claimed inst t c b) j) in
  match retried_under (workflow_task_index wf) t s with
  | Some pol => ∀ due s1, record_retry (clock j) t pol msg (Some (worker_id self)) s = Some (due, s1) →
      ∃ b' j', idle inst (clear_task_deadline s1) b' ∧
        r = (Ok Status.InProgress, (clear_task_deadline s1, MkWorld b' j'))
  | None => ∃ b' j', idle inst (mark_failed (clock j) msg s) b' ∧
      r = (Err (Rt e), (mark_failed (clock j) msg s, MkWorld b' j'))
  end.
Proof.
  intros inst t Hq Hf Hc Hidle r. subst r. unfold settle_execution_result. rewrite (settle_failed self _ _ e msg) by done.
  pose proof (failure_quiet Hq self (workflow_task_index wf) task c msg s0 s b j Hc Hidle) as Hq'. cbn zeta in Hq'.
  fold inst t in Hq'. destruct (retried_under _ t s) as [pol|].
  - intros due s1 Hrec. destruct (Hq' due s1 Hrec) as (b' & j' & Hi & Hr). exists b', j'. split; [done|].
    by erewrite run_bind by exact Hr.
  - destruct Hq' as (b' & j' & Hi & Hr). exists b', j'. split; [done|]. by erewrite run_bind by exact Hr.
Qed.

Module ChainExample.
Import Toy WorkflowExample ExecExample Examples InMemoryExample DurabilityExample.

(** One second per step for a while; two heartbeats during every task. *)
#[export] Instance env : Environment InMemoryBackend :=
  {| clock n := Z.min (Z.of_nat n) 1000 * ns_per_sec; others _ b := b |}.
#[export] Instance runtime : WorkerRuntime string :=
  {| task_future n ctx fn i := Returned (append_name fn i); heartbeats _ _ := 2%nat |}.

Definition worker : PooledWorker := worker_new "w".
Definition step (id : string) (n : option (WorkflowContinuation string)) : WorkflowContinuation string :=
  Task id (Some id) None None None None [] n.
Definition flow (c : WorkflowContinuation string) : Worker.Workflow string :=
  MkWorkflow "flow" None hash c (index_build c).
Definition abc : WorkflowContinuation string := step "a" (Some (step "b" (Some (step "c" None)))).

Lemma worker_completes_chain_witness :
  ∃ s w1 s' w2,
    check_then_prepare "i" hash (as_bytes "in") (first_task_hint abc) Conflict.Fail w0 = (Ok (Fresh s), w1) ∧
    run_cycles worker (flow abc) 1 3 w1 = (Ok (chain_statuses ["a"; "b"; "c"]), w2) ∧
    snapshots (store w2) !! "i" = Some s' ∧ state s' = Completed (as_bytes "in a b c") ∧ claims (store w2) = ∅.
Proof.
  apply (worker_completes_chain worker (flow abc) append_name append_name 1 "i" (as_bytes "in")
    (as_bytes "in a b c") w0); try reflexivity.
  - cbn. intros id fn i Hin. by assert (id = fn) as -> by set_solver.
  - cbn. intros n ttl. case_bool_decide; [|done]. intros [= <-]. case_bool_decide as Hb; [eauto|].
    exfalso. apply Hb. unfold MIN_UTC_ns, MAX_UTC_ns, from_mins, from_secs, ns_per_sec. lia.
  - apply (bool_decide_unpack _). vm_compute. exact I.
  - apply meaning. vm_compute. reflexivity.
Defined.

(** A task that may be retried twice fails with a panic. *)
Definition two_retries : RetryPolicy := MkRetryPolicy 2 (from_secs 1) f32_two None.
Definition risky : WorkflowContinuation string := Task "a" (Some "a") None (Some two_retries) None None [] None.
Definition at_a : WorkflowSnapshot := first_snapshot 0 "i" hash (as_bytes "in") (first_task_hint risky).
Definition offer : AvailableTask := MkAvailableTask "i" (TaskId_from "a") (as_bytes "in") hash None at_a.
Definition held : TaskClaim := MkTaskClaim "i" (TaskId_from "a") "w" 0 None.

Lemma worker_failure_settled_witness :
  retried_under (index_build risky) (TaskId_from "a") at_a = Some two_retries ∧
  ∃ s1 b' j', idle "i" (clear_task_deadline s1) b' ∧
    settle_execution_result worker (OPanic (PayloadStr "boom")) (flow risky) offer
      (MkActiveClaim "i" (TaskId_from "a") "w")
      (at_a, MkWorld (claimed "i" (TaskId_from "a") held (with_snapshots {["i" := at_a]} backend_new)) 5) =
    (Ok Status.InProgress, (clear_task_deadline s1, MkWorld b' j')).
Proof.
  pose proof (worker_failure_settled worker (flow risky) (OPanic (PayloadStr "boom"))
    (RWorkflow (WF.TaskPanicked "boom")) "boom" offer held at_a at_a (with_snapshots {["i" := at_a]} backend_new) 5
    (λ _ _, eq_refl) eq_refl eq_refl (conj eq_refl (conj eq_refl eq_refl))) as Hs.
  assert (Hp : retried_under (index_build risky) (TaskId_from "a") at_a = Some two_retries) by (vm_compute; reflexivity).
  split; [exact Hp|]. change (workflow_task_index (flow risky)) with (index_build risky) in Hs.
  change (at_task_id offer) with (TaskId_from "a") in Hs. rewrite Hp in Hs.
  destruct (record_retry (clock 5) (TaskId_from "a") two_retries "boom" (Some "w") at_a) as [[due s1]|] eqn:Hrec.
  - exists s1. exact (Hs due s1 Hrec).
  - vm_compute in Hrec. discriminate.
Defined.
End ChainExample.
