(* ===== verification/WorkerDeviations.v ===== *)
(** * Where the worker differs from the executors

    Concrete workflows on which one worker, polling and dispatching until nothing
    is offered, does not compute what the in-process executors compute; each is
    evaluated, and the executor's result stands beside it. *)

From S2P Require Import Prelude Hash32 SnapshotFormat Task Workflow Serializable TaskIndex Snapshot Backend InMemory ClaimStore Runtime Lifecycle SyncExec Checkpoint Durability WorkerNav Worker WorkerLoop WorkerProps WorkerChain.

Module Deviations.
Import Toy WorkflowExample ExecExample Examples InMemoryExample DurabilityExample ChainExample.

(** Each poll's offers with their inputs, and how each dispatch ended. *)
Fixpoint watch_batch (wf : Worker.Workflow string) (tasks : list AvailableTask) :
    io (World InMemoryBackend) Fault (list (TaskId * Bytes * result Fault Status.WorkflowStatus)) :=
  match tasks with
  | [] => mret []
  | task :: tasks => λ w,
      let '(r, w) := worker_execute_task worker wf task w in
      (rest ← watch_batch wf tasks; mret ((at_task_id task, at_input task, r) :: rest)) w
  end.
Fixpoint watch (wf : Worker.Workflow string) (n : nat) :
    io (World InMemoryBackend) Fault (list (TaskId * Bytes * result Fault Status.WorkflowStatus)) :=
  match n with
  | O => mret []
  | S n =>
      batch ← poll_batch worker 1;
      done ← watch_batch wf batch;
      rest ← watch wf n;
      mret (done ++ rest)
  end.

(** [n] polls of a freshly started workflow. *)
Definition observe (n : nat) (c : WorkflowContinuation string) :
    list (TaskId * Bytes * result Fault Status.WorkflowStatus) * option WorkflowSnapshotState :=
  match check_then_prepare "i" hash (as_bytes "in") (first_task_hint c) Conflict.Fail w0 with
  | (Ok (Fresh _), w) =>
      let '(r, w) := watch (flow c) n w in
      (match r with Ok l => l | Err _ => [] end, state <$> snapshots (store w) !! "i")
  | _ => ([], None)
  end.
Definition executor (c : WorkflowContinuation string) : result RuntimeError Bytes :=
  (execute_continuation_sync c (as_bytes "in") 0%nat).1.

(** [a → (b | c) → j]. *)
Definition forked : WorkflowContinuation string :=
  step "a" (Some (Fork "f" [step "b" None; step "c" None] (Some (step "j" None)))).
(** A workflow that begins with a delay, and one with two delays in a row. *)
Definition delay_first : WorkflowContinuation string := Delay "d" 5 (Some (step "b" None)).
Definition two_delays : WorkflowContinuation string :=
  step "a" (Some (Delay "d" 5 (Some (Delay "e" 5 (Some (step "b" None)))))).
(** A child workflow and a branch in the middle. *)
Definition with_child : WorkflowContinuation string :=
  step "a" (Some (ChildWorkflow "ch" (step "b" None) (Some (step "c" None)))).
Definition with_branch : WorkflowContinuation string :=
  step "a" (Some (Branch "route" (Some "route::key_fn") [("eu", step "b" None)] None None)).

Definition not_found (id : string) : Fault := Rt (RWorkflow (WF.TaskNotFound (to_hex (task_hash (TaskId_from id))))).

(** A fork under the worker: its branches run one after the other, and every
    branch but the first is offered the output of the branch before it instead of
    the fork's input, so that the join receives other results than the executors
    give it. *)
Theorem worker_fork_chains_branches :
  let '(log, st) := observe 4 forked in
  log.*1 = [(TaskId_from "a", as_bytes "in"); (TaskId_from "b", as_bytes "in a");
    (TaskId_from "c", as_bytes "in a b"); (TaskId_from "j", as_bytes "in a b c")] ∧
  st = Some (Completed (as_bytes "b=in a b;c=in a b c; j")) ∧
  executor forked = Ok (as_bytes "b=in a b;c=in a c; j").
Proof. vm_compute. repeat split. Qed.

(** Nodes the worker cannot run: a delay that no task precedes (first in the
    workflow, or after another delay) is dispatched as a task and fails the
    workflow; a branch is dispatched over and over and never runs; after a child's
    last task nothing is offered any more.  The executors complete all four. *)
Theorem worker_cannot_run :
  (observe 3 delay_first).1 = [(TaskId_from "d", as_bytes "in", Err (not_found "d"))] ∧
  is_failed <$> (observe 3 delay_first).2 = Some true ∧ executor delay_first = Ok (as_bytes "in b") ∧
  (observe 3 two_delays).1.*2 = [Ok Status.InProgress; Err (not_found "e")] ∧
  is_failed <$> (observe 3 two_delays).2 = Some true ∧ executor two_delays = Ok (as_bytes "in a b") ∧
  (observe 4 with_branch).1.*2 =
    [Ok Status.InProgress; Err (not_found "route"); Err (not_found "route"); Err (not_found "route")] ∧
  executor with_branch = Ok (as_bytes "eu=in a b") ∧
  (observe 4 with_child).1.*2 = [Ok Status.InProgress; Ok Status.InProgress] ∧
  is_in_progress <$> (observe 4 with_child).2 = Some true ∧ executor with_child = Ok (as_bytes "in a b c").
Proof. vm_compute. repeat split. Qed.
End Deviations.
