(* ===== verification/Distributed.v ===== *)
(** * The checkpointing runner ([sayiir-runtime/src/runner/distributed.rs])

    [CheckpointingRunner] runs a whole workflow in one process: the durable executor
    again, with the tasks' own functions instead of a callback, position hints read
    from the task index, and forks whose branches are spawned on the runtime.

    A spawned branch works on its own snapshot of the store.  The scheduler decides
    in which order the branches finish; a branch runs from its start to its end
    between two others, and the environment acts between any two of its steps.

    Theorems: on trees without forks and branches the runner is the durable
    executor, step by step, over any backend and environment; a fresh run of any
    tree that does not wait computes the workflow's meaning; a crashed run is
    resumed to it. *)

From S2P Require Import Prelude Hash32 SnapshotFormat Task Workflow TaskIndex Serializable Snapshot Backend InMemory Runtime Lifecycle SyncExec Checkpoint Client Durability ClaimStore WorkerNav Worker WorkerProps.

(** The text of tokio's [JoinError] for a panicked task. *)
Class Tokio : Type := join_error : nat → string.

(** ** Data *)

Record CheckpointingRunner : Type := MkRunner { conflict_policy : Conflict.ConflictPolicy }.

(** [new] and [from_shared], [with_conflict_policy]. *)
Definition runner_new : CheckpointingRunner := MkRunner Conflict.Fail.
Definition runner_with_conflict_policy (policy : Conflict.ConflictPolicy) (self : CheckpointingRunner) :
    CheckpointingRunner := MkRunner policy.

Section Runner.
Context `{Sha256, Chrono, FloatOps, Display, SerdeJson, EnvelopeCodec, TaskTiming, Tokio}.
Context {B F : Type} `{PersistentBackend B, Environment B, AsyncRuntime F}.
Abbreviation Exec := (io (@ExecState B) Fault).

(** [|i| func.run(i)]: the callback the helpers are given. *)
Definition func_run (func : F) : TaskCallback := λ n _ i, run_func n func i.

(** ** Tasks *)

(** [TaskHint::new(&next_name, task_index.priority(..), task_index.tags(..))]. *)
Definition index_hint (index : TaskIndex) (n : WorkflowContinuation F) : TaskHint :=
  let next_name := first_task_id n in
  let next_hash := TaskId_from next_name in
  TaskHint_new next_name (index_priority index next_hash) (index_tags index next_hash).

Definition advance_to (index : TaskIndex) (next : option (WorkflowContinuation F)) : Exec unit :=
  match next with
  | Some n =>
      modify (set_task_hint (index_hint index n)) ≫= λ _,
      modify_now (λ t, update_position t (AtTask (TaskId_from (first_task_id n))))
  | None => mret ()
  end.

(** The [Task] arm. *)
Definition runner_task_step (index : TaskIndex) (id : string) (func : F) (timeout : option Duration)
    (retry_policy : option RetryPolicy) (next : option (WorkflowContinuation F)) (input : Bytes) : Exec Bytes :=
  guards (Some (TaskId_from id)) ≫= λ _,
  set_deadline_if_needed id timeout ≫= λ _,
  output ← retry_with_checkpoint id retry_policy timeout true
    (let _ := func_run func in execute_or_skip_task id input);
  advance_to index next ≫= λ _,
  save ≫= λ _,
  guards None ≫= λ _,
  mret output.

(** [key_fn.run(..)], [decode_string], and the choice of the branch. *)
Definition run_key_fn (key_fn : F) (id : string) (input : Bytes) : Exec Bytes :=
  let _ := func_run key_fn in user_task (key_fn_id id) input.
Definition choose_branch {A} (f : WorkflowContinuation F → A) (id : string) (key_bytes : Bytes)
    (branches : list (string * WorkflowContinuation F)) (dflt : option (WorkflowContinuation F)) :
    result RuntimeError (string * A) :=
  key ← map_err from_box_error (decode_string key_bytes);
  chosen ← ok_or
    (match get_branch f key branches with
     | Some b => Some b
     | None => match dflt with Some d => Some (f d) | None => None end
     end)
    (RWorkflow (WF.BranchKeyNotFound id key));
  Ok (key, chosen).

(** ** Spawned branches *)

(** [set.join_next()]: a panicked task is a [JoinError]. *)
Definition join_fault (n : nat) (e : Fault) : Fault :=
  match e with Panic => Rt (RJoin (join_error n)) | e => e end.

(** The [while let] of [execute_fork_branches_parallel], the branches in the order
    in which they finish. *)
Fixpoint join_parallel (spawned : list (string * Exec Bytes)) (results : list (string * Bytes))
    (max_wake_at : option DateTime) : Exec ForkBranchOutcome :=
  match spawned with
  | [] => mret (results, max_wake_at)
  | (name, branch) :: spawned => λ st,
      match branch st with
      | (Ok output, st) => join_parallel spawned (results ++ [(name, output)]) max_wake_at st
      | (Err (Rt (RWorkflow (WF.Waiting wake_at))), st) =>
          join_parallel spawned results (later max_wake_at wake_at) st
      | (Err e, st) => (Err (join_fault (steps st.2) e), st)
      end
  end.

(** [execute_fork_branches_parallel]; a branch comes with its name. *)
Definition execute_fork_branches_parallel (branches : list (string * Exec Bytes)) : Exec ForkBranchOutcome :=
  st ← get_state;
  let cached (b : string * Exec Bytes) := get_task_result (TaskId_from b.1) st.1 in
  let done := omap (λ b, (λ r, (b.1, tr_output r)) <$> cached b) branches in
  let spawned := List.filter (λ b, bool_decide (cached b = None)) branches in
  join_parallel (finish_order (steps st.2) spawned) done None.

(** [execute_nested_fork_branches]: any error ends it. *)
Fixpoint join_nested (spawned : list (string * Exec Bytes)) (results : list (string * Bytes)) :
    Exec (list (string * Bytes)) :=
  match spawned with
  | [] => mret results
  | (name, branch) :: spawned => λ st,
      match branch st with
      | (Ok output, st) => join_nested spawned (results ++ [(name, output)]) st
      | (Err e, st) => (Err (join_fault (steps st.2) e), st)
      end
  end.
Definition execute_nested_fork_branches (branches : list (string * Exec Bytes)) : Exec (list (string * Bytes)) :=
  st ← get_state; join_nested (finish_order (steps st.2) branches) [].

(** The loop of [execute_branch_with_checkpoint], on its own snapshot. *)
Fixpoint runner_branch_loop (inst : string) (c : WorkflowContinuation F) (input : Bytes) {struct c} : Exec Bytes :=
  let finish next step :=
    finish (runner_branch_loop inst) (λ reason, save_branch_park_checkpoint reason inst) next step in
  match c with
  | Task id func timeout retry_policy _ _ _ next =>
      func ← lift (ok_or func (RWorkflow (WF.TaskNotImplemented id)));
      output ← retry_with_checkpoint id retry_policy timeout false
        (let _ := func_run func in branch_execute_or_skip_task id input timeout inst);
      finish next (SContinue output)
  | Delay id duration next =>
      step ← cached_or id
        (wake_at ← compute_wake_at duration;
         mret (SPark (ParkDelay (TaskId_from id) wake_at None input)));
      finish next step
  | AwaitSignal id signal_name timeout next =>
      step ← cached_or id
        (wake_at ← compute_signal_timeout timeout;
         mret (SPark (ParkSignal (TaskId_from id) signal_name wake_at None)));
      finish next step
  | Fork _ branches join =>
      branch_results ← execute_nested_fork_branches
        ((λ b, (cont_id b, with_own_snapshot inst (runner_branch_loop inst b input))) <$> branches);
      step ← join_step join branch_results;
      finish join step
  | Branch id (Some key_fn) branches dflt next =>
      step ← cached_or id
        (key_bytes ← run_key_fn key_fn id input;
         chosen ← lift (choose_branch (λ b, with_own_snapshot inst (runner_branch_loop inst b input))
           id key_bytes branches dflt);
         branch_output ← chosen.2;
         envelope_bytes ← lift (map_err from_box_error (encode_branch_envelope chosen.1 branch_output));
         modify_now (λ t, mark_task_completed t (TaskId_from id) envelope_bytes) ≫= λ _,
         save ≫= λ _,
         mret (SContinue envelope_bytes));
      finish next step
  | Branch id None _ _ _ => fail (RWorkflow (WF.TaskNotImplemented (key_fn_id id)))
  | Loop id body max_iterations on_max next =>
      step ← cached_or id
        (s ← snap;
         let cfg := MkLoopConfig id body max_iterations on_max (loop_iteration (TaskId_from id) s) in
         SContinue <$> run_loop_async Rt (CheckpointingLoopHooks false) cfg
           (λ i, with_own_snapshot inst (runner_branch_loop inst body i)) input);
      finish next step
  | ChildWorkflow id child next =>
      step ← cached_or id
        (output ← with_own_snapshot inst (runner_branch_loop inst child input);
         modify_now (λ t, mark_task_completed t (TaskId_from id) output) ≫= λ _,
         save ≫= λ _,
         mret (SContinue output));
      finish next step
  end.

(** [execute_branch_with_checkpoint]. *)
Definition execute_branch_with_checkpoint (inst : string) (c : WorkflowContinuation F) (input : Bytes) :
    Exec Bytes := with_own_snapshot inst (runner_branch_loop inst c input).

(** ** The executor *)

(** [execute_with_checkpointing]. *)
Fixpoint execute_with_checkpointing (index : TaskIndex) (c : WorkflowContinuation F) (input : Bytes) {struct c} :
    Exec Bytes :=
  let finish next step :=
    finish (execute_with_checkpointing index) save_park_checkpoint next step in
  match c with
  | Task id (Some func) timeout retry_policy _ _ _ next =>
      output ← runner_task_step index id func timeout retry_policy next input;
      finish next (SContinue output)
  | Task id None _ _ _ _ _ _ => fail (RWorkflow (WF.TaskNotImplemented id))
  | Delay id duration next =>
      guards (Some (TaskId_from id)) ≫= λ _,
      s ← snap;
      step ←
        match get_task_result (TaskId_from id) s with
        | Some _ => mret (SContinue input)
        | None =>
            wake_at ← compute_wake_at duration;
            mret (SPark (ParkDelay (TaskId_from id) wake_at (first_task_hint <$> next) input))
        end;
      finish next step
  | AwaitSignal id signal_name timeout next =>
      guards (Some (TaskId_from id)) ≫= λ _,
      s ← snap;
      step ←
        match get_task_result (TaskId_from id) s with
        | Some _ => mret (SContinue (default input (get_task_result_bytes (TaskId_from id) s)))
        | None =>
            payload ← run (rt (call (λ _, consume_event (instance_id s) signal_name)));
            match payload with
            | Some payload =>
                modify_now (λ t, mark_task_completed t (TaskId_from id) payload) ≫= λ _,
                advance_to index next ≫= λ _,
                save ≫= λ _,
                s ← snap;
                mret (SContinue (default input (get_task_result_bytes (TaskId_from id) s)))
            | None =>
                wake_at ← compute_signal_timeout timeout;
                mret (SPark (ParkSignal (TaskId_from id) signal_name wake_at (first_task_hint <$> next)))
            end
        end;
      finish next step
  | Fork fork_id branches join =>
      guards None ≫= λ _,
      s ← snap;
      branch_results ←
        match collect_cached_branches branches s with
        | Some cached => mret cached
        | None =>
            outcome ← execute_fork_branches_parallel
              ((λ b, (cont_id b, execute_branch_with_checkpoint (instance_id s) b input)) <$> branches);
            settle_fork_outcome fork_id outcome join
        end;
      step ← join_step join branch_results;
      finish join step
  | Branch id (Some key_fn) branches dflt next =>
      guards (Some (TaskId_from id)) ≫= λ _,
      s ← snap;
      step ← cached_or id
        (key_bytes ← run_key_fn key_fn id input;
         chosen ← lift (choose_branch
           (λ b, execute_branch_with_checkpoint (instance_id s) b input) id key_bytes branches dflt);
         branch_output ← chosen.2;
         envelope_bytes ← lift (map_err from_box_error (encode_branch_envelope chosen.1 branch_output));
         modify_now (λ t, mark_task_completed t (TaskId_from id) envelope_bytes) ≫= λ _,
         save ≫= λ _,
         mret (SContinue envelope_bytes));
      finish next step
  | Branch id None _ _ _ => fail (RWorkflow (WF.TaskNotImplemented (key_fn_id id)))
  | Loop id body max_iterations on_max next =>
      guards (Some (TaskId_from id)) ≫= λ _,
      step ← cached_or id
        (s ← snap;
         let start := loop_iteration (TaskId_from id) s in
         let cfg := MkLoopConfig id body max_iterations on_max start in
         final_output ← main_loop cfg (execute_with_checkpointing index body)
           (Z.to_nat (max_iterations - start)) start input;
         match final_output with
         | Some output => mret (SContinue output)
         | None => fail (max_iterations_exceeded id max_iterations)
         end);
      finish next step
  | ChildWorkflow id child next =>
      guards (Some (TaskId_from id)) ≫= λ _,
      step ← cached_or id
        (output ← execute_with_checkpointing index child input;
         modify_now (λ t, mark_task_completed t (TaskId_from id) output) ≫= λ _,
         save ≫= λ _,
         mret (SContinue output));
      finish next step
  end.

(** ** Running and resuming *)

(** Executing from a snapshot, then [finalize_execution]. *)
Definition execute_and_finalize (wf : Worker.Workflow F) (input : Bytes) (s : WorkflowSnapshot) :
    io (World B) Fault Status.WorkflowStatus := λ w,
  let '(r, (s, w)) :=
    execute_with_checkpointing (workflow_task_index wf) (workflow_continuation wf) input (s, w) in
  let finalize r := io_map_err Rt ((λ x, x.1.1) <$> finalize_execution r s) w in
  match r with
  | Ok output => finalize (Ok output)
  | Err (Rt e) => finalize (Err e)
  | Err fault => (Err fault, w)
  end.

(** [run]. *)
Definition runner_run {I} `{InputCodec I} (self : CheckpointingRunner) (wf : Worker.Workflow F) (id : string)
    (input : I) : io (World B) Fault Status.WorkflowStatus :=
  let hash := workflow_definition_hash wf in
  existing ← io_map_err Rt (check_existing_instance id hash (conflict_policy self));
  match existing with
  | Some (status, _) => mret status
  | None =>
      input_bytes ← lift_result (map_err (λ e, Rt (from_box_error e)) (encode_input input));
      outcome ← io_map_err Rt (prepare_run id hash input_bytes (first_task_hint (workflow_continuation wf))
        (conflict_policy self));
      match outcome with
      | Fresh s => execute_and_finalize wf input_bytes s
      | ExistingStatus status _ => mret status
      end
  end.

(** [resume]. *)
Definition runner_resume (wf : Worker.Workflow F) (id : string) : io (World B) Fault Status.WorkflowStatus :=
  s ← io_map_err Rt (rt (call (λ _, load_snapshot id)));
  if bool_decide (snapshot_definition_hash s ≠ workflow_definition_hash wf) then
    throw (Rt (RWorkflow (WF.DefinitionMismatch (workflow_definition_hash wf) (snapshot_definition_hash s))))
  else
    match as_terminal_status (state s) with
    | Some status => mret status
    | None =>
        vs ← io_map_err Rt (resolve (extract s) s id);
        match vs with
        | (Some status, _) => mret status
        | (None, s) =>
            input_bytes ← lift_result (map_err Rt (get_resume_input s));
            execute_and_finalize wf input_bytes s
        end
    end.
End Runner.

(** ** Computations that agree on every state *)

Definition io_equiv {S E A} : relation (io S E A) := pointwise_relation S eq.
Infix "≡≡" := io_equiv (at level 70).

#[export] Instance io_equiv_equivalence {S E A} : Equivalence (@io_equiv S E A).
Proof. unfold io_equiv. apply _. Qed.

#[export] Instance io_bind_proper {S E A C} :
  Proper (pointwise_relation A io_equiv ==> io_equiv ==> io_equiv) (@mbind (io S E) io_bind A C).
Proof.
  intros k k' Hk m m' Hm s. unfold mbind, io_bind. rewrite (Hm s). destruct (m' s) as [[a|] s']; [apply Hk|done].
Qed.

Lemma bind_ext {S E A C} (m m' : io S E A) (k k' : A → io S E C) :
  m ≡≡ m' → (∀ a, k a ≡≡ k' a) → (m ≫= k) ≡≡ (m' ≫= k').
Proof. intros Hm Hk. by apply io_bind_proper. Qed.
Lemma bind_ext_r {S E A C} (m : io S E A) (k k' : A → io S E C) : (∀ a, k a ≡≡ k' a) → (m ≫= k) ≡≡ (m ≫= k').
Proof. by apply bind_ext. Qed.

Section Ext.
Context `{Sha256, Chrono, FloatOps, Display, SerdeJson, EnvelopeCodec, TaskTiming}.
Context {B F : Type} `{PersistentBackend B, Environment B}.
Abbreviation Exec := (io (@ExecState B) Fault).

Lemma retry_ext id rp timeout sb (m m' : Exec Bytes) :
  m ≡≡ m' → retry_with_checkpoint id rp timeout sb m ≡≡ retry_with_checkpoint id rp timeout sb m'.
Proof.
  intros Hm. unfold retry_with_checkpoint. generalize (match rp with Some rp => S (S (Z.to_nat (max_retries rp))) | None => 1%nat end).
  intros n. induction n as [|n IH]; intros st; cbn; [done|]. rewrite (Hm st).
  destruct (m' st) as [[o|[e| |]] st']; try done. apply bind_ext_r. intros s. repeat case_match; try done.
  all: repeat (apply bind_ext_r; intros); exact IH.
Qed.

Lemma main_loop_ext (cfg : LoopConfig F) (m m' : Bytes → Exec Bytes) n k i :
  (∀ i, m i ≡≡ m' i) → main_loop cfg m n k i ≡≡ main_loop cfg m' n k i.
Proof.
  intros Hm. revert k i; induction n as [|n IH]; intros k i; cbn; [done|].
  apply bind_ext; [apply Hm|]. intros o. repeat (apply bind_ext_r; intros). case_match; [done|].
  apply bind_ext_r; intros. apply IH.
Qed.

Lemma finish_ext exec exec' park (next : option (WorkflowContinuation F)) step :
  opt_all (λ n, ∀ i, exec n i ≡≡ exec' n i) next → finish (B:=B) exec park next step ≡≡ finish exec' park next step.
Proof. intros Hn. destruct step; cbn; [|done|done]. destruct next; cbn in *; [apply Hn|done]. Qed.

Lemma cached_ext id (m m' : Exec StepFlow) : m ≡≡ m' → cached_or id m ≡≡ cached_or id m'.
Proof. intros Hm. unfold cached_or. apply bind_ext_r. intros s. by case_match. Qed.

(** Callbacks that answer alike for this task. *)
Section Callbacks.
Context (cb cb' : TaskCallback) (id : string) (Hcb : ∀ n i, @run_task cb n id i = @run_task cb' n id i).
Lemma user_task_ext i : @user_task cb B id i ≡≡ @user_task cb' B id i.
Proof. intros st. unfold user_task. by rewrite Hcb. Qed.

Lemma main_task_ext i :
  @execute_or_skip_task _ _ cb _ B _ id i ≡≡ @execute_or_skip_task _ _ cb' _ B _ id i.
Proof.
  unfold execute_or_skip_task. apply bind_ext_r. intros s. case_match; [done|].
  repeat (apply bind_ext_r; intros). apply bind_ext; [|done].
  case_match; [|apply user_task_ext]. repeat (apply bind_ext_r; intros). apply user_task_ext.
Qed.

Lemma branch_task_ext i timeout inst :
  @branch_execute_or_skip_task _ _ cb B _ _ id i timeout inst ≡≡
  @branch_execute_or_skip_task _ _ cb' B _ _ id i timeout inst.
Proof.
  unfold branch_execute_or_skip_task. apply bind_ext_r. intros s. case_match; [done|].
  repeat (apply bind_ext_r; intros). apply bind_ext; [|done].
  apply user_task_ext.
Qed.
End Callbacks.
End Ext.

(** ** The runner and the durable executor *)

(** Tasks, delays, signals, loops and child workflows, one after the other. *)
Fixpoint linear {F} (c : WorkflowContinuation F) : bool :=
  let opt (o : option (WorkflowContinuation F)) := match o with Some n => linear n | None => true end in
  match c with
  | Task _ _ _ _ _ _ _ next | Delay _ _ next | AwaitSignal _ _ _ next => opt next
  | Fork _ _ _ | Branch _ _ _ _ _ => false
  | Loop _ inner _ _ next | ChildWorkflow _ inner next => linear inner && opt next
  end.

(** The nodes of [c] are nodes of [c0]. *)
Definition contained {F} (c0 c : WorkflowContinuation F) : Prop :=
  ∃ p, preorder c p ⊆ preorder c0 None.

Section Hints.
Context `{Sha256} {F : Type} (c0 : WorkflowContinuation F).
Implicit Types c : WorkflowContinuation F.
Context (Hdup : find_duplicate_id c0 = None) (Hcf : collision_free (node_ids c0)).

Lemma contained_next c : contained c0 c →
  match c with
  | Task _ _ _ _ _ _ _ next | Delay _ _ next | AwaitSignal _ _ _ next => opt_all (contained c0) next
  | Loop _ inner _ _ next | ChildWorkflow _ inner next => contained c0 inner ∧ opt_all (contained c0) next
  | _ => True
  end.
Proof.
  clear Hdup Hcf. assert (Hsub : ∀ id n x k l, x :: k ++ preorder n (Some id) ++ l ⊆ preorder c0 None → contained c0 n).
  { intros id n x k l Hs. exists (Some id). set_solver. }
  intros [p Hp]. destruct c as [id ? ? ? ? ? ? [n|]| |id ? [n|]|id ? ? [n|]| |id b ? ? [n|]|id b [n|]]; cbn in *; try done.
  1,2,3: eapply (Hsub id n _ [] []); rewrite app_nil_r; exact Hp.
  all: split; [eapply (Hsub id b _ [] _), Hp|]; try done.
  all: eapply (Hsub id n _ (preorder b (Some id)) []); rewrite app_nil_r; exact Hp.
Qed.

(** The index gives the hint the tree gives. *)
Lemma index_hint_agrees c : linear c = true → contained c0 c → index_hint (index_build c0) c = first_task_hint c.
Proof.
  pose proof (no_duplicate_nodup _ Hdup) as Hnd.
  assert (Hleaf : ∀ c, contained c0 c → TaskId_from (cont_id c) = TaskId_from (first_task_id c) →
    ∃ p, find_config (TaskId_from (first_task_id c)) c0 = head (node_config (node_info c p))).
  { intros c' [p Hp] Hid. exists p. apply find_config_node; [done|done| |by rewrite node_info_id].
    apply Hp. rewrite preorder_tail. apply list_elem_of_here. }
  unfold index_hint, first_task_hint, index_priority, index_tags.
  induction c as [id fn to r v pr tg n Hn| |id d n Hn|id s to n Hn| |id b m o n Hb Hn|id ch n Hc Hn]
    using continuation_ind; intros Hl Hct; try done.
  1,2,3: pose proof (Hleaf _ Hct eq_refl) as [p Hfc]; cbn in Hfc |- *;
    pose proof (index_lookup_config c0 (TaskId_from id) Hnd Hcf) as Hi; rewrite Hfc in Hi; cbn in Hi.
  - by rewrite Hi.
  - by destruct Hi as [->|[? ->]].
  - by destruct Hi as [->|[? ->]].
  - cbn in Hl. apply andb_split in Hl as [Hl _]. apply contained_next in Hct as [Hct _]. by apply Hb.
  - cbn in Hl. apply andb_split in Hl as [Hl _]. apply contained_next in Hct as [Hct _]. by apply Hc.
Qed.
End Hints.

Section Equivalence.
Context `{Sha256, Chrono, FloatOps, Display, SerdeJson, EnvelopeCodec, TaskCallback, TaskTiming, Tokio}.
Context {B F : Type} `{PersistentBackend B, Environment B, AsyncRuntime F}.
Context (f : string → Bytes → result BoxError Bytes) (Hf : ∀ n id i, run_task n id i = f id i).
Context (c0 : WorkflowContinuation F) (Hdup : find_duplicate_id c0 = None) (Hcf : collision_free (node_ids c0)).
Abbreviation Exec := (io (@ExecState B) Fault).
Abbreviation runner := (execute_with_checkpointing (B:=B) (index_build c0)).

(** The two orders of setting hint and position. *)
Lemma advance_agrees (next : option (WorkflowContinuation F)) :
  opt_all (λ n, index_hint (index_build c0) n = first_task_hint n) next →
  advance_to (B:=B) (index_build c0) next ≡≡
  match next with
  | Some n =>
      modify_now (λ t, update_position t (AtTask (hint_id (first_task_hint n)))) ≫= λ _,
      modify (set_task_hint (first_task_hint n))
  | None => mret ()
  end.
Proof.
  destruct next as [n|]; [|done]. cbn. intros -> st. unfold modify_now, modify, now, run, read_clock, mbind, io_bind. cbn.
  do 2 f_equal. unfold update_position. cbn. by destruct (state st.1).
Qed.

Lemma task_step_agrees id func timeout rp (next : option (WorkflowContinuation F)) i :
  (∀ n i, run_func n func i = f id i) →
  opt_all (λ n, index_hint (index_build c0) n = first_task_hint n) next →
  runner_task_step (B:=B) (index_build c0) id func timeout rp next i ≡≡ execute_task_step id timeout rp next i.
Proof.
  intros Hfn Hh. unfold runner_task_step, execute_task_step. do 2 (apply bind_ext_r; intros).
  apply bind_ext.
  - apply retry_ext, main_task_ext. intros n j. by rewrite Hf, <-(Hfn n j).
  - intros o. apply bind_ext; [by apply advance_agrees|done].
Qed.

Lemma runner_agrees c : linear c = true → contained c0 c → implemented f c →
  ∀ i, runner c i ≡≡ execute_continuation_with_checkpointing c i.
Proof.
  assert (Hopt : ∀ next : option (WorkflowContinuation F),
    opt_all (λ c, linear c = true → contained c0 c → implemented f c →
      ∀ i, runner c i ≡≡ execute_continuation_with_checkpointing c i) next →
    match next with Some n => linear n | None => true end = true → opt_all (contained c0) next →
    match next with Some n => implemented f n | None => True end →
    opt_all (λ n, ∀ i, runner n i ≡≡ execute_continuation_with_checkpointing n i) next ∧
    opt_all (λ n, index_hint (index_build c0) n = first_task_hint n) next).
  { intros [n|]; cbn; [|done]. intros Hn Hl Hc Hi. split; [by apply Hn|by apply index_hint_agrees]. }
  induction c as [id fn to r v pr tg n Hn| |id d n Hn|id s to n Hn| |id b m o n Hb Hn|id ch n Hc Hn]
    using continuation_ind; intros Hl Hct Him i; try done; pose proof (contained_next c0 _ Hct) as Hnext; cbn in Hl, Him.
  - destruct Him as [Hfn Him]. destruct fn as [func|]; [|done]. destruct (Hopt n Hn Hl Hnext Him) as [Hx Hh].
    apply bind_ext; [by apply task_step_agrees|]. intros x. by apply finish_ext.
  - destruct (Hopt n Hn Hl Hnext Him) as [Hx Hh]. do 3 (apply bind_ext_r; intros). by apply finish_ext.
  - destruct (Hopt n Hn Hl Hnext Him) as [Hx Hh]. apply bind_ext_r. intros _. apply bind_ext_r. intros sn.
    apply bind_ext; [|intros; by apply finish_ext].
    destruct (get_task_result (TaskId_from id) sn); [done|]. apply bind_ext_r. intros [payload|]; [|done].
    apply bind_ext_r. intros _. apply bind_ext; [by apply advance_agrees|done].
  - apply andb_split in Hl as [Hlb Hl]. destruct Hnext as [Hcb Hcn], Him as [Hib Hin].
    destruct (Hopt n Hn Hl Hcn Hin) as [Hx _]. apply bind_ext_r. intros _. apply bind_ext; [|intros; by apply finish_ext].
    apply cached_ext, bind_ext_r. intros sn. apply bind_ext; [|done]. apply main_loop_ext. by apply Hb.
  - apply andb_split in Hl as [Hlb Hl]. destruct Hnext as [Hcb Hcn], Him as [Hib Hin].
    destruct (Hopt n Hn Hl Hcn Hin) as [Hx _]. apply bind_ext_r. intros _. apply bind_ext; [|intros; by apply finish_ext].
    apply cached_ext, bind_ext; [by apply Hc|done].
Qed.
End Equivalence.

(** ** Fresh runs on a quiet in-memory store *)

Section Fresh.
Context `{Sha256, Chrono, FloatOps, Display, SerdeJson, EnvelopeCodec, TaskTiming, Tokio}.
Context {F : Type} `{Environment InMemoryBackend, AsyncRuntime F} (quiet : ∀ n b, others n b = b).
Context (inst : string) (f : string → Bytes → result BoxError Bytes).
Context (in_order : ∀ A n (l : list A), finish_order n l = l).
Abbreviation ES := (@ExecState InMemoryBackend).
Abbreviation Exec := (io ES Fault).
Abbreviation does := (Checkpoint.does inst).
Abbreviation Inv := (Checkpoint.Inv inst).
Abbreviation clean := (Checkpoint.clean inst).
Abbreviation tree_ok := (Checkpoint.tree_ok inst f).
Abbreviation branch_exec := (runner_branch_loop (B:=InMemoryBackend) (F:=F) inst).

(** The callback that computes [f]; a function of the tree answers as it does. *)
Definition callback_of : TaskCallback := λ _ id i, f id i.
Lemma does_ext {A} T L (m m' : Exec A) st Q : m ≡≡ m' → does T L m' st Q → does T L m st Q.
Proof. intros Hm. unfold Checkpoint.does. by rewrite (Hm st). Qed.

Lemma does_key_fn key_fn id i kb st :
  (∀ n i, run_func n key_fn i = f (key_fn_id id) i) → f (key_fn_id id) i = Ok kb → Inv st →
  does [] [] (run_key_fn (B:=InMemoryBackend) key_fn id i) st (λ r _, r = kb).
Proof.
  intros Hfn Hk HI. eapply does_ext; [apply (user_task_ext (func_run key_fn) callback_of); intros; apply Hfn|].
  eapply does_mono; [done|done|by apply (@does_user_task callback_of inst f)|by intros ? ? ? ? []].
Qed.

Lemma does_func_branch_task func id rp i o st :
  (∀ n i, run_func n func i = f id i) → f id i = Ok o → absent (TaskId_from id) st.1 → Inv st →
  does [TaskId_from id] [] (retry_with_checkpoint id rp None false
    (let _ := func_run func in branch_execute_or_skip_task (B:=InMemoryBackend) id i None inst)) st (λ r _, r = o).
Proof.
  intros Hfn Ho Ha HI.
  eapply (does_mono inst [TaskId_from id] []); [done|done|apply (does_retry inst _ _ _ _ _ _ _ _ (λ r _, r = o))|].
  - eapply does_ext; [apply (branch_task_ext (func_run func) callback_of); intros; apply Hfn|].
    by apply (@does_branch_task _ _ callback_of _ quiet inst f).
  - by intros ? ? ? ? (? & ? & _).
Qed.

Lemma choose_branch_ok {A} (g : WorkflowContinuation F → A) id kb key bs d b :
  decode_string kb = Ok key → choose key bs d = Some b → choose_branch g id kb bs d = Ok (key, g b).
Proof.
  intros Hk Hb. unfold choose_branch. rewrite Hk. cbn. rewrite get_branch_fmap. unfold choose in Hb.
  destruct (get_branch (λ b, b) key bs) as [b'|]; cbn; [by injection Hb as ->|]. by rewrite Hb.
Qed.

(** Spawned branches that finish in order. *)
Lemma does_nested (exec : WorkflowContinuation F → Bytes → Exec Bytes) bs i rs acc st :
  Forall (runs_ok inst f exec) bs → NoDup (tids (flat_map node_ids bs)) → all_evaluate f eq bs i rs →
  Inv st → clean (tids (flat_map node_ids bs)) st →
  does (tids (flat_map node_ids bs)) []
    (join_nested ((λ b, (cont_id b, with_own_snapshot inst (exec b i))) <$> bs) acc) st (λ r _, r = acc ++ rs).
Proof.
  intros Hbs. revert rs acc st. induction Hbs as [|b bs Hb Hbs IH]; intros rs acc st; cbn [flat_map fmap list_fmap join_nested].
  { intros _ ->%all_evaluate_nil HI _. apply does_ret; [done|]. by rewrite app_nil_r. }
  rewrite tids_app. intros (_ & Hdis & Hnd)%NoDup_app (o & Ho & rs' & Hrs & ->)%all_evaluate_cons HI Hc.
  cut (does (tids (node_ids b) ++ tids (flat_map node_ids bs)) []
    (output ← with_own_snapshot inst (exec b i);
     join_nested ((λ b, (cont_id b, with_own_snapshot inst (exec b i))) <$> bs) (acc ++ [(cont_id b, output)])) st
    (λ r _, r = acc ++ (cont_id b, o) :: rs')).
  { unfold does, mbind, io_bind. by destruct (with_own_snapshot inst (exec b i) st) as [[] ?]. }
  eapply does_seq; [apply subseteq_app_l|apply subseteq_app_r|apply (does_own_branch quiet inst f); try done|].
  { eapply clean_subset; [apply subseteq_app_l|exact Hc]. }
  intros r st1 HI1 Hf1 [-> _]. replace (acc ++ (cont_id b, o) :: rs') with ((acc ++ [(cont_id b, o)]) ++ rs')
    by by rewrite <-app_assoc.
  apply IH; [done|done|done|]. eapply clean_after; [exact Hdis|exact Hf1|].
  eapply clean_subset; [apply subseteq_app_r|exact Hc].
Qed.

(** Joining branches that all return is the same in a nested fork. *)
Lemma join_parallel_nested bs acc st r st' :
  join_nested (B:=InMemoryBackend) bs acc st = (Ok r, st') → join_parallel bs acc None st = (Ok (r, None), st').
Proof.
  revert acc st; induction bs as [|[name b] bs IH]; intros acc st; cbn; [by intros [= -> ->]|].
  destruct (b st) as [[o|e] st1]; [apply IH|done].
Qed.

(** A fork whose branches are all fresh. *)
Lemma does_parallel bs i rs st :
  Forall (runs_ok inst f branch_exec) bs → NoDup (tids (flat_map node_ids bs)) → all_evaluate f eq bs i rs →
  Inv st → clean (tids (flat_map node_ids bs)) st →
  does (tids (flat_map node_ids bs)) []
    (execute_fork_branches_parallel ((λ b, (cont_id b, execute_branch_with_checkpoint inst b i)) <$> bs)) st
    (λ r _, r = (rs, None)).
Proof.
  intros Hbs Hnd Hall HI Hc.
  assert (Hfresh : ∀ l, l ⊆ bs → let l' := (λ b, (cont_id b, execute_branch_with_checkpoint inst b i)) <$> l in
    omap (λ b : string * Exec Bytes, (λ r, (b.1, tr_output r)) <$> get_task_result (TaskId_from b.1) st.1) l' = [] ∧
    List.filter (λ b : string * Exec Bytes, bool_decide (get_task_result (TaskId_from b.1) st.1 = None)) l' = l').
  { induction l as [|b l IH]; intros Hl; [done|]. destruct IH as [IH1 IH2]; [set_solver|].
    assert (Ha : absent (TaskId_from (cont_id b)) st.1).
    { eapply clean_absent; [|exact Hc]. apply list_elem_of_fmap. exists (cont_id b). split; [done|].
      apply list_elem_of_In, in_flat_map. exists b. split; apply list_elem_of_In; [set_solver|apply cont_id_in]. }
    unfold absent in Ha. cbn. rewrite Ha. cbn. split; [done|]. by f_equal. }
  destruct (Hfresh bs ltac:(done)) as [Hd Hs].
  pose proof (does_nested branch_exec bs i rs [] st Hbs Hnd Hall HI Hc) as Hn.
  unfold does, execute_fork_branches_parallel, get_state, mbind, io_bind in Hn |- *. rewrite Hd, Hs, in_order.
  destruct (join_nested _ [] st) as [[r|] st'] eqn:Hj; [|done].
  unfold execute_branch_with_checkpoint. rewrite (join_parallel_nested _ _ _ _ _ Hj).
  destruct Hn as (? & ? & ->). done.
Qed.

Lemma does_nested_fork (exec : WorkflowContinuation F → Bytes → Exec Bytes) bs i rs st :
  Forall (runs_ok inst f exec) bs → NoDup (tids (flat_map node_ids bs)) → all_evaluate f eq bs i rs →
  Inv st → clean (tids (flat_map node_ids bs)) st →
  does (tids (flat_map node_ids bs)) []
    (execute_nested_fork_branches ((λ b, (cont_id b, with_own_snapshot inst (exec b i))) <$> bs)) st (λ r _, r = rs).
Proof.
  intros Hbs Hnd Hall HI Hc. pose proof (does_nested exec bs i rs [] st Hbs Hnd Hall HI Hc) as Hn.
  unfold execute_nested_fork_branches, get_state, mbind, io_bind, Checkpoint.does in *. by rewrite in_order.
Qed.

(** The subtrees of an implemented tree. *)
Abbreviation sound exec := (λ c, implemented f c → tree_ok exec c).
Lemma sound_opt exec (next : option (WorkflowContinuation F)) :
  opt_all (sound exec) next → match next with Some n => implemented f n | None => True end →
  opt_all (tree_ok exec) next.
Proof. destruct next; cbn; auto. Qed.

(** A routed node, once its parts are sound. *)
Lemma routed_ok (exec : WorkflowContinuation F → Bytes → Exec Bytes) id key_fn bs d i kb key b x e st :
  (∀ n i, run_func n key_fn i = f (key_fn_id id) i) → f (key_fn_id id) i = Ok kb → decode_string kb = Ok key →
  choose key bs d = Some b → runs_ok inst f exec b → evaluates f eq b i x → encode_branch_envelope key x = Ok e →
  Inv st → clean (tids (id :: flat_map (λ kb, node_ids kb.2) bs ++ opt_ids d)) st →
  does (tids (id :: flat_map (λ kb, node_ids kb.2) bs ++ opt_ids d)) []
    (cached_or id
      (key_bytes ← run_key_fn key_fn id i;
       chosen ← lift (choose_branch (λ b, with_own_snapshot inst (exec b i)) id key_bytes bs d);
       branch_output ← chosen.2;
       envelope_bytes ← lift (map_err from_box_error (encode_branch_envelope chosen.1 branch_output));
       modify_now (λ t, mark_task_completed t (TaskId_from id) envelope_bytes) ≫= λ _,
       save ≫= λ _,
       mret (SContinue envelope_bytes))) st (λ r _, r = SContinue e).
Proof.
  intros Hfn Hkb Hkey Hb Hbr Hx He HI Hc. apply does_cached; [by eapply clean_head|done|].
  apply (does_routed quiet inst f _ (λ kb, choose_branch (λ b, with_own_snapshot inst (exec b i)) id kb bs d)
    (λ e, modify_now (λ t, mark_task_completed t (TaskId_from id) e) ≫= λ _, save ≫= λ _, mret (SContinue e))
    (with_own_snapshot inst (exec b i)) id kb key x e); try done.
  - intros st' HI'. by apply does_key_fn.
  - by apply (choose_branch_ok (λ b, with_own_snapshot inst (exec b i))).
  - by eapply clean_tail.
  - intros st' HI' Hc'.
    eapply does_mono; [by eapply choose_ids|done|apply (does_own_branch quiet inst f); try done|by intros ? ? ? ? []].
    eapply clean_subset; [|exact Hc']. by eapply choose_ids.
  - intros st' HI'. by apply does_mark_save.
Qed.

(** The branch a routed node chooses. *)
Lemma chosen_runs (exec : WorkflowContinuation F → Bytes → Exec Bytes) key bs d b :
  Forall (λ kb, tree_ok exec kb.2) bs → opt_all (tree_ok exec) d →
  forallb (λ kb, immediate kb.2) bs = true → match d with Some n => immediate n | None => true end = true →
  NoDup (tids (flat_map (λ kb, node_ids kb.2) bs ++ opt_ids d)) → choose key bs d = Some b → runs_ok inst f exec b.
Proof.
  intros Hbs Hd Hi Hi'. rewrite tids_app. intros (Hnd1 & _ & Hnd2)%NoDup_app Hb.
  eapply choose_Forall; [by apply (list_runs inst f snd)|exact (opt_runs _ _ _ _ Hd Hi' Hnd2)|done].
Qed.

Abbreviation branch_park := (λ reason, save_branch_park_checkpoint reason inst).

Lemma runner_branch_task_ok id fn t r v p tg n :
  opt_all (sound branch_exec) n → sound branch_exec (Task id fn t r v p tg n).
Proof.
  intros Hn [Hfn Him]. pose proof (sound_opt _ _ Hn Him) as Hn'. destruct fn as [fn|]; [|done].
  unfold Checkpoint.tree_ok. cbn [immediate node_ids]. fold (opt_ids n).
  intros [->%bool_decide_eq_true Hi]%andb_split Hnd i o st (x & Hx & Hco)%evaluates_task HI Hcl.
  apply (does_chain inst f SContinue branch_exec branch_park [id] _ x n x); try done.
  intros Hc _. apply does_func_branch_task; try done. by eapply clean_head.
Qed.

Lemma runner_branch_fork_ok id bs j :
  Forall (sound branch_exec) bs → opt_all (sound branch_exec) j → sound branch_exec (Fork id bs j).
Proof.
  intros Hbs Hj [Him Him']. pose proof (sound_opt _ _ Hj Him') as Hj'. apply (foldr_Forall _ _ _ Him) in Hbs.
  unfold Checkpoint.tree_ok. cbn [immediate node_ids]. fold (opt_ids j).
  intros [Hi Hi']%andb_split Hnd i o st (? & (rs & Hall & <-) & Hres)%evaluates_fork HI Hcl.
  apply (does_join inst f branch_exec branch_park (id :: flat_map node_ids bs) _ j rs); try done.
  intros Hc [_ Hnd']%NoDup_cons. eapply does_weaken; [|done|apply does_nested_fork; try done].
  - rewrite tids_cons. clear. set_solver.
  - by apply (list_runs inst f (λ b, b)).
  - by eapply clean_tail.
Qed.

Lemma runner_branch_route_ok id k bs d n :
  Forall (λ kb, sound branch_exec kb.2) bs → opt_all (sound branch_exec) d → opt_all (sound branch_exec) n →
  sound branch_exec (Branch id k bs d n).
Proof.
  intros Hbs Hd Hn (Hfn & Hib & Hid & Hin). pose proof (sound_opt _ _ Hn Hin) as Hn'.
  pose proof (sound_opt _ _ Hd Hid) as Hd'. apply (foldr_Forall _ _ _ Hib) in Hbs. destruct k as [k|]; [|done].
  unfold Checkpoint.tree_ok. cbn [immediate node_ids]. fold (opt_ids n).
  intros [[Hi Hi']%andb_split Hi'']%andb_split Hnd i o st
    (kb & Hkb & key & Hkey & b & Hb & x & Hx & e & He & Hco)%evaluates_branch HI Hcl.
  change (NoDup (tids (node_ids (Branch id (Some k) bs d n)))) in Hnd. rewrite branch_ids in Hnd, Hcl |- *.
  apply (does_chain inst f (λ s, s) branch_exec branch_park
    (id :: flat_map (λ kb, node_ids kb.2) bs ++ opt_ids d) _ (SContinue e) n e); try done.
  intros Hc [_ Hnd']%NoDup_cons. eapply (routed_ok branch_exec); try done.
  eapply (chosen_runs branch_exec); done.
Qed.

Lemma runner_branch_loop_ok id b m o n :
  sound branch_exec b → opt_all (sound branch_exec) n → sound branch_exec (Loop id b m o n).
Proof.
  intros Hb Hn [Hib Hin]. pose proof (sound_opt _ _ Hn Hin) as Hn'. specialize (Hb Hib).
  unfold Checkpoint.tree_ok. cbn [immediate node_ids]. fold (opt_ids n).
  intros [Hi Hi']%andb_split Hnd i o' st (x & Hit & Hco)%evaluates_loop HI Hcl.
  apply (does_chain inst f (λ s, s) branch_exec branch_park (id :: node_ids b) _ (SContinue x) n x); try done.
  intros Hc [Hid Hnd']%NoDup_cons. apply does_cached; [by eapply clean_head|done|].
  eapply does_bind; [by apply does_snap|]. intros s st1 _ _ [-> ->]. rewrite (clean_loop _ _ _ _ Hc).
  apply does_fmap, (does_settle _ _ (TaskId_from id)).
  apply (does_async_loop quiet inst f false (MkLoopConfig id b m o 0)); try done.
  - intros i' env st' He HI' Hc'.
    eapply does_mono; [done|done|apply (does_own_branch quiet inst f); try done; by apply Hb|by intros ? ? ? ? []].
  - cbn. rewrite <-range_from_zero. do 2 f_equal. lia.
  - by eapply clean_tail.
Qed.

Lemma runner_branch_child_ok id ch n :
  sound branch_exec ch → opt_all (sound branch_exec) n → sound branch_exec (ChildWorkflow id ch n).
Proof.
  intros Hc Hn [Hib Hin]. pose proof (sound_opt _ _ Hn Hin) as Hn'. specialize (Hc Hib).
  unfold Checkpoint.tree_ok. cbn [immediate node_ids]. fold (opt_ids n).
  intros [Hi Hi']%andb_split Hnd i o st (x & Hx & Hco)%evaluates_child HI Hcl.
  apply (does_chain inst f (λ s, s) branch_exec branch_park (id :: node_ids ch) _ (SContinue x) n x); try done.
  intros Hc' [Hid Hnd']%NoDup_cons. apply does_cached; [by eapply clean_head|done|].
  eapply (does_seq _ (tids (node_ids ch)) [TaskId_from id]); [rewrite tids_cons; clear; set_solver..| |].
  - apply (does_own_branch quiet inst f); try done; [by apply Hc|]. by eapply clean_tail.
  - intros r st1 HI1 _ [-> _]. by apply does_mark_save.
Qed.

Lemma runner_branch_ok c : sound branch_exec c.
Proof.
  induction c using continuation_ind; [by apply runner_branch_task_ok|by apply runner_branch_fork_ok|done|done|
    by apply runner_branch_route_ok|by apply runner_branch_loop_ok|by apply runner_branch_child_ok].
Qed.

(** ** The executor itself, over any index *)

Context (index : TaskIndex).
Abbreviation exec_main := (execute_with_checkpointing (B:=InMemoryBackend) (F:=F) index).

Lemma does_advance T L (next : option (WorkflowContinuation F)) st :
  Inv st → does T L (advance_to index next) st (λ _ _, True).
Proof.
  intros HI. destruct next as [n|]; [|by apply does_ret].
  eapply does_bind; [by apply does_modify; [apply keeps_hint|]|]. intros [] st1 HI1 _ _.
  eapply does_mono; [done|done|apply does_modify_now; [|done]; intros; apply keeps_position|done].
Qed.

Lemma does_runner_task func id rp (next : option (WorkflowContinuation F)) i o st :
  (∀ n i, run_func n func i = f id i) → f id i = Ok o → absent (TaskId_from id) st.1 → Inv st →
  does [TaskId_from id] [] (runner_task_step (B:=InMemoryBackend) index id func None rp next i) st (λ r _, r = o).
Proof.
  intros Hfn Ho Ha HI. unfold runner_task_step. apply (does_guarded quiet); [done|]. intros st1 HI1 _ He.
  rewrite <-He in Ha. unfold set_deadline_if_needed.
  eapply (does_bind _ _ _ _ _ _ (λ _ st', st' = st1)).
  { eapply does_bind; [by apply does_snap|]. intros s st2 HI2 _ [-> ->]. rewrite Ha. by apply does_ret. }
  intros [] ? _ _ ->. eapply (does_bind _ _ _ _ _ _ (λ r _, r = o)).
  { eapply (does_mono inst [TaskId_from id] []); [done|done|apply (does_retry inst _ _ _ _ _ _ _ _ (λ r _, r = o))|].
    - eapply does_ext; [apply (main_task_ext (func_run func) callback_of); intros; apply Hfn|].
      eapply does_mono; [done|done|by apply (@does_main_task _ _ callback_of _ _ inst f)|].
      by intros ? ? _ _ [-> _].
    - by intros ? ? ? ? (? & ? & _). }
  intros r st3 HI3 _ ->. eapply does_bind; [by apply does_advance|]. intros [] st4 HI4 _ _.
  eapply does_bind; [by apply (does_save quiet)|]. intros [] st5 HI5 _ _.
  apply (does_guarded quiet); [done|]. intros st6 HI6 _ _. by apply does_ret.
Qed.

Lemma runner_task_ok id fn t r v p tg n :
  opt_all (sound exec_main) n → sound exec_main (Task id fn t r v p tg n).
Proof.
  intros Hn [Hfn Him]. pose proof (sound_opt _ _ Hn Him) as Hn'. destruct fn as [fn|]; [|done].
  unfold Checkpoint.tree_ok. cbn [immediate node_ids]. fold (opt_ids n).
  intros [->%bool_decide_eq_true Hi]%andb_split Hnd i o st (x & Hx & Hco)%evaluates_task HI Hcl.
  apply (does_chain inst f SContinue exec_main save_park_checkpoint [id] _ x n x); try done.
  intros Hc _. apply does_runner_task; try done. by eapply clean_head.
Qed.

Lemma does_fork_head id bs (join : option (WorkflowContinuation F)) i rs st :
  Forall (runs_ok inst f branch_exec) bs → NoDup (tids (flat_map node_ids bs)) → all_evaluate f eq bs i rs →
  Inv st → clean (tids (flat_map node_ids bs)) st →
  does (tids (flat_map node_ids bs)) []
    (guards None ≫= λ _, s ← snap;
     match collect_cached_branches bs s with
     | Some cached => mret cached
     | None =>
         outcome ← execute_fork_branches_parallel
           ((λ b, (cont_id b, execute_branch_with_checkpoint (instance_id s) b i)) <$> bs);
         settle_fork_outcome id outcome join
     end) st (λ r _, r = rs).
Proof.
  intros Hbs Hnd Hall HI Hc. apply (does_guarded quiet); [done|]. intros st1 HI1 Hf1 _.
  apply (clean_frame_nil _ _ _ _ Hf1) in Hc.
  eapply does_bind; [by apply does_snap|]. intros s st2 _ _ [-> ->]. rewrite collect_cached_clean.
  2:{ destruct bs as [|b bs]; [done|]. eapply clean_absent; [|exact Hc].
      apply list_elem_of_fmap. exists (cont_id b). split; [done|]. cbn. apply elem_of_app. left. apply cont_id_in. }
  destruct bs as [|b bs]; [apply all_evaluate_nil in Hall as ->; by apply does_ret|].
  destruct (HI1) as ((_ & -> & _) & _). eapply does_bind; [by apply does_parallel|].
  intros r st2 HI2 _ ->. apply (does_settle_fork quiet); [|done]. apply tids_mono. by eapply all_evaluate_ids.
Qed.

Lemma runner_fork_ok id bs j : opt_all (sound exec_main) j → sound exec_main (Fork id bs j).
Proof.
  intros Hj [Him Him']. pose proof (sound_opt _ _ Hj Him') as Hj'.
  assert (Hbs : Forall (tree_ok branch_exec) bs).
  { apply (foldr_Forall _ _ _ Him), Forall_forall. intros b _. apply runner_branch_ok. }
  unfold Checkpoint.tree_ok. cbn [immediate node_ids]. fold (opt_ids j).
  intros [Hi Hi']%andb_split Hnd i o st (? & (rs & Hall & <-) & Hres)%evaluates_fork HI Hcl.
  apply does_assoc2, (does_join inst f exec_main save_park_checkpoint (id :: flat_map node_ids bs) _ j rs); try done.
  intros Hc [_ Hnd']%NoDup_cons. eapply does_weaken; [|done|apply does_fork_head; try done].
  - rewrite tids_cons. clear. set_solver.
  - by apply (list_runs inst f (λ b, b)).
  - by eapply clean_tail.
Qed.

Lemma runner_route_ok id k bs d n : opt_all (sound exec_main) n → sound exec_main (Branch id k bs d n).
Proof.
  intros Hn (Hfn & Hib & Hid & Hin). pose proof (sound_opt _ _ Hn Hin) as Hn'.
  assert (Hd : opt_all (tree_ok branch_exec) d) by (destruct d; [by apply runner_branch_ok|done]).
  assert (Hbs : Forall (λ kb, tree_ok branch_exec kb.2) bs).
  { apply (foldr_Forall _ _ _ Hib), Forall_forall. intros b _. apply runner_branch_ok. }
  destruct k as [k|]; [|done]. unfold Checkpoint.tree_ok. cbn [immediate node_ids]. fold (opt_ids n).
  intros [[Hi Hi']%andb_split Hi'']%andb_split Hnd i o st
    (kb & Hkb & key & Hkey & b & Hb & x & Hx & e & He & Hco)%evaluates_branch HI Hcl.
  change (NoDup (tids (node_ids (Branch id (Some k) bs d n)))) in Hnd. rewrite branch_ids in Hnd, Hcl |- *.
  apply does_assoc2, (does_chain inst f (λ s, s) exec_main save_park_checkpoint
    (id :: flat_map (λ kb, node_ids kb.2) bs ++ opt_ids d) _ (SContinue e) n e); try done.
  intros Hc [_ Hnd']%NoDup_cons. apply (does_guarded quiet); [done|]. intros st1 HI1 Hf1 _.
  apply (clean_frame_nil _ _ _ _ Hf1) in Hc.
  eapply does_bind; [by apply does_snap|]. intros s ? _ _ [-> ->]. destruct (HI1) as ((_ & -> & _) & _).
  eapply (routed_ok branch_exec); try done. by eapply (chosen_runs branch_exec).
Qed.

Lemma runner_loop_ok id b m o n :
  sound exec_main b → opt_all (sound exec_main) n → sound exec_main (Loop id b m o n).
Proof.
  intros Hb Hn [Hib Hin]. pose proof (sound_opt _ _ Hn Hin) as Hn'. specialize (Hb Hib).
  unfold Checkpoint.tree_ok. cbn [immediate node_ids]. fold (opt_ids n).
  intros [Hi Hi']%andb_split Hnd i o' st (x & Hit & Hco)%evaluates_loop HI Hcl.
  apply does_assoc, (does_chain inst f (λ s, s) exec_main save_park_checkpoint
    (id :: node_ids b) _ (SContinue x) n x); try done.
  intros Hc [Hid Hnd']%NoDup_cons. apply (does_guarded quiet); [done|]. intros st1 HI1 Hf1 He1.
  apply (clean_frame_nil _ _ _ _ Hf1) in Hc. apply does_cached; [by eapply clean_head|done|].
  eapply does_bind; [by apply does_snap|]. intros s ? _ _ [-> ->]. rewrite (clean_loop _ _ _ _ Hc).
  apply (does_settle _ _ (TaskId_from id)). eapply does_bind.
  { apply (does_main_loop quiet inst f true (MkLoopConfig id b m o 0) (exec_main b) Hid); try done.
    - intros i' env st' He HI' Hc'. by apply Hb.
    - cbn. lia.
    - by eapply clean_tail. }
  intros r st2 HI2 Hf2 [-> Hidle]. by apply does_ret.
Qed.

Lemma runner_child_ok id ch n :
  sound exec_main ch → opt_all (sound exec_main) n → sound exec_main (ChildWorkflow id ch n).
Proof.
  intros Hc Hn [Hib Hin]. pose proof (sound_opt _ _ Hn Hin) as Hn'. specialize (Hc Hib).
  unfold Checkpoint.tree_ok. cbn [immediate node_ids]. fold (opt_ids n).
  intros [Hi Hi']%andb_split Hnd i o st (x & Hx & Hco)%evaluates_child HI Hcl.
  apply does_assoc, (does_chain inst f (λ s, s) exec_main save_park_checkpoint
    (id :: node_ids ch) _ (SContinue x) n x); try done.
  intros Hc' [Hid Hnd']%NoDup_cons. apply (does_guarded quiet); [done|]. intros st1 HI1 Hf1 He1.
  apply (clean_frame_nil _ _ _ _ Hf1) in Hc'. apply does_cached; [by eapply clean_head|done|].
  eapply (does_seq _ (tids (node_ids ch)) [TaskId_from id]); [rewrite tids_cons; clear; set_solver..| |].
  - apply Hc; try done. by eapply clean_tail.
  - intros r st2 HI2 _ ->. by apply does_mark_save.
Qed.

Lemma runner_ok c : sound exec_main c.
Proof.
  induction c using continuation_ind; [by apply runner_task_ok|by apply runner_fork_ok|done|done|
    by apply runner_route_ok|by apply runner_loop_ok|by apply runner_child_ok].
Qed.
End Fresh.

(** ** Runs and resumes of the runner *)

Section Runs.
Context `{Sha256, Chrono, FloatOps, Display, SerdeJson, EnvelopeCodec, TaskTiming, Tokio}.
Context {F : Type} `{Environment InMemoryBackend, AsyncRuntime F} (quiet : ∀ n b, others n b = b).
Context (f : string → Bytes → result BoxError Bytes) (wf : Worker.Workflow F).
Abbreviation W := (World InMemoryBackend).
Abbreviation ES := (@ExecState InMemoryBackend).

(** A run that starts afresh is executed and finalized. *)
Lemma runner_run_fresh {I} `{InputCodec I} self id (input : I) bytes (w : W) s w1 :
  encode_input input = Ok bytes →
  check_then_prepare id (workflow_definition_hash wf) bytes (first_task_hint (workflow_continuation wf))
    (conflict_policy self) w = (Ok (Fresh s), w1) →
  runner_run self wf id input w = execute_and_finalize wf bytes s w1.
Proof.
  intros He. unfold runner_run, check_then_prepare. rewrite !io_bind_run. unfold io_map_err.
  destruct (check_existing_instance _ _ _ w) as [[[[]|]|] w']; cbn; try done.
  rewrite He. cbn. unfold mbind, io_bind, lift_result. cbn.
  by destruct (prepare_run _ _ _ _ _ w') as [[[]|] ?]; intros [= -> ->].
Qed.

(** Resuming is [prepare_resume], then the rest of the run. *)
Lemma runner_resume_prepared id (w : W) :
  validate_instance_id id = Ok () →
  runner_resume wf id w =
  match prepare_resume id (workflow_definition_hash wf) w with
  | (Ok (Ready s input), w1) => execute_and_finalize wf input s w1
  | (Ok (AlreadyTerminal status | ResumePaused status | NotReady status), w1) => (Ok status, w1)
  | (Err e, w1) => (Err (Rt e), w1)
  end.
Proof.
  intros Hid. unfold runner_resume, prepare_resume. rewrite bind_lift, Hid. cbn [map_err]. unfold io_map_err, rt.
  unfold mbind, io_bind, lift_result.
  destruct (io_map_err RBackend (call (λ _, load_snapshot id)) w) as [[s|] w1]; cbn; [|done]. case_bool_decide; [done|].
  destruct (as_terminal_status (state s)); [by destruct (is_paused (state s))|].
  unfold io_map_err. destruct (resolve (extract s) s id w1) as [[[[] s']|] w2]; cbn; [done| |done].
  by destruct (get_resume_input s').
Qed.

Lemma execute_and_finalize_ok input s (w : W) o s2 w2 :
  execute_with_checkpointing (workflow_task_index wf) (workflow_continuation wf) input (s, w) = (Ok o, (s2, w2)) →
  ∃ s3 w3, execute_and_finalize wf input s w = (Ok Status.Completed, w3) ∧
    state s3 = Completed o ∧ snapshots (store w3) !! instance_id s2 = Some s3.
Proof.
  intros Hrun. destruct (finalize_ok quiet o s2 w2) as (s3 & w3 & Hfin & Hst & Hlk).
  exists s3, w3. split; [|done]. unfold execute_and_finalize. rewrite Hrun. unfold io_map_err, fmap, io_fmap.
  by rewrite Hfin.
Qed.
End Runs.

(** Some task steps of the runner, one after the other. *)
Inductive runner_steps `{Sha256, Chrono, FloatOps, Display, TaskTiming} {F : Type}
    `{Environment InMemoryBackend, AsyncRuntime F} (index : TaskIndex) :
    WorkflowContinuation F → Bytes → @ExecState InMemoryBackend →
    WorkflowContinuation F → Bytes → @ExecState InMemoryBackend → Prop :=
| RunnerNone c i st : runner_steps index c i st c i st
| RunnerStep id func t rp v p tg n i st o st1 c' i' st' :
    runner_task_step index id func t rp (Some n) i st = (Ok o, st1) → runner_steps index n o st1 c' i' st' →
    runner_steps index (Task id (Some func) t rp v p tg (Some n)) i st c' i' st'.

(** On a linear tree they are steps of the durable executor. *)
Lemma runner_steps_durable `{Sha256, Chrono, FloatOps, Display, SerdeJson, EnvelopeCodec, TaskTiming, Tokio}
    {F : Type} `{Environment InMemoryBackend, AsyncRuntime F} (f : string → Bytes → result BoxError Bytes)
    (c0 c : WorkflowContinuation F) i st c' i' st' :
  find_duplicate_id c0 = None → collision_free (node_ids c0) →
  runner_steps (index_build c0) c i st c' i' st' →
  linear c = true → contained c0 c → implemented f c →
  @runs_to _ _ _ _ (callback_of f) _ F _ c i st c' i' st'.
Proof.
  intros Hd Hcf. induction 1 as [|id func t rp v p tg n i st o st1 c' i' st' Hrun Hruns IH]; [constructor|].
  intros Hl Hct [Hfn Him]. cbn in Hl, Him. pose proof (contained_next _ _ Hct) as Hn. cbn in Hn.
  econstructor; [|by apply IH]. rewrite <-Hrun. symmetry.
  pose (cb := callback_of f). apply (task_step_agrees f (λ _ _ _, eq_refl) c0); [done|]. by apply index_hint_agrees.
Qed.

(** ** Properties *)

(** The checkpointing runner against the durable executor: on a tree of tasks
    (with timeouts and retries), delays, signals, loops and child workflows, the
    runner with its task index and the executor with a callback that computes the
    same functions do the same thing from every state, over any backend and with
    any interference: same result or error, same snapshot, same store, same number
    of accesses. *)
Theorem runner_equals_durable
    `{Sha256, Chrono, FloatOps, Display, SerdeJson, EnvelopeCodec, TaskCallback, TaskTiming, Tokio}
    {B F : Type} `{PersistentBackend B, Environment B, AsyncRuntime F} (f : string → Bytes → result BoxError Bytes)
    (c : WorkflowContinuation F) (i : Bytes) (st : @ExecState B) :
  (∀ n id i, run_task n id i = f id i) → implemented f c → linear c = true →
  find_duplicate_id c = None → collision_free (node_ids c) →
  execute_with_checkpointing (index_build c) c i st = execute_continuation_with_checkpointing c i st.
Proof. intros Hf Him Hl Hd Hcf. apply (runner_agrees f Hf c); try done. by exists None. Qed.

(** C36. A run of the checkpointing runner, end to end: a fresh instance of a workflow
    of tasks without timeouts, forks, joins, conditional branches, loops and child
    workflows in any nesting (no delay and no signal anywhere), with distinct ids whose
    hashes do not collide and tasks that implement [f], its spawned branches finishing
    in the order they were spawned in and nobody else touching the store, is reported
    completed, and what is stored is the output the workflow means. *)
Theorem runner_run_correct
    `{Sha256, Chrono, FloatOps, Display, SerdeJson, EnvelopeCodec, TaskTiming, Tokio}
    {F I : Type} `{Environment InMemoryBackend, AsyncRuntime F, InputCodec I}
    (f : string → Bytes → result BoxError Bytes) (wf : Worker.Workflow F) (id : string) (input : I) (bytes o : Bytes)
    (w : World InMemoryBackend) :
  (∀ n b, others n b = b) → (∀ A n (l : list A), finish_order n l = l) →
  implemented f (workflow_continuation wf) → immediate (workflow_continuation wf) = true →
  find_duplicate_id (workflow_continuation wf) = None → collision_free (node_ids (workflow_continuation wf)) →
  validate_instance_id id = Ok () → snapshots (store w) !! id = None →
  pending (store w) id Cancel = None → pending (store w) id Pause = None →
  encode_input input = Ok bytes → evaluates f eq (workflow_continuation wf) bytes o →
  ∃ s w', runner_run runner_new wf id input w = (Ok Status.Completed, w') ∧
    snapshots (store w') !! id = Some s ∧ state s = Completed o.
Proof.
  intros quiet in_order Him Hi Hd Hcf Hid Hs Hc Hp Henc He.
  pose proof (fresh_start quiet id (workflow_definition_hash wf) bytes (first_task_hint (workflow_continuation wf)) w
    Hid Hs) as Hfr. cbn zeta in Hfr.
  rewrite (runner_run_fresh wf runner_new id input bytes w _ _ Henc Hfr). clear Hfr.
  set (s := first_snapshot _ _ _ _ _). set (w1 := MkWorld _ _).
  assert (Hst : stored id (s, w1) = Some s) by apply lookup_insert_eq.
  assert (Hm : does id (tids (node_ids (workflow_continuation wf))) []
    (execute_with_checkpointing (workflow_task_index wf) (workflow_continuation wf) bytes) (s, w1) (λ r _, r = o)).
  { apply (runner_ok quiet id f in_order); [done|done|by apply tids_nodup; [apply no_duplicate_nodup|]|done| |].
    - split; [done|]. split; [|done]. exists s. by split.
    - intros t _. split; (split; [done|]); rewrite Hst; by intros ? [= <-]. }
  unfold does in Hm. destruct (execute_with_checkpointing _ _ bytes (s, w1)) as [[r|] [s2 w2]] eqn:Hrun; [|done].
  destruct Hm as (((_ & Hi2 & _) & _) & _ & ->). cbn in Hi2.
  destruct (execute_and_finalize_ok quiet wf bytes s w1 o s2 w2 Hrun) as (s3 & w3 & -> & Hs3 & Hlk).
  rewrite Hi2 in Hlk. by exists s3, w3.
Qed.

(** A runner that dies is replaced: after any number of task steps of a fresh
    instance of a linear workflow, a runner that finds only what is stored resumes
    the instance from its recorded results and reports it completed, with the
    output the uninterrupted run would have stored. *)
Theorem runner_resumes_crashed_run
    `{Sha256, Chrono, FloatOps, Display, SerdeJson, EnvelopeCodec, TaskTiming, Tokio}
    {F : Type} `{Environment InMemoryBackend, AsyncRuntime F}
    (f : string → Bytes → result BoxError Bytes) (wf : Worker.Workflow F) (id : string) (input o : Bytes)
    (c' : WorkflowContinuation F) (w w1 w2 : World InMemoryBackend) (s : WorkflowSnapshot) (x : Bytes) (st : ExecState) :
  let c := workflow_continuation wf in
  (∀ n b, others n b = b) → workflow_task_index wf = index_build c →
  implemented f c → linear c = true → paced c = true →
  find_duplicate_id c = None → collision_free (node_ids c) →
  validate_instance_id id = Ok () → snapshots (store w) !! id = None →
  pending (store w) id Cancel = None → pending (store w) id Pause = None → evaluates f eq c input o →
  check_then_prepare id (workflow_definition_hash wf) input (first_task_hint c) Conflict.Fail w = (Ok (Fresh s), w1) →
  runner_steps (workflow_task_index wf) c input (s, w1) c' x st → immediate c' = true → store w2 = store st.2 →
  ∃ s' w', runner_resume wf id w2 = (Ok Status.Completed, w') ∧
    snapshots (store w') !! id = Some s' ∧ state s' = Completed o.
Proof.
  intros c quiet Hix Him Hl Hpa Hd Hcf Hid Hs Hc Hp He Hprep Hsteps Him' Hw. rewrite Hix in Hsteps.
  assert (Hct : contained c c) by by exists None.
  pose proof (runner_steps_durable f _ _ _ _ _ _ _ Hd Hcf Hsteps Hl Hct Him) as Hruns.
  pose (cb := callback_of f). assert (Hf : ∀ n id i, run_task n id i = f id i) by done.
  pose proof (fresh_at_step quiet f _ _ _ _ _ _ _ _ Hd Hcf Hpa Hid Hs Hc Hp He Hprep) as Hat.
  apply (at_step_runs quiet id f Hf _ _ _ _ _ _ _ _ _ Hruns) in Hat.
  destruct (resume_from_store quiet id f Hf _ _ _ _ _ _ _ Hid Him' Hat Hw)
    as (s' & w3 & s2 & w4 & Hready & Hrun & Hi2).
  rewrite (runner_resume_prepared wf id w2 Hid), Hready.
  rewrite <-(runner_agrees f Hf c Hd Hcf c Hl Hct Him) in Hrun.
  rewrite <-Hix in Hrun.
  destruct (execute_and_finalize_ok quiet wf x s' w3 o s2 w4 Hrun) as (s3 & w5 & -> & Hs3 & Hlk).
  rewrite Hi2 in Hlk. by exists s3, w5.
Qed.

(** ** Witnesses *)

Module RunnerExample.
Import Toy WorkflowExample ExecExample Examples DurabilityExample.

#[local] Instance tokio : Tokio := λ _, "panicked".
#[local] Instance bytes_input : InputCodec Bytes := Ok.

Definition step (id : string) (next : option (WorkflowContinuation string)) : WorkflowContinuation string :=
  Task id (Some id) None None None None [] next.
(** [validate], then by region, then mail and audit at the same time, then [close]. *)
Definition order : WorkflowContinuation string :=
  step "validate" (Some
    (Branch "route" (Some "route::key_fn") [("eu", step "ship_eu" None)] None (Some
      (Fork "mail||audit" [step "mail" None; step "audit" None] (Some (step "close" None)))))).
Definition workflow (c : WorkflowContinuation string) : Worker.Workflow string :=
  MkWorkflow "orders" None hash c (index_build c).

Lemma runner_run_correct_witness :
  ∃ s w', runner_run runner_new (workflow order) "i" (as_bytes "in") w0 = (Ok Status.Completed, w') ∧
    snapshots (store w') !! "i" = Some s ∧ state s = Completed order_output.
Proof.
  apply (runner_run_correct append_name (workflow order) "i" (as_bytes "in") (as_bytes "in")); try done.
  - apply (bool_decide_unpack _). vm_compute. exact I.
  - apply meaning. vm_compute. reflexivity.
Defined.

(** A retried task, a loop, a child workflow and a delay. *)
Definition nightly : WorkflowContinuation string :=
  Task "fetch" (Some "fetch") (Some 5) (Some (MkRetryPolicy 2 (from_secs 1) f32_two None)) None None [] (Some
    (Loop "poll" (step "probe" None) 3 ExitWithLast (Some
      (ChildWorkflow "sub" (step "inner" None) (Some (Delay "wait" (from_secs 60) None)))))).
Definition begun (c : WorkflowContinuation string) : WorkflowSnapshot * World InMemoryBackend :=
  match check_then_prepare "i" hash (as_bytes "in") (first_task_hint c) Conflict.Fail w0 with
  | (Ok (Fresh s), w) => (s, w)
  | (_, w) => (snapshot_new 0 "i" hash, w)
  end.

Lemma runner_equals_durable_witness :
  execute_with_checkpointing (index_build nightly) nightly (as_bytes "in") (begun nightly) =
  execute_continuation_with_checkpointing nightly (as_bytes "in") (begun nightly).
Proof.
  apply (runner_equals_durable append_name); try done.
  apply (bool_decide_unpack _). vm_compute. exact I.
Defined.

Definition chain : WorkflowContinuation string := step "a" (Some (step "b" (Some (step "c" None)))).
Definition died : ExecState :=
  (runner_task_step (index_build chain) "a" "a" None None (get_next chain) (as_bytes "in") (begun chain)).2.

Lemma runner_resumes_crashed_run_witness :
  ∃ s' w', runner_resume (workflow chain) "i" (later_world died 100) = (Ok Status.Completed, w') ∧
    snapshots (store w') !! "i" = Some s' ∧ state s' = Completed (as_bytes "in a b c").
Proof.
  eapply (runner_resumes_crashed_run append_name (workflow chain) "i" (as_bytes "in") (as_bytes "in a b c")
    (step "b" (Some (step "c" None))) w0 (begun chain).2 (later_world died 100) (begun chain).1 (as_bytes "in a") died).
  - intros; reflexivity.
  - reflexivity.
  - done.
  - vm_compute; reflexivity.
  - vm_compute; reflexivity.
  - vm_compute; reflexivity.
  - apply (bool_decide_unpack _). vm_compute. exact I.
  - vm_compute; reflexivity.
  - reflexivity.
  - reflexivity.
  - reflexivity.
  - apply meaning. vm_compute. reflexivity.
  - unfold begun. rewrite fresh_start; [reflexivity|intros; reflexivity|reflexivity|reflexivity].
  - rewrite <-surjective_pairing. eapply RunnerStep; [apply run_result; vm_compute; reflexivity|constructor].
  - vm_compute; reflexivity.
  - apply later_store.
Defined.
End RunnerExample.
