(* ===== verification/Registry.v ===== *)
(** * Typed tasks and the task registry ([task.rs], [registry.rs], [loop_result.rs],
    [branch_results.rs], [deps.rs] of [sayiir-core])

    A workflow's nodes hold functions on bytes; users write functions on their own
    types.  [task.rs] erases the types with a codec, for tasks, loop bodies, fork
    branches and joins; [registry.rs] does it again for the functions it hands out
    by id.  User code is a function of its input and of the number of the call, so
    that two calls may answer differently.

    The registry is the map from ids to functions and metadata; [deps.rs] is the
    container from which tasks with injected services are made. *)

From S2P Require Import Prelude Hash32 SnapshotFormat Task Workflow Serializable Backend Runtime SyncExec.
Import LoopEnvelope.

(** ** Codecs, by type *)

Class TypeName (T : Type) : Type := type_name : string.
Class EncodeValue (T : Type) : Type := encode_value : T → result BoxError Bytes.
Class DecodeValue (T : Type) : Type := decode_value : Bytes → result BoxError T.
(** What a codec promises of a type: what it encodes, it decodes. *)
Class CodecLaws (T : Type) `{EncodeValue T, DecodeValue T} : Prop :=
  decode_encode : ∀ (x : T) b, encode_value x = Ok b → decode_value b = Ok x.

(** ** Loop results ([loop_result.rs]) *)

Module Loops.
Inductive LoopResult (T : Type) : Type := Again (v : T) | Done (v : T).
Arguments Again {T}.
Arguments Done {T}.
Definition is_done {T} (r : LoopResult T) : bool := match r with Done _ => true | Again _ => false end.
Definition is_again {T} (r : LoopResult T) : bool := match r with Again _ => true | Done _ => false end.
Definition into_inner {T} (r : LoopResult T) : T := match r with Again v | Done v => v end.
Definition into_decision {T} (r : LoopResult T) : LoopDecision * T :=
  match r with Again v => (LoopEnvelope.Again, v) | Done v => (LoopEnvelope.Done, v) end.
End Loops.
Abbreviation LoopResult := Loops.LoopResult.

(** ** Branch results ([branch_results.rs], [BranchOutputs] of [task.rs]) *)

Definition NamedBranchResults : Type := list (string * Bytes).
(** [into_map]: a later entry replaces an earlier one of the same name. *)
Definition into_map (results : NamedBranchResults) : gmap string Bytes :=
  foldl (λ m r, <[r.1 := r.2]> m) ∅ results.

Record BranchOutputs : Type := MkBranchOutputs { outputs : gmap string Bytes }.
Definition branch_names (o : BranchOutputs) : list string := (map_to_list (outputs o)).*1.
Definition outputs_contains (name : string) (o : BranchOutputs) : bool := bool_decide (is_Some (outputs o !! name)).
Definition outputs_len (o : BranchOutputs) : nat := size (outputs o).

(** ** Erasing types *)

(** A [CoreTask]: the [n]-th call, on an input. *)
Definition CoreTask (I O : Type) : Type := nat → I → result BoxError O.
Definition UntypedCoreTask : Type := CoreTask Bytes Bytes.

Section Erasure.
Context `{Sha256}.

Definition decode_failed (I : Type) `{TypeName I} (task_id : string) (e : BoxError) : BoxError :=
  BoxCodec (DecodeFailed (TaskId_from task_id) type_name e).
Definition encode_failed (task_id : string) (e : BoxError) : BoxError :=
  BoxCodec (EncodeFailed (TaskId_from task_id) e).

(** [BranchOutputs::get_by_id]; a missing branch is a [WorkflowError], boxed. *)
Definition get_by_id `{Display} {T} `{DecodeValue T} (name : string) (o : BranchOutputs) : result BoxError T :=
  bytes ← ok_or (outputs o !! name) (BoxOther (workflow_error_to_string (WF.BranchNotFound name)));
  decode_value bytes.

Section Typed.
Context {I O : Type} `{TypeName I, DecodeValue I, EncodeValue O}.

(** [impl_codec_task!]. *)
Definition codec_task (task_id : string) (func : CoreTask I O) : UntypedCoreTask := λ n input,
  decoded_input ← map_err (decode_failed I task_id) (decode_value input);
  output ← func n decoded_input;
  map_err (encode_failed task_id) (encode_value output).

(** [to_core_task_arc] and [to_core_task]. *)
Definition to_core_task_arc (id : string) (func : CoreTask I O) : UntypedCoreTask := codec_task id func.
Definition to_core_task (id : string) (func : CoreTask I O) : UntypedCoreTask := to_core_task_arc id func.

(** [wrap_core_task]. *)
Definition wrap_core_task (id : string) (task : CoreTask I O) : UntypedCoreTask := λ n input,
  decoded_input ← map_err (decode_failed I id) (decode_value input);
  output ← task n decoded_input;
  map_err (encode_failed id) (encode_value output).

(** [to_core_loop_task_arc] and [wrap_core_loop_task]: the inner value is encoded,
    the decision is the envelope's tag. *)
Definition to_core_loop_task_arc (id : string) (func : CoreTask I (LoopResult O)) : UntypedCoreTask := λ n input,
  decoded_input ← map_err (decode_failed I id) (decode_value input);
  loop_result ← func n decoded_input;
  let (decision, inner) := Loops.into_decision loop_result in
  inner_bytes ← map_err (encode_failed id) (encode_value inner);
  Ok (encode_loop_envelope decision inner_bytes).
Definition wrap_core_loop_task (id : string) (task : CoreTask I (LoopResult O)) : UntypedCoreTask := λ n input,
  decoded_input ← map_err (decode_failed I id) (decode_value input);
  loop_result ← task n decoded_input;
  let (decision, inner) := Loops.into_decision loop_result in
  inner_bytes ← map_err (encode_failed id) (encode_value inner);
  Ok (encode_loop_envelope decision inner_bytes).

(** [task::Branch], [branch], [branch_to_core_task], [Branch::erase]. *)
Record TypedBranch : Type := MkTypedBranch { tb_id : string; tb_func : CoreTask I O }.
Definition branch (id : string) (f : CoreTask I O) : TypedBranch := MkTypedBranch id f.
Definition branch_to_core_task (b : TypedBranch) : UntypedCoreTask := codec_task (tb_id b) (tb_func b).
End Typed.
Arguments TypedBranch : clear implicits.

Record ErasedBranch : Type := MkErasedBranch { eb_id : string; eb_task : UntypedCoreTask }.
Definition erase {I O} `{TypeName I, DecodeValue I, EncodeValue O} (b : TypedBranch I O) : ErasedBranch :=
  MkErasedBranch (tb_id b) (branch_to_core_task b).

(** [HeterogeneousJoinTaskWrapper], [to_heterogeneous_join_task_arc] and
    [to_heterogeneous_join_task]. *)
Section Join.
Context {O : Type} `{TypeName NamedBranchResults, DecodeValue NamedBranchResults, EncodeValue O}.
Definition to_heterogeneous_join_task_arc (id : string) (func : CoreTask BranchOutputs O) : UntypedCoreTask :=
  λ n input,
    named_results ← map_err (decode_failed NamedBranchResults id) (decode_value input);
    output ← func n (MkBranchOutputs (into_map named_results));
    map_err (encode_failed id) (encode_value output).
Definition to_heterogeneous_join_task (id : string) (func : CoreTask BranchOutputs O) : UntypedCoreTask :=
  to_heterogeneous_join_task_arc id func.
End Join.
End Erasure.

(** ** The registry ([registry.rs]) *)

(** A factory makes the same task every time it is called. *)
Record TaskEntry : Type := MkTaskEntry { factory : UntypedCoreTask; entry_metadata : TaskMetadata }.
Definition TaskRegistry : Type := gmap string TaskEntry.
Definition registry_new : TaskRegistry := ∅.

(** [merge]: existing entries are kept. *)
Definition registry_merge (other self : TaskRegistry) : TaskRegistry := self ∪ other.

Section Registry.
Context `{Sha256}.

(** [TaskWrapper], [FnTaskWrapper], [LoopFnTaskWrapper]. *)
Section Wrappers.
Context {I O : Type} `{TypeName I, DecodeValue I, EncodeValue O}.
Definition TaskWrapper (task_id : string) (task : CoreTask I O) : UntypedCoreTask := λ n input,
  decoded_input ← map_err (decode_failed I task_id) (decode_value input);
  output ← task n decoded_input;
  map_err (encode_failed task_id) (encode_value output).
Definition FnTaskWrapper (task_id : string) (func : CoreTask I O) : UntypedCoreTask := λ n input,
  decoded_input ← map_err (decode_failed I task_id) (decode_value input);
  output ← func n decoded_input;
  map_err (encode_failed task_id) (encode_value output).
Definition LoopFnTaskWrapper (task_id : string) (func : CoreTask I (LoopResult O)) : UntypedCoreTask := λ n input,
  decoded_input ← map_err (decode_failed I task_id) (decode_value input);
  loop_result ← func n decoded_input;
  let (decision, inner) := Loops.into_decision loop_result in
  inner_bytes ← map_err (encode_failed task_id) (encode_value inner);
  Ok (encode_loop_envelope decision inner_bytes).

(** Registering: structs, closures, loop bodies. *)
Definition register_task_arc (id : string) (task : CoreTask I O) (metadata : TaskMetadata) (r : TaskRegistry) :
    TaskRegistry := <[id := MkTaskEntry (TaskWrapper id task) metadata]> r.
Definition register_with_metadata (id : string) (task : CoreTask I O) (metadata : TaskMetadata) (r : TaskRegistry) :
    TaskRegistry := register_task_arc id task metadata r.
Definition register (id : string) (task : CoreTask I O) (r : TaskRegistry) : TaskRegistry :=
  register_with_metadata id task TaskMetadata_default r.
Definition register_fn_arc (id : string) (func : CoreTask I O) (metadata : TaskMetadata) (r : TaskRegistry) :
    TaskRegistry := <[id := MkTaskEntry (FnTaskWrapper id func) metadata]> r.
Definition register_fn_with_metadata (id : string) (func : CoreTask I O) (metadata : TaskMetadata)
    (r : TaskRegistry) : TaskRegistry := register_fn_arc id func metadata r.
Definition register_fn (id : string) (func : CoreTask I O) (r : TaskRegistry) : TaskRegistry :=
  register_fn_with_metadata id func TaskMetadata_default r.
Definition register_loop_task_arc (id : string) (task : CoreTask I (LoopResult O)) (metadata : TaskMetadata)
    (r : TaskRegistry) : TaskRegistry := <[id := MkTaskEntry (wrap_core_loop_task id task) metadata]> r.
Definition register_loop_fn_arc (id : string) (func : CoreTask I (LoopResult O)) (metadata : TaskMetadata)
    (r : TaskRegistry) : TaskRegistry := <[id := MkTaskEntry (LoopFnTaskWrapper id func) metadata]> r.
End Wrappers.

Section Joins.
Context {O : Type} `{TypeName NamedBranchResults, DecodeValue NamedBranchResults, EncodeValue O}.
Definition register_arc_join (id : string) (func : CoreTask BranchOutputs O) (metadata : TaskMetadata)
    (r : TaskRegistry) : TaskRegistry := <[id := MkTaskEntry (to_heterogeneous_join_task_arc id func) metadata]> r.
Definition register_join_with_metadata (id : string) (func : CoreTask BranchOutputs O) (metadata : TaskMetadata)
    (r : TaskRegistry) : TaskRegistry := register_arc_join id func metadata r.
Definition register_join (id : string) (func : CoreTask BranchOutputs O) (r : TaskRegistry) : TaskRegistry :=
  register_join_with_metadata id func TaskMetadata_default r.
End Joins.
End Registry.

Definition registry_get (id : string) (r : TaskRegistry) : option UntypedCoreTask := factory <$> r !! id.
Definition get_metadata (id : string) (r : TaskRegistry) : option TaskMetadata := entry_metadata <$> r !! id.
Definition get_with_metadata (id : string) (r : TaskRegistry) : option (UntypedCoreTask * TaskMetadata) :=
  (λ e, (factory e, entry_metadata e)) <$> r !! id.
(** [set_metadata]; the answer says whether the id is registered. *)
Definition set_metadata (id : string) (metadata : TaskMetadata) (r : TaskRegistry) : bool * TaskRegistry :=
  match r !! id with
  | Some e => (true, <[id := MkTaskEntry (factory e) metadata]> r)
  | None => (false, r)
  end.
Definition registry_contains (id : string) (r : TaskRegistry) : bool := bool_decide (is_Some (r !! id)).
Definition registry_len (r : TaskRegistry) : nat := size r.
Definition registry_task_ids (r : TaskRegistry) : list string := (map_to_list r).*1.

(** [RegistryBuilder]: the registry with the codec held once. *)
Record RegistryBuilder : Type := MkRegistryBuilder { rb_registry : TaskRegistry }.
Definition registry_with_codec : RegistryBuilder := MkRegistryBuilder registry_new.
Definition rb_register `{Sha256} {I O} `{TypeName I, DecodeValue I, EncodeValue O} (id : string)
    (task : CoreTask I O) (b : RegistryBuilder) : RegistryBuilder :=
  MkRegistryBuilder (register id task (rb_registry b)).
Definition rb_register_with_metadata `{Sha256} {I O} `{TypeName I, DecodeValue I, EncodeValue O} (id : string)
    (task : CoreTask I O) (metadata : TaskMetadata) (b : RegistryBuilder) : RegistryBuilder :=
  MkRegistryBuilder (register_with_metadata id task metadata (rb_registry b)).
Definition rb_register_fn `{Sha256} {I O} `{TypeName I, DecodeValue I, EncodeValue O} (id : string)
    (func : CoreTask I O) (b : RegistryBuilder) : RegistryBuilder :=
  MkRegistryBuilder (register_fn id func (rb_registry b)).
Definition rb_register_fn_with_metadata `{Sha256} {I O} `{TypeName I, DecodeValue I, EncodeValue O} (id : string)
    (func : CoreTask I O) (metadata : TaskMetadata) (b : RegistryBuilder) : RegistryBuilder :=
  MkRegistryBuilder (register_fn_with_metadata id func metadata (rb_registry b)).
Definition rb_register_join `{Sha256} {O}
    `{TypeName NamedBranchResults, DecodeValue NamedBranchResults, EncodeValue O} (id : string)
    (func : CoreTask BranchOutputs O) (b : RegistryBuilder) : RegistryBuilder :=
  MkRegistryBuilder (register_join id func (rb_registry b)).
Definition rb_register_join_with_metadata `{Sha256} {O}
    `{TypeName NamedBranchResults, DecodeValue NamedBranchResults, EncodeValue O} (id : string)
    (func : CoreTask BranchOutputs O) (metadata : TaskMetadata) (b : RegistryBuilder) : RegistryBuilder :=
  MkRegistryBuilder (register_join_with_metadata id func metadata (rb_registry b)).
Definition rb_build (b : RegistryBuilder) : TaskRegistry := rb_registry b.

(** ** Injected services ([deps.rs]) *)

Module Injection.
(** [TypeId], and a boxed [dyn Any] with its [downcast]. *)
Class AnyType (Any T : Type) : Type := {
  type_id : positive;
  any_type_name : string;
  to_any : T → Any;
  downcast : Any → option T
}.
Arguments type_id {Any} T {_}.
Arguments any_type_name {Any} T {_}.
Class AnyTypeLaws (Any T : Type) `{AnyType Any T} : Prop := downcast_any : ∀ x : T, downcast (to_any x) = Some x.

Record MissingDep : Type := MkMissingDep { missing_type_name : string }.

Section Deps.
Context {Any : Type}.
Definition Deps : Type := gmap positive Any.
Definition deps_new : Deps := ∅.
Definition deps_get (T : Type) `{AnyType Any T} (d : Deps) : option T := d !! type_id T ≫= downcast.
Definition try_get (T : Type) `{AnyType Any T} (d : Deps) : result MissingDep T :=
  ok_or (deps_get T d) (MkMissingDep (any_type_name T)).
(** [expect] panics, [None], on a miss. *)
Definition expect (T : Type) `{AnyType Any T} (d : Deps) : option T := deps_get T d.
Definition deps_contains (T : Type) `{AnyType Any T} (d : Deps) : bool := bool_decide (is_Some (d !! type_id T)).
(** [merge]: the entries of [other] win. *)
Definition deps_merge (other self : Deps) : Deps := other ∪ self.
(** [DepsBuilder::insert]. *)
Definition deps_insert {T : Type} `{AnyType Any T} (dep : T) (d : Deps) : Deps := <[type_id T := to_any dep]> d.

(** [RegisterableTask] and [DepsInjectable]; [from_deps] panics with [None]. *)
Record RegisterableTask (I O : Type) : Type :=
  MkRegisterableTask { rt_id : string; rt_metadata : TaskMetadata; rt_run : CoreTask I O }.
Record DepsInjectable (I O : Type) : Type := MkDepsInjectable {
  di_id : string;
  di_metadata : TaskMetadata;
  verify_deps : Deps → list MissingDep;
  from_deps : Deps → option (CoreTask I O)
}.
Arguments MkRegisterableTask {I O}.
Arguments rt_id {I O}.
Arguments rt_metadata {I O}.
Arguments rt_run {I O}.
Arguments di_id {I O}.
Arguments di_metadata {I O}.
Arguments verify_deps {I O}.
Arguments from_deps {I O}.

(** [register_from_deps]. *)
Definition register_from_deps `{Sha256} {I O} `{TypeName I, DecodeValue I, EncodeValue O}
    (t : DepsInjectable I O) (d : Deps) (r : TaskRegistry) : option (result (list MissingDep) () * TaskRegistry) :=
  match verify_deps t d with
  | [] => (λ task, (Ok (), register_with_metadata (di_id t) task (di_metadata t) r)) <$> from_deps t d
  | missing => Some (Err missing, r)
  end.
End Deps.
Arguments Deps : clear implicits.
Arguments MkRegisterableTask {I O}.
Arguments rt_id {I O}.
Arguments rt_metadata {I O}.
Arguments rt_run {I O}.
End Injection.

(** ** Lemmas *)

Section Lemmas.
Context `{Sha256}.

(** The registry's wrappers are those of the nodes. *)
Lemma fn_wrapper_agrees {I O} `{TypeName I, DecodeValue I, EncodeValue O} id (f : CoreTask I O) :
  FnTaskWrapper id f = to_core_task_arc id f ∧ TaskWrapper id f = wrap_core_task id f ∧
  wrap_core_task id f = to_core_task id f ∧ eb_task (erase (branch id f)) = to_core_task id f.
Proof. done. Qed.
Lemma loop_wrapper_agrees {I O} `{TypeName I, DecodeValue I, EncodeValue O} id (f : CoreTask I (LoopResult O)) :
  LoopFnTaskWrapper id f = to_core_loop_task_arc id f ∧ wrap_core_loop_task id f = to_core_loop_task_arc id f.
Proof. done. Qed.

(** An erased task on an encoded input. *)
Lemma codec_task_encoded {I O} `{TypeName I, EncodeValue I, DecodeValue I, !CodecLaws I, EncodeValue O}
    id (f : CoreTask I O) n x b :
  encode_value x = Ok b →
  codec_task id f n b = (y ← f n x; map_err (encode_failed id) (encode_value y)).
Proof. intros Hb. unfold codec_task. by rewrite (decode_encode x b Hb). Qed.

Lemma loop_task_encoded {I O} `{TypeName I, EncodeValue I, DecodeValue I, !CodecLaws I, EncodeValue O}
    id (f : CoreTask I (LoopResult O)) n x b :
  encode_value x = Ok b →
  to_core_loop_task_arc id f n b =
  (y ← f n x;
   inner ← map_err (encode_failed id) (encode_value (Loops.into_inner y));
   Ok (encode_loop_envelope (Loops.into_decision y).1 inner)).
Proof.
  intros Hb. unfold to_core_loop_task_arc. rewrite (decode_encode x b Hb). cbn. by destruct (f n x) as [[]|].
Qed.

(** Distinct names are kept apart. *)
Lemma named_insert_lookup (l : NamedBranchResults) (m : gmap string Bytes) name b :
  NoDup l.*1 →
  (foldl (λ m r, <[r.1 := r.2]> m) m l !! name = Some b ↔ (name, b) ∈ l ∨ ((name ∉ l.*1) ∧ m !! name = Some b)).
Proof.
  revert m; induction l as [|[k c] l IH]; intros m Hnd; [set_solver|].
  cbn [foldl fmap list_fmap fst snd] in Hnd |- *. apply NoDup_cons in Hnd as [Hk Hnd]. rewrite (IH _ Hnd).
  destruct (decide (k = name)) as [->|Hne].
  - rewrite lookup_insert_eq. assert ((name, b) ∈ l → False); [|set_solver].
    intros Hin. apply Hk, list_elem_of_fmap. by exists (name, b).
  - rewrite lookup_insert_ne by done. set_solver.
Qed.
Lemma into_map_lookup (l : NamedBranchResults) name b :
  NoDup l.*1 → (into_map l !! name = Some b ↔ (name, b) ∈ l).
Proof.
  intros Hnd. unfold into_map. rewrite named_insert_lookup by done. rewrite lookup_empty. naive_solver.
Qed.
End Lemmas.
