(* ===== verification/Builder.v ===== *)
(** * The typed workflow builder ([sayiir-core/src/builder.rs])

    [WorkflowBuilder] assembles a continuation step by step: tasks, loops, delays,
    signals, child workflows, forks ([ForkBuilder], [BranchCollector]) and routed
    branches ([RouteBuilder], [SubBuilder], [RouteRegisteredBuilder]), with or
    without a registry, and checks it in [build].

    The builder's type parameters are the types of the functions it is given; the
    continuation type parameter is the option of its continuation, [NoContinuation]
    being [None].  A [HashMap] is iterated in an order the source does not specify:
    [map_iter] and [set_iter] are any such order. *)

From S2P Require Import Prelude Hash32 SnapshotFormat Task Workflow TaskIndex Serializable Backend Runtime SyncExec Checkpoint WorkerNav Worker Registry.
Import Injection.

(** ** Iteration of hash maps and sets *)

Class HashOrder : Type := {
  map_iter : ∀ {A : Type}, gmap string A → list (string * A);
  set_iter : gset string → list string
}.
Class HashOrderLaws `{HashOrder} : Prop := {
  map_iter_perm : ∀ {A : Type} (m : gmap string A), map_iter m ≡ₚ map_to_list m;
  set_iter_perm : ∀ s : gset string, set_iter s ≡ₚ elements s
}.

Abbreviation Cont := (WorkflowContinuation UntypedCoreTask).

(** ** Continuation state and registry behaviour *)

(** [ContinuationState::append]. *)
Definition append (self : option Cont) (new_task : Cont) : Cont :=
  match self with None => new_task | Some c => append_to_chain new_task c end.

(** A task's node, its fields from the metadata. *)
Definition task_node (id : string) (func : option UntypedCoreTask) (m : TaskMetadata) : Cont :=
  Task id func (md_timeout m) (md_retries m) (md_version m) (Priority_as_u8 <$> md_priority m) (md_tags m) None.
(** A task's node without metadata. *)
Definition plain_node (id : string) (func : UntypedCoreTask) : Cont := Task id (Some func) None None None None [] None.

(** [RegistryBehavior]. *)
Class RegistryBehavior (R : Type) : Type := {
  maybe_register : ∀ {I O : Type} `{TypeName I, DecodeValue I, EncodeValue O}, string → CoreTask I O → R → R;
  maybe_register_core_task : ∀ {I O : Type} `{TypeName I, DecodeValue I, EncodeValue O},
    string → CoreTask I O → TaskMetadata → R → R;
  maybe_register_core_loop_task : ∀ {I O : Type} `{TypeName I, DecodeValue I, EncodeValue O},
    string → CoreTask I (LoopResult O) → TaskMetadata → R → R;
  maybe_register_loop : ∀ {I O : Type} `{TypeName I, DecodeValue I, EncodeValue O},
    string → CoreTask I (LoopResult O) → R → R;
  maybe_register_join : ∀ {O : Type} `{TypeName NamedBranchResults, DecodeValue NamedBranchResults, EncodeValue O},
    string → CoreTask BranchOutputs O → R → R
}.

Inductive NoRegistry : Type := MkNoRegistry.
#[export] Instance no_registry_behavior : RegistryBehavior NoRegistry := {
  maybe_register _ _ _ _ _ _ _ r := r;
  maybe_register_core_task _ _ _ _ _ _ _ _ r := r;
  maybe_register_core_loop_task _ _ _ _ _ _ _ _ r := r;
  maybe_register_loop _ _ _ _ _ _ _ r := r;
  maybe_register_join _ _ _ _ _ _ r := r
}.
#[export] Instance task_registry_behavior `{Sha256} : RegistryBehavior TaskRegistry := {
  maybe_register _ _ _ _ _ id func r := register_fn_arc id func TaskMetadata_default r;
  maybe_register_core_task _ _ _ _ _ id task metadata r := register_task_arc id task metadata r;
  maybe_register_core_loop_task _ _ _ _ _ id task metadata r := register_loop_task_arc id task metadata r;
  maybe_register_loop _ _ _ _ _ id func r := register_loop_fn_arc id func TaskMetadata_default r;
  maybe_register_join _ _ _ _ id func r := register_arc_join id func TaskMetadata_default r
}.

(** ** The builder *)

(** The context's fields that do not concern types. *)
Record WorkflowContext : Type := MkWorkflowContext { ctx_name : string; ctx_metadata_json : option string }.
Definition context_new (name : string) : WorkflowContext := MkWorkflowContext name None.

Record WorkflowBuilder (R : Type) : Type := MkWorkflowBuilder {
  context : WorkflowContext;
  continuation : option Cont;
  registry : R;
  last_task_id : option string;
  branch_counter : nat;
  loop_counter : nat;
  child_counter : nat;
  errors : list BuildError
}.
Arguments MkWorkflowBuilder {R}.
Arguments context {R}.
Arguments continuation {R}.
Arguments registry {R}.
Arguments last_task_id {R}.
Arguments branch_counter {R}.
Arguments loop_counter {R}.
Arguments child_counter {R}.
Arguments errors {R}.

Definition builder_new (ctx : WorkflowContext) : WorkflowBuilder NoRegistry :=
  MkWorkflowBuilder ctx None MkNoRegistry None 0 0 0 [].
Definition with_existing_registry (r : TaskRegistry) (self : WorkflowBuilder NoRegistry) : WorkflowBuilder TaskRegistry :=
  MkWorkflowBuilder (context self) None r None 0 0 0 [].
Definition with_registry (self : WorkflowBuilder NoRegistry) : WorkflowBuilder TaskRegistry :=
  with_existing_registry registry_new self.

Section Builder.
Context `{Sha256, HashOrder}.

(** The end of every step: the node is appended and named. *)
Definition push_node {R} (node : Cont) (last : string) (self : WorkflowBuilder R) : WorkflowBuilder R :=
  MkWorkflowBuilder (context self) (Some (append (continuation self) node)) (registry self) (Some last)
    (branch_counter self) (loop_counter self) (child_counter self) (errors self).
Definition set_registry {R} (r : R) (self : WorkflowBuilder R) : WorkflowBuilder R :=
  MkWorkflowBuilder (context self) (continuation self) r (last_task_id self) (branch_counter self)
    (loop_counter self) (child_counter self) (errors self).
Definition push_error {R} (e : BuildError) (self : WorkflowBuilder R) : WorkflowBuilder R :=
  MkWorkflowBuilder (context self) (continuation self) (registry self) (last_task_id self) (branch_counter self)
    (loop_counter self) (child_counter self) (errors self ++ [e]).
Definition next_loop {R} (self : WorkflowBuilder R) : WorkflowBuilder R :=
  MkWorkflowBuilder (context self) (continuation self) (registry self) (last_task_id self) (branch_counter self)
    (S (loop_counter self)) (child_counter self) (errors self).
Definition next_child {R} (self : WorkflowBuilder R) : WorkflowBuilder R :=
  MkWorkflowBuilder (context self) (continuation self) (registry self) (last_task_id self) (branch_counter self)
    (loop_counter self) (S (child_counter self)) (errors self).
Definition check_iterations {R} (id : string) (max_iterations : Z) (self : WorkflowBuilder R) : WorkflowBuilder R :=
  if bool_decide (max_iterations = 0) then push_error (InvalidMaxIterations id) self else self.

Section Steps.
Context {R : Type} `{RegistryBehavior R}.

(** [then]. *)
Definition then_ {I O} `{TypeName I, DecodeValue I, EncodeValue O} (id : string) (func : CoreTask I O)
    (self : WorkflowBuilder R) : WorkflowBuilder R :=
  let self := set_registry (maybe_register id func (registry self)) self in
  push_node (plain_node id (to_core_task_arc id func)) id self.

(** [loop_task_with_policy] and [loop_task]. *)
Definition loop_task_with_policy {I O} `{TypeName I, DecodeValue I, EncodeValue O} (id : string)
    (func : CoreTask I (LoopResult O)) (max_iterations : Z) (on_max : MaxIterationsPolicy)
    (self : WorkflowBuilder R) : WorkflowBuilder R :=
  let self := check_iterations id max_iterations self in
  let self := set_registry (maybe_register_loop id func (registry self)) self in
  let loop_id := loop_node_id (loop_counter self) in
  let body := plain_node id (to_core_loop_task_arc id func) in
  push_node (Loop loop_id body max_iterations on_max None) loop_id (next_loop self).
Definition loop_task {I O} `{TypeName I, DecodeValue I, EncodeValue O} (id : string)
    (func : CoreTask I (LoopResult O)) (max_iterations : Z) (self : WorkflowBuilder R) : WorkflowBuilder R :=
  loop_task_with_policy id func max_iterations Fail self.

(** [then_task_with] and [then_task]. *)
Definition then_task_with {I O} `{TypeName I, DecodeValue I, EncodeValue O} (t : RegisterableTask I O)
    (self : WorkflowBuilder R) : WorkflowBuilder R :=
  let self := set_registry (maybe_register_core_task (rt_id t) (rt_run t) (rt_metadata t) (registry self)) self in
  push_node (task_node (rt_id t) (Some (wrap_core_task (rt_id t) (rt_run t))) (rt_metadata t)) (rt_id t) self.

(** [loop_task_struct_with_policy], [loop_task_struct_with], [loop_task_struct]. *)
Definition loop_task_struct_with_policy {I O} `{TypeName I, DecodeValue I, EncodeValue O}
    (t : RegisterableTask I (LoopResult O)) (max_iterations : Z) (on_max : MaxIterationsPolicy)
    (self : WorkflowBuilder R) : WorkflowBuilder R :=
  let self := check_iterations (rt_id t) max_iterations self in
  let self := set_registry (maybe_register_core_loop_task (rt_id t) (rt_run t) (rt_metadata t) (registry self)) self in
  let loop_id := loop_node_id (loop_counter self) in
  let body := task_node (rt_id t) (Some (wrap_core_loop_task (rt_id t) (rt_run t))) (rt_metadata t) in
  push_node (Loop loop_id body max_iterations on_max None) loop_id (next_loop self).
Definition loop_task_struct_with {I O} `{TypeName I, DecodeValue I, EncodeValue O}
    (t : RegisterableTask I (LoopResult O)) (max_iterations : Z) (self : WorkflowBuilder R) : WorkflowBuilder R :=
  loop_task_struct_with_policy t max_iterations Fail self.
End Steps.

(** [delay], [wait_for_signal], [then_flow]. *)
Definition delay {R} (id : string) (duration : Duration) (self : WorkflowBuilder R) : WorkflowBuilder R :=
  push_node (Delay id duration None) id self.
Definition wait_for_signal {R} (id signal_name : string) (timeout : option Duration) (self : WorkflowBuilder R) :
    WorkflowBuilder R :=
  push_node (AwaitSignal id signal_name timeout None) id self.
Definition child_node_id (counter : nat) : string := "child_" +:+ pretty (N.of_nat counter).
Definition then_flow {R} (child : Worker.Workflow UntypedCoreTask) (self : WorkflowBuilder R) : WorkflowBuilder R :=
  let child_id := child_node_id (child_counter self) in
  push_node (ChildWorkflow child_id (workflow_continuation child) None) child_id (next_child self).

(** ** Registered tasks *)

(** [SerializableWorkflow]: a workflow and its registry. *)
Record SerializableFlow : Type := MkSerializableFlow { inner : Worker.Workflow UntypedCoreTask; flow_registry : TaskRegistry }.
(** [then_serializable_flow]. *)
Definition then_serializable_flow (child : SerializableFlow) (self : WorkflowBuilder TaskRegistry) :
    WorkflowBuilder TaskRegistry :=
  let child_id := child_node_id (child_counter self) in
  let self := set_registry (registry_merge (flow_registry child) (registry self)) (next_child self) in
  push_node (ChildWorkflow child_id (workflow_continuation (inner child)) None) child_id self.

(** The node of a registered task, with the registry's metadata. *)
Definition registered_node (r : TaskRegistry) (id : string) : Cont :=
  task_node id (registry_get id r) (default TaskMetadata_default (get_metadata id r)).
Definition check_registered (id : string) (self : WorkflowBuilder TaskRegistry) : WorkflowBuilder TaskRegistry :=
  match registry_get id (registry self) with
  | None => push_error (TaskNotFound id) self
  | Some _ => self
  end.

(** [then_registered]. *)
Definition then_registered (id : string) (self : WorkflowBuilder TaskRegistry) : WorkflowBuilder TaskRegistry :=
  push_node (registered_node (registry self) id) id (check_registered id self).

(** [loop_task_registered]. *)
Definition loop_task_registered (body_task_id : string) (max_iterations : Z) (on_max : MaxIterationsPolicy)
    (self : WorkflowBuilder TaskRegistry) : WorkflowBuilder TaskRegistry :=
  let self := check_registered body_task_id (check_iterations body_task_id max_iterations self) in
  let body := registered_node (registry self) body_task_id in
  let loop_id := loop_node_id (loop_counter self) in
  push_node (Loop loop_id body max_iterations on_max None) loop_id (next_loop self).

(** [with_metadata]. *)
Definition with_metadata (metadata : TaskMetadata) (self : WorkflowBuilder TaskRegistry) : WorkflowBuilder TaskRegistry :=
  match last_task_id self, continuation self with
  | Some id, Some c =>
      let tid := TaskId_from id in
      let c := set_task_timeout tid (md_timeout metadata) c in
      let c := set_task_retry_policy tid (md_retries metadata) c in
      let c := set_task_version tid (md_version metadata) c in
      MkWorkflowBuilder (context self) (Some c) (set_metadata id metadata (registry self)).2 (Some id)
        (branch_counter self) (loop_counter self) (child_counter self) (errors self)
  | _, _ => self
  end.

(** ** Forks *)

Record ForkBuilder (R : Type) : Type := MkForkBuilder {
  fork_parent : WorkflowBuilder R;         (* everything but the branches *)
  fork_branches : list ErasedBranch
}.
Arguments MkForkBuilder {R}.
Arguments fork_parent {R}.
Arguments fork_branches {R}.

(** [fork]. *)
Definition fork {R} (self : WorkflowBuilder R) : ForkBuilder R := MkForkBuilder self [].

(** [BranchCollector]: [add] and [add_task_with]; [branches] runs the closure. *)
Definition BranchCollector : Type := list ErasedBranch.
Definition collector_add {I O} `{TypeName I, DecodeValue I, EncodeValue O} (id : string) (func : CoreTask I O)
    (c : BranchCollector) : BranchCollector := c ++ [erase (branch id func)].
Definition collector_add_task_with {I O} `{TypeName I, DecodeValue I, EncodeValue O} (t : RegisterableTask I O)
    (c : BranchCollector) : BranchCollector := c ++ [MkErasedBranch (rt_id t) (wrap_core_task (rt_id t) (rt_run t))].
Definition branches {R} (f : BranchCollector → BranchCollector) (self : WorkflowBuilder R) : ForkBuilder R :=
  MkForkBuilder self (f []).

Section ForkSteps.
Context {R : Type} `{RegistryBehavior R}.

(** [ForkBuilder::branch], [branch_task_with]. *)
Definition fork_branch {I O} `{TypeName I, DecodeValue I, EncodeValue O} (id : string) (func : CoreTask I O)
    (self : ForkBuilder R) : ForkBuilder R :=
  let parent := fork_parent self in
  MkForkBuilder (set_registry (maybe_register id func (registry parent)) parent)
    (fork_branches self ++ [erase (branch id func)]).
Definition fork_branch_task_with {I O} `{TypeName I, DecodeValue I, EncodeValue O} (t : RegisterableTask I O)
    (self : ForkBuilder R) : ForkBuilder R :=
  let parent := fork_parent self in
  MkForkBuilder
    (set_registry (maybe_register_core_task (rt_id t) (rt_run t) (rt_metadata t) (registry parent)) parent)
    (fork_branches self ++ [MkErasedBranch (rt_id t) (wrap_core_task (rt_id t) (rt_run t))]).

Definition fork_node (self : ForkBuilder R) (branch_node : ErasedBranch → Cont) (join_task : Cont) : Cont :=
  Fork (derive_fork_id (eb_id <$> fork_branches self)) (branch_node <$> fork_branches self) (Some join_task).

(** [join]: the branches' nodes carry no metadata. *)
Definition fork_join {O} `{TypeName NamedBranchResults, DecodeValue NamedBranchResults, EncodeValue O} (id : string)
    (func : CoreTask BranchOutputs O) (self : ForkBuilder R) : WorkflowBuilder R :=
  let parent := fork_parent self in
  push_node
    (fork_node self (λ b, plain_node (eb_id b) (eb_task b)) (plain_node id (to_heterogeneous_join_task_arc id func)))
    id (set_registry (maybe_register_join id func (registry parent)) parent).
End ForkSteps.

(** [branch_registered], [join_registered]. *)
Definition fork_branch_registered (id : string) (self : ForkBuilder TaskRegistry) : ForkBuilder TaskRegistry :=
  match registry_get id (registry (fork_parent self)) with
  | Some task => MkForkBuilder (fork_parent self) (fork_branches self ++ [MkErasedBranch id task])
  | None => MkForkBuilder (push_error (TaskNotFound id) (fork_parent self)) (fork_branches self)
  end.
Definition join_registered (id : string) (self : ForkBuilder TaskRegistry) : WorkflowBuilder TaskRegistry :=
  let parent := check_registered id (fork_parent self) in
  let r := registry parent in
  push_node
    (fork_node self
      (λ b, task_node (eb_id b) (Some (eb_task b)) (default TaskMetadata_default (get_metadata (eb_id b) r)))
      (registered_node r id)) id parent.

(** ** Routed branches *)

(** [SubBuilder]. *)
Record SubBuilder (R : Type) : Type := MkSubBuilder {
  sub_continuation : option Cont;
  sub_registry : R;
  sub_errors : list BuildError
}.
Arguments MkSubBuilder {R}.
Arguments sub_continuation {R}.
Arguments sub_registry {R}.
Arguments sub_errors {R}.

Definition sub_push {R} (node : Cont) (self : SubBuilder R) : SubBuilder R :=
  MkSubBuilder (Some (append (sub_continuation self) node)) (sub_registry self) (sub_errors self).
Definition sub_then {R} `{RegistryBehavior R} {I O} `{TypeName I, DecodeValue I, EncodeValue O} (id : string)
    (func : CoreTask I O) (self : SubBuilder R) : SubBuilder R :=
  sub_push (plain_node id (to_core_task_arc id func))
    (MkSubBuilder (sub_continuation self) (maybe_register id func (sub_registry self)) (sub_errors self)).
Definition sub_delay {R} (id : string) (duration : Duration) (self : SubBuilder R) : SubBuilder R :=
  sub_push (Delay id duration None) self.
Definition sub_wait_for_signal {R} (id signal_name : string) (timeout : option Duration) (self : SubBuilder R) :
    SubBuilder R := sub_push (AwaitSignal id signal_name timeout None) self.
Definition sub_build {R} (self : SubBuilder R) : option Cont * list BuildError * R :=
  let errors := match sub_continuation self with None => sub_errors self ++ [EmptyBranch] | Some _ => sub_errors self end in
  (sub_continuation self, errors, sub_registry self).

(** [BranchKey]. *)
Class BranchKey (K : Type) : Type := { as_key : K → string; all_keys : list string }.
Arguments all_keys K {_}.

Record RouteBuilder (K R : Type) : Type := MkRouteBuilder {
  route_parent : WorkflowBuilder R;
  route_branch_id : string;
  route_key_fn : UntypedCoreTask;
  named_branches : gmap string Cont;
  default_branch : option Cont
}.
Arguments MkRouteBuilder {K R}.
Arguments route_parent {K R}.
Arguments route_branch_id {K R}.
Arguments route_key_fn {K R}.
Arguments named_branches {K R}.
Arguments default_branch {K R}.

Definition branch_node_id (counter : nat) : string := "branch_" +:+ pretty (N.of_nat counter).
Definition extend_errors {R} (es : list BuildError) (self : WorkflowBuilder R) : WorkflowBuilder R :=
  MkWorkflowBuilder (context self) (continuation self) (registry self) (last_task_id self) (branch_counter self)
    (loop_counter self) (child_counter self) (errors self ++ es).

Section Route.
Context {K R : Type} `{BranchKey K, RegistryBehavior R}.

(** [route]. *)
Definition route {I} `{TypeName I, DecodeValue I, EncodeValue string} (key_fn : CoreTask I K)
    (self : WorkflowBuilder R) : RouteBuilder K R :=
  let counter := S (branch_counter self) in
  let branch_id := branch_node_id counter in
  let key_fn_string : CoreTask I string := λ n input, k ← key_fn n input; Ok (as_key k) in
  let parent := MkWorkflowBuilder (context self) (continuation self)
    (maybe_register (key_fn_id branch_id) key_fn_string (registry self)) (last_task_id self) counter
    (loop_counter self) (child_counter self) (errors self) in
  MkRouteBuilder parent branch_id (to_core_task_arc (key_fn_id branch_id) key_fn_string) ∅ None.

(** A closure run on a fresh sub-builder: [branch], [default_branch]. *)
Definition run_sub (build_fn : SubBuilder R → SubBuilder R) (self : RouteBuilder K R) :
    option Cont * WorkflowBuilder R :=
  let '(cont, es, r) := sub_build (build_fn (MkSubBuilder None (registry (route_parent self)) [])) in
  (cont, extend_errors es (set_registry r (route_parent self))).
Definition route_branch (key : K) (build_fn : SubBuilder R → SubBuilder R) (self : RouteBuilder K R) :
    RouteBuilder K R :=
  let (cont, parent) := run_sub build_fn self in
  MkRouteBuilder parent (route_branch_id self) (route_key_fn self)
    (match cont with
     | Some c => <[as_key key := c]> (named_branches self)
     | None => named_branches self
     end) (default_branch self).
Definition route_default_branch (build_fn : SubBuilder R → SubBuilder R) (self : RouteBuilder K R) :
    RouteBuilder K R :=
  let (cont, parent) := run_sub build_fn self in
  MkRouteBuilder parent (route_branch_id self) (route_key_fn self) (named_branches self)
    (match cont with Some c => Some c | None => default_branch self end).

(** The two checks of [done]. *)
Definition orphan_errors (self : RouteBuilder K R) : list BuildError :=
  match set_iter (dom (named_branches self) ∖ list_to_set (all_keys K)) with
  | [] => []
  | orphans => [OrphanBranches (route_branch_id self) orphans]
  end.
Definition missing_errors (self : RouteBuilder K R) : list BuildError :=
  match default_branch self with
  | Some _ => []
  | None =>
      match set_iter (list_to_set (all_keys K) ∖ dom (named_branches self)) with
      | [] => []
      | missing => [MissingBranches (route_branch_id self) missing]
      end
  end.
(** [RouteBuilder::done]. *)
Definition route_done (self : RouteBuilder K R) : WorkflowBuilder R :=
  push_node
    (Branch (route_branch_id self) (Some (route_key_fn self)) (map_iter (named_branches self)) (default_branch self) None)
    (route_branch_id self) (extend_errors (orphan_errors self ++ missing_errors self) (route_parent self)).
End Route.

(** [RouteRegisteredBuilder]. *)
Record RouteRegisteredBuilder : Type := MkRouteRegistered {
  rr_parent : WorkflowBuilder TaskRegistry;
  rr_branch_id : string;
  rr_key_fn : option UntypedCoreTask;
  rr_named_branches : gmap string Cont;
  rr_default_branch : option Cont
}.
(** [route_registered]. *)
Definition route_registered (id : string) (self : WorkflowBuilder TaskRegistry) : RouteRegisteredBuilder :=
  MkRouteRegistered (check_registered (key_fn_id id) self) id (registry_get (key_fn_id id) (registry self)) ∅ None.

(** The loop of [build_chain_from_registry], from the last id to the first: the
    chain so far, whether every task was found, and the errors pushed. *)
Fixpoint registry_chain (r : TaskRegistry) (task_ids : list string) : option Cont * bool * list BuildError :=
  match task_ids with
  | [] => (None, true, [])
  | id :: ids =>
      let '(current, ok, es) := registry_chain r ids in
      let '(ok, es) := match registry_get id r with None => (false, es ++ [TaskNotFound id]) | Some _ => (ok, es) end in
      let node := match registered_node r id with
                  | Task id func t rp v p tg _ => Task id func t rp v p tg current
                  | node => node
                  end in
      (Some node, ok, es)
  end.
Definition build_chain_from_registry (r : TaskRegistry) (task_ids : list string) : option Cont * list BuildError :=
  match registry_chain r task_ids with
  | (None, _, es) => (None, es ++ [EmptyFork])
  | (Some c, true, es) => (Some c, es)
  | (Some _, false, es) => (None, es)
  end.

(** [branch_registered], [default_registered], [done]. *)
Definition rr_branch_registered (key : string) (task_ids : list string) (self : RouteRegisteredBuilder) :
    RouteRegisteredBuilder :=
  let (chain, es) := build_chain_from_registry (registry (rr_parent self)) task_ids in
  MkRouteRegistered (extend_errors es (rr_parent self)) (rr_branch_id self) (rr_key_fn self)
    (match chain with Some c => <[key := c]> (rr_named_branches self) | None => rr_named_branches self end)
    (rr_default_branch self).
Definition rr_default_registered (task_ids : list string) (self : RouteRegisteredBuilder) : RouteRegisteredBuilder :=
  let (chain, es) := build_chain_from_registry (registry (rr_parent self)) task_ids in
  MkRouteRegistered (extend_errors es (rr_parent self)) (rr_branch_id self) (rr_key_fn self) (rr_named_branches self)
    (match chain with Some c => Some c | None => rr_default_branch self end).
Definition rr_done (self : RouteRegisteredBuilder) : WorkflowBuilder TaskRegistry :=
  push_node
    (Branch (rr_branch_id self) (rr_key_fn self) (map_iter (rr_named_branches self)) (rr_default_branch self) None)
    (rr_branch_id self) (rr_parent self).

(** ** Building *)

(** The checks of [build]. *)
Definition checked (es : list BuildError) (c : Cont) : result (list BuildError) Cont :=
  let es := match find_duplicate_id c with Some dup => es ++ [DuplicateTaskId dup] | None => es end in
  match es with [] => Ok c | es => Err es end.
Context `{FloatOps}.
Definition workflow_of (ctx : WorkflowContext) (c : Cont) : Worker.Workflow UntypedCoreTask :=
  MkWorkflow (ctx_name ctx) (ctx_metadata_json ctx) (compute_definition_hash (to_serializable c)) c (index_build c).

(** [build]; it exists only once there is a continuation. *)
Definition build (self : WorkflowBuilder NoRegistry) :
    option (result (list BuildError) (Worker.Workflow UntypedCoreTask)) :=
  c ← continuation self; Some (c ← checked (errors self) c; Ok (workflow_of (context self) c)).
Definition build_serializable (self : WorkflowBuilder TaskRegistry) :
    option (result (list BuildError) SerializableFlow) :=
  c ← continuation self;
  Some (c ← checked (errors self) c; Ok (MkSerializableFlow (workflow_of (context self) c) (registry self))).
End Builder.
Arguments MkForkBuilder {R}.
Arguments fork_parent {R}.
Arguments fork_branches {R}.
Arguments MkSubBuilder {R}.
Arguments sub_continuation {R}.
Arguments sub_registry {R}.
Arguments sub_errors {R}.
Arguments all_keys K {_}.
Arguments MkRouteBuilder {K R}.
Arguments route_parent {K R}.
Arguments route_branch_id {K R}.
Arguments route_key_fn {K R}.
Arguments named_branches {K R}.
Arguments default_branch {K R}.
