(* ===== verification/BuilderProps.v ===== *)
(** * Properties of the typed builder

    What a built workflow satisfies, for every sequence of builder steps: every
    node is implemented, every loop may run, every key of a routed branch has a
    branch; a workflow built with a registry is rehydrated from its own serialized
    state; and the steps for which it is not. *)

From S2P Require Import Prelude Hash32 SnapshotFormat Task Workflow TaskIndex Serializable Backend Runtime SyncExec Checkpoint WorkerNav Worker Registry Builder.
Import Injection.

(** ** What a node asks of its surroundings *)

Inductive Head (F : Type) : Type :=
| HTask (id : string) (func : option F)
| HRoute (id : string) (key_fn : option F)
| HLoop (max_iterations : Z)
| HPlain.
Arguments HTask {F}.
Arguments HRoute {F}.
Arguments HLoop {F}.
Arguments HPlain {F}.

(** The nodes of a tree, in the order of [node_ids]. *)
Fixpoint heads {F} (c : WorkflowContinuation F) : list (Head F) :=
  let opt (o : option (WorkflowContinuation F)) := match o with Some n => heads n | None => [] end in
  match c with
  | Task id func _ _ _ _ _ next => HTask id func :: opt next
  | Delay _ _ next | AwaitSignal _ _ _ next => HPlain :: opt next
  | Fork _ bs join => HPlain :: flat_map heads bs ++ opt join
  | Branch id key_fn bs dflt next => HRoute id key_fn :: flat_map (λ kb, heads kb.2) bs ++ opt dflt ++ opt next
  | Loop _ body m _ next => HLoop m :: heads body ++ opt next
  | ChildWorkflow _ child next => HPlain :: heads child ++ opt next
  end.

(** The node can run: its function is there, its loop has an iteration. *)
Definition head_runnable {F} (h : Head F) : Prop :=
  match h with
  | HTask _ func => is_Some func
  | HRoute _ key_fn => is_Some key_fn
  | HLoop m => m ≠ 0
  | HPlain => True
  end.
Definition runnable {F} (c : WorkflowContinuation F) : Prop := Forall head_runnable (heads c).

(** The name the node is looked up under in a registry. *)
Definition head_name {F} (h : Head F) : option string :=
  match h with HTask id _ => Some id | HRoute id _ => Some (key_fn_id id) | _ => None end.
Definition covered {F} (r : TaskRegistry) (c : WorkflowContinuation F) : Prop :=
  Forall (λ h, opt_all (λ n, is_Some (r !! n)) (head_name h)) (heads c).

Section Heads.
Context {F : Type}.
Implicit Types c : WorkflowContinuation F.
Abbreviation opt_heads := (from_option heads []).

Lemma omap_flat_map {A B C} (f : B → option C) (g : A → list B) (l : list A) :
  omap f (flat_map g l) = flat_map (λ a, omap f (g a)) l.
Proof. induction l as [|a l IH]; cbn; [done|]. by rewrite omap_app, IH. Qed.

Lemma heads_names c : omap head_name (heads c) = required_names (to_serializable c).
Proof.
  assert (Hopt : ∀ o : option (WorkflowContinuation F),
    opt_all (λ c, omap head_name (heads c) = required_names (to_serializable c)) o →
    omap head_name match o with Some n => heads n | None => [] end =
    match match o with Some n => Some (to_serializable n) | None => None end with
    | Some n => required_names n | None => [] end) by (by intros []).
  induction c as [id f t r v p tg n Hn|id bs j Hbs Hj|id du n Hn|id sg tm n Hn|id k bs d n Hbs Hd Hn
    |id b m o n Hb Hn|id b n Hb Hn] using continuation_ind; cbn; rewrite ?omap_app, ?Hopt by done; try done.
  - f_equal. rewrite omap_flat_map, flat_map_concat_map, (flat_map_concat_map required_names), map_map.
    f_equal. by apply map_ext_Forall.
  - do 2 f_equal. rewrite omap_flat_map, !flat_map_concat_map, map_map. f_equal. by apply map_ext_Forall.
  - by rewrite Hb.
  - by rewrite Hb.
Qed.

Lemma covered_required r c :
  covered r c → Forall (λ n, is_Some (registry_get n r)) (required_names (to_serializable c)).
Proof.
  unfold covered. rewrite <-heads_names. induction (heads c) as [|h l IH]; intros Hc; [constructor|].
  apply Forall_cons in Hc as [Hh Hc]. cbn. destruct (head_name h); cbn in Hh; [|by apply IH].
  constructor; [|by apply IH]. unfold registry_get. destruct Hh as [e ->]. by eexists.
Qed.

Lemma heads_append n c : heads (append_to_chain n c) = heads c ++ heads n.
Proof.
  assert (Hopt : ∀ o : option (WorkflowContinuation F),
    opt_all (λ c, heads (append_to_chain n c) = heads c ++ heads n) o →
    match match o with Some x => Some (append_to_chain n x) | None => Some n end with
    | Some x => heads x | None => [] end = match o with Some x => heads x | None => [] end ++ heads n)
    by (by intros []).
  induction c as [id f t r v p tg x Hn|id bs j Hbs Hj|id du x Hn|id sg tm x Hn|id k bs d x Hbs Hd Hn
    |id b m o x Hb Hn|id b x Hb Hn] using continuation_ind; cbn; rewrite ?Hopt by done;
    rewrite ?app_assoc; done.
Qed.

(** Setting a task's fields keeps the heads. *)
Section Write.
Context `{Sha256} (target : TaskId) (write : WorkflowContinuation F → WorkflowContinuation F).
Hypothesis Hw : ∀ id f t r v p tg n, heads (write (Task id f t r v p tg n)) = heads (Task id f t r v p tg n).

Lemma heads_mut c c' : find_task_mut target write c = Some c' → heads c' = heads c.
Proof.
  assert (Hopt : ∀ o o' : option (WorkflowContinuation F),
    opt_all (λ c, ∀ c', find_task_mut target write c = Some c' → heads c' = heads c) o →
    match o with Some n => Some <$> find_task_mut target write n | None => None end = Some o' →
    opt_heads o' = opt_heads o).
  { intros [n|] o' Hn; cbn in *; [|done]. destruct (find_task_mut target write n); [|done]. intros [= <-]. by apply Hn. }
  assert (Hupd : ∀ bs bs' : list (string * WorkflowContinuation F),
    Forall (λ kb, ∀ c', find_task_mut target write kb.2 = Some c' → heads c' = heads kb.2) bs →
    first_update (λ kb, pair (fst kb) <$> find_task_mut target write (snd kb)) bs = Some bs' →
    flat_map (λ kb, heads kb.2) bs' = flat_map (λ kb, heads kb.2) bs).
  { intros bs bs' Hbs. revert bs'; induction Hbs as [|[k b] bs Hb Hbs IH]; intros bs'; cbn; [done|].
    destruct (find_task_mut target write b) as [b'|] eqn:Hm; cbn.
    - intros [= <-]. cbn. by rewrite (Hb b').
    - destruct (first_update _ bs) as [l|]; cbn; [|done]. intros [= <-]. cbn. by rewrite IH. }
  revert c'. induction c as [id f t r v p tg n Hn|id bs j Hbs Hj|id du n Hn|id sg tm n Hn|id k bs d n Hbs Hd Hn
    |id b m o n Hb Hn|id b n Hb Hn] using continuation_ind; intros c'; cbn [find_task_mut].
  - case_bool_decide; [intros [= <-]; apply Hw|].
    destruct (match n with Some _ => _ | None => None end) eqn:Ho; cbn; [|done]. intros [= <-]. cbn.
    f_equal. by apply (Hopt n).
  - destruct (match j with Some _ => _ | None => None end) eqn:Ho; cbn; [|done]. intros [= <-]. cbn.
    do 2 f_equal. by apply (Hopt j).
  - destruct (match n with Some _ => _ | None => None end) eqn:Ho; cbn; [|done]. intros [= <-]. cbn.
    f_equal. by apply (Hopt n).
  - destruct (match n with Some _ => _ | None => None end) eqn:Ho; cbn; [|done]. intros [= <-]. cbn.
    f_equal. by apply (Hopt n).
  - destruct (first_update _ bs) as [bs'|] eqn:Hu.
    { intros [= <-]. cbn. by rewrite (Hupd bs bs'). }
    destruct (match d with Some _ => _ | None => None end) eqn:Ho.
    { intros [= <-]. cbn. do 3 f_equal. by apply (Hopt d). }
    destruct (match n with Some _ => _ | None => None end) eqn:Ho'; cbn; [|done]. intros [= <-]. cbn.
    do 3 f_equal. by apply (Hopt n).
  - destruct (find_task_mut target write b) as [b'|] eqn:Hm.
    { intros [= <-]. cbn. by rewrite (Hb b'). }
    destruct (match n with Some _ => _ | None => None end) eqn:Ho'; cbn; [|done]. intros [= <-]. cbn.
    do 2 f_equal. by apply (Hopt n).
  - destruct (match n with Some _ => _ | None => None end) eqn:Ho'; cbn; [|done]. intros [= <-]. cbn.
    do 2 f_equal. by apply (Hopt n).
Qed.

Lemma heads_write c : heads (write_task target write c) = heads c.
Proof. unfold write_task. destruct (find_task_mut target write c) eqn:Hm; [by apply heads_mut|done]. Qed.
End Write.
End Heads.

(** ** The steps of a builder *)

Section Steps.
Context `{Sha256, HashOrder}.

(** A closure given to [branch] or [default_branch] chains steps on its sub-builder. *)
Inductive sub_step {R} `{RegistryBehavior R} : relation (SubBuilder R) :=
| SubThen I O (tn : TypeName I) (dv : DecodeValue I) (ev : EncodeValue O) id (func : CoreTask I O) b :
    sub_step b (sub_then id func b)
| SubDelay id d b : sub_step b (sub_delay id d b)
| SubSignal id name timeout b : sub_step b (sub_wait_for_signal id name timeout b).

Inductive fork_step {R} `{RegistryBehavior R} : relation (ForkBuilder R) :=
| ForkBranch I O (tn : TypeName I) (dv : DecodeValue I) (ev : EncodeValue O) id (func : CoreTask I O) b :
    fork_step b (fork_branch id func b)
| ForkTask I O (tn : TypeName I) (dv : DecodeValue I) (ev : EncodeValue O) (t : RegisterableTask I O) b :
    fork_step b (fork_branch_task_with t b).

Inductive route_step {K R} `{BranchKey K, RegistryBehavior R} : relation (RouteBuilder K R) :=
| RouteBranch key build_fn b : (∀ s, rtc sub_step s (build_fn s)) → route_step b (route_branch key build_fn b)
| RouteDefault build_fn b : (∀ s, rtc sub_step s (build_fn s)) → route_step b (route_default_branch build_fn b).

(** Steps that are there with and without a registry, and register what they add. *)
Inductive step {R} `{RegistryBehavior R} : relation (WorkflowBuilder R) :=
| StepThen I O (tn : TypeName I) (dv : DecodeValue I) (ev : EncodeValue O) id (func : CoreTask I O) b :
    step b (then_ id func b)
| StepTask I O (tn : TypeName I) (dv : DecodeValue I) (ev : EncodeValue O) (t : RegisterableTask I O) b :
    step b (then_task_with t b)
| StepLoop I O (tn : TypeName I) (dv : DecodeValue I) (ev : EncodeValue O) id (func : CoreTask I (LoopResult O))
    max on_max b : step b (loop_task_with_policy id func max on_max b)
| StepLoopTask I O (tn : TypeName I) (dv : DecodeValue I) (ev : EncodeValue O) (t : RegisterableTask I (LoopResult O))
    max on_max b : step b (loop_task_struct_with_policy t max on_max b)
| StepDelay id d b : step b (delay id d b)
| StepSignal id name timeout b : step b (wait_for_signal id name timeout b)
| StepFork O (tn : TypeName NamedBranchResults) (dv : DecodeValue NamedBranchResults) (ev : EncodeValue O)
    id (func : CoreTask BranchOutputs O) b fb :
    rtc fork_step (fork b) fb → step b (fork_join id func fb)
| StepRoute K (bk : BranchKey K) I (tn : TypeName I) (dv : DecodeValue I) (ev : EncodeValue string)
    (key_fn : CoreTask I K) b rb : rtc route_step (route key_fn b) rb → step b (route_done rb).

(** Steps that register nothing: branches collected in a closure, plain child workflows. *)
Inductive unregistered_step {R} `{RegistryBehavior R} : relation (WorkflowBuilder R) :=
| StepBranches O (tn : TypeName NamedBranchResults) (dv : DecodeValue NamedBranchResults) (ev : EncodeValue O)
    id (func : CoreTask BranchOutputs O) collect b fb :
    rtc fork_step (branches collect b) fb → unregistered_step b (fork_join id func fb)
| StepFlow child b : runnable (workflow_continuation child) → unregistered_step b (then_flow child b).

(** Steps that need a registry. *)
Inductive fork_registered_step : relation (ForkBuilder TaskRegistry) :=
| ForkRegistered id b : fork_registered_step b (fork_branch_registered id b).
Inductive route_registered_step : relation RouteRegisteredBuilder :=
| RouteRegisteredBranch key ids b : route_registered_step b (rr_branch_registered key ids b)
| RouteRegisteredDefault ids b : route_registered_step b (rr_default_registered ids b).
Definition fork_any_step : relation (ForkBuilder TaskRegistry) := λ b b', fork_step b b' ∨ fork_registered_step b b'.

Inductive registered_step : relation (WorkflowBuilder TaskRegistry) :=
| StepRegistered id b : registered_step b (then_registered id b)
| StepLoopRegistered id max on_max b : registered_step b (loop_task_registered id max on_max b)
| StepMetadata m b : registered_step b (with_metadata m b)
| StepSerializableFlow child b :
    runnable (workflow_continuation (inner child)) → covered (flow_registry child) (workflow_continuation (inner child)) →
    registered_step b (then_serializable_flow child b)
| StepForkRegistered O (tn : TypeName NamedBranchResults) (dv : DecodeValue NamedBranchResults) (ev : EncodeValue O)
    id (func : CoreTask BranchOutputs O) b fb :
    rtc fork_any_step (fork b) fb → registered_step b (fork_join id func fb)
| StepJoinRegistered id b fb : rtc fork_any_step (fork b) fb → registered_step b (join_registered id fb)
| StepRouteRegistered id b rb :
    rtc route_registered_step (route_registered id b) rb → registered_step b (rr_done rb).

(** ** Builders without errors *)

(** Registering under an id. *)
Inductive registers {R} `{RegistryBehavior R} (id : string) (r : R) : R → Prop :=
| RegFn I O (tn : TypeName I) (dv : DecodeValue I) (ev : EncodeValue O) (func : CoreTask I O) :
    registers id r (maybe_register id func r)
| RegTask I O (tn : TypeName I) (dv : DecodeValue I) (ev : EncodeValue O) (func : CoreTask I O) m :
    registers id r (maybe_register_core_task id func m r)
| RegLoop I O (tn : TypeName I) (dv : DecodeValue I) (ev : EncodeValue O) (func : CoreTask I (LoopResult O)) :
    registers id r (maybe_register_loop id func r)
| RegLoopTask I O (tn : TypeName I) (dv : DecodeValue I) (ev : EncodeValue O) (func : CoreTask I (LoopResult O)) m :
    registers id r (maybe_register_core_loop_task id func m r)
| RegJoin O (tn : TypeName NamedBranchResults) (dv : DecodeValue NamedBranchResults) (ev : EncodeValue O)
    (func : CoreTask BranchOutputs O) : registers id r (maybe_register_join id func r).

(** What an invariant of trees must satisfy. *)
Record Good {R} `{RegistryBehavior R} (P : R → list (Head UntypedCoreTask) → Prop) : Prop := {
  good_nil : ∀ r, P r [];
  good_app : ∀ r l k, P r l → P r k → P r (l ++ k);
  good_plain : ∀ r, P r [HPlain];
  good_loop : ∀ r m, m ≠ 0 → P r [HLoop m];
  good_mono : ∀ id r r' l, registers id r r' → P r l → P r' l;
  good_task : ∀ id r r' g, registers id r r' → P r' [HTask id (Some g)];
  good_route : ∀ id r r' g, registers (key_fn_id id) r r' → P r' [HRoute id (Some g)]
}.

Section Preservation.
Context {R : Type} `{RegistryBehavior R} (P : R → list (Head UntypedCoreTask) → Prop) (HP : Good P).
Context `{!HashOrderLaws}.

(** What holds of a builder's tree as long as no error was recorded. *)
Definition inv (b : WorkflowBuilder R) : Prop :=
  errors b = [] → opt_all (λ c, P (registry b) (heads c)) (continuation b).

Lemma push_inv node last b : inv b → (errors b = [] → P (registry b) (heads node)) → inv (push_node node last b).
Proof.
  intros Hb Hn He. specialize (Hb He). specialize (Hn He). unfold push_node, append, opt_all in *. cbn in *.
  destruct (continuation b); [|done]. rewrite heads_append. by apply HP.
Qed.
Lemma error_inv e b : inv (push_error e b).
Proof. intros He. cbn in He. by destruct (errors b). Qed.
Lemma extend_inv es b : inv b → inv (extend_errors es b).
Proof. intros Hb He. cbn in He. apply app_eq_nil in He as [He _]. by apply Hb. Qed.
Lemma registry_inv r b : inv b → (∀ l, P (registry b) l → P r l) → inv (set_registry r b).
Proof. intros Hb Hr He. specialize (Hb He). cbn. destruct (continuation b); [by apply Hr|done]. Qed.
Lemma registers_inv id r b : registers id (registry b) r → inv b → inv (set_registry r b).
Proof. intros Hr Hb. apply registry_inv; [done|]. intros l. by eapply (good_mono P HP). Qed.
Lemma iterations_inv id max b :
  inv b → inv (check_iterations id max b) ∧ (errors (check_iterations id max b) = [] → max ≠ 0) ∧
    registry (check_iterations id max b) = registry b.
Proof.
  intros Hb. unfold check_iterations. case_bool_decide; [|done]. split; [apply error_inv|].
  split; [|done]. cbn. by destruct (errors b).
Qed.

Lemma loop_heads r id g m : P r [HTask id (Some g)] → m ≠ 0 → P r [HLoop m; HTask id (Some g)].
Proof. intros Ht Hm. apply (good_app P HP r [_] [_]); [by apply HP|done]. Qed.

(** *** Sub-builders and routes *)

Definition sub_grows (s s' : SubBuilder R) : Prop :=
  (∀ l, P (sub_registry s) l → P (sub_registry s') l) ∧
  (opt_all (λ c, P (sub_registry s) (heads c)) (sub_continuation s) →
   opt_all (λ c, P (sub_registry s') (heads c)) (sub_continuation s')).

Lemma sub_push_grows node s : P (sub_registry s) (heads node) → sub_grows s (sub_push node s).
Proof.
  intros Hn. split; [done|]. cbn. unfold append. destruct (sub_continuation s); cbn; [|done].
  intros Hc. rewrite heads_append. by apply HP.
Qed.
Lemma sub_step_grows s s' : sub_step s s' → sub_grows s s'.
Proof.
  destruct 1.
  - pose proof (RegFn id (sub_registry b) I O tn dv ev func) as Hr. unfold sub_then.
    destruct (sub_push_grows (plain_node id (to_core_task_arc id func))
      (MkSubBuilder (sub_continuation b) (maybe_register id func (sub_registry b)) (sub_errors b))) as [Hl Hc].
    { by eapply (good_task P HP). }
    split; [intros l Hl'; by eapply (good_mono P HP)|]. intros Hb. apply Hc. cbn.
    destruct (sub_continuation b); [by eapply (good_mono P HP)|done].
  - apply sub_push_grows, HP.
  - apply sub_push_grows, HP.
Qed.
Lemma sub_steps_grow s s' : rtc sub_step s s' → sub_grows s s'.
Proof.
  induction 1 as [|s s1 s' Hs _ [Hl' Hc']]; [done|]. apply sub_step_grows in Hs as [Hl Hc]. split; auto.
Qed.

Section Routes.
Context {K : Type} `{BranchKey K}.
Definition route_inv (rb : RouteBuilder K R) : Prop :=
  inv (route_parent rb) ∧
  (errors (route_parent rb) = [] →
    let r := registry (route_parent rb) in
    P r [HRoute (route_branch_id rb) (Some (route_key_fn rb))] ∧
    map_Forall (λ _ c, P r (heads c)) (named_branches rb) ∧ opt_all (λ c, P r (heads c)) (default_branch rb)).

Lemma run_sub_inv build_fn rb cont parent :
  (∀ s, rtc sub_step s (build_fn s)) → route_inv rb → run_sub build_fn rb = (cont, parent) →
  inv parent ∧ (errors parent = [] → errors (route_parent rb) = [] ∧
    (∀ l, P (registry (route_parent rb)) l → P (registry parent) l) ∧
    opt_all (λ c, P (registry parent) (heads c)) cont).
Proof.
  intros Hf [Hi Hr]. unfold run_sub, sub_build.
  destruct (sub_steps_grow _ _ (Hf (MkSubBuilder None (registry (route_parent rb)) []))) as [Hl Hc]. intros [= <- <-].
  split; [by apply extend_inv, registry_inv|]. cbn. intros He. apply app_eq_nil in He as [He _]. split; [done|].
  split; [done|]. by apply Hc.
Qed.

Lemma route_step_inv rb rb' : route_step rb rb' → route_inv rb → route_inv rb'.
Proof.
  destruct 1 as [key build_fn rb Hf|build_fn rb Hf]; intros Hi; unfold route_branch, route_default_branch;
    destruct (run_sub build_fn rb) as [cont parent] eqn:Hrun;
    destruct (run_sub_inv _ _ _ _ Hf Hi Hrun) as [Hp Hrest]; destruct Hi as [_ Hi];
    (split; [done|]); cbn; intros He; destruct (Hrest He) as (He' & Hmono & Hc);
    destruct (Hi He') as (Hk & Hn & Hd).
  - split; [by apply Hmono|]. split; [|destruct (default_branch rb); [by apply Hmono|done]].
    assert (map_Forall (λ _ c, P (registry parent) (heads c)) (named_branches rb)) as Hn'.
    { intros k c Hk'. by eapply Hmono, Hn. }
    destruct cont; [|done]. by apply map_Forall_insert_2.
  - split; [by apply Hmono|]. split; [intros k c Hk'; by eapply Hmono, Hn|].
    destruct cont; [done|]. destruct (default_branch rb); [by apply Hmono|done].
Qed.
Lemma route_steps_inv rb rb' : rtc route_step rb rb' → route_inv rb → route_inv rb'.
Proof. induction 1; eauto using route_step_inv. Qed.

Lemma branches_heads r (m : gmap string Cont) :
  map_Forall (λ _ c, P r (heads c)) m → P r (flat_map (λ kb, heads kb.2) (map_iter m)).
Proof.
  intros Hm. assert (Hl : Forall (λ kb, P r (heads kb.2)) (map_iter m)).
  { rewrite map_iter_perm. apply Forall_forall. intros [k c] Hin%elem_of_map_to_list. by eapply Hm. }
  induction Hl as [|kb l Hkb _ IH]; cbn; [apply HP|by apply HP].
Qed.
Lemma opt_heads_inv r (o : option Cont) :
  opt_all (λ c, P r (heads c)) o → P r match o with Some c => heads c | None => [] end.
Proof. destruct o; cbn; [done|]. intros _. apply HP. Qed.

Lemma branch_heads_inv r id k bs d :
  P r [HRoute id k] → map_Forall (λ _ c, P r (heads c)) bs → opt_all (λ c, P r (heads c)) d →
  P r (heads (Branch id k (map_iter bs) d None)).
Proof.
  intros Hk Hbs Hd. cbn. rewrite app_nil_r. apply (good_app P HP r [_]); [done|].
  apply HP; [by apply branches_heads|by apply opt_heads_inv].
Qed.
Lemma route_done_inv rb : route_inv rb → inv (route_done rb).
Proof.
  intros [Hi Hr]. apply push_inv; [by apply extend_inv|]. cbn. intros He. apply app_eq_nil in He as [He _].
  destruct (Hr He) as (Hk & Hn & Hd). by apply (branch_heads_inv _ _ _ (named_branches rb)).
Qed.
Lemma route_start_inv {I} `{TypeName I, DecodeValue I, EncodeValue string} (key_fn : CoreTask I K) b :
  inv b → route_inv (route key_fn b).
Proof.
  intros Hb. split.
  - intros He. specialize (Hb He). cbn. destruct (continuation b); [|done].
    eapply (good_mono P HP); [by apply RegFn|done].
  - cbn. intros He. split; [|by split]. eapply (good_route P HP). by apply RegFn.
Qed.

End Routes.

(** *** Forks *)

Definition fork_inv (fb : ForkBuilder R) : Prop :=
  inv (fork_parent fb) ∧
  (errors (fork_parent fb) = [] →
    Forall (λ b, P (registry (fork_parent fb)) [HTask (eb_id b) (Some (eb_task b))]) (fork_branches fb)).

Lemma fork_add_inv id g r fb :
  registers id (registry (fork_parent fb)) r → fork_inv fb →
  fork_inv (MkForkBuilder (set_registry r (fork_parent fb)) (fork_branches fb ++ [MkErasedBranch id g])).
Proof.
  intros Hr [Hi Hb]. split; [by eapply registers_inv|]. cbn. intros He. apply Forall_app. split.
  - eapply Forall_impl; [by apply Hb|]. intros b. by eapply (good_mono P HP).
  - repeat constructor. by eapply (good_task P HP).
Qed.
Lemma fork_step_inv fb fb' : fork_step fb fb' → fork_inv fb → fork_inv fb'.
Proof. destruct 1; intros Hi; apply fork_add_inv; try done; by constructor. Qed.
Lemma fork_steps_inv fb fb' : rtc fork_step fb fb' → fork_inv fb → fork_inv fb'.
Proof. induction 1; eauto using fork_step_inv. Qed.
Lemma fork_start_inv b : inv b → fork_inv (fork b).
Proof. intros Hb. split; [done|constructor]. Qed.

Lemma fork_heads r (bs : list ErasedBranch) (node : ErasedBranch → Cont) :
  (∀ b, heads (node b) = [HTask (eb_id b) (Some (eb_task b))]) →
  Forall (λ b, P r [HTask (eb_id b) (Some (eb_task b))]) bs → P r (flat_map heads (node <$> bs)).
Proof. intros Hn. induction 1 as [|b l Hb _ IH]; cbn; [apply HP|]. apply HP; [by rewrite Hn|done]. Qed.

Lemma fork_node_inv r id (fb : ForkBuilder R) node j g :
  (∀ b, heads (node b) = [HTask (eb_id b) (Some (eb_task b))]) → heads j = [HTask id (Some g)] →
  P r [HTask id (Some g)] →
  Forall (λ b, P r [HTask (eb_id b) (Some (eb_task b))]) (fork_branches fb) →
  P r (heads (fork_node fb node j)).
Proof.
  intros Hn Hj Hjoin Hb. cbn. rewrite Hj. apply (good_app P HP r [_]); [apply HP|].
  apply HP; [by apply fork_heads|done].
Qed.

Lemma fork_join_inv {O} (tn : TypeName NamedBranchResults) (dv : DecodeValue NamedBranchResults) (ev : EncodeValue O)
    id (func : CoreTask BranchOutputs O) fb : fork_inv fb → inv (fork_join id func fb).
Proof.
  intros [Hi Hb]. pose proof (RegJoin id (registry (fork_parent fb)) O tn dv ev func) as Hr. unfold fork_join.
  apply push_inv; [by eapply registers_inv|]. cbn [errors set_registry registry]. intros He.
  eapply fork_node_inv; [done|done|by eapply (good_task P HP)|].
  eapply Forall_impl; [by apply Hb|]. intros b. by eapply (good_mono P HP).
Qed.

(** *** All steps *)

Lemma task_push_inv id r node g b :
  registers id (registry b) r → heads node = [HTask id (Some g)] → inv b → inv (push_node node id (set_registry r b)).
Proof.
  intros Hr Hn Hb. apply push_inv; [by eapply registers_inv|]. cbn. intros _. rewrite Hn. by eapply (good_task P HP).
Qed.
Lemma loop_push_inv id last r body g max on_max b :
  registers id (registry b) r → heads body = [HTask id (Some g)] → inv b →
  inv (push_node (Loop (loop_node_id (loop_counter (set_registry r (check_iterations id max b)))) body max on_max None)
    last (next_loop (set_registry r (check_iterations id max b)))).
Proof.
  intros Hr Hn Hb. destruct (iterations_inv id max b Hb) as (Hi & Hm & Hreg). rewrite <-Hreg in Hr.
  apply push_inv; [exact (registers_inv _ _ _ Hr Hi)|]. intros He. cbn in He |- *. rewrite app_nil_r, Hn.
  apply loop_heads; [by eapply (good_task P HP)|by apply Hm].
Qed.

Lemma step_inv b b' : step b b' → inv b → inv b'.
Proof.
  destruct 1 as [| |I O tn dv ev id func max on_max b|I O tn dv ev t max on_max b|id d b|id name timeout b
    |O tn dv ev id func b fb Hf|K bk I tn dv ev key_fn b rb Hr]; intros Hb.
  - eapply task_push_inv; [apply RegFn|done|done].
  - eapply task_push_inv; [apply RegTask|done|done].
  - eapply loop_push_inv; [|done|done]. rewrite <-(proj2 (proj2 (iterations_inv id max b Hb))). apply RegLoop.
  - eapply loop_push_inv; [|done|done]. rewrite <-(proj2 (proj2 (iterations_inv (rt_id t) max b Hb))). apply RegLoopTask.
  - apply push_inv; [done|]. intros _. apply HP.
  - apply push_inv; [done|]. intros _. apply HP.
  - apply fork_join_inv. eapply fork_steps_inv; [done|by apply fork_start_inv].
  - apply route_done_inv. eapply route_steps_inv; [done|by apply route_start_inv].
Qed.
Lemma steps_inv b b' : rtc step b b' → inv b → inv b'.
Proof. induction 1; eauto using step_inv. Qed.
End Preservation.

(** *** Steps with a registry *)

Abbreviation covers r := (λ h, opt_all (λ n, is_Some (r !! n)) (head_name h)).
Record GoodRegistry (P : TaskRegistry → list (Head UntypedCoreTask) → Prop) : Prop := {
  reg_good : Good P;
  reg_task : ∀ id r g, registry_get id r = Some g → P r [HTask id (Some g)];
  reg_route : ∀ id r g, registry_get (key_fn_id id) r = Some g → P r [HRoute id (Some g)];
  reg_metadata : ∀ id m r l, P r l → P (set_metadata id m r).2 l;
  reg_merge : ∀ o r l, P r l → P (registry_merge o r) l;
  reg_child : ∀ o r l, Forall head_runnable l → Forall (covers o) l → P (registry_merge o r) l
}.

Section Registered.
Context (P : TaskRegistry → list (Head UntypedCoreTask) → Prop) (HP : GoodRegistry P) `{!HashOrderLaws}.
Let HG : Good P := reg_good P HP.
Abbreviation Inv := (inv P).

Lemma check_registered_inv id b : Inv b →
  Inv (check_registered id b) ∧ registry (check_registered id b) = registry b ∧
  (errors (check_registered id b) = [] → errors b = [] ∧ ∃ g, registry_get id (registry b) = Some g).
Proof.
  intros Hb. unfold check_registered. destruct (registry_get id (registry b)) as [g|]; [by eauto|].
  split; [apply error_inv|]. split; [done|]. cbn. by destruct (errors b).
Qed.
Lemma registered_heads r id g : registry_get id r = Some g → heads (registered_node r id) = [HTask id (Some g)].
Proof. intros Hg. unfold registered_node. cbn. by rewrite Hg. Qed.

Lemma then_registered_inv id b : Inv b → Inv (then_registered id b).
Proof.
  intros Hb. destruct (check_registered_inv id b Hb) as (Hi & Hr & He). apply (push_inv _ HG); [done|].
  intros [_ [g Hg]]%He. rewrite (registered_heads _ _ _ Hg), Hr. by apply (reg_task P HP).
Qed.
Lemma loop_registered_inv id max on_max b : Inv b → Inv (loop_task_registered id max on_max b).
Proof.
  intros Hb. destruct (iterations_inv P id max b Hb) as (Hi & Hm & Hr).
  destruct (check_registered_inv id _ Hi) as (Hi' & Hr' & He). apply (push_inv _ HG); [done|].
  intros [Hz [g Hg]]%He. cbn [heads registry next_loop]. rewrite Hr' in *. rewrite (registered_heads _ _ _ Hg), app_nil_r.
  apply (loop_heads _ HG); [by apply (reg_task P HP)|by apply Hm].
Qed.
Lemma metadata_inv m b : Inv b → Inv (with_metadata m b).
Proof.
  intros Hb. unfold with_metadata. destruct (last_task_id b) as [id|], (continuation b) as [c|] eqn:Hc; try done.
  intros He. cbn in He |- *. specialize (Hb He). rewrite Hc in Hb. unfold set_task_timeout, set_task_retry_policy, set_task_version.
  rewrite !heads_write by done. by apply (reg_metadata P HP).
Qed.
Lemma serializable_flow_inv child b :
  runnable (workflow_continuation (inner child)) → covered (flow_registry child) (workflow_continuation (inner child)) →
  Inv b → Inv (then_serializable_flow child b).
Proof.
  intros Hc Hv Hb. apply (push_inv _ HG).
  - apply registry_inv; [exact Hb|]. intros l. apply (reg_merge P HP).
  - intros _. cbn [heads registry set_registry]. rewrite app_nil_r.
    apply (good_app P HG _ [_]); [apply HG|]. by apply (reg_child P HP).
Qed.

Lemma fork_any_inv fb fb' : rtc fork_any_step fb fb' → fork_inv P fb → fork_inv P fb'.
Proof.
  induction 1 as [|fb fb1 fb' [Hs|Hs] _ IH]; [done| |]; intros Hi; apply IH; [by eapply (fork_step_inv _ HG)|].
  destruct Hs as [id fb]. unfold fork_branch_registered. destruct Hi as [Hi Hb].
  destruct (registry_get id (registry (fork_parent fb))) as [g|] eqn:Hg.
  - split; [done|]. cbn. intros He. apply Forall_app. split; [by apply Hb|]. repeat constructor. by apply (reg_task P HP).
  - split; [apply error_inv|]. cbn. by destruct (errors (fork_parent fb)).
Qed.
Lemma join_registered_inv id fb : fork_inv P fb → Inv (join_registered id fb).
Proof.
  intros [Hi Hb]. destruct (check_registered_inv id _ Hi) as (Hi' & Hr & He). apply (push_inv _ HG); [done|].
  intros [Hz [g Hg]]%He. rewrite Hr. eapply (fork_node_inv _ HG); [done|by apply registered_heads|by apply (reg_task P HP)|by apply Hb].
Qed.

Definition rr_inv (rb : RouteRegisteredBuilder) : Prop :=
  Inv (rr_parent rb) ∧
  (errors (rr_parent rb) = [] →
    let r := registry (rr_parent rb) in
    P r [HRoute (rr_branch_id rb) (rr_key_fn rb)] ∧
    map_Forall (λ _ c, P r (heads c)) (rr_named_branches rb) ∧ opt_all (λ c, P r (heads c)) (rr_default_branch rb)).

Lemma registry_chain_inv r ids :
  match registry_chain r ids with
  | (c, true, es) => es = [] ∧ P r match c with Some c => heads c | None => [] end
  | (_, false, es) => es ≠ []
  end.
Proof.
  induction ids as [|id ids IH]; cbn; [split; [done|apply HG]|].
  destruct (registry_chain r ids) as [[c ok] es]. destruct (registry_get id r) as [g|] eqn:Hg.
  - destruct ok; [|done]. destruct IH as [-> Hc]. split; [done|]. cbn.
    apply (good_app P HG _ [_]); [by apply (reg_task P HP)|done].
  - by destruct es.
Qed.
Lemma chain_from_registry_inv r ids c es :
  build_chain_from_registry r ids = (c, es) → es = [] → opt_all (λ c, P r (heads c)) c.
Proof.
  unfold build_chain_from_registry. pose proof (registry_chain_inv r ids) as Hc.
  destruct (registry_chain r ids) as [[[c'|] []] es'].
  - intros [= <- <-] ->. by destruct Hc.
  - intros [= <- <-] ->. done.
  - intros [= <- <-] _. done.
  - intros [= <- <-] _. done.
Qed.

Lemma rr_step_inv rb rb' : route_registered_step rb rb' → rr_inv rb → rr_inv rb'.
Proof.
  destruct 1 as [key ids rb|ids rb]; intros [Hi Hr]; unfold rr_branch_registered, rr_default_registered;
    destruct (build_chain_from_registry (registry (rr_parent rb)) ids) as [c es] eqn:Hc;
    (split; [by apply extend_inv|]); cbn; intros [He ->]%app_eq_nil; destruct (Hr He) as (Hk & Hn & Hd);
    pose proof (chain_from_registry_inv _ _ _ _ Hc eq_refl) as Hc'; (split; [done|]).
  - split; [|done]. destruct c; [|done]. by apply map_Forall_insert_2.
  - split; [done|]. by destruct c.
Qed.
Lemma rr_start_inv id b : Inv b → rr_inv (route_registered id b).
Proof.
  intros Hb. destruct (check_registered_inv (key_fn_id id) b Hb) as (Hi & Hr & He). split; [done|].
  intros [_ [g Hg]]%He. cbn. rewrite Hr, Hg. split; [by apply (reg_route P HP)|]. split; [apply map_Forall_empty|done].
Qed.

Lemma registered_step_inv b b' : registered_step b b' → Inv b → Inv b'.
Proof.
  destruct 1 as [id b|id max on_max b|m b|child b Hc Hv|O tn dv ev id func b fb Hf|id b fb Hf|id b rb Hr]; intros Hb.
  - by apply then_registered_inv.
  - by apply loop_registered_inv.
  - by apply metadata_inv.
  - by apply serializable_flow_inv.
  - apply (fork_join_inv _ HG). eapply fork_any_inv; [done|by apply fork_start_inv].
  - apply join_registered_inv. eapply fork_any_inv; [done|by apply fork_start_inv].
  - assert (Hinv : rr_inv rb).
    { pose proof (rr_start_inv id b Hb) as Hs. clear Hb. induction Hr; [done|]. by eapply IHHr, rr_step_inv. }
    destruct Hinv as [Hi Hrest]. apply (push_inv _ HG); [done|]. intros He. destruct (Hrest He) as (Hk & Hn & Hd).
    by apply (branch_heads_inv _ HG _ _ _ (rr_named_branches rb)).
Qed.
End Registered.

(** *** The two invariants *)

Definition run_inv {R : Type} (_ : R) (l : list (Head UntypedCoreTask)) : Prop := Forall head_runnable l.
Lemma run_good {R} `{RegistryBehavior R} : Good (R:=R) run_inv.
Proof. unfold run_inv. split; intros; rewrite ?Forall_app; repeat constructor; try done; by eexists. Qed.

Lemma registers_insert id (r r' : TaskRegistry) : registers id r r' → ∃ e, r' = <[id := e]> r.
Proof. destruct 1; by eexists. Qed.
Lemma covers_mono (r r' : TaskRegistry) (l : list (Head UntypedCoreTask)) :
  (∀ n, is_Some (r !! n) → is_Some (r' !! n)) → Forall (covers r) l → Forall (covers r') l.
Proof. intros Hr Hc. eapply Forall_impl; [exact Hc|]. intros h; cbn beta. destruct (head_name h); cbn; [apply Hr|done]. Qed.
Lemma insert_covers id e (r : gmap string TaskEntry) n : is_Some (r !! n) → is_Some (<[id := e]> r !! n).
Proof. intros. rewrite lookup_insert. case_decide; [by eexists|done]. Qed.
Lemma insert_covered id e (r : gmap string TaskEntry) : is_Some (<[id := e]> r !! id).
Proof. rewrite lookup_insert_eq. by eexists. Qed.

Definition registry_inv' (r : TaskRegistry) (l : list (Head UntypedCoreTask)) : Prop :=
  Forall head_runnable l ∧ Forall (covers r) l.
Lemma registry_inv_good : Good registry_inv'.
Proof.
  split; unfold registry_inv'.
  - by repeat constructor.
  - intros r l k [? ?] [? ?]. by rewrite !Forall_app.
  - by repeat constructor.
  - by repeat constructor.
  - intros id r r' l [e ->]%registers_insert [? Hc]. split; [done|]. eapply covers_mono, Hc. intros n. apply insert_covers.
  - intros id r r' g [e ->]%registers_insert. repeat constructor; [by eexists|]. apply insert_covered.
  - intros id r r' g [e ->]%registers_insert. repeat constructor; [by eexists|]. apply insert_covered.
Qed.
Lemma merge_covers (o r : gmap string TaskEntry) n :
  is_Some (registry_merge o r !! n) ↔ is_Some (r !! n) ∨ is_Some (o !! n).
Proof. unfold registry_merge, TaskRegistry. rewrite lookup_union. destruct (r !! n), (o !! n); cbn; naive_solver. Qed.
Lemma metadata_covers id m (r : TaskRegistry) n : is_Some (r !! n) → is_Some ((set_metadata id m r).2 !! n).
Proof. unfold set_metadata. destruct (r !! id); [apply insert_covers|done]. Qed.

Lemma run_good_registry : GoodRegistry run_inv.
Proof. split; [apply run_good|..]; unfold run_inv; intros; try done; repeat constructor; by eexists. Qed.
Lemma registry_inv_good_registry : GoodRegistry registry_inv'.
Proof.
  split; [apply registry_inv_good|..]; unfold registry_inv'.
  - intros id r g Hg. repeat constructor; [by eexists|]. cbn. unfold registry_get in Hg. by destruct (r !! id).
  - intros id r g Hg. repeat constructor; [by eexists|]. cbn. unfold registry_get in Hg. by destruct (r !! key_fn_id id).
  - intros id m r l [? Hc]. split; [done|]. eapply covers_mono, Hc. apply metadata_covers.
  - intros o r l [? Hc]. split; [done|]. eapply covers_mono, Hc. intros n Hn. apply merge_covers. by left.
  - intros o r l ? Hc. split; [done|]. eapply covers_mono, Hc. intros n Hn. apply merge_covers. by right.
Qed.

(** Steps that register nothing still leave a tree that can run. *)
Lemma unregistered_step_inv {R} `{RegistryBehavior R} `{!HashOrderLaws} (b b' : WorkflowBuilder R) :
  unregistered_step b b' → inv run_inv b → inv run_inv b'.
Proof.
  destruct 1 as [O tn dv ev id func collect b fb Hf|child b Hc]; intros Hb.
  - apply (fork_join_inv _ run_good). eapply (fork_steps_inv _ run_good); [done|]. split; [done|]. cbn. intros _.
    apply Forall_forall. intros b' _. repeat constructor. by eexists.
  - apply (push_inv _ run_good); [done|]. intros _. cbn. rewrite app_nil_r. by constructor.
Qed.
End Steps.

(** ** What building checks *)

Section Build.
Context `{Sha256, HashOrder, FloatOps}.

Lemma checked_Ok es c c' : checked es c = Ok c' → c' = c ∧ es = [] ∧ find_duplicate_id c = None.
Proof.
  unfold checked. destruct (find_duplicate_id c); [by destruct es|]. destruct es; [|done]. by intros [= ->].
Qed.

Lemma ms_valid_serializable {F} (c : WorkflowContinuation F) : ms_valid (to_serializable c).
Proof.
  assert (Hms : ∀ d, is_u64 (as_u64 (as_millis d))) by (intros d; apply as_u64_range).
  assert (Hopt : ∀ o : option (WorkflowContinuation F), opt_all (λ c, ms_valid (to_serializable c)) o →
    match match o with Some n => Some (to_serializable n) | None => None end with
    | Some n => ms_valid n | None => True end) by (by intros []).
  assert (Ht : ∀ t : option Duration, opt_all is_u64 ((λ d, as_u64 (as_millis d)) <$> t)).
  { intros [d|]; cbn; [apply Hms|done]. }
  induction c as [id f t r v p tg x Hn|id bs j Hbs' Hj|id du x Hn|id sg tm x Hn|id k bs d x Hbs' Hd Hn
    |id b m o x Hb Hn|id b x Hb Hn] using continuation_ind; cbn; repeat split; auto.
  all: try by apply Hopt.
  all: try apply Hms.
  all: by induction Hbs'; cbn; auto.
Qed.

(** The record of [Serializable.v] for a built flow. *)
Definition hydratable (f : SerializableFlow) : SerializableWorkflow UntypedCoreTask :=
  MkSerializableWorkflow _ (workflow_name (inner f)) (workflow_definition_hash (inner f))
    (workflow_continuation (inner f)) (λ n, registry_get n (flow_registry f)).

(** With distinct ids, rehydrating a flow's own state is looking its tasks up. *)
Lemma rehydration (f : SerializableFlow) :
  find_duplicate_id (workflow_continuation (inner f)) = None →
  workflow_to_runnable (hydratable f) (workflow_to_serializable (hydratable f)) =
  to_runnable_unchecked (λ n, registry_get n (flow_registry f)) (to_serializable (workflow_continuation (inner f))).
Proof.
  intros Hd. unfold workflow_to_runnable. rewrite bool_decide_false by (cbn; auto). cbn. unfold to_runnable.
  by rewrite duplicate_to_serializable, Hd.
Qed.

Lemma rtc_preserves {A} (S : relation A) (I : A → Prop) x y :
  (∀ a a', S a a' → I a → I a') → rtc S x y → I x → I y.
Proof. intros HS. induction 1; eauto. Qed.

Lemma new_inv {R} (P : R → list (Head UntypedCoreTask) → Prop) ctx r :
  inv P (MkWorkflowBuilder ctx None r None 0 0 0 []).
Proof. done. Qed.

(** Without errors and duplicates, the build succeeds. *)
Lemma build_ok (b : WorkflowBuilder NoRegistry) c :
  continuation b = Some c → errors b = [] → find_duplicate_id c = None → build b = Some (Ok (workflow_of (context b) c)).
Proof. intros Hc He Hd. unfold build, checked. rewrite Hc. cbn. by rewrite Hd, He. Qed.
Lemma build_serializable_ok (b : WorkflowBuilder TaskRegistry) c :
  continuation b = Some c → errors b = [] → find_duplicate_id c = None →
  build_serializable b = Some (Ok (MkSerializableFlow (workflow_of (context b) c) (registry b))).
Proof. intros Hc He Hd. unfold build_serializable, checked. rewrite Hc. cbn. by rewrite Hd, He. Qed.
Lemma build_duplicate (b : WorkflowBuilder NoRegistry) c d :
  continuation b = Some c → errors b = [] → find_duplicate_id c = Some d → build b = Some (Err [DuplicateTaskId d]).
Proof. intros Hc He Hd. unfold build, checked. rewrite Hc. cbn. by rewrite Hd, He. Qed.

(** *** Routed branches *)

Lemma get_branch_in {F} (l : list (string * WorkflowContinuation F)) key c :
  (key, c) ∈ l → is_Some (get_branch (λ b, b) key l).
Proof.
  induction l as [|[k b] l IH]; [by intros ?%elem_of_nil|]. cbn. case_bool_decide as Hk; [by eexists|].
  intros [[= -> ->]|Hin]%elem_of_cons; [done|by apply IH].
Qed.

Lemma set_iter_nil `{!HashOrderLaws} (x y : gset string) : set_iter (x ∖ y) = [] → x ⊆ y.
Proof.
  intros Hs. apply empty_difference_subseteq, elements_empty_inv, Permutation_nil. by rewrite <-set_iter_perm, Hs.
Qed.

Lemma done_errors {K R} `{BranchKey K, RegistryBehavior R} `{!HashOrderLaws} (rb : RouteBuilder K R) :
  errors (route_done rb) = [] →
  dom (named_branches rb) ⊆ list_to_set (C:=gset string) (all_keys K) ∧
  (default_branch rb = None → list_to_set (C:=gset string) (all_keys K) ⊆ dom (named_branches rb)).
Proof.
  cbn. intros [_ [Ho Hm]%app_eq_nil]%app_eq_nil. unfold orphan_errors, missing_errors in *. split.
  - apply set_iter_nil. destruct (set_iter (dom (named_branches rb) ∖ list_to_set (all_keys K))) eqn:E in Ho; [exact E|done].
  - intros Hd. rewrite Hd in Hm. apply set_iter_nil.
    destruct (set_iter (list_to_set (all_keys K) ∖ dom (named_branches rb))) eqn:E in Hm; [exact E|done].
Qed.
End Build.

(** ** Properties *)

(** C40. What the builder guarantees of a workflow it builds without a registry,
    whatever steps were chained: every task and every routing function has its
    implementation, every loop may run at least once, no two nodes share an id
    (so lookups by id are unambiguous), and the workflow carries the hash of its
    own definition and the index of its own tree.  The same holds with a registry. *)
Theorem built_workflow_wellformed `{Sha256, HashOrder, !HashOrderLaws, FloatOps} (ctx : WorkflowContext)
    (b : WorkflowBuilder NoRegistry) (w : Worker.Workflow UntypedCoreTask)
    (r : TaskRegistry) (b' : WorkflowBuilder TaskRegistry) (f : SerializableFlow) :
  rtc (λ b b', step b b' ∨ unregistered_step b b') (builder_new ctx) b → build b = Some (Ok w) →
  rtc (λ b b', step b b' ∨ unregistered_step b b' ∨ registered_step b b')
    (with_existing_registry r (builder_new ctx)) b' → build_serializable b' = Some (Ok f) →
  let ok (w : Worker.Workflow UntypedCoreTask) :=
    let c := workflow_continuation w in
    runnable c ∧ NoDup (node_ids c) ∧
    workflow_definition_hash w = compute_definition_hash (to_serializable c) ∧ workflow_task_index w = index_build c in
  ok w ∧ ok (inner f).
Proof.
  intros Hsteps Hb Hsteps' Hb' ok.
  assert (Hi : inv run_inv b).
  { eapply rtc_preserves; [|exact Hsteps|apply new_inv].
    intros b1 b2 [Hs|Hs]; [by apply (step_inv _ run_good)|by apply unregistered_step_inv]. }
  assert (Hi' : inv run_inv b').
  { eapply rtc_preserves; [|exact Hsteps'|apply new_inv]. intros b1 b2 [Hs|[Hs|Hs]];
      [by apply (step_inv _ run_good)|by apply unregistered_step_inv|by apply (registered_step_inv _ run_good_registry)]. }
  unfold build, build_serializable in *. destruct (continuation b) as [c|] eqn:Hc; [|done].
  destruct (continuation b') as [c'|] eqn:Hc'; [|done]. cbn in Hb, Hb'.
  destruct (checked (errors b) c) as [x|] eqn:Hk; [|done]. destruct (checked (errors b') c') as [x'|] eqn:Hk'; [|done].
  apply checked_Ok in Hk as (-> & He & Hd), Hk' as (-> & He' & Hd'). injection Hb as <-. injection Hb' as <-.
  unfold inv in Hi, Hi'. rewrite Hc in Hi. rewrite Hc' in Hi'. unfold ok; cbn.
  by repeat split; [apply Hi|apply no_duplicate_nodup|apply Hi'|apply no_duplicate_nodup].
Qed.

(** C39. A workflow built with a registry can be sent elsewhere: whatever steps that
    register were chained (tasks, loops, forks, routes, registered tasks, metadata,
    serializable child workflows), the registry it is built with has every
    implementation its serialized state asks for, and rehydrating that state
    succeeds and gives back the same definition. *)
Theorem built_flow_rehydrates `{Sha256, HashOrder, !HashOrderLaws, FloatOps} (ctx : WorkflowContext)
    (r : TaskRegistry) (b : WorkflowBuilder TaskRegistry) (f : SerializableFlow) :
  rtc (λ b b', step b b' ∨ registered_step b b') (with_existing_registry r (builder_new ctx)) b →
  build_serializable b = Some (Ok f) →
  ∃ c, workflow_to_runnable (hydratable f) (workflow_to_serializable (hydratable f)) = Ok c ∧
    to_serializable c = to_serializable (workflow_continuation (inner f)).
Proof.
  intros Hsteps Hb.
  assert (Hi : inv registry_inv' b).
  { eapply rtc_preserves; [|exact Hsteps|apply new_inv]. intros b1 b2 [Hs|Hs];
      [by apply (step_inv _ registry_inv_good)|by apply (registered_step_inv _ registry_inv_good_registry)]. }
  unfold build_serializable in Hb. destruct (continuation b) as [c|] eqn:Hc; [|done]. cbn in Hb.
  destruct (checked (errors b) c) as [x|] eqn:Hk; [|done]. apply checked_Ok in Hk as (-> & He & Hd). injection Hb as <-.
  unfold inv in Hi. rewrite Hc in Hi. destruct (Hi He) as [_ Hcov].
  apply (workflow_self_hydration (hydratable (MkSerializableFlow (workflow_of (context b) c) (registry b)))
    (MkSerializedWorkflowState "" DefinitionHash_default (SDelay "" 0 None)));
    [apply ms_valid_serializable|done|by apply covered_required].
Qed.

(** Routing is exhaustive: once a route is closed without an error, every key of
    the enum has a branch to go to (its own or the default), so that no routing
    function that answers with a key of the enum ever fails with [BranchKeyNotFound],
    and no branch was declared for a key outside the enum. *)
Theorem route_exhaustive `{Sha256, HashOrder, !HashOrderLaws, FloatOps, EnvelopeCodec} {K R : Type}
    `{BranchKey K, RegistryBehavior R} (rb : RouteBuilder K R) (key : string) (bytes : Bytes) :
  errors (route_done rb) = [] →
  (key ∈ all_keys K → decode_string bytes = Ok key →
    ∃ c, resolve_branch (λ b, b) (route_branch_id rb) bytes (map_iter (named_branches rb)) (default_branch rb) = Ok (key, c)) ∧
  (is_Some (named_branches rb !! key) → key ∈ all_keys K).
Proof.
  intros He. destruct (done_errors rb He) as [Ho Hm]. split.
  - intros Hk Hdec. unfold resolve_branch. rewrite Hdec. cbn.
    destruct (get_branch (λ b, b) key (map_iter (named_branches rb))) as [c|] eqn:Hg; [by exists c|].
    destruct (default_branch rb) as [d|] eqn:Hd; [by exists d|]. exfalso.
    assert (key ∈ dom (named_branches rb)) as [c Hc]%elem_of_dom by (apply Hm; [done|by apply elem_of_list_to_set]).
    destruct (get_branch_in (map_iter (named_branches rb)) key c) as [? Hg']; [|congruence].
    rewrite map_iter_perm. by apply elem_of_map_to_list.
  - intros Hs%elem_of_dom. apply Ho in Hs. by apply elem_of_list_to_set in Hs.
Qed.

(** Branches collected in a closure are not registered: a workflow with a registry
    whose fork is written [branches(|b| { b.add("count", ..); b.add("name", ..) })]
    builds, but its own serialized state cannot be rehydrated against its own
    registry; written with [fork().branch(..).branch(..)] the same workflow can. *)
Theorem collected_branches_not_rehydrated `{Sha256, HashOrder, FloatOps}
    `{TypeName NamedBranchResults, DecodeValue NamedBranchResults} {I O N J : Type}
    `{TypeName I, DecodeValue I, EncodeValue O, EncodeValue N, EncodeValue J}
    (ctx : WorkflowContext) (count : CoreTask I O) (name : CoreTask I N) (sum : CoreTask BranchOutputs J) :
  let b := with_registry (builder_new ctx) in
  let rehydrated f := workflow_to_runnable (hydratable f) (workflow_to_serializable (hydratable f)) in
  (∃ f, build_serializable (fork_join "sum" sum
      (branches (λ c, collector_add "name" name (collector_add "count" count c)) b)) = Some (Ok f) ∧
    rehydrated f = Err (TaskNotFound "count")) ∧
  (∃ f, build_serializable (fork_join "sum" sum
      (fork_branch "name" name (fork_branch "count" count (fork b)))) = Some (Ok f) ∧
    is_Some (ok (rehydrated f))).
Proof.
  intros b rehydrated.
  assert (Hd : ∀ f g h : UntypedCoreTask, find_duplicate_id (Fork "count||name" [plain_node "count" f; plain_node "name" g]
    (Some (plain_node "sum" h))) = None) by (intros; vm_compute; reflexivity).
  split; (eexists; split; [apply build_serializable_ok; [reflexivity|reflexivity|apply Hd]|]).
  - unfold rehydrated. rewrite rehydration by apply Hd. reflexivity.
  - unfold rehydrated. rewrite rehydration by apply Hd. cbn. unfold registry_get. repeat (simplify_map_eq; cbn). eauto.
Qed.

Lemma node_ids_head {F} (c : WorkflowContinuation F) : ∃ l, node_ids c = cont_id c :: l.
Proof. destruct c; cbn; eauto. Qed.

(** A fork of one branch has its branch's id. *)
Lemma single_branch_duplicate {F} id (b : WorkflowContinuation F) j :
  cont_id b = id → find_duplicate_id (Fork (derive_fork_id [id]) [b] j) = Some id.
Proof.
  intros Hb. unfold find_duplicate_id. rewrite collect_scan. cbn [node_ids flat_map].
  destruct (node_ids_head b) as [l ->]. rewrite Hb. cbn.
  unfold visit. rewrite bool_decide_false by set_solver. by rewrite bool_decide_true by set_solver.
Qed.

(** Generated ids clash: a fork takes its id from its branches' ids, so a fork with a
    single branch is rejected for a duplicate id, whatever its branch; and every
    builder numbers its loops from zero, so a workflow with a loop cannot contain a
    child workflow with a loop, though both build on their own. *)
Theorem generated_ids_clash `{Sha256, HashOrder, FloatOps} `{TypeName NamedBranchResults, DecodeValue NamedBranchResults}
    {I O J : Type} `{TypeName I, DecodeValue I, EncodeValue O, TypeName O, DecodeValue O, EncodeValue J}
    (ctx : WorkflowContext) (id join_id : string) (only : CoreTask I O) (join : CoreTask BranchOutputs J)
    (outer : CoreTask I (LoopResult O)) (inner_body : CoreTask O (LoopResult J)) :
  build (fork_join join_id join (fork_branch id only (fork (builder_new ctx)))) = Some (Err [DuplicateTaskId id]) ∧
  let parent := loop_task "outer" outer 3 (builder_new ctx) in
  ∃ p child, build parent = Some (Ok p) ∧ build (loop_task "inner" inner_body 3 (builder_new ctx)) = Some (Ok child) ∧
    build (then_flow child parent) = Some (Err [DuplicateTaskId "loop_0"]).
Proof.
  split; [eapply build_duplicate; [reflexivity|reflexivity|by apply single_branch_duplicate]|].
  intros parent. eexists _, _. split; [apply build_ok; [reflexivity|reflexivity|vm_compute; reflexivity]|].
  split; [apply build_ok; [reflexivity|reflexivity|vm_compute; reflexivity]|].
  eapply build_duplicate; [reflexivity|reflexivity|vm_compute; reflexivity].
Qed.


(** ** Witnesses *)

Module BuilderExample.
Import Toy Examples ExecExample.

#[local] Instance order : HashOrder := {| map_iter _ m := map_to_list m; set_iter s := elements s |}.
#[local] Instance order_laws : HashOrderLaws.
Proof. split; reflexivity. Qed.
#[local] Instance bytes_name : TypeName Bytes := "bytes".
#[local] Instance bytes_encode : EncodeValue Bytes := Ok.
#[local] Instance bytes_decode : DecodeValue Bytes := Ok.
#[local] Instance string_encode : EncodeValue string := λ s, Ok (as_bytes s).
#[local] Instance results_name : TypeName NamedBranchResults := "results".
#[local] Instance results_decode : DecodeValue NamedBranchResults := λ b, Ok [("count", b)].

Inductive Size : Type := Small | Large.
#[local] Instance size_key : BranchKey Size :=
  {| as_key s := match s with Small => "small" | Large => "large" end; all_keys := ["small"; "large"] |}.

Definition echo : CoreTask Bytes Bytes := λ _ b, Ok b.
Definition finish : CoreTask Bytes (LoopResult Bytes) := λ _ b, Ok (Loops.Done b).
Definition size_of : CoreTask Bytes Size := λ _ b, Ok (if bool_decide (length b < 8)%nat then Small else Large).
Definition tally : CoreTask BranchOutputs Bytes := λ _ _, Ok [].

(** A chain of a task, a loop and a fork, in either kind of builder. *)
Definition pipeline {R} `{RegistryBehavior R} (b : WorkflowBuilder R) : WorkflowBuilder R :=
  fork_join "sum" tally (fork_branch "name" echo (fork_branch "count" echo (fork
    (loop_task_with_policy "poll" finish 3 ExitWithLast (then_ "first" echo b))))).
Lemma pipeline_steps {R} `{RegistryBehavior R} (b : WorkflowBuilder R) : rtc step b (pipeline b).
Proof.
  eapply rtc_l; [apply (StepThen Bytes Bytes _ _ _ "first" echo)|].
  eapply rtc_l; [apply (StepLoop Bytes Bytes _ _ _ "poll" finish 3 ExitWithLast)|]. apply rtc_once.
  apply (StepFork Bytes _ _ _ "sum" tally). eapply rtc_l; [apply (ForkBranch Bytes Bytes _ _ _ "count" echo)|].
  apply rtc_once. apply (ForkBranch Bytes Bytes _ _ _ "name" echo).
Qed.
Lemma rtc_weaken {A} (S T : relation A) x y : (∀ a b, S a b → T a b) → rtc S x y → rtc T x y.
Proof. intros Hst. induction 1; [reflexivity|]. eapply rtc_l; eauto. Qed.

Definition plain : WorkflowBuilder NoRegistry := pipeline (builder_new (context_new "orders")).
Definition registered : WorkflowBuilder TaskRegistry :=
  pipeline (with_existing_registry ∅ (builder_new (context_new "orders"))).

Lemma built_workflow_wellformed_witness :
  ∃ w f, build plain = Some (Ok w) ∧ build_serializable registered = Some (Ok f) ∧
    runnable (workflow_continuation w) ∧ NoDup (node_ids (workflow_continuation (inner f))).
Proof.
  eexists _, _. split; [apply build_ok; [reflexivity|reflexivity|vm_compute; reflexivity]|].
  split; [apply build_serializable_ok; [reflexivity|reflexivity|vm_compute; reflexivity]|].
  refine (let p := built_workflow_wellformed (context_new "orders") plain _ ∅ registered _ _ _ _ _ in
    conj (proj1 (proj1 p)) (proj1 (proj2 (proj2 p)))).
  - eapply rtc_weaken; [|apply pipeline_steps]. auto.
  - apply build_ok; [reflexivity|reflexivity|vm_compute; reflexivity].
  - eapply rtc_weaken; [|apply pipeline_steps]. auto.
  - apply build_serializable_ok; [reflexivity|reflexivity|vm_compute; reflexivity].
Defined.

Lemma built_flow_rehydrates_witness :
  ∃ f c, build_serializable registered = Some (Ok f) ∧
    workflow_to_runnable (hydratable f) (workflow_to_serializable (hydratable f)) = Ok c.
Proof.
  eexists. edestruct (built_flow_rehydrates (context_new "orders") ∅ registered) as (c & Hc & _).
  - eapply rtc_weaken; [|apply pipeline_steps]. auto.
  - apply build_serializable_ok; [reflexivity|reflexivity|vm_compute; reflexivity].
  - exists c. split; [apply build_serializable_ok; [reflexivity|reflexivity|vm_compute; reflexivity]|exact Hc].
Defined.

Definition routed : RouteBuilder Size NoRegistry :=
  route_branch Large (sub_then "store" echo) (route_branch Small (sub_then "keep" echo)
    (route size_of (builder_new (context_new "orders")))).
Lemma route_exhaustive_witness :
  errors (route_done routed) = [] ∧ "large" ∈ all_keys Size ∧
  ∃ c, resolve_branch (λ b, b) (route_branch_id routed) (as_bytes "large")
    (map_iter (named_branches routed)) (default_branch routed) = Ok ("large", c).
Proof.
  assert (He : errors (route_done routed) = []) by (vm_compute; reflexivity).
  split; [exact He|]. split; [cbn; set_solver|].
  apply (route_exhaustive routed "large" (as_bytes "large")); [exact He|cbn; set_solver|reflexivity].
Defined.
End BuilderExample.
