(* ===== verification/TypedFlow.v ===== *)
(** * Typed workflows compute what their functions compute

    A pipeline of typed functions (tasks, task structs with metadata, loops, delays,
    forks with a join) is assembled with the builder's steps, which erase the types,
    and run by the asynchronous executor on bytes.  What comes out is the encoding
    of what the functions compute on typed values, whatever the order in which the
    branches of a fork finish. *)

From S2P Require Import Prelude Hash32 SnapshotFormat Task Workflow TaskIndex Serializable Backend Runtime SyncExec Checkpoint WorkerNav Worker Distributed Registry Builder BuilderProps.
Import Injection.

(** ** Typed pipelines *)

(** A type with its codec. *)
Record Coded : Type := MkCoded {
  carrier :> Type;
  coded_name :: TypeName carrier;
  coded_encode :: EncodeValue carrier;
  coded_decode :: DecodeValue carrier;
  coded_laws :: CodecLaws carrier
}.

Lemma pair_eq_l {A B} (p : A * B) (a : A) : p.1 = a → p = (a, p.2).
Proof. by destruct p; intros <-. Qed.

(** A function, called as a task. *)
Definition pure_task {A B : Type} (f : A → result BoxError B) : CoreTask A B := λ _, f.

Record TypedStep (A : Coded) : Type := MkTypedStep {
  ts_id : string;
  ts_output : Coded;
  ts_func : A → result BoxError ts_output
}.
Arguments MkTypedStep {A}.
Arguments ts_id {A}.
Arguments ts_output {A}.
Arguments ts_func {A}.

Inductive Pipeline : Coded → Coded → Type :=
| PEnd A : Pipeline A A
| PThen {A B C : Coded} (id : string) (f : A → result BoxError B) (rest : Pipeline B C) : Pipeline A C
| PTask {A B C : Coded} (id : string) (m : TaskMetadata) (f : A → result BoxError B) (rest : Pipeline B C) : Pipeline A C
| PLoop {A C : Coded} (id : string) (body : A → result BoxError (LoopResult A)) (max : Z) (on_max : MaxIterationsPolicy)
    (rest : Pipeline A C) : Pipeline A C
| PDelay {A C : Coded} (id : string) (d : Duration) (rest : Pipeline A C) : Pipeline A C
| PFork {A B C : Coded} (branches : list (TypedStep A)) (id : string) (join : BranchOutputs → result BoxError B)
    (rest : Pipeline B C) : Pipeline A C.

(** *** What it computes *)

(** A value that leaves a task must be encoded. *)
Definition encodable {B : Coded} (y : B) : option B := _ ← ok (encode_value y); Some y.

(** A loop body run at most [n] times more. *)
Fixpoint loop_value {A : Coded} (body : A → result BoxError (LoopResult A)) (on_max : MaxIterationsPolicy) (n : nat)
    (x : A) : option A :=
  match n with
  | O => None
  | S n =>
      r ← ok (body x);
      y ← encodable (Loops.into_inner r);
      match r, n, on_max with
      | Loops.Done _, _, _ => Some y
      | Loops.Again _, O, ExitWithLast => Some y
      | Loops.Again _, O, Fail => None
      | Loops.Again _, S _, _ => loop_value body on_max n y
      end
  end.

(** The branches' outputs, encoded, by name. *)
Definition branch_value {A : Coded} (x : A) (b : TypedStep A) : option (string * Bytes) :=
  y ← ok (ts_func b x); bytes ← ok (encode_value y); Some (ts_id b, bytes).

Fixpoint value {A B} (p : Pipeline A B) : A → option B :=
  match p with
  | PEnd _ => λ x, Some x
  | PThen _ f rest | PTask _ _ f rest => λ x, y ← ok (f x); y ← encodable y; value rest y
  | PLoop _ body max on_max rest => λ x, y ← loop_value body on_max (Z.to_nat max) x; value rest y
  | PDelay _ _ rest => value rest
  | PFork branches _ join rest => λ x,
      outs ← mapM (branch_value x) branches;
      y ← ok (join (MkBranchOutputs (into_map outs)));
      y ← encodable y;
      value rest y
  end.

(** *** How it is built *)

Section Assemble.
Context `{Sha256, HashOrder} `{TypeName NamedBranchResults, DecodeValue NamedBranchResults}.
Context {R : Type} `{RegistryBehavior R}.

Definition add_typed_branch {A : Coded} (fb : ForkBuilder R) (b : TypedStep A) : ForkBuilder R :=
  fork_branch (ts_id b) (pure_task (ts_func b)) fb.
Definition assemble_fork {A B : Coded} (branches : list (TypedStep A)) (id : string)
    (join : BranchOutputs → result BoxError B) (b : WorkflowBuilder R) : WorkflowBuilder R :=
  fork_join id (pure_task join) (foldl add_typed_branch (fork b) branches).

Fixpoint assemble {A B} (p : Pipeline A B) (b : WorkflowBuilder R) : WorkflowBuilder R :=
  match p with
  | PEnd _ => b
  | PThen id f rest => assemble rest (then_ id (pure_task f) b)
  | PTask id m f rest => assemble rest (then_task_with (MkRegisterableTask id m (pure_task f)) b)
  | PLoop id body max on_max rest => assemble rest (loop_task_with_policy id (pure_task body) max on_max b)
  | PDelay id d rest => assemble rest (delay id d b)
  | PFork branches id join rest => assemble rest (assemble_fork branches id join b)
  end.
End Assemble.

(** ** Running an assembled pipeline *)

Section Run.
Context `{Sha256, HashOrder, SerdeJson, EnvelopeCodec, Backon, !BackonLaws} `{TypeName NamedBranchResults, DecodeValue NamedBranchResults}.
Context `{AsyncRuntime UntypedCoreTask, !AsyncRuntimeLaws UntypedCoreTask}.
(** The tasks are called, and answer in time; the envelope of a join is decoded as it was encoded. *)
Hypothesis Hcall : ∀ n (f : UntypedCoreTask) i, run_func n f i = f n i.
Hypothesis Htimely : ∀ n d, timely n d = true.
Hypothesis Hresults : ∀ rs, ∃ b, encode_named_results rs = Ok b ∧ decode_value b = Ok rs.

(** Every fork of the main chain has a join, so that appending continues it. *)
Fixpoint joined (c : Cont) : Prop :=
  match c with
  | Fork _ _ None => False
  | Fork _ _ (Some n) | Task _ _ _ _ _ _ _ (Some n) | Delay _ _ (Some n) | AwaitSignal _ _ _ (Some n)
  | Branch _ _ _ _ (Some n) | Loop _ _ _ _ (Some n) | ChildWorkflow _ _ (Some n) => joined n
  | _ => True
  end.

Lemma bind_bind {S E A B C} (m : io S E A) (f : A → io S E B) (g : B → io S E C) :
  ((m ≫= f) ≫= g) ≡≡ (m ≫= λ a, f a ≫= g).
Proof. intros s. unfold mbind, io_bind. by destruct (m s) as [[a|] s']. Qed.

(** Running a chain with a node appended is running the chain, then the node. *)
Lemma execute_append t c : joined c → ∀ i par,
  execute_async_inner (append_to_chain t c) i par ≡≡
  (execute_async_inner c i par ≫= λ o, execute_async_inner t o par).
Proof.
  assert (Hp : ∀ (o : option Cont) x par,
    opt_all (λ c, joined c → ∀ i par, execute_async_inner (append_to_chain t c) i par ≡≡
      (execute_async_inner c i par ≫= λ o, execute_async_inner t o par)) o →
    match o with Some c => joined c | None => True end →
    proceed (λ n i, execute_async_inner n i par)
      (match o with Some n => Some (append_to_chain t n) | None => Some t end) x ≡≡
    (proceed (λ n i, execute_async_inner n i par) o x ≫= λ o, execute_async_inner t o par)).
  { intros [c'|] x par; cbn; [auto|]. by intros _ _ s. }
  induction c as [id fn tm r v p tg n Hn|id bs j Hbs Hj|id d n Hn|id s tm n Hn|id k bs d n Hbs Hd Hn
    |id b m o n Hb Hn|id ch n Hc Hn] using continuation_ind; intros Hc' i par; cbn [append_to_chain execute_async_inner].
  - destruct fn; [|by intros s]. etransitivity; [|symmetry; apply bind_bind]. apply bind_ext_r; intros a.
    apply Hp; [done|by destruct n].
  - etransitivity; [|symmetry; apply bind_bind]. apply bind_ext_r; intros a.
    destruct j as [j|]; [|done]. cbn [resolve_join].
    destruct (serialize_branch_results a) as [x|]; [|by intros s]. intros s. by apply Hj.
  - apply Hp; [done|by destruct n].
  - by intros s'.
  - destruct k; [|by intros s]. repeat (etransitivity; [|symmetry; apply bind_bind]; apply bind_ext_r; intros ?).
    apply Hp; [done|by destruct n].
  - etransitivity; [|symmetry; apply bind_bind]. apply bind_ext_r; intros a. apply Hp; [done|by destruct n].
  - etransitivity; [|symmetry; apply bind_bind]. apply bind_ext_r; intros a. apply Hp; [done|by destruct n].
Qed.
(** *** Computations on encoded values *)

(** [m], on the encoding of [x], returns the encoding of [g x], or fails if there is none. *)
Definition runs {A B : Coded} (m : Bytes → io nat RuntimeError Bytes) (g : A → option B) : Prop :=
  ∀ x i n, encode_value x = Ok i →
    match g x with
    | Some y => ∃ o n', m i n = (Ok o, n') ∧ encode_value y = Ok o
    | None => ∃ e n', m i n = (Err e, n')
    end.

Lemma runs_equiv {A B : Coded} m m' (g : A → option B) : (∀ i, m i ≡≡ m' i) → runs m' g → runs m g.
Proof. intros Hm Hr x i n Hi. rewrite Hm. by apply Hr. Qed.

Lemma runs_ret {A : Coded} : runs (λ i, mret i) (λ x : A, Some x).
Proof. intros x i n Hi. eauto. Qed.

Lemma runs_bind {A B C : Coded} m m' (g : A → option B) (g' : B → option C) :
  runs m g → runs m' g' → runs (λ i, m i ≫= m') (λ x, g x ≫= g').
Proof.
  intros Hm Hm' x i n Hi. specialize (Hm x i n Hi). unfold mbind, io_bind.
  destruct (g x) as [y|]; cbn in *.
  - destruct Hm as (o & n' & -> & Ho). apply (Hm' y o n' Ho).
  - destruct Hm as (e & n' & ->). eauto.
Qed.

(** A computation whose outcome does not depend on the state. *)
Lemma runs_const {A B : Coded} m (r : Bytes → result RuntimeError Bytes) (g : A → option B) :
  (∀ i n, (m i n).1 = r i) →
  (∀ x i, encode_value x = Ok i →
    match g x with Some y => ∃ o, r i = Ok o ∧ encode_value y = Ok o | None => ∃ e, r i = Err e end) →
  runs m g.
Proof.
  intros Hm Hr x i n Hi. specialize (Hr x i Hi). specialize (Hm i n). destruct (m i n) as [r' n']. cbn in Hm. subst r'.
  destruct (g x); [destruct Hr as (o & -> & ?)|destruct Hr as (e & ->)]; eauto.
Qed.

Lemma call_const id (func : UntypedCoreTask) t r i n (res : result BoxError Bytes) :
  (∀ n, func n i = res) →
  (run_task_with_retry id i func t r n).1 = map_err from_box_error res.
Proof.
  intros Hf. apply retry_const. intros s. destruct t; rewrite ?Htimely; cbn; by rewrite Hcall, Hf.
Qed.

Lemma node_const id (func : UntypedCoreTask) t r v p tg par i n (res : result BoxError Bytes) :
  (∀ n, func n i = res) →
  (execute_async_inner (Task id (Some func) t r v p tg None) i par n).1 = map_err from_box_error res.
Proof.
  intros Hf. cbn. unfold mbind, io_bind. pose proof (call_const id func t r i n res Hf) as Hc.
  by destruct (run_task_with_retry id i func t r n) as [[a|e] n'].
Qed.

(** *** Tasks *)

Lemma codec_pure {A B : Coded} id (f : A → result BoxError B) n x i :
  encode_value x = Ok i →
  codec_task id (pure_task f) n i = (y ← f x; map_err (encode_failed id) (encode_value y)).
Proof. apply codec_task_encoded. Qed.

Lemma runs_task {A B : Coded} id (f : A → result BoxError B) t r v p tg par :
  runs (λ i, execute_async_inner (Task id (Some (codec_task id (pure_task f))) t r v p tg None) i par)
    (λ x, y ← ok (f x); encodable y).
Proof.
  intros x i n Hi.
  pose proof (node_const id _ t r v p tg par i n _ (λ n, codec_pure id f n x i Hi)) as Hc.
  destruct (execute_async_inner _ i par n) as [res n']. cbn in Hc. subst res.
  destruct (f x) as [y|e]; cbn; [|eauto]. unfold encodable.
  destruct (encode_value y) as [o|e] eqn:Ho; cbn; [rewrite Ho|]; eauto.
Qed.
(** *** Loops *)

Lemma resolve_encoded (d : LoopDecision) inner k (cfg : LoopConfig UntypedCoreTask) :
  resolve_loop_iteration (encode_loop_envelope d inner) k cfg =
  match d with
  | LoopEnvelope.Done => Ok (LoopExit inner)
  | LoopEnvelope.Again =>
      if bool_decide (cfg_max_iterations cfg ≤ k + 1) then
        match cfg_on_max cfg with
        | Fail => Err (max_iterations_exceeded (cfg_id cfg) (cfg_max_iterations cfg))
        | ExitWithLast => Ok (LoopExit inner)
        end
      else Ok (LoopNext inner)
  end.
Proof. by destruct d. Qed.

(** One iteration: the body's task, then what its envelope says. *)
Lemma runs_iteration {A : Coded} id (body : A → result BoxError (LoopResult A)) (cfg : LoopConfig UntypedCoreTask) run n :
  (∀ (x : A) i s, encode_value x = Ok i → ∃ s', run i s = (map_err from_box_error
    (to_core_loop_task_arc id (pure_task body) 0%nat i), s')) →
  cfg_max_iterations cfg = n →
  ∀ j, 0 ≤ n - Z.of_nat j → runs (async_loop (λ e, e) NoHooks cfg run j (n - Z.of_nat j)) (loop_value body (cfg_on_max cfg) j).
Proof.
  intros Hrun Hn j. induction j as [|j IH]; intros Hj x i s Hi; cbn; [eauto|].
  unfold mbind, io_bind. destruct (Hrun x i s Hi) as [s' ->]. rewrite (loop_task_encoded id (pure_task body) 0%nat x i Hi).
  unfold pure_task. destruct (body x) as [r|e]; cbn; [|eauto]. unfold encodable.
  destruct (encode_value (Loops.into_inner r)) as [o|e] eqn:Ho; cbn; [|eauto].
  rewrite resolve_encoded, Hn.
  destruct r as [v|v]; cbn in *; [|eauto].
  destruct j as [|j]; [rewrite bool_decide_true by lia; destruct (cfg_on_max cfg); eauto|].
  rewrite bool_decide_false by lia. specialize (IH ltac:(lia) v o s' Ho).
  replace (n - Z.of_nat (S (S j)) + 1) with (n - Z.of_nat (S j)) by lia. exact IH.
Qed.

Lemma runs_loop {A : Coded} lid id (body : A → result BoxError (LoopResult A)) max on_max par :
  runs (λ i, execute_async_inner (Loop lid (plain_node id (to_core_loop_task_arc id (pure_task body))) max on_max None) i par)
    (λ x, loop_value body on_max (Z.to_nat max) x).
Proof.
  cbn [execute_async_inner proceed].
  set (cfg := MkLoopConfig lid (plain_node id (to_core_loop_task_arc id (pure_task body))) max on_max 0).
  apply (runs_equiv _ (run_loop_async (λ e, e) NoHooks cfg (λ i, execute_async_inner (cfg_body cfg) i false))).
  { intros i s. unfold mbind, io_bind. by destruct (run_loop_async _ _ _ _ i s) as [[] ?]. }
  unfold run_loop_async. cbn [cfg_max_iterations cfg cfg_start_iteration]. destruct (Z.le_gt_cases 0 max) as [Hmax|Hmax]; cycle 1.
  { replace (Z.to_nat (max - 0)) with O by lia. replace (Z.to_nat max) with O by lia. intros x i s Hi. cbn. eauto. }
  pose proof (runs_iteration id body cfg (λ i, execute_async_inner (cfg_body cfg) i false) max) as Hr.
  specialize (λ H, Hr H eq_refl (Z.to_nat max)). rewrite Z.sub_0_r.
  replace (max - Z.of_nat (Z.to_nat max)) with 0 in Hr by lia. apply Hr; [|lia].
  intros x i s Hi. eexists. apply pair_eq_l, node_const. intros n.
  by rewrite !(loop_task_encoded id (pure_task body) _ x i Hi).
Qed.

(** *** Forks *)

Lemma spawn_const (run : Cont → io nat RuntimeError Bytes) (g : Cont → result RuntimeError Bytes) bs n :
  Forall (λ b, ∀ n, (run b n).1 = g b) bs →
  (spawn_branches run bs n).1 = (λ b, pair (cont_id b) <$> g b) <$> bs.
Proof.
  intros Hb. revert n. induction Hb as [|b bs Hb _ IH]; intros n; [done|]. cbn. specialize (Hb n).
  destruct (run b n) as [r n1]. specialize (IH n1). destruct (spawn_branches run bs n1). cbn in *. by subst.
Qed.
Lemma sequential_const (run : Cont → io nat RuntimeError Bytes) (g : Cont → result RuntimeError Bytes) bs n :
  Forall (λ b, ∀ n, (run b n).1 = g b) bs →
  (run_branches run bs n).1 = result_collect ((λ b, pair (cont_id b) <$> g b) <$> bs).
Proof.
  intros Hb. revert n. induction Hb as [|b bs Hb _ IH]; intros n; [done|]. cbn. specialize (Hb n).
  unfold mbind, io_bind. destruct (run b n) as [[o|e] n1]; cbn in Hb; rewrite <-Hb; [|done]. cbn. specialize (IH n1).
  destruct (run_branches run bs n1) as [[l|e] n2]; cbn in *; by rewrite <-IH.
Qed.

(** Either way, the results are those of the branches, in some order. *)
Lemma branches_run (run : Cont → io nat RuntimeError Bytes) g bs (parallel : bool) n :
  Forall (λ b, ∀ n, (run b n).1 = g b) bs →
  let rs := result_collect ((λ b, pair (cont_id b) <$> g b) <$> bs) in
  match ((if parallel then join_set run bs else run_branches run bs) n).1 with
  | Ok l => ∃ l', rs = Ok l' ∧ l ≡ₚ l'
  | Err _ => ∃ e, rs = Err e
  end.
Proof.
  intros Hb rs. destruct parallel; [|rewrite (sequential_const _ g) by done; fold rs; destruct rs; eauto].
  unfold join_set. pose proof (spawn_const run g bs n Hb) as Hs. destruct (spawn_branches run bs n) as [l n']. cbn in *.
  subst l. fold rs. destruct (result_collect (finish_order n' _)) as [l|e] eqn:Hc.
  - eapply result_collect_perm in Hc as (r & Hr & Hp); [|apply finish_order_perm]. exists r. by split.
  - unfold rs. destruct (result_collect (_ <$> bs)) as [l|e'] eqn:Hr; [|eauto].
    eapply result_collect_perm in Hr as (r & Hr & Hp); [|symmetry; apply (finish_order_perm n')]. congruence.
Qed.
Lemma collect_mapM {E A C} (h : A → result E C) (k : A → option C) l :
  (∀ a, ok (h a) = k a) → ok (result_collect (h <$> l)) = mapM k l.
Proof.
  intros Hk. induction l as [|a l IH]; [done|]. cbn. rewrite <-Hk, <-IH.
  destruct (h a); cbn; [|done]. by destruct (result_collect (h <$> l)).
Qed.

Lemma branch_names_value {A : Coded} (x : A) bs outs : mapM (branch_value x) bs = Some outs → outs.*1 = ts_id <$> bs.
Proof.
  rewrite mapM_Some. induction 1 as [|b o bs outs Hb _ IH]; [done|]. cbn. rewrite IH. f_equal.
  unfold branch_value in Hb. destruct (ok (ts_func b x)) as [y|]; [|done]. cbn in Hb.
  destruct (ok (encode_value y)); [|done]. by injection Hb as <-.
Qed.

(** The join sees a map: the order in which the branches finished does not show. *)
Lemma into_map_perm (l l' : NamedBranchResults) : l ≡ₚ l' → NoDup l'.*1 → into_map l = into_map l'.
Proof.
  intros Hp Hn. apply map_eq. intros k. apply option_eq. intros b.
  rewrite !into_map_lookup; [by rewrite Hp|done|by rewrite Hp].
Qed.

Definition branch_cont {A : Coded} (b : TypedStep A) : Cont :=
  plain_node (ts_id b) (codec_task (ts_id b) (pure_task (ts_func b))).

Lemma branches_value {A : Coded} (bs : list (TypedStep A)) (x : A) i (parallel : bool) n :
  encode_value x = Ok i →
  let run b := execute_async_inner b i false in
  match ((if parallel then join_set run (branch_cont <$> bs) else run_branches run (branch_cont <$> bs)) n).1 with
  | Ok l => ∃ l', mapM (branch_value x) bs = Some l' ∧ l ≡ₚ l'
  | Err _ => mapM (branch_value x) bs = None
  end.
Proof.
  intros Hi run. set (g := λ b : Cont, (run b 0%nat).1).
  assert (Hb : ∀ b n, (run (@branch_cont A b) n).1 = map_err from_box_error
    (y ← ts_func b x; map_err (encode_failed (ts_id b)) (encode_value y))).
  { intros b m. apply node_const. intros k. by apply codec_pure. }
  assert (Hm : ok (result_collect ((λ b, pair (cont_id b) <$> g b) <$> (branch_cont <$> bs))) = mapM (branch_value x) bs).
  { rewrite <-list_fmap_compose. apply collect_mapM. intros b. cbn. unfold g. rewrite Hb. unfold branch_value.
    destruct (ts_func b x) as [y|]; [|done]. cbn. by destruct (encode_value y). }
  assert (Hg : Forall (λ b : Cont, ∀ n, (run b n).1 = g b) (branch_cont <$> bs)).
  { apply Forall_fmap, Forall_forall. intros b _ m. unfold g, compose. by rewrite !Hb. }
  pose proof (branches_run run g (branch_cont <$> bs) parallel n Hg) as Hr. rewrite <-Hm. revert Hr. cbn zeta.
  set (r := (_ n).1). destruct r as [l|e]; [intros (l' & Hl & Hp); rewrite Hl; exists l'; by split|intros (e' & He); by rewrite He].
Qed.

Lemma join_const {B : Coded} id (join : BranchOutputs → result BoxError B) l b par n :
  decode_value b = Ok l →
  (execute_async_inner (plain_node id (to_heterogeneous_join_task_arc id (pure_task join))) b par n).1 =
  map_err from_box_error (y ← join (MkBranchOutputs (into_map l)); map_err (encode_failed id) (encode_value y)).
Proof. intros Hb. apply node_const. intros k. unfold to_heterogeneous_join_task_arc. by rewrite Hb. Qed.

Lemma fork_execute fid (bs : list Cont) j i par n :
  let run b := execute_async_inner b i false in
  execute_async_inner (Fork fid bs (Some j)) i par n =
  match (if par && bool_decide (1 < length bs)%nat then join_set run bs else run_branches run bs) n with
  | (Ok l, n1) =>
      match encode_named_results l with
      | Ok b => execute_async_inner j b par n1
      | Err e => (Err (from_box_error e), n1)
      end
  | (Err e, n1) => (Err e, n1)
  end.
Proof.
  cbn. unfold mbind, io_bind, serialize_branch_results. destruct (_ n) as [[l|e] n1]; [|done].
  by destruct (encode_named_results l).
Qed.

Lemma runs_fork {A B : Coded} fid (bs : list (TypedStep A)) id (join : BranchOutputs → result BoxError B) par :
  NoDup (ts_id <$> bs) →
  runs (λ i, execute_async_inner (Fork fid (branch_cont <$> bs)
      (Some (plain_node id (to_heterogeneous_join_task_arc id (pure_task join))))) i par)
    (λ x, outs ← mapM (branch_value x) bs; y ← ok (join (MkBranchOutputs (into_map outs))); encodable y).
Proof.
  intros Hnd x i n Hi. rewrite fork_execute.
  pose proof (branches_value bs x i (par && bool_decide (1 < length (branch_cont <$> bs))%nat) n Hi) as Hb.
  cbn zeta in Hb. destruct (_ n) as [[l|e] n1]; cbn [fst] in Hb; [|rewrite Hb; cbn; eauto].
  destruct Hb as (l' & Hl & Hp). rewrite Hl. cbn [mbind option_bind].
  rewrite <-(into_map_perm l l') by (done || by rewrite (branch_names_value x bs l' Hl)).
  destruct (Hresults l) as (b & -> & Hd). pose proof (join_const id join l b par n1 Hd) as Hj.
  destruct (execute_async_inner _ b par n1) as [r n2]. cbn in Hj. subst r. unfold encodable.
  destruct (join (MkBranchOutputs (into_map l))) as [y|e]; cbn; [|eauto].
  destruct (encode_value y) as [o|e] eqn:Ho; cbn; [rewrite Ho|]; eauto.
Qed.
(** *** The builder's steps *)

Definition execute_opt (c : option Cont) (i : Bytes) : io nat RuntimeError Bytes :=
  match c with Some c => execute_continuation_async c i | None => mret i end.
Definition joined_opt (c : option Cont) : Prop := match c with Some c => joined c | None => True end.

Lemma joined_append t c : joined c → joined t → joined (append_to_chain t c).
Proof.
  intros Hc Ht. revert Hc. induction c as [??????? n Hn|? bs n Hbs Hn|?? n Hn|??? n Hn|?? bs d n Hbs Hd Hn
    |? b ?? n Hb Hn|? b n Hb Hn] using continuation_ind; cbn; destruct n; cbn in *; auto.
Qed.

(** A builder whose chain computes [g]. *)
Definition computing {R} {A B : Coded} (b : WorkflowBuilder R) (g : A → option B) : Prop :=
  joined_opt (continuation b) ∧ runs (execute_opt (continuation b)) g.

Lemma computing_push {R R'} {A B C : Coded} (b : WorkflowBuilder R) (b' : WorkflowBuilder R') node (g : A → option B)
    (h : B → option C) :
  continuation b' = Some (append (continuation b) node) → joined node →
  computing b g → runs (λ i, execute_async_inner node i true) h → computing b' (λ x, g x ≫= h).
Proof.
  unfold computing. intros -> Hn [Hj Hg] Hh. unfold append. destruct (continuation b) as [c|]; cbn in *.
  - split; [by apply joined_append|]. eapply runs_equiv; [intros i; by apply execute_append|]. by apply runs_bind.
  - split; [done|]. eapply runs_equiv; [|by apply (runs_bind _ _ g h Hg Hh)]. by intros i s.
Qed.

Section Registered.
Context {R : Type} `{RegistryBehavior R}.

Lemma assemble_fork_branches {A : Coded} (bs : list (TypedStep A)) (fb : ForkBuilder R) :
  let fb' := foldl add_typed_branch fb bs in
  continuation (fork_parent fb') = continuation (fork_parent fb) ∧
  (λ b, plain_node (eb_id b) (eb_task b)) <$> fork_branches fb' =
    ((λ b, plain_node (eb_id b) (eb_task b)) <$> fork_branches fb) ++ (branch_cont <$> bs).
Proof.
  revert fb. induction bs as [|b bs IH]; intros fb; cbn; [by rewrite app_nil_r|].
  destruct (IH (add_typed_branch fb b)) as [-> ->]. split; [done|]. cbn. by rewrite fmap_app, <-app_assoc.
Qed.

Lemma assemble_fork_node {A B : Coded} (bs : list (TypedStep A)) id (join : BranchOutputs → result BoxError B)
    (b : WorkflowBuilder R) :
  ∃ fid, continuation (assemble_fork bs id join b) = Some (append (continuation b)
    (Fork fid (branch_cont <$> bs) (Some (plain_node id (to_heterogeneous_join_task_arc id (pure_task join)))))).
Proof.
  unfold assemble_fork, fork_join, fork_node. cbn. destruct (assemble_fork_branches bs (fork b)) as [-> ->]. cbn. eauto.
Qed.

Lemma loop_continuation {A : Coded} id (body : A → result BoxError (LoopResult A)) max on_max (b : WorkflowBuilder R) :
  continuation (loop_task_with_policy id (pure_task body) max on_max b) = Some (append (continuation b)
    (Loop (loop_node_id (loop_counter b)) (plain_node id (to_core_loop_task_arc id (pure_task body))) max on_max None)).
Proof. unfold loop_task_with_policy, check_iterations. by case_bool_decide. Qed.

(** The forks' branches have distinct names. *)
Fixpoint distinct_branches {A B} (p : Pipeline A B) : Prop :=
  match p with
  | PEnd _ => True
  | PThen _ _ rest | PTask _ _ _ rest | PLoop _ _ _ _ rest | PDelay _ _ rest => distinct_branches rest
  | PFork bs _ _ rest => NoDup (ts_id <$> bs) ∧ distinct_branches rest
  end.

Lemma computing_ext {A B : Coded} (b : WorkflowBuilder R) (g g' : A → option B) :
  (∀ x, g x = g' x) → computing b g → computing b g'.
Proof. intros Hg [Hj Hr]. split; [done|]. intros x i n Hi. rewrite <-Hg. by apply Hr. Qed.

(** A step, then the rest. *)
Lemma computing_step {X A B C : Coded} (b b' : WorkflowBuilder R) node (g : X → option A) (h : A → option B)
    (rest : WorkflowBuilder R → WorkflowBuilder R) (v : B → option C) (v' : A → option C) :
  continuation b' = Some (append (continuation b) node) → joined node →
  runs (λ i, execute_async_inner node i true) h →
  (∀ (g : X → option B), computing b' g → computing (rest b') (λ x, g x ≫= v)) →
  (∀ x, v' x = h x ≫= v) →
  computing b g → computing (rest b') (λ x, g x ≫= v').
Proof.
  intros Hc Hn Hh Hrest Hv Hg. eapply computing_ext; [|apply Hrest; by eapply computing_push].
  intros x. cbn. destruct (g x) as [y|]; cbn; by rewrite ?Hv.
Qed.

Lemma assemble_computes {A B} (p : Pipeline A B) : ∀ {X : Coded} (b : WorkflowBuilder R) (g : X → option A),
  distinct_branches p → computing b g → computing (assemble p b) (λ x, g x ≫= value p).
Proof.
  induction p as [A|A B C id f rest IH|A B C id m f rest IH|A C id body max on_max rest IH|A C id d rest IH
    |A B C bs id join rest IH]; intros X b g Hd Hg; cbn in Hd |- *.
  - eapply computing_ext; [|exact Hg]. intros x. by destruct (g x).
  - eapply (computing_step b); [reflexivity|done|apply runs_task|by intros; apply IH| |done].
    intros x. cbn. destruct (f x) as [y|]; [|done]. cbn. unfold encodable. by destruct (encode_value y).
  - eapply (computing_step b); [reflexivity|done|apply runs_task|by intros; apply IH| |done].
    intros x. cbn. destruct (f x) as [y|]; [|done]. cbn. unfold encodable. by destruct (encode_value y).
  - eapply (computing_step b); [apply loop_continuation|done|apply runs_loop|by intros; apply IH|done|done].
  - eapply (computing_step b); [reflexivity|done|apply runs_ret|by intros; apply IH|done|done].
  - destruct Hd as [Hnd Hd]. destruct (assemble_fork_node bs id join b) as [fid Hf].
    eapply (computing_step b); [exact Hf|done|by apply runs_fork|by intros; apply IH| |done].
    intros x. cbn. destruct (mapM (branch_value x) bs) as [outs|]; [|done]. cbn.
    destruct (join _) as [y|]; [|done]. cbn. unfold encodable. by destruct (encode_value y).
Qed.

(** *** Distinct ids *)

Definition ids_opt (c : option Cont) : list string := match c with Some c => node_ids c | None => [] end.

Lemma ids_append c node : node_ids (append c node) = ids_opt c ++ node_ids node.
Proof. destruct c; cbn; [apply node_ids_append|done]. Qed.

Lemma assemble_ids {A B} (p : Pipeline A B) : ∀ b : WorkflowBuilder R,
  ∃ l, ids_opt (continuation (assemble p b)) = ids_opt (continuation b) ++ l ∧ (NoDup l → distinct_branches p).
Proof.
  induction p as [A|A B C id f rest IH|A B C id m f rest IH|A C id body max on_max rest IH|A C id d rest IH
    |A B C bs id join rest IH]; intros b; cbn [assemble distinct_branches].
  - exists []. by rewrite app_nil_r.
  - destruct (IH (then_ id (pure_task f) b)) as (l & -> & Hl). cbn [then_ continuation push_node set_registry ids_opt].
    rewrite ids_append, <-app_assoc. eexists. split; [done|]. intros [_ [_ Hn]]%NoDup_app. auto.
  - destruct (IH (then_task_with (MkRegisterableTask id m (pure_task f)) b)) as (l & -> & Hl).
    cbn [then_task_with continuation push_node set_registry ids_opt].
    rewrite ids_append, <-app_assoc. eexists. split; [done|]. intros [_ [_ Hn]]%NoDup_app. auto.
  - destruct (IH (loop_task_with_policy id (pure_task body) max on_max b)) as (l & -> & Hl).
    rewrite loop_continuation. cbn [ids_opt]. rewrite ids_append, <-app_assoc. eexists. split; [done|]. intros [_ [_ Hn]]%NoDup_app. auto.
  - destruct (IH (delay id d b)) as (l & -> & Hl). cbn [delay continuation push_node ids_opt].
    rewrite ids_append, <-app_assoc. eexists. split; [done|]. intros [_ [_ Hn]]%NoDup_app. auto.
  - destruct (IH (assemble_fork bs id join b)) as (l & -> & Hl). destruct (assemble_fork_node bs id join b) as [fid ->].
    cbn [ids_opt]. rewrite ids_append, <-app_assoc. eexists. split; [done|].
    intros [Hb [_ Hn]]%NoDup_app. split; [|auto]. cbn in Hb. apply NoDup_cons in Hb as [_ [Hb _]%NoDup_app].
    replace (ts_id <$> bs) with (flat_map node_ids (branch_cont <$> bs)); [done|].
    clear. by induction bs as [|b bs IH]; cbn; f_equal.
Qed.

Lemma assembled {A B : Coded} (p : Pipeline A B) (b : WorkflowBuilder R) c :
  continuation b = None → continuation (assemble p b) = Some c → find_duplicate_id c = None →
  runs (execute_continuation_async c) (value p).
Proof.
  intros Hb Hc Hd. destruct (assemble_ids p b) as (l & Hl & Hdb). rewrite Hb, Hc in Hl. cbn in Hl.
  pose proof (find_duplicate_id_correct c) as Hn. rewrite Hd, Hl in Hn.
  destruct (assemble_computes p b Some) as [_ Hr]; [by apply Hdb| |].
  { split; rewrite Hb; [done|apply runs_ret]. }
  rewrite Hc in Hr. exact Hr.
Qed.
End Registered.
End Run.

(** ** Properties *)

(** C38. A built pipeline computes what its functions compute: the tasks, task structs,
    loops, delays and forks of a typed pipeline, assembled with the builder (with or
    without a registry), erased to bytes and run by the asynchronous executor on the
    encoding of [x], give the encoding of the pipeline's value on [x], and an error
    exactly when it has none (a function fails, an output cannot be encoded, a loop
    exhausts its iterations under the failing policy).  The order in which the
    branches of a fork finish makes no difference, nor do timeouts that are not
    reached, retries and priorities. *)
Theorem typed_pipeline_correct `{Sha256, HashOrder, FloatOps, SerdeJson, EnvelopeCodec, Backon, !BackonLaws}
    `{TypeName NamedBranchResults, DecodeValue NamedBranchResults}
    `{AsyncRuntime UntypedCoreTask, !AsyncRuntimeLaws UntypedCoreTask}
    {A B : Coded} (p : Pipeline A B) (ctx : WorkflowContext) (w : Worker.Workflow UntypedCoreTask) (x : A) (i : Bytes) (n : nat) :
  (∀ n (f : UntypedCoreTask) i, run_func n f i = f n i) → (∀ n d, timely n d = true) →
  (∀ rs, ∃ b, encode_named_results rs = Ok b ∧ decode_value b = Ok rs) →
  build (assemble p (builder_new ctx)) = Some (Ok w) ∨
  (∃ r f, build_serializable (assemble p (with_existing_registry r (builder_new ctx))) = Some (Ok f) ∧ w = inner f) →
  encode_value x = Ok i →
  ok (execute_continuation_async (workflow_continuation w) i n).1 = (y ← value p x; ok (encode_value y)).
Proof.
  intros Hcall Htimely Hresults Hb Hi.
  assert (Hr : runs (execute_continuation_async (workflow_continuation w)) (value p)).
  { destruct Hb as [Hb|(r & f & Hb & ->)]; unfold build, build_serializable in Hb;
      destruct (continuation _) as [c|] eqn:Hc; try done; cbn in Hb;
      destruct (checked _ c) as [c'|] eqn:Hk; try done; apply checked_Ok in Hk as (-> & _ & Hd); injection Hb as <-;
      cbn [workflow_continuation inner workflow_of].
    - by eapply (assembled (R := NoRegistry) Hcall Htimely Hresults); [|exact Hc|].
    - by eapply (assembled (R := TaskRegistry) Hcall Htimely Hresults); [|exact Hc|]. }
  specialize (Hr x i n Hi). destruct (value p x) as [y|]; cbn.
  - destruct Hr as (o & n' & -> & ->). done.
  - by destruct Hr as (e & n' & ->).
Qed.

(** ** Witness *)

Module TypedExample.
Import Toy Examples.

#[local] Instance order : HashOrder := {| map_iter _ m := map_to_list m; set_iter s := elements s |}.
#[local] Instance string_name : TypeName string := "string".
#[local] Instance string_encode : EncodeValue string := λ s, Ok (as_bytes s).
#[local] Instance string_decode : DecodeValue string := λ b, Ok (String.string_of_list_byte b).
#[local] Instance string_laws : CodecLaws string.
Proof. intros s b [= <-]. unfold decode_value, string_decode. f_equal. apply String.string_of_list_byte_of_string. Qed.
Definition text : Coded := MkCoded string _ _ _ _.

(** A codec of named results: each byte is escaped, each field is closed. *)
Definition put_field (b : Bytes) (tail : Bytes) : Bytes := foldr (λ c l, x01 :: c :: l) (x00 :: tail) b.
Fixpoint get_field (l : Bytes) : option (Bytes * Bytes) :=
  match l with
  | x00 :: tail => Some ([], tail)
  | x01 :: c :: l => '(b, tail) ← get_field l; Some (c :: b, tail)
  | _ => None
  end.
Fixpoint put_results (rs : NamedBranchResults) : Bytes :=
  match rs with
  | [] => [x00]
  | (name, b) :: rs => x01 :: put_field (as_bytes name) (put_field b (put_results rs))
  end.
Fixpoint get_results (fuel : nat) (l : Bytes) : option NamedBranchResults :=
  match fuel, l with
  | S fuel, x01 :: l =>
      '(name, l) ← get_field l; '(b, l) ← get_field l; rs ← get_results fuel l;
      Some ((String.string_of_list_byte name, b) :: rs)
  | _, [x00] => Some []
  | _, _ => None
  end.
Lemma get_put_field b tail : get_field (put_field b tail) = Some (b, tail).
Proof. induction b as [|c b IH]; [done|]. cbn. unfold put_field in IH. by rewrite IH. Qed.
Lemma put_field_length b tail : (length tail < length (put_field b tail))%nat.
Proof. induction b; cbn; [lia|]. unfold put_field in *. lia. Qed.
Lemma get_put_results rs fuel : (length (put_results rs) ≤ fuel)%nat → get_results fuel (put_results rs) = Some rs.
Proof.
  revert fuel. induction rs as [|[name b] rs IH]; intros [|fuel]; cbn [put_results length]; intros Hf; try (done || lia).
  pose proof (put_field_length (as_bytes name) (put_field b (put_results rs))).
  pose proof (put_field_length b (put_results rs)).
  cbn [get_results]. rewrite get_put_field. cbn. rewrite get_put_field. cbn. rewrite IH by lia. cbn.
  repeat f_equal. apply String.string_of_list_byte_of_string.
Qed.

#[local] Instance results_name : TypeName NamedBranchResults := "results".
#[local] Instance results_decode : DecodeValue NamedBranchResults :=
  λ b, ok_or (get_results (length b) b) (BoxOther "malformed results").
#[local] Instance codec : EnvelopeCodec := {|
  decode_string b := Ok (String.string_of_list_byte b);
  encode_branch_envelope key b := Ok b;
  encode_named_results rs := Ok (put_results rs)
|}.
(** The branches finish in the opposite order. *)
#[local] Instance runtime : AsyncRuntime UntypedCoreTask :=
  {| run_func n f i := f n i; timely _ _ := true; finish_order _ _ l := reverse l |}.
#[local] Instance runtime_laws : AsyncRuntimeLaws UntypedCoreTask.
Proof. intros A n l. apply reverse_Permutation. Qed.

#[local] Existing Instances ExecExample.no_json ExecExample.backon ExecExample.backon_laws.

Definition greet (s : string) : result BoxError string := Ok ("hello " +:+ s).
Definition shout (s : string) : result BoxError string := Ok (s +:+ "!").
Definition grow (s : string) : result BoxError (LoopResult string) :=
  if bool_decide (5 < String.length s)%nat then Ok (Loops.Done s) else Ok (Loops.Again (s +:+ "o")).
Definition both (o : BranchOutputs) : result BoxError string :=
  match outputs o !! "greet", outputs o !! "shout" with
  | Some g, Some s => Ok (String.string_of_list_byte g +:+ ", " +:+ String.string_of_list_byte s)
  | _, _ => Err (BoxOther "missing branch")
  end.
Definition party : Pipeline text text :=
  PThen (B := text) "trim" (Ok : text → result BoxError text)
    (PLoop "grow" (grow : text → _) 10 Fail
      (PFork (B := text) [MkTypedStep (A := text) "greet" text greet; MkTypedStep (A := text) "shout" text shout] "both" both (PEnd text))).

Lemma typed_pipeline_correct_witness :
  ∃ w, build (assemble party (builder_new (context_new "party"))) = Some (Ok w) ∧
    ok (execute_continuation_async (workflow_continuation w) (as_bytes "b") 0%nat).1 =
      Some (as_bytes "hello booooo, booooo!").
Proof.
  eexists. split; [apply build_ok; [reflexivity|reflexivity|vm_compute; reflexivity]|].
  refine (eq_trans (typed_pipeline_correct party (context_new "party") _ ("b" : text) (as_bytes "b") 0%nat _ _ _ _ _) _).
  - done.
  - done.
  - intros rs. exists (put_results rs). split; [done|]. unfold decode_value, results_decode. by rewrite get_put_results.
  - left. apply build_ok; [reflexivity|reflexivity|vm_compute; reflexivity].
  - reflexivity.
  - vm_compute. reflexivity.
Defined.
End TypedExample.
