(* ===== verification/FlowBuilder.v ===== *)
(** * The builder of the bindings ([sayiir-core/src/continuation_builder.rs])

    The Python and Node bindings collect [BuilderTask]s in a [FlowBuilder], which
    checks each one as it is added, and turn the list into a continuation whose
    functions are looked up later: no node carries one.  Durations come as [f64]
    seconds; [Duration::from_secs_f64] panics on values it cannot represent. *)

From S2P Require Import Prelude Hash32 SnapshotFormat Task Workflow TaskIndex Serializable Backend Runtime SyncExec Checkpoint WorkerNav Worker Registry Builder BuilderProps TypedFlow.
From Stdlib Require Import Floats.SpecFloat.
Import Injection.

(** ** Durations *)

(** [!secs.is_finite() || secs < 0.0]; [-0.0] is not below zero. *)
Definition invalid_secs (secs : f64) : bool :=
  match secs with
  | S754_zero _ | S754_finite false _ _ => false
  | S754_finite true _ _ | S754_infinity _ | S754_nan => true
  end.
(** [validate_duration]. *)
Definition validate_duration (secs : f64) (label : string) : result BuildError () :=
  if invalid_secs secs then Err (InvalidDuration label) else Ok ().

(** [a / b] rounded to the nearest integer, ties to even. *)
Definition div_round_even (a b : Z) : Z :=
  let q := Z.div a b in
  let r := Z.modulo a b in
  if bool_decide (2 * r < b) then q
  else if bool_decide (b < 2 * r) then q + 1
  else if Z.even q then q else q + 1.

(** [Duration::from_secs_f64] of the standard library: rounded to nanoseconds, and
    [None] for its panic on a value that is negative, not finite, or whose seconds
    do not fit [u64]. *)
Definition from_secs_f64 (secs : f64) : option Duration :=
  match secs with
  | S754_zero _ => Some 0
  | S754_finite false m e =>
      let ns := if bool_decide (0 ≤ e) then Z.pos m * 2 ^ e * ns_per_sec
                else div_round_even (Z.pos m * ns_per_sec) (2 ^ (- e)) in
      if bool_decide (Z.div ns ns_per_sec < 2 ^ 64) then Some ns else None
  | _ => None
  end.

(** ** Builder tasks *)

(** A chain of [(task_id, metadata)] pairs. *)
Abbreviation TaskChain := (list (string * TaskMetadata)).

#[warnings="-register-all"]
Inductive BuilderTask : Type :=
| BSequential (task_id : string) (metadata : TaskMetadata)
| BFork (branches : list TaskChain) (join_id : string) (join_metadata : TaskMetadata)
| BDelay (delay_id : string) (duration_secs : f64)
| BAwaitSignal (signal_id signal_name : string) (timeout_secs : option f64)
| BBranch (branch_id : string) (branches : list (string * TaskChain)) (dflt : option TaskChain)
| BLoop (loop_id body_task_id : string) (body_metadata : TaskMetadata) (max_iterations : Z) (on_max : MaxIterationsPolicy)
| BChildWorkflow (child_id : string) (child_tasks : list BuilderTask).

(** How building stops: with an error, or with a panic of [from_secs_f64]. *)
Inductive Stop : Type := Failed (e : BuildError) | Panicked.

(** [build_chain]. *)
Definition chain_node (id : string) (m : TaskMetadata) (next : option Cont) : Cont :=
  Task id None (md_timeout m) (md_retries m) (md_version m) (Priority_as_u8 <$> md_priority m) (md_tags m) next.
Definition chain_of (chain : TaskChain) : option Cont :=
  foldr (λ t current, Some (chain_node t.1 t.2 current)) None chain.
Definition build_chain (chain : TaskChain) : result Stop Cont := ok_or (chain_of chain) (Failed EmptyBranch).

(** [std::time::Duration::from_secs_f64(..)], or its panic. *)
Definition duration_or_panic (secs : f64) : result Stop Duration := ok_or (from_secs_f64 secs) Panicked.

Section Build.
Context `{HashOrder}.

(** [build_continuation]: the tasks are taken from the last to the first. *)
Fixpoint build_task (task : BuilderTask) (current : option Cont) : result Stop Cont :=
  let fix build_all (tasks : list BuilderTask) : result Stop (option Cont) :=
    match tasks with
    | [] => Ok None
    | task :: tasks => current ← build_all tasks; Some <$> build_task task current
    end in
  match task with
  | BSequential task_id metadata => Ok (chain_node task_id metadata current)
  | BDelay delay_id duration_secs => d ← duration_or_panic duration_secs; Ok (Delay delay_id d current)
  | BAwaitSignal signal_id signal_name timeout_secs =>
      timeout ← transpose (duration_or_panic <$> timeout_secs);
      Ok (AwaitSignal signal_id signal_name timeout current)
  | BFork branches join_id join_metadata =>
      let fork_id := derive_fork_id (omap (λ chain : TaskChain, fst <$> head chain) branches) in
      branch_conts ← result_collect (build_chain <$> branches);
      Ok (Fork fork_id branch_conts (Some (chain_node join_id join_metadata current)))
  | BBranch branch_id branches dflt =>
      conts ← result_collect ((λ kc : string * TaskChain, pair kc.1 <$> build_chain kc.2) <$> branches);
      default_cont ← transpose (build_chain <$> dflt);
      let branch_map : gmap string Cont := foldl (λ m kc, <[kc.1 := kc.2]> m) ∅ conts in
      Ok (Branch branch_id None (map_iter branch_map) default_cont current)
  | BLoop loop_id body_task_id body_metadata max_iterations on_max =>
      if bool_decide (max_iterations = 0) then Err (Failed (InvalidMaxIterations loop_id))
      else Ok (Loop loop_id (chain_node body_task_id body_metadata None) max_iterations on_max current)
  | BChildWorkflow child_id child_tasks =>
      child ← build_all child_tasks;
      child_cont ← ok_or child (Failed EmptyWorkflow);
      Ok (ChildWorkflow child_id child_cont current)
  end.

(** The loop of [build_continuation], from a given tail. *)
Fixpoint build_tasks (tasks : list BuilderTask) (current : option Cont) : result Stop (option Cont) :=
  match tasks with
  | [] => Ok current
  | task :: tasks => current ← build_tasks tasks current; Some <$> build_task task current
  end.
Definition build_continuation (tasks : list BuilderTask) : result Stop Cont :=
  current ← build_tasks tasks None;
  ok_or current (Failed EmptyWorkflow).

(** ** The builder *)

Record FlowBuilder : Type := MkFlowBuilder {
  tasks : list BuilderTask;
  fb_lambda_counter : nat;
  fb_loop_counter : nat;
  fb_branch_counter : nat
}.
Definition flow_new : FlowBuilder := MkFlowBuilder [] 0 0 0.
Definition push_task (t : BuilderTask) (self : FlowBuilder) : FlowBuilder :=
  MkFlowBuilder (tasks self ++ [t]) (fb_lambda_counter self) (fb_loop_counter self) (fb_branch_counter self).

Definition next_lambda_id (self : FlowBuilder) : string * FlowBuilder :=
  ("lambda_" +:+ pretty (N.of_nat (fb_lambda_counter self)),
   MkFlowBuilder (tasks self) (S (fb_lambda_counter self)) (fb_loop_counter self) (fb_branch_counter self)).
Definition add_sequential (task_id : string) (metadata : TaskMetadata) (self : FlowBuilder) : FlowBuilder :=
  push_task (BSequential task_id metadata) self.
Definition add_fork (branches : list TaskChain) (join_id : string) (join_metadata : TaskMetadata) (self : FlowBuilder) :
    result BuildError FlowBuilder :=
  if bool_decide (branches = []) then Err EmptyFork
  else if existsb (λ branch : TaskChain, bool_decide (branch = [])) branches then Err EmptyBranch
  else Ok (push_task (BFork branches join_id join_metadata) self).
Definition add_delay (delay_id : string) (duration_secs : f64) (self : FlowBuilder) : result BuildError FlowBuilder :=
  _ ← validate_duration duration_secs "delay duration";
  Ok (push_task (BDelay delay_id duration_secs) self).
Definition add_signal (signal_id signal_name : string) (timeout_secs : option f64) (self : FlowBuilder) :
    result BuildError FlowBuilder :=
  _ ← match timeout_secs with Some t => validate_duration t "timeout" | None => Ok () end;
  Ok (push_task (BAwaitSignal signal_id signal_name timeout_secs) self).
Definition add_loop (body_task_id : string) (body_metadata : TaskMetadata) (max_iterations : Z)
    (on_max : MaxIterationsPolicy) (self : FlowBuilder) : result BuildError (string * FlowBuilder) :=
  let loop_id := "loop_" +:+ pretty (N.of_nat (fb_loop_counter self)) in
  if bool_decide (max_iterations = 0) then Err (InvalidMaxIterations loop_id)
  else Ok (loop_id, MkFlowBuilder (tasks self ++ [BLoop loop_id body_task_id body_metadata max_iterations on_max])
    (fb_lambda_counter self) (S (fb_loop_counter self)) (fb_branch_counter self)).
Definition add_branch (branches : list (string * TaskChain)) (dflt : option TaskChain) (self : FlowBuilder) :
    result BuildError (string * FlowBuilder) :=
  if bool_decide (branches = []) then Err EmptyBranch
  else if existsb (λ kc : string * TaskChain, bool_decide (kc.2 = [])) branches then Err EmptyBranch
  else
    let branch_id := "branch_" +:+ pretty (N.of_nat (fb_branch_counter self)) in
    Ok (branch_id, MkFlowBuilder (tasks self ++ [BBranch branch_id branches dflt])
      (fb_lambda_counter self) (fb_loop_counter self) (S (fb_branch_counter self))).
Definition add_child_workflow (child_id : string) (child_tasks : list BuilderTask) (self : FlowBuilder) : FlowBuilder :=
  push_task (BChildWorkflow child_id child_tasks) self.
Definition flow_build (self : FlowBuilder) : result Stop Cont := build_continuation (tasks self).
End Build.

(** ** Induction on tasks *)

Fixpoint builder_task_ind (P : BuilderTask → Prop)
    (HS : ∀ id m, P (BSequential id m)) (HF : ∀ bs j m, P (BFork bs j m)) (HD : ∀ id d, P (BDelay id d))
    (HA : ∀ id n t, P (BAwaitSignal id n t)) (HB : ∀ id bs d, P (BBranch id bs d))
    (HL : ∀ id b m mx o, P (BLoop id b m mx o)) (HC : ∀ id ts, Forall P ts → P (BChildWorkflow id ts)) (t : BuilderTask) : P t :=
  match t with
  | BSequential id m => HS id m
  | BFork bs j m => HF bs j m
  | BDelay id d => HD id d
  | BAwaitSignal id n t => HA id n t
  | BBranch id bs d => HB id bs d
  | BLoop id b m mx o => HL id b m mx o
  | BChildWorkflow id ts => HC id ts
      ((fix all (l : list BuilderTask) : Forall P l :=
        match l with
        | [] => Forall_nil_2 P
        | t :: l => Forall_cons_2 P t l (builder_task_ind P HS HF HD HA HB HL HC t) (all l)
        end) ts)
  end.

Section BuildLemmas.
Context `{HashOrder}.

(** The child's loop is [build_tasks]. *)
Lemma build_child child_id child_tasks current :
  build_task (BChildWorkflow child_id child_tasks) current =
  (child ← build_continuation child_tasks; Ok (ChildWorkflow child_id child current)).
Proof.
  unfold build_continuation. rewrite result_bind_assoc. cbn [build_task]. f_equal.
  induction child_tasks as [|t ts IH]; cbn; [done|]. by rewrite IH.
Qed.

Lemma build_tasks_app ts ts' current :
  build_tasks (ts ++ ts') current = (current ← build_tasks ts' current; build_tasks ts current).
Proof.
  induction ts as [|t ts IH]; cbn; [by destruct (build_tasks ts' current)|].
  rewrite IH. by destruct (build_tasks ts' current).
Qed.

(** *** What is built *)

(** The checks of [build_continuation]. *)
Fixpoint well_formed (t : BuilderTask) : Prop :=
  let fix all (ts : list BuilderTask) : Prop := match ts with [] => True | t :: ts => well_formed t ∧ all ts end in
  match t with
  | BSequential _ _ => True
  | BFork bs _ _ => Forall (λ chain : TaskChain, chain ≠ []) bs
  | BDelay _ d => is_Some (from_secs_f64 d)
  | BAwaitSignal _ _ t => opt_all (λ d, is_Some (from_secs_f64 d)) t
  | BBranch _ bs d => Forall (λ kc : string * TaskChain, kc.2 ≠ []) bs ∧ opt_all (λ chain : TaskChain, chain ≠ []) d
  | BLoop _ _ _ max _ => max ≠ 0
  | BChildWorkflow _ ts => ts ≠ [] ∧ all ts
  end.

(** The names of the nodes a task adds to the main chain. *)
Definition task_names (t : BuilderTask) : list string :=
  match t with
  | BSequential id _ | BDelay id _ | BAwaitSignal id _ _ | BBranch id _ _ | BLoop id _ _ _ _ | BChildWorkflow id _ => [id]
  | BFork bs j _ => [derive_fork_id (omap (λ chain : TaskChain, fst <$> head chain) bs); j]
  end.

(** How building stops, for a condition and what a success satisfies. *)
Definition stops {A} (good : Prop) (P : A → Prop) (r : result Stop A) : Prop :=
  match r with
  | Ok a => good ∧ P a
  | Err Panicked | Err (Failed (EmptyWorkflow | EmptyBranch | InvalidMaxIterations _)) => ¬ good
  | Err (Failed _) => False
  end.

Lemma stop_bind {A B} (g h : Prop) (P : A → Prop) (Q : B → Prop) r (k : A → result Stop B) :
  stops g P r → (∀ a, P a → stops h Q (k a)) → stops (g ∧ h) Q (r ≫= k).
Proof.
  intros Hr Hk. destruct r as [a|[[]|]]; cbn in *; try tauto. destruct Hr as [Hg Ha]. specialize (Hk a Ha).
  destruct (k a) as [b|[[]|]]; cbn in *; tauto.
Qed.
Lemma stop_good {A} (g g' : Prop) (P : A → Prop) r : (g ↔ g') → stops g P r → stops g' P r.
Proof. intros Hg. destruct r as [a|[[]|]]; cbn; rewrite ?Hg; tauto. Qed.

Lemma build_chain_outcome (chain : TaskChain) : stops (chain ≠ []) (λ _, True) (build_chain chain).
Proof. destruct chain as [|[id m] chain]; cbn; [auto|done]. Qed.
Lemma duration_outcome d : stops (is_Some (from_secs_f64 d)) (λ _, True) (duration_or_panic d).
Proof. unfold duration_or_panic. destruct (from_secs_f64 d); cbn; [by eauto|by intros [? ?]]. Qed.
Lemma transpose_outcome {A B} (g : A → Prop) (f : A → result Stop B) (o : option A) :
  (∀ a, stops (g a) (λ _, True) (f a)) → stops (opt_all g o) (λ _, True) (transpose (f <$> o)).
Proof.
  intros Hf. destruct o as [a|]; cbn; [|done]. specialize (Hf a). destruct (f a) as [b|[[]|]]; cbn in *; auto.
Qed.
Lemma collect_outcome {A B} (g : A → Prop) (f : A → result Stop B) (l : list A) :
  (∀ a, stops (g a) (λ _, True) (f a)) → stops (Forall g l) (λ _, True) (result_collect (f <$> l)).
Proof.
  intros Hf. induction l as [|a l IH]; cbn; [by split|].
  eapply stop_good; [symmetry; apply Forall_cons|].
  eapply stop_bind; [apply Hf|]. intros b _. cbn. eapply (stop_good (Forall g l ∧ True)); [tauto|].
  eapply stop_bind; [exact IH|]. by intros.
Qed.

Lemma well_formed_child id ts : well_formed (BChildWorkflow id ts) ↔ ts ≠ [] ∧ Forall well_formed ts.
Proof.
  cbn. f_equiv. induction ts as [|t ts IH]; [by rewrite Forall_nil|]. by rewrite Forall_cons, IH.
Qed.

Definition chain_names (o : option Cont) : list string := match o with Some c => cont_id <$> chain c | None => [] end.
Definition task_outcome (t : BuilderTask) : Prop := ∀ current,
  stops (well_formed t) (λ c, cont_id <$> chain c = task_names t ++ chain_names current) (build_task t current).

Lemma build_tasks_outcome ts current :
  Forall task_outcome ts →
  stops (Forall well_formed ts) (λ o, chain_names o = flat_map task_names ts ++ chain_names current)
    (build_tasks ts current).
Proof.
  induction 1 as [|t ts Ht _ IH]; cbn; [by split|].
  eapply (stop_good (Forall well_formed ts ∧ well_formed t)); [rewrite Forall_cons; tauto|].
  eapply stop_bind; [exact IH|]. intros o Ho. cbn in Ho. specialize (Ht o).
  destruct (build_task t o) as [c|[[]|]]; cbn in *; try tauto. by rewrite <-app_assoc, <-Ho.
Qed.

Lemma build_continuation_outcome ts :
  Forall task_outcome ts →
  stops (ts ≠ [] ∧ Forall well_formed ts) (λ c, cont_id <$> chain c = flat_map task_names ts) (build_continuation ts).
Proof.
  intros Hts%(λ H, build_tasks_outcome ts None H). unfold build_continuation.
  destruct ts as [|t ts]; [cbn; tauto|]. rewrite app_nil_r in Hts.
  eapply (stop_good (Forall well_formed (t :: ts) ∧ True)); [naive_solver|].
  cbn [build_tasks] in *. destruct (build_tasks ts None) as [o|[[]|]]; cbn in *; try tauto.
  destruct (build_task t o) as [c|[[]|]]; cbn in *; tauto.
Qed.

Lemma build_task_outcome t : task_outcome t.
Proof.
  induction t as [id m|bs j m|id d|id nm tm|id bs d|id b m mx o|id ts Hts] using builder_task_ind; intros current.
  - by destruct current.
  - eapply (stop_good (Forall (λ chain : TaskChain, chain ≠ []) bs ∧ True)); [cbn; tauto|].
    eapply stop_bind; [apply collect_outcome, build_chain_outcome|]. intros l _. by destruct current.
  - eapply (stop_good (is_Some (from_secs_f64 d) ∧ True)); [cbn; tauto|].
    eapply stop_bind; [apply duration_outcome|]. intros l _. by destruct current.
  - eapply (stop_good (opt_all (λ d, is_Some (from_secs_f64 d)) tm ∧ True)); [cbn; tauto|].
    eapply stop_bind; [apply transpose_outcome, duration_outcome|]. intros l _. by destruct current.
  - eapply (stop_good (Forall (λ kc : string * TaskChain, kc.2 ≠ []) bs ∧ opt_all (λ chain : TaskChain, chain ≠ []) d ∧ True));
      [cbn; tauto|].
    eapply stop_bind; [apply collect_outcome|intros l _].
    { intros [k chain]. cbn. eapply (stop_good (chain ≠ [] ∧ True)); [tauto|].
      pose proof (build_chain_outcome chain) as Hc. by destruct (build_chain chain) as [|[[]|]]; cbn in *; tauto. }
    eapply stop_bind; [apply transpose_outcome, build_chain_outcome|]. intros l' _. by destruct current.
  - cbn. case_bool_decide; cbn; [tauto|]. by destruct current.
  - rewrite build_child. eapply (stop_good ((ts ≠ [] ∧ Forall well_formed ts) ∧ True));
      [rewrite well_formed_child; tauto|].
    eapply stop_bind; [by apply build_continuation_outcome|]. intros c _. by destruct current.
Qed.
End BuildLemmas.

(** ** The same workflow from both builders *)

(** A tail given to the last task is a tail appended to the chain. *)
Lemma build_task_append `{HashOrder} t o n :
  build_task t (Some (append o n)) = append_to_chain n <$> build_task t o.
Proof.
  destruct t as [id m|bs j m|id d|id nm tm|id bs d|id b m mx on|id ts]; rewrite ?build_child; cbn [build_task].
  - by destruct o.
  - destruct (result_collect _); cbn; [|done]. by destruct o.
  - destruct (duration_or_panic d); cbn; [|done]. by destruct o.
  - destruct (transpose _); cbn; [|done]. by destruct o.
  - destruct (result_collect _); cbn; [|done]. destruct (transpose _); cbn; [|done]. by destruct o.
  - case_bool_decide; [done|]. by destruct o.
  - destruct (build_continuation ts); cbn; [|done]. by destruct o.
Qed.

Lemma build_tasks_tail `{HashOrder} ts n :
  build_tasks ts (Some n) = (λ o, Some (append o n)) <$> build_tasks ts None.
Proof.
  induction ts as [|t ts IH]; [done|]. cbn. rewrite IH. destruct (build_tasks ts None) as [o|]; [|done]. cbn.
  rewrite build_task_append. by destruct (build_task t o).
Qed.

(** Appending, on serialized trees. *)
Fixpoint sappend (n s : SerializableContinuation) : SerializableContinuation :=
  let opt (o : option SerializableContinuation) := match o with Some c => Some (sappend n c) | None => Some n end in
  match s with
  | STask id t r v p tg next => STask id t r v p tg (opt next)
  | SFork id bs join => SFork id bs (opt join)
  | SDelay id d next => SDelay id d (opt next)
  | SAwaitSignal id s t next => SAwaitSignal id s t (opt next)
  | SBranch id bs d next => SBranch id bs d (opt next)
  | SLoop id b m o next => SLoop id b m o (opt next)
  | SChildWorkflow id c next => SChildWorkflow id c (opt next)
  end.
Lemma to_serializable_append {F} (n c : WorkflowContinuation F) :
  to_serializable (append_to_chain n c) = sappend (to_serializable n) (to_serializable c).
Proof.
  induction c as [??????? o Hn|? bs o Hbs Hn|?? o Hn|??? o Hn|?? bs d o Hbs Hd Hn
    |? b ?? o Hb Hn|? b o Hb Hn] using continuation_ind; cbn; f_equal; destruct o; cbn in *; by rewrite ?Hn.
Qed.
Lemma append_serializable_ext (o o' : option Cont) n n' :
  to_serializable <$> o = to_serializable <$> o' → to_serializable n = to_serializable n' →
  to_serializable (append o n) = to_serializable (append o' n').
Proof.
  intros Ho Hn. destruct o, o'; cbn in *; simplify_eq/=; [|done]. rewrite !to_serializable_append. by f_equal.
Qed.

Section Mirror.
Context `{Sha256, HashOrder} `{TypeName NamedBranchResults, DecodeValue NamedBranchResults}.
(** The [f64] seconds a binding gives for a duration. *)
Context (secs : Duration → f64).

(** A typed pipeline, written with the bindings' builder. *)
Fixpoint mirror {A B} (p : Pipeline A B) (fb : FlowBuilder) : result BuildError FlowBuilder :=
  match p with
  | PEnd _ => Ok fb
  | PThen id _ rest => mirror rest (add_sequential id TaskMetadata_default fb)
  | PTask id m _ rest => mirror rest (add_sequential id m fb)
  | PLoop id _ max on_max rest => r ← add_loop id TaskMetadata_default max on_max fb; mirror rest r.2
  | PDelay id d rest => fb ← add_delay id (secs d) fb; mirror rest fb
  | PFork bs id _ rest =>
      fb ← add_fork ((λ b, [(ts_id b, TaskMetadata_default)]) <$> bs) id TaskMetadata_default fb; mirror rest fb
  end.

(** The bindings can write it: delays that are a number of seconds, forks with branches. *)
Fixpoint expressible {A B} (p : Pipeline A B) : Prop :=
  match p with
  | PEnd _ => True
  | PThen _ _ rest | PTask _ _ _ rest | PLoop _ _ _ _ rest => expressible rest
  | PDelay _ d rest => from_secs_f64 (secs d) = Some d ∧ expressible rest
  | PFork bs _ _ rest => bs ≠ [] ∧ expressible rest
  end.

Context {R : Type} `{RegistryBehavior R}.

Definition matches (b : WorkflowBuilder R) (fb : FlowBuilder) : Prop :=
  fb_loop_counter fb = loop_counter b ∧
  ∃ o, build_tasks (tasks fb) None = Ok o ∧ to_serializable <$> o = to_serializable <$> continuation b.

Lemma matches_push b fb b' fb' t n node :
  matches b fb → tasks fb' = tasks fb ++ [t] → build_task t None = Ok n →
  continuation b' = Some (append (continuation b) node) → to_serializable n = to_serializable node →
  fb_loop_counter fb' = loop_counter b' → matches b' fb'.
Proof.
  intros (_ & o & Ho & Hs) Ht Hn Hc Hser Hl. split; [done|]. rewrite Ht, build_tasks_app. cbn [build_tasks]. cbn.
  rewrite Hn. cbn. rewrite build_tasks_tail, Ho. eexists. split; [done|]. cbn. rewrite Hc. cbn. f_equal.
  by apply append_serializable_ext.
Qed.

Lemma valid_secs d x : from_secs_f64 x = Some d → invalid_secs x = false.
Proof. by destruct x as [|[]| |[]]. Qed.

Lemma loop_errors {A : Coded} id (body : A → result BoxError (LoopResult A)) max on_max (b : WorkflowBuilder R) :
  errors (loop_task_with_policy id (pure_task body) max on_max b) =
    errors b ++ (if bool_decide (max = 0) then [InvalidMaxIterations id] else []) ∧
  loop_counter (loop_task_with_policy id (pure_task body) max on_max b) = S (loop_counter b).
Proof. unfold loop_task_with_policy, check_iterations. case_bool_decide; cbn; [done|]. by rewrite app_nil_r. Qed.

Lemma fork_same {A B : Coded} (bs : list (TypedStep A)) id (join : BranchOutputs → result BoxError B) (b : WorkflowBuilder R) :
  errors (assemble_fork bs id join b) = errors b ∧ loop_counter (assemble_fork bs id join b) = loop_counter b ∧
  continuation (assemble_fork bs id join b) = Some (append (continuation b) (Fork (derive_fork_id (ts_id <$> bs))
    (branch_cont <$> bs) (Some (plain_node id (to_heterogeneous_join_task_arc id (pure_task join)))))).
Proof.
  unfold assemble_fork, fork_join, fork_node. cbn.
  assert (Hf : ∀ fb : ForkBuilder R, let fb' := foldl add_typed_branch fb bs in
    errors (fork_parent fb') = errors (fork_parent fb) ∧ loop_counter (fork_parent fb') = loop_counter (fork_parent fb) ∧
    eb_id <$> fork_branches fb' = (eb_id <$> fork_branches fb) ++ (ts_id <$> bs)).
  { clear. induction bs as [|x bs IH]; intros fb; cbn; [by rewrite app_nil_r|].
    destruct (IH (add_typed_branch fb x)) as (-> & -> & ->). cbn. by rewrite fmap_app, <-app_assoc. }
  destruct (Hf (fork b)) as (-> & -> & ->). destruct (assemble_fork_branches bs (fork b)) as [-> ->]. done.
Qed.

(** Errors stay. *)
Lemma assemble_errors {A B} (p : Pipeline A B) : ∀ b : WorkflowBuilder R, errors (assemble p b) = [] → errors b = [].
Proof.
  induction p as [A|A B C id f rest IH|A B C id m f rest IH|A C id body max on_max rest IH|A C id d rest IH
    |A B C bs id join rest IH]; intros b He; cbn [assemble] in He; [done|..]; apply IH in He.
  1,2,4: exact He.
  - rewrite (proj1 (loop_errors _ _ _ _ _)) in He. by apply app_nil in He as [? _].
  - by rewrite (proj1 (fork_same _ _ _ _)) in He.
Qed.

Lemma single_chains {A : Coded} (bs : list (TypedStep A)) :
  result_collect (build_chain <$> ((λ b, [(ts_id b, TaskMetadata_default)]) <$> bs)) =
    Ok ((λ b, chain_node (ts_id b) TaskMetadata_default None) <$> bs) ∧
  omap (λ chain : TaskChain, fst <$> head chain) ((λ b, [(ts_id b, TaskMetadata_default)]) <$> bs) = ts_id <$> bs ∧
  existsb (λ branch : TaskChain, bool_decide (branch = [])) ((λ b, [(ts_id b, TaskMetadata_default)]) <$> bs) = false.
Proof. induction bs as [|b bs (IH & IH' & IH'')]; [done|]. cbn in *. by rewrite IH, IH', IH''. Qed.

Lemma mirror_matches {A B} (p : Pipeline A B) : ∀ (b : WorkflowBuilder R) (fb : FlowBuilder),
  expressible p → errors (assemble p b) = [] → matches b fb →
  ∃ fb', mirror p fb = Ok fb' ∧ matches (assemble p b) fb'.
Proof.
  induction p as [A|A B C id f rest IH|A B C id m f rest IH|A C id body max on_max rest IH|A C id d rest IH
    |A B C bs id join rest IH]; intros b fb Hx He Hm; cbn [assemble mirror expressible] in *.
  - eauto.
  - eapply (IH (then_ id (pure_task f) b)); [done|done|]. eapply matches_push; try done. apply Hm.
  - eapply (IH (then_task_with (MkRegisterableTask id m (pure_task f)) b)); [done|done|].
    eapply matches_push; try done. apply Hm.
  - destruct (loop_errors id body max on_max b) as [Hle Hlc].
    pose proof (assemble_errors _ _ He) as Hl. rewrite Hle in Hl. apply app_nil in Hl as [_ Hmax].
    case_bool_decide as Hz; [done|]. unfold add_loop. rewrite bool_decide_false by done. apply IH; [done|done|].
    eapply matches_push; [exact Hm|reflexivity|cbn; rewrite bool_decide_false by done; reflexivity|apply loop_continuation| |].
    + cbn. by rewrite (proj1 Hm).
    + rewrite Hlc. cbn. by rewrite (proj1 Hm).
  - destruct Hx as [Hd Hx]. unfold add_delay, validate_duration. rewrite (valid_secs _ _ Hd). apply IH; [done|done|].
    eapply matches_push; [exact Hm|reflexivity|cbn; unfold duration_or_panic; rewrite Hd; reflexivity|reflexivity|done|apply Hm].
  - destruct Hx as [Hne Hx]. destruct (fork_same bs id join b) as (Hfe & Hfl & Hfc).
    destruct (single_chains bs) as (Hch & Hids & Hex). unfold add_fork. rewrite Hex, bool_decide_false by by destruct bs.
    apply IH; [done|done|].
    eapply matches_push; [exact Hm|reflexivity|cbn [build_task]; rewrite Hch, Hids; reflexivity|exact Hfc| |].
    + cbn. f_equal. clear. by induction bs as [|b bs IH]; cbn; f_equal.
    + rewrite Hfl. apply Hm.
Qed.
End Mirror.

(** ** Properties *)

(** The outcome of building from the bindings, for every list of tasks: it succeeds
    exactly when the list and every child's list are non-empty, every chain of a
    fork and of a branch (the default included) is non-empty, every loop may run
    and every number of seconds is a representable duration; the main chain then
    has the tasks' nodes in order.  Otherwise it reports an empty workflow, an empty
    branch or a loop without iterations, or [from_secs_f64] panics: no other error. *)
Theorem flow_build_outcome `{HashOrder} (fb : FlowBuilder) :
  let good := tasks fb ≠ [] ∧ Forall well_formed (tasks fb) in
  match flow_build fb with
  | Ok c => good ∧ cont_id <$> chain c = flat_map task_names (tasks fb)
  | Err Panicked | Err (Failed (EmptyWorkflow | EmptyBranch | InvalidMaxIterations _)) => ¬ good
  | Err (Failed _) => False
  end.
Proof. exact (build_continuation_outcome _ (proj2 (Forall_forall _ _) (λ t _, build_task_outcome t))). Qed.

(** Both builders make the same workflow: a typed pipeline built in Rust and the
    same steps added by a binding give trees with the same serialized form, so the
    same definition hash, and either side resumes what the other has started. *)
Theorem flow_matches_typed `{Sha256, HashOrder, FloatOps} `{TypeName NamedBranchResults, DecodeValue NamedBranchResults}
    {A B : Coded} (secs : Duration → f64) (p : Pipeline A B) (ctx : WorkflowContext) (w : Worker.Workflow UntypedCoreTask) :
  expressible secs p → build (assemble p (builder_new ctx)) = Some (Ok w) →
  ∃ fb c, mirror secs p flow_new = Ok fb ∧ flow_build fb = Ok c ∧
    to_serializable c = to_serializable (workflow_continuation w) ∧
    compute_definition_hash (to_serializable c) = workflow_definition_hash w.
Proof.
  intros Hx Hb. unfold build in Hb. destruct (continuation _) as [c'|] eqn:Hc; [|done]. cbn in Hb.
  destruct (checked _ c') as [c''|] eqn:Hk; [|done]. apply checked_Ok in Hk as (-> & He & _). injection Hb as <-.
  destruct (mirror_matches secs p (builder_new ctx) flow_new Hx He) as (fb & Hm & _ & o & Ho & Hs).
  { split; [done|]. by exists None. }
  rewrite Hc in Hs. destruct o as [c|]; [|done]. injection Hs as Hs. exists fb, c. split; [done|].
  unfold flow_build, build_continuation. rewrite Ho. cbn. by rewrite Hs.
Qed.

(** ** Witness *)

Module FlowExample.
Import Toy Examples TypedExample.
#[local] Existing Instances TypedExample.order TypedExample.string_name TypedExample.string_encode TypedExample.string_decode TypedExample.results_name TypedExample.results_decode.

(** Ten seconds, as a delay of the party. *)
Definition late_party : Pipeline text text := PDelay "wait" (10 * ns_per_sec) party.
Definition secs (d : Duration) : f64 := f64_of_Z (Z.div d ns_per_sec).

Lemma flow_matches_typed_witness :
  ∃ w fb c, build (assemble late_party (builder_new (context_new "party"))) = Some (Ok w) ∧
    mirror secs late_party flow_new = Ok fb ∧ flow_build fb = Ok c ∧
    to_serializable c = to_serializable (workflow_continuation w).
Proof.
  eexists. edestruct (flow_matches_typed secs late_party (context_new "party")) as (fb & c & Hm & Hb & Hs & _).
  - cbn. split; [vm_compute; reflexivity|done].
  - apply build_ok; [reflexivity|reflexivity|vm_compute; reflexivity].
  - exists fb, c. split; [apply build_ok; [reflexivity|reflexivity|vm_compute; reflexivity]|done].
Defined.

(** The check of durations lets through seconds that do not fit [u64]. *)
Lemma long_delay_panics :
  ∃ fb, add_delay "wait" (f64_of_Z (2 ^ 64)) flow_new = Ok fb ∧ flow_build fb = Err Panicked.
Proof. eexists. split; [reflexivity|]. vm_compute. reflexivity. Qed.

(** A routed branch is the first of its workflow under both builders, by different names. *)
Lemma first_branch_names {K} `{BranchKey K} (key_fn : CoreTask string K) ctx :
  fst <$> add_branch [("small", [("keep", TaskMetadata_default)])] None flow_new = Ok "branch_0" ∧
  route_branch_id (route key_fn (builder_new ctx)) = "branch_1".
Proof. split; vm_compute; reflexivity. Qed.
End FlowExample.
