(* ===== verification/Cloudflare.v ===== *)
(** * The engine of the Cloudflare binding ([sayiir-cloudflare/src/durable.rs], [lifecycle.rs], [codec.rs])

    [WasmDurableEngine] has an executor of its own: tasks are JavaScript functions
    looked up by name, everything runs on one snapshot, a run stops at a park point
    and is resumed by a later request.  The backend is any [PersistentBackend] (the
    source instantiates it with D1).

    The JavaScript engine is a parameter: values, [JSON.parse] and [JSON.stringify]
    with the binding's hooks for binary values, [Reflect], calls and promises. *)

From S2P Require Import Prelude Hash32 SnapshotFormat Task Workflow Serializable Snapshot Backend InMemory Runtime Lifecycle SyncExec Checkpoint Durability.

(** ** JavaScript *)

Class JsEngine : Type := {
  JsValue : Type;
  JsFunction : Type;
  js_str : string → JsValue;                              (* [JsValue::from_str] *)
  js_as_string : JsValue → option string;
  js_debug : JsValue → string;                            (* [{e:?}] *)
  new_object : JsValue;
  reflect_get : JsValue → string → result JsValue JsValue;
  reflect_has : JsValue → string → result JsValue bool;
  reflect_set : JsValue → string → JsValue → result JsValue JsValue;
  dyn_into_function : JsValue → option JsFunction;
  is_object : JsValue → bool;
  is_array : JsValue → bool;
  is_function : JsValue → bool;
  is_array_buffer : JsValue → bool;                       (* [is_instance_of] *)
  is_uint8_array : JsValue → bool;
  array_bytes : JsValue → Bytes;                          (* [Uint8Array::new(value).to_vec()] *)
  uint8_array_from : Bytes → JsValue;                     (* a [Uint8Array] with these bytes *)
  array_buffer_from : Bytes → JsValue;                    (* the buffer of such an array *)
  call1 : nat → JsFunction → JsValue → result JsValue JsValue;   (* the [n]-th call *)
  js_await : nat → JsValue → result JsValue JsValue;             (* [JsFuture::from(promise)] *)
  stringify_with_replacer_func : (string → JsValue → result string (option JsValue)) → JsValue → result JsValue string;
  json_parse : string → result JsValue JsValue;
  parse_with_reviver_func : string → (string → JsValue → result string JsValue) → result JsValue JsValue;
  base64_encode : Bytes → string;
  base64_decode : string → result string Bytes
}.

(** ** UTF-8: [core::str::from_utf8]

    The index of the first ill-formed sequence and its length, when it is not the input
    that ends too soon. *)
Module Utf8.
Record Utf8Error : Type := MkUtf8Error { valid_up_to : nat; error_len : option nat }.
Definition in_range (lo hi : Z) (b : byte) : bool := bool_decide (lo ≤ Z.of_N (Byte.to_N b) ≤ hi).
Definition continuation_byte : byte → bool := in_range 128 191.
(** The second byte of a sequence that starts with [first], and how many follow it. *)
Definition second (first : byte) : option ((byte → bool) * nat) :=
  if in_range 194 223 first then Some (continuation_byte, 0%nat)
  else if in_range 224 224 first then Some (in_range 160 191, 1%nat)
  else if in_range 225 236 first then Some (continuation_byte, 1%nat)
  else if in_range 237 237 first then Some (in_range 128 159, 1%nat)
  else if in_range 238 239 first then Some (continuation_byte, 1%nat)
  else if in_range 240 240 first then Some (in_range 144 191, 2%nat)
  else if in_range 241 243 first then Some (continuation_byte, 2%nat)
  else if in_range 244 244 first then Some (in_range 128 143, 2%nat)
  else None.
(** A scan: between characters, or inside one that started at [start] with [seen] bytes
    read, the next byte to satisfy [p] and [more] continuation bytes after it. *)
Inductive Scan : Type := Between | Inside (start seen : nat) (p : byte → bool) (more : nat).
Fixpoint scan (st : Scan) (index : nat) (v : Bytes) : option Utf8Error :=
  match v, st with
  | [], Between => None
  | [], Inside start _ _ _ => Some (MkUtf8Error start None)
  | b :: v, Between =>
      if in_range 0 127 b then scan Between (S index) v
      else match second b with
      | Some (p, more) => scan (Inside index 1 p more) (S index) v
      | None => Some (MkUtf8Error index (Some 1%nat))
      end
  | b :: v, Inside start seen p more =>
      if p b then
        match more with
        | O => scan Between (S index) v
        | S more => scan (Inside start (S seen) continuation_byte more) (S index) v
        end
      else Some (MkUtf8Error start (Some seen))
  end.
Definition from_utf8 (v : Bytes) : result Utf8Error string :=
  match scan Between 0 v with
  | None => Ok (String.string_of_list_byte v)
  | Some e => Err e
  end.
Definition utf8_error_to_string (e : Utf8Error) : string :=
  match error_len e with
  | Some n => "invalid utf-8 sequence of " +:+ u_to_string (Z.of_nat n) +:+ " bytes from index " +:+ u_to_string (Z.of_nat (valid_up_to e))
  | None => "incomplete utf-8 byte sequence from index " +:+ u_to_string (Z.of_nat (valid_up_to e))
  end.
End Utf8.

(** [str::contains]. *)
Fixpoint prefixb (p l : Bytes) : bool :=
  match p, l with
  | [], _ => true
  | x :: p, y :: l => Byte.eqb x y && prefixb p l
  | _, [] => false
  end.
Fixpoint containsb (p l : Bytes) : bool :=
  prefixb p l || match l with [] => false | _ :: l => containsb p l end.

Section Codec.
Context `{JsEngine}.

(** [to_js_error]. *)
Definition to_js_error (msg : string) : JsValue := js_str msg.

(** Binary values travel as tagged envelopes. *)
Definition TAG_BIN : string := "$sayiir_bin".
Definition TAG_KIND : string := "$sayiir_kind".

(** [binary_envelope]. *)
Definition binary_envelope (value : JsValue) : result string (option JsValue) :=
  let wrap kind :=
    env ← map_err (λ _, "Failed to set $sayiir_bin") (reflect_set new_object TAG_BIN (js_str (base64_encode (array_bytes value))));
    env ← map_err (λ _, "Failed to set $sayiir_kind") (reflect_set env TAG_KIND (js_str kind));
    Ok (Some env) in
  if is_array_buffer value then wrap "ArrayBuffer"
  else if is_uint8_array value then wrap "Uint8Array"
  else Ok None.

(** [try_rehydrate_envelope]. *)
Definition try_rehydrate_envelope (value : JsValue) : result string (option JsValue) :=
  if negb (is_object value) || is_array value then Ok None
  else
    bin ← map_err (λ _, "Reflect.get $sayiir_bin") (reflect_get value TAG_BIN);
    kind ← map_err (λ _, "Reflect.get $sayiir_kind") (reflect_get value TAG_KIND);
    match js_as_string bin, js_as_string kind with
    | Some encoded, Some kind_str =>
        bytes ← map_err (λ e, "Invalid base64 in $sayiir_bin: " +:+ e) (base64_decode encoded);
        if bool_decide (u32_max < Z.of_nat (length bytes)) then Err "binary envelope exceeds u32::MAX bytes"
        else if bool_decide (kind_str = "ArrayBuffer") then Ok (Some (array_buffer_from bytes))
        else if bool_decide (kind_str = "Uint8Array") then Ok (Some (uint8_array_from bytes))
        else Ok None
    | _, _ => Ok None
    end.

(** [binary_replacer] and [binary_reviver], the hooks of [JSON]. *)
Definition binary_replacer (_key : string) (value : JsValue) : result string (option JsValue) :=
  envelope ← binary_envelope value;
  Ok (Some (default value envelope)).
Definition binary_reviver (_key : string) (value : JsValue) : result string JsValue :=
  bin ← try_rehydrate_envelope value;
  Ok (default value bin).

(** [encode_js_value] and [decode_to_js_value]. *)
Definition encode_js_value (value : JsValue) : result JsValue Bytes :=
  s ← map_err (λ _, to_js_error "Failed to stringify JS value") (stringify_with_replacer_func binary_replacer value);
  Ok (as_bytes s).
Definition quoted_tag : Bytes := [x22] ++ as_bytes TAG_BIN ++ [x22].
Definition decode_to_js_value (bytes : Bytes) : result JsValue JsValue :=
  json_str ← map_err (λ e, to_js_error ("Invalid UTF-8 in bytes: " +:+ Utf8.utf8_error_to_string e)) (Utf8.from_utf8 bytes);
  let invalid (_ : JsValue) := to_js_error ("Invalid JSON: " +:+ json_str) in
  if negb (containsb quoted_tag bytes) then map_err invalid (json_parse json_str)
  else map_err invalid (parse_with_reviver_func json_str binary_reviver).

(** [decode_json_string]. *)
Definition decode_json_string (bytes : Bytes) : result JsValue string :=
  js_val ← decode_to_js_value bytes;
  ok_or (js_as_string js_val) (to_js_error "Expected JSON string value").

(** [encode_branch_envelope] and [encode_named_results] of the binding. *)
Definition js_branch_envelope (key : string) (result_bytes : Bytes) : result JsValue Bytes :=
  obj ← reflect_set new_object "branch" (js_str key);
  result_val ← decode_to_js_value result_bytes;
  obj ← reflect_set obj "result" result_val;
  encode_js_value obj.
Fixpoint set_results (obj : JsValue) (results : list (string * Bytes)) : result JsValue JsValue :=
  match results with
  | [] => Ok obj
  | (name, bytes) :: results =>
      val ← decode_to_js_value bytes;
      obj ← reflect_set obj name val;
      set_results obj results
  end.
Definition js_named_results (results : list (string * Bytes)) : result JsValue Bytes :=
  obj ← set_results new_object results;
  encode_js_value obj.

(** [decode_loop_result]. *)
Definition decode_loop_result (bytes : Bytes) : result JsValue (string * Bytes) :=
  js_val ← decode_to_js_value bytes;
  tag_val ← reflect_get js_val "_loop";
  tag ← ok_or (js_as_string tag_val) (to_js_error "Missing or invalid '_loop' tag in LoopResult");
  value ← reflect_get js_val "value";
  value_bytes ← encode_js_value value;
  Ok (tag, value_bytes).

(** [is_thenable]. *)
Definition is_thenable (value : JsValue) : bool :=
  is_object value &&
  match reflect_get value "then" with Ok then_ => is_function then_ | Err _ => false end.

(** The message of a thrown value. *)
Definition thrown_message (e : JsValue) : string :=
  match js_as_string e with
  | Some msg => msg
  | None => default (js_debug e) (ok (reflect_get e "message") ≫= js_as_string)
  end.

(** [call_js_task]. *)
Definition call_js_task (registry : JsValue) (n : nat) (task_name : string) (input : Bytes) :
    result WF.WorkflowError Bytes :=
  let panicked e := WF.TaskPanicked ("Task '" +:+ task_name +:+ "': " +:+ thrown_message e) in
  val ← map_err (λ _, WF.TaskNotFound task_name) (reflect_get registry task_name);
  func ← ok_or (dyn_into_function val) (WF.TaskNotFound ("'" +:+ task_name +:+ "' is not a function"));
  input_js ← map_err (λ e, WF.ResumeError ("Failed to decode task input: " +:+ js_debug e)) (decode_to_js_value input);
  result ← map_err panicked (call1 n func input_js);
  resolved ← (if is_thenable result then map_err panicked (js_await n result) else Ok result);
  map_err (λ e, WF.ResumeError ("Failed to encode task output: " +:+ js_debug e)) (encode_js_value resolved).
End Codec.

(** ** The executor ([durable.rs]) *)

Section Executor.
Context `{JsEngine, Sha256, Chrono, Display}.
Context {B F : Type} `{PersistentBackend B, Environment B}.
(** The object that maps task ids to functions. *)
Context (task_registry : JsValue).
Abbreviation Exec := (io (@ExecState B) Fault).

Definition wf_fail {A} (e : WF.WorkflowError) : Exec A := fail (RWorkflow e).
Definition resume_error (e : BackendError) : RuntimeError := RWorkflow (WF.ResumeError (backend_error_to_string e)).
Definition js_resume_error (e : JsValue) : RuntimeError := RWorkflow (WF.ResumeError (js_debug e)).

(** A backend call of the executor, its error a [ResumeError]. *)
Definition wasm_call {A} (op : DateTime → io B BackendError A) : Exec A := run (io_map_err resume_error (call op)).

(** [Executor::checkpoint]. *)
Definition checkpoint : Exec unit :=
  s ← snap;
  s ← wasm_call (λ _, save_snapshot s);
  modify (λ _, s).

(** [check_guards]. *)
Definition wasm_guards (scope : option TaskId) : Exec unit :=
  s ← snap;
  cancelled ← wasm_call (λ now, check_and_cancel now (instance_id s) scope);
  if (cancelled : bool) then wf_fail WF.cancelled
  else
    paused ← wasm_call (λ now, check_and_pause now (instance_id s));
    if (paused : bool) then wf_fail WF.paused else mret ().

(** One call of a JavaScript function. *)
Definition js_task (id : string) (input : Bytes) : Exec Bytes := λ st,
  (map_err (λ e, Rt (RWorkflow e)) (call_js_task task_registry (steps st.2) id input),
   (st.1, MkWorld (store st.2) (S (steps st.2)))).

(** The recorded output of a node, or what computes it. *)
Definition recorded (id : string) (m : Exec Bytes) : Exec Bytes :=
  s ← snap;
  match get_task_result (TaskId_from id) s with
  | Some r => mret (tr_output r)
  | None => m
  end.

(** [mark_task_completed], then [checkpoint]. *)
Definition record (id : string) (output : Bytes) : Exec Bytes :=
  modify_now (λ t, mark_task_completed t (TaskId_from id) output) ≫= λ _,
  checkpoint ≫= λ _,
  mret output.

Definition position_at_next (next : option (WorkflowContinuation F)) : Exec unit :=
  match next with
  | Some n => modify_now (λ t, update_position t (AtTask (TaskId_from (first_task_id n))))
  | None => mret ()
  end.

(** [Utc::now() + Duration::from_std(d).unwrap_or(zero)]. *)
Definition delay_wake (d : Duration) : Exec DateTime :=
  t ← now; add_or_panic t (default 0 (duration_from_std d)).

(** [handle_task]. *)
Definition handle_task (id : string) (next : option (WorkflowContinuation F)) (input : Bytes) : Exec Bytes :=
  wasm_guards (Some (TaskId_from id)) ≫= λ _,
  recorded id
    (result ← js_task id input;
     modify_now (λ t, mark_task_completed t (TaskId_from id) result) ≫= λ _,
     position_at_next next ≫= λ _,
     checkpoint ≫= λ _,
     wasm_guards None ≫= λ _,
     mret result).

(** [handle_delay]: a recorded delay passes its input on; otherwise the run parks. *)
Definition handle_delay (id : string) (duration : Duration) (next : option (WorkflowContinuation F)) (input : Bytes) :
    Exec Bytes :=
  wasm_guards (Some (TaskId_from id)) ≫= λ _,
  s ← snap;
  match get_task_result (TaskId_from id) s with
  | Some _ => mret input
  | None =>
      wake_at ← delay_wake duration;
      entered_at ← now;
      modify_now (λ t, update_position t
        (AtDelay (TaskId_from id) entered_at wake_at (TaskId_from ∘ first_task_id <$> next))) ≫= λ _,
      modify_now (λ t, mark_task_completed t (TaskId_from id) input) ≫= λ _,
      checkpoint ≫= λ _,
      wf_fail (WF.Waiting wake_at)
  end.

(** [handle_await_signal]. *)
Definition handle_await_signal (id signal_name : string) (timeout : option Duration)
    (next : option (WorkflowContinuation F)) : Exec Bytes :=
  wasm_guards (Some (TaskId_from id)) ≫= λ _,
  recorded id
    (s ← snap;
     payload ← wasm_call (λ _, consume_event (instance_id s) signal_name);
     match payload with
     | Some payload =>
         modify_now (λ t, mark_task_completed t (TaskId_from id) payload) ≫= λ _,
         position_at_next next ≫= λ _,
         checkpoint ≫= λ _,
         mret payload
     | None =>
         wake_at ← (match timeout with Some d => Some <$> delay_wake d | None => mret None end);
         modify_now (λ t, update_position t
           (AtSignal (TaskId_from id) signal_name wake_at (TaskId_from ∘ first_task_id <$> next))) ≫= λ _,
         checkpoint ≫= λ _,
         wf_fail (WF.AwaitingSignal (TaskId_from id) signal_name wake_at)
     end).

(** The loop of [handle_fork] over the branches: results so far, and the latest wake time of
    a branch that waits. *)
Section Branches.
Context (run_branch : WorkflowContinuation F → Exec Bytes).
Definition later_wake (max_wake_at : option DateTime) (wake_at : DateTime) : option DateTime :=
  Some (match max_wake_at with Some existing => Z.max existing wake_at | None => wake_at end).
Fixpoint wasm_branches (branches : list (WorkflowContinuation F)) (results : list (string * Bytes))
    (max_wake_at : option DateTime) : Exec (list (string * Bytes) * option DateTime) :=
  match branches with
  | [] => mret (results, max_wake_at)
  | branch :: branches =>
      s ← snap;
      match get_task_result (TaskId_from (cont_id branch)) s with
      | Some cached => wasm_branches branches (results ++ [(cont_id branch, tr_output cached)]) max_wake_at
      | None =>
          r ← try_io (run_branch branch);
          match r with
          | Ok output =>
              record (cont_id branch) output ≫= λ _,
              wasm_branches branches (results ++ [(cont_id branch, output)]) max_wake_at
          | Err (Rt (RWorkflow (WF.Waiting wake_at))) => wasm_branches branches results (later_wake max_wake_at wake_at)
          | Err e => throw e
          end
      end
  end.
End Branches.

(** [park_at_fork]. *)
Definition wasm_park_at_fork (fork_id : string) (branch_results : list (string * Bytes)) (wake_at : DateTime) : Exec unit :=
  modify_now (λ t, update_position t (AtFork (TaskId_from fork_id) (build_completed_branches branch_results) wake_at)) ≫= λ _,
  checkpoint.

(** [handle_fork]. *)
Definition handle_fork (fork_id : string) (run_all : Exec (list (string * Bytes) * option DateTime)) : Exec Bytes :=
  wasm_guards None ≫= λ _,
  rw ← run_all;
  let '(branch_results, max_wake_at) := rw in
  match max_wake_at with
  | Some wake_at => wasm_park_at_fork fork_id branch_results wake_at ≫= λ _, wf_fail (WF.Waiting wake_at)
  | None => lift (map_err js_resume_error (js_named_results branch_results))
  end.

(** [handle_branch]: route, run the chosen branch, wrap, record. *)
Definition handle_branch (id : string) (branches : list (string * WorkflowContinuation F))
    (dflt : option (WorkflowContinuation F)) (run_branch : WorkflowContinuation F → Exec Bytes) (input : Bytes) : Exec Bytes :=
  wasm_guards (Some (TaskId_from id)) ≫= λ _,
  recorded id
    (key_bytes ← js_task (key_fn_id id) input;
     key ← lift (map_err (λ e, RWorkflow (WF.ResumeError ("Failed to decode branch key: " +:+ js_debug e)))
       (decode_json_string key_bytes));
     chosen ← lift (ok_or (match get_branch run_branch key branches with
                           | Some m => Some m
                           | None => run_branch <$> dflt
                           end) (RWorkflow (WF.BranchKeyNotFound id key)));
     branch_output ← chosen;
     envelope_bytes ← lift (map_err js_resume_error (js_branch_envelope key branch_output));
     record id envelope_bytes).

(** The [for] of [handle_loop] and what follows it. *)
Section Loop.
Context (id : string) (body : WorkflowContinuation F) (max_iterations : Z) (on_max : MaxIterationsPolicy).
Context (run_body : Bytes → Exec Bytes).
Definition loop_exit (output : Bytes) : Exec Bytes :=
  modify (clear_loop_iteration (TaskId_from id)) ≫= λ _, record id output.
Fixpoint wasm_loop (n : nat) (iteration : Z) (loop_input : Bytes) : Exec Bytes :=
  match n with
  | O =>
      match on_max with
      | Fail => fail (max_iterations_exceeded id max_iterations)
      | ExitWithLast => loop_exit loop_input
      end
  | S n =>
      output ← run_body loop_input;
      remove_results (task_ids (to_serializable body)) ≫= λ _,
      tv ← lift (map_err js_resume_error (decode_loop_result output));
      let '(tag, inner_bytes) := tv in
      if bool_decide (tag = "done") then loop_exit inner_bytes
      else if bool_decide (tag = "again") then
        modify_now (λ t, set_loop_iteration t (TaskId_from id) (iteration + 1)) ≫= λ _,
        modify_now (λ t, update_position t (InLoop (TaskId_from id) (iteration + 1)
          (Some (TaskId_from (first_task_id body))))) ≫= λ _,
        checkpoint ≫= λ _,
        wasm_loop n (iteration + 1) inner_bytes
      else wf_fail (WF.ResumeError ("Unknown LoopResult tag: '" +:+ tag +:+ "'"))
  end.
(** [handle_loop]. *)
Definition handle_loop (input : Bytes) : Exec Bytes :=
  wasm_guards (Some (TaskId_from id)) ≫= λ _,
  recorded id
    (s ← snap;
     let start := loop_iteration (TaskId_from id) s in
     wasm_loop (Z.to_nat (max_iterations - start)) start input).
End Loop.

(** [handle_child_workflow]. *)
Definition handle_child_workflow (id : string) (run_child : Exec Bytes) : Exec Bytes :=
  wasm_guards (Some (TaskId_from id)) ≫= λ _,
  recorded id (output ← run_child; record id output).

(** [Executor::run] and [step]: a node, then the next one ([advance_or_break]). *)
Fixpoint wasm_run (c : WorkflowContinuation F) (input : Bytes) {struct c} : Exec Bytes :=
  match c with
  | Task id _ _ _ _ _ _ next => output ← handle_task id next input; proceed wasm_run next output
  | Delay id duration next => output ← handle_delay id duration next input; proceed wasm_run next output
  | AwaitSignal id signal_name timeout next =>
      output ← handle_await_signal id signal_name timeout next; proceed wasm_run next output
  | Fork id branches join =>
      output ← handle_fork id (wasm_branches (λ b, wasm_run b input) branches [] None);
      proceed wasm_run join output
  | Branch id _ branches dflt next =>
      output ← handle_branch id branches dflt (λ b, wasm_run b input) input;
      proceed wasm_run next output
  | Loop id body max_iterations on_max next =>
      output ← handle_loop id body max_iterations on_max (wasm_run body) input;
      proceed wasm_run next output
  | ChildWorkflow id child next =>
      output ← handle_child_workflow id (wasm_run child input);
      proceed wasm_run next output
  end.
End Executor.

(** ** Lifecycle ([lifecycle.rs]) *)

(** How a request ends without an answer: a thrown value, or a trap of the module. *)
Inductive JsStop `{JsEngine} : Type := Thrown (e : JsValue) | Trapped.

(** [Display] of [RunConflict]. *)
Definition run_conflict_to_string (e : RunConflict) : string :=
  match e with
  | RCInvalidInstanceId e => invalid_instance_id_to_string e
  | RCAlreadyExists id =>
      "Workflow instance '" +:+ id +:+ "' already exists. Use conflict policy 'use_existing' or 'terminate_existing' to override, or resume() instead."
  | RCDefinitionMismatch expected found =>
      "Workflow definition mismatch: expected '" +:+ to_hex (def_hash expected) +:+ "', found '" +:+ to_hex (def_hash found) +:+ "'"
  | RCBackend e => backend_error_to_string e
  end.

Section Requests.
Context `{JsEngine, Sha256, Chrono, Display}.
Context {B F : Type} `{PersistentBackend B, Environment B}.
Abbreviation Req := (io (World B) JsStop).

Definition js_throw {A} (msg : string) : Req A := throw (Thrown (to_js_error msg)).
Definition js_call {A} (op : DateTime → io B BackendError A) : Req A :=
  io_map_err (λ e, Thrown (to_js_error (backend_error_to_string e))) (call op).
Definition js_now : Req DateTime := read_clock.

(** [check_cancel_pause]. *)
Definition check_cancel_pause (id : string) (scope : option TaskId) : Req (option Status.WorkflowStatus) :=
  cancelled ← js_call (λ now, check_and_cancel now id scope);
  if (cancelled : bool) then
    s ← js_call (λ _, load_snapshot id);
    mret (Some (cancelled_status s))
  else
    paused ← js_call (λ now, check_and_pause now id);
    if (paused : bool) then
      s ← js_call (λ _, load_snapshot id);
      mret (Some (paused_status s))
    else mret None.

(** The end of a park that has passed: on to the next task, or to completion. *)
Definition pass_park (next_task_id : option TaskId) (output : WorkflowSnapshot → Bytes) (s : WorkflowSnapshot) :
    Req (option Status.WorkflowStatus * WorkflowSnapshot) :=
  t ← js_now;
  match next_task_id with
  | Some next_id =>
      s ← js_call (λ _, save_snapshot (update_position t (AtTask next_id) s));
      mret (None, s)
  | None =>
      s ← js_call (λ _, save_snapshot (mark_completed t (output s) s));
      mret (Some Status.Completed, s)
  end.

(** [resolve_parked]. *)
Definition resolve_parked (s : WorkflowSnapshot) (id : string) : Req (option Status.WorkflowStatus * WorkflowSnapshot) :=
  match state s with
  | InProgress (AtDelay delay_id _ wake_at next_task_id) _ _ =>
      stopped ← check_cancel_pause id (Some delay_id);
      match stopped with
      | Some status => mret (Some status, s)
      | None =>
          t ← js_now;
          if bool_decide (t < wake_at) then mret (Some (Status.Waiting wake_at delay_id), s)
          else pass_park next_task_id (λ s, default [] (get_task_result_bytes delay_id s)) s
      end
  | InProgress (AtFork fork_id _ wake_at) _ _ =>
      stopped ← check_cancel_pause id (Some fork_id);
      match stopped with
      | Some status => mret (Some status, s)
      | None =>
          t ← js_now;
          if bool_decide (t < wake_at) then mret (Some (Status.Waiting wake_at fork_id), s)
          else
            s ← js_call (λ _, save_snapshot s);
            mret (None, s)
      end
  | InProgress (AtSignal signal_id signal_name wake_at next_task_id) _ _ =>
      stopped ← check_cancel_pause id (Some signal_id);
      match stopped with
      | Some status => mret (Some status, s)
      | None =>
          payload ← js_call (λ _, consume_event id signal_name);
          match payload with
          | Some payload =>
              t ← js_now;
              pass_park next_task_id (λ s, default [] (get_task_result_bytes signal_id s))
                (mark_task_completed t signal_id payload s)
          | None =>
              expired ← (match wake_at with
                         | Some wt => t ← js_now; mret (bool_decide (wt ≤ t))
                         | None => mret false
                         end : Req bool);
              if (expired : bool) then
                t ← js_now;
                pass_park next_task_id (λ _, []) (mark_task_completed t signal_id [] s)
              else mret (Some (Status.AwaitingSignal signal_id signal_name wake_at), s)
          end
      end
  | _ => mret (None, s)
  end.

(** [get_resume_input]. *)
Definition wasm_resume_input (s : WorkflowSnapshot) : result string Bytes :=
  match state s with
  | InProgress _ completed_tasks _ =>
      if bool_decide (completed_tasks = ∅)
      then ok_or (initial_input s) "No completed tasks and initial input not stored"
      else ok_or (get_last_task_output s) "No task results available for resume"
  | _ => Err "Workflow not in progress, cannot resume"
  end.

(** [prepare_resume]. *)
Definition wasm_prepare_resume (id : string) (hash : DefinitionHash) : Req ResumeOutcome :=
  lift_result (map_err (λ e, Thrown (to_js_error (invalid_instance_id_to_string e))) (validate_instance_id id)) ≫= λ _,
  s ← js_call (λ _, load_snapshot id);
  if bool_decide (snapshot_definition_hash s ≠ hash) then
    js_throw ("Definition mismatch: expected '" +:+ to_hex (def_hash hash) +:+ "', found '" +:+
      to_hex (def_hash (snapshot_definition_hash s)) +:+ "'")
  else
    match as_terminal_status (state s) with
    | Some status => mret (if is_paused (state s) then ResumePaused status else AlreadyTerminal status)
    | None =>
        vs ← resolve_parked s id;
        match vs with
        | (Some status, _) => mret (NotReady status)
        | (None, s) =>
            input_bytes ← lift_result (map_err (λ msg, Thrown (to_js_error msg)) (wasm_resume_input s));
            mret (Ready s input_bytes)
        end
    end.

(** [finalize_execution]. *)
Definition wasm_finalize (r : result RuntimeError Bytes) (s : WorkflowSnapshot) :
    Req (Status.WorkflowStatus * option Bytes) :=
  match r with
  | Ok output =>
      t ← js_now;
      js_call (λ _, save_snapshot (mark_completed t output s)) ≫= λ _,
      mret (Status.Completed, Some output)
  | Err (RWorkflow (WF.Waiting wake_at)) =>
      let delay_id :=
        match state s with
        | InProgress (AtDelay delay_id _ _ _) _ _ => delay_id
        | InProgress (AtFork fork_id _ _) _ _ => fork_id
        | _ => TaskId_default
        end in
      mret (Status.Waiting wake_at delay_id, None)
  | Err (RWorkflow (WF.AwaitingSignal signal_id signal_name wake_at)) =>
      mret (Status.AwaitingSignal signal_id signal_name wake_at, None)
  | Err (RWorkflow (WF.Cancelled _ _)) =>
      r ← try_io (call (λ _, load_snapshot (instance_id s)));
      mret (match r with Ok c => cancelled_status c | Err _ => Status.Cancelled None None end, None)
  | Err (RWorkflow (WF.Paused _ _)) =>
      r ← try_io (call (λ _, load_snapshot (instance_id s)));
      mret (match r with Ok p => paused_status p | Err _ => Status.Paused None None end, None)
  | Err e =>
      t ← js_now;
      try_io (call (λ _, save_snapshot (mark_failed t (error_to_string e) s))) ≫= λ _,
      mret (Status.Failed (error_to_string e), None)
  end.

(** ** The engine ([WasmDurableEngine]) *)

Record WasmDurableEngine : Type := MkWasmEngine { wasm_conflict_policy : Conflict.ConflictPolicy }.
(** [create]: the policy's name is parsed, the binding probed for a [prepare] method, and
    the backend connected ([connect]). *)
Definition parse_conflict_policy (s : option string) : result JsStop Conflict.ConflictPolicy :=
  map_err (λ val, Thrown (to_js_error ("Unknown conflict policy '" +:+ val +:+
    "'. Valid values: fail, use_existing, terminate_existing."))) (Conflict.parse_optional s).
Definition cast_d1_database (db : JsValue) : result JsStop JsValue :=
  if negb (is_object db) then Err (Thrown (js_str ("expected a D1Database binding, got " +:+ js_debug db)))
  else if negb (default false (ok (reflect_has db "prepare"))) then
    Err (Thrown (js_str ("expected a D1Database binding (object with a .prepare method), got " +:+ js_debug db)))
  else Ok db.
Definition wasm_create (connect : JsValue → result BackendError unit) (db : JsValue) (policy : option string) :
    result JsStop WasmDurableEngine :=
  policy ← parse_conflict_policy policy;
  d1 ← cast_d1_database db;
  _ ← map_err (λ e, Thrown (to_js_error (backend_error_to_string e))) (connect d1);
  Ok (MkWasmEngine policy).

Record WasmWorkflow : Type := MkWasmWorkflow {
  wasm_workflow_id : string;
  wasm_definition_hash : DefinitionHash;
  wasm_continuation : WorkflowContinuation F;
  wasm_metadata_json : option string
}.

(** [execute_with_checkpointing], then [finalize_execution]. *)
Definition execute_and_settle (wf : WasmWorkflow) (task_registry : JsValue) (input : Bytes) (s : WorkflowSnapshot) :
    Req (Status.WorkflowStatus * option Bytes) := λ w,
  match wasm_run task_registry (wasm_continuation wf) input (s, w) with
  | (Ok output, (s, w)) => wasm_finalize (Ok output) s w
  | (Err (Rt e), (s, w)) => wasm_finalize (Err e) s w
  | (Err _, (_, w)) => (Err Trapped, w)
  end.

(** [run]. *)
Definition engine_run (self : WasmDurableEngine) (wf : WasmWorkflow) (id : string) (input task_registry : JsValue) :
    Req (Status.WorkflowStatus * option Bytes) :=
  input_bytes ← lift_result (map_err Thrown (encode_js_value input));
  outcome ← io_map_err (λ e, Thrown (to_js_error (run_conflict_to_string e)))
    (persistence_prepare_run id (wasm_definition_hash wf) input_bytes (first_task_hint (wasm_continuation wf))
      (wasm_conflict_policy self));
  match outcome with
  | Fresh s => execute_and_settle wf task_registry input_bytes s
  | ExistingStatus status output => mret (status, output)
  end.

(** [resume]. *)
Definition engine_resume (wf : WasmWorkflow) (id : string) (task_registry : JsValue) :
    Req (Status.WorkflowStatus * option Bytes) :=
  outcome ← wasm_prepare_resume id (wasm_definition_hash wf);
  match outcome with
  | AlreadyTerminal status =>
      match status with
      | Status.Completed =>
          r ← try_io (call (λ _, load_snapshot id));
          mret (status, ok r ≫= λ s, completed_output (state s))
      | _ => mret (status, None)
      end
  | ResumePaused status | NotReady status => mret (status, None)
  | Ready s input_bytes => execute_and_settle wf task_registry input_bytes s
  end.

(** [cancel], [pause], [sendSignal], [unpause]. *)
Definition engine_cancel (id : string) (reason cancelled_by : option string) : Req unit :=
  t ← js_now; js_call (λ _, store_signal id Cancel (SignalRequest_new t reason cancelled_by)).
Definition engine_pause (id : string) (reason paused_by : option string) : Req unit :=
  t ← js_now; js_call (λ _, store_signal id Pause (SignalRequest_new t reason paused_by)).
Definition engine_send_signal (id signal_name : string) (payload : JsValue) : Req unit :=
  payload_bytes ← lift_result (map_err Thrown (encode_js_value payload));
  js_call (λ _, send_event id signal_name payload_bytes).
Definition engine_unpause (id : string) : Req unit :=
  js_call (λ now, unpause now id) ≫= λ _, mret ().
End Requests.
