(* ===== verification/CloudflareProps.v ===== *)
(** * The Cloudflare engine computes what a workflow means

    The executor of [Cloudflare.v] against the specification [evaluates], on the
    in-memory backend with nobody else acting on it; the engine's requests; and a
    workflow on which a resumed run goes wrong. *)

From S2P Require Import Prelude Hash32 SnapshotFormat Task Workflow Serializable Snapshot Backend InMemory Runtime Lifecycle SyncExec Checkpoint Durability Cloudflare.

(** ** The codec of the specification *)

Section JsSpec.
Context `{JsEngine}.

Definition js_box (e : JsValue) : BoxError := BoxOther (js_debug e).
#[local] Instance js_envelopes : EnvelopeCodec := {|
  decode_string b := map_err js_box (decode_json_string b);
  encode_branch_envelope key b := map_err js_box (js_branch_envelope key b);
  encode_named_results rs := map_err js_box (js_named_results rs)
|}.
#[local] Instance js_json : SerdeJson := {|
  Value := JsValue;
  from_slice b := map_err js_box (decode_to_js_value b);
  json_get k v := ok (reflect_get v k);
  as_str := js_as_string;
  to_vec v := map_err js_box (encode_js_value v)
|}.

(** JSON text: not empty, and no tag byte of the binary envelope in front. *)
Definition text (b : Bytes) : Prop := match b with [] | x00 :: _ | x01 :: _ => False | _ => True end.

Lemma encode_text :
  (∀ v s, stringify_with_replacer_func binary_replacer v = Ok s → text (as_bytes s)) →
  ∀ v b, encode_js_value v = Ok b → text b.
Proof.
  intros Ht v b. unfold encode_js_value. destruct (stringify_with_replacer_func _ v) as [s|] eqn:Hs; [|done].
  cbn. intros [= <-]. by eapply Ht.
Qed.

(** On text, the two decoders of loop envelopes agree. *)
Lemma loop_result_agrees out d inner :
  text out → decode_any_envelope out = Ok (d, inner) →
  decode_loop_result out = Ok (match d with LoopEnvelope.Again => "again" | LoopEnvelope.Done => "done" end, inner) ∧
  ∃ v, encode_js_value v = Ok inner.
Proof.
  intros Ht Hd.
  assert (Hj : (v ← map_err js_box (decode_to_js_value out);
    tag ← ok_or (ok (reflect_get v "_loop") ≫= js_as_string) (BoxOther "missing or invalid '_loop' tag in LoopResult JSON");
    decision ← ok_or (parse_decision tag) (BoxOther ("unknown loop decision tag: '" +:+ tag +:+ "'"));
    inner ← ok_or (ok (reflect_get v "value")) (BoxOther "missing 'value' field in LoopResult JSON");
    out ← map_err js_box (encode_js_value inner);
    Ok (decision, out)) = Ok (d, inner)).
  { destruct out as [|b out]; [done|]. destruct b; done. }
  clear Hd. unfold decode_loop_result.
  destruct (decode_to_js_value out) as [v|]; [|done]. cbn in Hj |- *.
  destruct (reflect_get v "_loop") as [tv|]; [|done]. cbn in Hj |- *.
  destruct (js_as_string tv) as [tag|]; [|done]. cbn in Hj |- *.
  destruct (parse_decision tag) as [d'|] eqn:Hp; [|done]. cbn in Hj.
  destruct (reflect_get v "value") as [iv|]; [|done]. cbn in Hj |- *.
  destruct (encode_js_value iv) as [o|] eqn:Ho; [|done]. cbn in Hj |- *. injection Hj as -> ->.
  unfold parse_decision in Hp. split; [|by exists iv].
  case_bool_decide; [by injection Hp as <-; subst|]. case_bool_decide; [by injection Hp as <-; subst|done].
Qed.
End JsSpec.

(** ** Binary values *)

(** What the codec relies on: objects keep their fields, base64 and typed arrays their bytes. *)
Class JsBinaryLaws `{JsEngine} : Prop := {
  as_string_str s : js_as_string (js_str s) = Some s;
  two_fields a b x y : a ≠ b → ∃ o o', reflect_set new_object a x = Ok o ∧ reflect_set o b y = Ok o' ∧
    reflect_get o' a = Ok x ∧ reflect_get o' b = Ok y ∧ is_object o' = true ∧ is_array o' = false;
  base64_roundtrip b : base64_decode (base64_encode b) = Ok b;
  buffer_roundtrip b : is_array_buffer (array_buffer_from b) = true ∧ array_bytes (array_buffer_from b) = b;
  uint8_roundtrip b : is_uint8_array (uint8_array_from b) = true ∧ array_bytes (uint8_array_from b) = b;
  buffer_not_uint8 b : is_array_buffer (uint8_array_from b) = false
}.

(** A binary value of at most [u32::MAX] bytes goes out as an envelope that comes back as a
    value of the same kind with the same bytes; any other value goes out as it is. *)
Lemma binary_envelope_roundtrip `{JsBinaryLaws} (key : string) (v : JsValue) :
  Z.of_nat (length (array_bytes v)) ≤ u32_max →
  if is_array_buffer v || is_uint8_array v then
    ∃ env v', binary_replacer key v = Ok (Some env) ∧ binary_reviver key env = Ok v' ∧
      is_array_buffer v' = is_array_buffer v ∧ (is_array_buffer v = false → is_uint8_array v' = true) ∧
      array_bytes v' = array_bytes v
  else binary_replacer key v = Ok (Some v).
Proof.
  intros Hlen. unfold binary_replacer, binary_envelope.
  destruct (two_fields TAG_BIN TAG_KIND (js_str (base64_encode (array_bytes v)))
    (js_str (if is_array_buffer v then "ArrayBuffer" else "Uint8Array"))) as (o & o' & Ho & Ho' & Hb & Hk & Hob & Ha); [done|].
  assert (Hrev : binary_reviver key o' =
    Ok ((if is_array_buffer v then array_buffer_from else uint8_array_from) (array_bytes v))).
  { unfold binary_reviver, try_rehydrate_envelope. rewrite Hob, Ha, Hb, Hk. cbn. rewrite !as_string_str, base64_roundtrip. cbn.
    rewrite bool_decide_false by lia. by destruct (is_array_buffer v). }
  destruct (is_array_buffer v) eqn:Hbuf, (is_uint8_array v) eqn:Hu8; cbn; rewrite ?Ho; cbn; rewrite ?Ho'; cbn; try done;
    (do 2 eexists; split; [done|]; split; [exact Hrev|]).
  1,2: destruct (buffer_roundtrip (array_bytes v)) as [-> ->]; done.
  destruct (uint8_roundtrip (array_bytes v)) as [-> ->]. by rewrite buffer_not_uint8.
Qed.

(** ** Computations that succeed alike *)

(** Where [m] succeeds, so does [m'], with the same value and state. *)
Definition follows {S E A} (m m' : io S E A) : Prop := ∀ s a s', m s = (Ok a, s') → m' s = (Ok a, s').
Lemma follows_bind {S E A C} (m m' : io S E A) (k k' : A → io S E C) :
  follows m m' → (∀ a, follows (k a) (k' a)) → follows (m ≫= k) (m' ≫= k').
Proof.
  intros Hm Hk s c s'. unfold mbind, io_bind. destruct (m s) as [[a|] s1] eqn:Hs; [|done].
  rewrite (Hm _ _ _ Hs). apply Hk.
Qed.
Lemma follows_refl {S E A} (m : io S E A) : follows m m.
Proof. by intros s a s'. Qed.

Section Executor.
Context `{JsEngine, Sha256, Chrono, Display}.
#[local] Existing Instances js_envelopes js_json.
Context {F : Type} `{Environment InMemoryBackend} (quiet : ∀ n b, others n b = b).
Context (inst : string) (task_registry : JsValue).
Context (f : string → Bytes → result BoxError Bytes).
(** The functions answer [f]; what [JSON.stringify] writes is text. *)
Context (Hf : ∀ n id i, ok (call_js_task task_registry n id i) = ok (f id i)).
Context (Htext : ∀ v b, encode_js_value v = Ok b → text b).
Abbreviation ES := (@ExecState InMemoryBackend).
Abbreviation Exec := (io ES Fault).
Abbreviation does := (Checkpoint.does inst).
Abbreviation Inv := (Checkpoint.Inv inst).
Abbreviation clean := (Checkpoint.clean inst).
Abbreviation exec := (wasm_run (B:=InMemoryBackend) (F:=F) task_registry).

(** Every fork has a join. *)
Fixpoint forks_joined (c : WorkflowContinuation F) : bool :=
  let opt (o : option (WorkflowContinuation F)) : bool := match o with Some n => forks_joined n | None => true end in
  match c with
  | Fork _ bs join => forallb forks_joined bs && match join with Some j => forks_joined j | None => false end
  | Task _ _ _ _ _ _ _ next | Delay _ _ next | AwaitSignal _ _ _ next => opt next
  | Branch _ _ bs dflt next => forallb (λ kb, forks_joined kb.2) bs && opt dflt && opt next
  | Loop _ body _ _ next => forks_joined body && opt next
  | ChildWorkflow _ child next => forks_joined child && opt next
  end.

(** *** Outputs are text *)

Lemma task_text id i o : f id i = Ok o → text o.
Proof.
  intros Ho. specialize (Hf 0 id i). rewrite Ho in Hf. unfold call_js_task in Hf.
  destruct (reflect_get task_registry id) as [v|]; [|done]. cbn in Hf.
  destruct (dyn_into_function v) as [g|]; [|done]. cbn in Hf.
  destruct (decode_to_js_value i) as [x|]; [|done]. cbn in Hf.
  destruct (call1 _ g x) as [r|]; [|done]. cbn in Hf.
  destruct (if is_thenable r then _ else _) as [y|]; [|done]. cbn in Hf.
  destruct (encode_js_value y) as [b|] eqn:Hb; [|done]. cbn in Hf. injection Hf as ->. by eapply Htext.
Qed.

Lemma iterates_text (body : WorkflowContinuation F) max pol k i o :
  (∀ i env, evaluates f eq body i env → text env) → iterates f eq body max pol k i o → text o.
Proof.
  intros Hb Hit. remember (Z.to_nat (max - k)) as n eqn:Hn. revert k i Hn Hit.
  induction n as [|n IH]; intros k i Hn Hit.
  { apply iterates_bound in Hit. lia. }
  apply (iterates_step f eq (MkLoopConfig "" body max pol 0)) in Hit as (env & He & flow & Hr & Hflow);
    [|apply iterates_bound in Hit; cbn; lia].
  unfold resolve_loop_iteration in Hr. destruct (decode_any_envelope env) as [[d inner]|] eqn:Hd; [|done].
  destruct (loop_result_agrees env d inner (Hb _ _ He) Hd) as (_ & v & Hv). apply Htext in Hv. cbn in Hr.
  destruct d; [|by injection Hr as <-; subst o].
  case_bool_decide; [destruct pol; [done|]; by injection Hr as <-; subst o|].
  injection Hr as <-. eapply (IH (k + 1)); [lia|exact Hflow].
Qed.
(** The rest of a chain: if it is empty, the output is the node's own. *)
Lemma continues_text (next : option (WorkflowContinuation F)) x o :
  opt_all (λ n, ∀ i o, evaluates f eq n i o → text o) next → text x → continues f eq next x o → text o.
Proof. intros Hn Hx Hc%continues_inv. destruct next as [n|]; cbn in *; [by eapply Hn|by subst]. Qed.

Lemma evaluates_text (c : WorkflowContinuation F) :
  immediate c = true → forks_joined c = true → ∀ i o, evaluates f eq c i o → text o.
Proof.
  assert (Hopt : ∀ next : option (WorkflowContinuation F),
    opt_all (λ n, immediate n = true → forks_joined n = true → ∀ i o, evaluates f eq n i o → text o) next →
    match next with Some n => immediate n | None => true end = true →
    match next with Some n => forks_joined n | None => true end = true →
    opt_all (λ n, ∀ i o, evaluates f eq n i o → text o) next) by (intros [n|]; cbn; auto).
  induction c as [id fn t r v p tg n Hn|id bs j Hbs Hj|id d n Hn|id s t n Hn|id k bs d n Hbs Hd Hn
    |id b m p n Hb Hn|id ch n Hc Hn] using continuation_ind; cbn; intros Hi Hw i o He.
  - apply andb_split in Hi as [_ Hi]. apply evaluates_task in He as (x & Hx & Hco).
    eapply continues_text; [by apply Hopt|by eapply task_text|done].
  - apply andb_split in Hi as [_ Hi], Hw as [_ Hw]. destruct j as [j|]; [|done].
    apply evaluates_fork in He as (rs & _ & e & _ & He). by eapply Hj.
  - done.
  - done.
  - apply andb_split in Hi as [_ Hi], Hw as [_ Hw].
    apply evaluates_branch in He as (kb & _ & key & _ & b & _ & x & _ & e & He & Hco).
    eapply continues_text; [by apply Hopt| |done]. cbn in He. unfold js_branch_envelope in He.
    destruct (reflect_set new_object _ _) as [o1|]; [|done]. cbn in He.
    destruct (decode_to_js_value x) as [xv|]; [|done]. cbn in He.
    destruct (reflect_set o1 _ _) as [o2|]; [|done]. cbn in He.
    destruct (encode_js_value o2) as [y|] eqn:Hy; [|done]. injection He as <-. by eapply Htext.
  - apply andb_split in Hi as [Hi Hi'], Hw as [Hw Hw']. apply evaluates_loop in He as (x & Hit & Hco).
    eapply continues_text; [by apply Hopt|eapply iterates_text; [|exact Hit]; eauto|done].
  - apply andb_split in Hi as [Hi Hi'], Hw as [Hw Hw']. apply evaluates_child in He as (x & Hx & Hco).
    eapply continues_text; [by apply Hopt|by eapply Hc|done].
Qed.

(** *** Effects *)

Lemma does_follows {A} T L (m m' : Exec A) st Q : follows m m' → does T L m st Q → does T L m' st Q.
Proof.
  intros Hm. unfold Checkpoint.does. destruct (m st) as [[a|] st'] eqn:E; [|done]. by rewrite (Hm _ _ _ E).
Qed.

(** Where a backend call of the runtime succeeds, so does the engine's. *)
Lemma call_follows {A} (op : DateTime → io InMemoryBackend BackendError A) :
  follows (run (rt (call op))) (wasm_call op).
Proof.
  intros st a st'. unfold run, rt, wasm_call, run, io_map_err. by destruct (call op st.2) as [[x|] w].
Qed.
Lemma checkpoint_follows : follows (save (B:=InMemoryBackend)) checkpoint.
Proof.
  apply follows_bind; [apply follows_refl|]. intros s. apply follows_bind; [apply call_follows|]. intros s'. apply follows_refl.
Qed.
Lemma guards_follows scope : follows (guards (B:=InMemoryBackend) scope) (wasm_guards scope).
Proof.
  intros st a st'. unfold guards, wasm_guards, check_guards, snap, mbind, io_bind, run, wasm_call, rt, io_map_err, run. cbn.
  destruct (call _ st.2) as [[[]|] w]; cbn; [done| |done].
  by destruct (call _ w) as [[[]|] w']; cbn.
Qed.

Lemma does_checkpoint T L st : Inv st → does T L checkpoint st (λ _ st', st'.1 = st.1 ∧ stored inst st' = Some st.1).
Proof. intros HI. eapply does_follows; [apply checkpoint_follows|]. by apply does_save. Qed.
Lemma does_wasm_guards T L scope st : Inv st →
  does T L (wasm_guards scope) st (λ _ st', st'.1 = st.1 ∧ stored inst st' = stored inst st).
Proof. intros HI. eapply does_follows; [apply guards_follows|]. by apply does_guards. Qed.

Lemma does_js_task T L id i o st : f id i = Ok o → Inv st →
  does T L (js_task task_registry id i) st (λ r st', r = o ∧ st'.1 = st.1).
Proof.
  intros Ho HI. unfold Checkpoint.does, js_task. specialize (Hf (steps st.2) id i). rewrite Ho in Hf.
  destruct (call_js_task task_registry (steps st.2) id i) as [x|]; [|done]. injection Hf as ->. cbn.
  split; [exact HI|]. split; [by apply frame_same|done].
Qed.

Lemma does_recorded T L id (m : Exec Bytes) st Q :
  absent (TaskId_from id) st.1 → Inv st → does T L m st Q → does T L (recorded id m) st Q.
Proof. intros Ha HI Hm. unfold Checkpoint.does, recorded, snap, mbind, io_bind. by rewrite Ha. Qed.

Lemma does_record id o st : Inv st →
  does [TaskId_from id] [] (record id o) st (λ x st', x = o).
Proof.
  intros HI. unfold record. eapply does_bind; [by apply does_mark; [apply list_elem_of_here|]|].
  intros [] st1 HI1 _ _. eapply does_bind; [by apply does_checkpoint|]. intros [] st2 HI2 _ _. by apply does_ret.
Qed.

(** Guards, then a node that has no result yet. *)
Lemma does_node_head T scope id (m : Exec Bytes) st o :
  Inv st → clean T st → TaskId_from id ∈ T →
  (∀ st, Inv st → clean T st → does T [] m st (λ r _, r = o)) →
  does T [] (wasm_guards scope ≫= λ _, recorded id m) st (λ r _, r = o).
Proof.
  intros HI Hc Hid Hm. eapply (does_seq inst [] T); [apply list_subseteq_nil|done|by apply does_wasm_guards|].
  intros [] st1 HI1 Hf1 _. assert (Hc1 : clean T st1) by (eapply clean_after; [|exact Hf1|exact Hc]; intros t []%not_elem_of_nil).
  apply does_recorded; [by eapply clean_absent|done|by apply Hm].
Qed.
(** *** Loops *)

Lemma loop_exit_follows id o : follows (hook_exit (B:=InMemoryBackend) id o ≫= λ _, mret o) (loop_exit id o).
Proof.
  intros st a st'. unfold hook_exit, loop_exit, record, mbind, io_bind.
  destruct (modify _ st) as [[[]|] s1]; [|done]. destruct (modify_now _ s1) as [[[]|] s2]; [|done].
  destruct (save s2) as [[[]|] s3] eqn:Hs; [|done]. by rewrite (checkpoint_follows _ _ _ Hs).
Qed.
Lemma does_loop_exit id o st : Inv st →
  does [TaskId_from id] [] (loop_exit id o) st (λ r st', r = o ∧ both inst (idle (TaskId_from id)) st').
Proof.
  intros HI. eapply does_follows; [apply loop_exit_follows|]. eapply does_bind; [by apply does_hook_exit|].
  intros [] st1 HI1 _ Hi. by apply does_ret.
Qed.

(** What [handle_loop] does between two iterations. *)
Definition next_iteration (id : string) (k : Z) (body : WorkflowContinuation F) : Exec unit :=
  modify_now (λ t, set_loop_iteration t (TaskId_from id) k) ≫= λ _,
  modify_now (λ t, update_position t (InLoop (TaskId_from id) k (Some (TaskId_from (first_task_id body))))) ≫= λ _,
  checkpoint.
Lemma does_next_iteration id k body st : Inv st →
  does [] [TaskId_from id] (next_iteration id k body) st (λ _ st', ∀ t, absent t st.1 → both inst (absent t) st').
Proof.
  intros HI. eapply does_follows; [|by apply (does_hook_progress quiet inst true id k body)].
  apply follows_bind; [apply follows_refl|]. intros _. apply follows_bind; [apply follows_refl|]. intros _.
  apply checkpoint_follows.
Qed.
Lemma next_iteration_then {A} id k body (m : Exec A) st :
  (modify_now (λ t, set_loop_iteration t (TaskId_from id) k) ≫= λ _,
   modify_now (λ t, update_position t (InLoop (TaskId_from id) k (Some (TaskId_from (first_task_id body))))) ≫= λ _,
   checkpoint ≫= λ _, m) st = (next_iteration id k body ≫= λ _, m) st.
Proof.
  unfold next_iteration, mbind, io_bind. destruct (modify_now _ st) as [[[]|] s1]; [|done].
  destruct (modify_now _ s1) as [[[]|] s2]; [|done]. by destruct (checkpoint s2) as [[[]|] s3].
Qed.

Section Loops.
Context (id : string) (body : WorkflowContinuation F) (max : Z) (pol : MaxIterationsPolicy).
Let ids := tids (node_ids body).
Let lid := TaskId_from id.
Hypothesis Hfresh : lid ∉ ids.
Hypothesis Hbody : ∀ i env st, evaluates f eq body i env → Inv st → clean ids st →
  does ids [] (exec body i) st (λ r _, r = env).
Hypothesis Hbtext : ∀ i env, evaluates f eq body i env → text env.

Lemma does_wasm_loop n k i o st :
  Z.of_nat n = Z.max 0 (max - k) → iterates f eq body max pol k i o → Inv st → clean ids st →
  does (lid :: ids) [lid] (wasm_loop id body max pol (exec body) n k i) st (λ r st', r = o ∧ both inst (idle lid) st').
Proof.
  assert (Hs1 : [lid] ⊆ lid :: ids) by (clear; set_solver). assert (Hs2 : ids ⊆ lid :: ids) by (clear; set_solver).
  revert k i st; induction n as [|n IH]; intros k i st Hn Hit HI Hc.
  { apply iterates_bound in Hit. lia. }
  apply (iterates_step f eq (MkLoopConfig "" body max pol 0)) in Hit as (env & He & flow & Hr & Hflow); [|cbn; lia]. cbn in *.
  unfold resolve_loop_iteration in Hr. destruct (decode_any_envelope env) as [[d inner]|] eqn:Hd; [|done]. cbn in Hr.
  destruct (loop_result_agrees env d inner (Hbtext _ _ He) Hd) as [Hl _].
  eapply does_bind; [eapply does_weaken; [exact Hs2|apply list_subseteq_nil|by apply Hbody]|].
  intros r st1 HI1 Hf1 ->.
  eapply does_bind; [apply (does_weaken inst [] []); [apply list_subseteq_nil..|by apply does_remove_results]|].
  intros [] st2 HI2 Hf2 Ha. rewrite task_ids_to_serializable in Ha.
  eapply does_bind; [apply (does_lift inst _ _ _ (match d with Again => "again" | Done => "done" end, inner)); [by rewrite Hl|done]|].
  intros ? ? _ _ [-> ->].
  assert (Hexit : ∀ st3, Inv st3 → does (lid :: ids) [lid] (loop_exit id inner) st3 (λ r st', r = inner ∧ both inst (idle lid) st')).
  { intros st3 HI3. eapply does_weaken; [exact Hs1|apply list_subseteq_nil|by apply does_loop_exit]. }
  destruct d.
  - rewrite bool_decide_false, bool_decide_true by done.
    unfold Checkpoint.does. rewrite next_iteration_then. fold (Checkpoint.does inst (lid :: ids) [lid]
      (next_iteration id (k + 1) body ≫= λ _, wasm_loop id body max pol (exec body) n (k + 1) inner) st2
      (λ r st', r = o ∧ both inst (idle lid) st')).
    eapply does_bind; [apply (does_weaken inst [] [lid]); [apply list_subseteq_nil|done|by apply does_next_iteration]|].
    intros [] st3 HI3 Hf3 Ha3. case_bool_decide as Hlast.
    + assert (n = 0%nat) as -> by lia. destruct pol; [done|]. injection Hr as <-. subst o. by apply Hexit.
    + injection Hr as <-. apply IH; [lia|done|done|].
      intros t Ht. split; [apply Ha3, Ha; by left|].
      assert (t ∉ [lid]) by (by intros ->%list_elem_of_singleton).
      apply (proj2 Hf3), (proj2 Hf2), (proj2 Hf1); try done. by apply Hc.
  - injection Hr as <-. subst o. by apply Hexit.
Qed.
End Loops.

(** *** Forks *)

Lemma does_try {A} T L (m : Exec A) st Q :
  does T L m st Q → does T L (try_io m : Exec (result Fault A)) st (λ r st', ∃ a, r = Ok a ∧ Q a st').
Proof.
  unfold Checkpoint.does, try_io. destruct (m st) as [[a|] st']; [|done]. intros (? & ? & ?). eauto.
Qed.

Lemma does_wasm_branches bs i rs acc st :
  Forall (runs_ok inst f exec) bs → NoDup (tids (flat_map node_ids bs)) → all_evaluate f eq bs i rs →
  Inv st → clean (tids (flat_map node_ids bs)) st →
  does (tids (flat_map node_ids bs)) [] (wasm_branches (λ b, exec b i) bs acc None) st (λ r _, r = (acc ++ rs, None)).
Proof.
  intros Hbs. revert rs acc st. induction Hbs as [|b bs Hb Hbs IH]; intros rs acc st; cbn [flat_map wasm_branches].
  { intros _ ->%all_evaluate_nil HI _. rewrite app_nil_r. by apply does_ret. }
  rewrite tids_app. intros (_ & Hdis & Hnd)%NoDup_app (o & Ho & rs' & Hrs & ->)%all_evaluate_cons HI Hc.
  assert (Hcb : clean (tids (node_ids b)) st) by (eapply clean_subset; [|exact Hc]; apply subseteq_app_l).
  assert (Hin : TaskId_from (cont_id b) ∈ tids (node_ids b)) by (apply list_elem_of_fmap_2, cont_id_in).
  eapply does_bind; [by apply does_snap|]. intros s st1 _ _ [-> ->]. rewrite (clean_absent inst _ _ _ Hin Hcb).
  assert (Hcr : clean (tids (flat_map node_ids bs)) st) by (eapply clean_subset; [|exact Hc]; apply subseteq_app_r).
  eapply (does_bind inst _ _ _ _ _ (λ r st', r = Ok o ∧ clean (tids (flat_map node_ids bs)) st')).
  { eapply does_mono; [apply subseteq_app_l|done|apply does_try; by apply Hb|].
    intros r st1 HI1 Hf1 (a & -> & ->). split; [done|]. by eapply clean_after. }
  intros r st1 HI1 _ [-> Hc1].
  eapply (does_bind inst _ _ _ _ _ (λ _ st', clean (tids (flat_map node_ids bs)) st')).
  { eapply (does_mono inst [TaskId_from (cont_id b)] []); [|done|by apply does_record|].
    - intros t ->%list_elem_of_singleton. by apply elem_of_app; left.
    - intros r st2 HI2 Hf2 _. eapply clean_after; [|exact Hf2|exact Hc1]. intros t ->%list_elem_of_singleton. by apply Hdis. }
  intros r st2 HI2 _ Hc2. replace (acc ++ (cont_id b, o) :: rs') with ((acc ++ [(cont_id b, o)]) ++ rs') by by rewrite <-app_assoc.
  eapply does_weaken; [apply subseteq_app_r|done|by apply IH].
Qed.
(** *** The tree *)

Abbreviation wasm_ok := (λ c, forks_joined c = true → Checkpoint.tree_ok inst f exec c).
Lemma wasm_opt (next : option (WorkflowContinuation F)) :
  opt_all wasm_ok next → match next with Some n => forks_joined n | None => true end = true →
  opt_all (Checkpoint.tree_ok inst f exec) next.
Proof. destruct next; cbn; auto. Qed.
Lemma wasm_list {A} (g : A → WorkflowContinuation F) (l : list A) :
  Forall (λ a, wasm_ok (g a)) l → forallb (λ a, forks_joined (g a)) l = true →
  Forall (λ a, Checkpoint.tree_ok inst f exec (g a)) l.
Proof. induction 1 as [|a l Ha _ IH]; cbn; [constructor|]. intros [? ?]%andb_split. constructor; auto. Qed.

(** A node's head, then the rest of the chain. *)
Lemma wasm_chain l (head : Exec Bytes) next o res st :
  (clean (tids l) st → NoDup (tids l) → does (tids l) [] head st (λ x _, x = o)) →
  NoDup (tids (l ++ opt_ids next)) → clean (tids (l ++ opt_ids next)) st →
  opt_all (Checkpoint.tree_ok inst f exec) next →
  match next with Some n => immediate n | None => true end = true → continues f eq next o res →
  does (tids (l ++ opt_ids next)) [] (x ← head; proceed exec next x) st (λ r _, r = res).
Proof.
  intros Hh Hnd Hcl Hn Hi Hc.
  apply (does_chain inst f SContinue exec (λ _, mret []) l head o next o res st Hh eq_refl Hnd Hcl Hn Hi Hc).
Qed.

Lemma wasm_task_ok id fn t r v p tg n : opt_all wasm_ok n → wasm_ok (Task id fn t r v p tg n).
Proof.
  intros Hn Hw. unfold Checkpoint.tree_ok. cbn [immediate node_ids forks_joined] in *. fold (opt_ids n).
  intros [_ Hi]%andb_split Hnd i o st (x & Hx & Hco)%evaluates_task HI Hcl.
  apply (wasm_chain [id] _ n x); try done; [|by apply wasm_opt].
  intros Hc _. apply does_node_head; [done|done|apply list_elem_of_here|]. intros st1 HI1 Hc1.
  eapply does_bind; [by apply does_js_task|]. intros y st2 HI2 _ [-> _].
  eapply does_bind; [by apply does_mark; [apply list_elem_of_here|]|]. intros [] st3 HI3 _ _.
  eapply (does_bind inst _ _ _ _ _ (λ _ _, True)).
  { unfold position_at_next. destruct n; [|by apply does_ret].
    eapply does_mono; [done|done|apply does_modify_now; [intros; apply keeps_position|done]|done]. }
  intros [] st4 HI4 _ _. eapply does_bind; [by apply does_checkpoint|]. intros [] st5 HI5 _ _.
  eapply does_bind; [by apply does_wasm_guards|]. intros [] st6 HI6 _ _. by apply does_ret.
Qed.

Lemma wasm_fork_ok id bs j : Forall wasm_ok bs → opt_all wasm_ok j → wasm_ok (Fork id bs j).
Proof.
  intros Hbs Hj Hw. unfold Checkpoint.tree_ok. cbn [immediate node_ids forks_joined] in *. fold (opt_ids j).
  apply andb_split in Hw as [Hw Hw']. destruct j as [j|]; [|done].
  intros [Hi Hi']%andb_split Hnd i o st (? & (rs & Hall & <-) & e & He & Hres)%evaluates_fork HI Hcl.
  apply (wasm_chain (id :: flat_map node_ids bs) _ (Some j) e); try done; [|by apply (wasm_opt (Some j))|by constructor].
  intros Hc [_ Hnd']%NoDup_cons. unfold handle_fork.
  eapply (does_seq inst [] (tids (flat_map node_ids bs))); [apply list_subseteq_nil|clear; set_solver|by apply does_wasm_guards|].
  intros [] st1 HI1 Hf1 _.
  eapply does_bind; [apply does_wasm_branches; [|done|done|done|]|].
  { apply (list_runs inst f (λ b, b)); [by apply (wasm_list (λ b, b))|done|done]. }
  { eapply clean_after; [|exact Hf1|by eapply clean_tail]. intros t []%not_elem_of_nil. }
  intros ? st2 HI2 _ ->. cbn in He. eapply does_mono; [done|done|apply (does_lift inst _ _ _ e); [|done]|by intros ? ? ? ? []].
  change ([] ++ rs) with rs. destruct (js_named_results rs); [|done]. by injection He as ->.
Qed.

Lemma wasm_route_ok id k bs d n :
  Forall (λ kb, wasm_ok kb.2) bs → opt_all wasm_ok d → opt_all wasm_ok n → wasm_ok (Branch id k bs d n).
Proof.
  intros Hbs Hd Hn Hw. unfold Checkpoint.tree_ok. cbn [immediate forks_joined] in *. fold (opt_ids n).
  apply andb_split in Hw as [[Hwb Hwd]%andb_split Hwn].
  intros [[Hi Hi']%andb_split Hi'']%andb_split Hnd i o st
    (kb & Hkb & key & Hkey & b & Hb & x & Hx & e & He & Hco)%evaluates_branch HI Hcl.
  rewrite branch_ids in Hnd, Hcl |- *.
  apply (wasm_chain (id :: flat_map (λ kb, node_ids kb.2) bs ++ opt_ids d) _ n e); try done; [|by apply wasm_opt].
  rewrite tids_cons. intros Hc [Hid Hnd']%NoDup_cons.
  apply does_node_head; [done|done|apply list_elem_of_here|]. intros st1 HI1 Hc1.
  assert (Hbr : runs_ok inst f exec b).
  { rewrite tids_app in Hnd'. apply NoDup_app in Hnd' as (Hnd1 & _ & Hnd2).
    eapply choose_Forall; [by apply (list_runs inst f snd); [apply (wasm_list snd)|..]| |done].
    apply (opt_runs inst f); [by apply wasm_opt|done|done]. }
  eapply (does_seq inst [] _); [apply list_subseteq_nil|done|by apply does_js_task|]. intros y st2 HI2 Hf2 [-> _].
  assert (Hc2 : clean (tids (flat_map (λ kb, node_ids kb.2) bs ++ opt_ids d)) st2).
  { eapply clean_after; [|exact Hf2|by eapply clean_tail]. intros t []%not_elem_of_nil. }
  cbn in Hkey, He.
  eapply does_bind; [apply (does_lift inst _ _ _ key); [by destruct (decode_json_string kb); [injection Hkey as ->|]|done]|].
  intros ? ? _ _ [-> ->].
  eapply does_bind; [apply (does_lift inst _ _ _ (exec b i)); [|done]|].
  { rewrite get_branch_fmap. unfold choose in Hb.
    destruct (get_branch (λ b, b) key bs); cbn; [by injection Hb as ->|]. by subst d. }
  intros ? ? _ _ [-> ->].
  eapply (does_seq inst (tids (node_ids b)) [TaskId_from id]); [|clear; set_solver|apply Hbr; [done|done|]|].
  { intros t Ht. apply list_elem_of_further. by eapply choose_ids. }
  { eapply clean_subset; [|exact Hc2]. by eapply choose_ids. }
  intros ? st3 HI3 _ ->. eapply does_bind; [apply (does_lift inst _ _ _ e); [|done]|].
  { destruct (js_branch_envelope key x); [by injection He as ->|done]. }
  intros ? ? _ _ [-> ->]. by apply does_record.
Qed.

Lemma wasm_loop_ok id b m p n : wasm_ok b → opt_all wasm_ok n → wasm_ok (Loop id b m p n).
Proof.
  intros Hb Hn Hw. unfold Checkpoint.tree_ok. cbn [immediate node_ids forks_joined] in *. fold (opt_ids n).
  apply andb_split in Hw as [Hw Hw'].
  intros [Hi Hi']%andb_split Hnd i o st (x & Hit & Hco)%evaluates_loop HI Hcl.
  apply (wasm_chain (id :: node_ids b) _ n x); try done; [|by apply wasm_opt].
  rewrite tids_cons. intros Hc [Hid Hnd']%NoDup_cons.
  apply does_node_head; [done|done|apply list_elem_of_here|]. intros st1 HI1 Hc1.
  eapply does_bind; [by apply does_snap|]. intros s st2 _ _ [-> ->]. rewrite (clean_loop inst _ _ _ Hc1).
  apply (does_settle inst _ (TaskId_from id)). apply does_wasm_loop; try done.
  - intros. by apply Hb.
  - intros. by eapply evaluates_text.
  - rewrite <-range_from_zero. do 2 f_equal. lia.
  - by eapply clean_tail.
Qed.

Lemma wasm_child_ok id ch n : wasm_ok ch → opt_all wasm_ok n → wasm_ok (ChildWorkflow id ch n).
Proof.
  intros Hch Hn Hw. unfold Checkpoint.tree_ok. cbn [immediate node_ids forks_joined] in *. fold (opt_ids n).
  apply andb_split in Hw as [Hw Hw'].
  intros [Hi Hi']%andb_split Hnd i o st (x & Hx & Hco)%evaluates_child HI Hcl.
  apply (wasm_chain (id :: node_ids ch) _ n x); try done; [|by apply wasm_opt].
  rewrite tids_cons. intros Hc [Hid Hnd']%NoDup_cons.
  apply does_node_head; [done|done|apply list_elem_of_here|]. intros st1 HI1 Hc1.
  eapply (does_seq inst (tids (node_ids ch)) [TaskId_from id]); [clear; set_solver..|apply Hch; try done; by eapply clean_tail|].
  intros ? st2 HI2 _ ->. by apply does_record.
Qed.

Lemma wasm_run_ok c : wasm_ok c.
Proof.
  induction c using continuation_ind; [by apply wasm_task_ok|by apply wasm_fork_ok|done|done|by apply wasm_route_ok|
    by apply wasm_loop_ok|by apply wasm_child_ok].
Qed.
End Executor.
(** ** Requests *)

Section Requests.
Context `{JsEngine, Sha256, Chrono, Display}.
#[local] Existing Instances js_envelopes js_json.
Context {F : Type} `{Environment InMemoryBackend} (quiet : ∀ n b, others n b = b).
Abbreviation W := (World InMemoryBackend).

Lemma persistence_fresh id hash input hint policy (w : W) :
  validate_instance_id id = Ok () → snapshots (store w) !! id = None →
  persistence_prepare_run id hash input hint policy w =
  let s := first_snapshot (1 + steps w) id hash input hint in
  (Ok (Fresh s), MkWorld (with_snapshots (<[id := s]> (snapshots (store w))) (store w)) (4 + steps w)).
Proof.
  intros Hid Hs. unfold persistence_prepare_run. rewrite bind_lift, Hid. cbn [map_err].
  rewrite (bind_try_call quiet). cbn. unfold mem_load_snapshot. rewrite Hs. cbn. by rewrite (start_fresh_eq quiet).
Qed.

Lemma wasm_finalize_ok o s (w : W) :
  ∃ s' w', wasm_finalize (Ok o) s w = (Ok (Status.Completed, Some o), w') ∧
    state s' = Completed o ∧ snapshots (store w') !! instance_id s = Some s'.
Proof.
  unfold wasm_finalize, js_now, js_call. rewrite bind_clock, (bind_call quiet). do 2 eexists. split; [reflexivity|].
  split; [|apply lookup_insert_eq]. done.
Qed.

Lemma settle_ok (wf : WasmWorkflow) registry input s (w : W) o s2 w2 :
  wasm_run registry (wasm_continuation (F:=F) wf) input (s, w) = (Ok o, (s2, w2)) →
  ∃ s' w', execute_and_settle wf registry input s w = (Ok (Status.Completed, Some o), w') ∧
    state s' = Completed o ∧ snapshots (store w') !! instance_id s2 = Some s'.
Proof.
  intros Hrun. unfold execute_and_settle. rewrite Hrun. apply wasm_finalize_ok.
Qed.
End Requests.

(** ** Properties *)

#[local] Existing Instances js_envelopes js_json.

(** A request that starts a workflow, end to end: on the Cloudflare engine a fresh
    instance of a workflow of tasks, forks with joins, conditional branches, loops
    and child workflows in any nesting, its functions answering [f] and nobody else
    touching the store, is reported completed with the output the workflow means by
    the specification the other executors implement, and this output is stored. *)
Theorem wasm_run_correct `{JsEngine, Sha256, Chrono, Display} {F : Type} `{Environment InMemoryBackend}
    (registry input : JsValue) (f : string → Bytes → result BoxError Bytes) (self : WasmDurableEngine)
    (wf : WasmWorkflow (F:=F)) (id : string) (bytes o : Bytes) (w : World InMemoryBackend) :
  let c := wasm_continuation wf in
  (∀ n b, others n b = b) →
  (∀ n id i, ok (call_js_task registry n id i) = ok (f id i)) →
  (∀ v s, stringify_with_replacer_func binary_replacer v = Ok s → text (as_bytes s)) →
  immediate c = true → forks_joined c = true → find_duplicate_id c = None → collision_free (node_ids c) →
  validate_instance_id id = Ok () → snapshots (store w) !! id = None →
  pending (store w) id Cancel = None → pending (store w) id Pause = None →
  encode_js_value input = Ok bytes →
  evaluates f eq c bytes o →
  ∃ s w', engine_run self wf id input registry w = (Ok (Status.Completed, Some o), w') ∧
    snapshots (store w') !! id = Some s ∧ state s = Completed o.
Proof.
  intros c quiet Hf Hjson Hi Hj Hd Hcf Hid Hs Hc Hp Henc He. unfold engine_run. rewrite bind_lift, Henc. cbn [map_err].
  rewrite io_bind_run. unfold io_map_err.
  rewrite (persistence_fresh quiet id (wasm_definition_hash wf) bytes (first_task_hint c) (wasm_conflict_policy self) w Hid Hs).
  cbn zeta. cbn [map_err].
  set (s := first_snapshot _ _ _ _ _). set (w1 := MkWorld _ _).
  assert (Hst : stored id (s, w1) = Some s) by apply lookup_insert_eq.
  assert (Hm : does id (tids (node_ids c)) [] (wasm_run registry c bytes) (s, w1) (λ r _, r = o)).
  { apply (wasm_run_ok quiet id registry f Hf (encode_text Hjson)); [done|done|by apply tids_nodup; [apply no_duplicate_nodup|]|done| |].
    - split; [done|]. split; [|done]. exists s. by split.
    - intros t _. split; (split; [done|]); rewrite Hst; by intros ? [= <-]. }
  unfold does in Hm. destruct (wasm_run registry c bytes (s, w1)) as [[r|] [s2 w2]] eqn:Hrun; [|done].
  destruct Hm as (((_ & Hi2 & _) & _) & _ & ->). cbn in Hi2.
  destruct (settle_ok quiet wf registry bytes s w1 o s2 w2 Hrun) as (s3 & w3 & -> & Hs3 & Hlk).
  rewrite Hi2 in Hlk. by exists s3, w3.
Qed.

(** ** Examples *)

Module CloudflareExample.
Import Toy WorkflowExample Examples DurabilityExample.
#[local] Existing Instances ExecExample.backon ExecExample.backon_laws.

(** JavaScript with strings, objects, binary values and functions, and their JSON; a
    function is its name, strings have no quotes in them, binary values are written in
    hexadecimal. *)
Inductive Js := Undefined | Str (s : string) | Obj (fields : list (string * Js)) | Fun (name : string)
  | Buffer (b : Bytes) | U8 (b : Bytes).

Definition quote : Bytes := [x22].
Definition quoted (s : string) : result Js Bytes :=
  if bool_decide (x22 ∈ as_bytes s) then Err (Str "quote") else Ok (quote ++ as_bytes s ++ quote).
(** The replacer sees a value before its members, the reviver after them. *)
Fixpoint stringify (fuel : nat) (hook : string → Js → result string (option Js)) (key : string) (v : Js) : result Js Bytes :=
  match fuel, hook key v with
  | S fuel, Ok (Some (Str s)) => quoted s
  | S fuel, Ok (Some (Obj fields)) =>
      body ← (fix members fs := match fs with
                | [] => Ok []
                | (k, v) :: fs =>
                    name ← quoted k; v ← stringify fuel hook k v; rest ← members fs;
                    Ok (name ++ as_bytes ":" ++ v ++ as_bytes "," ++ rest)
                end) fields;
      Ok (as_bytes "{" ++ body ++ as_bytes "}")
  | _, _ => Err (Str "not JSON")
  end.

Fixpoint until_quote (acc b : Bytes) : option (string * Bytes) :=
  match b with
  | [] => None
  | x22 :: b => Some (String.string_of_list_byte (reverse acc), b)
  | c :: b => until_quote (c :: acc) b
  end.
Fixpoint parse (fuel : nat) (hook : string → Js → result string Js) (key : string) (b : Bytes) : option (Js * Bytes) :=
  match fuel, b with
  | S fuel, x22 :: b => sb ← until_quote [] b; v ← ok (hook key (Str sb.1)); Some (v, sb.2)
  | S fuel, x7b :: b =>
      (fix members (n : nat) (fs : list (string * Js)) (b : Bytes) :=
        match n, b with
        | S n, x7d :: b => v ← ok (hook key (Obj fs)); Some (v, b)
        | S n, x22 :: b =>
            kb ← until_quote [] b; vb ← parse fuel hook kb.1 (drop 1 kb.2); members n (fs ++ [(kb.1, vb.1)]) (drop 1 vb.2)
        | _, _ => None
        end) (S fuel) [] b
  | _, _ => None
  end.
Definition parse_all (hook : string → Js → result string Js) (s : string) : result Js Js :=
  match parse (String.length s) hook EmptyString (as_bytes s) with Some (v, []) => Ok v | _ => Err (Str "SyntaxError") end.

Fixpoint field (k : string) (fs : list (string * Js)) : Js :=
  match fs with [] => Undefined | (k', v) :: fs => if bool_decide (k = k') then v else field k fs end.

(** [route::key_fn] answers ["eu"], [step] asks for another turn until its string has
    thirteen characters; any other function signs what it gets. *)
Definition apply_fn (name : string) (v : Js) : Js :=
  if bool_decide (name = "route::key_fn") then Str "eu"
  else match v with
  | Str s =>
      if bool_decide (name = "step")
      then Obj [("_loop", Str (if bool_decide (String.length s < 13)%nat then "again" else "done")); ("value", Str (s +:+ "+"))]
      else Str (s +:+ " " +:+ name)
  | Obj fs => Obj (fs ++ [(name, Str "ok")])
  | v => v
  end.

#[export] Instance js : JsEngine := {|
  JsValue := Js; JsFunction := string;
  js_str := Str;
  js_as_string v := match v with Str s => Some s | _ => None end;
  js_debug v := match v with Str s => s | _ => "value" end;
  new_object := Obj [];
  reflect_get v k := match v with Obj fs => Ok (field k fs) | _ => Err (Str "not an object") end;
  reflect_has v k := match v with Obj fs => Ok (bool_decide (k ∈ fs.*1)) | _ => Err (Str "not an object") end;
  reflect_set v k x := match v with Obj fs => Ok (Obj (fs ++ [(k, x)])) | _ => Err (Str "not an object") end;
  dyn_into_function v := match v with Fun f => Some f | _ => None end;
  is_object v := match v with Obj _ | Buffer _ | U8 _ => true | _ => false end;
  is_array _ := false;
  is_array_buffer v := match v with Buffer _ => true | _ => false end;
  is_uint8_array v := match v with U8 _ => true | _ => false end;
  array_bytes v := match v with Buffer b | U8 b => b | _ => [] end;
  uint8_array_from := U8;
  array_buffer_from := Buffer;
  is_function v := match v with Fun _ => true | _ => false end;
  call1 _ f v := Ok (apply_fn f v);
  js_await _ v := Ok v;
  stringify_with_replacer_func hook v := String.string_of_list_byte <$> stringify 20 hook EmptyString v;
  json_parse := parse_all (λ _, Ok);
  parse_with_reviver_func s hook := parse_all hook s;
  base64_encode b := String.string_of_list_byte (b ≫= hex_byte);
  base64_decode s := map_err (λ _, "digit") (decode_pairs (String.length s / 2) (as_bytes s))
|}.

Lemma toy_hex_roundtrip b :
  let s := String.string_of_list_byte (b ≫= hex_byte) in
  map_err (λ _, "digit") (decode_pairs (String.length s / 2) (as_bytes s)) = Ok b.
Proof.
  intros s. subst s. rewrite <-as_bytes_length, as_bytes_of_list_byte, hex_length, Nat.mul_comm, Nat.div_mul by done.
  rewrite <-(app_nil_r (b ≫= hex_byte)). by rewrite decode_pairs_hex.
Qed.
#[export] Instance js_laws : @JsBinaryLaws js.
Proof.
  split; try done.
  - intros a b x y Hab. do 2 eexists. repeat split; cbn; [by rewrite bool_decide_true|].
    rewrite bool_decide_false by done. by rewrite bool_decide_true.
  - exact toy_hex_roundtrip.
Qed.

Definition registry : Js :=
  Obj ((λ f, (f, Fun f)) <$> ["validate"; "step"; "route::key_fn"; "ship_eu"; "ship_any"; "mail"; "audit"; "close"; "a"; "b"; "c"; "j"]).
Definition answer (id : string) (i : Bytes) : result BoxError Bytes :=
  map_err (λ _, BoxOther "js") (call_js_task registry 0%nat id i).

(** [order_flow] with a loop in front of its routing. *)
Definition polled_flow : WorkflowContinuation unit :=
  task "validate" (Some (Loop "poll" (task "step" None) 5 Fail (get_next order_flow))).
Definition js_flow (c : WorkflowContinuation unit) : WasmWorkflow := MkWasmWorkflow "flow" hash c None.
Definition engine : WasmDurableEngine := MkWasmEngine Conflict.Fail.

Definition polled_output : Bytes := default [] (ok (engine_run engine (js_flow polled_flow) "i" (Str "in") registry w0).1 ≫= snd).

Lemma stringify_text hook v s : stringify_with_replacer_func (JsEngine:=js) hook v = Ok s → text (as_bytes s).
Proof.
  cbn [stringify_with_replacer_func js stringify]. destruct (hook _ v) as [[[|t|fs| | |]|]|]; try done.
  - unfold quoted. case_bool_decide; [done|]. intros [= <-]. by rewrite as_bytes_of_list_byte.
  - destruct (_ fs); [|done]. intros [= <-]. by rewrite as_bytes_of_list_byte.
Qed.

#[local] Instance answer_callback : TaskCallback := λ _, answer.
Lemma js_meaning {F} (c : WorkflowContinuation F) i o :
  (execute_continuation_sync c i 0%nat).1 = Ok o →
  evaluates answer eq c i o.
Proof.
  intros Ho%run_result.
  pose proof (sync_computes (H4:=answer_callback) answer (λ _ _ _, eq_refl) c i 0%nat) as Hc.
  rewrite Ho in Hc. by apply Hc.
Qed.

Lemma js_meaning_unique {F} (c : WorkflowContinuation F) i o out :
  (execute_continuation_sync c i 0%nat).1 = Ok o → evaluates answer eq c i out → out = o.
Proof.
  intros Ho%run_result.
  pose proof (sync_computes (H4:=answer_callback) answer (λ _ _ _, eq_refl) c i 0%nat) as Hc.
  rewrite Ho in Hc. by apply Hc.
Qed.

Lemma answer_ok n id i : ok (call_js_task (H:=js) registry n id i) = ok (answer id i).
Proof.
  unfold answer. change (call_js_task (H:=js) registry n id i) with (call_js_task (H:=js) registry 0%nat id i).
  by destruct (call_js_task _ _ _ _).
Qed.

Lemma wasm_run_correct_witness :
  ∃ s w', engine_run engine (js_flow polled_flow) "i" (Str "in") registry w0 =
    (Ok (Status.Completed, Some polled_output), w') ∧
    snapshots (store w') !! "i" = Some s ∧ state s = Completed polled_output.
Proof.
  apply (wasm_run_correct (H:=js) registry (Str "in") answer engine (js_flow polled_flow) "i" (quote ++ as_bytes "in" ++ quote)
    polled_output w0); try done.
  - exact answer_ok.
  - intros. by eapply stringify_text.
  - apply (bool_decide_unpack _). vm_compute. exact I.
  - apply js_meaning. vm_compute. reflexivity.
Defined.
End CloudflareExample.
