(* ===== verification/CloudflareResume.v ===== *)
(** * Requests of the Cloudflare engine that resume a run

    A request that dies between two tasks, a run that parks at a delay: what the next
    [resume] finds in the store and what it answers; and a fork on which the answer
    is wrong. *)

From S2P Require Import Prelude Hash32 SnapshotFormat Task Workflow Serializable Snapshot Backend InMemory Runtime Lifecycle SyncExec Checkpoint Durability Cloudflare CloudflareProps.

#[local] Existing Instances js_envelopes js_json.

Section Recovery.
Context `{JsEngine, Sha256, Chrono, Display}.
Context {F : Type} `{Environment InMemoryBackend} (quiet : ∀ n b, others n b = b).
Context (inst : string) (registry : JsValue).
Context (f : string → Bytes → result BoxError Bytes).
Context (Hf : ∀ n id i, ok (call_js_task registry n id i) = ok (f id i)).
Context (Htext : ∀ v b, encode_js_value v = Ok b → text b).
Abbreviation ES := (@ExecState InMemoryBackend).
Abbreviation W := (World InMemoryBackend).
Abbreviation does := (Checkpoint.does inst).
Abbreviation Inv := (Checkpoint.Inv inst).
Abbreviation exec := (wasm_run (B:=InMemoryBackend) (F:=F) registry).

(** *** Recorded tasks *)

Lemma does_cached_task id (next : option (WorkflowContinuation F)) i r st :
  get_task_result (TaskId_from id) st.1 = Some r → Inv st →
  does [] [] (handle_task registry id next i) st (λ x st', x = tr_output r ∧ st'.1 = st.1).
Proof.
  intros Hr HI. unfold handle_task. eapply does_bind; [by apply does_wasm_guards|]. intros [] st1 HI1 _ [He1 _].
  unfold recorded. eapply does_bind; [by apply does_snap|]. intros s ? _ _ [-> ->]. rewrite He1, Hr. by apply does_ret.
Qed.

Lemma does_cached_delay id d (next : option (WorkflowContinuation F)) i r st :
  get_task_result (TaskId_from id) st.1 = Some r → Inv st →
  does [] [] (handle_delay id d next i) st (λ x st', x = i ∧ st'.1 = st.1).
Proof.
  intros Hr HI. unfold handle_delay. eapply does_bind; [by apply does_wasm_guards|]. intros [] st1 HI1 _ [He1 _].
  eapply does_bind; [by apply does_snap|]. intros ? ? _ _ [-> ->]. rewrite He1, Hr. by apply does_ret.
Qed.

Lemma wasm_resume_ok s c i c' x o st :
  skips s c i c' x → (∀ t r, get_task_result t s = Some r → get_task_result t st.1 = Some r) →
  immediate c' = true → forks_joined c' = true → NoDup (tids (node_ids c')) → evaluates f eq c' x o →
  Inv st → clean inst (tids (node_ids c')) st →
  does (tids (node_ids c')) [] (exec c i) st (λ r _, r = o).
Proof.
  intros Hs Hst Him Hj Hnd He. revert st Hst.
  induction Hs as [c i|id fn t rp v p tg n r i c x Hr Hs IH|id d n r i c x Hr Hs IH]; intros st Hst HI Hc.
  - by apply (wasm_run_ok quiet inst registry f Hf Htext).
  - cbn [wasm_run].
    eapply does_seq; [apply list_subseteq_nil|reflexivity|exact (does_cached_task _ _ _ _ _ (Hst _ _ Hr) HI)|].
    intros y st1 HI1 Hf1 [-> He1]. cbn [proceed]. apply IH; [done..| |done|by eapply clean_frame_nil].
    intros t' r' Ht'. rewrite He1. by apply Hst.
  - cbn [wasm_run].
    eapply does_seq; [apply list_subseteq_nil|reflexivity|exact (does_cached_delay _ _ _ _ _ _ (Hst _ _ Hr) HI)|].
    intros y st1 HI1 Hf1 [-> He1]. cbn [proceed]. apply IH; [done..| |done|by eapply clean_frame_nil].
    intros t' r' Ht'. rewrite He1. by apply Hst.
Qed.

(** *** Task by task *)

(** A task that runs: its result is recorded, saved, and is the resume input. *)
Lemma does_task_saved id (n : WorkflowContinuation F) i o st :
  f id i = Ok o → absent (TaskId_from id) st.1 → Inv st →
  does [TaskId_from id] [] (handle_task registry id (Some n) i) st (λ x st', x = o ∧
    saved_progress inst (snapshot_definition_hash st.1) o st' ∧
    get_task_result (TaskId_from id) st'.1 = Some (MkTaskResult (TaskId_from id) o) ∧
    ∀ t r, get_task_result t st.1 = Some r → get_task_result t st'.1 = Some r).
Proof.
  intros Ho Ha HI. unfold handle_task. eapply does_bind; [by apply does_wasm_guards|]. intros [] st1 HI1 _ [He1 _].
  rewrite <-He1 in Ha. eapply does_recorded; [done|done|].
  eapply does_bind; [by apply (does_js_task inst registry f Hf)|]. intros y st2 HI2 _ [-> He2].
  eapply does_bind; [apply does_modify_now; [|done]; intros; apply keeps_mark, list_elem_of_here|].
  intros [] st3 HI3 _ (t & He3 & _). cbn [position_at_next].
  eapply does_bind; [apply does_modify_now; [|done]; intros; apply keeps_position|].
  intros [] st4 HI4 _ (t' & He4 & _).
  eapply does_bind; [by apply does_checkpoint|]. intros [] st5 HI5 _ [He5 Hs5].
  eapply does_bind; [by apply does_wasm_guards|]. intros [] st6 HI6 _ [He6 Hs6].
  apply does_ret; [done|]. split; [done|].
  assert (He : st6.1 = update_position t' (AtTask (TaskId_from (first_task_id n)))
    (mark_task_completed t (TaskId_from id) o st.1)) by (by rewrite He6, He5, He4, He3, He2, He1).
  rewrite He1 in Ha. destruct HI as ((Hp & _ & _) & _). unfold absent, get_task_result in Ha.
  unfold update_position, mark_task_completed in He. unfold is_in_progress in Hp.
  destruct (state st.1) as [p m l| | | |] eqn:Hs; try done. cbn in He.
  unfold saved_progress, extract, get_resume_input, get_task_result, get_last_task_output.
  rewrite Hs6, Hs5, <-He5, <-He6, He. cbn. rewrite bool_decide_false by apply insert_non_empty.
  rewrite !lookup_insert_eq. cbn. repeat split; try done.
  intros u r Hr. rewrite Hs in Hr. rewrite lookup_insert_ne; [done|]. intros <-. congruence.
Qed.

(** Some task steps, one after the other. *)
Inductive wasm_steps : WorkflowContinuation F → Bytes → ES → WorkflowContinuation F → Bytes → ES → Prop :=
| WasmStepsNone c i st : wasm_steps c i st c i st
| WasmStepsTask id fn t rp v p tg n i st o st1 c' i' st' :
    handle_task registry id (Some n) i st = (Ok o, st1) → wasm_steps n o st1 c' i' st' →
    wasm_steps (Task id fn t rp v p tg (Some n)) i st c' i' st'.

Lemma at_step_wasm hash c0 o c x st c' x' st' :
  wasm_steps c x st c' x' st' → at_step inst f hash c0 o c x st → at_step inst f hash c0 o c' x' st'.
Proof.
  induction 1 as [|id fn t rp v p tg n i st y st1 c' i' st' Hrun Hruns IH]; [done|].
  intros (HI & (Hst & Hh & Hpk & Hri) & Hsk & Hev & Him & Hnd & Hcl). apply IH.
  cbn in Him. apply andb_true_iff in Him as [_ Him].
  apply evaluates_task in Hev as (y' & Hy & Hco). apply continues_inv in Hco.
  cbn [node_ids] in Hnd, Hcl. pose proof (clean_head _ _ _ _ Hcl) as Ha. pose proof (clean_tail _ _ _ _ Hcl) as Hcl'.
  rewrite tids_cons in Hnd. apply NoDup_cons in Hnd as [Hnin Hnd].
  pose proof (does_task_saved id n i y' st Hy Ha HI) as Hd. unfold Checkpoint.does in Hd. rewrite Hrun in Hd.
  destruct Hd as (HI1 & Hf1 & -> & Hsave & Hres & Hmono). rewrite Hh in Hsave.
  split; [done|]. split; [done|]. split; [|do 3 (split; [done|])].
  - destruct (skips_input _ _ _ _ _ Hsk) as [Hall|[_ Hall]];
      exact (skips_snoc _ _ _ id fn t rp v p tg n _ (MkTaskResult (TaskId_from id) y') (skips_mono _ _ _ _ _ _ Hmono (Hall y')) Hres).
  - eapply clean_after; [|exact Hf1|exact Hcl']. by intros t' ->%list_elem_of_singleton.
Qed.

(** *** [resume] *)

Lemma wasm_resume_input_eq s x : get_resume_input s = Ok x → wasm_resume_input s = Ok x.
Proof.
  unfold get_resume_input, wasm_resume_input. destruct (state s); try done.
  case_bool_decide; [destruct (initial_input s)|destruct (get_last_task_output s)]; cbn; congruence.
Qed.

Lemma not_parked_resolved s (w : W) : extract s = NotParked → resolve_parked s inst w = (Ok (None, s), w).
Proof. unfold extract, resolve_parked. destruct (state s) as [p m l| | | |]; [|done..]. by destruct p. Qed.

Lemma wasm_prepare_ready hash x st (w : W) :
  validate_instance_id inst = Ok () → Inv st → saved_progress inst hash x st → store w = store st.2 →
  wasm_prepare_resume inst hash w = (Ok (Ready st.1 x), MkWorld (store w) (S (steps w))).
Proof.
  intros Hid HI (Hst & Hh & Hpk & Hri) Hw. unfold wasm_prepare_resume. rewrite bind_lift, Hid. cbn [map_err].
  unfold js_call at 1. rewrite (bind_call quiet). cbn. unfold mem_load_snapshot. rewrite Hw.
  unfold stored in Hst. rewrite Hst. cbn. rewrite bool_decide_false by (by intros []).
  destruct HI as ((Hp & _) & _). unfold as_terminal_status. unfold is_in_progress in Hp.
  destruct (state st.1) as [p m l| | | |] eqn:Hs; try done. cbn. rewrite io_bind_run, not_parked_resolved by done.
  cbn. rewrite bind_lift, (wasm_resume_input_eq _ x) by done. cbn. by rewrite <-Hw.
Qed.

(** The state in which a resuming request executes: what was stored, in another world. *)
Lemma elsewhere st (w : W) : store w = store st.2 → Inv st → Inv (st.1, w).
Proof. intros Hw (Hr & Hs & Hp). unfold stored in Hs. rewrite <-Hw in Hs, Hp. by split. Qed.
Lemma clean_elsewhere T st (w : W) : store w = store st.2 → clean inst T st → clean inst T (st.1, w).
Proof. intros Hw Hcl t Ht. specialize (Hcl t Ht). unfold both, stored in *. cbn. by rewrite Hw. Qed.

Lemma ready_completes (wf : WasmWorkflow (F:=F)) o c x s (w w1 : W) :
  wasm_prepare_resume inst (wasm_definition_hash wf) w = (Ok (Ready s x), w1) →
  skips s (wasm_continuation wf) x c x → immediate c = true → forks_joined c = true →
  NoDup (tids (node_ids c)) → evaluates f eq c x o → Inv (s, w1) → clean inst (tids (node_ids c)) (s, w1) →
  ∃ s' w', engine_resume wf inst registry w = (Ok (Status.Completed, Some o), w') ∧
    snapshots (store w') !! inst = Some s' ∧ state s' = Completed o.
Proof.
  intros Hprep Hsk Him Hj Hnd Hev HI Hcl. unfold engine_resume. rewrite io_bind_run, Hprep.
  pose proof (wasm_resume_ok s (wasm_continuation wf) x c x o (s, w1) Hsk (λ _ _ E, E) Him Hj Hnd Hev HI Hcl) as Hd.
  unfold Checkpoint.does in Hd. destruct (exec _ x (s, w1)) as [[r|] [s2 w2]] eqn:Hrun; [|done].
  destruct Hd as (((_ & Hi2 & _) & _) & _ & ->).
  destruct (settle_ok quiet wf registry x s w1 o s2 w2 Hrun) as (s3 & w3 & -> & Hs3 & Hlk).
  cbn in Hi2. rewrite Hi2 in Hlk. by exists s3, w3.
Qed.

Lemma wasm_resume_from_store (wf : WasmWorkflow (F:=F)) o c x st (w : W) :
  validate_instance_id inst = Ok () → immediate c = true → forks_joined c = true →
  at_step inst f (wasm_definition_hash wf) (wasm_continuation wf) o c x st → store w = store st.2 →
  ∃ s' w', engine_resume wf inst registry w = (Ok (Status.Completed, Some o), w') ∧
    snapshots (store w') !! inst = Some s' ∧ state s' = Completed o.
Proof.
  intros Hid Him Hj (HI & Hsp & Hsk & Hev & _ & Hnd & Hcl) Hw.
  by eapply ready_completes; [by apply wasm_prepare_ready|..|apply elsewhere|apply clean_elsewhere].
Qed.

(** *** Delays *)

(** The request runs the tasks, then what they lead to. *)
Lemma wasm_steps_run c x st c' x' st' : wasm_steps c x st c' x' st' → exec c x st = exec c' x' st'.
Proof.
  induction 1 as [|id fn t rp v p tg n i st y st1 c' i' st' Hrun _ IH]; [done|].
  cbn [wasm_run]. unfold mbind, io_bind. by rewrite Hrun.
Qed.

(** The snapshot of a run parked at a delay. *)
Definition wasm_parked (t1 t2 t3 : DateTime) (id : string) (wake : DateTime) (n : WorkflowContinuation F) (x : Bytes)
    (s : WorkflowSnapshot) : WorkflowSnapshot :=
  mark_task_completed t3 (TaskId_from id) x
    (update_position t2 (AtDelay (TaskId_from id) t1 wake (Some (TaskId_from (first_task_id n)))) s).

Lemma wasm_park id d wake (n : WorkflowContinuation F) x st :
  Inv st → absent (TaskId_from id) st.1 →
  checked_add_signed (clock (2 + steps st.2)) (default 0 (duration_from_std d)) = Some wake →
  ∃ t1 t2 t3 st1, exec (Delay id d (Some n)) x st = (Err (Rt (RWorkflow (WF.Waiting wake))), st1) ∧
    st1.1 = wasm_parked t1 t2 t3 id wake n x st.1 ∧ stored inst st1 = Some st1.1 ∧ Inv st1 ∧
    frame inst [TaskId_from id] [] st st1.
Proof.
  intros HI Ha Hw. destruct (HI) as ((Hp & Hi & Hdl) & Hs & Hc & Hpa).
  cbn [wasm_run]. unfold handle_delay, wasm_guards, snap, run, wasm_call, run, io_map_err, call, mbind, io_bind. cbn.
  rewrite Hi, !quiet. unfold mem_check_and_cancel. rewrite Hc. cbn. rewrite quiet.
  unfold mem_check_and_pause. rewrite Hpa. cbn. unfold absent in Ha. rewrite Ha.
  unfold delay_wake, now, run, read_clock, mbind, io_bind. cbn.
  unfold add_or_panic, lift_result. cbn in Hw. rewrite Hw. cbn.
  unfold modify_now, modify, now, run, read_clock, mbind, io_bind. cbn.
  set (s1 := mark_task_completed _ _ _ _). do 3 eexists.
  assert (Hr1 : running inst s1).
  { subst s1. unfold running, mark_task_completed, update_position. cbn.
    unfold is_in_progress in Hp. by destruct (state st.1). }
  erewrite checkpoint_follows by (apply (save_eq quiet inst); exact Hr1). cbn. eexists. split; [reflexivity|]. cbn.
  split; [unfold wasm_parked; reflexivity|].
  assert (Hst : ∀ (s : WorkflowSnapshot) m k, stored inst (s, MkWorld (with_snapshots (<[inst := s1]> m) (store st.2)) k) = Some s1)
    by (intros; apply lookup_insert_eq).
  split; [apply Hst|]. split.
  - split; [done|]. split; [|done]. exists s1. by split; [apply Hst|].
  - assert (Hab : ∀ t, t ∉ [TaskId_from id] → absent t st.1 → absent t s1).
    { intros t Ht. subst s1. unfold absent, get_task_result, mark_task_completed, update_position. cbn.
      unfold is_in_progress in Hp. destruct (state st.1) as [p m l| | | |]; try done. cbn.
      rewrite lookup_insert_ne; [done|]. intros <-. apply Ht, list_elem_of_here. }
    assert (Hid : ∀ t, idle t st.1 → idle t s1).
    { intros t. subst s1. unfold idle, mark_task_completed, update_position. cbn. by destruct (state st.1). }
    split; intros t Ht [Hx Hy]; (split; [cbn; auto|]); intros bs; rewrite Hst; intros [= <-]; auto.
Qed.

Lemma wasm_parked_state t1 t2 t3 id wake n x s : running inst s →
  ∃ m, state (wasm_parked t1 t2 t3 id wake n x s) =
      InProgress (AtDelay (TaskId_from id) t1 wake (Some (TaskId_from (first_task_id n))))
        (<[TaskId_from id := MkTaskResult (TaskId_from id) x]> m) (Some (TaskId_from id)) ∧
    (∀ t, get_task_result t s = m !! t) ∧
    snapshot_definition_hash (wasm_parked t1 t2 t3 id wake n x s) = snapshot_definition_hash s.
Proof.
  intros (Hp & _ & _). unfold wasm_parked, mark_task_completed, update_position, get_task_result.
  unfold is_in_progress in Hp. destruct (state s) as [p m l| | | |] eqn:Hs; try done. cbn. by exists m.
Qed.

(** A [resume] of the parked instance: too early, or on to what follows the delay. *)
Lemma wasm_prepare_parked hash t1 wake nid m t x s (w : W) :
  validate_instance_id inst = Ok () → snapshots (store w) !! inst = Some s → running inst s →
  snapshot_definition_hash s = hash →
  state s = InProgress (AtDelay t t1 wake (Some nid)) (<[t := MkTaskResult t x]> m) (Some t) →
  pending (store w) inst Cancel = None → pending (store w) inst Pause = None →
  wasm_prepare_resume inst hash w =
  if bool_decide (clock (3 + steps w) < wake)
  then (Ok (NotReady (Status.Waiting wake t)), MkWorld (store w) (4 + steps w))
  else
    let s' := update_position (clock (4 + steps w)) (AtTask nid) s in
    (Ok (Ready s' x), MkWorld (with_snapshots (<[inst := s']> (snapshots (store w))) (store w)) (6 + steps w)).
Proof.
  intros Hid Hs (_ & Hi & _) Hh Hst Hc Hp. unfold wasm_prepare_resume. rewrite bind_lift, Hid. cbn [map_err].
  unfold js_call at 1. rewrite (bind_call quiet). cbn. unfold mem_load_snapshot. rewrite Hs. cbn.
  rewrite bool_decide_false by (by intros []). unfold as_terminal_status. rewrite Hst. cbn.
  rewrite io_bind_run. unfold resolve_parked. rewrite Hst. rewrite io_bind_run. unfold check_cancel_pause, js_call.
  rewrite (bind_call quiet). cbn. unfold mem_check_and_cancel. rewrite Hc.
  rewrite (bind_call quiet). cbn. unfold mem_check_and_pause. rewrite Hp. cbn. unfold js_now at 1. rewrite bind_clock.
  cbn. case_bool_decide; cbn; [done|].
  unfold pass_park, js_now, js_call. rewrite bind_clock. rewrite (bind_call quiet). cbn -[wasm_resume_input].
  unfold mem_save_snapshot, update_position. rewrite Hst. cbn -[wasm_resume_input]. rewrite bind_lift, Hi.
  unfold wasm_resume_input, get_last_task_output. cbn. rewrite bool_decide_false by apply insert_non_empty.
  by rewrite lookup_insert_eq.
Qed.

Lemma wasm_delay_cycle (wf : WasmWorkflow (F:=F)) o id d wake n x st :
  let hash := wasm_definition_hash wf in let c0 := wasm_continuation wf in
  validate_instance_id inst = Ok () → immediate n = true → forks_joined n = true →
  at_step inst f hash c0 o (Delay id d (Some n)) x st →
  checked_add_signed (clock (2 + steps st.2)) (default 0 (duration_from_std d)) = Some wake →
  ∃ st1, exec (Delay id d (Some n)) x st = (Err (Rt (RWorkflow (WF.Waiting wake))), st1) ∧
    (∃ t m l nid, state st1.1 = InProgress (AtDelay (TaskId_from id) t wake nid) m l) ∧
    ∀ w, store w = store st1.2 →
      (clock (3 + steps w) < wake →
        engine_resume wf inst registry w =
        (Ok (Status.Waiting wake (TaskId_from id), None), MkWorld (store w) (4 + steps w))) ∧
      (wake ≤ clock (3 + steps w) →
        ∃ s' w', engine_resume wf inst registry w = (Ok (Status.Completed, Some o), w') ∧
          snapshots (store w') !! inst = Some s' ∧ state s' = Completed o).
Proof.
  intros hash c0 Hid Him Hj (HI & (Hst & Hh & _ & _) & Hsk & Hev & _ & Hnd & Hcl) Hw.
  cbn [node_ids] in Hnd, Hcl. pose proof (clean_head _ _ _ _ Hcl) as Ha. apply clean_tail in Hcl.
  rewrite tids_cons in Hnd. apply NoDup_cons in Hnd as [Hnin Hnd].
  destruct (wasm_park id d wake n x st HI Ha Hw) as (t1 & t2 & t3 & st1 & Hrun & He1 & Hs1 & HI1 & Hf1).
  destruct (HI) as (Hr & _). destruct (wasm_parked_state t1 t2 t3 id wake n x st.1 Hr) as (m & Hm & Hres & Hh1).
  rewrite <-He1 in Hm, Hh1. rewrite Hh in Hh1.
  exists st1. split; [exact Hrun|]. split; [do 4 eexists; exact Hm|]. intros w Hstore.
  destruct (HI1) as (Hr1 & _ & Hc1 & Hp1). unfold stored in Hs1. rewrite <-Hstore in Hs1, Hc1, Hp1.
  pose proof (wasm_prepare_parked hash _ _ _ _ _ _ _ w Hid Hs1 Hr1 Hh1 Hm Hc1 Hp1) as Hprep.
  split; intros Hclock.
  { rewrite bool_decide_true in Hprep by done. unfold engine_resume. rewrite io_bind_run. fold hash. by rewrite Hprep. }
  rewrite bool_decide_false in Hprep by lia. cbn zeta in Hprep.
  destruct (woken_state inst (clock (4 + steps w)) _ _ _ _ _ _ _ (store w) (6 + steps w) Hr1 Hm Hc1 Hp1)
    as (HI2 & Hst2 & _ & Hsame & Hloops). apply evaluates_delay, continues_inv in Hev.
  assert (Hdel : get_task_result (TaskId_from id) st1.1 = Some (MkTaskResult (TaskId_from id) x))
    by (unfold get_task_result; rewrite Hm; apply lookup_insert_eq).
  assert (Hother : ∀ t, t ≠ TaskId_from id → get_task_result t st1.1 = get_task_result t st.1)
    by (intros t Ht; rewrite Hres; unfold get_task_result; rewrite Hm; by rewrite lookup_insert_ne).
  destruct (woken_ready inst c0 id d n x st st1 _ _ Hnin Ha Hcl Hsk Hf1 Hdel Hother Hst2 Hsame Hloops) as [Hsk' Hcl'].
  by eapply ready_completes.
Qed.
End Recovery.

(** A fresh start is a step boundary. *)
Lemma wasm_fresh_at_step `{JsEngine, Sha256, Chrono, Display} {F : Type} `{Environment InMemoryBackend}
    (quiet : ∀ n b, others n b = b) (f : string → Bytes → result BoxError Bytes) id hash input policy
    (c : WorkflowContinuation F) o (w : World InMemoryBackend) s w1 :
  find_duplicate_id c = None → collision_free (node_ids c) → paced c = true →
  validate_instance_id id = Ok () → snapshots (store w) !! id = None →
  pending (store w) id Cancel = None → pending (store w) id Pause = None → evaluates f eq c input o →
  persistence_prepare_run id hash input (first_task_hint c) policy w = (Ok (Fresh s), w1) →
  at_step id f hash c o c input (s, w1).
Proof.
  intros Hd%no_duplicate_nodup Hcf Hp Hid Hs Hc Hpa He.
  rewrite (persistence_fresh quiet id hash input (first_task_hint c) policy w Hid Hs). intros [= <- <-].
  set (s := first_snapshot _ _ _ _ _). set (w1 := MkWorld _ _).
  assert (Hst : stored id (s, w1) = Some s) by apply lookup_insert_eq.
  split; [split; [done|]; split; [by exists s|done]|]. split; [done|]. split; [constructor|].
  split; [done|]. split; [done|]. split; [by apply tids_nodup|].
  intros t _. split; (split; [done|]); rewrite Hst; by intros ? [= <-].
Qed.

(** ** Properties *)

Section Properties.
Context `{JsEngine, Sha256, Chrono, Display} {F : Type} `{Environment InMemoryBackend}.
Context (registry : JsValue) (f : string → Bytes → result BoxError Bytes).
Context (self : WasmDurableEngine) (wf : WasmWorkflow (F:=F)) (id : string) (input : JsValue) (bytes o : Bytes).
Context (w w1 : World InMemoryBackend) (s : WorkflowSnapshot).
Let c := wasm_continuation wf.

(** A fresh instance of a workflow with distinct ids, on a backend nobody else touches,
    its functions answering [f]. *)
Definition fresh_request : Prop :=
  (∀ n b, others n b = b) ∧ (∀ n id i, ok (call_js_task registry n id i) = ok (f id i)) ∧
  (∀ v s, stringify_with_replacer_func binary_replacer v = Ok s → text (as_bytes s)) ∧
  find_duplicate_id c = None ∧ collision_free (node_ids c) ∧ paced c = true ∧
  validate_instance_id id = Ok () ∧ snapshots (store w) !! id = None ∧
  pending (store w) id Cancel = None ∧ pending (store w) id Pause = None ∧
  evaluates f eq c bytes o ∧
  persistence_prepare_run id (wasm_definition_hash wf) bytes (first_task_hint c) (wasm_conflict_policy self) w =
    (Ok (Fresh s), w1).

(** Crash recovery on the Cloudflare engine: a request runs any number of tasks of
    a fresh instance and dies; a later [resume] that finds only the stored snapshot
    skips the recorded tasks, runs the others and answers that the workflow
    completed, with the output the workflow means, which it stores. *)
Theorem wasm_crash_recovery (c' : WorkflowContinuation F) (x : Bytes) (st : ExecState) (w2 : World InMemoryBackend) :
  fresh_request → wasm_steps registry c bytes (s, w1) c' x st → immediate c' = true → forks_joined c' = true →
  store w2 = store st.2 →
  ∃ s' w', engine_resume wf id registry w2 = (Ok (Status.Completed, Some o), w') ∧
    snapshots (store w') !! id = Some s' ∧ state s' = Completed o.
Proof.
  intros (quiet & Hf & Hjson & Hd & Hcf & Hp & Hid & Hs & Hc & Hpa & He & Hprep) Hsteps Him Hj Hw.
  pose proof (wasm_fresh_at_step quiet f _ _ _ _ _ _ _ _ _ Hd Hcf Hp Hid Hs Hc Hpa He Hprep) as Hat.
  apply (at_step_wasm quiet id registry f Hf _ _ _ _ _ _ _ _ _ Hsteps) in Hat.
  by apply (wasm_resume_from_store quiet id registry f Hf (encode_text Hjson) wf o c' x st).
Qed.

(** Durable delays on the Cloudflare engine, request by request: a run whose tasks
    lead to a delay is answered "waiting" until the wake time; a [resume] before that
    time answers the same and changes nothing; a [resume] at or after it runs what
    follows the delay and answers that the workflow completed, with its output. *)
Theorem wasm_durable_delay (delay_id : string) (d : Duration) (n : WorkflowContinuation F) (x : Bytes) (st : ExecState)
    (wake : DateTime) :
  fresh_request → encode_js_value input = Ok bytes →
  wasm_steps registry c bytes (s, w1) (Delay delay_id d (Some n)) x st →
  immediate n = true → forks_joined n = true →
  checked_add_signed (clock (2 + steps st.2)) (default 0 (duration_from_std d)) = Some wake →
  ∃ w2, engine_run self wf id input registry w = (Ok (Status.Waiting wake (TaskId_from delay_id), None), w2) ∧
    ∀ w3, store w3 = store w2 →
      (clock (3 + steps w3) < wake →
        engine_resume wf id registry w3 =
        (Ok (Status.Waiting wake (TaskId_from delay_id), None), MkWorld (store w3) (4 + steps w3))) ∧
      (wake ≤ clock (3 + steps w3) →
        ∃ s' w', engine_resume wf id registry w3 = (Ok (Status.Completed, Some o), w') ∧
          snapshots (store w') !! id = Some s' ∧ state s' = Completed o).
Proof.
  intros (quiet & Hf & Hjson & Hd & Hcf & Hp & Hid & Hs & Hc & Hpa & He & Hprep) Henc Hsteps Him Hj Hwake.
  pose proof (wasm_fresh_at_step quiet f _ _ _ _ _ _ _ _ _ Hd Hcf Hp Hid Hs Hc Hpa He Hprep) as Hat.
  apply (at_step_wasm quiet id registry f Hf _ _ _ _ _ _ _ _ _ Hsteps) in Hat.
  destruct (wasm_delay_cycle quiet id registry f Hf (encode_text Hjson) wf o delay_id d wake n x st Hid Him Hj Hat Hwake)
    as (st1 & Hrun & (t & m & l & nid & Hst1) & Hresume).
  exists st1.2. split; [|exact Hresume].
  unfold engine_run. rewrite bind_lift, Henc. cbn [map_err]. rewrite io_bind_run. unfold io_map_err.
  fold c. rewrite Hprep. cbn [map_err]. unfold execute_and_settle. fold c.
  rewrite (wasm_steps_run registry _ _ _ _ _ _ Hsteps), Hrun. destruct st1 as [s1 w2]. cbn in Hst1 |- *. by rewrite Hst1.
Qed.
End Properties.

Module ResumeExample.
Import Toy WorkflowExample Examples DurabilityExample CloudflareExample.

Definition text_in : Bytes := quote ++ as_bytes "in" ++ quote.
Definition text_in_a : Bytes := quote ++ as_bytes "in a" ++ quote.
Definition begin (c : WorkflowContinuation unit) : WorkflowSnapshot * World InMemoryBackend :=
  match persistence_prepare_run "i" hash text_in (first_task_hint c) Conflict.Fail w0 with
  | (Ok (Fresh s), w) => (s, w)
  | (_, w) => (snapshot_new 0 "i" hash, w)
  end.
Definition a_done (n : WorkflowContinuation unit) : ExecState :=
  (handle_task (F:=unit) registry "a" (Some n) text_in (begin (task "a" (Some n)))).2.

Lemma begin_spec c :
  persistence_prepare_run "i" hash text_in (first_task_hint c) Conflict.Fail w0 = (Ok (Fresh (begin c).1), (begin c).2).
Proof.
  unfold begin. rewrite persistence_fresh; [reflexivity|intros; reflexivity|reflexivity|reflexivity].
Qed.

Lemma fresh_example c o :
  find_duplicate_id c = None → bool_decide (collision_free (node_ids c)) = true → paced c = true →
  evaluates answer eq c text_in o →
  fresh_request (H:=js) registry answer engine (js_flow c) "i" text_in o w0 (begin c).2 (begin c).1.
Proof.
  intros Hd Hcf Hp He. split; [done|]. split; [exact answer_ok|]. split; [intros; by eapply stringify_text|].
  split; [done|]. split; [by apply bool_decide_eq_true in Hcf|]. do 6 (split; [done|]). apply begin_spec.
Qed.

Lemma a_steps n : (handle_task (F:=unit) registry "a" (Some n) text_in (begin (task "a" (Some n)))).1 = Ok text_in_a →
  wasm_steps registry (task "a" (Some n)) text_in ((begin (task "a" (Some n))).1, (begin (task "a" (Some n))).2)
    n text_in_a (a_done n).
Proof. intros Ho. rewrite <-surjective_pairing. eapply WasmStepsTask; [apply run_result, Ho|constructor]. Qed.

Lemma wasm_crash_recovery_witness :
  ∃ s' w', engine_resume (H:=js) (js_flow tasks) "i" registry (later_world (a_done (task "b" (Some (task "c" None)))) 100) =
      (Ok (Status.Completed, Some (quote ++ as_bytes "in a b c" ++ quote)), w') ∧
    snapshots (store w') !! "i" = Some s' ∧ state s' = Completed (quote ++ as_bytes "in a b c" ++ quote).
Proof.
  apply (wasm_crash_recovery (H:=js) registry answer engine (js_flow tasks) "i" text_in (quote ++ as_bytes "in a b c" ++ quote)
    w0 (begin tasks).2 (begin tasks).1 (task "b" (Some (task "c" None))) text_in_a (a_done (task "b" (Some (task "c" None))))).
  - apply fresh_example; [vm_compute; reflexivity..|]. apply js_meaning. vm_compute. reflexivity.
  - apply a_steps. vm_compute. reflexivity.
  - reflexivity.
  - reflexivity.
  - apply later_store.
Defined.

Definition waking : DateTime := clock (2 + steps (a_done (Delay "wait" (from_secs 60) (Some (task "b" None)))).2) + from_secs 60.
Definition delayed_output : Bytes := quote ++ as_bytes "in a b" ++ quote.

Lemma wasm_durable_delay_witness :
  ∃ w2, engine_run (H:=js) engine (js_flow delayed) "i" (Str "in") registry w0 =
      (Ok (Status.Waiting waking (TaskId_from "wait"), None), w2) ∧
    ∀ w3, store w3 = store w2 →
      (clock (3 + steps w3) < waking →
        engine_resume (H:=js) (js_flow delayed) "i" registry w3 =
        (Ok (Status.Waiting waking (TaskId_from "wait"), None), MkWorld (store w3) (4 + steps w3))) ∧
      (waking ≤ clock (3 + steps w3) →
        ∃ s' w', engine_resume (H:=js) (js_flow delayed) "i" registry w3 = (Ok (Status.Completed, Some delayed_output), w') ∧
          snapshots (store w') !! "i" = Some s' ∧ state s' = Completed delayed_output).
Proof.
  apply (wasm_durable_delay (H:=js) registry answer engine (js_flow delayed) "i" (Str "in") text_in delayed_output
    w0 (begin delayed).2 (begin delayed).1 "wait" (from_secs 60) (task "b" None) text_in_a
    (a_done (Delay "wait" (from_secs 60) (Some (task "b" None)))) waking).
  - apply fresh_example; [vm_compute; reflexivity..|]. apply js_meaning. vm_compute. reflexivity.
  - vm_compute. reflexivity.
  - apply a_steps. vm_compute. reflexivity.
  - reflexivity.
  - reflexivity.
  - vm_compute. reflexivity.
Defined.

(** [fork [a → wait → b; c] → j]. *)
Definition parked_fork : WorkflowContinuation unit :=
  Fork "fork" [task "a" (Some (Delay "wait" (from_secs 60) (Some (task "b" None)))); task "c" None] (Some (task "j" None)).
Definition first_request := engine_run (H:=js) engine (js_flow parked_fork) "i" (Str "in") registry w0.
(** A minute and more later. *)
Definition second_request :=
  engine_resume (H:=js) (js_flow parked_fork) "i" registry (MkWorld (store first_request.2) (100 + steps first_request.2)).
Definition joined (branch_a : string) : Js := Obj [("a", Str branch_a); ("c", Str "in c"); ("j", Str "ok")].

Definition meant : Bytes := default [] (ok (execute_continuation_sync (H2:=ExecExample.backon) (H3:=answer_callback) parked_fork text_in 0%nat).1).

(** A parked fork branch is not taken up again where it parked: [handle_fork] looks its
    result up under the id of its first task, which is recorded, so the next [resume]
    takes the first task's output for the branch's and the rest of the branch ([b])
    never runs; the workflow is reported completed with an output that is not the
    one it means. *)
Theorem parked_branch_skips_its_rest :
  match first_request.1 with Ok (Status.Waiting _ _, None) => true | _ => false end = true ∧
  match second_request.1 with Ok (Status.Completed, Some out) => decode_to_js_value (H:=js) out | _ => Err Undefined end =
    Ok (joined "in a") ∧
  ∀ out, evaluates answer eq parked_fork text_in out → decode_to_js_value (H:=js) out = Ok (joined "in a b").
Proof.
  split; [vm_compute; reflexivity|]. split; [vm_compute; reflexivity|]. intros out He.
  rewrite (js_meaning_unique parked_fork text_in meant out); [vm_compute; reflexivity|vm_compute; reflexivity|done].
Qed.
End ResumeExample.
