(* ===== verification/Stepper.v ===== *)
(** * The continuation steppers of the JavaScript bindings
    ([sayiir-cloudflare/src/engine.rs], [sayiir-node/src/engine.rs])

    A stepper compiles a continuation tree to a flat plan once, then hands one task at
    a time to JavaScript: [current] says which task to call on which input,
    [submit_result] takes its output and runs the plan up to the next task.  Branches
    and loops splice their steps into the plan while it runs.

    The two bindings have the same machine over different codecs: the machine is
    written against an interface, [StepperCodec], with an instance for each.  Vectors
    used as stacks are lists with the top in front. *)

From S2P Require Import Prelude Hash32 SnapshotFormat Task Workflow Serializable Snapshot Backend Runtime SyncExec Cloudflare.

(** What the machine uses of its binding. *)
Class StepperCodec : Type := {
  StepError : Type;
  step_error : string → StepError;
  unsupported_signal : string → StepError;       (* [AwaitSignal] in a plan *)
  StepValue : Type;                              (* what JavaScript submits *)
  encode_value : StepValue → result StepError Bytes;
  decode_key : Bytes → result StepError string;
  wrap_envelope : string → Bytes → result StepError Bytes;
  collect_results : list (string * Bytes) → result StepError Bytes;
  loop_outcome : Bytes → result StepError (string * Bytes)
}.

Inductive PlannedStep : Type :=
| TaskStep (id : string)
| RestoreForkInput
| SaveBranchResult (branch_id : string)
| CollectBranches
| SaveBranchInput
| BranchDispatch (branch_id : string) (branches : list (string * list PlannedStep)) (dflt : option (list PlannedStep))
| WrapBranchEnvelope (key : string)
| LoopStart (loop_id : string) (body_steps : list PlannedStep) (max_iterations : Z) (on_max : MaxIterationsPolicy)
| LoopCheck (loop_id : string) (body_steps : list PlannedStep) (max_iterations : Z) (on_max : MaxIterationsPolicy)
    (iteration : Z).

(** [flatten]: the plan of a tree. *)
Section Flatten.
Context `{StepperCodec} {F : Type}.

Definition traverse {A B E} (g : A → result E B) : list A → result E (list B) :=
  fix go l := match l with
    | [] => Ok []
    | a :: l => b ← g a; bs ← go l; Ok (b :: bs)
    end.

(** The steps of one fork branch: on the fork's input, its result saved. *)
Definition branch_steps (branch_id : string) (steps : list PlannedStep) : list PlannedStep :=
  [RestoreForkInput] ++ steps ++ [SaveBranchResult branch_id].

Fixpoint flatten_steps (cont : WorkflowContinuation F) : result StepError (list PlannedStep) :=
  let opt (next : option (WorkflowContinuation F)) : result StepError (list PlannedStep) :=
    match next with Some n => flatten_steps n | None => Ok [] end in
  match cont with
  | Task id _ _ _ _ _ _ next => rest ← opt next; Ok (TaskStep id :: rest)
  | Fork _ branches join =>
      bs ← traverse (λ b, steps ← flatten_steps b; Ok (branch_steps (first_task_id b) steps)) branches;
      rest ← opt join;
      Ok (concat bs ++ [CollectBranches] ++ rest)
  | Delay _ _ next => opt next
  | AwaitSignal id _ _ _ => Err (unsupported_signal id)
  | Branch id _ branches dflt next =>
      branch_map ← traverse (λ kb, steps ← flatten_steps kb.2; Ok (kb.1, steps)) branches;
      default_steps ← match dflt with Some d => ds ← flatten_steps d; Ok (Some ds) | None => Ok None end;
      rest ← opt next;
      Ok ([SaveBranchInput; TaskStep (key_fn_id id); BranchDispatch id branch_map default_steps] ++ rest)
  | Loop id body max_iterations on_max next =>
      body_steps ← flatten_steps body;
      rest ← opt next;
      Ok (LoopStart id body_steps max_iterations on_max :: rest)
  | ChildWorkflow _ child next => steps ← flatten_steps child; rest ← opt next; Ok (steps ++ rest)
  end.
End Flatten.

(** ** The machine *)

Record Stepper : Type := MkStepper {
  steps : list PlannedStep;
  pos : nat;
  current_input : Bytes;
  fork_input_stack : list Bytes;
  branch_results_stack : list (list (string * Bytes));
  branch_input_stack : list Bytes
}.

(** [WasmStepResult] ([NapiStepResult]). *)
Record StepResult : Type := MkStepResult {
  kind : string;
  step_task_id : option string;
  input_json : option string;
  output_json : option string
}.
Definition step_task (task_id : string) (input : Bytes) : StepResult :=
  MkStepResult "task" (Some task_id) (ok (Utf8.from_utf8 input)) None.
Definition step_done (output : Bytes) : StepResult :=
  MkStepResult "done" None None (ok (Utf8.from_utf8 output)).

Section Machine.
Context `{StepperCodec}.

(** [pos += 1], with a new current input; [steps.splice(pos + 1.., to_insert)] before it. *)
Definition advance_pos (input : Bytes) (self : Stepper) : Stepper :=
  MkStepper (steps self) (S (pos self)) input (fork_input_stack self) (branch_results_stack self) (branch_input_stack self).
Definition splice (to_insert : list PlannedStep) (self : Stepper) : Stepper :=
  let insert_pos := S (pos self) in
  MkStepper (take insert_pos (steps self) ++ to_insert ++ drop insert_pos (steps self)) (pos self) (current_input self)
    (fork_input_stack self) (branch_results_stack self) (branch_input_stack self).

(** The arms of [skip_non_tasks] for forks and [SaveBranchInput]. *)
Definition restore_fork_input (self : Stepper) : Stepper :=
  match fork_input_stack self with
  | fork_input :: _ => advance_pos fork_input self
  | [] =>
      MkStepper (steps self) (S (pos self)) (current_input self) [current_input self]
        ([] :: branch_results_stack self) (branch_input_stack self)
  end.
Definition save_branch_result (branch_id : string) (self : Stepper) : Stepper :=
  MkStepper (steps self) (S (pos self)) (current_input self) (fork_input_stack self)
    (match branch_results_stack self with
     | results :: rest => (results ++ [(branch_id, current_input self)]) :: rest
     | [] => []
     end) (branch_input_stack self).
Definition collect_branches (self : Stepper) : result StepError Stepper :=
  input ← collect_results (default [] (head (branch_results_stack self)));
  Ok (MkStepper (steps self) (S (pos self)) input (tail (fork_input_stack self)) (tail (branch_results_stack self))
    (branch_input_stack self)).
Definition save_branch_input (self : Stepper) : Stepper :=
  MkStepper (steps self) (S (pos self)) (current_input self) (fork_input_stack self) (branch_results_stack self)
    (current_input self :: branch_input_stack self).

(** [handle_branch_step]. *)
Fixpoint get_steps (key : string) (branches : list (string * list PlannedStep)) : option (list PlannedStep) :=
  match branches with
  | [] => None
  | (k, s) :: branches => if bool_decide (k = key) then Some s else get_steps key branches
  end.
Definition handle_branch_step (step : PlannedStep) (self : Stepper) : result StepError Stepper :=
  match step with
  | BranchDispatch branch_id branches dflt =>
      key ← decode_key (current_input self);
      chosen ← ok_or (match get_steps key branches with Some s => Some s | None => dflt end)
        (step_error ("Branch node '" +:+ branch_id +:+ "': no branch matches key '" +:+ key +:+ "'"));
      let self :=
        match branch_input_stack self with
        | saved :: rest => MkStepper (steps self) (pos self) saved (fork_input_stack self) (branch_results_stack self) rest
        | [] => self
        end in
      let self := splice (chosen ++ [WrapBranchEnvelope key]) self in
      Ok (advance_pos (current_input self) self)
  | WrapBranchEnvelope key =>
      input ← wrap_envelope key (current_input self);
      Ok (advance_pos input self)
  | _ => Ok self
  end.

(** [handle_loop_step]. *)
Definition handle_loop_step (step : PlannedStep) (self : Stepper) : result StepError Stepper :=
  match step with
  | LoopStart loop_id body_steps max_iterations on_max =>
      let check := LoopCheck loop_id body_steps max_iterations on_max 0 in
      Ok (advance_pos (current_input self) (splice (body_steps ++ [check]) self))
  | LoopCheck loop_id body_steps max_iterations on_max iteration =>
      tv ← loop_outcome (current_input self);
      let '(tag, inner_bytes) := tv in
      if bool_decide (tag = "done") then Ok (advance_pos inner_bytes self)
      else if bool_decide (tag = "again") then
        let next_iter := iteration + 1 in
        if bool_decide (max_iterations ≤ next_iter) then
          match on_max with
          | Fail => Err (step_error ("Loop '" +:+ loop_id +:+ "' exceeded max iterations (" +:+ u_to_string max_iterations +:+ ")"))
          | ExitWithLast => Ok (advance_pos inner_bytes self)
          end
        else
          let check := LoopCheck loop_id body_steps max_iterations on_max next_iter in
          Ok (advance_pos inner_bytes (splice (body_steps ++ [check]) self))
      else Err (step_error ("Unknown LoopResult tag: '" +:+ tag +:+ "'"))
  | _ => Ok self
  end.

(** One turn of the [while] of [skip_non_tasks]: [None] when it stops. *)
Definition skip_once (self : Stepper) : result StepError (option Stepper) :=
  match steps self !! pos self with
  | None | Some (TaskStep _) => Ok None
  | Some RestoreForkInput => Ok (Some (restore_fork_input self))
  | Some (SaveBranchResult branch_id) => Ok (Some (save_branch_result branch_id self))
  | Some CollectBranches => Some <$> collect_branches self
  | Some SaveBranchInput => Ok (Some (save_branch_input self))
  | Some (BranchDispatch _ _ _ as step) | Some (WrapBranchEnvelope _ as step) => Some <$> handle_branch_step step self
  | Some (LoopStart _ _ _ _ as step) | Some (LoopCheck _ _ _ _ _ as step) => Some <$> handle_loop_step step self
  end.
Fixpoint skip_loop (fuel : nat) (self : Stepper) : option (result StepError Stepper) :=
  match fuel with
  | O => None
  | S fuel =>
      match skip_once self with
      | Ok None => Some (Ok self)
      | Ok (Some self) => skip_loop fuel self
      | Err e => Some (Err e)
      end
  end.

(** How many steps a plan can take: tasks, bookkeeping, the branches and iterations it may
    splice in. *)
Fixpoint weight (step : PlannedStep) : nat :=
  let plan := fix plan l := match l with [] => 0%nat | s :: l => (weight s + plan l)%nat end in
  let branches := fix branches l := match l with [] => 0%nat | (_, p) :: l => (plan p + branches l)%nat end in
  match step with
  | TaskStep _ | RestoreForkInput | SaveBranchResult _ | CollectBranches | SaveBranchInput | WrapBranchEnvelope _ => 1%nat
  | BranchDispatch _ bs dflt => (2 + branches bs + match dflt with Some p => plan p | None => 0 end)%nat
  | LoopStart _ body max_iterations _ => (2 + plan body + Z.to_nat (max_iterations - 1) * (1 + plan body))%nat
  | LoopCheck _ body max_iterations _ iteration => (1 + Z.to_nat (max_iterations - 1 - iteration) * (1 + plan body))%nat
  end.
Definition plan_weight (plan : list PlannedStep) : nat := sum_list_with weight plan.
Definition remaining (self : Stepper) : nat := plan_weight (drop (pos self) (steps self)).

(** [skip_non_tasks]; the fuel suffices ([skip_non_tasks_terminates]). *)
Definition skip_non_tasks (self : Stepper) : result StepError Stepper :=
  default (Ok self) (skip_loop (S (remaining self)) self).

(** [new], [current], [submit_result]. *)
Definition stepper_new {F} (continuation : WorkflowContinuation F) (input : StepValue) : result StepError Stepper :=
  input_bytes ← encode_value input;
  plan ← flatten_steps continuation;
  skip_non_tasks (MkStepper plan 0 input_bytes [] [] []).
Definition current_step (self : Stepper) : StepResult :=
  match steps self !! pos self with
  | Some (TaskStep id) => step_task id (current_input self)
  | _ => step_done (current_input self)
  end.
Definition submit_result (output : StepValue) (self : Stepper) : result StepError (StepResult * Stepper) :=
  output_bytes ← encode_value output;
  self ← skip_non_tasks (advance_pos output_bytes self);
  Ok (current_step self, self).
End Machine.

(** ** The bindings *)

(** The Worker binding: values and codec of [Cloudflare.v]. *)
#[export] Instance wasm_stepper `{JsEngine} : StepperCodec := {|
  StepError := JsValue;
  step_error := to_js_error;
  unsupported_signal id := to_js_error ("AwaitSignal '" +:+ id +:+
    "' not supported in the simple stepper. Use the durable engine instead.");
  StepValue := JsValue;
  encode_value := encode_js_value;
  decode_key := decode_json_string;
  wrap_envelope := js_branch_envelope;
  collect_results := js_named_results;
  loop_outcome := decode_loop_result
|}.

(** ** The caller ([runWorkflow] of [sayiir-nodejs/src/executor.ts])

    Call the task of the step on its input, submit the output, until the step is not a
    task.  [call_task] is the JavaScript side: the registry, the task and the parsing
    of its input. *)
Section Caller.
Context `{StepperCodec}.
Context (call_task : string → option string → result StepError StepValue).

Fixpoint drive (fuel : nat) (self : Stepper) : option (result StepError StepResult) :=
  let step := current_step self in
  match fuel with
  | O => None
  | S fuel =>
      if bool_decide (kind step = "task") then
        match output ← call_task (default EmptyString (step_task_id step)) (input_json step); submit_result output self with
        | Ok (_, self) => drive fuel self
        | Err e => Some (Err e)
        end
      else Some (Ok step)
  end.
Definition run_workflow {F} (continuation : WorkflowContinuation F) (input : StepValue) : result StepError StepResult :=
  self ← stepper_new continuation input;
  default (Ok (current_step self)) (drive (S (remaining self)) self).
End Caller.
