(* ===== verification/StepperProps.v ===== *)
(** * The steppers: termination, and compilation is correct

    The machine of [Stepper.v] always stops between two tasks and in the end; on plans
    of trees whose forks are not nested it computes what the tree means. *)

From S2P Require Import Prelude Hash32 SnapshotFormat Task Workflow Serializable Snapshot Backend Runtime SyncExec Cloudflare Stepper.

#[local] Arguments remaining : simpl never.
#[local] Arguments skip_non_tasks : simpl never.
#[local] Arguments current_step : simpl never.
#[local] Arguments submit_result : simpl never.

(** ** Every turn uses up weight *)

Lemma plan_weight_app p q : plan_weight (p ++ q) = (plan_weight p + plan_weight q)%nat.
Proof. apply sum_list_with_app. Qed.
Lemma plan_weight_cons s p : plan_weight (s :: p) = (weight s + plan_weight p)%nat.
Proof. reflexivity. Qed.

(** The nested sums of [weight] are plan weights. *)
Lemma weight_dispatch id bs d :
  weight (BranchDispatch id bs d) =
  (2 + sum_list_with (λ kb, plan_weight kb.2) bs + match d with Some p => plan_weight p | None => 0 end)%nat.
Proof.
  cbn. do 2 f_equal. f_equal. induction bs as [|[k p] bs IH]; [done|]. cbn. by rewrite IH.
Qed.
Lemma weight_loop_start id body max pol :
  weight (LoopStart id body max pol) = (2 + plan_weight body + Z.to_nat (max - 1) * (1 + plan_weight body))%nat.
Proof. reflexivity. Qed.
Lemma weight_loop_check id body max pol k :
  weight (LoopCheck id body max pol k) = (1 + Z.to_nat (max - 1 - k) * (1 + plan_weight body))%nat.
Proof. reflexivity. Qed.
Lemma weight_pos s : (0 < weight s)%nat.
Proof. destruct s; apply Nat.lt_0_succ. Qed.

Lemma get_steps_weight key bs p : get_steps key bs = Some p → (plan_weight p ≤ sum_list_with (λ kb, plan_weight kb.2) bs)%nat.
Proof.
  induction bs as [|[k q] bs IH]; [done|]. cbn [get_steps sum_list_with snd].
  case_bool_decide; [intros [= ->]; lia|]. intros Hp%IH. lia.
Qed.

Section Termination.
Context `{StepperCodec}.

Lemma drop_at (self : Stepper) s : steps self !! pos self = Some s →
  drop (pos self) (steps self) = s :: drop (S (pos self)) (steps self).
Proof. intros Hs. by apply drop_S. Qed.

Lemma remaining_at (self : Stepper) s : steps self !! pos self = Some s →
  remaining self = (weight s + plan_weight (drop (S (pos self)) (steps self)))%nat.
Proof. intros Hs. unfold remaining. by rewrite (drop_at _ s Hs). Qed.

Lemma remaining_next self self' : steps self' = steps self → pos self' = S (pos self) →
  remaining self' = plan_weight (drop (S (pos self)) (steps self)).
Proof. unfold remaining. by intros -> ->. Qed.
Lemma remaining_advance i self : remaining (advance_pos i self) = plan_weight (drop (S (pos self)) (steps self)).
Proof. reflexivity. Qed.

Lemma remaining_splice i ins self s : steps self !! pos self = Some s →
  remaining (advance_pos i (splice ins self)) = (plan_weight ins + plan_weight (drop (S (pos self)) (steps self)))%nat.
Proof.
  intros Hs%lookup_lt_Some. unfold remaining, advance_pos, splice. cbn [steps pos].
  rewrite drop_app_length', plan_weight_app; [done|]. rewrite length_take. lia.
Qed.

Lemma skip_once_weight self self' : skip_once self = Ok (Some self') → (remaining self' < remaining self)%nat.
Proof.
  unfold skip_once. destruct (steps self !! pos self) as [s|] eqn:Hs; [|done]. rewrite (remaining_at _ s Hs).
  pose proof (weight_pos s). remember (weight s) as wt eqn:Hwt. destruct s as [| | | | |id bs d|key|id body max pol|id body max pol k]; [done|..].
  - intros [= <-]. unfold restore_fork_input. destruct (fork_input_stack self); rewrite (remaining_next self) by done; lia.
  - intros [= <-]. rewrite (remaining_next self) by done. lia.
  - unfold collect_branches. destruct (collect_results _); [|done]. intros [= <-]. rewrite (remaining_next self) by done. lia.
  - intros [= <-]. rewrite (remaining_next self) by done. lia.
  - cbn [handle_branch_step]. destruct (decode_key _) as [key|]; [|done]. cbn.
    destruct (match get_steps key bs with Some s => Some s | None => d end) as [chosen|] eqn:Hc; [|done]. cbn.
    intros [= <-].
    assert (Hw : (plan_weight chosen + 2 ≤ wt)%nat).
    { rewrite Hwt, weight_dispatch. destruct (get_steps key bs) as [p|] eqn:Hp.
      - injection Hc as <-. apply get_steps_weight in Hp. lia.
      - subst d. lia. }
    match goal with |- context [splice _ ?s] => set (self1 := s) end.
    assert (Hsame : steps self1 = steps self ∧ pos self1 = pos self) by (subst self1; by destruct (branch_input_stack self)).
    destruct Hsame as [He Hp]. rewrite (remaining_splice _ _ _ (BranchDispatch id bs d)) by (by rewrite He, Hp).
    rewrite He, Hp, plan_weight_app, plan_weight_cons. change (weight (WrapBranchEnvelope key)) with 1%nat. change (plan_weight []) with 0%nat. lia.
  - cbn [handle_branch_step]. destruct (wrap_envelope _ _); [|done]. intros [= <-]. rewrite remaining_advance. lia.
  - cbn [handle_loop_step]. intros [= <-]. rewrite (remaining_splice _ _ _ _ Hs), Hwt, weight_loop_start, plan_weight_app.
    rewrite plan_weight_cons, weight_loop_check. change (plan_weight []) with 0%nat.
    replace (max - 1 - 0) with (max - 1) by lia. lia.
  - cbn [handle_loop_step]. destruct (loop_outcome _) as [[tag inner]|]; [|done]. cbn.
    case_bool_decide; [intros [= <-]; rewrite remaining_advance; lia|].
    case_bool_decide; [|done]. case_bool_decide as Hmax.
    + destruct pol; [done|]. intros [= <-]. rewrite remaining_advance. lia.
    + intros [= <-]. rewrite (remaining_splice _ _ _ _ Hs), Hwt, weight_loop_check, plan_weight_app.
      rewrite plan_weight_cons, weight_loop_check. change (plan_weight []) with 0%nat.
      assert (Z.to_nat (max - 1 - k) = S (Z.to_nat (max - 1 - (k + 1)))) as -> by lia. nia.
Qed.

Lemma skip_loop_stops n self : (remaining self < n)%nat → ∃ r, skip_loop n self = Some r.
Proof.
  revert self. induction n as [|n IH]; intros self Hn; [lia|]. cbn.
  destruct (skip_once self) as [[self'|]|] eqn:Hs; [|by eexists..].
  apply IH. apply skip_once_weight in Hs. lia.
Qed.
Lemma skip_loop_more n m self r : skip_loop n self = Some r → (n ≤ m)%nat → skip_loop m self = Some r.
Proof.
  revert m self. induction n as [|n IH]; intros [|m] self Hr Hn; try done; [lia|]. cbn in *.
  destruct (skip_once self) as [[self'|]|]; [|done..]. apply IH; [done|lia].
Qed.

(** The fuel of [skip_non_tasks] is enough: it is what the [while] computes. *)
Lemma skip_non_tasks_terminates self : skip_loop (S (remaining self)) self = Some (skip_non_tasks self).
Proof. unfold skip_non_tasks. destruct (skip_loop_stops (S (remaining self)) self) as [r ->]; [lia|done]. Qed.
End Termination.

(** ** The caller's loop *)

Section Caller.
Context `{StepperCodec}.
Context (call_task : string → option string → result StepError StepValue).
Abbreviation drive := (drive call_task).

Lemma skip_loop_remaining n self self' : skip_loop n self = Some (Ok self') → (remaining self' ≤ remaining self)%nat.
Proof.
  revert self. induction n as [|n IH]; intros self; [done|]. cbn.
  destruct (skip_once self) as [[self1|]|] eqn:Hs; [|by intros [= ->]|done].
  intros Hn%IH. apply skip_once_weight in Hs. lia.
Qed.
Lemma skip_remaining self self' : skip_non_tasks self = Ok self' → (remaining self' ≤ remaining self)%nat.
Proof. intros Hs. eapply (skip_loop_remaining (S (remaining self))). by rewrite skip_non_tasks_terminates, Hs. Qed.

(** A step of kind ["task"] is a task of the plan. *)
Lemma current_task self : kind (current_step self) = "task" → ∃ id, steps self !! pos self = Some (TaskStep id).
Proof.
  unfold current_step. destruct (steps self !! pos self) as [[id| | | | | | | |]|]; try discriminate. by exists id.
Qed.

Lemma submit_remaining v self r self' : kind (current_step self) = "task" → submit_result v self = Ok (r, self') →
  (remaining self' < remaining self)%nat.
Proof.
  intros [id Hid]%current_task. unfold submit_result. destruct (encode_value v) as [b|]; [|done]. cbn.
  destruct (skip_non_tasks _) as [self1|] eqn:Hs; [|done]. cbn. intros [= <- <-].
  apply skip_remaining in Hs. rewrite remaining_advance in Hs. rewrite (remaining_at _ _ Hid).
  change (weight (TaskStep id)) with 1%nat. lia.
Qed.

Lemma drive_stops n self : (remaining self < n)%nat → ∃ r, drive n self = Some r.
Proof.
  revert self. induction n as [|n IH]; intros self Hn; [lia|]. cbn.
  case_bool_decide as Hk; [|by eexists]. destruct (call_task _ _) as [v|]; [|by eexists]. cbn.
  destruct (submit_result v self) as [[r self']|] eqn:Hs; [|by eexists]. apply IH.
  apply submit_remaining in Hs; [lia|done].
Qed.
Lemma drive_more n m self r : drive n self = Some r → (n ≤ m)%nat → drive m self = Some r.
Proof.
  revert m self. induction n as [|n IH]; intros [|m] self Hr Hn; try done; [lia|].
  cbn in *. case_bool_decide; [|done]. destruct (call_task _ _) as [v|]; [|done].
  cbn in *. destruct (submit_result v self) as [[r' self']|]; [|done]. apply IH; [done|lia].
Qed.

Lemma drive_enough n self r : drive n self = Some r → drive (S (remaining self)) self = Some r.
Proof.
  intros Hr. destruct (drive_stops (S (remaining self)) self) as [r' Hr']; [lia|].
  rewrite Hr'. pose proof (drive_more _ (n + S (remaining self)) _ _ Hr ltac:(lia)).
  pose proof (drive_more _ (n + S (remaining self)) _ _ Hr' ltac:(lia)). congruence.
Qed.

(** Wherever the plan was entered: run to the next task, then drive. *)
Definition drive_from (n : nat) (self : Stepper) : option (result StepError StepResult) :=
  match skip_non_tasks self with Ok self => drive n self | Err e => Some (Err e) end.

Lemma skip_step self self' : skip_once self = Ok (Some self') → skip_non_tasks self = skip_non_tasks self'.
Proof.
  intros Hs. pose proof (skip_non_tasks_terminates self) as Hn. pose proof (skip_non_tasks_terminates self') as Hn'.
  cbn [skip_loop] in Hn. rewrite Hs in Hn. apply skip_once_weight in Hs.
  apply (skip_loop_more _ (remaining self)) in Hn'; [|lia]. congruence.
Qed.
Lemma skip_at_task self id : steps self !! pos self = Some (TaskStep id) → skip_non_tasks self = Ok self.
Proof. intros Hid. unfold skip_non_tasks. cbn [skip_loop]. unfold skip_once. by rewrite Hid. Qed.
Lemma skip_at_end self : steps self !! pos self = None → skip_non_tasks self = Ok self.
Proof. intros He. unfold skip_non_tasks. cbn [skip_loop]. unfold skip_once. by rewrite He. Qed.

(** One step of the machine or of its caller. *)
Inductive moves : Stepper → Stepper → Prop :=
| MoveSkip self self' : skip_once self = Ok (Some self') → moves self self'
| MoveTask self id v b :
    steps self !! pos self = Some (TaskStep id) →
    call_task id (ok (Utf8.from_utf8 (current_input self))) = Ok v → encode_value v = Ok b →
    moves self (advance_pos b self).

Lemma moves_drive self self' n r : rtc moves self self' → drive_from n self' = Some r → ∃ m, drive_from m self = Some r.
Proof.
  induction 1 as [|self self1 self' Hm _ IH]; [by exists n|]. intros (m & Hr)%IH.
  destruct Hm as [self self1 Hs|self id v b Hid Hc Hb].
  - exists m. unfold drive_from in *. by rewrite (skip_step _ _ Hs).
  - exists (S m). unfold drive_from in *. rewrite (skip_at_task _ _ Hid). cbn.
    unfold current_step. rewrite Hid. cbn. rewrite Hc. cbn.
    unfold submit_result. rewrite Hb. cbn. by destruct (skip_non_tasks (advance_pos b self)).
Qed.
End Caller.

(** ** Compilation *)

(** A binding whose envelopes are those of a specification codec, and which reads loop
    results as [decode_any_envelope] does, on the values it produces. *)
Class StepperText `{StepperCodec, SerdeJson, EnvelopeCodec} (good : Bytes → Prop) : Prop := {
  key_agrees b key : decode_string b = Ok key → decode_key b = Ok key;
  wrap_agrees key b e : encode_branch_envelope key b = Ok e → wrap_envelope key b = Ok e ∧ good e;
  collect_agrees rs e : encode_named_results rs = Ok e → collect_results rs = Ok e ∧ good e;
  loop_agrees out d inner : good out → decode_any_envelope out = Ok (d, inner) →
    loop_outcome out = Ok (match d with LoopEnvelope.Again => "again" | LoopEnvelope.Done => "done" end, inner) ∧ good inner
}.

(** Trees a stepper runs as they mean: no signals, forks that have a join, are not inside
    another fork's branch, and whose branches are named after their first task. *)
Fixpoint steppable {F} (in_fork : bool) (c : WorkflowContinuation F) : bool :=
  let opt (o : option (WorkflowContinuation F)) : bool := match o with Some n => steppable in_fork n | None => true end in
  match c with
  | Task _ _ _ _ _ _ _ next | Delay _ _ next => opt next
  | AwaitSignal _ _ _ _ => false
  | Fork _ bs join =>
      negb in_fork && forallb (λ b, bool_decide (first_task_id b = cont_id b) && steppable true b) bs &&
      match join with Some j => steppable in_fork j | None => false end
  | Branch _ _ bs dflt next => forallb (λ kb, steppable in_fork kb.2) bs && opt dflt && opt next
  | Loop _ body _ _ next => steppable in_fork body && opt next
  | ChildWorkflow _ child next => steppable in_fork child && opt next
  end.

Lemma traverse_cons {A B E} (g : A → result E B) a l r : traverse g (a :: l) = Ok r →
  ∃ b bs, g a = Ok b ∧ traverse g l = Ok bs ∧ r = b :: bs.
Proof.
  cbn. destruct (g a) as [b|]; [|done]. cbn. fold (traverse g l). destruct (traverse g l) as [bs|]; [|done].
  cbn. intros [= <-]. by exists b, bs.
Qed.

Lemma traverse_total {A B E} (g : A → result E B) l : Forall (λ a, ∃ b, g a = Ok b) l → ∃ bs, traverse g l = Ok bs.
Proof.
  induction 1 as [|a l [b Hb] _ [bs IH]]; [by exists []|]. exists (b :: bs). cbn. rewrite Hb. cbn.
  fold (traverse g l). by rewrite IH.
Qed.

Section Compile.
Context `{StepperCodec, Sha256, SerdeJson, EnvelopeCodec} (good : Bytes → Prop) `{!StepperText good} {F : Type}.
Context (call_task : string → option string → result StepError StepValue).
Context (f : string → Bytes → result BoxError Bytes).
Context (Hf : ∀ id i, ok (v ← call_task id (ok (Utf8.from_utf8 i)); encode_value v) = ok (f id i)).
Context (Hgood : ∀ id i o, f id i = Ok o → good o).
Abbreviation moves := (moves call_task).

(** The machine in front of [rest]. *)
Definition at_ (pre rest : list PlannedStep) i fi br bi : Stepper := MkStepper (pre ++ rest) (length pre) i fi br bi.

Lemma at_step pre s rest i fi br bi : steps (at_ pre (s :: rest) i fi br bi) !! pos (at_ pre (s :: rest) i fi br bi) = Some s.
Proof. cbn. by rewrite list_lookup_middle. Qed.
Lemma at_next pre s rest i fi br bi :
  MkStepper (pre ++ s :: rest) (S (length pre)) i fi br bi = at_ (pre ++ [s]) rest i fi br bi.
Proof. unfold at_. by rewrite <-app_assoc, length_app, Nat.add_1_r. Qed.
Lemma at_splice pre s ins rest i j fi br bi :
  advance_pos j (splice ins (at_ pre (s :: rest) i fi br bi)) = at_ (pre ++ [s]) (ins ++ rest) j fi br bi.
Proof.
  assert (He : pre ++ s :: rest = (pre ++ [s]) ++ rest) by (by rewrite <-app_assoc).
  assert (Hl : S (length pre) = length (pre ++ [s])) by (rewrite length_app; cbn; lia).
  unfold splice, advance_pos, at_. cbn -[take drop]. by rewrite He, Hl, take_app_length, drop_app_length.
Qed.

(** The run of one node: its plan is used up, the stacks are as before. *)
Definition runs (plan : list PlannedStep) i o fi br bi : Prop :=
  ∀ pre k, ∃ pre', rtc moves (at_ pre (plan ++ k) i fi br bi) (at_ pre' k o fi br bi).

Lemma runs_nil i fi br bi : runs [] i i fi br bi.
Proof. intros pre k. by exists pre. Qed.
Lemma runs_app p q i x o fi br bi : runs p i x fi br bi → runs q x o fi br bi → runs (p ++ q) i o fi br bi.
Proof.
  intros Hp Hq pre k. rewrite <-app_assoc. destruct (Hp pre (q ++ k)) as [pre1 Hr1]. destruct (Hq pre1 k) as [pre2 Hr2].
  exists pre2. by etrans.
Qed.
(** One turn, then the rest. *)
Lemma runs_skip s p pre k i fi br bi st' o fi' br' bi' :
  skip_once (at_ pre (s :: p ++ k) i fi br bi) = Ok (Some st') →
  (∃ pre', rtc moves st' (at_ pre' k o fi' br' bi')) →
  ∃ pre', rtc moves (at_ pre ((s :: p) ++ k) i fi br bi) (at_ pre' k o fi' br' bi').
Proof. intros Hs (pre' & Hr). exists pre'. eapply rtc_l; [by apply MoveSkip|done]. Qed.
Lemma plan_runs_task id i o fi br bi : f id i = Ok o → runs [TaskStep id] i o fi br bi.
Proof.
  intros Ho pre k. specialize (Hf id i). rewrite Ho in Hf.
  destruct (call_task id _) as [v|] eqn:Hv; [|done]. cbn in Hf. destruct (encode_value v) as [b|] eqn:Hb; [|done].
  cbn in Hf. injection Hf as ->. exists (pre ++ [TaskStep id]). apply rtc_once.
  rewrite <-at_next. change (MkStepper _ _ _ _ _ _) with (advance_pos o (at_ pre (TaskStep id :: k) i fi br bi)).
  eapply MoveTask; [apply at_step|done|done].
Qed.

Definition flatten_next (next : option (WorkflowContinuation F)) : result StepError (list PlannedStep) :=
  match next with Some n => flatten_steps n | None => Ok [] end.

Definition flatten_default (dflt : option (WorkflowContinuation F)) : result StepError (option (list PlannedStep)) :=
  match dflt with Some d => ds ← flatten_steps d; Ok (Some ds) | None => Ok None end.

(** A compiled tree computes what it means. *)
Definition compiles (in_fork : bool) (c : WorkflowContinuation F) : Prop :=
  ∀ plan i o fi br bi, flatten_steps c = Ok plan → good i → evaluates f eq c i o →
    (in_fork = false → fi = [] ∧ br = []) → runs plan i o fi br bi ∧ good o.

Lemma opt_compiles in_fork (next : option (WorkflowContinuation F)) plan i o fi br bi :
  opt_all (compiles in_fork) next → flatten_next next = Ok plan →
  good i → continues f eq next i o → (in_fork = false → fi = [] ∧ br = []) → runs plan i o fi br bi ∧ good o.
Proof.
  intros Hn Hp Hi Hc%continues_inv Hs. destruct next as [n|]; [by apply Hn|].
  injection Hp as <-. subst o. split; [apply runs_nil|done].
Qed.

(** Forks: the first branch saves the fork's input, the others restore it. *)
Lemma restore_first pre rest x bi :
  skip_once (at_ pre (RestoreForkInput :: rest) x [] [] bi) =
  Ok (Some (at_ (pre ++ [RestoreForkInput]) rest x [x] [[]] bi)).
Proof. unfold skip_once. rewrite at_step, <-at_next. reflexivity. Qed.
Lemma restore_again pre rest j x br bi :
  skip_once (at_ pre (RestoreForkInput :: rest) j [x] br bi) =
  Ok (Some (at_ (pre ++ [RestoreForkInput]) rest x [x] br bi)).
Proof. unfold skip_once. rewrite at_step, <-at_next. reflexivity. Qed.
Lemma save_result pre name rest y x rs bi :
  skip_once (at_ pre (SaveBranchResult name :: rest) y [x] [rs] bi) =
  Ok (Some (at_ (pre ++ [SaveBranchResult name]) rest y [x] [rs ++ [(name, y)]] bi)).
Proof. unfold skip_once. rewrite at_step, <-at_next. reflexivity. Qed.
Lemma collect_done pre rest y fi br bi e : collect_results (default [] (head br)) = Ok e →
  skip_once (at_ pre (CollectBranches :: rest) y fi br bi) =
  Ok (Some (at_ (pre ++ [CollectBranches]) rest e (tail fi) (tail br) bi)).
Proof. intros He. unfold skip_once. rewrite at_step, <-at_next. unfold collect_branches. cbn. by rewrite He. Qed.

Definition named_branch (b : WorkflowContinuation F) : result StepError (list PlannedStep) :=
  steps ← flatten_steps b; Ok (branch_steps (first_task_id b) steps).

(** A branch, its input restored. *)
Lemma branch_run (b : WorkflowContinuation F) p x o rs bi pre k :
  compiles true b → flatten_steps b = Ok p → good x → evaluates f eq b x o → first_task_id b = cont_id b →
  ∃ pre', rtc moves (at_ pre (p ++ SaveBranchResult (first_task_id b) :: k) x [x] [rs] bi)
    (at_ pre' k o [x] [rs ++ [(cont_id b, o)]] bi).
Proof.
  intros Hb Hp Hx He Hn. destruct (Hb p x o [x] [rs] bi Hp Hx He) as [Hr _]; [done|].
  destruct (Hr pre (SaveBranchResult (first_task_id b) :: k)) as [pre1 Hr1]. eexists. etrans; [exact Hr1|].
  apply rtc_once, MoveSkip. rewrite <-Hn. apply save_result.
Qed.

Lemma plan_branches_run bs plans x rs0 rs bi :
  Forall (compiles true) bs → Forall (λ b, first_task_id b = cont_id b) bs → traverse named_branch bs = Ok plans →
  good x → all_evaluate f eq bs x rs →
  ∀ pre k j, ∃ pre' y, rtc moves (at_ pre (concat plans ++ k) j [x] [rs0] bi) (at_ pre' k y [x] [rs0 ++ rs] bi).
Proof.
  intros Hbs. revert plans rs0 rs. induction Hbs as [|b bs Hb Hbs IH]; intros plans rs0 rs Hn Ht Hx Ha pre k j.
  { injection Ht as <-. apply all_evaluate_nil in Ha as ->. rewrite app_nil_r. by exists pre, j. }
  apply Forall_cons in Hn as [Hnb Hn]. apply all_evaluate_cons in Ha as (o & He & rs1 & Ha & ->).
  apply traverse_cons in Ht as (p' & plans' & Hp' & Ht & ->). unfold named_branch in Hp'.
  destruct (flatten_steps b) as [p|] eqn:Hp; [|done]. injection Hp' as <-. cbn [concat]. unfold branch_steps.
  rewrite <-!app_assoc. cbn [app].
  destruct (branch_run b p x o rs0 bi (pre ++ [RestoreForkInput]) (concat plans' ++ k) Hb Hp Hx He Hnb) as [pre1 Hr1].
  destruct (IH plans' (rs0 ++ [(cont_id b, o)]) rs1 Hn Ht Hx Ha pre1 k o) as (pre2 & y & Hr2).
  exists pre2, y. eapply rtc_l; [apply MoveSkip, restore_again|]. rewrite <-app_assoc in Hr2. by etrans.
Qed.

Lemma fork_runs bs plans x rs e bi :
  Forall (compiles true) bs → Forall (λ b, first_task_id b = cont_id b) bs → traverse named_branch bs = Ok plans →
  good x → all_evaluate f eq bs x rs → collect_results rs = Ok e →
  runs (concat plans ++ [CollectBranches]) x e [] [] bi.
Proof.
  intros Hbs Hn Ht Hx Ha He pre k. rewrite <-app_assoc. cbn [app]. destruct bs as [|b bs].
  { injection Ht as <-. apply all_evaluate_nil in Ha as ->. eexists. by apply rtc_once, MoveSkip, collect_done. }
  apply Forall_cons in Hn as [Hnb Hn], Hbs as [Hb Hbs]. apply all_evaluate_cons in Ha as (o & Hev & rs1 & Ha & ->).
  apply traverse_cons in Ht as (p' & plans' & Hp' & Ht & ->). unfold named_branch in Hp'.
  destruct (flatten_steps b) as [p|] eqn:Hp; [|done]. injection Hp' as <-. cbn [concat]. unfold branch_steps.
  rewrite <-!app_assoc. cbn [app].
  destruct (branch_run b p x o [] bi (pre ++ [RestoreForkInput]) (concat plans' ++ CollectBranches :: k) Hb Hp Hx Hev Hnb)
    as [pre1 Hr1].
  destruct (plan_branches_run bs plans' x [(cont_id b, o)] rs1 bi Hbs Hn Ht Hx Ha pre1 (CollectBranches :: k) o)
    as (pre2 & y & Hr2).
  eexists. eapply rtc_l; [apply MoveSkip, restore_first|]. etrans; [exact Hr1|]. etrans; [exact Hr2|].
  by apply rtc_once, MoveSkip, (collect_done pre2 k y [x] [(cont_id b, o) :: rs1] bi e).
Qed.

(** Branches. *)
Lemma get_steps_choose key bs plans d dp b :
  traverse (λ kb, steps ← flatten_steps kb.2; Ok (kb.1, steps)) bs = Ok plans →
  flatten_default d = Ok dp →
  choose (F:=F) key bs d = Some b →
  ∃ p, match get_steps key plans with Some s => Some s | None => dp end = Some p ∧ flatten_steps b = Ok p ∧
    (b ∈ bs.*2 ∨ d = Some b).
Proof.
  unfold choose. revert plans. induction bs as [|[k c] bs IH]; intros plans Ht Hd Hc.
  - injection Ht as <-. cbn in Hc |- *. subst d. unfold flatten_default in Hd. destruct (flatten_steps b) as [p|] eqn:Hp; [|done].
    injection Hd as <-. eauto.
  - apply traverse_cons in Ht as (kp & plans' & Hp & Ht & ->). cbn in Hp.
    destruct (flatten_steps c) as [p|] eqn:Hpc; [|done]. injection Hp as <-. cbn in Hc |- *. case_bool_decide.
    + injection Hc as <-. exists p. split; [done|]. split; [done|]. left. apply list_elem_of_here.
    + destruct (IH plans' Ht Hd Hc) as (q & Hq & Hb & Hin). exists q. split; [done|]. split; [done|].
      destruct Hin; [left; by apply list_elem_of_further|by right].
Qed.

Lemma branch_runs id (b : WorkflowContinuation F) plans dp p i key kb x e fi br bi in_fork :
  match get_steps key plans with Some s => Some s | None => dp end = Some p → flatten_steps b = Ok p → compiles in_fork b →
  (in_fork = false → fi = [] ∧ br = []) → good i →
  f (key_fn_id id) i = Ok kb → decode_key kb = Ok key → evaluates f eq b i x → wrap_envelope key x = Ok e →
  runs [SaveBranchInput; TaskStep (key_fn_id id); BranchDispatch id plans dp] i e fi br bi.
Proof.
  intros Hp Hb Hc Hs Hi Hk Hkey He Hw pre k. cbn [app].
  destruct (plan_runs_task (key_fn_id id) i kb fi br (i :: bi) Hk (pre ++ [SaveBranchInput]) (BranchDispatch id plans dp :: k)) as [pre1 Hr1].
  destruct (Hc p i x fi br bi Hb Hi He Hs) as [Hr _].
  destruct (Hr (pre1 ++ [BranchDispatch id plans dp]) (WrapBranchEnvelope key :: k)) as [pre2 Hr2].
  exists (pre2 ++ [WrapBranchEnvelope key]). eapply rtc_l.
  { apply MoveSkip. unfold skip_once. rewrite at_step. unfold save_branch_input. cbn. rewrite at_next. reflexivity. }
  etrans; [exact Hr1|]. eapply rtc_l.
  { apply MoveSkip. unfold skip_once. rewrite at_step. cbn -[at_ splice]. change (current_input (at_ _ _ ?z _ _ _)) with z.
    rewrite Hkey. cbn -[at_ splice]. rewrite Hp. cbn -[at_ splice].
    change (branch_input_stack (at_ _ _ _ _ _ (i :: bi))) with (i :: bi). cbn -[at_ splice].
    change (MkStepper _ _ _ _ _ _) with (at_ pre1 (BranchDispatch id plans dp :: k) i fi br bi).
    rewrite at_splice, <-app_assoc. reflexivity. }
  etrans; [exact Hr2|]. apply rtc_once, MoveSkip. unfold skip_once. rewrite at_step. cbn. rewrite Hw. cbn.
  unfold advance_pos. cbn. by rewrite at_next.
Qed.

(** Loops. *)
Lemma check_step pre id pb max pol k K out fi br bi d inner :
  good out → decode_any_envelope out = Ok (d, inner) →
  skip_once (at_ pre (LoopCheck id pb max pol k :: K) out fi br bi) =
  match d with
  | LoopEnvelope.Done => Ok (Some (at_ (pre ++ [LoopCheck id pb max pol k]) K inner fi br bi))
  | LoopEnvelope.Again =>
      if bool_decide (max ≤ k + 1) then
        match pol with
        | Fail => Err (step_error ("Loop '" +:+ id +:+ "' exceeded max iterations (" +:+ u_to_string max +:+ ")"))
        | ExitWithLast => Ok (Some (at_ (pre ++ [LoopCheck id pb max pol k]) K inner fi br bi))
        end
      else Ok (Some (at_ (pre ++ [LoopCheck id pb max pol k]) (pb ++ LoopCheck id pb max pol (k + 1) :: K) inner fi br bi))
  end.
Proof.
  intros Hg Hd. unfold skip_once. rewrite at_step. cbn -[at_ splice]. change (current_input (at_ _ _ ?z _ _ _)) with z.
  destruct (loop_agrees out d inner Hg Hd) as [-> _]. destruct d; cbn -[at_ splice bool_decide].
  - rewrite (bool_decide_false ("again" = "done")), (bool_decide_true ("again" = "again")) by done.
    case_bool_decide; [|rewrite at_splice; by rewrite <-app_assoc]. destruct pol; [done|].
    unfold advance_pos. cbn. by rewrite at_next.
  - rewrite bool_decide_true by done. unfold advance_pos. cbn. by rewrite at_next.
Qed.

Lemma loop_runs id (body : WorkflowContinuation F) pb max pol k i o fi br bi in_fork :
  compiles in_fork body → flatten_steps body = Ok pb → (in_fork = false → fi = [] ∧ br = []) → good i →
  iterates f eq body max pol k i o →
  (∀ pre K, ∃ pre', rtc moves (at_ pre (pb ++ LoopCheck id pb max pol k :: K) i fi br bi) (at_ pre' K o fi br bi)) ∧ good o.
Proof.
  intros Hb Hpb Hs. remember (Z.to_nat (max - k)) as n eqn:Hn. revert k i Hn.
  induction n as [|n IH]; intros k i Hn Hi Hit; pose proof (iterates_bound _ _ _ _ _ _ _ _ Hit); [lia|].
  inversion Hit as [? ? ? ? ? env ? Hk He Hd|? ? ? ? env ? Hk He Hd|? ? ? ? ? env i' ? Hk He Hd Hrest]; subst;
    destruct (Hb pb i env fi br bi Hpb Hi He Hs) as [Hr Hgood']; destruct (loop_agrees env _ _ Hgood' Hd) as [_ Hinner].
  - split; [|done]. intros pre K. destruct (Hr pre (LoopCheck id pb max pol k :: K)) as [pre1 Hr1]. eexists.
    etrans; [exact Hr1|]. apply rtc_once, MoveSkip. by rewrite (check_step _ _ _ _ _ _ _ _ _ _ _ _ _ Hgood' Hd).
  - split; [|done]. intros pre K. destruct (Hr pre (LoopCheck id pb (k + 1) ExitWithLast k :: K)) as [pre1 Hr1]. eexists.
    etrans; [exact Hr1|]. apply rtc_once, MoveSkip. rewrite (check_step _ _ _ _ _ _ _ _ _ _ _ _ _ Hgood' Hd).
    by rewrite bool_decide_true by lia.
  - destruct (IH (k + 1) i') as [Hrec Ho]; [lia|done|done|]. split; [|done]. intros pre K.
    destruct (Hr pre (LoopCheck id pb max pol k :: K)) as [pre1 Hr1].
    destruct (Hrec (pre1 ++ [LoopCheck id pb max pol k]) K) as [pre2 Hr2]. exists pre2.
    etrans; [exact Hr1|]. eapply rtc_l; [|exact Hr2]. apply MoveSkip.
    rewrite (check_step _ _ _ _ _ _ _ _ _ _ _ _ _ Hgood' Hd). by rewrite bool_decide_false by lia.
Qed.

Lemma loop_start_runs id (body : WorkflowContinuation F) pb max pol i o fi br bi in_fork :
  compiles in_fork body → flatten_steps body = Ok pb → (in_fork = false → fi = [] ∧ br = []) → good i →
  iterates f eq body max pol 0 i o → runs [LoopStart id pb max pol] i o fi br bi ∧ good o.
Proof.
  intros Hb Hpb Hs Hi Hit. destruct (loop_runs id body pb max pol 0 i o fi br bi in_fork Hb Hpb Hs Hi Hit) as [Hr Ho].
  split; [|done]. intros pre k. destruct (Hr (pre ++ [LoopStart id pb max pol]) k) as [pre' Hr']. exists pre'.
  eapply rtc_l; [|exact Hr']. apply MoveSkip. unfold skip_once. cbn [app]. rewrite at_step. cbn -[at_ splice].
  rewrite at_splice, <-app_assoc. reflexivity.
Qed.

(** *** Every tree *)

Lemma opt_steppable in_fork (next : option (WorkflowContinuation F)) :
  opt_all (λ c, ∀ in_fork, steppable in_fork c = true → compiles in_fork c) next →
  match next with Some n => steppable in_fork n | None => true end = true → opt_all (compiles in_fork) next.
Proof. destruct next; cbn; auto. Qed.
Lemma next_runs in_fork (next : option (WorkflowContinuation F)) rest x o fi br bi :
  opt_all (λ c, ∀ in_fork, steppable in_fork c = true → compiles in_fork c) next →
  match next with Some n => steppable in_fork n | None => true end = true →
  flatten_next next = Ok rest →
  good x → continues f eq next x o → (in_fork = false → fi = [] ∧ br = []) → runs rest x o fi br bi ∧ good o.
Proof. intros Hn Hst. apply opt_compiles. by apply opt_steppable. Qed.
Lemma list_steppable {A} (g : A → WorkflowContinuation F) in_fork (l : list A) :
  Forall (λ a, ∀ in_fork, steppable in_fork (g a) = true → compiles in_fork (g a)) l →
  forallb (λ a, steppable in_fork (g a)) l = true → Forall (λ a, compiles in_fork (g a)) l.
Proof. induction 1 as [|a l Ha _ IH]; cbn; [constructor|]. intros [? ?]%andb_true_iff. constructor; auto. Qed.

Lemma task_compiles id fn t r v p tg (n : option (WorkflowContinuation F)) in_fork :
  opt_all (λ c, ∀ in_fork, steppable in_fork c = true → compiles in_fork c) n →
  steppable in_fork (Task id fn t r v p tg n) = true → compiles in_fork (Task id fn t r v p tg n).
Proof.
  intros Hn Hst plan i o fi br bi Hp Hi (x & Hx & Hco)%evaluates_task Hs. cbn in Hst.
  change (flatten_steps _) with (rest ← flatten_next n; Ok (TaskStep id :: rest)) in Hp.
  destruct (flatten_next n) as [rest|] eqn:Hr; [|done]. injection Hp as <-.
  destruct (next_runs in_fork n rest x o fi br bi Hn Hst Hr (Hgood _ _ _ Hx) Hco Hs) as [Hrun Ho].
  split; [|done]. apply (runs_app [TaskStep id] rest i x); [by apply plan_runs_task|done].
Qed.

Lemma fork_compiles id (bs : list (WorkflowContinuation F)) j in_fork :
  Forall (λ c, ∀ in_fork, steppable in_fork c = true → compiles in_fork c) bs →
  opt_all (λ c, ∀ in_fork, steppable in_fork c = true → compiles in_fork c) j →
  steppable in_fork (Fork id bs j) = true → compiles in_fork (Fork id bs j).
Proof.
  intros Hbs Hj Hst plan i o fi br bi Hp Hi (rs & (rs' & Ha & <-) & Hjoin)%evaluates_fork Hs. cbn in Hst.
  apply andb_true_iff in Hst as [[->%negb_true_iff Hst]%andb_true_iff Hstj].
  destruct (Hs eq_refl) as [-> ->]. destruct j as [j|]; [|done]. destruct Hjoin as (e & He & Hev).
  change (flatten_steps (Fork id bs (Some j))) with
    (plans ← traverse named_branch bs; rest ← flatten_steps j; Ok (concat plans ++ [CollectBranches] ++ rest)) in Hp.
  destruct (traverse named_branch bs) as [plans|] eqn:Ht; [|done]. cbn in Hp.
  destruct (flatten_steps j) as [rest|] eqn:Hr; [|done]. cbn in Hp. injection Hp as <-.
  apply collect_agrees in He as [Hcol Hge].
  destruct (Hj false Hstj rest e o [] [] bi Hr Hge Hev Hs) as [Hrun Ho].
  split; [|done]. change (CollectBranches :: rest) with ([CollectBranches] ++ rest). rewrite app_assoc.
  apply (runs_app _ rest i e); [|done].
  assert (Hb2 : Forall (λ b, first_task_id b = cont_id b ∧ steppable true b = true) bs).
  { apply Forall_forall. intros b Hb%list_elem_of_In. apply forallb_forall with (x := b) in Hst; [|done].
    apply andb_true_iff in Hst as [?%bool_decide_eq_true ?]. done. }
  apply (fork_runs bs plans i rs' e bi); try done.
  - apply Forall_and in Hb2 as [_ Hb2]. clear -Hbs Hb2. induction Hbs; inversion Hb2; subst; constructor; auto.
  - apply Forall_and in Hb2. apply Hb2.
Qed.

Lemma branch_compiles id k (bs : list (string * WorkflowContinuation F)) d n in_fork :
  Forall (λ kb, ∀ in_fork, steppable in_fork kb.2 = true → compiles in_fork kb.2) bs →
  opt_all (λ c, ∀ in_fork, steppable in_fork c = true → compiles in_fork c) d →
  opt_all (λ c, ∀ in_fork, steppable in_fork c = true → compiles in_fork c) n →
  steppable in_fork (Branch id k bs d n) = true → compiles in_fork (Branch id k bs d n).
Proof.
  intros Hbs Hd Hn Hst plan i o fi br bi Hp Hi (kb & Hkb & key & Hkey & b & Hb & x & Hx & e & He & Hco)%evaluates_branch Hs.
  cbn in Hst. apply andb_true_iff in Hst as [[Hstb Hstd]%andb_true_iff Hstn].
  change (flatten_steps (Branch id k bs d n)) with
    (plans ← traverse (λ kb, steps ← flatten_steps kb.2; Ok (kb.1, steps)) bs;
     dp ← flatten_default d;
     rest ← flatten_next n;
     Ok ([SaveBranchInput; TaskStep (key_fn_id id); BranchDispatch id plans dp] ++ rest)) in Hp.
  destruct (traverse _ bs) as [plans|] eqn:Ht; [|done]. cbn in Hp.
  destruct (flatten_default d) as [dp|] eqn:Hdp; [|done]. cbn in Hp.
  destruct (flatten_next n) as [rest|] eqn:Hr; [|done]. injection Hp as <-.
  destruct (get_steps_choose key bs plans d dp b Ht Hdp Hb) as (p & Hget & Hpb & Hin).
  apply key_agrees in Hkey. apply wrap_agrees in He as [Hw Hge].
  destruct (next_runs in_fork n rest e o fi br bi Hn Hstn Hr Hge Hco Hs) as [Hrun Ho].
  split; [|done]. apply (runs_app [_; _; _] rest i e); [|done].
  apply (branch_runs id b plans dp p i key kb x e fi br bi in_fork); try done.
  destruct Hin as [Hin| ->].
  - apply (list_steppable snd) in Hstb; [|done]. apply list_elem_of_fmap in Hin as (kb' & -> & Hin).
    by eapply Forall_forall in Hstb.
  - by apply Hd.
Qed.

Lemma loop_compiles id (b : WorkflowContinuation F) m pol n in_fork :
  (∀ in_fork, steppable in_fork b = true → compiles in_fork b) →
  opt_all (λ c, ∀ in_fork, steppable in_fork c = true → compiles in_fork c) n →
  steppable in_fork (Loop id b m pol n) = true → compiles in_fork (Loop id b m pol n).
Proof.
  intros Hb Hn Hst plan i o fi br bi Hp Hi (x & Hit & Hco)%evaluates_loop Hs. cbn in Hst.
  change (flatten_steps _) with (pb ← flatten_steps b; rest ← flatten_next n; Ok (LoopStart id pb m pol :: rest)) in Hp.
  apply andb_true_iff in Hst as [Hst Hst']. destruct (flatten_steps b) as [pb|] eqn:Hpb; [|done]. cbn in Hp.
  destruct (flatten_next n) as [rest|] eqn:Hr; [|done]. injection Hp as <-.
  destruct (loop_start_runs id b pb m pol i x fi br bi in_fork (Hb in_fork Hst) Hpb Hs Hi Hit) as [Hrun Hx].
  destruct (next_runs in_fork n rest x o fi br bi Hn Hst' Hr Hx Hco Hs) as [Hrun' Ho].
  split; [|done]. by apply (runs_app [LoopStart id pb m pol] rest i x).
Qed.

Lemma child_compiles id (ch : WorkflowContinuation F) n in_fork :
  (∀ in_fork, steppable in_fork ch = true → compiles in_fork ch) →
  opt_all (λ c, ∀ in_fork, steppable in_fork c = true → compiles in_fork c) n →
  steppable in_fork (ChildWorkflow id ch n) = true → compiles in_fork (ChildWorkflow id ch n).
Proof.
  intros Hc Hn Hst plan i o fi br bi Hp Hi (x & Hx & Hco)%evaluates_child Hs. cbn in Hst.
  change (flatten_steps _) with (pc ← flatten_steps ch; rest ← flatten_next n; Ok (pc ++ rest)) in Hp.
  apply andb_true_iff in Hst as [Hst Hst']. destruct (flatten_steps ch) as [pc|] eqn:Hpc; [|done]. cbn in Hp.
  destruct (flatten_next n) as [rest|] eqn:Hr; [|done]. injection Hp as <-.
  destruct (Hc in_fork Hst pc i x fi br bi Hpc Hi Hx Hs) as [Hrun Hgx].
  destruct (next_runs in_fork n rest x o fi br bi Hn Hst' Hr Hgx Hco Hs) as [Hrun' Ho].
  split; [|done]. by apply (runs_app pc rest i x).
Qed.

Lemma flatten_correct (c : WorkflowContinuation F) : ∀ in_fork, steppable in_fork c = true → compiles in_fork c.
Proof.
  induction c as [| |id d n Hn| | | |] using continuation_ind; intros in_fork Hst.
  - by apply task_compiles.
  - by apply fork_compiles.
  - intros plan i o fi br bi Hp Hi He%evaluates_delay Hs. by apply (next_runs in_fork n plan i o).
  - done.
  - by apply branch_compiles.
  - by apply loop_compiles.
  - by apply child_compiles.
Qed.

(** Steppable trees have a plan. *)
Lemma flatten_total (c : WorkflowContinuation F) : ∀ in_fork, steppable in_fork c = true → ∃ plan, flatten_steps c = Ok plan.
Proof.
  assert (Hopt : ∀ in_fork (n : option (WorkflowContinuation F)),
    opt_all (λ c, ∀ in_fork, steppable in_fork c = true → ∃ plan, flatten_steps c = Ok plan) n →
    match n with Some n => steppable in_fork n | None => true end = true → ∃ plan, flatten_next n = Ok plan)
    by (intros b [n|]; cbn; eauto).
  induction c as [id fn t r v p tg n Hn|id bs j Hbs Hj|id d n Hn|id s t n Hn|id k bs d n Hbs Hd Hn
    |id b m pol n Hb Hn|id ch n Hc Hn] using continuation_ind; intros in_fork Hst; cbn in Hst.
  - destruct (Hopt _ _ Hn Hst) as [rest Hr]. exists (TaskStep id :: rest). cbn. fold (flatten_next n). by rewrite Hr.
  - apply andb_true_iff in Hst as [[_ Hst]%andb_true_iff Hstj]. destruct j as [j|]; [|done].
    destruct (Hj _ Hstj) as [rest Hr]. assert (Ht : ∃ plans, traverse named_branch bs = Ok plans).
    { apply traverse_total. clear -Hbs Hst. induction Hbs as [|b bs Hb _ IH]; constructor.
      - cbn in Hst. apply andb_true_iff in Hst as [[_ Hst]%andb_true_iff _]. destruct (Hb _ Hst) as [p Hp].
        unfold named_branch. rewrite Hp. by eexists.
      - cbn in Hst. apply IH. by apply andb_true_iff in Hst as [_ ?]. }
    destruct Ht as [plans Ht]. eexists. change (flatten_steps (Fork id bs (Some j))) with
      (plans ← traverse named_branch bs; rest ← flatten_steps j; Ok (concat plans ++ [CollectBranches] ++ rest)).
    rewrite Ht. cbn. rewrite Hr. reflexivity.
  - by apply (Hopt in_fork).
  - done.
  - apply andb_true_iff in Hst as [[Hstb Hstd]%andb_true_iff Hstn]. destruct (Hopt _ _ Hn Hstn) as [rest Hr].
    assert (Ht : ∃ plans, traverse (λ kb, steps ← flatten_steps kb.2; Ok (kb.1, steps)) bs = Ok plans).
    { apply traverse_total. clear -Hbs Hstb. induction Hbs as [|b bs Hb _ IH]; constructor.
      - cbn in Hstb. apply andb_true_iff in Hstb as [Hstb _]. destruct (Hb _ Hstb) as [p Hp]. rewrite Hp. by eexists.
      - cbn in Hstb. apply IH. by apply andb_true_iff in Hstb as [_ ?]. }
    assert (Hdp : ∃ dp, flatten_default d = Ok dp).
    { destruct d as [d|]; [|by eexists]. destruct (Hd _ Hstd) as [p Hp]. cbn. rewrite Hp. by eexists. }
    destruct Ht as [plans Ht], Hdp as [dp Hdp]. eexists. change (flatten_steps (Branch id k bs d n)) with
      (plans ← traverse (λ kb, steps ← flatten_steps kb.2; Ok (kb.1, steps)) bs; dp ← flatten_default d; rest ← flatten_next n;
       Ok ([SaveBranchInput; TaskStep (key_fn_id id); BranchDispatch id plans dp] ++ rest)).
    rewrite Ht. cbn. rewrite Hdp. cbn. rewrite Hr. reflexivity.
  - apply andb_true_iff in Hst as [Hst Hst']. destruct (Hb _ Hst) as [pb Hpb], (Hopt _ _ Hn Hst') as [rest Hr].
    eexists. cbn. rewrite Hpb. cbn. fold (flatten_next n). rewrite Hr. reflexivity.
  - apply andb_true_iff in Hst as [Hst Hst']. destruct (Hc _ Hst) as [pc Hpc], (Hopt _ _ Hn Hst') as [rest Hr].
    eexists. cbn. rewrite Hpc. cbn. fold (flatten_next n). rewrite Hr. reflexivity.
Qed.

Lemma at_end pre o : drive_from call_task 1 (at_ pre [] o [] [] []) = Some (Ok (step_done o)).
Proof.
  assert (He : steps (at_ pre [] o [] [] []) !! pos (at_ pre [] o [] [] []) = None).
  { cbn. apply lookup_ge_None. by rewrite app_nil_r. }
  unfold drive_from. rewrite (skip_at_end _ He). cbn. unfold current_step. by rewrite He.
Qed.

Lemma run_workflow_ok (c : WorkflowContinuation F) input bytes o :
  steppable false c = true → encode_value input = Ok bytes → good bytes → evaluates f eq c bytes o →
  run_workflow call_task c input = Ok (step_done o).
Proof.
  intros Hst Henc Hb He. destruct (flatten_total c false Hst) as [plan Hp].
  destruct (flatten_correct c false Hst plan bytes o [] [] [] Hp Hb He) as [Hr _]; [done|].
  destruct (Hr [] []) as [pre' Hrun]. destruct (moves_drive _ _ _ _ _ Hrun (at_end pre' o)) as [m Hm].
  rewrite app_nil_r in Hm. unfold run_workflow, stepper_new. rewrite Henc. cbn [mbind result_bind]. rewrite Hp. cbn [mbind result_bind].
  unfold drive_from, at_ in Hm. cbn in Hm. destruct (skip_non_tasks _) as [self|]; [|done]. cbn [mbind result_bind].
  by rewrite (drive_enough _ _ _ _ Hm).
Qed.
End Compile.
