(* ===== verification/StepperWasm.v ===== *)
(** * The stepper of the Worker binding

    [WasmContinuationStepper] is the machine of [Stepper.v] over the codec of
    [Cloudflare.v]: it runs workflows as the specification means them, and so as the
    durable engine of the same binding does; with nested forks it does not. *)

From S2P Require Import Prelude Hash32 SnapshotFormat Task Workflow Serializable Snapshot Backend Runtime SyncExec Durability Cloudflare CloudflareProps Stepper StepperProps.

#[local] Existing Instances js_envelopes js_json.

(** What [JSON.stringify] writes is text, so the codec of the binding is the
    specification's on what it produces. *)
Lemma wasm_text `{JsEngine} :
  (∀ v s, stringify_with_replacer_func binary_replacer v = Ok s → text (as_bytes s)) → StepperText text.
Proof.
  intros Hjson. pose proof (encode_text Hjson) as Htext. split.
  - intros b key. cbn. by destruct (decode_json_string b); [intros [= ->]|].
  - intros key b e. cbn. destruct (js_branch_envelope key b) as [x|] eqn:Hx; [|done]. intros [= <-]. split; [done|].
    unfold js_branch_envelope in Hx. destruct (reflect_set new_object _ _) as [o1|]; [|done]. cbn in Hx.
    destruct (decode_to_js_value b) as [v|]; [|done]. cbn in Hx.
    destruct (reflect_set o1 _ _) as [o2|]; [|done]. cbn in Hx. by eapply Htext.
  - intros rs e. cbn. destruct (js_named_results rs) as [x|] eqn:Hx; [|done]. intros [= <-]. split; [done|].
    unfold js_named_results in Hx. destruct (set_results _ rs) as [o|]; [|done]. by eapply Htext.
  - intros out d inner Ht Hd. destruct (loop_result_agrees out d inner Ht Hd) as (Ho & v & Hv).
    split; [exact Ho|by eapply Htext].
Qed.

Lemma wasm_stepper_ok `{JsEngine, Sha256} {F : Type} (call_task : string → option string → result JsValue JsValue)
    (f : string → Bytes → result BoxError Bytes) (c : WorkflowContinuation F) (input : JsValue) (bytes o : Bytes) :
  (∀ v s, stringify_with_replacer_func binary_replacer v = Ok s → text (as_bytes s)) →
  (∀ id i, ok (v ← call_task id (ok (Utf8.from_utf8 i)); encode_js_value v) = ok (f id i)) →
  steppable false c = true → encode_js_value input = Ok bytes → evaluates f eq c bytes o →
  run_workflow call_task c input = Ok (step_done o).
Proof.
  intros Hjson Hf Hst Henc He. pose proof (wasm_text Hjson) as HT. pose proof (encode_text Hjson) as Htext.
  eapply (run_workflow_ok text); try done; [|by eapply Htext].
  intros id i x Hx. specialize (Hf id i). rewrite Hx in Hf. destruct (call_task id _) as [v|]; [|done]. cbn in Hf.
  destruct (encode_js_value v) as [b|] eqn:Hb; [|done]. injection Hf as ->. by eapply Htext.
Qed.

(** ** Properties *)

(** C37. The stepper's compilation is correct: a workflow of tasks, delays, conditional
    branches, loops, child workflows and forks (each with a join, none inside another's
    branch, and each of whose branches starts with the node it is named after, as one
    that starts with a loop or a child does not) is flattened to a plan on which the
    stepper, its caller submitting the outputs of the tasks it is handed, ends with the
    output the workflow means by the specification the executors implement; delays
    are passed at once.  [JSON.stringify] writes text. *)
Theorem stepper_correct `{JsEngine, Sha256} {F : Type} (call_task : string → option string → result JsValue JsValue)
    (f : string → Bytes → result BoxError Bytes) (c : WorkflowContinuation F) (input : JsValue) (bytes o : Bytes) :
  (∀ v s, stringify_with_replacer_func binary_replacer v = Ok s → text (as_bytes s)) →
  (∀ id i, ok (v ← call_task id (ok (Utf8.from_utf8 i)); encode_js_value v) = ok (f id i)) →
  steppable false c = true → encode_js_value input = Ok bytes → evaluates f eq c bytes o →
  run_workflow call_task c input = Ok (step_done o).
Proof. apply wasm_stepper_ok. Qed.

(** Stepping always ends, over any codec, whatever the tasks answer: between two
    tasks the machine takes at most as many turns as the plan in front of it weighs
    (loops count all their iterations), and so many tasks at most are handed out. *)
Theorem stepper_terminates `{StepperCodec} (call_task : string → option string → result StepError StepValue) (self : Stepper) :
  (∃ r, skip_loop (S (remaining self)) self = Some r) ∧ (∃ r, drive call_task (S (remaining self)) self = Some r).
Proof. split; [apply skip_loop_stops; lia|apply drive_stops; lia]. Qed.

Module StepperExample.
Import Toy WorkflowExample Examples DurabilityExample CloudflareExample.
#[local] Existing Instances ExecExample.backon ExecExample.backon_laws.

(** The caller: parse the input, call the function of that name. *)
Definition call (id : string) (input : option string) : result Js Js :=
  f ← ok_or (dyn_into_function (JsEngine:=js) (field id (match registry with Obj fs => fs | _ => [] end))) (Str "not found");
  v ← match input with Some s => decode_to_js_value (H:=js) (as_bytes s) | None => Ok Undefined end;
  Ok (apply_fn f v).
Definition step_output (id : string) (i : Bytes) : result Js Bytes :=
  v ← call id (ok (Utf8.from_utf8 i)); encode_js_value (H:=js) v.
Definition step_answer (id : string) (i : Bytes) : result BoxError Bytes := map_err (λ _, BoxOther "js") (step_output id i).
Lemma step_answer_ok id i : ok (step_output id i) = ok (step_answer id i).
Proof. unfold step_answer. by destruct (step_output id i). Qed.

#[local] Instance step_callback : TaskCallback := λ _, step_answer.
Lemma step_meaning {F} (c : WorkflowContinuation F) i o out :
  (execute_continuation_sync c i 0%nat).1 = Ok o → evaluates step_answer eq c i out ↔ out = o.
Proof.
  intros Ho%run_result.
  pose proof (sync_computes (H4:=step_callback) step_answer (λ _ _ _, eq_refl) c i 0%nat) as Hc.
  rewrite Ho in Hc. apply Hc.
Qed.

Definition in_text : Bytes := quote ++ as_bytes "in" ++ quote.
Definition meant {F} (c : WorkflowContinuation F) : Bytes :=
  default [] (ok (execute_continuation_sync c in_text 0%nat).1).

Lemma stepper_correct_witness :
  run_workflow (H:=wasm_stepper) call polled_flow (Str "in") = Ok (step_done (meant polled_flow)).
Proof.
  apply (stepper_correct (H:=js) call step_answer polled_flow (Str "in") in_text (meant polled_flow)).
  - intros. by eapply stringify_text.
  - exact step_answer_ok.
  - vm_compute. reflexivity.
  - vm_compute. reflexivity.
  - apply (step_meaning polled_flow in_text (meant polled_flow)); [vm_compute; reflexivity|reflexivity].
Defined.

(** A fork inside a fork's branch: [fork [a → fork [b, c] → validate, mail] → close]. *)
Definition nested : WorkflowContinuation unit :=
  Fork "outer" [task "a" (Some (Fork "inner" [task "b" None; task "c" None] (Some (task "validate" None)))); task "mail" None]
    (Some (task "close" None)).
Definition output_of (r : result Js StepResult) : result Js Js :=
  s ← r; decode_to_js_value (H:=js) (as_bytes (default EmptyString (output_json s))).

(** Nested forks are not run as they mean: [RestoreForkInput] takes a stack that is not
    empty for its own fork's, so the inner fork's branches get the outer fork's input,
    and its [CollectBranches] pops the outer fork's results; the outer join misses its
    first branch's result.  The plain executors compute the meaning. *)
Theorem nested_fork_miscompiled :
  steppable false nested = false ∧
  output_of (run_workflow (H:=wasm_stepper) call nested (Str "in")) =
    Ok (Obj [("mail", Obj [("b", Str "in b"); ("c", Str "in c"); ("validate", Str "ok"); ("mail", Str "ok")]);
      ("close", Str "ok")]) ∧
  ∀ out, evaluates step_answer eq nested in_text out →
    decode_to_js_value (H:=js) out = Ok (Obj
      [("a", Obj [("b", Str "in a b"); ("c", Str "in a c"); ("validate", Str "ok")]); ("mail", Str "in mail"); ("close", Str "ok")]).
Proof.
  split; [reflexivity|]. split; [vm_compute; reflexivity|].
  intros out ->%(step_meaning nested in_text (meant nested)); vm_compute; reflexivity.
Qed.
End StepperExample.
