(* ===== verification/WasmFlow.v ===== *)
(** * The flow builder of the Worker binding ([sayiir-cloudflare/src/flow.rs]), and its
    statuses ([status.rs])

    [WasmFlowBuilder] turns plain JavaScript objects into the calls of the bindings'
    [FlowBuilder] and compiles the result.  What it compiles is what the binding's
    executors run as it means: forks are never nested, always joined, and their
    branches start with a task.  Reading an object into a Rust structure
    ([serde_wasm_bindgen]) is a parameter. *)

From S2P Require Import Prelude Hash32 SnapshotFormat Task Workflow TaskIndex Serializable Snapshot Backend InMemory Runtime SyncExec Checkpoint Durability WorkerNav Worker Registry Builder BuilderProps TypedFlow FlowBuilder Cloudflare CloudflareProps Stepper StepperProps StepperWasm.
From Stdlib Require Import Floats.SpecFloat.
Import Injection.

(** ** The status of a request ([status.rs]) *)

Record WasmWorkflowStatus : Type := MkWasmStatus {
  ws_flat : Status.FlatWorkflowStatus;
  ws_output_json : option string
}.
(** [from_core]: an output that is not UTF-8 is left out; [to_rfc3339] is chrono's. *)
Definition wasm_from_core (to_rfc3339 : DateTime → string) (so : Status.WorkflowStatus * option Bytes) : WasmWorkflowStatus :=
  MkWasmStatus (Status.flatten to_rfc3339 so.1) (so.2 ≫= λ bytes, ok (Utf8.from_utf8 bytes)).

(** ** Objects of the JavaScript side *)

Record RetryPolicyJs : Type := MkRetryPolicyJs {
  js_max_retries : Z;                (* u32 *)
  js_initial_delay_secs : f64;
  js_backoff_multiplier : f64;
  js_max_delay_secs : option f64
}.
Record TaskMetadataJs : Type := MkTaskMetadataJs {
  js_display_name : option string;
  js_description : option string;
  js_timeout_secs : option f64;
  js_retries : option RetryPolicyJs;
  js_tags : option (list string);
  js_version : option string
}.
Definition TaskMetadataJs_default : TaskMetadataJs := MkTaskMetadataJs None None None None None None.
Record BranchTaskJs : Type := MkBranchTaskJs { bt_task_id : string; bt_metadata : option TaskMetadataJs }.
Record BranchEntryJs : Type := MkBranchEntryJs { be_key : string; be_tasks : list BranchTaskJs }.

(** [serde_wasm_bindgen::from_value] at the four types, its error displayed. *)
Class FromJs `{JsEngine} : Type := {
  is_undefined : JsValue → bool;
  is_null : JsValue → bool;
  from_value_metadata : JsValue → result string TaskMetadataJs;
  from_value_branches : JsValue → result string (list (list BranchTaskJs));
  from_value_entries : JsValue → result string (list BranchEntryJs);
  from_value_tasks : JsValue → result string (list BranchTaskJs)
}.

(** [f64 as f32]: rounding to 24 bits. *)
Definition f32_of_f64 (x : f64) : f32 :=
  match x with
  | S754_finite s m e => binary_normalize 24 128 (cond_Zopp s (Z.pos m)) e s
  | x => x
  end.

(** [Display] of [BuildError]. *)
Definition build_error_to_string (e : BuildError) : string :=
  match e with
  | DuplicateTaskId id => "Duplicate task id: '" +:+ id +:+ "'"
  | TaskNotFound id => "Task '" +:+ id +:+ "' not found in registry"
  | EmptyBranch => "Branch must have at least one step"
  | EmptyFork => "Fork must have at least one branch"
  | MissingBranches branch_id missing_keys =>
      "Branch node '" +:+ branch_id +:+ "': missing branches for keys: " +:+ String.concat ", " missing_keys
  | OrphanBranches branch_id orphan_keys =>
      "Branch node '" +:+ branch_id +:+ "': orphan branches for keys: " +:+ String.concat ", " orphan_keys
  | InvalidMaxIterations id => "Loop '" +:+ id +:+ "': max_iterations must be at least 1"
  | EmptyWorkflow => "Workflow must have at least one task"
  | InvalidDuration what => what +:+ " must be a finite non-negative number"
  | DefinitionMismatch expected found =>
      "Workflow definition mismatch: expected hash '" +:+ to_hex (def_hash expected) +:+ "', found '" +:+ to_hex (def_hash found) +:+ "'"
  | Serializable.MissingDep task_id type_name =>
      "Task '" +:+ task_id +:+ "': missing dependency `" +:+ type_name +:+ "` in Deps container"
  | RegistryDepsConflict task_id =>
      "Task '" +:+ task_id +:+ "' is present in both the pre-built `registry:` and would be auto-registered via `deps:` — drop one to resolve the conflict"
  end.

Section Flow.
Context `{FromJs, HashOrder, Sha256, FloatOps}.

Definition throw_build (e : BuildError) : JsStop := Thrown (to_js_error (build_error_to_string e)).
(** [Duration::from_secs_f64], which panics. *)
Definition secs_or_trap (secs : f64) : result JsStop Duration := ok_or (from_secs_f64 secs) Trapped.

(** [From<TaskMetadataJs> for TaskMetadata]. *)
Definition into_retries (r : RetryPolicyJs) : result JsStop RetryPolicy :=
  initial_delay ← secs_or_trap (js_initial_delay_secs r);
  max_delay ← transpose (secs_or_trap <$> js_max_delay_secs r);
  Ok (MkRetryPolicy (js_max_retries r) initial_delay (f32_of_f64 (js_backoff_multiplier r)) max_delay).
Definition into_metadata (m : TaskMetadataJs) : result JsStop TaskMetadata :=
  timeout ← transpose (secs_or_trap <$> js_timeout_secs m);
  retries ← transpose (into_retries <$> js_retries m);
  Ok (MkTaskMetadata (js_display_name m) (js_description m) timeout retries (default [] (js_tags m)) (js_version m) None).

(** [parse_metadata] and [parse_js_value]. *)
Definition parse_metadata (val : JsValue) : TaskMetadataJs :=
  if is_undefined val || is_null val then TaskMetadataJs_default
  else default TaskMetadataJs_default (ok (from_value_metadata val)).
Definition parse_js_value {T} (from_value : JsValue → result string T) (val : JsValue) : result JsStop T :=
  map_err (λ e, Thrown (to_js_error e)) (from_value val).

(** The chains of [addFork] and [addBranch]. *)
Definition into_chain (tasks : list BranchTaskJs) : result JsStop TaskChain :=
  result_collect ((λ t, pair (bt_task_id t) <$>
    match bt_metadata t with Some m => into_metadata m | None => Ok TaskMetadata_default end) <$> tasks).

Record WasmFlowBuilder : Type := MkWasmFlowBuilder {
  wfb_workflow_id : string;
  wfb_inner : FlowBuilder;
  wfb_metadata_json : option string
}.
Definition wfb_new (name : string) : WasmFlowBuilder := MkWasmFlowBuilder name flow_new None.
Definition with_inner (inner : FlowBuilder) (self : WasmFlowBuilder) : WasmFlowBuilder :=
  MkWasmFlowBuilder (wfb_workflow_id self) inner (wfb_metadata_json self).

Definition wfb_next_lambda_id (self : WasmFlowBuilder) : string * WasmFlowBuilder :=
  let '(id, inner) := next_lambda_id (wfb_inner self) in (id, with_inner inner self).
Definition set_metadata_json (json : string) (self : WasmFlowBuilder) : WasmFlowBuilder :=
  MkWasmFlowBuilder (wfb_workflow_id self) (wfb_inner self) (Some json).
Definition wfb_then (task_id : string) (metadata : JsValue) (self : WasmFlowBuilder) : result JsStop WasmFlowBuilder :=
  meta ← into_metadata (parse_metadata metadata);
  Ok (with_inner (add_sequential task_id meta (wfb_inner self)) self).
Definition wfb_add_fork (branches_js : JsValue) (join_id : string) (join_metadata : JsValue) (self : WasmFlowBuilder) :
    result JsStop WasmFlowBuilder :=
  raw ← parse_js_value from_value_branches branches_js;
  branches ← result_collect (into_chain <$> raw);
  join_meta ← into_metadata (parse_metadata join_metadata);
  inner ← map_err throw_build (add_fork branches join_id join_meta (wfb_inner self));
  Ok (with_inner inner self).
Definition wfb_wait_for_signal (signal_id signal_name : string) (timeout_secs : option f64) (self : WasmFlowBuilder) :
    result JsStop WasmFlowBuilder :=
  inner ← map_err throw_build (add_signal signal_id signal_name timeout_secs (wfb_inner self));
  Ok (with_inner inner self).
Definition wfb_delay (delay_id : string) (seconds : f64) (self : WasmFlowBuilder) : result JsStop WasmFlowBuilder :=
  inner ← map_err throw_build (add_delay delay_id seconds (wfb_inner self));
  Ok (with_inner inner self).
Definition wfb_add_branch (branches_js default_branch_js : JsValue) (self : WasmFlowBuilder) :
    result JsStop (string * WasmFlowBuilder) :=
  entries ← parse_js_value from_value_entries branches_js;
  branches ← result_collect ((λ entry, pair (be_key entry) <$> into_chain (be_tasks entry)) <$> entries);
  dflt ← (if is_undefined default_branch_js || is_null default_branch_js then Ok None
          else raw ← parse_js_value from_value_tasks default_branch_js; Some <$> into_chain raw);
  ib ← map_err throw_build (add_branch branches dflt (wfb_inner self));
  Ok (ib.1, with_inner ib.2 self).
(** [on_max.unwrap_or("fail").parse()]. *)
Definition parse_on_max (on_max : option string) : result JsStop MaxIterationsPolicy :=
  let s := default "fail" on_max in
  if bool_decide (s = "fail") then Ok Fail
  else if bool_decide (s = "exit_with_last") then Ok ExitWithLast
  else Err (Thrown (to_js_error ("Invalid onMax policy: '" +:+ s +:+ "'. Use 'fail' or 'exit_with_last'."))).
Definition wfb_add_loop (body_task_id : string) (body_metadata : JsValue) (max_iterations : Z) (on_max : option string)
    (self : WasmFlowBuilder) : result JsStop (string * WasmFlowBuilder) :=
  on_max ← parse_on_max on_max;
  meta ← into_metadata (parse_metadata body_metadata);
  li ← map_err throw_build (add_loop body_task_id meta max_iterations on_max (wfb_inner self));
  Ok (li.1, with_inner li.2 self).
Definition wfb_add_child_workflow (child_id : string) (child_builder self : WasmFlowBuilder) : WasmFlowBuilder :=
  with_inner (add_child_workflow child_id (tasks (wfb_inner child_builder)) (wfb_inner self)) self.
Definition wfb_build (self : WasmFlowBuilder) : result JsStop (WasmWorkflow (F:=UntypedCoreTask)) :=
  continuation ← map_err (λ e, match e with Failed e => throw_build e | Panicked => Trapped end) (flow_build (wfb_inner self));
  Ok (MkWasmWorkflow (wfb_workflow_id self) (compute_definition_hash (to_serializable continuation)) continuation
    (wfb_metadata_json self)).
End Flow.

(** ** What the builder compiles *)

(** No step awaits a signal, in no child. *)
Fixpoint no_signals (t : BuilderTask) : bool :=
  match t with BAwaitSignal _ _ _ => false | BChildWorkflow _ ts => forallb no_signals ts | _ => true end.

Section Built.
Context `{HashOrder, !HashOrderLaws}.

(** Fit for both executors of the binding. *)
Definition fit (c : Cont) : Prop := (∀ in_fork, steppable in_fork c = true) ∧ forks_joined c = true.

Lemma chain_fit (l : TaskChain) c : chain_of l = Some c → fit c ∧ first_task_id c = cont_id c.
Proof.
  revert c. induction l as [|[id m] l IH]; intros c; [done|]. intros [= <-]. split; [|done]. cbn [foldr].
  fold (chain_of l). destruct (chain_of l) as [n|]; [|by split]. destruct (IH n eq_refl) as [Hn _]. exact Hn.
Qed.
Lemma build_chain_fit (l : TaskChain) c : build_chain l = Ok c → fit c ∧ first_task_id c = cont_id c.
Proof. unfold build_chain. destruct (chain_of l) eqn:Hc; [|done]. intros [= <-]. by eapply chain_fit. Qed.

Lemma collect_Forall {A B E} (g : A → result E B) (P : B → Prop) l bs :
  (∀ a b, g a = Ok b → P b) → result_collect (g <$> l) = Ok bs → Forall P bs.
Proof.
  intros Hg. revert bs. induction l as [|a l IH]; intros bs; cbn; [by intros [= <-]|].
  destruct (g a) as [b|] eqn:Hb; [|done]. cbn. destruct (result_collect _) as [bs'|]; [|done]. cbn. intros [= <-].
  constructor; [by eapply Hg|by apply IH].
Qed.

(** The entries of a map filled from a list are entries of the list. *)
Lemma filled_elem {A} (l : list (string * A)) kc m :
  kc ∈ map_iter (foldl (λ m kc, <[kc.1 := kc.2]> m) m l) → kc ∈ l ∨ m !! kc.1 = Some kc.2.
Proof.
  rewrite (map_iter_perm _). destruct kc as [k c]. rewrite elem_of_map_to_list. cbn.
  revert m. induction l as [|[k' c'] l IH]; intros m; cbn; [by right|]. intros [Hl|Hm]%IH; [left; by right|].
  apply lookup_insert_Some in Hm as [[-> ->]|[_ Hm]]; [left; by left|by right].
Qed.

Definition next_fit (o : option Cont) : Prop := opt_all (λ c, steppable false c = true ∧ forks_joined c = true) o.

Lemma fit_forallb (bs : list Cont) : Forall (λ c, fit c ∧ first_task_id c = cont_id c) bs →
  forallb (λ b, bool_decide (first_task_id b = cont_id b) && steppable true b) bs = true ∧ forallb forks_joined bs = true.
Proof.
  induction 1 as [|c bs [[Hs Hj] Hn] _ [IH1 IH2]]; [done|]. cbn. by rewrite bool_decide_true, Hs, Hj, IH1, IH2.
Qed.

Lemma build_task_fit t current c :
  no_signals t = true → next_fit current → build_task t current = Ok c → steppable false c = true ∧ forks_joined c = true.
Proof.
  revert current c. induction t as [id m|bs j m|id d|id nm tm|id bs d|id b m mx o|id ts Hts] using builder_task_ind;
    intros current c Hns Hcur Hb.
  - injection Hb as <-. destruct current; [exact Hcur|done].
  - cbn in Hb. destruct (result_collect _) as [conts|] eqn:Hc; [|done]. injection Hb as <-.
    apply (collect_Forall _ (λ c, fit c ∧ first_task_id c = cont_id c)) in Hc; [|intros l c; apply build_chain_fit].
    apply fit_forallb in Hc as [Hs Hj]. cbn. rewrite Hs, Hj. destruct current; [exact Hcur|done].
  - cbn in Hb. destruct (duration_or_panic d); [|done]. injection Hb as <-. destruct current; [exact Hcur|done].
  - done.
  - cbn in Hb. destruct (result_collect _) as [conts|] eqn:Hc; [|done]. cbn in Hb.
    destruct (transpose _) as [dc|] eqn:Hd; [|done]. injection Hb as <-.
    apply (collect_Forall _ (λ kc, fit kc.2)) in Hc.
    2: { intros [k l] kc. cbn. destruct (build_chain l) as [x|] eqn:Hl; [|done]. intros [= <-].
         by apply build_chain_fit in Hl as [? _]. }
    assert (Hmap : Forall (λ kc, fit kc.2) (map_iter (foldl (λ m kc, <[kc.1 := kc.2]> m) (∅ : gmap string Cont) conts))).
    { apply Forall_forall. intros kc [Hin|He]%filled_elem; [by eapply Forall_forall in Hc|by rewrite lookup_empty in He]. }
    assert (Hdc : opt_all fit dc).
    { destruct d as [l|]; cbn in Hd; [|by injection Hd as <-]. destruct (build_chain l) as [x|] eqn:Hl; [|done].
      injection Hd as <-. by apply build_chain_fit in Hl as [? _]. }
    cbn. generalize dependent (map_iter (foldl (λ m kc, <[kc.1 := kc.2]> m) (∅ : gmap string Cont) conts)). intros l Hl.
    assert (forallb (λ kb, steppable false kb.2) l = true ∧ forallb (λ kb, forks_joined kb.2) l = true) as [-> ->]
      by (clear -Hl; induction Hl as [|kc l [Hs Hj] _ [IH1 IH2]]; cbn; [done|]; by rewrite Hs, Hj, IH1, IH2).
    destruct dc as [dc|]; [destruct Hdc as [Hs Hj]; rewrite Hs, Hj|]; (destruct current; [exact Hcur|done]).
  - cbn in Hb. case_bool_decide; [done|]. injection Hb as <-. destruct current; [exact Hcur|done].
  - rewrite build_child in Hb. destruct (build_continuation ts) as [child|] eqn:Hch; [|done]. injection Hb as <-.
    assert (Hcf : steppable false child = true ∧ forks_joined child = true).
    { unfold build_continuation in Hch. destruct (build_tasks ts None) as [[x|]|] eqn:Hx; [|done..]. injection Hch as <-.
      cbn in Hns. clear -Hts Hns Hx. assert (Hgen : ∀ o, build_tasks ts None = Ok o → next_fit o).
      { clear Hx x. induction Hts as [|t ts Ht _ IH]; intros o; cbn; [by intros [= <-]|].
        cbn in Hns. apply andb_true_iff in Hns as [Hn1 Hn2]. destruct (build_tasks ts None) as [o'|]; [|done]. cbn.
        destruct (build_task t o') as [c|] eqn:Hc; [|done]. intros [= <-]. cbn. eapply Ht; [done| |done]. by apply IH. }
      by apply (Hgen _ Hx). }
    destruct Hcf as [Hs Hj]. cbn. rewrite Hs, Hj. destruct current; [exact Hcur|done].
Qed.
End Built.

#[local] Existing Instances js_envelopes js_json.

(** A workflow the builder returns: the tree of its tasks and the tree's hash. *)
Lemma wfb_build_spec `{JsEngine, HashOrder, Sha256, FloatOps} (self : WasmFlowBuilder) wf :
  wfb_build self = Ok wf →
  build_continuation (tasks (wfb_inner self)) = Ok (wasm_continuation wf) ∧
  wasm_definition_hash wf = compute_definition_hash (to_serializable (wasm_continuation wf)).
Proof.
  unfold wfb_build, flow_build. destruct (build_continuation _) as [c|[e|]]; [|done..]. by intros [= <-].
Qed.

(** What the binding's builder compiles, the binding's stepper runs: a workflow built
    from any steps without signals never has a nested fork, so stepping through it
    ends with the output the workflow means. *)
Theorem built_flow_steps `{JsEngine, HashOrder, Sha256, FloatOps} `{!HashOrderLaws}
    (self : WasmFlowBuilder) (wf : WasmWorkflow) (call_task : string → option string → result JsValue JsValue)
    (f : string → Bytes → result BoxError Bytes) (input : JsValue) (bytes o : Bytes) :
  (∀ v s, stringify_with_replacer_func binary_replacer v = Ok s → text (as_bytes s)) →
  (∀ id i, ok (v ← call_task id (ok (Utf8.from_utf8 i)); encode_js_value v) = ok (f id i)) →
  wfb_build self = Ok wf → forallb no_signals (tasks (wfb_inner self)) = true →
  encode_js_value input = Ok bytes → evaluates f eq (wasm_continuation wf) bytes o →
  run_workflow call_task (wasm_continuation wf) input = Ok (step_done o).
Proof.
  intros Hjson Hf [Hb _]%wfb_build_spec Hns Henc He.
  assert (Hfit : steppable false (wasm_continuation wf) = true ∧ forks_joined (wasm_continuation wf) = true).
  { apply (build_task_fit (BChildWorkflow EmptyString (tasks (wfb_inner self))) None
      (ChildWorkflow EmptyString (wasm_continuation wf) None)) in Hns; [|done|by rewrite build_child, Hb].
    cbn in Hns. by rewrite !andb_true_r in Hns. }
  destruct Hfit as [Hst _]. by eapply wasm_stepper_ok.
Qed.

Module WasmFlowExample.
Import Toy WorkflowExample Examples DurabilityExample CloudflareExample StepperExample.
#[local] Existing Instances ExecExample.backon ExecExample.backon_laws step_callback.

#[local] Instance order : HashOrder := {| map_iter _ m := map_to_list m; set_iter s := elements s |}.
#[local] Instance order_laws : HashOrderLaws.
Proof. split; reflexivity. Qed.
(** Objects list the names of the tasks: one branch each, without metadata. *)
#[local] Instance from_js : @FromJs js := {|
  is_undefined v := match v with Undefined => true | _ => false end;
  is_null _ := false;
  from_value_metadata _ := Err "no metadata";
  from_value_branches v := match v with Obj fs => Ok ((λ kv, [MkBranchTaskJs kv.1 None]) <$> fs) | _ => Err "not an object" end;
  from_value_entries v := match v with Obj fs => Ok ((λ kv, MkBranchEntryJs kv.1 [MkBranchTaskJs kv.1 None]) <$> fs) | _ => Err "not an object" end;
  from_value_tasks v := match v with Obj fs => Ok ((λ kv, MkBranchTaskJs kv.1 None) <$> fs) | _ => Err "not an object" end
|}.

(** [validate → loop step → fork [mail, audit] → close]. *)
Definition orders : result JsStop WasmFlowBuilder :=
  b ← wfb_then (H:=js) "validate" Undefined (wfb_new "orders");
  ib ← wfb_add_loop (H:=js) "step" Undefined 5 None b;
  wfb_add_fork (H:=js) (Obj [("mail", Undefined); ("audit", Undefined)]) "close" Undefined ib.2.
Definition order_builder : WasmFlowBuilder := default (wfb_new "") (ok orders).
Definition built (b : WasmFlowBuilder) : WasmWorkflow :=
  default (MkWasmWorkflow "" hash (Delay "" 0 None) None) (ok (wfb_build (H:=js) b)).

Lemma built_ok b : match wfb_build (H:=js) b with Ok _ => true | Err _ => false end = true → wfb_build (H:=js) b = Ok (built b).
Proof. unfold built. by destruct (wfb_build b). Qed.

Lemma built_flow_steps_witness :
  run_workflow (H:=wasm_stepper) call (wasm_continuation (built order_builder)) (Str "in") =
    Ok (step_done (meant (wasm_continuation (built order_builder)))).
Proof.
  apply (built_flow_steps (H:=js) order_builder (built order_builder) call step_answer (Str "in") in_text).
  - intros. by eapply stringify_text.
  - exact step_answer_ok.
  - apply built_ok. vm_compute. reflexivity.
  - vm_compute. reflexivity.
  - vm_compute. reflexivity.
  - apply (step_meaning (wasm_continuation (built order_builder)) in_text (meant (wasm_continuation (built order_builder))));
      [vm_compute; reflexivity|reflexivity].
Defined.

(** [a → a]. *)
Definition twice : WasmFlowBuilder :=
  default (wfb_new "") (ok (b ← wfb_then (H:=js) "a" Undefined (wfb_new "twice"); wfb_then (H:=js) "a" Undefined b)).
Definition read (b : Bytes) : result Js Js := decode_to_js_value (H:=js) b.

(** Neither the binding nor its builder refuses a task id used twice: the stepper runs the
    task twice, as the tree means, and the durable engine once, taking the recorded
    output of the first for the second. *)
Lemma duplicate_id_runs_once :
  find_duplicate_id (wasm_continuation (built twice)) = Some "a" ∧
  output_of (run_workflow (H:=wasm_stepper) call (wasm_continuation (built twice)) (Str "in")) = Ok (Str "in a a") ∧
  match (engine_run (H:=js) engine (built twice) "i" (Str "in") registry w0).1 with
  | Ok (Status.Completed, Some out) => read out
  | _ => Err Undefined
  end = Ok (Str "in a").
Proof. split; [|split]; vm_compute; reflexivity. Qed.
End WasmFlowExample.
