(* ===== verification/Postgres.v ===== *)
(** * The Postgres backend: tables and the snapshot store ([sayiir-postgres/src])

    The schema of [migrations/] as a record of tables, the errors of [error.rs]
    with the transient retry, the blob plumbing of [backend.rs] and [history.rs],
    [wakeup.rs]'s payloads, and the [SnapshotStore] and [TaskResultStore]
    implementations.

    An SQL statement is a function on the tables; a writable-CTE statement is one
    function, its arms reading the tables as they were before it.  A transaction
    keeps its effects only when it succeeds.  Statements of one operation are not
    interleaved with other sessions' (row locks serialise the read-modify-write
    operations); what other sessions hold locked at the time is part of the state
    and observed where the SQL says SKIP LOCKED or tries an advisory lock.  The
    columns no query of the crate reads ([history.id] and [created_at],
    [tasks.worker_id], the legacy [snapshots.data]) are left out.  Text values
    hold no NUL character, which Postgres refuses in TEXT columns. *)

From S2P Require Import Prelude Hash32 SnapshotFormat Task Workflow Snapshot Backend ClaimStore.

(** ** Errors ([error.rs]) *)

Inductive SqlxError : Type :=
| RowNotFound
| Io (msg : string)
| PoolTimedOut
| PoolClosed
| Database (code : option string) (msg : string)
| OtherSqlx (msg : string).

(** What the code relies on of [sqlx] and the server. *)
Class Postgres : Type := {
  sqlx_to_string : SqlxError → string;              (* [Display for sqlx::Error] *)
  pg_timestamp : DateTime → DateTime;               (* an instant as a TIMESTAMPTZ value *)
  pg_interval : Duration → result SqlxError Duration;   (* a bound [chrono::Duration] *)
  pg_add_interval : DateTime → Duration → result SqlxError DateTime;   (* [now() + interval] *)
  row_order : ∀ A, list A → list A;                 (* the order of an unordered result *)
  text_le : string → string → bool                  (* the collation of TEXT columns *)
}.
Class PostgresLaws `{Postgres} : Prop := {
  pg_timestamp_micros t : pg_timestamp t ≤ t < pg_timestamp t + 1000;
  row_order_perm A (l : list A) : row_order A l ≡ₚ l;
  text_le_total a b : text_le a b ∨ text_le b a;
  text_le_trans a b c : text_le a b → text_le b c → text_le a c;
  text_le_antisym a b : text_le a b → text_le b a → a = b
}.
Arguments row_order {_ A}.
Arguments row_order_perm {_ _ A}.

(** [From<PgError> for BackendError]. *)
Definition from_pg_error `{Postgres} (e : SqlxError) : BackendError :=
  match e with
  | RowNotFound => NotFound (sqlx_to_string e)
  | other => BackendErr (sqlx_to_string other)
  end.

(** [PgError::is_transient]. *)
Definition is_transient (e : SqlxError) : bool :=
  match e with
  | Io _ | PoolTimedOut => true
  | Database (Some c) _ =>
      bool_decide (c = "40001") || bool_decide (c = "40P01") || String.prefix "08" c
  | _ => false
  end.

Inductive TxError : Type := TxPg (e : SqlxError) | TxOther (e : BackendError).
Definition from_tx_error `{Postgres} (e : TxError) : BackendError :=
  match e with TxPg p => from_pg_error p | TxOther b => b end.

(** How a round trip can fail outside the statements themselves: the transaction
    was lost, or it was committed and its acknowledgement was lost. *)
Inductive PgFault : Type := Lost (e : SqlxError) | AckLost (e : SqlxError).

Definition attempt {St A} (f : option PgFault) (op : io St TxError A) : io St TxError A := λ s,
  match f with
  | None => op s
  | Some (Lost e) => (Err (TxPg e), s)
  | Some (AckLost e) =>
      match op s with
      | (Ok _, s) => (Err (TxPg e), s)
      | (Err e, s) => (Err e, s)
      end
  end.

Definition retryable (e : TxError) : bool :=
  match e with TxPg p => is_transient p | TxOther _ => false end.

(** [with_transient_retry]: [with_max_times(2)] allows two retries; attempt [n] runs
    [op n] and meets the fault [faults n]. *)
Fixpoint retry_from {St A} (faults : nat → option PgFault) (op : nat → io St TxError A)
    (retries n : nat) : io St TxError A := λ s,
  match attempt (faults n) (op n) s with
  | (Ok a, s) => (Ok a, s)
  | (Err e, s) =>
      if retryable e then
        match retries with
        | O => (Err e, s)
        | S retries => retry_from faults op retries (S n) s
        end
      else (Err e, s)
  end.
Definition with_transient_retry `{Postgres} {St A} (faults : nat → option PgFault)
    (op : nat → io St TxError A) : io St BackendError A :=
  io_map_err from_tx_error (retry_from faults op 2 0).

(** ** The schema ([migrations/], [lib.rs]) *)

(** [sayiir_workflow_snapshots]. *)
Record SnapshotRow : Type := MkSnapshotRow {
  c_status : string;
  c_definition_hash : Bytes;
  c_current_task_id : option Bytes;
  c_completed_task_count : Z;                (* INT *)
  c_error : option string;
  c_position_kind : option string;
  c_delay_wake_at : option DateTime;
  c_trace_parent : option string;
  c_task_priority : Z;                       (* SMALLINT *)
  c_task_tags : list string;
  c_data_hash : option Bytes;
  c_history_version : Z;                     (* INT NOT NULL DEFAULT 1 *)
  c_started_at : DateTime;
  c_completed_at : option DateTime;
  c_updated_at : DateTime
}.
(** [sayiir_workflow_snapshot_history], unique on (instance, version). *)
Record HistoryRow : Type := MkHistoryRow {
  h_status : string;
  h_current_task_id : option Bytes;
  h_data : Bytes;
  h_data_hash : option Bytes
}.
(** [sayiir_workflow_tasks], primary key (instance, task). *)
Record TaskRow : Type := MkTaskRow {
  t_status : string;
  t_started_at : option DateTime;
  t_completed_at : option DateTime;
  t_error : option string;
  t_output : option Bytes
}.
(** [sayiir_workflow_events], in the order of its serial [id]. *)
Record EventRow : Type := MkEventRow {
  ev_id : Z;
  ev_instance_id : string;
  ev_signal_name : string;
  ev_payload : Bytes
}.
(** [sayiir_workflow_claims], primary key the instance. *)
Record ClaimRow : Type := MkClaimRow {
  k_task_id : Bytes;
  k_worker_id : string;
  k_claimed_at : DateTime;
  k_expires_at : option DateTime
}.

(** The database.  [sayiir_workflow_signals] has primary key (instance, kind);
    [db_notified] is what [NOTIFY] has delivered to listeners, [db_now] the
    server's clock, and the last two what other sessions hold locked. *)
Record PgDb : Type := MkPgDb {
  db_snapshots : gmap string SnapshotRow;
  db_history : gmap string (gmap Z HistoryRow);
  db_tasks : gmap string (gmap Bytes TaskRow);
  db_signals : gmap string (gmap string SignalRequest);
  db_events : list EventRow;
  db_event_seq : Z;
  db_claims : gmap string ClaimRow;
  db_notified : list (string * string);
  db_now : DateTime;
  db_row_locks : gset string;
  db_advisory_locks : gset string
}.
Definition db_empty (now : DateTime) : PgDb := MkPgDb ∅ ∅ ∅ ∅ [] 1 ∅ [] now ∅ ∅.

Definition db_set_snapshots v db := MkPgDb v (db_history db) (db_tasks db) (db_signals db) (db_events db)
  (db_event_seq db) (db_claims db) (db_notified db) (db_now db) (db_row_locks db) (db_advisory_locks db).
Definition db_set_history v db := MkPgDb (db_snapshots db) v (db_tasks db) (db_signals db) (db_events db)
  (db_event_seq db) (db_claims db) (db_notified db) (db_now db) (db_row_locks db) (db_advisory_locks db).
Definition db_set_tasks v db := MkPgDb (db_snapshots db) (db_history db) v (db_signals db) (db_events db)
  (db_event_seq db) (db_claims db) (db_notified db) (db_now db) (db_row_locks db) (db_advisory_locks db).
Definition db_set_signals v db := MkPgDb (db_snapshots db) (db_history db) (db_tasks db) v (db_events db)
  (db_event_seq db) (db_claims db) (db_notified db) (db_now db) (db_row_locks db) (db_advisory_locks db).
Definition db_set_events v n db := MkPgDb (db_snapshots db) (db_history db) (db_tasks db) (db_signals db) v
  n (db_claims db) (db_notified db) (db_now db) (db_row_locks db) (db_advisory_locks db).
Definition db_set_claims v db := MkPgDb (db_snapshots db) (db_history db) (db_tasks db) (db_signals db)
  (db_events db) (db_event_seq db) v (db_notified db) (db_now db) (db_row_locks db) (db_advisory_locks db).
Definition db_set_notified v db := MkPgDb (db_snapshots db) (db_history db) (db_tasks db) (db_signals db)
  (db_events db) (db_event_seq db) (db_claims db) v (db_now db) (db_row_locks db) (db_advisory_locks db).
(** The world between operations: time passes and other sessions take and drop locks. *)
Definition db_set_env now rows advisory db := MkPgDb (db_snapshots db) (db_history db) (db_tasks db)
  (db_signals db) (db_events db) (db_event_seq db) (db_claims db) (db_notified db) now rows advisory.

(** Rows of a table with a composite key. *)
Definition rows_of {K V} `{Countable K} (t : gmap string (gmap K V)) (id : string) : gmap K V :=
  default ∅ (t !! id).
Definition alter_rows {K V} `{Countable K} (id : string) (f : gmap K V → gmap K V)
    (t : gmap string (gmap K V)) : gmap string (gmap K V) := <[id := f (rows_of t id)]> t.

(** A statement or transaction: effects are kept only on success. *)
Definition transaction {St E A} (m : io St E A) : io St E A := λ s,
  match m s with
  | (Ok a, s') => (Ok a, s')
  | (Err e, _) => (Err e, s)
  end.
Definition modify_db {E} (f : PgDb → PgDb) : io PgDb E unit := λ db, (Ok (), f db).

Definition TASK_READY_CHANNEL : string := "sayiir_task_ready".
(** [pg_notify]: the payload must be shorter than 8000 bytes. *)
Definition pg_notify (channel payload : string) : io PgDb SqlxError unit := λ db,
  if bool_decide (8000 ≤ Z.of_nat (String.length payload))
  then (Err (Database (Some "22023") "payload string too long"), db)
  else (Ok (), db_set_notified (db_notified db ++ [(channel, payload)]) db).
(** [pg_notify($channel, $payload)] gated on a payload that is not NULL. *)
Definition notify_when (payload : option string) : io PgDb SqlxError unit :=
  match payload with Some p => pg_notify TASK_READY_CHANNEL p | None => mret () end.

(** INSERT into the history, whose unique index refuses a second row. *)
Definition insert_history (id : string) (version : Z) (row : HistoryRow) : io PgDb SqlxError unit := λ db,
  match rows_of (db_history db) id !! version with
  | Some _ => (Err (Database (Some "23505") "duplicate key value violates unique constraint"), db)
  | None => (Ok (), db_set_history (alter_rows id (insert version row) (db_history db)) db)
  end.

(** ** Blobs ([backend.rs], [history.rs], [wakeup.rs]) *)

(** [Display for FormatError]. *)
Definition FormatError_to_string (e : Frame.FormatError) : string :=
  match e with
  | Frame.MissingMagic =>
      "not a Sayiir 1.0+ snapshot (missing magic header). This looks " +:+
      "like a pre-1.0 snapshot, which the 1.0 wire format does not read: " +:+
      "drain in-flight workflows on the old version before upgrading."
  | Frame.Truncated =>
      "snapshot blob is truncated (shorter than the " +:+ pretty Frame.HEADER_LEN +:+ "-byte header)"
  | Frame.UnsupportedVersion v =>
      "unsupported snapshot format version " +:+ pretty (Byte.to_N v) +:+ " (this build understands " +:+
      "version " +:+ pretty (Byte.to_N Frame.SNAPSHOT_FORMAT_VERSION) +:+ "); upgrade Sayiir to read it"
  | Frame.UnknownCodec b => "unknown snapshot codec id: " +:+ pretty (Byte.to_N b)
  | Frame.CodecMismatch expected found =>
      "snapshot codec mismatch: blob was written with `" +:+ Frame.CodecId_name found +:+
      "` but this backend is configured with `" +:+ Frame.CodecId_name expected +:+
      "`. Configure the matching codec, or drain and re-run these workflows under the new codec."
  end.
Definition DecodeError_to_string (e : Frame.DecodeError string) : string :=
  match e with Frame.FromFormat e => FormatError_to_string e | Frame.FromCodec e => e end.

(** The codec of the backend, its errors by their messages.  The fields marked
    [serde(skip)] do not survive a round trip. *)
Abbreviation SnapshotCodec := (Frame.SnapshotCodec WorkflowSnapshot string).
Definition serde_skipped (s : WorkflowSnapshot) : WorkflowSnapshot :=
  with_trace_parent None (with_output_unflushed false s).
Class SnapshotCodecLaws `{SnapshotCodec} : Prop := {
  codec_encodes s : ∃ b, Frame.encode_value s = Ok b;
  codec_roundtrip s b : Frame.encode_value s = Ok b → Frame.decode_value b = Ok (serde_skipped s)
}.

Definition id_bytes (t : TaskId) : Bytes := hash_bytes (task_hash t).
Definition task_id_from_slice (b : Bytes) : result Hash32ParseError TaskId :=
  MkTaskId <$> Hash32.from_slice b.

Section Backend.
Context `{Sha256, Postgres, HintCodec, SnapshotCodec}.

Abbreviation PgOp := (io PgDb BackendError).
Definition pg {A} (m : io PgDb SqlxError A) : PgOp A := io_map_err from_pg_error m.

(** [build_task_ready_payload]. *)
Definition build_task_ready_payload (s : WorkflowSnapshot) : option string :=
  task_id ← current_task_id s;
  Some (hint_encode (MkWakeupHint (instance_id s) (task_hash task_id)
    (def_hash (snapshot_definition_hash s)) (task_tags s))).

(** [PostgresBackend::encode] and [decode]. *)
Definition encode (s : WorkflowSnapshot) : result BackendError Bytes :=
  map_err Serialization (Frame.encode_framed s).
Definition decode (data : Bytes) : result BackendError WorkflowSnapshot :=
  map_err (λ e, Serialization (DecodeError_to_string e)) (Frame.decode_framed data).

(** [snapshot_hash]. *)
Definition snapshot_hash (data : Bytes) : Bytes := hash_bytes (sha256 data).

(** [encode_blob]: strips the snapshot in place. *)
Definition encode_blob (s : WorkflowSnapshot) : result BackendError (Bytes * Bytes * WorkflowSnapshot) :=
  let s := strip_task_outputs s in
  data ← encode s;
  Ok (data, snapshot_hash data, s).

(** [encode_blob_preserving]: the outputs are put back after encoding. *)
Definition encode_blob_preserving (s : WorkflowSnapshot) :
    result BackendError (Bytes * Bytes * WorkflowSnapshot) :=
  let '(outputs, s) := take_task_outputs s in
  let encoded := encode s in
  let s := hydrate_task_outputs outputs s in
  data ← encoded;
  Ok (data, snapshot_hash data, s).

(** The rows of [sayiir_workflow_tasks] that hold a durable output. *)
Definition durable_output (r : TaskRow) : option Bytes :=
  if bool_decide (t_status r = "completed") then t_output r else None.
Definition output_rows (db : PgDb) (id : string) : list (Bytes * Bytes) :=
  omap (λ p : Bytes * TaskRow, pair p.1 <$> durable_output p.2) (map_to_list (rows_of (db_tasks db) id)).

Definition wrong_size (id : string) (b : Bytes) : BackendError :=
  BackendErr ("sayiir_workflow_tasks.task_id for instance " +:+ id +:+ " is " +:+
    pretty (length b) +:+ " bytes (expected 32)").
(** The loops that decode the [task_id] column. *)
Fixpoint parse_outputs (id : string) (rows : list (Bytes * Bytes)) :
    result BackendError (list (TaskId * Bytes)) :=
  match rows with
  | [] => Ok []
  | (k, output) :: rows =>
      task_id ← map_err (λ _, wrong_size id k) (task_id_from_slice k);
      rest ← parse_outputs id rows;
      Ok ((task_id, output) :: rest)
  end.

(** [fetch_task_outputs] and [fetch_task_output]. *)
Definition fetch_task_outputs (id : string) : PgOp (list (TaskId * Bytes)) := λ db,
  (parse_outputs id (row_order (output_rows db id)), db).
Definition fetch_task_output (id : string) (task_id : TaskId) : PgOp (option Bytes) := λ db,
  (Ok (rows_of (db_tasks db) id !! id_bytes task_id ≫= durable_output), db).

(** [fetch_blob]: [fetch_one] on the history. *)
Definition fetch_blob (id : string) (version : Z) : PgOp Bytes := λ db,
  (map_err from_pg_error (ok_or (h_data <$> rows_of (db_history db) id !! version) RowNotFound), db).

(** [ORDER BY task_id]: bytes compare lexicographically, as text of the same bytes
    does in the C collation. *)
Definition bytea_le (p q : Bytes * Bytes) : Prop :=
  string_le (String.string_of_list_byte p.1) (String.string_of_list_byte q.1).
#[export] Instance bytea_le_dec p q : Decision (bytea_le p q) := _.
(** The two arrays [array_agg(task_id ORDER BY task_id)] and
    [array_agg(output ORDER BY task_id)] over the same rows, zipped. *)
Definition aggregated_outputs (db : PgDb) (id : string) : list (Bytes * Bytes) :=
  let sorted := merge_sort bytea_le (output_rows db id) in zip sorted.*1 sorted.*2.

(** [lock_snapshot_for_mutation]. *)
Definition lock_snapshot_for_mutation (id : string) : PgOp (option (WorkflowSnapshot * Z)) := λ db,
  match db_snapshots db !! id with
  | None => (Ok None, db)
  | Some row =>
      let version := c_history_version row in
      match rows_of (db_history db) id !! version with
      | None => (Ok None, db)
      | Some h =>
          (s ← decode (h_data h);
           outputs ← parse_outputs id (aggregated_outputs db id);
           Ok (Some (hydrate_task_outputs outputs s, version)), db)
      end
  end.

(** [append_history]. *)
Definition append_history (id : string) (version : Z) (status : string)
    (current : option Bytes) (data data_hash : Bytes) : PgOp unit :=
  pg (insert_history id version (MkHistoryRow status current data (Some data_hash))).

(** ** [SnapshotStore] ([snapshot_store.rs]) *)

Definition terminal_text (status : string) : bool :=
  bool_decide (status = "Completed") || bool_decide (status = "Failed") ||
  bool_decide (status = "Cancelled").

(** The [snap] arm of the save statement: the upsert of the snapshot row, which does
    not touch a terminal one.  The new version, when a row was written. *)
Definition save_snap_arm (s : WorkflowSnapshot) (data_hash : Bytes) : io PgDb SqlxError (option Z) := λ db,
  let id := instance_id s in
  let now := db_now db in
  let terminal := is_terminal (state s) in
  let row version started completed_at :=
    MkSnapshotRow (state_name (state s)) (hash_bytes (def_hash (snapshot_definition_hash s)))
      (id_bytes <$> current_task_id s) (completed_task_count s) (error_message s) (position_kind s)
      (pg_timestamp <$> delay_wake_at s) (trace_parent s) (current_task_priority s) (task_tags s)
      (Some data_hash) version started completed_at now in
  match db_snapshots db !! id with
  | None =>
      (Ok (Some 1), db_set_snapshots
        (<[id := row 1 now (if terminal then Some now else None)]> (db_snapshots db)) db)
  | Some r =>
      if terminal_text (c_status r) then (Ok None, db)
      else if bool_decide (i32_max < c_history_version r + 1)
      then (Err (Database (Some "22003") "integer out of range"), db)
      else
        let version := c_history_version r + 1 in
        (Ok (Some version), db_set_snapshots
          (<[id := row version (c_started_at r) (if terminal then Some now else c_completed_at r)]>
            (db_snapshots db)) db)
  end.

(** The [task_active], [task_terminal] and [task_output] arms. *)
Definition task_active_arm (now : DateTime) (key : Bytes) (rows : gmap Bytes TaskRow) : gmap Bytes TaskRow :=
  <[key := match rows !! key with
           | None => MkTaskRow "active" (Some now) None None None
           | Some r =>
               MkTaskRow (if bool_decide (t_status r = "completed") then t_status r else "active")
                 (Some (default now (t_started_at r))) (t_completed_at r) (t_error r) (t_output r)
           end]> rows.
Definition task_terminal_arm (now : DateTime) (status : string) (error : option string)
    (rows : gmap Bytes TaskRow) : gmap Bytes TaskRow :=
  (λ r, if bool_decide (t_status r = "active")
        then MkTaskRow status (t_started_at r) (Some now) error (t_output r) else r) <$> rows.
(** [ON CONFLICT DO UPDATE] of an output, its WHERE skipping an equal one. *)
Definition task_output_arm (now : DateTime) (key : Bytes) (output : option Bytes)
    (rows : gmap Bytes TaskRow) : gmap Bytes TaskRow :=
  match rows !! key with
  | None => <[key := MkTaskRow "completed" None (Some now) None output]> rows
  | Some r =>
      if bool_decide (t_output r = None) || bool_decide (t_output r ≠ output)
      then <[key := MkTaskRow "completed" (t_started_at r) (Some now) None output]> rows
      else rows
  end.

(** What the statement writes to the tasks table: [$4], [$7], [$15], [$18], [$19]. *)
Definition save_task_arms (now : DateTime) (current : option Bytes) (terminal : bool) (status : string)
    (error : option string) (last : option Bytes) (output : option Bytes)
    (rows : gmap Bytes TaskRow) : gmap Bytes TaskRow :=
  let rows :=
    match current with
    | Some key =>
        if negb terminal && bool_decide (current ≠ last) then task_active_arm now key rows else rows
    | None => rows
    end in
  let rows := if terminal then task_terminal_arm now status error rows else rows in
  match last with Some key => task_output_arm now key output rows | None => rows end.

Definition terminal_status (s : WorkflowSnapshot) : string :=
  match snapshot_status s with SFailed => "failed" | SCancelled => "cancelled" | _ => "completed" end.

(** The save statement. *)
Definition save_statement (s : WorkflowSnapshot) (data data_hash : Bytes) : io PgDb SqlxError unit :=
  let id := instance_id s in
  let current := id_bytes <$> current_task_id s in
  let last := if output_unflushed s then last_completed_task_id s else None in
  let output := t ← last; tr_output <$> get_task_result t s in
  transaction (
    version ← save_snap_arm s data_hash;
    match version with
    | Some v => insert_history id v (MkHistoryRow (state_name (state s)) current data (Some data_hash))
    | None => mret ()
    end ≫= λ _,
    modify_db (λ db, db_set_tasks (alter_rows id (save_task_arms (db_now db) current
      (is_terminal (state s)) (terminal_status s) (error_message s) (id_bytes <$> last) output)
      (db_tasks db)) db) ≫= λ _,
    match version with
    | Some _ => notify_when (build_task_ready_payload s)
    | None => mret ()
    end).

(** [exec_save_snapshot]: the caller's snapshot comes back with its flag cleared. *)
Definition exec_save_snapshot (s : WorkflowSnapshot) : PgOp WorkflowSnapshot :=
  '(data, data_hash, s) ← lift_result (encode_blob_preserving s);
  pg (save_statement s data data_hash) ≫= λ _,
  mret (with_output_unflushed false s).
Definition pg_save_snapshot (s : WorkflowSnapshot) : PgOp WorkflowSnapshot := exec_save_snapshot s.

(** UPDATE of the row the caller has locked. *)
Definition update_row (id : string) (f : DateTime → SnapshotRow → SnapshotRow) : io PgDb SqlxError unit :=
  modify_db (λ db, db_set_snapshots (alter (f (db_now db)) id (db_snapshots db)) db).
(** UPSERT of a completed task row with its output. *)
Definition upsert_output (id : string) (task_id : TaskId) (output : Bytes) : io PgDb SqlxError unit :=
  modify_db (λ db, db_set_tasks (alter_rows id (λ rows,
    <[id_bytes task_id := MkTaskRow "completed" (rows !! id_bytes task_id ≫= t_started_at)
       (Some (db_now db)) None (Some output)]> rows) (db_tasks db)) db).

(** [save_task_result_once]. *)
Definition save_task_result_once (now : DateTime) (id : string) (task_id : TaskId) (output : Bytes) :
    io PgDb TxError unit :=
  transaction (
    locked ← io_map_err TxOther (lock_snapshot_for_mutation id);
    '(s, prev_version) ← lift_result (ok_or locked (TxOther (NotFound id)));
    let s := mark_task_completed now task_id output s in
    '(data, data_hash, s) ← lift_result (map_err TxOther (encode_blob s));
    let next_version := as_i32 (prev_version + 1) in
    let current := id_bytes <$> current_task_id s in
    io_map_err TxPg (
      update_row id (λ now r,
        MkSnapshotRow (state_name (state s)) (c_definition_hash r) current (completed_task_count s)
          (c_error r) (c_position_kind r) (c_delay_wake_at r) (c_trace_parent r) (c_task_priority r)
          (c_task_tags r) (Some data_hash) next_version (c_started_at r) (c_completed_at r) now) ≫= λ _,
      insert_history id next_version
        (MkHistoryRow (state_name (state s)) current data (Some data_hash)) ≫= λ _,
      upsert_output id task_id output)).

(** [save_task_result]: attempt [n] reads the clock [clock n]. *)
Definition save_task_result_faulty (faults : nat → option PgFault) (clock : nat → DateTime) (id : string)
    (task_id : TaskId) (output : Bytes) : PgOp unit :=
  with_transient_retry faults (λ n, save_task_result_once (clock n) id task_id output).
Definition pg_save_task_result (now : DateTime) (id : string) (task_id : TaskId) (output : Bytes) : PgOp unit :=
  save_task_result_faulty (λ _, None) (λ _, now) id task_id output.

(** [load_snapshot]. *)
Definition pg_load_snapshot (id : string) : PgOp WorkflowSnapshot :=
  db ← get_state;
  row ← lift_result (ok_or (db_snapshots db !! id) (NotFound id));
  data ← fetch_blob id (c_history_version row);
  s ← lift_result (decode data);
  let s := with_trace_parent (c_trace_parent row) s in
  outputs ← fetch_task_outputs id;
  mret (hydrate_task_outputs outputs s).

(** [delete_snapshot]: the row and every child table, in one statement. *)
Definition pg_delete_snapshot (id : string) : PgOp unit := λ db,
  let db' :=
    db_set_snapshots (delete id (db_snapshots db))
      (db_set_history (delete id (db_history db))
        (db_set_tasks (delete id (db_tasks db))
          (db_set_events (List.filter (λ e, bool_decide (ev_instance_id e ≠ id)) (db_events db))
              (db_event_seq db)
            (db_set_signals (delete id (db_signals db))
              (db_set_claims (delete id (db_claims db)) db))))) in
  match db_snapshots db !! id with
  | Some _ => (Ok (), db')
  | None => (Err (NotFound id), db')
  end.

(** [list_snapshots] and [list_snapshots_page]. *)
Definition text_order (a b : string) : Prop := text_le a b.
#[export] Instance text_order_dec a b : Decision (text_order a b) := _.
Definition ordered_ids (db : PgDb) : list string :=
  merge_sort text_order (map_to_list (db_snapshots db)).*1.
Definition pg_list_snapshots : PgOp (list string) := λ db, (Ok (ordered_ids db), db).
(** [instance_id > $1] is the strict order of the collation. *)
Definition text_gt (a b : string) : bool := text_le b a && bool_decide (a ≠ b).
Definition list_snapshots_page (after : option string) (limit : Z) : PgOp (list string) := λ db,
  if bool_decide (limit < 0) then (Err (from_pg_error (Database (Some "2201W") "LIMIT must not be negative")), db)
  else
    (Ok (take (Z.to_nat limit) (List.filter (λ id, match after with Some a => text_gt id a | None => true end)
      (ordered_ids db))), db).

(** ** [TaskResultStore] ([task_result_store.rs]) *)

(** [ORDER BY version DESC LIMIT 1] over the history rows in progress. *)
Definition last_in_progress (rows : gmap Z HistoryRow) : option (Z * HistoryRow) :=
  map_fold (λ v h acc,
    if bool_decide (h_status h = "InProgress") then
      match acc with
      | Some (v', _) => if bool_decide (v' < v) then Some (v, h) else acc
      | None => Some (v, h)
      end
    else acc) None rows.
Definition load_last_in_progress_snapshot (id : string) : PgOp (option WorkflowSnapshot) :=
  db ← get_state;
  match last_in_progress (rows_of (db_history db) id) with
  | None => mret None
  | Some (_, h) =>
      s ← lift_result (decode (h_data h));
      outputs ← fetch_task_outputs id;
      mret (Some (hydrate_task_outputs outputs s))
  end.
Definition pg_load_task_result (id : string) (task_id : TaskId) : PgOp (option Bytes) :=
  fast ← fetch_task_output id task_id;
  match fast with
  | Some output => mret (Some output)
  | None =>
      s ← pg_load_snapshot id;
      match get_task_result_bytes task_id s with
      | Some bytes => mret (Some bytes)
      | None =>
          if is_completed (state s) || is_failed (state s) then
            hist ← load_last_in_progress_snapshot id;
            match hist with
            | Some h => mret (get_task_result_bytes task_id h)
            | None => mret None
            end
          else mret None
      end
  end.
End Backend.
