(* ===== verification/PostgresSignals.v ===== *)
(** * The Postgres backend: signals and events ([sayiir-postgres/src/signal_store.rs])

    The [SignalStore] implementation: signals validated under the snapshot's row
    lock, the event queue with the inline resumption of a workflow parked at a
    signal, and the composites as single transactions, with the backend's
    instance of the persistence interface. *)

From S2P Require Import Prelude Hash32 SnapshotFormat Task Workflow Snapshot Backend ClaimStore.
From S2P Require Import Postgres.

(** [strum::AsRefStr] of the kind. *)
Definition SignalKind_as_ref (k : SignalKind) : string :=
  match k with Cancel => "Cancel" | Pause => "Pause" end.

(** [signal_resume_target]. *)
Definition signal_resume_target (s : WorkflowSnapshot) (name : string) : option (TaskId * option TaskId) :=
  match state s with
  | InProgress (AtSignal signal_id parked_name _ next_task_id) _ _ =>
      if bool_decide (parked_name = name) then Some (signal_id, next_task_id) else None
  | _ => None
  end.

Section Signals.
Context `{Sha256, Postgres, HintCodec, SnapshotCodec}.
Abbreviation PgOp := (io PgDb BackendError).

Definition signal_row (db : PgDb) (id : string) (kind : SignalKind) : option SignalRequest :=
  rows_of (db_signals db) id !! SignalKind_as_ref kind.

(** [store_signal]: [created_at] is the server's clock. *)
Definition pg_store_signal (id : string) (kind : SignalKind) (request : SignalRequest) : PgOp unit :=
  transaction (
    db ← get_state;
    row ← lift_result (ok_or (db_snapshots db !! id) (NotFound id));
    lift_result (validate_signal_allowed (c_status row) kind) ≫= λ _,
    modify_db (λ db, db_set_signals (alter_rows id
      (insert (SignalKind_as_ref kind)
        (MkSignalRequest (sr_reason request) (sr_requested_by request) (db_now db))) (db_signals db)) db)).

(** [get_signal], [clear_signal]. *)
Definition pg_get_signal (id : string) (kind : SignalKind) : PgOp (option SignalRequest) := λ db,
  (Ok (signal_row db id kind), db).
Definition delete_signal (id : string) (kind : SignalKind) : PgDb → PgDb := λ db,
  db_set_signals (alter_rows id (delete (SignalKind_as_ref kind)) (db_signals db)) db.
Definition pg_clear_signal (id : string) (kind : SignalKind) : PgOp unit :=
  modify_db (delete_signal id kind).

(** INSERT into the events; the serial numbers the row. *)
Definition insert_event (id name : string) (payload : Bytes) : PgDb → PgDb := λ db,
  db_set_events (db_events db ++ [MkEventRow (db_event_seq db) id name payload]) (db_event_seq db + 1) db.

(** The row UPDATE the signal paths share: the columns each sets. *)
Definition position_columns (s : WorkflowSnapshot) (data_hash : Bytes) (version : Z)
    (completed_at : DateTime → option DateTime → option DateTime) (now : DateTime) (r : SnapshotRow) :
    SnapshotRow :=
  MkSnapshotRow (state_name (state s)) (c_definition_hash r) (id_bytes <$> current_task_id s)
    (completed_task_count s) (c_error r) (position_kind s) (pg_timestamp <$> delay_wake_at s)
    (c_trace_parent r) (c_task_priority r) (c_task_tags r) (Some data_hash) version (c_started_at r)
    (completed_at now (c_completed_at r)) now.

(** The inline resumption inside [send_event]'s transaction. *)
Definition resume_at_signal (now : DateTime) (id : string) (payload : Bytes) (s : WorkflowSnapshot)
    (prev_version : Z) (signal_id : TaskId) (next_task_id : option TaskId) : PgOp unit :=
  let s := mark_task_completed now signal_id payload s in
  let s :=
    match next_task_id with
    | Some next_id => update_position now (AtTask next_id) s
    | None => mark_completed now payload s
    end in
  '(data, data_hash, s) ← lift_result (encode_blob s);
  let version := as_i32 (prev_version + 1) in
  pg (
    update_row id (position_columns s data_hash version
      (λ now completed_at, if is_terminal (state s) then Some now else completed_at)) ≫= λ _,
    upsert_output id signal_id payload ≫= λ _,
    notify_when (build_task_ready_payload s)) ≫= λ _,
  append_history id version (state_name (state s)) (id_bytes <$> current_task_id s) data data_hash.

(** [send_event]: the probe, then the transaction when the row is in progress. *)
Definition send_event_at (now : DateTime) (id name : string) (payload : Bytes) : PgOp unit :=
  db ← get_state;
  let in_progress :=
    match db_snapshots db !! id with Some r => bool_decide (c_status r = "InProgress") | None => false end in
  if negb in_progress then modify_db (insert_event id name payload)
  else
    transaction (
      locked ← lock_snapshot_for_mutation id;
      match locked with
      | Some (s, prev_version) =>
          match signal_resume_target s name with
          | Some (signal_id, next_task_id) =>
              resume_at_signal now id payload s prev_version signal_id next_task_id
          | None => modify_db (insert_event id name payload)
          end
      | None => modify_db (insert_event id name payload)
      end).
(** The clocks of the application and the server agree when the operation is used
    through the interface, which passes no clock to it. *)
Definition pg_send_event (id name : string) (payload : Bytes) : PgOp unit := λ db,
  send_event_at (db_now db) id name payload db.

(** [consume_event]: delete and return the oldest event of the queue. *)
Definition of_queue (id name : string) (e : EventRow) : bool :=
  bool_decide (ev_instance_id e = id) && bool_decide (ev_signal_name e = name).
Fixpoint pop_first (p : EventRow → bool) (l : list EventRow) : option EventRow * list EventRow :=
  match l with
  | [] => (None, [])
  | e :: l => if p e then (Some e, l) else let '(r, l) := pop_first p l in (r, e :: l)
  end.
Definition pg_consume_event (id name : string) : PgOp (option Bytes) := λ db,
  let '(row, events) := pop_first (of_queue id name) (db_events db) in
  (Ok (ev_payload <$> row), db_set_events events (db_event_seq db) db).

(** [check_and_cancel]. *)
Definition cancel_columns (s : WorkflowSnapshot) (data_hash : Bytes) (version : Z) (now : DateTime)
    (r : SnapshotRow) : SnapshotRow :=
  MkSnapshotRow (state_name (state s)) (c_definition_hash r) (c_current_task_id r)
    (c_completed_task_count r) (error_message s) (position_kind s) (pg_timestamp <$> delay_wake_at s)
    (c_trace_parent r) (c_task_priority r) (c_task_tags r) (Some data_hash) version (c_started_at r)
    (Some now) now.
Definition cancel_active (id : string) : PgDb → PgDb := λ db,
  db_set_tasks (alter_rows id (fmap (λ r, if bool_decide (t_status r = "active")
    then MkTaskRow "cancelled" (t_started_at r) (Some (db_now db)) (t_error r) (t_output r) else r))
    (db_tasks db)) db.
Definition pg_check_and_cancel (now : DateTime) (id : string) (interrupted_at_task : option TaskId) :
    PgOp bool :=
  transaction (
    db ← get_state;
    match signal_row db id Cancel with
    | None => mret false
    | Some request =>
        locked ← lock_snapshot_for_mutation id;
        match locked with
        | None => mret false
        | Some (s, prev_version) =>
            if negb (is_in_progress (state s)) then mret false
            else
              let s := mark_cancelled now (sr_reason request) (sr_requested_by request)
                interrupted_at_task s in
              '(data, data_hash, s) ← lift_result (encode_blob s);
              let version := as_i32 (prev_version + 1) in
              pg (update_row id (cancel_columns s data_hash version) ≫= λ _,
                  notify_when (build_task_ready_payload s)) ≫= λ _,
              append_history id version (state_name (state s)) (id_bytes <$> interrupted_at_task)
                data data_hash ≫= λ _,
              modify_db (cancel_active id) ≫= λ _,
              modify_db (delete_signal id Cancel) ≫= λ _,
              mret true
        end
    end).

(** The write [check_and_pause] and [unpause] share. *)
Definition rewrite_position (id : string) (s : WorkflowSnapshot) (prev_version : Z) :
    PgOp WorkflowSnapshot :=
  '(data, data_hash, s) ← lift_result (encode_blob s);
  let version := as_i32 (prev_version + 1) in
  pg (update_row id (position_columns s data_hash version (λ _ completed_at, completed_at)) ≫= λ _,
      notify_when (build_task_ready_payload s)) ≫= λ _,
  append_history id version (state_name (state s)) (id_bytes <$> current_task_id s) data data_hash ≫= λ _,
  mret s.

(** [check_and_pause]. *)
Definition pg_check_and_pause (now : DateTime) (id : string) : PgOp bool :=
  transaction (
    db ← get_state;
    match signal_row db id Pause with
    | None => mret false
    | Some request =>
        locked ← lock_snapshot_for_mutation id;
        match locked with
        | None => mret false
        | Some (s, prev_version) =>
            if negb (is_in_progress (state s)) then mret false
            else
              rewrite_position id (mark_paused now
                (MkPauseRequest (sr_reason request) (sr_requested_by request) now) s) prev_version ≫= λ _,
              modify_db (delete_signal id Pause) ≫= λ _,
              mret true
        end
    end).

(** [check_control_signals]: one probe for any signal row first. *)
Definition pg_check_control_signals (now : DateTime) (id : string) (interrupted_at_task : option TaskId) :
    PgOp (option ControlSignal) :=
  db ← get_state;
  if bool_decide (rows_of (db_signals db) id = ∅) then mret None
  else
    cancelled ← pg_check_and_cancel now id interrupted_at_task;
    if (cancelled : bool) then mret (Some CSCancelled)
    else
      paused ← pg_check_and_pause now id;
      if (paused : bool) then mret (Some CSPaused) else mret None.

(** [unpause]: the snapshot it returns has been stripped by [encode_blob]. *)
Definition pg_unpause (now : DateTime) (id : string) : PgOp WorkflowSnapshot :=
  transaction (
    locked ← lock_snapshot_for_mutation id;
    '(s, prev_version) ← lift_result (ok_or locked (NotFound id));
    if negb (is_paused (state s)) then
      throw (CannotPause ("Workflow is not paused (current state: " +:+
        debug_str (state_name (state s)) +:+ ")"))
    else rewrite_position id (mark_unpaused now s) prev_version).

(** [impl SnapshotStore] and [impl SignalStore] for [PostgresBackend]. *)
#[export] Instance postgres : PersistentBackend PgDb := {
  save_snapshot := pg_save_snapshot;
  save_task_result := pg_save_task_result;
  load_snapshot := pg_load_snapshot;
  delete_snapshot := pg_delete_snapshot;
  list_snapshots := pg_list_snapshots;
  store_signal := pg_store_signal;
  get_signal := pg_get_signal;
  clear_signal := pg_clear_signal;
  send_event := pg_send_event;
  consume_event := pg_consume_event;
  check_and_cancel := pg_check_and_cancel;
  check_and_pause := pg_check_and_pause;
  unpause := pg_unpause
}.
End Signals.
