(* ===== verification/PostgresClaims.v ===== *)
(** * The Postgres backend: claims and dispatch ([sayiir-postgres/src/task_claim_store.rs])

    The [TaskClaimStore] implementation: one claim row per instance taken under
    an advisory lock, renewal and release, the two-arm dispatch query with its
    scoring, the targeted lookup of a hint, and the fenced save. *)

From S2P Require Import Prelude Hash32 SnapshotFormat Task Workflow Snapshot Backend InMemory.
From S2P Require Import ClaimStore Postgres PostgresSignals.
From Stdlib Require Import Floats.SpecFloat.

Definition claim_live (now : DateTime) (c : ClaimRow) : bool :=
  match k_expires_at c with None => true | Some e => bool_decide (now < e) end.

(** [ELIGIBILITY_PREDICATE]: no live claim and no pending signal. *)
Definition pg_eligible (db : PgDb) (id : string) : bool :=
  negb (match db_claims db !! id with Some c => claim_live (db_now db) c | None => false end) &&
  bool_decide (rows_of (db_signals db) id = ∅).

(** [f64::total_cmp]. *)
Definition f64_negative (x : f64) : bool :=
  match x with
  | S754_zero sgn | S754_infinity sgn | S754_finite sgn _ _ => sgn
  | S754_nan => false
  end.
Definition f64_total_cmp (x y : f64) : comparison :=
  match SFcompare x y with
  | Some Eq => bool_cmp (f64_negative y) (f64_negative x)
  | Some c => c
  | None =>
      bool_cmp (bool_decide (SFcompare x x = None)) (bool_decide (SFcompare y y = None))
  end.

(** [build_available_task]. *)
Definition build_available_task (s : WorkflowSnapshot) (task_id : TaskId) : option AvailableTask :=
  match state s with
  | InProgress _ completed _ =>
      let input := if bool_decide (completed = ∅) then initial_input s else get_last_task_output s in
      (λ input_bytes, MkAvailableTask (instance_id s) task_id input_bytes (snapshot_definition_hash s)
        (trace_parent s) s) <$> input
  | _ => None
  end.

(** The answer of the release and renewal statements. *)
Record Writeback : Type := MkWriteback {
  wb_done : bool;
  wb_owner : option string;
  wb_current_task_id : option Bytes
}.

(** [disambiguate_writeback]. *)
Definition claim_name (id : string) (task_id : TaskId) : string := id +:+ ":" +:+ to_hex (task_hash task_id).
Definition disambiguate_writeback (row : Writeback) (id : string) (task_id : TaskId) (worker_id : string) :
    result BackendError unit :=
  if wb_done row then Ok ()
  else
    match wb_owner row with
    | None => Err (NotFound (claim_name id task_id))
    | Some owner =>
        if bool_decide (owner ≠ worker_id)
        then Err (ClaimLost ("claim on " +:+ claim_name id task_id +:+ " owned by " +:+ owner))
        else
          match wb_current_task_id row with
          | Some bytes =>
              if bool_decide (bytes = id_bytes task_id) then Ok () else Err (NotFound (claim_name id task_id))
          | None => Err (NotFound (claim_name id task_id))
          end
    end.
(** The [probe] arm: the row as it is when the write matched none. *)
Definition probe_claim (db : PgDb) (id : string) (done : bool) : Writeback :=
  MkWriteback done
    (if done then None else k_worker_id <$> db_claims db !! id)
    (if done then None else k_task_id <$> db_claims db !! id).

Section Claims.
Context `{Sha256, Postgres, HintCodec, SnapshotCodec, Chrono}.
Abbreviation PgOp := (io PgDb BackendError).

(** [claim_task]: [now] is the worker's clock, which dates the expiry. *)
Definition pg_claim_task (now : DateTime) (id : string) (task_id : TaskId) (worker_id : string)
    (ttl : option Duration) : PgOp (option TaskClaim) := λ db,
  let expires_at := pg_timestamp <$> (ttl ≫= checked_add_signed now) in
  let probe := db_snapshots db !! id in
  let got := bool_decide (id ∉ db_advisory_locks db) in
  let claimable :=
    match probe with
    | Some r =>
        got && bool_decide (c_status r = "InProgress") &&
        bool_decide (c_current_task_id r = Some (id_bytes task_id)) &&
        negb (match db_claims db !! id with Some c => claim_live (db_now db) c | None => false end)
    | None => false
    end in
  (* ON CONFLICT: only an expired row is replaced *)
  let upsert :=
    claimable &&
    match db_claims db !! id with
    | None => true
    | Some c => match k_expires_at c with Some e => bool_decide (e ≤ db_now db) | None => false end
    end in
  if upsert then
    (Ok (Some (MkTaskClaim id task_id worker_id (timestamp_u64 (db_now db)) (timestamp_u64 <$> expires_at))),
     db_set_claims (<[id := MkClaimRow (id_bytes task_id) worker_id (db_now db) expires_at]>
       (db_claims db)) db)
  else
    match probe with
    | None => (Err (NotFound (claim_name id task_id)), db)
    | Some _ => (Ok None, db)
    end.

(** The row a (instance, worker, task) statement matches. *)
Definition owned_claim (db : PgDb) (id : string) (task_id : TaskId) (worker_id : string) : option ClaimRow :=
  match db_claims db !! id with
  | Some c =>
      if bool_decide (k_worker_id c = worker_id) && bool_decide (k_task_id c = id_bytes task_id)
      then Some c else None
  | None => None
  end.

(** [release_task_claim]. *)
Definition pg_release_task_claim (id : string) (task_id : TaskId) (worker_id : string) : PgOp unit := λ db,
  let done := bool_decide (is_Some (owned_claim db id task_id worker_id)) in
  (disambiguate_writeback (probe_claim db id done) id task_id worker_id,
   if done then db_set_claims (delete id (db_claims db)) db else db).

(** [extend_task_claim]: a claim without expiry is not given one. *)
Definition pg_extend_task_claim (id : string) (task_id : TaskId) (worker_id : string) (ttl : Duration) :
    PgOp unit :=
  interval ← lift_result (map_err from_pg_error (pg_interval ttl));
  db ← get_state;
  match owned_claim db id task_id worker_id with
  | Some (MkClaimRow t w c (Some _)) =>
      expiry ← lift_result (map_err from_pg_error (pg_add_interval (db_now db) interval));
      put_state (db_set_claims (<[id := MkClaimRow t w c (Some expiry)]> (db_claims db)) db) ≫= λ _,
      lift_result (disambiguate_writeback (probe_claim db id true) id task_id worker_id)
  | _ => lift_result (disambiguate_writeback (probe_claim db id false) id task_id worker_id)
  end.

(** *** [find_available_tasks] *)

Definition dispatchable (now : DateTime) (r : SnapshotRow) : bool :=
  bool_decide (c_status r = "InProgress") &&
  (bool_decide (c_position_kind r = Some "AtTask") ||
   (bool_decide (c_position_kind r = Some "AtDelay") &&
    match c_delay_wake_at r with Some w => bool_decide (w ≤ now) | None => false end)).

(** The rows an arm ranges over: the tag filter is [task_tags <@ worker_tags], rows
    locked elsewhere are skipped. *)
Definition pg_offered (worker_tags : list string) (db : PgDb) (p : string * SnapshotRow) : bool :=
  let '(id, r) := p in
  dispatchable (db_now db) r && pg_eligible db id &&
  (bool_decide (worker_tags = []) || forallb (λ t, bool_decide (t ∈ worker_tags)) (c_task_tags r)) &&
  bool_decide (id ∉ db_row_locks db).

Definition by_priority (p q : string * SnapshotRow) : Prop :=
  c_task_priority p.2 < c_task_priority q.2 ∨
  (c_task_priority p.2 = c_task_priority q.2 ∧ c_updated_at p.2 ≤ c_updated_at q.2).
#[export] Instance by_priority_dec p q : Decision (by_priority p q).
Proof. unfold by_priority. apply _. Defined.
Definition by_age (p q : string * SnapshotRow) : Prop := c_updated_at p.2 ≤ c_updated_at q.2.
#[export] Instance by_age_dec p q : Decision (by_age p q).
Proof. unfold by_age. apply _. Defined.
Definition arm (order : relation (string * SnapshotRow)) `{∀ p q, Decision (order p q)} (limit : nat)
    (worker_tags : list string) (db : PgDb) : list (string * SnapshotRow) :=
  take limit (merge_sort order (List.filter (pg_offered worker_tags db)
    (row_order (map_to_list (db_snapshots db))))).

(** [DISTINCT ON (instance_id) ... ORDER BY instance_id] of the two arms. *)
Definition by_id (p q : string * SnapshotRow) : Prop := text_le p.1 q.1.
#[export] Instance by_id_dec p q : Decision (by_id p q).
Proof. unfold by_id. apply _. Defined.
Fixpoint distinct_on (l : list (string * SnapshotRow)) : list (string * SnapshotRow) :=
  match l with
  | [] => []
  | p :: l => p :: List.filter (λ q, bool_decide (q.1 ≠ p.1)) (distinct_on l)
  end.

(** The query: the candidates joined with the history row they point to. *)
Record DispatchRow : Type := MkDispatchRow {
  d_instance_id : string;
  d_task_priority : Z;
  d_updated_at : DateTime;
  d_data : Bytes;
  d_trace_parent : option string
}.
Definition dispatch_rows (limit : nat) (worker_tags : list string) (db : PgDb) : list DispatchRow :=
  let arms := arm by_priority limit worker_tags db ++ arm by_age limit worker_tags db in
  let distinct := distinct_on (merge_sort by_id arms) in
  row_order (omap (λ p : string * SnapshotRow,
    h ← rows_of (db_history db) p.1 !! c_history_version p.2;
    Some (MkDispatchRow p.1 (c_task_priority p.2) (c_updated_at p.2) (h_data h) (c_trace_parent p.2)))
    distinct).

(** The score of a row: its priority less one level per interval waited. *)
Definition dispatch_score (now : DateTime) (aging_interval : Duration) (r : DispatchRow) : f64 :=
  let age_secs := f64_div (f64_of_Z (Z.quot (now - d_updated_at r) ns_per_ms)) (f64_of_Z 1000) in
  f64_sub (f64_of_Z (d_task_priority r)) (f64_div age_secs (aging_secs aging_interval)).
Definition by_score (p q : f64 * DispatchRow) : Prop := f64_total_cmp p.1 q.1 ≠ Gt.
#[export] Instance by_score_dec p q : Decision (by_score p q).
Proof. unfold by_score. apply _. Defined.
Definition scored_rows (now : DateTime) (aging_interval : Duration) (limit : nat) (rows : list DispatchRow) :
    list DispatchRow :=
  take limit (merge_sort by_score (map (λ r, (dispatch_score now aging_interval r, r)) rows)).*2.

Fixpoint decode_rows (rows : list DispatchRow) : result BackendError (list WorkflowSnapshot) :=
  match rows with
  | [] => Ok []
  | r :: rows =>
      s ← decode (d_data r);
      rest ← decode_rows rows;
      Ok (with_trace_parent (d_trace_parent r) s :: rest)
  end.

(** [fetch_task_outputs_batched]: the rows of several instances, grouped. *)
Fixpoint group_outputs (rows : list (string * (Bytes * Bytes)))
    (grouped : gmap string (list (TaskId * Bytes))) : result BackendError (gmap string (list (TaskId * Bytes))) :=
  match rows with
  | [] => Ok grouped
  | (id, (k, output)) :: rows =>
      task_id ← map_err (λ _, wrong_size id k) (task_id_from_slice k);
      group_outputs rows (<[id := default [] (grouped !! id) ++ [(task_id, output)]]> grouped)
  end.
Definition fetch_task_outputs_batched (ids : list string) : PgOp (gmap string (list (TaskId * Bytes))) := λ db,
  if bool_decide (ids = []) then (Ok ∅, db)
  else
    (group_outputs (row_order (flat_map (λ id, map (pair id) (output_rows db id)) (remove_dups ids))) ∅, db).
(** Each snapshot takes its outputs out of the map. *)
Fixpoint hydrate_all (l : list WorkflowSnapshot) (outputs : gmap string (list (TaskId * Bytes))) :
    list WorkflowSnapshot :=
  match l with
  | [] => []
  | s :: l =>
      match outputs !! instance_id s with
      | Some o => hydrate_task_outputs o s :: hydrate_all l (delete (instance_id s) outputs)
      | None => s :: hydrate_all l outputs
      end
  end.

(** What a candidate offers: advance its expired delay, or dispatch its task. *)
Inductive Offer : Type :=
| OfferAdvance (next_id : TaskId)
| OfferComplete (output : Bytes)
| OfferTask (task_id : TaskId)
| OfferNone.
Definition offer_of (now : DateTime) (s : WorkflowSnapshot) : Offer :=
  match state s with
  | InProgress (AtDelay delay_id _ wake_at next_task_id) _ _ =>
      if bool_decide (wake_at ≤ now) then
        match next_task_id with
        | Some next_id => OfferAdvance next_id
        | None => OfferComplete (default [] (get_task_result_bytes delay_id s))
        end
      else OfferNone
  | InProgress (AtTask task_id) completed _ =>
      if bool_decide (is_Some (completed !! task_id)) then OfferNone
      else if backoff_pending now task_id s then OfferNone
      else OfferTask task_id
  | _ => OfferNone
  end.

(** The loop, with its [break] once the limit is reached. *)
Fixpoint offer_loop (now : DateTime) (worker_id : string) (limit : nat) (l : list WorkflowSnapshot)
    (available : list (bool * AvailableTask)) : PgOp (list (bool * AvailableTask)) :=
  let push (s : WorkflowSnapshot) task_id l (available : list (bool * AvailableTask)) :
      PgOp (list (bool * AvailableTask)) :=
    let bias := has_failed_on_worker task_id worker_id s in
    let available :=
      match build_available_task s task_id with
      | Some task => available ++ [(bias, task)]
      | None => available
      end in
    if bool_decide (limit ≤ length available)%nat then mret available
    else offer_loop now worker_id limit l available in
  match l with
  | [] => mret available
  | s :: l =>
      match offer_of now s with
      | OfferAdvance next_id =>
          s ← pg_save_snapshot (update_position now (AtTask next_id) s);
          push s next_id l available
      | OfferComplete output =>
          pg_save_snapshot (mark_completed now output s) ≫= λ _,
          offer_loop now worker_id limit l available
      | OfferTask task_id => push s task_id l available
      | OfferNone => offer_loop now worker_id limit l available
      end
  end.

(** [sort_by_key] on the bias: stable, unbiased tasks first. *)
Definition by_bias (p q : bool * AvailableTask) : Prop := bool_cmp p.1 q.1 ≠ Gt.
#[export] Instance by_bias_dec p q : Decision (by_bias p q).
Proof. unfold by_bias. apply _. Defined.

Definition pg_find_available_tasks (now : DateTime) (worker_id : string) (limit : nat)
    (aging_interval : Duration) (worker_tags : list string) : PgOp (list AvailableTask) :=
  db ← get_state;
  decoded ← lift_result (decode_rows (scored_rows now aging_interval limit
    (dispatch_rows limit worker_tags db)));
  outputs ← fetch_task_outputs_batched (map instance_id decoded);
  available ← offer_loop now worker_id limit (hydrate_all decoded outputs) [];
  mret (merge_sort by_bias available).*2.

(** [find_hinted_task]. *)
Definition hint_matches (hint_task : TaskId) (s : WorkflowSnapshot) : bool :=
  match state s with
  | InProgress (AtTask task_id) completed _ =>
      bool_decide (task_id = hint_task) && bool_decide (completed !! task_id = None)
  | _ => false
  end.
Definition pg_find_hinted_task (hint : TaskWakeupHint) : PgOp (option AvailableTask) := λ db,
  let id := hint_instance_id hint in
  let row :=
    r ← db_snapshots db !! id;
    h ← rows_of (db_history db) id !! c_history_version r;
    if bool_decide (c_current_task_id r = Some (hash_bytes (hint_task_id hint))) &&
       bool_decide (c_status r = "InProgress") && pg_eligible db id
    then Some (r, h) else None in
  match row with
  | None => (Ok None, db)
  | Some (r, h) =>
      (s ← decode (h_data h);
       outputs ← parse_outputs id (aggregated_outputs db id);
       let s := hydrate_task_outputs outputs (with_trace_parent (c_trace_parent r) s) in
       let hint_task := MkTaskId (hint_task_id hint) in
       Ok (if hint_matches hint_task s then build_available_task s hint_task else None), db)
  end.

(** [save_snapshot_fenced]. *)
Definition holds_claim (id : string) (task_id : TaskId) (worker_id : string) (db : PgDb) : bool :=
  match owned_claim db id task_id worker_id with Some c => claim_live (db_now db) c | None => false end.
Definition pg_save_snapshot_fenced (s : WorkflowSnapshot) (task_id : TaskId) (worker_id : string) :
    PgOp (bool * WorkflowSnapshot) :=
  transaction (
    db ← get_state;
    if holds_claim (instance_id s) task_id worker_id db
    then s ← exec_save_snapshot s; mret (true, s)
    else mret (false, s)).

(** [impl TaskClaimStore for PostgresBackend]; the renewal runs on the server's clock. *)
#[export] Instance postgres_claims : Claims.TaskClaimStore PgDb := {
  Claims.claim_task := pg_claim_task;
  Claims.release_task_claim := pg_release_task_claim;
  Claims.extend_task_claim _ := pg_extend_task_claim;
  Claims.find_available_tasks := pg_find_available_tasks;
  Claims.find_hinted_task := pg_find_hinted_task;
  Claims.save_snapshot_fenced _ := pg_save_snapshot_fenced
}.
End Claims.
