(* ===== verification/PostgresProps.v ===== *)
(** * The Postgres backend: the store it implements

    The invariant of the tables (every snapshot row points to a history row whose
    blob decodes and whose columns it mirrors, outputs live in the task sidecar
    only), what each operation does to the snapshots a load returns, and the
    refinement of the interface's default composites. *)

From S2P Require Import Prelude Hash32 SnapshotFormat Task Workflow Snapshot Backend InMemory.
From S2P Require Import ClaimStore Postgres PostgresSignals PostgresClaims.

#[local] Arguments transaction : simpl never.
#[local] Arguments encode : simpl never.
#[local] Arguments decode : simpl never.
#[local] Arguments fetch_task_outputs : simpl never.
#[local] Arguments rows_of : simpl never.
#[local] Arguments upsert_output : simpl never.
#[local] Arguments insert_history : simpl never.
#[local] Arguments notify_when : simpl never.
#[local] Arguments alter_rows : simpl never.

(** ** Tables *)

Lemma rows_of_alter {K V} `{Countable K} (t : gmap string (gmap K V)) id f id' :
  rows_of (alter_rows id f t) id' = if bool_decide (id' = id) then f (rows_of t id) else rows_of t id'.
Proof.
  unfold rows_of, alter_rows. case_bool_decide as E; subst.
  - by rewrite lookup_insert_eq.
  - by rewrite lookup_insert_ne by done.
Qed.
Lemma rows_of_alter_eq {K V} `{Countable K} (t : gmap string (gmap K V)) id f :
  rows_of (alter_rows id f t) id = f (rows_of t id).
Proof. rewrite rows_of_alter. by rewrite bool_decide_true. Qed.
Lemma rows_of_alter_ne {K V} `{Countable K} (t : gmap string (gmap K V)) id f id' :
  id' ≠ id → rows_of (alter_rows id f t) id' = rows_of t id'.
Proof. intros. rewrite rows_of_alter. by rewrite bool_decide_false. Qed.
Lemma rows_of_delete {K V} `{Countable K} (t : gmap string (gmap K V)) id id' :
  rows_of (delete id t) id' = if bool_decide (id' = id) then ∅ else rows_of t id'.
Proof.
  unfold rows_of. case_bool_decide as E; subst.
  - by rewrite lookup_delete_eq.
  - by rewrite lookup_delete_ne by done.
Qed.

Lemma id_bytes_inj a b : id_bytes a = id_bytes b → a = b.
Proof. destruct a as [x], b as [y]. unfold id_bytes. cbn. intros E. f_equal. by apply Hash32_eq. Qed.
#[export] Instance id_bytes_Inj : Inj (=) (=) id_bytes := id_bytes_inj.
Lemma id_bytes_length t : length (id_bytes t) = 32%nat.
Proof. apply hash_bytes_length. Qed.
Lemma task_id_from_id_bytes t : task_id_from_slice (id_bytes t) = Ok t.
Proof. unfold task_id_from_slice, id_bytes. rewrite from_slice_hash. by destruct t. Qed.
Lemma id_bytes_of k : length k = 32%nat → ∃ t, k = id_bytes t.
Proof.
  intros Hk. pose proof (from_slice_hash) as _.
  destruct (Hash32.from_slice k) as [h|e] eqn:E; unfold Hash32.from_slice in E; case_decide; try done.
  injection E as <-. by exists (MkTaskId (MkHash32 k (bool_decide_pack _ H))).
Qed.

(** A transaction that fails leaves no trace. *)
Lemma transaction_Ok {St E A} (m : io St E A) s a s' :
  transaction m s = (Ok a, s') ↔ m s = (Ok a, s').
Proof. unfold transaction. destruct (m s) as [[] ?]; naive_solver. Qed.
Lemma transaction_Err {St E A} (m : io St E A) s e s' :
  transaction m s = (Err e, s') → s' = s.
Proof. unfold transaction. destruct (m s) as [[] ?]; naive_solver. Qed.

(** ** The task sidecar *)

(** Only completed rows hold an output, and keys are task ids. *)
Definition task_row_ok (k : Bytes) (r : TaskRow) : Prop :=
  length k = 32%nat ∧ (is_Some (t_output r) → t_status r = "completed").
Definition tasks_ok (rows : gmap Bytes TaskRow) : Prop := map_Forall task_row_ok rows.

Definition sidecar (rows : gmap Bytes TaskRow) (t : TaskId) : option Bytes :=
  rows !! id_bytes t ≫= durable_output.

(** A snapshot with the outputs a sidecar gives. *)
Definition set_output (o : option Bytes) (r : TaskResult) : TaskResult :=
  match o with Some o => MkTaskResult (tr_task_id r) o | None => r end.
Definition hydrated (f : TaskId → option Bytes) (s : WorkflowSnapshot) : WorkflowSnapshot :=
  completed_tasks_mut (map_imap (λ t r, Some (set_output (f t) r))) s.

Lemma durable_output_ok k r : task_row_ok k r → durable_output r = t_output r.
Proof.
  intros [_ Hr]. unfold durable_output. case_bool_decide as E; [done|].
  destruct (t_output r) as [o|]; [|done]. exfalso. apply E, Hr. by eexists.
Qed.

Lemma sidecar_ok rows t : tasks_ok rows → sidecar rows t = rows !! id_bytes t ≫= t_output.
Proof.
  intros Hr. unfold sidecar. destruct (rows !! id_bytes t) as [r|] eqn:E; [|done]. cbn.
  eapply durable_output_ok, Hr, E.
Qed.

(** *** Reading the sidecar *)

Section Sidecar.
Context `{Sha256, Postgres, HintCodec, SnapshotCodec}.

Lemma parse_outputs_Ok id (l : list (Bytes * Bytes)) :
  Forall (λ p, length p.1 = 32%nat) l →
  ∃ outs, parse_outputs id l = Ok outs ∧ prod_map id_bytes (@Datatypes.id Bytes) <$> outs = l.
Proof.
  induction 1 as [|[k o] l Hk _ (outs & Hp & Hm)]; cbn; [by exists []|].
  destruct (id_bytes_of k Hk) as [t ->]. rewrite task_id_from_id_bytes. cbn. rewrite Hp. cbn.
  exists ((t, o) :: outs). split; [done|]. cbn. by rewrite Hm.
Qed.

Lemma elem_output_rows db id k o :
  (k, o) ∈ output_rows db id ↔ rows_of (db_tasks db) id !! k ≫= durable_output = Some o.
Proof.
  unfold output_rows. rewrite list_elem_of_omap. split.
  - intros ([k' r] & Hin%elem_of_map_to_list & Hd). cbn in Hd.
    destruct (durable_output r) as [o'|] eqn:E; [|done]. injection Hd as -> ->. by rewrite Hin.
  - intros Hd. destruct (rows_of (db_tasks db) id !! k) as [r|] eqn:E; [|done]. cbn in Hd.
    exists (k, r). split; [by apply elem_of_map_to_list|]. cbn. by rewrite Hd.
Qed.

Lemma NoDup_output_rows db id : NoDup (output_rows db id).*1.
Proof.
  unfold output_rows. pose proof (NoDup_fst_map_to_list (rows_of (db_tasks db) id)) as Hnd.
  induction (map_to_list _) as [|[k r] l IH]; cbn in *; [constructor|].
  apply NoDup_cons in Hnd as [Hk Hnd]. destruct (durable_output r) as [o|]; [|by apply IH]. cbn.
  apply NoDup_cons. split; [|by apply IH]. intros Hin. apply Hk.
  apply list_elem_of_fmap in Hin as ([k' o'] & -> & Hin).
  apply list_elem_of_omap in Hin as ([k2 r2] & Hin & E). cbn in E.
  destruct (durable_output r2); [|done]. injection E as <- <-. apply list_elem_of_fmap. by exists (k2, r2).
Qed.

(** Whatever order the rows come in, hydrating from them gives each result the
    output of its sidecar row. *)
Lemma hydrate_rows db id l :
  tasks_ok (rows_of (db_tasks db) id) → l ≡ₚ output_rows db id →
  ∃ outs, parse_outputs id l = Ok outs ∧
    ∀ s, hydrate_task_outputs outs s = hydrated (sidecar (rows_of (db_tasks db) id)) s.
Proof.
  intros Hok Hl. destruct (parse_outputs_Ok id l) as (outs & Hp & Hm).
  { apply Forall_forall. intros [k o] Hin. rewrite Hl in Hin. apply elem_output_rows in Hin.
    destruct (rows_of (db_tasks db) id !! k) as [r|] eqn:E; [|done]. by destruct (Hok _ _ E). }
  exists outs. split; [done|].
  assert (NoDup outs.*1) as Hnd.
  { apply (NoDup_fmap_1 id_bytes). rewrite <-list_fmap_compose.
    assert (id_bytes ∘ fst <$> outs = l.*1) as ->.
    { rewrite <-Hm, <-list_fmap_compose. by apply list_fmap_ext. }
    rewrite Hl. apply NoDup_output_rows. }
  assert (∀ t o, (t, o) ∈ outs ↔ sidecar (rows_of (db_tasks db) id) t = Some o) as Hin.
  { intros t o. unfold sidecar. rewrite <-elem_output_rows, <-Hl, <-Hm, list_elem_of_fmap. split.
    - intros ?. by exists (t, o).
    - intros ([t' o'] & E & ?). cbn in E. injection E as ->%id_bytes_inj ->. done. }
  cut (∀ m, foldl hydrate_one m outs =
    map_imap (λ t r, Some (set_output (sidecar (rows_of (db_tasks db) id) t) r)) m).
  { intros Hf s. unfold hydrate_task_outputs, hydrated, completed_tasks_mut. by destruct (state s); rewrite ?Hf. }
  intros m. apply map_eq. intros k. rewrite hydrate_lookup, map_lookup_imap by done.
  destruct (list_find _ outs) as [[i [k' o]]|] eqn:Hf.
  - apply list_find_Some in Hf as (Hi & Hk' & _). cbn in Hk'. subst k'.
    apply list_elem_of_lookup_2, Hin in Hi. rewrite Hi. by destruct (m !! k).
  - apply list_find_None in Hf. destruct (sidecar _ k) as [o|] eqn:Hs.
    + exfalso. rewrite Forall_forall in Hf. by apply (Hf (k, o)); [apply Hin|].
    + by destruct (m !! k).
Qed.

Lemma zip_fst_snd {A B} (l : list (A * B)) : zip l.*1 l.*2 = l.
Proof. induction l as [|[] l IH]; cbn; [done|]. by f_equal. Qed.

Lemma aggregated_perm db id : aggregated_outputs db id ≡ₚ output_rows db id.
Proof. unfold aggregated_outputs. rewrite zip_fst_snd. apply merge_sort_Permutation. Qed.

Lemma aggregated_hydrated db id :
  tasks_ok (rows_of (db_tasks db) id) →
  ∃ outs, parse_outputs id (aggregated_outputs db id) = Ok outs ∧
    ∀ s, hydrate_task_outputs outs s = hydrated (sidecar (rows_of (db_tasks db) id)) s.
Proof. intros Hok. by apply hydrate_rows, aggregated_perm. Qed.

Lemma fetched_hydrated `{!PostgresLaws} db id :
  tasks_ok (rows_of (db_tasks db) id) →
  ∃ outs, fetch_task_outputs id db = (Ok outs, db) ∧
    ∀ s, hydrate_task_outputs outs s = hydrated (sidecar (rows_of (db_tasks db) id)) s.
Proof.
  intros Hok. destruct (hydrate_rows db id _ Hok (row_order_perm _)) as (outs & Hp & Hs).
  exists outs. split; [|done]. unfold fetch_task_outputs. by rewrite Hp.
Qed.
End Sidecar.

(** ** Stored snapshots *)

(** The outputs a snapshot carries are those of its sidecar. *)
Definition synced (rows : gmap Bytes TaskRow) (s : WorkflowSnapshot) : Prop :=
  ∀ k r, get_task_result k s = Some r → tr_output r = default [] (sidecar rows k).

Definition columns_of (s : WorkflowSnapshot) :=
  (instance_id s, state_name (state s), current_task_id s, position_kind s, delay_wake_at s,
   completed_task_count s, (current_task_priority s, task_tags s)).
Definition stored_form (s : WorkflowSnapshot) : WorkflowSnapshot := serde_skipped (strip_task_outputs s).

Lemma columns_eq a b : columns_of a = columns_of b →
  instance_id a = instance_id b ∧ state_name (state a) = state_name (state b) ∧
  current_task_id a = current_task_id b ∧ position_kind a = position_kind b ∧
  delay_wake_at a = delay_wake_at b ∧ completed_task_count a = completed_task_count b ∧
  current_task_priority a = current_task_priority b ∧ task_tags a = task_tags b.
Proof. unfold columns_of. intros E. by injection E. Qed.

Lemma columns_mut f s : (∀ m, size (f m) = size m) → columns_of (completed_tasks_mut f s) = columns_of s.
Proof.
  intros Hf. destruct s as [? ? []]; unfold columns_of, completed_task_count, current_task_priority; cbn;
    by rewrite ?Hf.
Qed.
Lemma columns_strip s : columns_of (strip_task_outputs s) = columns_of s.
Proof. apply columns_mut. intros m. apply map_size_fmap. Qed.
Lemma columns_stored s : columns_of (stored_form s) = columns_of s.
Proof. etransitivity; [|apply columns_strip]. done. Qed.
Lemma stored_name s : state_name (state (stored_form s)) = state_name (state s).
Proof. by destruct (columns_eq _ _ (columns_stored s)) as (_ & ? & _). Qed.

Lemma stored_form_wf s : snapshot_wf s → snapshot_wf (stored_form s).
Proof.
  intros Hs. assert (snapshot_wf (strip_task_outputs s)) as Hw.
  { apply snapshot_wf_mut; [|done]. intros. by apply keyed_fmap. }
  exact Hw.
Qed.

Lemma get_task_result_mut f k s :
  get_task_result k (completed_tasks_mut f s) = get_all_task_results s ≫= λ m, f m !! k.
Proof. by destruct s as [? ? []]. Qed.
Lemma get_task_result_all k s : get_task_result k s = get_all_task_results s ≫= λ m, m !! k.
Proof. by destruct s as [? ? []]. Qed.
Lemma get_stripped k s : get_task_result k (strip_task_outputs s) = clear_output <$> get_task_result k s.
Proof.
  unfold strip_task_outputs. rewrite get_task_result_mut, get_task_result_all.
  destruct (get_all_task_results s); cbn; [|done]. apply lookup_fmap.
Qed.
Lemma get_hydrated f k s :
  get_task_result k (hydrated f s) = set_output (f k) <$> get_task_result k s.
Proof.
  unfold hydrated. rewrite get_task_result_mut, get_task_result_all.
  destruct (get_all_task_results s); cbn; [|done]. rewrite map_lookup_imap. by destruct (_ !! k).
Qed.

(** Mutating the results alone: two snapshots agree when their results do. *)
Lemma completed_tasks_mut_ext f g s :
  (∀ m, get_all_task_results s = Some m → f m = g m) → completed_tasks_mut f s = completed_tasks_mut g s.
Proof. destruct s as [? ? []]; cbn; intros Hf; unfold completed_tasks_mut; cbn; by rewrite ?Hf. Qed.

Lemma hydrated_stored rows s tp :
  synced rows s →
  hydrated (sidecar rows) (with_trace_parent tp (stored_form s)) =
  with_trace_parent tp (with_output_unflushed false s).
Proof.
  intros Hs. transitivity (with_trace_parent tp (with_output_unflushed false
    (hydrated (sidecar rows) (strip_task_outputs s)))).
  { by destruct s as [? ? []]. }
  do 2 f_equal. unfold hydrated, strip_task_outputs. rewrite completed_tasks_mut_compose.
  apply completed_tasks_mut_id. destruct (get_all_task_results s) as [m|] eqn:Hm; [|done].
  apply map_eq. intros k. rewrite map_lookup_imap, lookup_fmap. destruct (m !! k) as [[i o]|] eqn:Hk; [|done].
  cbn. specialize (Hs k (MkTaskResult i o)). rewrite get_task_result_all, Hm in Hs. specialize (Hs Hk).
  cbn in Hs. destruct (sidecar rows k) as [o'|]; cbn in *; by rewrite Hs.
Qed.

Lemma synced_hydrated rows s : strip_task_outputs s = s → synced rows (hydrated (sidecar rows) s).
Proof.
  intros Hs k r. rewrite get_hydrated, <-Hs, get_stripped. destruct (get_task_result k s) as [r0|]; [|done].
  cbn. intros [= <-]. by destruct (sidecar rows k).
Qed.
Lemma stored_stripped s : strip_task_outputs (stored_form s) = stored_form s.
Proof.
  assert (strip_task_outputs (strip_task_outputs s) = strip_task_outputs s) as E.
  { unfold strip_task_outputs. rewrite completed_tasks_mut_compose. apply completed_tasks_mut_ext.
    intros m _. by rewrite <-map_fmap_compose. }
  change (strip_task_outputs (stored_form s)) with (strip_task_outputs (serde_skipped (strip_task_outputs s))).
  etransitivity; [|exact (f_equal serde_skipped E)]. generalize (strip_task_outputs s). by intros [? ? []].
Qed.
Lemma stored_skipped s : serde_skipped (stored_form s) = stored_form s.
Proof. done. Qed.
Lemma stored_hydrated f s : stored_form (hydrated f s) = stored_form s.
Proof.
  unfold stored_form. f_equal. unfold strip_task_outputs, hydrated. rewrite completed_tasks_mut_compose.
  apply completed_tasks_mut_ext. intros m _. apply map_eq. intros k.
  rewrite !lookup_fmap, map_lookup_imap. destruct (m !! k); cbn; [|done]. f_equal.
  by destruct (f k).
Qed.
Lemma columns_hydrated f s : columns_of (hydrated f s) = columns_of s.
Proof. by rewrite <-(columns_stored (hydrated f s)), stored_hydrated, columns_stored. Qed.
Lemma stored_form_fixed s : strip_task_outputs s = s → serde_skipped s = s → stored_form s = s.
Proof. unfold stored_form. by intros -> ->. Qed.

Lemma hydrate_take s : results_keyed s →
  hydrate_task_outputs (take_task_outputs s).1 (take_task_outputs s).2 = s.
Proof.
  intros Hk. unfold hydrate_task_outputs, take_task_outputs, results_keyed in *.
  destruct (get_all_task_results s) as [m|] eqn:Hm; cbn; [|destruct s as [? ? []]; done].
  rewrite completed_tasks_mut_compose. apply completed_tasks_mut_id. rewrite Hm. by apply hydrate_taken.
Qed.

(** ** Blobs *)

Section Blobs.
Context `{Sha256, Postgres, HintCodec, SnapshotCodec, !SnapshotCodecLaws}.

Lemma encode_Ok s : ∃ data, encode s = Ok data ∧ decode data = Ok (serde_skipped s).
Proof.
  destruct (codec_encodes s) as [b Hb]. exists (Frame.frame_snapshot Frame.identity b).
  unfold encode, decode, Frame.encode_framed, Frame.decode_framed. rewrite Hb. split; [done|].
  rewrite Frame.unframe_checked_frame, bool_decide_true by done. cbn. by rewrite (codec_roundtrip s).
Qed.

(** The two encoders write the same blob: the stored form of the snapshot. *)
Lemma encode_blob_Ok s :
  ∃ data, encode_blob s = Ok (data, snapshot_hash data, strip_task_outputs s) ∧
    decode data = Ok (stored_form s).
Proof.
  destruct (encode_Ok (strip_task_outputs s)) as (data & He & Hd). exists data.
  unfold encode_blob. by rewrite He.
Qed.
Lemma encode_preserving_Ok s : results_keyed s →
  ∃ data, encode_blob_preserving s = Ok (data, snapshot_hash data, s) ∧ decode data = Ok (stored_form s).
Proof.
  intros Hk. destruct (encode_Ok (strip_task_outputs s)) as (data & He & Hd). exists data.
  unfold encode_blob_preserving. pose proof (hydrate_take s Hk) as Hh. pose proof (take_snd s) as Ht.
  destruct (take_task_outputs s) as [outs s1]. cbn in *. subst s1. rewrite He. cbn. by rewrite Hh.
Qed.
End Blobs.

(** ** The invariant of the tables *)

Section Invariant.
Context `{Sha256, Postgres, HintCodec, SnapshotCodec, !PostgresLaws, !SnapshotCodecLaws}.

(** A snapshot row and the blob [s0] it points to: the history row at its version
    decodes to [s0], which carries no outputs; the row and the history row mirror
    it, hash included; and no version is above the row's. *)
Record row_ok (rows : gmap Z HistoryRow) (id : string) (r : SnapshotRow) (s0 : WorkflowSnapshot) : Prop := {
  row_blob : ∃ h, rows !! c_history_version r = Some h ∧ decode (h_data h) = Ok s0 ∧
    h_status h = c_status r ∧ h_data_hash h = c_data_hash r ∧
    c_data_hash r = Some (snapshot_hash (h_data h));
  row_id : instance_id s0 = id;
  row_wf : snapshot_wf s0;
  row_stripped : strip_task_outputs s0 = s0;
  row_skipped : serde_skipped s0 = s0;
  row_status : c_status r = state_name (state s0);
  row_current : is_cancelled (state s0) = false → c_current_task_id r = id_bytes <$> current_task_id s0;
  row_position : c_position_kind r = position_kind s0;
  row_wake : c_delay_wake_at r = pg_timestamp <$> delay_wake_at s0;
  row_count : c_completed_task_count r = completed_task_count s0;
  row_priority : c_task_priority r = current_task_priority s0;
  row_tags : c_task_tags r = task_tags s0;
  row_versions : ∀ v, is_Some (rows !! v) → 1 ≤ v ≤ c_history_version r
}.

Record db_wf (db : PgDb) : Prop := {
  wf_rows : ∀ id r, db_snapshots db !! id = Some r → ∃ s0, row_ok (rows_of (db_history db) id) id r s0;
  wf_tasks : ∀ id, tasks_ok (rows_of (db_tasks db) id);
  wf_children : ∀ id, db_snapshots db !! id = None →
    rows_of (db_history db) id = ∅ ∧ rows_of (db_tasks db) id = ∅ ∧ rows_of (db_signals db) id = ∅ ∧
    db_claims db !! id = None
}.

Definition version (db : PgDb) (id : string) : Z :=
  match db_snapshots db !! id with Some r => c_history_version r | None => 0 end.
(** The version can still be incremented as an [i32]. *)
Definition headroom (db : PgDb) (id : string) : Prop :=
  ∀ r, db_snapshots db !! id = Some r → c_history_version r < i32_max.
Lemma headroom_version db id : version db id < i32_max ↔ headroom db id.
Proof.
  unfold version, headroom. destruct (db_snapshots db !! id) as [r|]; [naive_solver|].
  split; [by intros _ r|done].
Qed.

(** What a load returns. *)
Definition view (db : PgDb) (id : string) : option WorkflowSnapshot := ok (pg_load_snapshot id db).1.
Definition view_of (db : PgDb) (id : string) (r : SnapshotRow) (s0 : WorkflowSnapshot) : WorkflowSnapshot :=
  hydrated (sidecar (rows_of (db_tasks db) id)) (with_trace_parent (c_trace_parent r) s0).

Lemma load_row db id r s0 :
  db_snapshots db !! id = Some r → row_ok (rows_of (db_history db) id) id r s0 →
  tasks_ok (rows_of (db_tasks db) id) →
  pg_load_snapshot id db = (Ok (view_of db id r s0), db).
Proof.
  intros Hr Hok Ht. destruct (row_blob _ _ _ _ Hok) as (h & Hh & Hd & _).
  destruct (fetched_hydrated db id Ht) as (outs & Hf & Hs).
  unfold pg_load_snapshot, mbind, io_bind, get_state, lift_result, fetch_blob. cbn. rewrite Hr. cbn.
  rewrite Hh. cbn. rewrite Hd. cbn. rewrite Hf. unfold mret, io_ret. by rewrite Hs.
Qed.

Lemma lock_row db id r s0 :
  db_snapshots db !! id = Some r → row_ok (rows_of (db_history db) id) id r s0 →
  tasks_ok (rows_of (db_tasks db) id) →
  lock_snapshot_for_mutation id db =
    (Ok (Some (hydrated (sidecar (rows_of (db_tasks db) id)) s0, c_history_version r)), db).
Proof.
  intros Hr Hok Ht. destruct (row_blob _ _ _ _ Hok) as (h & Hh & Hd & _).
  destruct (aggregated_hydrated db id Ht) as (outs & Hf & Hs).
  unfold lock_snapshot_for_mutation. rewrite Hr, Hh, Hd. cbn. rewrite Hf. cbn. by rewrite Hs.
Qed.

Lemma view_row db id r s0 :
  db_wf db → db_snapshots db !! id = Some r → row_ok (rows_of (db_history db) id) id r s0 →
  view db id = Some (view_of db id r s0).
Proof. intros Hwf Hr Hok. unfold view. by erewrite load_row by eauto using wf_tasks. Qed.

Lemma view_none db id : db_snapshots db !! id = None → view db id = None.
Proof. intros E. unfold view, pg_load_snapshot, mbind, io_bind, get_state, lift_result. cbn. by rewrite E. Qed.

Lemma view_is_Some db id : db_wf db → is_Some (view db id) ↔ is_Some (db_snapshots db !! id).
Proof.
  intros Hwf. destruct (db_snapshots db !! id) as [r|] eqn:E.
  - destruct (wf_rows _ Hwf _ _ E) as [s0 Hok]. erewrite view_row by eauto. naive_solver.
  - by rewrite view_none.
Qed.

(** The view of an instance depends on its own rows only. *)
Lemma view_frame db db' id :
  db_snapshots db' !! id = db_snapshots db !! id →
  rows_of (db_history db') id = rows_of (db_history db) id →
  rows_of (db_tasks db') id = rows_of (db_tasks db) id →
  view db' id = view db id.
Proof.
  intros Hs Hh Ht. unfold view, pg_load_snapshot, mbind, io_bind, get_state, lift_result, fetch_blob,
    fetch_task_outputs, output_rows. cbn. rewrite Hs. destruct (db_snapshots db !! id) as [r|]; cbn; [|done].
  rewrite Hh. destruct (rows_of (db_history db) id !! _); cbn; [|done].
  destruct (decode _); cbn; [|done]. rewrite Ht. by destruct (parse_outputs _ _).
Qed.

(** *** Writing a new version *)

(** What every path that writes a snapshot does to the tables of instance [id]:
    the row [r'], the history row [h'] at its version, task rows that keep their
    form, and no rows of other instances. *)
Record writes (db : PgDb) (id : string) (r' : SnapshotRow) (h' : HistoryRow) (db' : PgDb) : Prop := {
  w_snapshots : db_snapshots db' = <[id := r']> (db_snapshots db);
  w_history : db_history db' = alter_rows id (insert (c_history_version r') h') (db_history db);
  w_tasks : tasks_ok (rows_of (db_tasks db') id);
  w_other_tasks : ∀ id', id' ≠ id → rows_of (db_tasks db') id' = rows_of (db_tasks db) id';
  w_other_signals : ∀ id', id' ≠ id → rows_of (db_signals db') id' = rows_of (db_signals db) id';
  w_claims : db_claims db' = db_claims db
}.

(** The row mirrors the snapshot that is written. *)
Record mirrors (s : WorkflowSnapshot) (data : Bytes) (r' : SnapshotRow) (h' : HistoryRow) : Prop := {
  m_status : c_status r' = state_name (state s);
  m_current : is_cancelled (state s) = false → c_current_task_id r' = id_bytes <$> current_task_id s;
  m_position : c_position_kind r' = position_kind s;
  m_wake : c_delay_wake_at r' = pg_timestamp <$> delay_wake_at s;
  m_count : c_completed_task_count r' = completed_task_count s;
  m_priority : c_task_priority r' = current_task_priority s;
  m_tags : c_task_tags r' = task_tags s;
  m_hash : c_data_hash r' = Some (snapshot_hash data);
  m_history : h_status h' = state_name (state s) ∧ h_data h' = data ∧ h_data_hash h' = Some (snapshot_hash data)
}.

Lemma is_cancelled_stored s : is_cancelled (state (stored_form s)) = is_cancelled (state s).
Proof. by destruct s as [? ? []]. Qed.

Lemma write_row_ok s data r' h' rows id :
  snapshot_wf s → instance_id s = id → decode data = Ok (stored_form s) → mirrors s data r' h' →
  (∀ v, is_Some (rows !! v) → 1 ≤ v < c_history_version r') → 1 ≤ c_history_version r' →
  row_ok (<[c_history_version r' := h']> rows) id r' (stored_form s).
Proof.
  intros Hwf Hid Hd Hm Hv Hv1.
  destruct (columns_eq _ _ (columns_stored s)) as (E1 & E2 & E3 & E4 & E5 & E6 & E7 & E8).
  destruct Hm as [? Hc ? ? ? ? ? ? (? & ? & ?)].
  split; rewrite ?is_cancelled_stored, ?E1, ?E2, ?E3, ?E4, ?E5, ?E6, ?E7, ?E8; try done.
  - exists h'. rewrite lookup_insert_eq. split_and!; try done; congruence.
  - by apply stored_form_wf.
  - apply stored_stripped.
  - intros v [x Hx]. destruct (decide (v = c_history_version r')) as [->|Hne]; [lia|].
    rewrite lookup_insert_ne in Hx by done. specialize (Hv v). rewrite Hx in Hv.
    assert (1 ≤ v < c_history_version r') by (apply Hv; by eexists). lia.
Qed.

Lemma write_wf db db' s data r' h' id :
  db_wf db → writes db id r' h' db' → snapshot_wf s → instance_id s = id →
  decode data = Ok (stored_form s) → mirrors s data r' h' →
  (∀ v, is_Some (rows_of (db_history db) id !! v) → 1 ≤ v < c_history_version r') →
  1 ≤ c_history_version r' →
  db_wf db' ∧ view db' id = Some (view_of db' id r' (stored_form s)) ∧
  ∀ id', id' ≠ id → view db' id' = view db id'.
Proof.
  intros Hdb [W1 W2 W3 W4 W5 W6] Hwf Hid Hd Hm Hv Hv1.
  assert (row_ok (rows_of (db_history db') id) id r' (stored_form s)) as Hok.
  { rewrite W2, rows_of_alter_eq. eapply write_row_ok; eauto. }
  assert (db_wf db') as Hdb'.
  { split.
    - intros id' r. rewrite W1. destruct (decide (id' = id)) as [->|Hne].
      + rewrite lookup_insert_eq. intros [= <-]. eauto.
      + rewrite lookup_insert_ne, W2, rows_of_alter_ne by done. by apply wf_rows.
    - intros id'. destruct (decide (id' = id)) as [->|Hne]; [done|]. rewrite W4 by done. by apply wf_tasks.
    - intros id'. rewrite W1. destruct (decide (id' = id)) as [->|Hne]; [by rewrite lookup_insert_eq|].
      rewrite lookup_insert_ne, W2, rows_of_alter_ne, W4, W5, W6 by done. by apply wf_children. }
  split_and!; [done| |].
  - eapply view_row; [done| |done]. by rewrite W1, lookup_insert_eq.
  - intros id' Hne. apply view_frame; [|by rewrite W2, rows_of_alter_ne|by apply W4].
    by rewrite W1, lookup_insert_ne.
Qed.

(** *** The task arms *)

Lemma task_active_spec now k rows :
  tasks_ok rows → length k = 32%nat →
  tasks_ok (task_active_arm now k rows) ∧ ∀ t, sidecar (task_active_arm now k rows) t = sidecar rows t.
Proof.
  intros Hr Hk. unfold task_active_arm. split.
  - apply map_Forall_insert_2; [|done]. destruct (rows !! k) as [r|] eqn:E; [|split; [done|by intros []]].
    destruct (Hr _ _ E) as [_ Ho]. split; [done|]. cbn. intros Hs. specialize (Ho Hs).
    by rewrite bool_decide_true.
  - intros t. unfold sidecar. destruct (decide (k = id_bytes t)) as [->|Hne];
      [rewrite lookup_insert_eq|by rewrite lookup_insert_ne].
    destruct (rows !! id_bytes t) as [r|] eqn:E; cbn; [|done]. unfold durable_output. cbn.
    destruct (decide (t_status r = "completed")) as [Hs|Hs].
    + by rewrite (bool_decide_true _ Hs), Hs.
    + by rewrite (bool_decide_false _ Hs).
Qed.

(** Rewriting active rows only, outputs kept. *)
Lemma retire_active_spec (f : TaskRow → TaskRow) rows :
  (∀ r, t_output (f r) = t_output r) → (∀ r, t_status r ≠ "active" → f r = r) → tasks_ok rows →
  tasks_ok (f <$> rows) ∧ ∀ t, sidecar (f <$> rows) t = sidecar rows t.
Proof.
  intros Hfo Hfs Hr.
  assert (∀ k r, task_row_ok k r → t_status r = "active" → t_output r = None) as Ha.
  { intros k r [_ Ho] Hs. destruct (t_output r) as [o|]; [|done]. rewrite Ho in Hs by eauto. done. }
  split.
  - intros k r. rewrite lookup_fmap. intros (r0 & E & ->)%fmap_Some. pose proof (Hr _ _ E) as Hk.
    destruct (decide (t_status r0 = "active")) as [Hs|Hs]; [|by rewrite Hfs].
    split; [by destruct Hk|]. rewrite Hfo, (Ha _ _ Hk Hs). by intros [].
  - intros t. unfold sidecar. rewrite lookup_fmap. destruct (rows !! id_bytes t) as [r|] eqn:E; cbn; [|done].
    destruct (decide (t_status r = "active")) as [Hs|Hs]; [|by rewrite Hfs].
    unfold durable_output. rewrite Hfo, (Ha _ _ (Hr _ _ E) Hs). by repeat case_bool_decide.
Qed.

Lemma task_terminal_spec now st e rows :
  tasks_ok rows →
  tasks_ok (task_terminal_arm now st e rows) ∧ ∀ t, sidecar (task_terminal_arm now st e rows) t = sidecar rows t.
Proof. apply retire_active_spec; intros r; [by case_bool_decide|intros; by rewrite bool_decide_false]. Qed.

Lemma task_output_spec now l o rows :
  tasks_ok rows →
  tasks_ok (task_output_arm now (id_bytes l) o rows) ∧
  ∀ t, sidecar (task_output_arm now (id_bytes l) o rows) t = if bool_decide (t = l) then o else sidecar rows t.
Proof.
  intros Hr.
  assert (∀ st0, let rows' := <[id_bytes l := MkTaskRow "completed" st0 (Some now) None o]> rows in
    tasks_ok rows' ∧ ∀ t, sidecar rows' t = if bool_decide (t = l) then o else sidecar rows t) as Hins.
  { intros st0. split.
    - apply map_Forall_insert_2; [|done]. split; [apply id_bytes_length|]. done.
    - intros t. unfold sidecar. case_bool_decide as E; [subst; by rewrite lookup_insert_eq|].
      rewrite lookup_insert_ne; [done|]. by intros ?%id_bytes_inj. }
  unfold task_output_arm. destruct (rows !! id_bytes l) as [r|] eqn:E; [|apply Hins].
  destruct (bool_decide (t_output r = None) || bool_decide (t_output r ≠ o)) eqn:Hc; [apply Hins|].
  split; [done|]. intros t. destruct (decide (t = l)) as [->|Hne]; [|by rewrite (bool_decide_false _ Hne)].
  rewrite (bool_decide_true (l = l)) by done. unfold sidecar. rewrite E. cbn.
  rewrite (durable_output_ok _ _ (Hr _ _ E)). apply orb_false_iff in Hc as [_ Hc].
  apply bool_decide_eq_false in Hc. destruct (decide (t_output r = o)); [done|]. by destruct Hc.
Qed.

Lemma save_task_arms_spec now c terminal st e l o rows :
  tasks_ok rows →
  let rows' := save_task_arms now (id_bytes <$> c) terminal st e (id_bytes <$> l) o rows in
  tasks_ok rows' ∧ ∀ t, sidecar rows' t = if bool_decide (l = Some t) then o else sidecar rows t.
Proof.
  intros Hr. unfold save_task_arms.
  set (rows1 := match id_bytes <$> c with Some _ => _ | None => _ end).
  assert (tasks_ok rows1 ∧ ∀ t, sidecar rows1 t = sidecar rows t) as [Hr1 Hs1].
  { unfold rows1. destruct c as [c|]; cbn; [|done]. case_match; [|done].
    apply task_active_spec; [done|apply id_bytes_length]. }
  clearbody rows1. set (rows2 := if terminal then _ else _).
  assert (tasks_ok rows2 ∧ ∀ t, sidecar rows2 t = sidecar rows t) as [Hr2 Hs2].
  { unfold rows2. destruct terminal; [|done]. destruct (task_terminal_spec now st e rows1 Hr1) as [? Ht].
    split; [done|]. intros t. by rewrite Ht. }
  clearbody rows2. destruct l as [l|]; cbn; [|done].
  destruct (task_output_spec now l o rows2 Hr2) as [? Ht]. split; [done|]. intros t. rewrite Ht.
  repeat case_bool_decide; naive_solver.
Qed.

(** *** [save_snapshot] *)

(** The wake-up payload is one the server accepts. *)
Definition payload_fits (s : WorkflowSnapshot) : Prop :=
  ∀ p, build_task_ready_payload s = Some p → Z.of_nat (String.length p) < 8000.

Definition flushed (s : WorkflowSnapshot) : option TaskId :=
  if output_unflushed s then last_completed_task_id s else None.
Definition saved_tasks (now : DateTime) (s : WorkflowSnapshot) : gmap Bytes TaskRow → gmap Bytes TaskRow :=
  save_task_arms now (id_bytes <$> current_task_id s) (is_terminal (state s)) (terminal_status s)
    (error_message s) (id_bytes <$> flushed s) (t ← flushed s; tr_output <$> get_task_result t s).

Definition terminal_row (db : PgDb) (id : string) : Prop :=
  ∃ r, db_snapshots db !! id = Some r ∧ terminal_text (c_status r) = true.

Lemma notify_when_Ok s db :
  payload_fits s →
  ∃ n, notify_when (build_task_ready_payload s) db = (Ok (), db_set_notified n db) ∧
    n = db_notified db ++ match build_task_ready_payload s with
                          | Some p => [(TASK_READY_CHANNEL, p)] | None => [] end.
Proof.
  intros Hf. unfold notify_when, payload_fits in *. destruct (build_task_ready_payload s) as [p|].
  - unfold pg_notify. rewrite bool_decide_false; [by eexists|]. specialize (Hf p eq_refl). lia.
  - exists (db_notified db). rewrite app_nil_r. split; [|done]. by destruct db.
Qed.

Definition new_version (db : PgDb) (id : string) : Z :=
  match db_snapshots db !! id with Some r => c_history_version r + 1 | None => 1 end.

Lemma fresh_version db id :
  db_wf db → (∀ v, is_Some (rows_of (db_history db) id !! v) → 1 ≤ v < new_version db id) ∧
    1 ≤ new_version db id.
Proof.
  intros Hwf. unfold new_version. destruct (db_snapshots db !! id) as [r|] eqn:E.
  - destruct (wf_rows _ Hwf _ _ E) as [s0 Hok]. pose proof (row_versions _ _ _ _ Hok) as Hv.
    split; [intros v [? ?]%Hv; lia|]. destruct (row_blob _ _ _ _ Hok) as (h & Hh & _).
    destruct (Hv (c_history_version r)); [by eexists|lia].
  - destruct (wf_children _ Hwf _ E) as (-> & _). split; [|done]. intros v []. by rewrite lookup_empty in *.
Qed.
Lemma new_version_free db id : db_wf db → rows_of (db_history db) id !! new_version db id = None.
Proof.
  intros Hwf. destruct (rows_of (db_history db) id !! new_version db id) eqn:E; [|done].
  destruct (fresh_version db id Hwf) as [Hv _]. specialize (Hv (new_version db id)). rewrite E in Hv.
  destruct Hv; [by eexists|lia].
Qed.

(** The snapshot arm, when the row is not terminal. *)
Lemma save_snap_live db s hash :
  headroom db (instance_id s) → ¬ terminal_row db (instance_id s) →
  ∃ r', save_snap_arm s hash db =
      (Ok (Some (new_version db (instance_id s))),
       db_set_snapshots (<[instance_id s := r']> (db_snapshots db)) db) ∧
    c_history_version r' = new_version db (instance_id s) ∧ c_trace_parent r' = trace_parent s ∧
    ∀ data h, hash = snapshot_hash data → h_status h = state_name (state s) → h_data h = data →
      h_data_hash h = Some hash → mirrors s data r' h.
Proof.
  intros Hroom Hlive. unfold save_snap_arm, new_version, headroom in *.
  destruct (db_snapshots db !! instance_id s) as [r|] eqn:E.
  - destruct (terminal_text (c_status r)) eqn:Ht; [destruct Hlive; by exists r|].
    rewrite bool_decide_false by (specialize (Hroom _ eq_refl); lia).
    eexists. split_and!; [done..|]. intros data h -> ? ? ?. by split.
  - eexists. split_and!; [done..|]. intros data h -> ? ? ?. by split.
Qed.

Lemma save_writes db s :
  db_wf db → snapshot_wf s → headroom db (instance_id s) → payload_fits s →
  ¬ terminal_row db (instance_id s) →
  ∃ db' r' h' data, pg_save_snapshot s db = (Ok (with_output_unflushed false s), db') ∧
    writes db (instance_id s) r' h' db' ∧ decode data = Ok (stored_form s) ∧ mirrors s data r' h' ∧
    c_history_version r' = new_version db (instance_id s) ∧ c_trace_parent r' = trace_parent s ∧
    rows_of (db_tasks db') (instance_id s) =
      saved_tasks (db_now db) s (rows_of (db_tasks db) (instance_id s)) ∧
    db_notified db' = db_notified db ++ match build_task_ready_payload s with
                                        | Some p => [(TASK_READY_CHANNEL, p)] | None => [] end ∧
    db_signals db' = db_signals db ∧ db_events db' = db_events db ∧ db_now db' = db_now db.
Proof.
  intros Hwf Hs Hroom Hfit Hlive. destruct (encode_preserving_Ok s) as (data & He & Hd); [by destruct Hs|].
  destruct (save_snap_live db s (snapshot_hash data) Hroom Hlive) as (r' & Hr & Hv & Htp & Hm).
  unfold pg_save_snapshot, exec_save_snapshot, mbind, io_bind, lift_result. rewrite He. cbn.
  unfold pg, io_map_err, save_statement, transaction, mbind, io_bind. rewrite Hr. cbn.
  unfold insert_history. cbn. rewrite new_version_free by done. unfold modify_db. cbn.
  set (db2 := db_set_tasks _ _). destruct (notify_when_Ok s db2 Hfit) as (n & Hn & Hn').
  rewrite Hn. unfold mret, io_ret. eexists _, r', _, data. split; [done|]. subst n.
  split_and!; try done.
  - split; cbn; try done.
    + by rewrite Hv.
    + rewrite rows_of_alter_eq. apply save_task_arms_spec. by apply wf_tasks.
    + intros id' Hne. by rewrite rows_of_alter_ne.
  - by apply Hm.
  - cbn. rewrite rows_of_alter_eq. done.
Qed.

(** After a save the sidecar holds every output the snapshot carries, when the
    outputs that are not flagged unflushed were there before. *)
Definition save_synced (rows : gmap Bytes TaskRow) (s : WorkflowSnapshot) : Prop :=
  ∀ k r, get_task_result k s = Some r → flushed s = Some k ∨ tr_output r = default [] (sidecar rows k).

Lemma saved_synced now s rows : tasks_ok rows → save_synced rows s → synced (saved_tasks now s rows) s.
Proof.
  intros Hr Hs k r Hk. unfold saved_tasks.
  destruct (save_task_arms_spec now (current_task_id s) (is_terminal (state s)) (terminal_status s)
    (error_message s) (flushed s) (t ← flushed s; tr_output <$> get_task_result t s) rows Hr) as [_ Hside].
  rewrite Hside. case_bool_decide as E; [rewrite E; cbn; by rewrite Hk|]. by destruct (Hs _ _ Hk).
Qed.

(** A save over a terminal row keeps the row and its history. *)
Lemma save_terminal db s :
  db_wf db → snapshot_wf s → terminal_row db (instance_id s) →
  ∃ db', pg_save_snapshot s db = (Ok (with_output_unflushed false s), db') ∧
    db' = db_set_tasks (alter_rows (instance_id s) (saved_tasks (db_now db) s) (db_tasks db)) db.
Proof.
  intros Hwf Hs (r & Hr & Ht). destruct (encode_preserving_Ok s) as (data & He & Hd); [by destruct Hs|].
  unfold pg_save_snapshot, exec_save_snapshot, mbind, io_bind, lift_result. rewrite He. cbn.
  unfold pg, io_map_err, save_statement, transaction, mbind, io_bind, save_snap_arm. rewrite Hr, Ht. cbn.
  unfold modify_db, mret, io_ret. by eexists.
Qed.

Lemma tasks_write_wf db id f :
  db_wf db → tasks_ok (f (rows_of (db_tasks db) id)) → is_Some (db_snapshots db !! id) →
  db_wf (db_set_tasks (alter_rows id f (db_tasks db)) db).
Proof.
  intros [Hr Ht Hc] Hf [r Hs]. split; cbn; [done| |].
  - intros id'. rewrite rows_of_alter. case_bool_decide; subst; auto.
  - intros id' Hn. rewrite rows_of_alter_ne; [by apply Hc|]. congruence.
Qed.

(** The save as a whole: the invariant is kept, and a load returns what was saved. *)
Lemma save_live_view db s :
  db_wf db → snapshot_wf s → headroom db (instance_id s) → payload_fits s →
  ¬ terminal_row db (instance_id s) → save_synced (rows_of (db_tasks db) (instance_id s)) s →
  ∃ db', pg_save_snapshot s db = (Ok (with_output_unflushed false s), db') ∧ db_wf db' ∧
    view db' (instance_id s) = Some (with_output_unflushed false s) ∧
    (∀ id', id' ≠ instance_id s → view db' id' = view db id') ∧ db_signals db' = db_signals db.
Proof.
  intros Hwf Hs Hroom Hfit Hlive Hsync.
  destruct (save_writes db s Hwf Hs Hroom Hfit Hlive) as
    (db' & r' & h' & data & Heq & Hw & Hd & Hm & Hv & Htp & Htasks & _ & Hsig & _).
  exists db'. split; [done|]. destruct (fresh_version db (instance_id s) Hwf) as [Hfr Hge].
  destruct (write_wf db db' s data r' h' (instance_id s)) as (Hwf' & Hview & Hframe);
    rewrite ?Hv; try done. split_and!; try done. rewrite Hview. f_equal. unfold view_of.
  rewrite hydrated_stored, Htp; [by destruct s|]. rewrite Htasks. apply saved_synced; [by apply wf_tasks|done].
Qed.

(** What a save leaves for a load, whatever the sidecar held: the snapshot, the
    flushed output as it was, every other output the one of the sidecar, empty when
    it has none. *)
Lemma save_live_restored db s :
  db_wf db → snapshot_wf s → headroom db (instance_id s) → payload_fits s →
  ¬ terminal_row db (instance_id s) →
  ∃ db' s', pg_save_snapshot s db = (Ok (with_output_unflushed false s), db') ∧ db_wf db' ∧
    view db' (instance_id s) = Some s' ∧
    strip_task_outputs s' = strip_task_outputs (with_output_unflushed false s) ∧
    (∀ t, get_task_result_bytes t s' =
      (λ o, if bool_decide (flushed s = Some t) then o
            else default [] (sidecar (rows_of (db_tasks db) (instance_id s)) t)) <$> get_task_result_bytes t s) ∧
    ∀ id', id' ≠ instance_id s → view db' id' = view db id'.
Proof.
  intros Hwf Hs Hroom Hfit Hlive.
  destruct (save_writes db s Hwf Hs Hroom Hfit Hlive) as
    (db' & r' & h' & data & Heq & Hw & Hd & Hm & Hv & Htp & Htasks & _).
  destruct (fresh_version db (instance_id s) Hwf) as [Hfr Hge].
  destruct (write_wf db db' s data r' h' (instance_id s)) as (Hwf' & Hview & Hframe); rewrite ?Hv; try done.
  exists db', (view_of db' (instance_id s) r' (stored_form s)). split_and!; try done.
  - unfold view_of, hydrated, strip_task_outputs. rewrite completed_tasks_mut_compose, Htp.
    transitivity (completed_tasks_mut (λ m, clear_output <$> map_imap (λ t r,
      Some (set_output (sidecar (rows_of (db_tasks db') (instance_id s)) t) r)) (clear_output <$> m))
      (with_output_unflushed false s)); [by destruct s as [? ? []]|].
    apply completed_tasks_mut_ext. intros m _. apply map_eq. intros k.
    rewrite !lookup_fmap, map_lookup_imap, lookup_fmap. destruct (m !! k); [|done]. cbn.
    by destruct (sidecar _ k).
  - intros t. unfold get_task_result_bytes, view_of. rewrite get_hydrated.
    change (get_task_result t (with_trace_parent _ (stored_form s))) with (get_task_result t (strip_task_outputs s)).
    rewrite get_stripped, Htasks. unfold saved_tasks.
    destruct (save_task_arms_spec (db_now db) (current_task_id s) (is_terminal (state s)) (terminal_status s)
      (error_message s) (flushed s) (t ← flushed s; tr_output <$> get_task_result t s)
      (rows_of (db_tasks db) (instance_id s)) (wf_tasks _ Hwf _)) as [_ Hside].
    rewrite Hside. case_bool_decide as E; [rewrite E; cbn|]; (destruct (get_task_result t s); cbn; [|done]);
      [done|by destruct (sidecar _ t)].
Qed.

(** *** The paths that lock, change and rewrite a snapshot *)

Lemma view_inv db id s :
  db_wf db → view db id = Some s →
  ∃ r s0, db_snapshots db !! id = Some r ∧ row_ok (rows_of (db_history db) id) id r s0 ∧
    s = view_of db id r s0.
Proof.
  intros Hwf Hv. destruct (db_snapshots db !! id) as [r|] eqn:E; [|by rewrite view_none in Hv].
  destruct (wf_rows _ Hwf _ _ E) as [s0 Hok]. erewrite view_row in Hv by eauto.
  injection Hv as <-. by exists r, s0.
Qed.

(** The snapshot a mutation works on: the loaded one without its trace context. *)
Definition locked (db : PgDb) (id : string) (s0 : WorkflowSnapshot) : WorkflowSnapshot :=
  hydrated (sidecar (rows_of (db_tasks db) id)) s0.
Lemma view_of_locked db id r s0 : view_of db id r s0 = with_trace_parent (c_trace_parent r) (locked db id s0).
Proof. unfold view_of, locked. by destruct s0 as [? ? []]. Qed.
Lemma locked_wf db id r s0 : row_ok (rows_of (db_history db) id) id r s0 → snapshot_wf (locked db id s0).
Proof.
  intros Hok. apply snapshot_wf_mut; [|by eapply row_wf]. intros m Hm k x. rewrite map_lookup_imap.
  destruct (m !! k) as [y|] eqn:E; cbn; [|done]. intros [= <-]. rewrite <-(Hm _ _ E).
  unfold set_output. by case_match.
Qed.
Lemma locked_columns db id s0 : columns_of (locked db id s0) = columns_of s0.
Proof. apply columns_hydrated. Qed.
Lemma locked_id db id r s0 : row_ok (rows_of (db_history db) id) id r s0 → instance_id (locked db id s0) = id.
Proof. intros Hok. destruct (columns_eq _ _ (locked_columns db id s0)) as (-> & _). by eapply row_id. Qed.
Lemma locked_skipped db id s0 :
  serde_skipped s0 = s0 → trace_parent (locked db id s0) = None ∧ output_unflushed (locked db id s0) = false.
Proof. intros <-. by destruct s0 as [? ? []]. Qed.
Lemma locked_state_kind db id s0 :
  is_in_progress (state (locked db id s0)) = is_in_progress (state s0) ∧
  is_paused (state (locked db id s0)) = is_paused (state s0) ∧
  is_terminal (state (locked db id s0)) = is_terminal (state s0) ∧
  is_cancelled (state (locked db id s0)) = is_cancelled (state s0).
Proof. by destruct s0 as [? ? []]. Qed.

Lemma next_version_i32 db id r s0 :
  row_ok (rows_of (db_history db) id) id r s0 → c_history_version r < i32_max →
  as_i32 (c_history_version r + 1) = c_history_version r + 1.
Proof.
  intros Hok Hlt. destruct (row_blob _ _ _ _ Hok) as (h & Hh & _).
  destruct (row_versions _ _ _ _ Hok (c_history_version r)) as [Hge _]; [by eexists|].
  unfold as_i32, i32_max in *. rewrite Z.mod_small by lia. by rewrite bool_decide_true by lia.
Qed.

Lemma locked_write db db' id r s0 s' data r' h' :
  db_wf db → db_snapshots db !! id = Some r → row_ok (rows_of (db_history db) id) id r s0 →
  writes db id r' h' db' → snapshot_wf s' → instance_id s' = id → decode data = Ok (stored_form s') →
  mirrors s' data r' h' → c_history_version r' = c_history_version r + 1 →
  c_trace_parent r' = c_trace_parent r → synced (rows_of (db_tasks db') id) s' →
  db_wf db' ∧ view db' id = Some (with_trace_parent (c_trace_parent r) (with_output_unflushed false s')) ∧
  ∀ id', id' ≠ id → view db' id' = view db id'.
Proof.
  intros Hwf Hr Hok Hw Hs Hid Hd Hm Hv Htp Hsync.
  destruct (fresh_version db id Hwf) as [Hfr Hge]. unfold new_version in *. rewrite Hr in *.
  destruct (write_wf db db' s' data r' h' id) as (Hwf' & Hview & Hframe); rewrite ?Hv; try done.
  split_and!; try done. rewrite Hview. unfold view_of. by rewrite hydrated_stored, Htp.
Qed.

(** Appending a history row at the next version. *)
Lemma insert_next db id r s0 row db1 :
  db_wf db → db_snapshots db !! id = Some r → row_ok (rows_of (db_history db) id) id r s0 →
  db_history db1 = db_history db →
  insert_history id (c_history_version r + 1) row db1 =
    (Ok (), db_set_history (alter_rows id (insert (c_history_version r + 1) row) (db_history db)) db1).
Proof.
  intros Hwf Hr Hok Hh. unfold insert_history. rewrite Hh.
  pose proof (new_version_free db id Hwf) as Hf. unfold new_version in Hf. by rewrite Hr in Hf; rewrite Hf.
Qed.

Lemma alter_row (m : gmap string SnapshotRow) id r f : m !! id = Some r → alter f id m = <[id := f r]> m.
Proof. intros E. by rewrite <-(insert_id _ _ _ E) at 1; rewrite alter_insert_eq. Qed.

(** *** [save_task_result] *)

Lemma mark_completed_task_fields now t o s :
  position_kind (mark_task_completed now t o s) = position_kind s ∧
  delay_wake_at (mark_task_completed now t o s) = delay_wake_at s ∧
  current_task_priority (mark_task_completed now t o s) = current_task_priority s ∧
  task_tags (mark_task_completed now t o s) = task_tags s ∧
  instance_id (mark_task_completed now t o s) = instance_id s ∧
  is_cancelled (state (mark_task_completed now t o s)) = is_cancelled (state s).
Proof. by destruct s as [? ? []]. Qed.

(** The snapshot operations keep well-formedness and the id. *)
Lemma kept f s : keeps_ok f → snapshot_wf s → snapshot_wf (f s) ∧ instance_id (f s) = instance_id s.
Proof. intros Hf Hs. by destruct (Hf (instance_id s) s) as [? ?]. Qed.

Lemma upsert_output_Ok id t o db :
  tasks_ok (rows_of (db_tasks db) id) →
  ∃ tasks', upsert_output id t o db = (Ok (), db_set_tasks tasks' db) ∧ tasks_ok (rows_of tasks' id) ∧
    (∀ t', sidecar (rows_of tasks' id) t' =
      if bool_decide (t' = t) then Some o else sidecar (rows_of (db_tasks db) id) t') ∧
    ∀ id', id' ≠ id → rows_of tasks' id' = rows_of (db_tasks db) id'.
Proof.
  intros Ht. eexists. split; [done|]. rewrite rows_of_alter_eq. split_and!.
  - apply map_Forall_insert_2; [|done]. split; [apply id_bytes_length|done].
  - intros t'. unfold sidecar. case_bool_decide as E; [subst; by rewrite lookup_insert_eq|].
    rewrite lookup_insert_ne; [done|]. by intros ?%id_bytes_inj.
  - intros id' Hne. by rewrite rows_of_alter_ne.
Qed.

Lemma once_writes now id t o db r s0 :
  db_wf db → db_snapshots db !! id = Some r → row_ok (rows_of (db_history db) id) id r s0 →
  c_history_version r < i32_max →
  let s' := mark_task_completed now t o (locked db id s0) in
  ∃ db' r' h' data, save_task_result_once now id t o db = (Ok (), db') ∧
    writes db id r' h' db' ∧ decode data = Ok (stored_form s') ∧ mirrors s' data r' h' ∧
    c_history_version r' = c_history_version r + 1 ∧ c_trace_parent r' = c_trace_parent r ∧
    ∀ t', sidecar (rows_of (db_tasks db') id) t' =
      if bool_decide (t' = t) then Some o else sidecar (rows_of (db_tasks db) id) t'.
Proof.
  intros Hwf Hr Hok Hroom s'. pose proof (wf_tasks _ Hwf id) as Ht.
  unfold save_task_result_once, transaction, mbind, io_bind, io_map_err, lift_result.
  erewrite lock_row by eauto. cbn -[s']. fold (locked db id s0). fold s'.
  destruct (encode_blob_Ok s') as (data & He & Hd). rewrite He. cbn -[s'].
  rewrite (next_version_i32 db id r s0) by done. unfold update_row, modify_db. cbn -[s'].
  erewrite (alter_row _ id) by done. erewrite insert_next by eauto. cbn -[s'].
  match goal with |- context [upsert_output id t o ?d] => destruct (upsert_output_Ok id t o d Ht)
    as (tasks' & -> & Htok & Hside & Hother) end.
  destruct (columns_eq _ _ (columns_strip s')) as (E1 & E2 & E3 & E4 & E5 & E6 & E7 & E8).
  destruct (mark_completed_task_fields now t o (locked db id s0)) as (F1 & F2 & F3 & F4 & F5 & F6).
  destruct (columns_eq _ _ (locked_columns db id s0)) as (_ & _ & _ & G4 & G5 & _ & G7 & G8).
  eexists _, _, _, data. split; [done|]. split_and!; try done.
  split; cbn -[s']; rewrite ?E2, ?E3, ?E6; unfold s'; rewrite ?F1, ?F2, ?F3, ?F4, ?G4, ?G5, ?G7, ?G8; try done.
  all: by apply Hok.
Qed.

(** With the instance in progress, the result is recorded as in memory. *)
Lemma synced_marked now t o rows rows' s :
  synced rows s → is_in_progress (state s) →
  (∀ t', sidecar rows' t' = if bool_decide (t' = t) then Some o else sidecar rows t') →
  synced rows' (mark_task_completed now t o s).
Proof.
  intros Hs Hp Hr k x. rewrite Hr. unfold mark_task_completed, get_task_result in *.
  specialize (Hs k). unfold get_task_result in Hs. destruct s as [? ? []]; cbn in *; try done.
  case_bool_decide as E; [subst; rewrite lookup_insert_eq; by intros [= <-]|].
  rewrite lookup_insert_ne by done. apply Hs.
Qed.

Lemma once_view now id t o db s :
  db_wf db → view db id = Some s → is_in_progress (state s) → headroom db id →
  ∃ db', save_task_result_once now id t o db = (Ok (), db') ∧ db_wf db' ∧
    view db' id = Some (with_output_unflushed false (mark_task_completed now t o s)) ∧
    (∀ id', id' ≠ id → view db' id' = view db id') ∧
    sidecar (rows_of (db_tasks db') id) t = Some o ∧ version db' id = version db id + 1.
Proof.
  intros Hwf Hv Hp Hroom. destruct (view_inv _ _ _ Hwf Hv) as (r & s0 & Hr & Hok & ->).
  rewrite view_of_locked in *. destruct (once_writes now id t o db r s0 Hwf Hr Hok (Hroom _ Hr)) as
    (db' & r' & h' & data & Heq & Hw & Hd & Hm & Hver & Htp & Hside).
  exists db'. split; [done|].
  destruct (locked_write db db' id r s0 (mark_task_completed now t o (locked db id s0)) data r' h'
    Hwf Hr Hok Hw) as (Hwf' & Hview & Hframe); try done.
  - apply kept; [auto with sayiir|by eapply locked_wf].
  - rewrite (proj2 (kept (mark_task_completed now t o) _ (mark_task_completed_ok now t o) (locked_wf _ _ _ _ Hok))).
    by eapply locked_id.
  - eapply synced_marked; [apply synced_hydrated; by eapply row_stripped| |done].
    by destruct (locked db id s0) as [? ? []].
  - split_and!; try done; [|rewrite Hside; by rewrite bool_decide_true|].
    + rewrite Hview. f_equal. by destruct (locked db id s0) as [? ? []].
    + unfold version. by rewrite (w_snapshots _ _ _ _ _ Hw), lookup_insert_eq, Hr, Hver.
Qed.
End Invariant.
