(* ===== verification/PostgresComposites.v ===== *)
(** * The Postgres backend: the composites

    [check_and_cancel], [check_and_pause], [unpause] and the inline resumption of
    [send_event], each as one transaction: what they do to the snapshots a load
    returns, and that they refine the default bodies of the interface. *)

From S2P Require Import Prelude Hash32 SnapshotFormat Task Workflow Snapshot Backend InMemory.
From S2P Require Import ClaimStore Postgres PostgresSignals PostgresClaims PostgresProps.

#[local] Arguments transaction : simpl never.
#[local] Arguments encode : simpl never.
#[local] Arguments decode : simpl never.
#[local] Arguments rows_of : simpl never.
#[local] Arguments alter_rows : simpl never.
#[local] Arguments upsert_output : simpl never.
#[local] Arguments insert_history : simpl never.
#[local] Arguments notify_when : simpl never.
#[local] Arguments encode_blob : simpl never.
#[local] Arguments signal_row : simpl never.
#[local] Arguments lock_snapshot_for_mutation : simpl never.

Section Composites.
Context `{Sha256, Postgres, HintCodec, SnapshotCodec, !PostgresLaws, !SnapshotCodecLaws}.

Lemma view_unflushed db id s : db_wf db → view db id = Some s → with_output_unflushed false s = s.
Proof.
  intros Hwf Hv. destruct (view_inv _ _ _ Hwf Hv) as (r & s0 & Hr & Hok & ->).
  rewrite view_of_locked. destruct (locked_skipped db id s0 (row_skipped _ _ _ _ Hok)) as [_ Hu].
  by destruct (locked db id s0); cbn in *; subst.
Qed.
Lemma view_id db id s : db_wf db → view db id = Some s → instance_id s = id.
Proof.
  intros Hwf Hv. destruct (view_inv _ _ _ Hwf Hv) as (r & s0 & Hr & Hok & ->).
  rewrite view_of_locked. by apply (locked_id db id r s0).
Qed.
Lemma view_wf db id s : db_wf db → view db id = Some s → snapshot_wf s.
Proof.
  intros Hwf Hv. destruct (view_inv _ _ _ Hwf Hv) as (r & s0 & Hr & Hok & ->).
  rewrite view_of_locked. by pose proof (locked_wf db id r s0 Hok).
Qed.
Lemma view_synced db id s : db_wf db → view db id = Some s → synced (rows_of (db_tasks db) id) s.
Proof.
  intros Hwf Hv. destruct (view_inv _ _ _ Hwf Hv) as (r & s0 & Hr & Hok & ->).
  rewrite view_of_locked. pose proof (synced_hydrated (rows_of (db_tasks db) id) s0 (row_stripped _ _ _ _ Hok)) as Hs.
  intros k x Hk. apply (Hs k). unfold locked in *. by destruct (hydrated _ s0) as [? ? []].
Qed.
Lemma view_status db id s r :
  db_wf db → view db id = Some s → db_snapshots db !! id = Some r → c_status r = state_name (state s).
Proof.
  intros Hwf Hv Hr. destruct (view_inv _ _ _ Hwf Hv) as (r' & s0 & Hr' & Hok & ->). simplify_eq.
  rewrite view_of_locked. cbn. destruct (columns_eq _ _ (locked_columns db id s0)) as (_ & -> & _).
  by eapply row_status.
Qed.

(** A transition of the locked snapshot is that of the loaded one. *)
Definition keeps_trace (f : WorkflowSnapshot → WorkflowSnapshot) : Prop :=
  ∀ tp s, f (with_trace_parent tp s) = with_trace_parent tp (f s).

Definition keeps_flag (f : WorkflowSnapshot → WorkflowSnapshot) : Prop :=
  ∀ b s, f (with_output_unflushed b s) = with_output_unflushed b (f s).
Lemma flag_kept f s :
  keeps_flag f → with_output_unflushed false s = s → with_output_unflushed false (f s) = f s.
Proof. intros Hf Hs. by rewrite <-Hf, Hs. Qed.

(** *** The write of [check_and_pause] and [unpause] *)

Definition same_routing (s s' : WorkflowSnapshot) : Prop :=
  current_task_priority s' = current_task_priority s ∧ task_tags s' = task_tags s.

Lemma position_mirrors s data r version g now h :
  c_task_priority r = current_task_priority s → c_task_tags r = task_tags s →
  h_status h = state_name (state s) → h_data h = data → h_data_hash h = Some (snapshot_hash data) →
  mirrors s data (position_columns (strip_task_outputs s) (snapshot_hash data) version g now r) h.
Proof.
  intros Hp Ht ? ? ?. destruct (columns_eq _ _ (columns_strip s)) as (_ & E2 & E3 & E4 & E5 & E6 & _ & _).
  split; cbn; rewrite ?E2, ?E3, ?E4, ?E5, ?E6; done.
Qed.

Lemma payload_strip s : build_task_ready_payload (strip_task_outputs s) = build_task_ready_payload s.
Proof. by destruct s as [? ? []]. Qed.

Lemma rewrite_writes id s' db r s0 :
  db_wf db → db_snapshots db !! id = Some r → row_ok (rows_of (db_history db) id) id r s0 →
  c_history_version r < i32_max → payload_fits s' → same_routing s0 s' →
  ∃ db' r' h' data, rewrite_position id s' (c_history_version r) db = (Ok (strip_task_outputs s'), db') ∧
    writes db id r' h' db' ∧ decode data = Ok (stored_form s') ∧ mirrors s' data r' h' ∧
    c_history_version r' = c_history_version r + 1 ∧ c_trace_parent r' = c_trace_parent r ∧
    db_tasks db' = db_tasks db ∧ db_signals db' = db_signals db.
Proof.
  intros Hwf Hr Hok Hroom Hfit [Hp Ht]. destruct (encode_blob_Ok s') as (data & He & Hd).
  unfold rewrite_position, mbind, io_bind, lift_result. rewrite He. cbn.
  rewrite (next_version_i32 db id r s0) by done.
  unfold pg, io_map_err, update_row, modify_db. cbn. erewrite (alter_row _ id) by done. rewrite payload_strip.
  match goal with |- context [notify_when _ ?d] => destruct (notify_when_Ok s' d Hfit) as (n & -> & _) end.
  unfold append_history, pg, io_map_err. erewrite insert_next by eauto. unfold mret, io_ret.
  eexists _, (position_columns (strip_task_outputs s') (snapshot_hash data) (c_history_version r + 1)
    (λ _ c, c) (db_now db) r), _, data. split; [done|].
  split_and!; try done; [split; cbn; try done; by apply wf_tasks|].
  apply position_mirrors; cbn; try done.
  - rewrite Hp. by apply Hok.
  - rewrite Ht. by apply Hok.
  - by destruct (columns_eq _ _ (columns_strip s')) as (_ & ? & _).
Qed.

(** What a composite establishes: the invariant, the new snapshot, and the frame. *)
Definition next_versions (db db' : PgDb) (id : string) : Prop :=
  ∀ id', version db' id' = version db id' + if bool_decide (id' = id) then 1 else 0.
Definition replaced (db db' : PgDb) (id : string) (s : WorkflowSnapshot) : Prop :=
  db_wf db' ∧ view db' id = Some s ∧ (∀ id', id' ≠ id → view db' id' = view db id') ∧ next_versions db db' id.

Lemma new_version_eq db id : new_version db id = version db id + 1.
Proof. unfold new_version, version. by destruct (db_snapshots db !! id). Qed.
Lemma writes_next db id r' h' db' :
  writes db id r' h' db' → c_history_version r' = new_version db id → next_versions db db' id.
Proof.
  intros Hw Hv id'. unfold version at 1. rewrite (w_snapshots _ _ _ _ _ Hw). case_bool_decide as E; subst.
  - by rewrite lookup_insert_eq, Hv, new_version_eq.
  - rewrite lookup_insert_ne by done. unfold version. lia.
Qed.

Lemma replaced_by db db' id r s0 f data r' h' :
  db_wf db → db_snapshots db !! id = Some r → row_ok (rows_of (db_history db) id) id r s0 →
  writes db id r' h' db' → keeps_ok f → keeps_trace f →
  decode data = Ok (stored_form (f (locked db id s0))) → mirrors (f (locked db id s0)) data r' h' →
  c_history_version r' = c_history_version r + 1 → c_trace_parent r' = c_trace_parent r →
  synced (rows_of (db_tasks db') id) (f (locked db id s0)) →
  replaced db db' id (with_output_unflushed false (f (view_of db id r s0))).
Proof.
  intros Hwf Hr Hok Hw Hf Htr Hd Hm Hv Htp Hs.
  destruct (kept f (locked db id s0) Hf (locked_wf _ _ _ _ Hok)) as [Hw' Hid'].
  destruct (locked_write db db' id r s0 _ data r' h' Hwf Hr Hok Hw Hw') as (Hwf' & Hview & Hframe); try done.
  - rewrite Hid'. by apply (locked_id db id r s0).
  - split_and!; [done| |done|].
    + rewrite Hview, view_of_locked, Htr. by destruct (f (locked db id s0)).
    + eapply writes_next; [done|]. unfold new_version. by rewrite Hr.
Qed.

(** *** Signals *)

Lemma SignalKind_as_ref_inj k k' : SignalKind_as_ref k = SignalKind_as_ref k' → k = k'.
Proof. by destruct k, k'. Qed.
Lemma signal_row_delete db id k id' k' :
  signal_row (delete_signal id k db) id' k' =
  if bool_decide (id' = id ∧ k' = k) then None else signal_row db id' k'.
Proof.
  unfold signal_row, delete_signal. cbn. rewrite rows_of_alter. case_bool_decide as E.
  - destruct (decide (k' = k)) as [->|Hk].
    + rewrite bool_decide_true by done. apply lookup_delete_eq.
    + rewrite bool_decide_false by naive_solver. rewrite lookup_delete_ne by (by intros ?%SignalKind_as_ref_inj).
      by subst.
  - by rewrite bool_decide_false by naive_solver.
Qed.

(** Changing the signals of an existing instance keeps the invariant and every view. *)
Lemma signals_wf db id f :
  db_wf db → is_Some (db_snapshots db !! id) → db_wf (db_set_signals (alter_rows id f (db_signals db)) db).
Proof.
  intros [Hr Ht Hc] [r Hs]. split; cbn; [done..|]. intros id' Hn.
  rewrite rows_of_alter_ne; [by apply Hc|]. congruence.
Qed.
Lemma view_signals db id t : view (db_set_signals t db) id = view db id.
Proof. by apply view_frame. Qed.
Lemma delete_signal_wf db id k : db_wf db → db_wf (delete_signal id k db).
Proof.
  intros Hwf. destruct (db_snapshots db !! id) as [r|] eqn:E; [apply signals_wf; eauto|].
  destruct Hwf as [Hr Ht Hc]. split; cbn; [done..|]. intros id' Hn. rewrite rows_of_alter.
  destruct (Hc id' Hn) as (? & ? & Hs & ?). split_and!; [done..| |done].
  case_bool_decide as E2; [subst id'; rewrite Hs; apply delete_empty|done].
Qed.
Lemma replaced_delete_signal db db' id k s : replaced db db' id s → replaced db (delete_signal id k db') id s.
Proof.
  intros (? & Hv & Hf & Hn). split_and!; [by apply delete_signal_wf|by unfold delete_signal; rewrite view_signals| |done].
  intros id' Hne. unfold delete_signal. rewrite view_signals. by apply Hf.
Qed.

(** Signals are pending for stored instances only. *)
Lemma signal_view db id k q :
  db_wf db → signal_row db id k = Some q → ∃ s, view db id = Some s.
Proof.
  intros Hwf Hq. apply view_is_Some; [done|]. destruct (db_snapshots db !! id) as [r|] eqn:E; [by eexists|].
  destruct (wf_children _ Hwf _ E) as (_ & _ & Hs & _). unfold signal_row in Hq. by rewrite Hs in Hq.
Qed.

(** *** [check_and_pause] and [unpause] *)

Lemma payload_fits_parked s : is_in_progress (state s) = false → payload_fits s.
Proof. intros Hs p. unfold build_task_ready_payload. destruct s as [? ? []]; cbn in *; done. Qed.

Lemma synced_same rows s s' :
  (∀ k, get_task_result k s' = get_task_result k s) → synced rows s → synced rows s'.
Proof. intros Hg Hs k r. rewrite Hg. apply Hs. Qed.

Lemma locked_synced db id r s0 :
  row_ok (rows_of (db_history db) id) id r s0 → synced (rows_of (db_tasks db) id) (locked db id s0).
Proof. intros Hok. apply synced_hydrated. by eapply row_stripped. Qed.

Lemma locked_routing db id s0 : same_routing s0 (locked db id s0).
Proof. destruct (columns_eq _ _ (locked_columns db id s0)) as (_ & _ & _ & _ & _ & _ & ? & ?). by split. Qed.

Lemma same_routing_trans a b c : same_routing a b → same_routing b c → same_routing a c.
Proof. unfold same_routing. intuition congruence. Qed.

Lemma pause_view now id db s q :
  db_wf db → view db id = Some s → is_in_progress (state s) → headroom db id →
  signal_row db id Pause = Some q →
  ∃ db', pg_check_and_pause now id db = (Ok true, db') ∧
    replaced db db' id (mark_paused now (pause_of_signal q) s) ∧
    db_signals db' = alter_rows id (delete (SignalKind_as_ref Pause)) (db_signals db).
Proof.
  intros Hwf Hv Hp Hroom Hq. pose proof (view_unflushed _ _ _ Hwf Hv) as Hu.
  destruct (view_inv _ _ _ Hwf Hv) as (r & s0 & Hr & Hok & ->).
  set (f := mark_paused now (MkPauseRequest (sr_reason q) (sr_requested_by q) now)).
  assert (is_in_progress (state (locked db id s0)) = true) as Hpl
    by (rewrite view_of_locked in Hp; by apply Is_true_true in Hp).
  destruct (rewrite_writes id (f (locked db id s0)) db r s0) as
    (db1 & r' & h' & data & Heq & Hw & Hd & Hm & Hver & Htp & Htasks & Hsig); try done.
  { by apply Hroom. }
  { apply payload_fits_parked. unfold f. by destruct (locked db id s0) as [? ? []]. }
  { eapply same_routing_trans; [apply (locked_routing db id)|]. unfold f. by destruct (locked db id s0) as [? ? []]. }
  exists (delete_signal id Pause db1).
  assert (pg_check_and_pause now id db = (Ok true, delete_signal id Pause db1)) as ->.
  { unfold pg_check_and_pause. apply transaction_Ok. unfold mbind, io_bind, get_state. rewrite Hq.
    erewrite lock_row by eauto using wf_tasks. fold (locked db id s0). rewrite Hpl. cbn [negb].
    fold f. by rewrite Heq. }
  split; [done|]. split; [|cbn; by rewrite Hsig]. apply replaced_delete_signal.
  change (mark_paused now (pause_of_signal q) (view_of db id r s0)) with (f (view_of db id r s0)).
  rewrite <-(flag_kept f (view_of db id r s0)) by (done || by intros b [? ? []]).
  eapply replaced_by; eauto; [apply mark_paused_ok|intros tp x; by destruct x as [? ? []]|].
  rewrite Htasks. eapply synced_same, locked_synced; [|done]. intros k. unfold f. by destruct (locked db id s0) as [? ? []].
Qed.

Lemma unpause_view now id db s :
  db_wf db → view db id = Some s → is_paused (state s) → headroom db id → payload_fits (mark_unpaused now s) →
  ∃ db' s', pg_unpause now id db = (Ok s', db') ∧ replaced db db' id (mark_unpaused now s) ∧
    db_signals db' = db_signals db ∧
    s' = strip_task_outputs (with_trace_parent None (mark_unpaused now s)).
Proof.
  intros Hwf Hv Hp Hroom Hfit. pose proof (view_unflushed _ _ _ Hwf Hv) as Hu.
  destruct (view_inv _ _ _ Hwf Hv) as (r & s0 & Hr & Hok & ->).
  set (f := mark_unpaused now). assert (keeps_trace f) as Htr by (intros tp x; by destruct x as [? ? []]).
  assert (is_paused (state (locked db id s0)) = true) as Hpl
    by (rewrite view_of_locked in Hp; by apply Is_true_true in Hp).
  destruct (locked_skipped db id s0 (row_skipped _ _ _ _ Hok)) as [Htp0 _].
  destruct (rewrite_writes id (f (locked db id s0)) db r s0) as
    (db1 & r' & h' & data & Heq & Hw & Hd & Hm & Hver & Htp & Htasks & Hsig); try done.
  { by apply Hroom. }
  { intros p Hpay. apply Hfit. rewrite view_of_locked. fold f. rewrite Htr, <-Hpay. by destruct (f (locked db id s0)). }
  { eapply same_routing_trans; [apply (locked_routing db id)|]. unfold f. by destruct (locked db id s0) as [? ? []]. }
  exists db1, (strip_task_outputs (f (locked db id s0))). split_and!; [| |done|].
  - unfold pg_unpause. apply transaction_Ok. unfold mbind, io_bind, lift_result.
    erewrite lock_row by eauto using wf_tasks. cbn. fold (locked db id s0). rewrite Hpl. cbn [negb]. exact Heq.
  - fold f. rewrite <-(flag_kept f (view_of db id r s0)) by (done || by intros b [? ? []]).
    eapply replaced_by; eauto; [apply mark_unpaused_ok|].
    rewrite Htasks. eapply synced_same, locked_synced; [|done]. intros k. unfold f. by destruct (locked db id s0) as [? ? []].
  - rewrite view_of_locked. fold f. f_equal. rewrite <-Htr. f_equal.
    destruct (locked db id s0); cbn in *; by subst.
Qed.

(** *** [check_and_cancel] *)

Lemma cancel_view now id at_ db s q :
  db_wf db → view db id = Some s → is_in_progress (state s) → headroom db id →
  signal_row db id Cancel = Some q →
  ∃ db', pg_check_and_cancel now id at_ db = (Ok true, db') ∧
    replaced db db' id (mark_cancelled now (sr_reason q) (sr_requested_by q) at_ s) ∧
    db_signals db' = alter_rows id (delete (SignalKind_as_ref Cancel)) (db_signals db).
Proof.
  intros Hwf Hv Hp Hroom Hq. pose proof (view_unflushed _ _ _ Hwf Hv) as Hu.
  destruct (view_inv _ _ _ Hwf Hv) as (r & s0 & Hr & Hok & ->).
  set (f := mark_cancelled now (sr_reason q) (sr_requested_by q) at_).
  assert (is_in_progress (state (locked db id s0)) = true) as Hpl
    by (rewrite view_of_locked in Hp; by apply Is_true_true in Hp).
  destruct (encode_blob_Ok (f (locked db id s0))) as (data & He & Hd).
  set (r' := cancel_columns (strip_task_outputs (f (locked db id s0))) (snapshot_hash data)
    (c_history_version r + 1) (db_now db) r).
  set (h' := MkHistoryRow "Cancelled" (id_bytes <$> at_) data (Some (snapshot_hash data))).
  set (db1 := cancel_active id (db_set_history
    (alter_rows id (insert (c_history_version r + 1) h') (db_history db))
    (db_set_snapshots (<[id := r']> (db_snapshots db)) db))).
  pose proof (wf_tasks _ Hwf id) as Ht.
  destruct (retire_active_spec (λ r, if bool_decide (t_status r = "active") then MkTaskRow "cancelled"
    (t_started_at r) (Some (db_now db)) (t_error r) (t_output r) else r) (rows_of (db_tasks db) id)) as [Htok Hside];
    [intros x; by case_bool_decide|intros x Hx; by rewrite bool_decide_false|done|].
  exists (delete_signal id Cancel db1).
  assert (pg_check_and_cancel now id at_ db = (Ok true, delete_signal id Cancel db1)) as ->.
  { unfold pg_check_and_cancel. apply transaction_Ok. unfold mbind, io_bind, get_state, lift_result. rewrite Hq.
    erewrite lock_row by eauto using wf_tasks. fold (locked db id s0). rewrite Hpl. cbn [negb].
    fold f. rewrite He, (next_version_i32 db id r s0) by eauto.
    unfold pg, io_map_err, update_row, modify_db. rewrite (alter_row _ id r) by done. fold r'.
    assert (build_task_ready_payload (strip_task_outputs (f (locked db id s0))) = None) as -> by done.
    unfold notify_when, mret, io_ret, append_history, pg, io_map_err.
    erewrite insert_next by eauto. done. }
  split; [done|]. split; [|done]. apply replaced_delete_signal.
  fold f. rewrite <-(flag_kept f (view_of db id r s0)) by (done || by intros b [? ? []]).
  eapply (replaced_by _ _ _ _ _ _ data r' h'); eauto.
  - split; cbn; try done; [by rewrite rows_of_alter_eq|]. intros id' Hne. by rewrite rows_of_alter_ne.
  - apply mark_cancelled_ok.
  - by intros tp [? ? []].
  - destruct (columns_eq _ _ (locked_columns db id s0)) as (_ & _ & _ & _ & _ & C6 & C7 & C8).
    split; cbn; try done.
    + rewrite (row_count _ _ _ _ Hok), <-C6. unfold completed_task_count, f.
      by destruct (locked db id s0) as [? ? []].
    + rewrite (row_priority _ _ _ _ Hok), <-C7. done.
    + rewrite (row_tags _ _ _ _ Hok), <-C8. done.
  - intros k x Hk. cbn. rewrite rows_of_alter_eq. cbn in Hside. rewrite Hside.
    apply (locked_synced db id r s0 Hok). rewrite <-Hk. unfold f, get_task_result. by destruct (locked db id s0) as [? ? []].
Qed.

(** *** [send_event] *)

(** What the inline resumption does to the snapshot. *)
Definition resumed (now : DateTime) (payload : Bytes) (signal_id : TaskId) (next : option TaskId)
    (s : WorkflowSnapshot) : WorkflowSnapshot :=
  let s := mark_task_completed now signal_id payload s in
  match next with
  | Some next_id => update_position now (AtTask next_id) s
  | None => mark_completed now payload s
  end.

Lemma resumed_ok now p sid next : keeps_ok (resumed now p sid next).
Proof.
  destruct next as [n|].
  - apply (keeps_ok_compose (update_position now (AtTask n))); auto with sayiir.
  - apply (keeps_ok_compose (λ s, mark_completed now p s));
      [apply (mark_completed_ok now (λ _, p))|auto with sayiir].
Qed.
Lemma resumed_trace now p sid next : keeps_trace (resumed now p sid next).
Proof. intros tp [? ? []]; by destruct next. Qed.
Lemma resumed_routing now p sid next s : same_routing s (resumed now p sid next s).
Proof. destruct s as [? ? []]; by destruct next. Qed.

Lemma synced_resumed now p sid next rows rows' s :
  synced rows s → is_in_progress (state s) →
  (∀ t', sidecar rows' t' = if bool_decide (t' = sid) then Some p else sidecar rows t') →
  synced rows' (resumed now p sid next s).
Proof.
  intros Hs Hp Hr. pose proof (synced_marked now sid p rows rows' s Hs Hp Hr) as Hm.
  unfold resumed. destruct next as [n|]; [|by intros k r].
  eapply synced_same; [|exact Hm]. intros k. by destruct (mark_task_completed now sid p s) as [? ? []].
Qed.

Lemma target_in_progress s name x : signal_resume_target s name = Some x → is_in_progress (state s).
Proof. unfold signal_resume_target. by destruct s as [? ? []]. Qed.
Lemma target_trace tp s name : signal_resume_target (with_trace_parent tp s) name = signal_resume_target s name.
Proof. by destruct s. Qed.

Lemma send_resumes now id name payload db s sid next :
  db_wf db → view db id = Some s → signal_resume_target s name = Some (sid, next) → headroom db id →
  payload_fits (resumed now payload sid next s) →
  ∃ db', send_event_at now id name payload db = (Ok (), db') ∧
    replaced db db' id (with_output_unflushed false (resumed now payload sid next s)) ∧
    db_events db' = db_events db ∧ db_signals db' = db_signals db ∧
    sidecar (rows_of (db_tasks db') id) sid = Some payload.
Proof.
  intros Hwf Hv Htgt Hroom Hfit. pose proof (target_in_progress _ _ _ Htgt) as Hp.
  destruct (view_inv _ _ _ Hwf Hv) as (r & s0 & Hr & Hok & ->).
  pose proof (view_status db id _ r Hwf Hv Hr) as Hst.
  rewrite view_of_locked in Htgt, Hp, Hst, Hfit. rewrite target_trace in Htgt.
  assert (c_status r = "InProgress") as Hst' by (rewrite Hst; by destruct (locked db id s0) as [? ? []]).
  set (f := resumed now payload sid next).
  destruct (encode_blob_Ok (f (locked db id s0))) as (data & He & Hd).
  assert (payload_fits (f (locked db id s0))) as Hfit'.
  { intros p Hpay. apply Hfit. fold f. unfold f. rewrite resumed_trace, <-Hpay. unfold f. by destruct (resumed _ _ _ _ _). }
  set (r' := position_columns (strip_task_outputs (f (locked db id s0))) (snapshot_hash data)
    (c_history_version r + 1) (λ now c, if is_terminal (state (strip_task_outputs (f (locked db id s0))))
       then Some now else c) (db_now db) r).
  unfold send_event_at, mbind, io_bind, get_state. rewrite Hr, bool_decide_true by done. cbn [negb].
  unfold transaction. erewrite lock_row by eauto using wf_tasks. fold (locked db id s0). rewrite Htgt.
  unfold resume_at_signal, mbind, io_bind, lift_result. fold (resumed now payload sid next (locked db id s0)). fold f.
  rewrite He, (next_version_i32 db id r s0) by eauto.
  unfold pg, io_map_err, update_row, modify_db. rewrite (alter_row _ id r) by done. fold r'. cbn [db_now].
  set (db1 := db_set_snapshots _ _).
  destruct (upsert_output_Ok id sid payload db1 (wf_tasks _ Hwf id)) as (tasks' & -> & Htok & Hside & Hother).
  rewrite payload_strip. destruct (notify_when_Ok (f (locked db id s0)) (db_set_tasks tasks' db1) Hfit') as (n & -> & _).
  unfold append_history, pg, io_map_err. erewrite insert_next by eauto.
  eexists. split; [done|]. split; [|split_and!; try done; cbn; rewrite Hside; by rewrite bool_decide_true].
  eapply (replaced_by _ _ _ _ _ f data r'); eauto; [split; cbn; done|apply resumed_ok|apply resumed_trace| |].
  - destruct (locked_routing db id s0) as [L1 L2].
    destruct (resumed_routing now payload sid next (locked db id s0)) as [R1 R2].
    apply position_mirrors; cbn; try done.
    + unfold f. rewrite R1, L1. by apply Hok.
    + unfold f. rewrite R2, L2. by apply Hok.
    + by destruct (columns_eq _ _ (columns_strip (f (locked db id s0)))) as (_ & ? & _).
  - eapply synced_resumed; [by eapply locked_synced|by destruct (locked db id s0)|done].
Qed.

(** Otherwise the event joins the end of its queue. *)
Lemma send_buffers now id name payload db :
  db_wf db → (∀ s, view db id = Some s → signal_resume_target s name = None) →
  send_event_at now id name payload db = (Ok (), insert_event id name payload db).
Proof.
  intros Hwf Hno. unfold send_event_at, mbind, io_bind, get_state.
  destruct (db_snapshots db !! id) as [r|] eqn:Hr; [|done]. case_bool_decide; [|done]. cbn [negb].
  destruct (wf_rows _ Hwf _ _ Hr) as [s0 Hok]. unfold transaction.
  erewrite lock_row by eauto using wf_tasks. fold (locked db id s0).
  specialize (Hno (view_of db id r s0)). rewrite view_of_locked, target_trace in Hno.
  rewrite Hno; [done|]. rewrite <-view_of_locked. by apply view_row.
Qed.

(** *** The composites refine the interface's defaults *)

(** Two databases that answer every load and signal query alike. *)
Definition same_store (db db' : PgDb) : Prop :=
  (∀ id, view db id = view db' id) ∧ (∀ id k, signal_row db id k = signal_row db' id k).

(** The save of a transition of the loaded snapshot that changes no output. *)
Lemma save_transition db id s f :
  db_wf db → view db id = Some s → is_in_progress (state s) → headroom db id →
  keeps_ok f → keeps_flag f → is_in_progress (state (f s)) = false →
  (∀ k, get_task_result k (f s) = get_task_result k s) →
  ∃ db' s', pg_save_snapshot (f s) db = (Ok s', db') ∧ replaced db db' id (f s) ∧
    db_signals db' = db_signals db.
Proof.
  intros Hwf Hv Hp Hroom Hf Hfl Hpark Hres.
  destruct (kept f s Hf (view_wf _ _ _ Hwf Hv)) as [Hw' Hid'].
  rewrite (view_id _ _ _ Hwf Hv) in Hid'.
  pose proof (flag_kept f s Hfl (view_unflushed _ _ _ Hwf Hv)) as Hflag.
  assert (¬ terminal_row db (instance_id (f s))) as Hlive.
  { rewrite Hid'. intros (r & Hr & Ht). rewrite (view_status _ _ _ _ Hwf Hv Hr) in Ht.
    by destruct (state s). }
  assert (flushed (f s) = None) as Hfs.
  { unfold flushed. rewrite <-Hflag. done. }
  destruct (save_live_view db (f s)) as (db' & Heq & Hwf' & Hview & Hframe & Hsig); rewrite ?Hid' in *; try done.
  - by apply payload_fits_parked.
  - intros k r Hk. right. apply (view_synced _ _ _ Hwf Hv). by rewrite <-Hres.
  - destruct (save_writes db (f s)) as (db2 & r' & h' & data & Heq2 & Hw & _ & _ & Hver & _);
      rewrite ?Hid'; try done; [by apply payload_fits_parked|].
    assert (db2 = db') as -> by congruence. rewrite Hflag, Hid' in *. exists db', (f s).
    split_and!; try done. split_and!; try done. by eapply writes_next.
Qed.

Lemma replaced_same db db1 db2 id s k :
  replaced db db1 id s → replaced db db2 id s → 
  (∀ id' k', signal_row db1 id' k' = signal_row (delete_signal id k db) id' k') → db_signals db2 = db_signals db →
  same_store db1 (delete_signal id k db2).
Proof.
  intros (_ & Hv1 & Hf1 & _) (_ & Hv2 & Hf2 & _) Hs1 Hs2. split.
  - intros id'. unfold delete_signal. rewrite view_signals.
    destruct (decide (id' = id)) as [->|Hne]; [by rewrite Hv1, Hv2|]. by rewrite Hf1, Hf2.
  - intros id' k'. rewrite Hs1, !signal_row_delete. unfold signal_row. by rewrite Hs2.
Qed.

Lemma same_store_refl db : same_store db db.
Proof. done. Qed.

Lemma load_view db id s : db_wf db → view db id = Some s → pg_load_snapshot id db = (Ok s, db).
Proof.
  intros Hwf Hv. destruct (view_inv _ _ _ Hwf Hv) as (r & s0 & Hr & Hok & ->).
  by apply load_row; [|by eauto|apply wf_tasks].
Qed.
Lemma lock_view db id s : db_wf db → view db id = Some s →
  ∃ s1 v, lock_snapshot_for_mutation id db = (Ok (Some (s1, v)), db) ∧
    is_in_progress (state s1) = is_in_progress (state s) ∧ is_paused (state s1) = is_paused (state s) ∧
    state_name (state s1) = state_name (state s).
Proof.
  intros Hwf Hv. destruct (view_inv _ _ _ Hwf Hv) as (r & s0 & Hr & Hok & ->).
  eexists _, _. split; [by eapply lock_row; [|by eauto|apply wf_tasks]|]. by rewrite view_of_locked.
Qed.

Lemma default_cancel_eq now id at_ db q s :
  signal_row db id Cancel = Some q → pg_load_snapshot id db = (Ok s, db) →
  default_check_and_cancel now id at_ db =
    if is_in_progress (state s)
    then (save_snapshot (mark_cancelled now (sr_reason q) (sr_requested_by q) at_ s) ≫= λ _,
          clear_signal id Cancel ≫= λ _, mret true) db
    else (Ok false, db).
Proof.
  intros Hq Hl. unfold default_check_and_cancel. cbn [get_signal load_snapshot postgres].
  unfold mbind at 1, io_bind at 1, pg_get_signal. rewrite Hq.
  unfold mbind at 1, io_bind at 1. rewrite Hl. by destruct (is_in_progress _).
Qed.
Lemma default_pause_eq now id db q s :
  signal_row db id Pause = Some q → pg_load_snapshot id db = (Ok s, db) →
  default_check_and_pause now id db =
    if is_in_progress (state s)
    then (save_snapshot (mark_paused now (pause_of_signal q) s) ≫= λ _,
          clear_signal id Pause ≫= λ _, mret true) db
    else (Ok false, db).
Proof.
  intros Hq Hl. unfold default_check_and_pause. cbn [get_signal load_snapshot postgres].
  unfold mbind at 1, io_bind at 1, pg_get_signal. rewrite Hq.
  unfold mbind at 1, io_bind at 1. rewrite Hl. by destruct (is_in_progress _).
Qed.
(** The write-back of the default bodies, after a save that succeeds. *)
Lemma save_then_clear s id k db db' s' :
  pg_save_snapshot s db = (Ok s', db') →
  (save_snapshot s ≫= λ _, clear_signal id k ≫= λ _, mret true : io PgDb BackendError bool) db =
    (Ok true, delete_signal id k db').
Proof. intros Heq. unfold mbind, io_bind. cbn [save_snapshot clear_signal postgres]. by rewrite Heq. Qed.

Lemma Is_true_intro (b : bool) : b = true → Is_true b.
Proof. by intros ->. Qed.

(** The single-transaction [check_and_cancel] answers as the default composite of
    the interface and leaves the same snapshots and signals. *)
Lemma cancel_refines now id at_ db :
  db_wf db → headroom db id →
  (pg_check_and_cancel now id at_ db).1 = (default_check_and_cancel now id at_ db).1 ∧
  same_store (pg_check_and_cancel now id at_ db).2 (default_check_and_cancel now id at_ db).2.
Proof.
  intros Hwf Hroom. destruct (signal_row db id Cancel) as [q|] eqn:Hq.
  2:{ unfold default_check_and_cancel, pg_check_and_cancel, transaction, mbind, io_bind, get_state.
      cbn [get_signal postgres]. unfold pg_get_signal. by rewrite Hq. }
  destruct (signal_view _ _ _ _ Hwf Hq) as [s Hv].
  rewrite (default_cancel_eq now id at_ db q s Hq (load_view _ _ _ Hwf Hv)).
  destruct (is_in_progress (state s)) eqn:Hp.
  2:{ destruct (lock_view _ _ _ Hwf Hv) as (s1 & v & Hl & Hs1 & _).
      unfold pg_check_and_cancel, transaction, mbind, io_bind, get_state. by rewrite Hq, Hl, Hs1, Hp. }
  destruct (cancel_view now id at_ db s q Hwf Hv (Is_true_intro _ Hp) Hroom Hq) as (db1 & -> & Hrep1 & Hsig1).
  destruct (save_transition db id s (mark_cancelled now (sr_reason q) (sr_requested_by q) at_) Hwf Hv
    (Is_true_intro _ Hp) Hroom) as (db2 & s' & Heq & Hrep2 & Hsig2); try done.
  { apply mark_cancelled_ok. }
  { intros k. destruct s as [? ? []]; done. }
  rewrite (save_then_clear _ _ _ _ _ _ Heq). split; [done|].
  cbn [snd]. eapply replaced_same; [exact Hrep1|exact Hrep2| |done].
  intros id' k'. unfold signal_row. by rewrite Hsig1.
Qed.

Lemma pause_refines now id db :
  db_wf db → headroom db id →
  (pg_check_and_pause now id db).1 = (default_check_and_pause now id db).1 ∧
  same_store (pg_check_and_pause now id db).2 (default_check_and_pause now id db).2.
Proof.
  intros Hwf Hroom. destruct (signal_row db id Pause) as [q|] eqn:Hq.
  2:{ unfold default_check_and_pause, pg_check_and_pause, transaction, mbind, io_bind, get_state.
      cbn [get_signal postgres]. unfold pg_get_signal. by rewrite Hq. }
  destruct (signal_view _ _ _ _ Hwf Hq) as [s Hv].
  rewrite (default_pause_eq now id db q s Hq (load_view _ _ _ Hwf Hv)).
  destruct (is_in_progress (state s)) eqn:Hp.
  2:{ destruct (lock_view _ _ _ Hwf Hv) as (s1 & v & Hl & Hs1 & _).
      unfold pg_check_and_pause, transaction, mbind, io_bind, get_state. by rewrite Hq, Hl, Hs1, Hp. }
  destruct (pause_view now id db s q Hwf Hv (Is_true_intro _ Hp) Hroom Hq) as (db1 & -> & Hrep1 & Hsig1).
  destruct (save_transition db id s (mark_paused now (pause_of_signal q)) Hwf Hv
    (Is_true_intro _ Hp) Hroom) as (db2 & s' & Heq & Hrep2 & Hsig2).
  { apply mark_paused_ok. }
  { by intros b [? ? []]. }
  { destruct s as [? ? []]; done. }
  { intros k. destruct s as [? ? []]; done. }
  rewrite (save_then_clear _ _ _ _ _ _ Heq). split; [done|].
  cbn [snd]. eapply replaced_same; [exact Hrep1|exact Hrep2| |done].
  intros id' k'. unfold signal_row. by rewrite Hsig1.
Qed.

Lemma unpause_refines now id db :
  db_wf db → headroom db id → (∀ s, view db id = Some s → payload_fits (mark_unpaused now s)) →
  (pg_unpause now id db).1 =
    ((λ s, strip_task_outputs (with_trace_parent None s)) <$> (default_unpause now id db).1) ∧
  same_store (pg_unpause now id db).2 (default_unpause now id db).2.
Proof.
  intros Hwf Hroom Hfit. unfold default_unpause. unfold mbind, io_bind. cbn [load_snapshot postgres].
  destruct (view db id) as [s|] eqn:Hv.
  2:{ assert (db_snapshots db !! id = None) as Hn.
      { destruct (db_snapshots db !! id) eqn:E; [|done]. destruct (proj2 (view_is_Some db id Hwf)); [by eexists|].
        congruence. }
      unfold pg_unpause, transaction, lock_snapshot_for_mutation, pg_load_snapshot, mbind, io_bind,
        get_state, lift_result. by rewrite Hn. }
  rewrite (load_view _ _ _ Hwf Hv). destruct (is_paused (state s)) eqn:Hp; cbn [negb].
  2:{ destruct (lock_view _ _ _ Hwf Hv) as (s1 & v & Hl & _ & Hs1 & Hn).
      unfold pg_unpause, transaction, mbind, io_bind, lift_result. rewrite Hl. cbn. by rewrite Hs1, Hp, Hn. }
  destruct (unpause_view now id db s Hwf Hv (Is_true_intro _ Hp) Hroom (Hfit s eq_refl))
    as (db1 & s' & -> & (Hwf1 & Hv1 & Hf1 & _) & Hsig1 & ->).
  cbn [save_snapshot postgres].
  destruct (kept (mark_unpaused now) s (mark_unpaused_ok now) (view_wf _ _ _ Hwf Hv)) as [Hw' Hid'].
  rewrite (view_id _ _ _ Hwf Hv) in Hid'.
  assert (with_output_unflushed false (mark_unpaused now s) = mark_unpaused now s) as Hfl.
  { apply flag_kept; [by intros b [? ? []]|]. by apply (view_unflushed db id). }
  destruct (save_live_view db (mark_unpaused now s)) as (db2 & Heq & Hwf2 & Hv2 & Hf2 & Hsig2);
    rewrite ?Hid' in *; try done; [by apply Hfit| | |].
  - intros (r & Hr & Ht). rewrite (view_status _ _ _ _ Hwf Hv Hr) in Ht. revert Ht Hp. by destruct (state s).
  - intros k r Hk. right. apply (view_synced _ _ _ Hwf Hv). rewrite <-Hk. by destruct s as [? ? []].
  - rewrite Hfl in *. rewrite Heq. split; [done|]. split.
    + intros id'. cbn [snd]. destruct (decide (id' = id)) as [->|Hne]; [by rewrite Hv1, Hv2|]. by rewrite Hf1, Hf2.
    + intros id' k. unfold signal_row. cbn [snd]. by rewrite Hsig1, Hsig2.
Qed.

(** The probe of [check_control_signals] changes nothing: it is the default body. *)
Lemma control_signals_default now id at_ db :
  pg_check_control_signals now id at_ db = check_control_signals now id at_ db.
Proof.
  unfold pg_check_control_signals, check_control_signals. unfold mbind at 1, io_bind at 1, get_state.
  case_bool_decide as E; [|done]. cbn [check_and_cancel check_and_pause postgres].
  assert (∀ k, signal_row db id k = None) as Hn by (intros k; unfold signal_row; by rewrite E).
  unfold pg_check_and_cancel, pg_check_and_pause, transaction, mbind, io_bind, get_state. rewrite Hn. cbn.
  by rewrite Hn.
Qed.

(** *** Retries *)

(** Recording a result again has the effect of the last recording. *)
Definition pg_recorded (now : DateTime) (t : TaskId) (o : Bytes) (s : WorkflowSnapshot) : WorkflowSnapshot :=
  with_output_unflushed false (mark_task_completed now t o s).
Lemma recorded_again now1 now2 t o s : pg_recorded now2 t o (pg_recorded now1 t o s) = pg_recorded now2 t o s.
Proof.
  unfold pg_recorded, mark_task_completed. destruct s as [? ? []]; cbn; try done.
  by rewrite insert_insert_eq.
Qed.
Lemma recorded_in_progress now t o s : is_in_progress (state (pg_recorded now t o s)) = is_in_progress (state s).
Proof. by destruct s as [? ? []]. Qed.

(** What an attempt leaves behind, [s] being the snapshot before the first one. *)
Definition attempted (clock : nat → DateTime) (t : TaskId) (o : Bytes) (s : WorkflowSnapshot) (n : nat)
    (v : option WorkflowSnapshot) : Prop :=
  v = Some s ∨ ∃ m, (m < n)%nat ∧ v = Some (pg_recorded (clock m) t o s).

Lemma attempted_S clock t o s n v : attempted clock t o s n v → attempted clock t o s (S n) v.
Proof. intros [?|(m & ? & ?)]; [by left|right]. exists m. split; [lia|done]. Qed.

Lemma attempt_once fault clock id t o s n db :
  db_wf db → is_in_progress (state s) → attempted clock t o s n (view db id) → version db id < i32_max →
  let '(res, db') := attempt fault (save_task_result_once (clock n) id t o) db in
  db_wf db' ∧ (∀ id', id' ≠ id → view db' id' = view db id') ∧ version db' id ≤ version db id + 1 ∧
  match res with
  | Ok _ => view db' id = Some (pg_recorded (clock n) t o s) ∧ sidecar (rows_of (db_tasks db') id) t = Some o
  | Err e => attempted clock t o s (S n) (view db' id) ∧ is_Some fault
  end.
Proof.
  intros Hwf Hp Hatt Hver.
  assert (∃ s1, view db id = Some s1 ∧ is_in_progress (state s1) ∧
    pg_recorded (clock n) t o s1 = pg_recorded (clock n) t o s) as (s1 & Hv1 & Hp1 & Hrec).
  { destruct Hatt as [?|(m & _ & ?)]; eexists; (split; [done|]);
      by rewrite ?recorded_in_progress, ?recorded_again. }
  destruct (once_view (clock n) id t o db s1 Hwf Hv1 Hp1) as (db1 & Honce & Hwf1 & Hview1 & Hf1 & Hs1 & Hver1);
    [by apply headroom_version|]. fold (pg_recorded (clock n) t o s1) in Hview1. rewrite Hrec in Hview1.
  unfold attempt. destruct fault as [[e|e]|]; rewrite ?Honce.
  - split_and!; try done; [lia|by apply attempted_S].
  - split_and!; try done; [lia|]. right. exists n. split; [lia|done].
  - split_and!; try done. lia.
Qed.

Lemma retry_attempts faults clock id t o s k n db :
  db_wf db → is_in_progress (state s) → attempted clock t o s n (view db id) →
  version db id + Z.of_nat k < i32_max →
  let '(res, db') := retry_from faults (λ n, save_task_result_once (clock n) id t o) k n db in
  db_wf db' ∧ (∀ id', id' ≠ id → view db' id' = view db id') ∧
  match res with
  | Ok _ => ∃ m, (m ≤ n + k)%nat ∧ view db' id = Some (pg_recorded (clock m) t o s) ∧
      sidecar (rows_of (db_tasks db') id) t = Some o
  | Err e => attempted clock t o s (S (n + k)) (view db' id) ∧ ∃ m, (m ≤ n + k)%nat ∧ is_Some (faults m)
  end.
Proof.
  intros Hwf Hp. revert n db Hwf. induction k as [|k IH]; intros n db Hwf Hatt Hver; cbn [retry_from].
  all: pose proof (attempt_once (faults n) clock id t o s n db Hwf Hp Hatt ltac:(lia)) as Hone;
    destruct (attempt _ _ db) as [[a|e] db1]; destruct Hone as (Hwf1 & Hf1 & Hver1 & Hres).
  all: try (split_and!; [done|done|]; exists n; split; [lia|exact Hres]).
  all: destruct Hres as [Hatt1 Hfault].
  - assert (attempted clock t o s (S (n + 0)) (view db1 id)) by (by rewrite Nat.add_0_r).
    destruct (retryable e); split_and!; try done; exists n; (split; [lia|done]).
  - destruct (retryable e).
    + specialize (IH (S n) db1 Hwf1 Hatt1 ltac:(lia)). rewrite <-Nat.add_succ_comm.
      destruct (retry_from _ _ k (S n) db1) as [[b|e2] db2]; destruct IH as (Hwf2 & Hf2 & Hres2);
        (split; [done|split; [intros; by rewrite Hf2, Hf1|exact Hres2]]).
    + split_and!; try done; [|exists n; split; [lia|done]].
      destruct Hatt1 as [?|(m & ? & ?)]; [by left|right]. exists m. split; [lia|done].
Qed.
End Composites.
