(* ===== verification/PostgresDispatch.v ===== *)
(** * The Postgres backend: claims and dispatch

    A claim is exclusive while it is live and the fenced save depends on it; the
    dispatch query offers only tasks that may run, each with the snapshot a load
    returns. *)

From S2P Require Import Prelude Hash32 SnapshotFormat Task Workflow Snapshot Backend InMemory.
From S2P Require Import ClaimStore Postgres PostgresSignals PostgresClaims PostgresProps.
From S2P Require Import PostgresComposites.

#[local] Arguments transaction : simpl never.
#[local] Arguments decode : simpl never.
#[local] Arguments rows_of : simpl never.
#[local] Arguments hydrate_task_outputs : simpl never.

(** ** Claims *)

Section Claims.
Context `{Sha256, Postgres, HintCodec, SnapshotCodec, Chrono, !PostgresLaws, !SnapshotCodecLaws}.

(** Some worker holds the claim of the instance. *)
Definition claimed (db : PgDb) (id : string) : bool :=
  match db_claims db !! id with Some c => claim_live (db_now db) c | None => false end.

Lemma claim_live_expired now c :
  claim_live now c = negb (match k_expires_at c with Some e => bool_decide (e ≤ now) | None => false end).
Proof. unfold claim_live. destruct (k_expires_at c); [|done]. repeat case_bool_decide; done || lia. Qed.

(** [claim_task] on every branch. *)
Lemma claim_task_spec now id t w ttl db :
  pg_claim_task now id t w ttl db =
  match db_snapshots db !! id with
  | None => (Err (NotFound (claim_name id t)), db)
  | Some r =>
      if bool_decide (id ∉ db_advisory_locks db) && bool_decide (c_status r = "InProgress") &&
         bool_decide (c_current_task_id r = Some (id_bytes t)) && negb (claimed db id)
      then
        let expiry := pg_timestamp <$> (ttl ≫= checked_add_signed now) in
        (Ok (Some (MkTaskClaim id t w (timestamp_u64 (db_now db)) (timestamp_u64 <$> expiry))),
         db_set_claims (<[id := MkClaimRow (id_bytes t) w (db_now db) expiry]> (db_claims db)) db)
      else (Ok None, db)
  end.
Proof.
  unfold pg_claim_task, claimed. destruct (db_snapshots db !! id) as [r|]; [|done].
  destruct (bool_decide (id ∉ _) && _ && _) eqn:E; cbn; [|done].
  destruct (db_claims db !! id) as [c|]; cbn; [|done]. rewrite claim_live_expired.
  by destruct (match k_expires_at c with Some _ => _ | None => _ end).
Qed.

Lemma claim_changes_claims now id t w ttl db :
  (pg_claim_task now id t w ttl db).2 = db_set_claims (db_claims (pg_claim_task now id t w ttl db).2) db.
Proof. rewrite claim_task_spec. repeat case_match; by destruct db. Qed.

(** A granted claim makes its worker the holder, until it expires. *)
Lemma claim_granted now id t w ttl db c db' :
  pg_claim_task now id t w ttl db = (Ok (Some c), db') →
  claimed db id = false ∧
  db_claims db' !! id =
    Some (MkClaimRow (id_bytes t) w (db_now db) (pg_timestamp <$> (ttl ≫= checked_add_signed now))) ∧
  claim_instance_id c = id ∧ claim_task_id c = t ∧ claim_worker_id c = w.
Proof.
  rewrite claim_task_spec. destruct (db_snapshots db !! id); [|done]. case_match eqn:E; [|done].
  apply andb_true_iff in E as [_ Hn%negb_true_iff]. cbn. intros [= <- <-]. cbn. by rewrite lookup_insert_eq.
Qed.

Lemma holds_claim_eq id t w db :
  holds_claim id t w db =
  match db_claims db !! id with
  | Some c => bool_decide (k_worker_id c = w) && bool_decide (k_task_id c = id_bytes t) && claim_live (db_now db) c
  | None => false
  end.
Proof. unfold holds_claim, owned_claim. destruct (db_claims db !! id) as [c|]; [|done]. by destruct (_ && _). Qed.

(** At most one worker and task hold the claim of an instance. *)
Lemma holder_unique id t w t' w' db : holds_claim id t w db → holds_claim id t' w' db → w = w' ∧ t = t'.
Proof.
  rewrite !holds_claim_eq. destruct (db_claims db !! id) as [c|]; [|done].
  intros Ha Hb. apply Is_true_true, andb_true_iff in Ha as [[Hw1 Ht1]%andb_true_iff _].
  apply Is_true_true, andb_true_iff in Hb as [[Hw2 Ht2]%andb_true_iff _].
  apply bool_decide_eq_true in Hw1, Ht1, Hw2, Ht2. split; [congruence|]. apply id_bytes_inj. congruence.
Qed.

Lemma disambiguate_error db id t w :
  owned_claim db id t w = None →
  ∃ e, disambiguate_writeback (probe_claim db id false) id t w = Err e ∧
    match db_claims db !! id with
    | Some c => if bool_decide (k_worker_id c = w) then e = NotFound (claim_name id t)
                else e = ClaimLost ("claim on " +:+ claim_name id t +:+ " owned by " +:+ k_worker_id c)
    | None => e = NotFound (claim_name id t)
    end.
Proof.
  unfold owned_claim, disambiguate_writeback, probe_claim. cbn.
  destruct (db_claims db !! id) as [c|]; cbn; [|by eexists]. destruct (decide (k_worker_id c = w)) as [Hw|Hw].
  - rewrite (bool_decide_true (k_worker_id c = w)), (bool_decide_false (k_worker_id c ≠ w)) by (done || by auto).
    cbn. case_bool_decide; [done|]. by eexists.
  - rewrite (bool_decide_true (k_worker_id c ≠ w)), (bool_decide_false (k_worker_id c = w)) by done. by eexists.
Qed.

(** [release_task_claim]: only the holder's row is deleted. *)
Lemma release_spec id t w db :
  pg_release_task_claim id t w db =
  match owned_claim db id t w with
  | Some _ => (Ok (), db_set_claims (delete id (db_claims db)) db)
  | None => (disambiguate_writeback (probe_claim db id false) id t w, db)
  end.
Proof. unfold pg_release_task_claim. by destruct (owned_claim db id t w). Qed.

(** The fence of [save_snapshot_fenced]: the interface's contract. *)
#[export] Instance postgres_fenced : FencedStore PgDb (λ _ id t w db, holds_claim id t w db).
Proof.
  split.
  - intros now s t w db Hh. cbn. unfold pg_save_snapshot_fenced, transaction, mbind, io_bind, get_state.
    apply Is_true_true in Hh. rewrite Hh. unfold pg_save_snapshot.
    destruct (exec_save_snapshot s db) as [[s'|e] db'] eqn:E; [done|]. cbn. f_equal.
    revert E. unfold exec_save_snapshot, mbind, io_bind, lift_result.
    destruct (encode_blob_preserving s) as [[[d h] s1]|]; [|by intros [= _ <-]].
    unfold pg, io_map_err. destruct (save_statement s1 d h db) as [[|e'] db1] eqn:Es; [done|].
    intros [= _ <-]. unfold save_statement in Es. symmetry. by eapply transaction_Err.
  - intros now s t w db Hh. cbn. unfold pg_save_snapshot_fenced, transaction, mbind, io_bind, get_state.
    by destruct (holds_claim _ _ _ _).
Qed.
End Claims.

(** ** The dispatch query *)

Section Dispatch.
Context `{Sha256, Postgres, HintCodec, SnapshotCodec, Chrono, !PostgresLaws, !SnapshotCodecLaws}.

(** *** The rows it selects *)

Lemma arm_elem order `{∀ p q, Decision (order p q)} limit tags db p :
  p ∈ arm order limit tags db → db_snapshots db !! p.1 = Some p.2 ∧ pg_offered tags db p.
Proof.
  unfold arm. intros (i & Hp & _)%elem_of_take. apply list_elem_of_lookup_2 in Hp.
  rewrite merge_sort_Permutation, list_elem_of_In, List.filter_In in Hp. destruct Hp as [Hp Ho].
  apply list_elem_of_In in Hp. rewrite row_order_perm in Hp. destruct p as [id r].
  apply elem_of_map_to_list in Hp. split; [done|]. by apply Is_true_true.
Qed.

Lemma distinct_on_elem l p : p ∈ distinct_on l → p ∈ l.
Proof.
  induction l as [|q l IH]; cbn; [done|]. intros [->|Hp]%elem_of_cons; [constructor|].
  apply list_elem_of_In, List.filter_In in Hp as [Hp _]. constructor. by apply IH, list_elem_of_In.
Qed.
Lemma filter_ids_subset (f : string * SnapshotRow → bool) l : List.filter f l ⊆ l.
Proof. intros x. rewrite !list_elem_of_In, List.filter_In. by intros []. Qed.
Lemma NoDup_filter_ids (f : string * SnapshotRow → bool) l : NoDup l.*1 → NoDup (List.filter f l).*1.
Proof.
  induction l as [|q l IH]; cbn; [done|]. intros [Hq Hnd]%NoDup_cons. destruct (f q); [|by apply IH]. cbn.
  apply NoDup_cons. split; [|by apply IH]. intros (x & Hxq & Hx)%list_elem_of_fmap. apply Hq.
  apply list_elem_of_fmap. exists x. split; [done|]. by apply (filter_ids_subset f).
Qed.
Lemma NoDup_distinct_on l : NoDup (distinct_on l).*1.
Proof.
  induction l as [|q l IH]; cbn; [constructor|]. apply NoDup_cons. split; [|by apply NoDup_filter_ids].
  intros (x & Heq & Hx)%list_elem_of_fmap. apply list_elem_of_In, List.filter_In in Hx as [_ Hx].
  apply bool_decide_eq_true in Hx. by destruct Hx.
Qed.

(** A dispatch row: an offered snapshot row and the blob of its version. *)
Definition dispatch_row_of (tags : list string) (db : PgDb) (d : DispatchRow) : Prop :=
  ∃ r h, db_snapshots db !! d_instance_id d = Some r ∧ pg_offered tags db (d_instance_id d, r) ∧
    rows_of (db_history db) (d_instance_id d) !! c_history_version r = Some h ∧
    d = MkDispatchRow (d_instance_id d) (c_task_priority r) (c_updated_at r) (h_data h) (c_trace_parent r).

Definition joined (db : PgDb) (p : string * SnapshotRow) : option DispatchRow :=
  h ← rows_of (db_history db) p.1 !! c_history_version p.2;
  Some (MkDispatchRow p.1 (c_task_priority p.2) (c_updated_at p.2) (h_data h) (c_trace_parent p.2)).

Lemma joined_Some db p d : joined db p = Some d ↔
  ∃ h, rows_of (db_history db) p.1 !! c_history_version p.2 = Some h ∧
    d = MkDispatchRow p.1 (c_task_priority p.2) (c_updated_at p.2) (h_data h) (c_trace_parent p.2).
Proof. unfold joined. destruct (rows_of _ _ !! _) as [h|]; cbn; naive_solver. Qed.

Lemma NoDup_joined db l : NoDup l.*1 → NoDup (d_instance_id <$> omap (joined db) l).
Proof.
  induction l as [|p l IH]; cbn; [constructor|]. intros [Hp Hnd]%NoDup_cons.
  destruct (joined db p) as [d|] eqn:E; [|by apply IH]. cbn. apply joined_Some in E as (h & _ & ->). cbn.
  apply NoDup_cons. split; [|by apply IH]. intros (d & Heq & Hd)%list_elem_of_fmap. apply Hp.
  apply list_elem_of_omap in Hd as (q & Hq & (h' & _ & ->)%joined_Some). cbn in Heq. rewrite Heq.
  apply list_elem_of_fmap. by exists q.
Qed.

Lemma dispatch_rows_spec limit tags db :
  NoDup (d_instance_id <$> dispatch_rows limit tags db) ∧
  Forall (dispatch_row_of tags db) (dispatch_rows limit tags db).
Proof.
  unfold dispatch_rows. fold (joined db).
  change (λ p : string * SnapshotRow, _ ← _; Some _) with (joined db).
  set (arms := arm _ _ _ _ ++ arm _ _ _ _). split.
  - rewrite row_order_perm. apply NoDup_joined, NoDup_distinct_on.
  - apply Forall_forall. intros d Hd. rewrite row_order_perm, list_elem_of_omap in Hd.
    destruct Hd as (p & Hp%distinct_on_elem & (h & Hh & ->)%joined_Some).
    rewrite merge_sort_Permutation in Hp. destruct p as [id r].
    assert (db_snapshots db !! id = Some r ∧ pg_offered tags db (id, r)) as [Hr Ho].
    { by apply elem_of_app in Hp as [Hp|Hp]; apply arm_elem in Hp. }
    by exists r, h.
Qed.

Lemma scored_rows_spec now aging limit tags db :
  let rows := scored_rows now aging limit (dispatch_rows limit tags db) in
  NoDup (d_instance_id <$> rows) ∧ Forall (dispatch_row_of tags db) rows ∧ (length rows ≤ limit)%nat.
Proof.
  destruct (dispatch_rows_spec limit tags db) as [Hnd Hall]. unfold scored_rows. cbn.
  set (l := dispatch_rows limit tags db) in *.
  assert ((merge_sort by_score (map (λ r, (dispatch_score now aging r, r)) l)).*2 ≡ₚ l) as Hp.
  { rewrite merge_sort_Permutation. clear. induction l as [|d l IH]; cbn; [done|]. by constructor. }
  set (m := (merge_sort by_score _).*2) in *. split_and!.
  - rewrite fmap_take. eapply sublist_NoDup; [|apply sublist_take]. by rewrite Hp.
  - apply Forall_take. by rewrite Hp.
  - rewrite length_take. lia.
Qed.

(** When the limit covers the table, no offered instance is left out. *)
Lemma filter_length_le {A} (f : A → bool) l : (length (List.filter f l) ≤ length l)%nat.
Proof. induction l as [|x l IH]; cbn; [lia|]. destruct (f x); cbn; lia. Qed.
Lemma arm_complete order `{∀ p q, Decision (order p q)} limit tags db p :
  (size (db_snapshots db) ≤ limit)%nat → db_snapshots db !! p.1 = Some p.2 → pg_offered tags db p →
  p ∈ arm order limit tags db.
Proof.
  intros Hsz Hp Ho. unfold arm. rewrite take_ge.
  - rewrite merge_sort_Permutation, list_elem_of_In, List.filter_In. split; [|by apply Is_true_true].
    apply list_elem_of_In. rewrite row_order_perm. destruct p. by apply elem_of_map_to_list.
  - rewrite merge_sort_Permutation. etransitivity; [apply filter_length_le|].
    by rewrite row_order_perm, length_map_to_list.
Qed.
Lemma distinct_on_covers l p : p ∈ l → p.1 ∈ (distinct_on l).*1.
Proof.
  induction l as [|q l IH]; cbn; [by intros ?%elem_of_nil|]. intros [->|Hp]%elem_of_cons; [constructor|].
  destruct (decide (p.1 = q.1)) as [->|Hne]; [constructor|]. constructor 2.
  apply IH, list_elem_of_fmap in Hp as (x & Hx & Hin). rewrite Hx in *. apply list_elem_of_fmap. exists x.
  split; [done|]. apply list_elem_of_In, List.filter_In. split; [by apply list_elem_of_In|]. by apply bool_decide_eq_true.
Qed.

Lemma dispatch_rows_complete limit tags db id r :
  db_wf db → (size (db_snapshots db) ≤ limit)%nat → db_snapshots db !! id = Some r → pg_offered tags db (id, r) →
  id ∈ d_instance_id <$> dispatch_rows limit tags db.
Proof.
  intros Hwf Hsz Hr Ho. unfold dispatch_rows. fold (joined db).
  change (λ p : string * SnapshotRow, _ ← _; Some _) with (joined db). rewrite row_order_perm.
  set (arms := arm _ _ _ _ ++ arm _ _ _ _).
  assert ((id, r) ∈ merge_sort by_id arms) as Hin.
  { rewrite merge_sort_Permutation. apply elem_of_app. left. by apply (arm_complete by_priority). }
  apply distinct_on_covers, list_elem_of_fmap in Hin as ([id' r'] & Hid & Hin). cbn in Hid. subst id'.
  assert (db_snapshots db !! id = Some r') as Hr'.
  { apply distinct_on_elem in Hin. rewrite merge_sort_Permutation in Hin.
    by apply elem_of_app in Hin as [Hin|Hin]; apply arm_elem in Hin as []. }
  destruct (wf_rows _ Hwf _ _ Hr') as [s0 Hok]. destruct (row_blob _ _ _ _ Hok) as (h & Hh & _).
  apply list_elem_of_fmap. exists (MkDispatchRow id (c_task_priority r') (c_updated_at r') (h_data h) (c_trace_parent r')).
  split; [done|]. apply list_elem_of_omap. exists (id, r'). split; [done|]. apply joined_Some. by exists h.
Qed.

Lemma scored_rows_complete now aging limit tags db id r :
  db_wf db → (size (db_snapshots db) ≤ limit)%nat → db_snapshots db !! id = Some r → pg_offered tags db (id, r) →
  id ∈ d_instance_id <$> scored_rows now aging limit (dispatch_rows limit tags db).
Proof.
  intros Hwf Hsz Hr Ho. pose proof (dispatch_rows_complete limit tags db id r Hwf Hsz Hr Ho) as Hin.
  destruct (dispatch_rows_spec limit tags db) as [Hnd Hall]. unfold scored_rows.
  set (l := dispatch_rows limit tags db) in *.
  assert ((merge_sort by_score (map (λ r, (dispatch_score now aging r, r)) l)).*2 ≡ₚ l) as Hp.
  { rewrite merge_sort_Permutation. clear. induction l as [|d l IH]; cbn; [done|]. by constructor. }
  rewrite take_ge; [by rewrite Hp|]. rewrite Hp, <-(length_fmap d_instance_id).
  etransitivity; [|exact Hsz]. rewrite <-length_map_to_list, <-(length_fmap fst). apply submseteq_length, NoDup_submseteq; [done|].
  intros x (d & -> & Hd)%list_elem_of_fmap. rewrite Forall_forall in Hall. destruct (Hall _ Hd) as (r' & h & Hr' & _).
  apply list_elem_of_fmap. exists (d_instance_id d, r'). split; [done|]. by apply elem_of_map_to_list.
Qed.

(** *** Decoding and hydrating the candidates *)

(** A decoded candidate: the stored form of an offered instance. *)
Definition decoded_of (tags : list string) (db : PgDb) (s : WorkflowSnapshot) : Prop :=
  ∃ r s0, db_snapshots db !! instance_id s = Some r ∧ pg_offered tags db (instance_id s, r) ∧
    row_ok (rows_of (db_history db) (instance_id s)) (instance_id s) r s0 ∧
    s = with_trace_parent (c_trace_parent r) s0.

Lemma decode_rows_Ok tags db rows :
  db_wf db → Forall (dispatch_row_of tags db) rows →
  ∃ l, decode_rows rows = Ok l ∧ map instance_id l = d_instance_id <$> rows ∧ Forall (decoded_of tags db) l.
Proof.
  intros Hwf. induction 1 as [|d rows (r & h & Hr & Ho & Hh & Hd) _ (l & Hl & Hids & Hall)]; [by exists []|].
  destruct (wf_rows _ Hwf _ _ Hr) as [s0 Hok]. destruct (row_blob _ _ _ _ Hok) as (h' & Hh' & Hdec & _).
  simplify_eq. rewrite Hd in *. cbn [d_instance_id d_data d_trace_parent decode_rows] in *.
  rewrite Hdec. cbn. rewrite Hl. cbn.
  eexists. split; [done|]. pose proof (row_id _ _ _ _ Hok) as Hid. cbn in *. rewrite Hid, Hids. split; [done|].
  constructor; [|done]. exists r, s0. cbn. by rewrite Hid.
Qed.

Lemma group_outputs_Ok (rows : list (string * (Bytes * Bytes))) acc :
  Forall (λ p, length p.2.1 = 32%nat) rows →
  ∃ g, group_outputs rows acc = Ok g ∧ ∀ id, ∃ outs,
    parse_outputs id (List.filter (λ p, bool_decide (p.1 = id)) rows).*2 = Ok outs ∧
    default [] (g !! id) = default [] (acc !! id) ++ outs.
Proof.
  intros Hall. revert acc. induction Hall as [|[id' [k o]] rows Hk _ IH]; intros acc.
  { exists acc. split; [done|]. intros id. exists []. by rewrite app_nil_r. }
  cbn in Hk. destruct (id_bytes_of k Hk) as [t ->]. cbn. rewrite task_id_from_id_bytes. cbn.
  edestruct IH as (g & -> & Hg). exists g. split; [done|]. intros id. destruct (Hg id) as (outs & Hp & Hd).
  destruct (decide (id' = id)) as [->|Hne].
  - rewrite (bool_decide_true (id = id)) by done. cbn. rewrite task_id_from_id_bytes. cbn. rewrite Hp. cbn.
    eexists. split; [done|]. rewrite Hd, lookup_insert_eq. cbn. by rewrite <-app_assoc.
  - rewrite bool_decide_false by done. exists outs. split; [done|]. by rewrite Hd, lookup_insert_ne.
Qed.

(** The rows of one instance among those of several. *)
Lemma filter_batched db ids id :
  NoDup ids → id ∈ ids →
  (List.filter (λ p : string * (Bytes * Bytes), bool_decide (p.1 = id))
    (flat_map (λ id, map (pair id) (output_rows db id)) ids)).*2 = output_rows db id.
Proof.
  assert (∀ id' l, List.filter (λ p : string * (Bytes * Bytes), bool_decide (p.1 = id)) (map (pair id') l) =
    if bool_decide (id' = id) then map (pair id') l else []) as Hf.
  { intros id' l. induction l as [|x l IH]; cbn; [by case_bool_decide|]. rewrite IH. by case_bool_decide. }
  assert (∀ l, (map (pair id) l : list (string * (Bytes * Bytes))).*2 = l) as Hs.
  { induction l as [|x l IH]; cbn; [done|]. by f_equal. }
  intros Hnd. induction Hnd as [|id' ids Hni Hnd IH]; [by intros ?%elem_of_nil|]. cbn.
  rewrite List.filter_app, Hf, fmap_app. intros [->|Hin]%elem_of_cons.
  - rewrite bool_decide_true by done. rewrite Hs. clear IH. rewrite <-(app_nil_r (output_rows db id')) at 2. f_equal.
    induction ids as [|i ids IH]; cbn; [done|]. rewrite List.filter_app, Hf, fmap_app.
    apply not_elem_of_cons in Hni as [? ?]. rewrite bool_decide_false by done. cbn.
    apply IH; [done|by apply NoDup_cons in Hnd as [_ ?]].
  - rewrite bool_decide_false by set_solver. cbn. by apply IH.
Qed.

Lemma batched_outputs db ids :
  db_wf db → NoDup ids →
  ∃ g, fetch_task_outputs_batched ids db = (Ok g, db) ∧
    ∀ id, id ∈ ids → ∀ s, hydrate_task_outputs (default [] (g !! id)) s =
      hydrated (sidecar (rows_of (db_tasks db) id)) s.
Proof.
  intros Hwf Hnd. unfold fetch_task_outputs_batched. destruct (decide (ids = [])) as [->|Hne].
  { rewrite bool_decide_true by done. exists ∅. split; [done|]. by intros id ?%elem_of_nil. }
  rewrite bool_decide_false by done.
  assert (remove_dups ids = ids) as ->.
  { clear Hne. induction Hnd as [|i ids Hi _ IH]; cbn; [done|].
    destruct (decide_rel (∈) i ids); [done|]. by rewrite IH. }
  set (all := flat_map _ ids).
  destruct (group_outputs_Ok (row_order all) ∅) as (g & -> & Hg).
  { apply Forall_forall. intros [id [k o]] Hin. rewrite row_order_perm in Hin. unfold all in Hin.
    apply list_elem_of_In, in_flat_map in Hin as (i & _ & Hin%list_elem_of_In).
    apply list_elem_of_fmap in Hin as ([k' o'] & [= -> -> ->] & Hin). cbn. apply elem_output_rows in Hin.
    destruct (rows_of (db_tasks db) i !! k') as [r|] eqn:E; [|done]. by destruct (wf_tasks _ Hwf i _ _ E). }
  exists g. split; [done|]. intros id Hid s. destruct (Hg id) as (outs & Hp & ->).
  rewrite lookup_empty. cbn [default app].
  destruct (hydrate_rows db id (List.filter (λ p, bool_decide (p.1 = id)) (row_order all)).*2) as (outs' & Hp' & Hs).
  { by apply wf_tasks. }
  { rewrite <-(filter_batched db ids id Hnd Hid). fold all. apply fmap_Permutation.
    pose proof (row_order_perm all) as Hperm. revert Hperm. generalize (row_order all). clear. intros l Hl.
    induction Hl as [|x l l' _ IH|x y l|l l' l'' _ IH1 _ IH2]; cbn; repeat case_match; try done;
      [by constructor|by constructor|by etransitivity]. }
  rewrite Hp in Hp'. injection Hp' as <-. apply Hs.
Qed.

Lemma hydrate_all_eq db l g :
  NoDup (map instance_id l) →
  (∀ id, id ∈ map instance_id l → ∀ s, hydrate_task_outputs (default [] (g !! id)) s =
     hydrated (sidecar (rows_of (db_tasks db) id)) s) →
  hydrate_all l g = map (λ s, hydrated (sidecar (rows_of (db_tasks db) (instance_id s))) s) l.
Proof.
  revert g. induction l as [|s l IH]; intros g Hnd Hg; cbn; [done|]. cbn in Hnd.
  apply NoDup_cons in Hnd as [Hs Hnd]. pose proof (Hg (instance_id s) ltac:(constructor) s) as Hh.
  destruct (g !! instance_id s) as [o|] eqn:E; cbn [default] in Hh.
  - f_equal; [done|]. apply IH; [done|]. intros id Hid x.
    rewrite lookup_delete_ne by (intros E2; apply Hs; by rewrite E2). apply Hg. by constructor.
  - f_equal.
    + rewrite <-Hh. symmetry. unfold hydrate_task_outputs. by apply completed_tasks_mut_id; case_match.
    + apply IH; [done|]. intros id Hid x. apply Hg. by constructor.
Qed.

(** The candidates the loop runs over: offered instances with the snapshot a load returns. *)
Definition candidate_of (tags : list string) (db : PgDb) (s : WorkflowSnapshot) : Prop :=
  view db (instance_id s) = Some s ∧
  ∃ r, db_snapshots db !! instance_id s = Some r ∧ pg_offered tags db (instance_id s, r).

Lemma find_candidates now w limit aging tags db :
  db_wf db →
  ∃ l, NoDup (map instance_id l) ∧ Forall (candidate_of tags db) l ∧ (length l ≤ limit)%nat ∧
    ((size (db_snapshots db) ≤ limit)%nat → ∀ id r, db_snapshots db !! id = Some r → pg_offered tags db (id, r) →
       id ∈ map instance_id l) ∧
    pg_find_available_tasks now w limit aging tags db =
      (available ← offer_loop now w limit l []; mret (merge_sort by_bias available).*2) db.
Proof.
  intros Hwf. destruct (scored_rows_spec now aging limit tags db) as (Hnd & Hall & Hlen).
  set (rows := scored_rows now aging limit (dispatch_rows limit tags db)) in *.
  destruct (decode_rows_Ok tags db rows Hwf Hall) as (l & Hl & Hids & Hdec).
  rewrite <-Hids in Hnd. destruct (batched_outputs db (map instance_id l) Hwf Hnd) as (g & Hg & Hh).
  exists (hydrate_all l g). rewrite (hydrate_all_eq db l g Hnd Hh). split_and!.
  - rewrite List.map_map. erewrite List.map_ext; [exact Hnd|]. intros s.
    by destruct (columns_eq _ _ (columns_hydrated (sidecar (rows_of (db_tasks db) (instance_id s))) s)).
  - apply Forall_map, (Forall_impl _ _ _ Hdec). intros s (r & s0 & Hr & Ho & Hok & Heq).
    destruct (columns_eq _ _ (columns_hydrated (sidecar (rows_of (db_tasks db) (instance_id s))) s)) as [Hid _].
    unfold compose, candidate_of. rewrite Hid. split; [|by exists r].
    erewrite view_row by eauto. unfold view_of. by rewrite Heq at 3.
  - rewrite List.length_map. rewrite <-(List.length_map instance_id), Hids, length_fmap. done.
  - intros Hsz id r Hr Ho. rewrite List.map_map.
    assert (id ∈ map instance_id l) as Hin by (rewrite Hids; by eapply scored_rows_complete).
    apply list_elem_of_fmap in Hin as (s & -> & Hs). apply list_elem_of_fmap. exists s. split; [|done].
    by destruct (columns_eq _ _ (columns_hydrated (sidecar (rows_of (db_tasks db) (instance_id s))) s)) as [-> _].
  - unfold pg_find_available_tasks. unfold mbind at 1, io_bind at 1, get_state. fold rows.
    unfold mbind at 1, io_bind at 1, lift_result. rewrite Hl. unfold mbind at 1, io_bind at 1. rewrite Hg.
    by rewrite (hydrate_all_eq db l g Hnd Hh).
Qed.

(** *** Saving a transition of a loaded snapshot *)

Definition same_control (db db' : PgDb) : Prop :=
  db_signals db' = db_signals db ∧ db_claims db' = db_claims db ∧ db_events db' = db_events db ∧
  db_now db' = db_now db.

Lemma save_loaded db id s s2 :
  db_wf db → view db id = Some s → is_in_progress (state s) → headroom db id →
  snapshot_wf s2 → instance_id s2 = id → with_output_unflushed false s2 = s2 →
  synced (rows_of (db_tasks db) id) s2 → payload_fits s2 →
  ∃ db', pg_save_snapshot s2 db = (Ok s2, db') ∧ replaced db db' id s2 ∧ same_control db db' ∧
    version db' id = version db id + 1 ∧ ∀ id', id' ≠ id → version db' id' = version db id'.
Proof.
  intros Hwf Hv Hp Hroom Hw2 Hid Hfl Hsync Hfit.
  assert (¬ terminal_row db id) as Hlive.
  { intros (r & Hr & Ht). rewrite (view_status _ _ _ _ Hwf Hv Hr) in Ht.
    revert Hp Ht. by destruct (state s). }
  destruct (save_live_view db s2) as (db' & Heq & Hwf' & Hview & Hframe & Hsig); rewrite ?Hid; try done.
  { intros k r Hk. right. by apply Hsync. }
  destruct (save_writes db s2) as (db2 & r' & h' & data & Heq2 & Hw & _ & _ & Hver & _ & _ & _ & _ & Hev & Hnow);
    rewrite ?Hid; try done.
  assert (db2 = db') as -> by congruence. rewrite Hfl, Hid in *. exists db'. split; [done|].
  split; [split_and!; try done; by eapply writes_next|]. split; [|split].
  - by split_and!; rewrite ?(w_claims _ _ _ _ _ Hw).
  - unfold version. rewrite (w_snapshots _ _ _ _ _ Hw), lookup_insert_eq, Hver. unfold new_version.
    destruct (view_inv _ _ _ Hwf Hv) as (r & _ & -> & _). done.
  - intros id' Hne. unfold version. by rewrite (w_snapshots _ _ _ _ _ Hw), lookup_insert_ne.
Qed.

(** *** The loop *)

(** A candidate as the loop leaves it. *)
Definition advanced_to (now : DateTime) (s : WorkflowSnapshot) : WorkflowSnapshot :=
  match offer_of now s with
  | OfferAdvance next_id => update_position now (AtTask next_id) s
  | OfferComplete output => mark_completed now output s
  | _ => s
  end.

Lemma advanced_ok now s :
  snapshot_wf s → with_output_unflushed false s = s → 
  snapshot_wf (advanced_to now s) ∧ instance_id (advanced_to now s) = instance_id s ∧
  with_output_unflushed false (advanced_to now s) = advanced_to now s.
Proof.
  intros Hs Hf. unfold advanced_to. destruct (offer_of now s); try done.
  - destruct (kept _ s (update_position_ok now (AtTask next_id)) Hs). split_and!; try done.
    apply (flag_kept (update_position now (AtTask next_id))); [|done]. by intros b [? ? []].
  - destruct (kept _ s (mark_completed_ok now (λ _, output)) Hs). split_and!; try done.
    by apply (flag_kept (mark_completed now output)).
Qed.
Lemma advanced_synced now rows s : synced rows s → synced rows (advanced_to now s).
Proof.
  intros Hs. unfold advanced_to. destruct (offer_of now s); try done. by destruct s as [? ? []].
Qed.
Lemma offer_in_progress now s : offer_of now s ≠ OfferNone → is_in_progress (state s).
Proof. unfold offer_of. by destruct s as [? ? []]. Qed.

Lemma advance_saved now db s :
  db_wf db → view db (instance_id s) = Some s → headroom db (instance_id s) →
  payload_fits (advanced_to now s) → offer_of now s ≠ OfferNone →
  ∃ db', pg_save_snapshot (advanced_to now s) db = (Ok (advanced_to now s), db') ∧
    replaced db db' (instance_id s) (advanced_to now s) ∧ same_control db db' ∧
    version db' (instance_id s) = version db (instance_id s) + 1 ∧
    ∀ id', id' ≠ instance_id s → version db' id' = version db id'.
Proof.
  intros Hwf Hv Hroom Hfit Ho.
  destruct (advanced_ok now s (view_wf _ _ _ Hwf Hv) (view_unflushed _ _ _ Hwf Hv)) as (Hw & Hid & Hfl).
  eapply save_loaded; try done; [by eapply offer_in_progress|].
  by apply advanced_synced, (view_synced db).
Qed.

(** What a task the loop pushes comes from. *)
Definition pushed (now : DateTime) (w : string) (db' : PgDb) (l : list WorkflowSnapshot)
    (p : bool * AvailableTask) : Prop :=
  ∃ s t, s ∈ l ∧ (offer_of now s = OfferAdvance t ∨ offer_of now s = OfferTask t) ∧
    view db' (instance_id s) = Some (advanced_to now s) ∧
    build_available_task (advanced_to now s) t = Some p.2 ∧
    p.1 = has_failed_on_worker t w (advanced_to now s).

(** What the loop does to the store. *)
Record loop_effect (now : DateTime) (l : list WorkflowSnapshot) (db db' : PgDb) : Prop := {
  le_wf : db_wf db';
  le_control : same_control db db';
  le_other : ∀ id, id ∉ map instance_id l → view db' id = view db id ∧ version db' id = version db id;
  le_views : ∀ s, s ∈ l → view db' (instance_id s) = Some s ∨ view db' (instance_id s) = Some (advanced_to now s);
  le_versions : ∀ id, version db' id ≤ version db id + 1
}.

Lemma same_control_trans a b c : same_control a b → same_control b c → same_control a c.
Proof. unfold same_control. intuition congruence. Qed.

Lemma loop_effect_stop now l db :
  db_wf db → Forall (λ s, view db (instance_id s) = Some s) l → loop_effect now l db db.
Proof.
  intros Hwf Hv. split; try done; [|intros; lia]. intros s Hs. left. rewrite Forall_forall in Hv. by apply Hv.
Qed.

Lemma loop_effect_cons now s l db db1 db2 :
  instance_id s ∉ map instance_id l →
  view db1 (instance_id s) = Some s ∨ view db1 (instance_id s) = Some (advanced_to now s) →
  (∀ id', id' ≠ instance_id s → view db1 id' = view db id' ∧ version db1 id' = version db id') →
  version db1 (instance_id s) ≤ version db (instance_id s) + 1 → same_control db db1 →
  loop_effect now l db1 db2 → loop_effect now (s :: l) db db2.
Proof.
  intros Hs Hv Hf Hver Hc [Hwf2 Hc2 Ho2 Hv2 Hver2]. split; try done.
  - by eapply same_control_trans.
  - intros id. cbn. intros [? ?]%not_elem_of_cons. destruct (Ho2 id) as [-> ->]; [done|]. by apply Hf.
  - intros x [->|Hx]%elem_of_cons; [|by apply Hv2]. destruct (Ho2 _ Hs) as [-> _]. done.
  - intros id. destruct (decide (id = instance_id s)) as [->|Hne].
    + destruct (Ho2 _ Hs) as [_ ->]. done.
    + specialize (Hver2 id). destruct (Hf id Hne) as [_ Hfv]. lia.
Qed.

Lemma pushed_cons now w db' s l p : pushed now w db' l p → pushed now w db' (s :: l) p.
Proof. intros (x & t & Hx & ?). exists x, t. split; [by constructor|done]. Qed.

Lemma views_kept db db1 s l :
  instance_id s ∉ map instance_id l → (∀ id', id' ≠ instance_id s → view db1 id' = view db id') →
  Forall (λ s, view db (instance_id s) = Some s) l → Forall (λ s, view db1 (instance_id s) = Some s) l.
Proof.
  intros Hs Hf Hl. rewrite Forall_forall in *. intros x Hx. rewrite Hf; [by apply Hl|].
  intros E. apply Hs. rewrite <-E. apply list_elem_of_fmap. by exists x.
Qed.

Lemma advanced_id now s : instance_id (advanced_to now s) = instance_id s.
Proof. unfold advanced_to. destruct (offer_of now s); try done. by destruct s as [? ? []]. Qed.
Lemma built_fields s t task :
  build_available_task s t = Some task →
  at_instance_id task = instance_id s ∧ at_task_id task = t ∧ at_snapshot task = s ∧
  at_workflow_definition_hash task = snapshot_definition_hash s ∧ at_trace_parent task = trace_parent s ∧
  ∃ pos completed last, state s = InProgress pos completed last ∧
    (if bool_decide (completed = ∅) then initial_input s else get_last_task_output s) = Some (at_input task).
Proof.
  unfold build_available_task. destruct (state s) as [pos completed last| | | |] eqn:E; try done.
  intros (input & Hi & ->)%fmap_Some. cbn. split_and!; try done. by exists pos, completed, last.
Qed.
Lemma pushed_fresh now w db' s t l task new :
  instance_id s ∉ map instance_id l → build_available_task (advanced_to now s) t = Some task →
  Forall (pushed now w db' l) new → at_instance_id task ∉ map (λ p, at_instance_id p.2) new.
Proof.
  intros Hs Hb Hn (p & Hp & Hin)%list_elem_of_fmap. rewrite Forall_forall in Hn.
  destruct (Hn _ Hin) as (x & t' & Hx & _ & _ & Hb' & _). apply built_fields in Hb as (Hb & _), Hb' as (Hb' & _).
  rewrite advanced_id in Hb, Hb'. apply Hs. rewrite <-Hb, Hp, Hb'. apply list_elem_of_fmap. by exists x.
Qed.

(** Every task the candidates offer is pushed. *)
Definition all_pushed (now : DateTime) (l : list WorkflowSnapshot) (new : list (bool * AvailableTask)) : Prop :=
  ∀ s t task, s ∈ l → (offer_of now s = OfferAdvance t ∨ offer_of now s = OfferTask t) →
    build_available_task (advanced_to now s) t = Some task → task ∈ new.*2.

Lemma all_pushed_skip now s l new :
  (∀ t, offer_of now s ≠ OfferAdvance t ∧ offer_of now s ≠ OfferTask t) →
  all_pushed now l new → all_pushed now (s :: l) new.
Proof. intros Ho Hl x t task [->|Hx]%elem_of_cons; [destruct (Ho t); intuition|by apply Hl]. Qed.
Lemma all_pushed_task now s t l new ps :
  (offer_of now s = OfferAdvance t ∨ offer_of now s = OfferTask t) →
  (∀ task, build_available_task (advanced_to now s) t = Some task → task ∈ ps.*2) →
  all_pushed now l new → all_pushed now (s :: l) (ps ++ new).
Proof.
  intros Ho Hp Hl x t' task [->|Hx]%elem_of_cons Hox Hb; rewrite fmap_app; apply elem_of_app.
  - left. apply Hp. assert (t' = t) as -> by (destruct Ho, Hox; congruence). done.
  - right. by eapply Hl.
Qed.
Lemma all_pushed_nil now new : all_pushed now [] new.
Proof. by intros s t task ?%elem_of_nil. Qed.

(** The specification of a run of the loop over [l]. *)
Definition loop_run (now : DateTime) (w : string) (limit : nat) (l : list WorkflowSnapshot)
    (available : list (bool * AvailableTask)) (db : PgDb)
    (run : result BackendError (list (bool * AvailableTask)) * PgDb) : Prop :=
  ∃ new db', run = (Ok (available ++ new), db') ∧ loop_effect now l db db' ∧
    Forall (pushed now w db' l) new ∧ NoDup (map (λ p, at_instance_id p.2) new) ∧
    ((length available < limit)%nat → (length (available ++ new) ≤ limit)%nat) ∧
    ((length available + length l ≤ limit)%nat → all_pushed now l new).

Definition loop_pre (now : DateTime) (l : list WorkflowSnapshot) (db : PgDb) : Prop :=
  db_wf db ∧ NoDup (map instance_id l) ∧ Forall (λ s, view db (instance_id s) = Some s) l ∧
  ∀ s, s ∈ l → headroom db (instance_id s) ∧ payload_fits (advanced_to now s).

Lemma loop_pre_step now s l db db1 :
  loop_pre now (s :: l) db → db_wf db1 →
  (∀ id', id' ≠ instance_id s → view db1 id' = view db id' ∧ version db1 id' = version db id') →
  loop_pre now l db1.
Proof.
  intros (Hwf & Hnd & Hv & Hl) Hwf1 Hf. cbn in Hnd. apply NoDup_cons in Hnd as [Hs Hnd].
  apply Forall_cons in Hv as [_ Hv]. split_and!; try done.
  - eapply views_kept; [done| |done]. intros id' Hne. by destruct (Hf id' Hne).
  - intros x Hx. destruct (Hl x) as [Hr Hp]; [by constructor|]. split; [|done].
    apply headroom_version. destruct (Hf (instance_id x)) as [_ ->]; [|by apply headroom_version].
    intros E. apply Hs. rewrite <-E. apply list_elem_of_fmap. by exists x.
Qed.

(** Pushing the task [t] of [s] once the store holds its advanced form. *)
Definition push_task (now : DateTime) (w : string) (limit : nat) (s : WorkflowSnapshot) (t : TaskId)
    (l : list WorkflowSnapshot) (available : list (bool * AvailableTask)) :
    io PgDb BackendError (list (bool * AvailableTask)) :=
  let available :=
    match build_available_task s t with
    | Some task => available ++ [(has_failed_on_worker t w s, task)]
    | None => available
    end in
  if bool_decide (limit ≤ length available)%nat then mret available
  else offer_loop now w limit l available.

Lemma offer_loop_cons now w limit s l available :
  offer_loop now w limit (s :: l) available =
  match offer_of now s with
  | OfferAdvance next_id =>
      s ← pg_save_snapshot (update_position now (AtTask next_id) s); push_task now w limit s next_id l available
  | OfferComplete output =>
      pg_save_snapshot (mark_completed now output s) ≫= λ _, offer_loop now w limit l available
  | OfferTask task_id => push_task now w limit s task_id l available
  | OfferNone => offer_loop now w limit l available
  end.
Proof. done. Qed.

Lemma push_run now w limit s t l available db db1 :
  loop_pre now (s :: l) db → db_wf db1 →
  (∀ id', id' ≠ instance_id s → view db1 id' = view db id' ∧ version db1 id' = version db id') →
  view db1 (instance_id s) = Some (advanced_to now s) →
  version db1 (instance_id s) ≤ version db (instance_id s) + 1 → same_control db db1 →
  (offer_of now s = OfferAdvance t ∨ offer_of now s = OfferTask t) →
  (∀ available, loop_run now w limit l available db1 (offer_loop now w limit l available db1)) →
  loop_run now w limit (s :: l) available db (push_task now w limit (advanced_to now s) t l available db1).
Proof.
  intros Hpre Hwf1 Hf Hv Hver Hc Hof IH. pose proof (loop_pre_step _ _ _ _ _ Hpre Hwf1 Hf) as Hpre1.
  destruct Hpre as (Hwf & Hnd & _ & _). cbn in Hnd. apply NoDup_cons in Hnd as [Hs _].
  assert (∀ db2, loop_effect now l db1 db2 → loop_effect now (s :: l) db db2) as Heff.
  { intros db2. by eapply loop_effect_cons; eauto. }
  assert (∀ db2 task, loop_effect now l db1 db2 → build_available_task (advanced_to now s) t = Some task →
    pushed now w db2 (s :: l) (has_failed_on_worker t w (advanced_to now s), task)) as Hpush.
  { intros db2 task He Hb. exists s, t. split; [constructor|]. split; [done|].
    destruct (le_other _ _ _ _ He _ Hs) as [-> _]. done. }
  unfold push_task. destruct (build_available_task (advanced_to now s) t) as [task|] eqn:Hb.
  - case_bool_decide as Hlim.
    + assert (loop_effect now l db1 db1) as He by (apply loop_effect_stop; apply Hpre1).
      exists [(has_failed_on_worker t w (advanced_to now s), task)], db1. split_and!; [done|by apply Heff| | | |].
      * constructor; [by apply Hpush|constructor].
      * repeat constructor. by intros ?%elem_of_nil.
      * rewrite length_app. cbn. lia.
      * rewrite length_app in Hlim. cbn in *. intros Hle. destruct l as [|x l]; [|cbn in Hle; lia].
        apply (all_pushed_task now s t [] [] [_]); [done| |apply all_pushed_nil].
        intros task'. rewrite Hb. intros [= <-]. constructor.
    + destruct (IH (available ++ [(has_failed_on_worker t w (advanced_to now s), task)])) as (new & db2 & -> & He & Hn & Hnd & Hl & Hall).
      eexists (_ :: new), db2. rewrite <-app_assoc in *. split_and!; [done|by apply Heff| | | |].
      * constructor; [by apply Hpush|]. apply (Forall_impl _ _ _ Hn). intros p. apply pushed_cons.
      * cbn. apply NoDup_cons. split; [|done]. by eapply pushed_fresh.
      * intros _. apply Hl. lia.
      * intros Hle. apply (all_pushed_task now s t l new [_]); [done| |].
        -- intros task'. rewrite Hb. intros [= <-]. constructor.
        -- apply Hall. rewrite length_app. cbn in *. lia.
  - case_bool_decide as Hlim.
    + exists [], db1. rewrite app_nil_r. split_and!; [done|apply Heff, loop_effect_stop; apply Hpre1|constructor|constructor|lia|].
      cbn. lia.
    + destruct (IH available) as (new & db2 & -> & He & Hn & Hnd & Hl & Hall). exists new, db2.
      split_and!; [done|by apply Heff| |done|done|].
      2:{ intros Hle. apply (all_pushed_task now s t l new []); [done|by rewrite Hb|]. apply Hall. cbn in Hle. lia. }
      apply (Forall_impl _ _ _ Hn). intros p. apply pushed_cons.
Qed.

Lemma offer_loop_spec now w limit l available db :
  loop_pre now l db → loop_run now w limit l available db (offer_loop now w limit l available db).
Proof.
  revert available db. induction l as [|s l IH]; intros available db Hpre.
  { exists [], db. rewrite app_nil_r.
    split_and!; [done|apply loop_effect_stop; apply Hpre|constructor|constructor|lia|intros _; apply all_pushed_nil]. }
  pose proof Hpre as (Hwf & Hnd & Hv & Hl). cbn in Hnd. apply NoDup_cons in Hnd as [Hs _].
  apply Forall_cons in Hv as [Hvs _]. destruct (Hl s) as [Hroom Hfit]; [constructor|].
  assert (∀ id', id' ≠ instance_id s → view db id' = view db id' ∧ version db id' = version db id') as Hsame by done.
  assert (offer_of now s ≠ OfferNone → ∃ db1,
    pg_save_snapshot (advanced_to now s) db = (Ok (advanced_to now s), db1) ∧ db_wf db1 ∧
    (∀ id', id' ≠ instance_id s → view db1 id' = view db id' ∧ version db1 id' = version db id') ∧
    view db1 (instance_id s) = Some (advanced_to now s) ∧
    version db1 (instance_id s) ≤ version db (instance_id s) + 1 ∧ same_control db db1) as Hsave.
  { intros Ho. destruct (advance_saved now db s Hwf Hvs Hroom Hfit Ho) as (db1 & He & (? & ? & Hf & _) & ? & ? & Hvf).
    exists db1. split_and!; try done; [|lia]. intros id' Hne. by rewrite Hf, Hvf. }
  rewrite offer_loop_cons. destruct (offer_of now s) as [n|o|t|] eqn:Ho.
  - destruct Hsave as (db1 & He & Hwf1 & Hf & Hv1 & Hver & Hc); [done|].
    assert (advanced_to now s = update_position now (AtTask n) s) as Ha by (unfold advanced_to; by rewrite Ho).
    unfold mbind, io_bind. rewrite <-Ha, He.
    eapply push_run; try done; [by left|]. intros av. by eapply IH, loop_pre_step.
  - destruct Hsave as (db1 & He & Hwf1 & Hf & Hv1 & Hver & Hc); [done|].
    assert (advanced_to now s = mark_completed now o s) as Ha by (unfold advanced_to; by rewrite Ho).
    unfold mbind, io_bind. rewrite <-Ha, He.
    destruct (IH available db1) as (new & db2 & -> & Heff & Hn & Hnd' & Hlen & Hall); [by eapply loop_pre_step|].
    exists new, db2. split_and!; [done|by eapply loop_effect_cons; eauto| |done|done|].
    2:{ cbn. intros Hle. apply all_pushed_skip; [by rewrite Ho|apply Hall; lia]. }
    apply (Forall_impl _ _ _ Hn). intros p. apply pushed_cons.
  - assert (advanced_to now s = s) as Ha by (unfold advanced_to; by rewrite Ho).
    replace (push_task now w limit s t l available) with (push_task now w limit (advanced_to now s) t l available)
      by (by rewrite Ha).
    eapply push_run; try done; [by rewrite Ha|lia|by right|].
    intros av. by eapply IH, loop_pre_step.
  - destruct (IH available db) as (new & db2 & -> & Heff & Hn & Hnd' & Hlen & Hall); [by eapply loop_pre_step|].
    exists new, db2. split_and!; [done| | |done|done|].
    3:{ cbn. intros Hle. apply all_pushed_skip; [by rewrite Ho|apply Hall; lia]. }
    + eapply loop_effect_cons; eauto; [lia|done].
    + apply (Forall_impl _ _ _ Hn). intros p. apply pushed_cons.
Qed.

(** ** What dispatch promises *)

(** A task that may be handed to a worker with tags [tags]: the snapshot is the one
    a load returns, in progress at the task, its input resolved; nobody holds a
    live claim, no cancel or pause is pending, and the worker has its tags. *)
Record dispatchable_task (tags : list string) (db : PgDb) (task : AvailableTask) : Prop := {
  dt_loaded : view db (at_instance_id task) = Some (at_snapshot task);
  dt_position : ∃ completed last, state (at_snapshot task) = InProgress (AtTask (at_task_id task)) completed last ∧
    (if bool_decide (completed = ∅) then initial_input (at_snapshot task)
     else get_last_task_output (at_snapshot task)) = Some (at_input task);
  dt_definition : at_workflow_definition_hash task = snapshot_definition_hash (at_snapshot task);
  dt_unclaimed : claimed db (at_instance_id task) = false;
  dt_unsignalled : ∀ k, signal_row db (at_instance_id task) k = None;
  dt_tags : tags ≠ [] → task_tags (at_snapshot task) ⊆ tags
}.

Lemma eligible_spec db id : pg_eligible db id → claimed db id = false ∧ ∀ k, signal_row db id k = None.
Proof.
  unfold pg_eligible, claimed. intros [Hc Hs]%andb_prop_elim. split; [by apply negb_true_iff, Is_true_true|].
  apply bool_decide_spec in Hs. intros k. unfold signal_row. by rewrite Hs.
Qed.

Lemma offered_spec tags db id r :
  pg_offered tags db (id, r) →
  dispatchable (db_now db) r ∧ pg_eligible db id ∧ (tags ≠ [] → c_task_tags r ⊆ tags).
Proof.
  unfold pg_offered. rewrite !andb_True. intros [[[Hd He] Ht] _]. split_and!; try done. intros Hne x Hx.
  apply orb_prop_elim in Ht as [Ht|Ht]; [by apply bool_decide_spec in Ht|].
  apply Is_true_true in Ht. rewrite forallb_forall in Ht. apply list_elem_of_In, Ht, bool_decide_eq_true in Hx. done.
Qed.

Lemma view_tags db id s r :
  db_wf db → view db id = Some s → db_snapshots db !! id = Some r → c_task_tags r = task_tags s.
Proof.
  intros Hwf Hv Hr. destruct (view_inv _ _ _ Hwf Hv) as (r' & s0 & Hr' & Hok & ->). simplify_eq.
  rewrite view_of_locked. cbn. destruct (columns_eq _ _ (locked_columns db id s0)) as (_ & _ & _ & _ & _ & _ & _ & ->).
  by eapply row_tags.
Qed.

Lemma view_offered tags db id s t completed last :
  db_wf db → view db id = Some s → state s = InProgress (AtTask t) completed last → pg_eligible db id →
  (tags = [] ∨ task_tags s ⊆ tags) → id ∉ db_row_locks db →
  ∃ r, db_snapshots db !! id = Some r ∧ pg_offered tags db (id, r).
Proof.
  intros Hwf Hv Hst Hel Htags Hlock. destruct (view_inv _ _ _ Hwf Hv) as (r & s0 & Hr & Hok & Heq). exists r.
  split; [done|]. pose proof (view_status _ _ _ _ Hwf Hv Hr) as Hs. pose proof (view_tags _ _ _ _ Hwf Hv Hr) as Ht.
  assert (c_position_kind r = position_kind s) as Hpk.
  { rewrite (row_position _ _ _ _ Hok). subst s. rewrite view_of_locked. cbn.
    by destruct (columns_eq _ _ (locked_columns db id s0)) as (_ & _ & _ & <- & _). }
  unfold pg_offered, dispatchable. rewrite Hs, Hpk, Ht. unfold position_kind, state_name. rewrite Hst. cbn.
  apply Is_true_true in Hel. rewrite Hel. rewrite (bool_decide_true (id ∉ _)) by done. rewrite andb_true_r. cbn.
  apply orb_True. destruct Htags as [->|Hsub]; [by left|right]. apply Is_true_intro, forallb_forall.
  intros x Hx%list_elem_of_In. by apply bool_decide_eq_true, Hsub.
Qed.

Lemma advanced_tags now s : task_tags (advanced_to now s) = task_tags s.
Proof. unfold advanced_to. destruct (offer_of now s); try done. by destruct s as [? ? []]. Qed.

(** The task of an offer: the snapshot stands at it, and it was free to run. *)
Definition fresh_task (now : DateTime) (s : WorkflowSnapshot) (t : TaskId) : Prop :=
  get_task_result t s = None ∧ backoff_pending now t s = false.
Definition after_delay (now : DateTime) (s : WorkflowSnapshot) (t : TaskId) : Prop :=
  ∃ d e w completed last, state s = InProgress (AtDelay d e w (Some t)) completed last ∧ w ≤ now.

Lemma offer_task_spec now s t :
  offer_of now s = OfferTask t →
  (∃ completed last, state s = InProgress (AtTask t) completed last) ∧ fresh_task now s t.
Proof.
  unfold offer_of, fresh_task, get_task_result. destruct (state s) as [[| | | | | |] completed last| | | |]; try done.
  - case_bool_decide as E; [done|]. destruct (backoff_pending now task_id s) eqn:Hb; [done|]. intros [= ->].
    split; [by eauto|]. split; [|done]. by apply eq_None_not_Some.
  - repeat case_match; done.
Qed.
Lemma offer_advance_spec now s t : offer_of now s = OfferAdvance t → after_delay now s t.
Proof.
  unfold offer_of, after_delay. destruct (state s) as [[| | | | | |] completed last| | | |]; try done.
  - repeat case_match; done.
  - case_bool_decide; [|done]. destruct next_task_id; [|done]. intros [= ->]. eauto 10.
Qed.

Lemma pushed_dispatchable now w tags db db' l p :
  db_wf db → Forall (candidate_of tags db) l → same_control db db' → pushed now w db' l p →
  dispatchable_task tags db' p.2 ∧
  p.1 = has_failed_on_worker (at_task_id p.2) w (at_snapshot p.2) ∧
  ∃ s, view db (at_instance_id p.2) = Some s ∧
    (fresh_task now s (at_task_id p.2) ∧ at_snapshot p.2 = s ∨
     after_delay now s (at_task_id p.2) ∧ at_snapshot p.2 = update_position now (AtTask (at_task_id p.2)) s).
Proof.
  intros Hwf Hall (Hsig & Hcl & _ & Hnow) (s & t & Hs & Hof & Hv & Hb & Hbias).
  rewrite Forall_forall in Hall. destruct (Hall _ Hs) as (Hview & r & Hr & Ho).
  apply offered_spec in Ho as (_ & Hel & Htags). apply eligible_spec in Hel as [Hun Hns].
  apply built_fields in Hb as (Hid & Ht & Hsn & Hdef & _ & pos & completed & last & Hst & Hin).
  assert (Hpos : ∃ c l, state (advanced_to now s) = InProgress (AtTask t) c l).
  { destruct Hof as [Ho|Ho]; unfold advanced_to; rewrite Ho.
    - apply offer_advance_spec in Ho as (d & e & wk & c & la & Hst' & _). unfold update_position. rewrite Hst'. eauto.
    - apply offer_task_spec in Ho as [Hst' _]. done. }
  rewrite advanced_id in Hid. split_and!.
  - split; rewrite ?Hid, ?Hsn, ?Ht; try done.
    + destruct Hpos as (c & la & Hpos). rewrite Hpos in Hst. injection Hst as <- <- <-. eauto.
    + unfold claimed. by rewrite Hcl, Hnow.
    + intros k. unfold signal_row. rewrite Hsig. apply Hns.
    + rewrite advanced_tags, <-(view_tags db (instance_id s) s r) by done. done.
  - by rewrite Hbias, Ht, Hsn.
  - exists s. rewrite Hid, Hsn, Ht. split; [done|]. unfold advanced_to. destruct Hof as [Ho|Ho]; rewrite Ho.
    + right. split; [|done]. by apply offer_advance_spec.
    + left. split; [|done]. by apply offer_task_spec.
Qed.

#[local] Instance by_bias_total : Total by_bias.
Proof. intros [[] ?] [[] ?]; unfold by_bias; cbn; auto. Qed.
#[local] Instance by_bias_trans : Transitive by_bias.
Proof. intros [[] ?] [[] ?] [[] ?]; unfold by_bias; cbn; auto. Qed.

(** C17. Dispatch is sound and total: on a well-formed database [find_available_tasks]
    returns at most [limit] tasks, at most one per instance, each of which may run
    now (its snapshot is the durable one and stands at the task, input resolved, no
    live claim, no pending signal, tags matched) and either was not run and is not
    backing off, or follows a delay that has expired; tasks that last failed on this
    worker come after the others; the only change to any stored snapshot is the
    advance of an expired delay; and when the limit covers the table, every instance
    that stands at a task that may run is among those returned. *)
Theorem pg_dispatch_sound (now : DateTime) (w : string) (limit : nat) (aging : Duration)
    (tags : list string) (db : PgDb) :
  db_wf db →
  (∀ id s, view db id = Some s → headroom db id ∧ payload_fits (advanced_to now s)) →
  ∃ tasks db', pg_find_available_tasks now w limit aging tags db = (Ok tasks, db') ∧
    db_wf db' ∧ (length tasks ≤ limit)%nat ∧ NoDup (map at_instance_id tasks) ∧
    Forall (λ task, dispatchable_task tags db' task ∧ ∃ s, view db (at_instance_id task) = Some s ∧
      (fresh_task now s (at_task_id task) ∨ after_delay now s (at_task_id task))) tasks ∧
    StronglySorted (λ a b, has_failed_on_worker (at_task_id a) w (at_snapshot a) →
      has_failed_on_worker (at_task_id b) w (at_snapshot b)) tasks ∧
    (∀ id, view db' id = view db id ∨ ∃ s, view db id = Some s ∧ view db' id = Some (advanced_to now s)) ∧
    ((size (db_snapshots db) ≤ limit)%nat → ∀ id s t completed last input,
       view db id = Some s → state s = InProgress (AtTask t) completed last → fresh_task now s t →
       (if bool_decide (completed = ∅) then initial_input s else get_last_task_output s) = Some input →
       pg_eligible db id → (tags = [] ∨ task_tags s ⊆ tags) → id ∉ db_row_locks db →
       MkAvailableTask id t input (snapshot_definition_hash s) (trace_parent s) s ∈ tasks).
Proof.
  intros Hwf Hpre. destruct (find_candidates now w limit aging tags db Hwf) as (l & Hnd & Hall & Hlen & Hcov & ->).
  destruct (offer_loop_spec now w limit l [] db) as (new & db' & Hrun & Heff & Hpush & Hnew & Hlim & Hpushed).
  { split_and!; try done.
    - apply (Forall_impl _ _ _ Hall). by intros s [? _].
    - intros s Hs. rewrite Forall_forall in Hall. destruct (Hall _ Hs) as [Hv _]. by apply Hpre. }
  unfold mbind, io_bind. rewrite Hrun. cbn [app] in *. eexists _, db'. split; [done|].
  assert (merge_sort by_bias new ≡ₚ new) as Hperm by apply merge_sort_Permutation.
  pose proof (Forall_impl _ _ _ Hpush (λ p, pushed_dispatchable now w tags db db' l p Hwf Hall (le_control _ _ _ _ Heff))) as Hgood.
  split_and!.
  - apply Heff.
  - rewrite length_fmap, Hperm. destruct limit as [|limit]; [|apply Hlim; cbn; lia].
    destruct l as [|s l]; [|cbn in Hlen; lia]. destruct new as [|p new]; [done|].
    apply Forall_cons in Hpush as [(s & t & Hs & _) _]. by apply elem_of_nil in Hs.
  - change (map at_instance_id ?x) with (at_instance_id <$> x). rewrite <-list_fmap_compose, Hperm. exact Hnew.
  - apply Forall_fmap. rewrite Hperm. apply (Forall_impl _ _ _ Hgood).
    intros p (Hd & _ & s & Hv & Hs). split; [done|]. exists s. split; [done|]. naive_solver.
  - assert (Forall (λ p : bool * AvailableTask, p.1 = has_failed_on_worker (at_task_id p.2) w (at_snapshot p.2))
      (merge_sort by_bias new)) as Hb.
    { rewrite Hperm. apply (Forall_impl _ _ _ Hgood). by intros p (_ & ? & _). }
    assert (StronglySorted by_bias (merge_sort by_bias new)) as Hsort.
    { apply (StronglySorted_merge_sort _). }
    revert Hb Hsort. generalize (merge_sort by_bias new). clear. intros q Hb Hq.
    induction Hq as [|p q _ IH Hq]; cbn; [constructor|]. apply Forall_cons in Hb as [Hp Hb]. constructor; [by apply IH|].
    apply Forall_fmap, Forall_forall. intros x Hx. rewrite Forall_forall in Hq, Hb.
    specialize (Hq x Hx). specialize (Hb x Hx). unfold compose. rewrite <-Hp, <-Hb. unfold by_bias in Hq. by destruct p.1, x.1.
  - intros id. destruct (decide (id ∈ map instance_id l)) as [Hin|Hni].
    + apply list_elem_of_fmap in Hin as (s & -> & Hs). rewrite Forall_forall in Hall. destruct (Hall _ Hs) as [Hv _].
      destruct (le_views _ _ _ _ Heff s Hs) as [?|?]; [left; congruence|right; eauto].
    + left. by apply (le_other _ _ _ _ Heff).
  - intros Hsz id s t completed last input Hv Hst [Hfr Hbk] Hin Hel Htags Hlock.
    destruct (view_offered tags db id s t completed last) as (r & Hr & Ho); [done..|].
    pose proof (view_id _ _ _ Hwf Hv) as Hid. specialize (Hcov Hsz id r Hr Ho).
    apply list_elem_of_fmap in Hcov as (s' & Hs' & Hs'l). pose proof Hall as Hcand. rewrite Forall_forall in Hcand.
    destruct (Hcand _ Hs'l) as [Hvs' _]. rewrite <-Hs', Hv in Hvs'. injection Hvs' as <-.
    assert (offer_of now s = OfferTask t) as Hof.
    { unfold offer_of, get_task_result in *. rewrite Hst in *. rewrite bool_decide_false by (rewrite Hfr; by intros []).
      by rewrite Hbk. }
    rewrite Hperm. apply (Hpushed ltac:(cbn; lia) s t); [done|by right|].
    unfold advanced_to. rewrite Hof. unfold build_available_task. rewrite Hst, Hin, Hid. done.
Qed.

(** *** Resolving a hint *)

Lemma hinted_eq hint db :
  db_wf db →
  pg_find_hinted_task hint db =
  (Ok match db_snapshots db !! hint_instance_id hint, view db (hint_instance_id hint) with
      | Some r, Some s =>
          if bool_decide (c_current_task_id r = Some (hash_bytes (hint_task_id hint))) &&
             bool_decide (c_status r = "InProgress") && pg_eligible db (hint_instance_id hint) &&
             hint_matches (MkTaskId (hint_task_id hint)) s
          then build_available_task s (MkTaskId (hint_task_id hint)) else None
      | _, _ => None
      end, db).
Proof.
  intros Hwf. unfold pg_find_hinted_task. destruct (db_snapshots db !! hint_instance_id hint) as [r|] eqn:Hr; [|done].
  destruct (wf_rows _ Hwf _ _ Hr) as [s0 Hok]. erewrite view_row by eauto.
  destruct (row_blob _ _ _ _ Hok) as (h & Hh & Hd & _). cbn. rewrite Hh. cbn.
  destruct (_ && _ && _) eqn:E; [|done]. rewrite Hd. cbn.
  destruct (aggregated_hydrated db (hint_instance_id hint) (wf_tasks _ Hwf _)) as (outs & -> & Ho). cbn.
  rewrite Ho. unfold view_of. by destruct (hint_matches _ _).
Qed.

Lemma hint_matches_spec t s :
  hint_matches t s → (∃ completed last, state s = InProgress (AtTask t) completed last) ∧ get_task_result t s = None.
Proof.
  unfold hint_matches, get_task_result. destruct (state s) as [[| | | | | |] completed last| | | |]; try done.
  intros [->%bool_decide_spec Hc%bool_decide_spec]%andb_prop_elim. eauto.
Qed.

Lemma hinted_sound hint db task :
  db_wf db → (pg_find_hinted_task hint db).1 = Ok (Some task) →
  dispatchable_task [] db task ∧ at_instance_id task = hint_instance_id hint ∧
  at_task_id task = MkTaskId (hint_task_id hint) ∧ get_task_result (at_task_id task) (at_snapshot task) = None.
Proof.
  intros Hwf. rewrite hinted_eq by done. cbn. destruct (db_snapshots db !! _) as [r|] eqn:Hr; [|done].
  destruct (view db (hint_instance_id hint)) as [s|] eqn:Hv; [|done].
  destruct (_ && _ && _ && _) eqn:E; [|done]. intros [= Hb].
  apply andb_true_iff in E as [[_ He]%andb_true_iff Hm].
  apply built_fields in Hb as (Hid & Ht & Hsn & Hdef & _ & pos & completed & last & Hst & Hin).
  destruct (eligible_spec db (hint_instance_id hint)) as [Hun Hns]; [by apply Is_true_true|].
  destruct (hint_matches_spec _ _ (Is_true_intro _ Hm)) as ((c & la & Hpos) & Hnone).
  pose proof (view_id _ _ _ Hwf Hv) as Hids. split_and!; rewrite ?Hid, ?Hids, ?Hsn, ?Ht; try done.
  split; rewrite ?Hid, ?Hids, ?Hsn, ?Ht; try done. rewrite Hpos in Hst. injection Hst as <- <- <-. eauto.
Qed.

(** A wake-up reaches its task: saving an instance that stands at a task emits one
    notification on the task channel, its payload decodes to a hint, and resolving
    that hint against the saved database, while no claim is live and no signal is
    pending, yields exactly that task with the saved snapshot and its input, whether
    or not a retry of the task is still backing off. *)
Theorem pg_wakeup_resolves `{!HintCodecLaws} (s : WorkflowSnapshot) (t : TaskId) (input : Bytes) (db : PgDb)
    (completed : CompletedTasks) (last : option TaskId) :
  db_wf db → snapshot_wf s → headroom db (instance_id s) → payload_fits s →
  ¬ terminal_row db (instance_id s) → save_synced (rows_of (db_tasks db) (instance_id s)) s →
  state s = InProgress (AtTask t) completed last → completed !! t = None →
  (if bool_decide (completed = ∅) then initial_input s else get_last_task_output s) = Some input →
  pg_eligible db (instance_id s) →
  ∃ db' payload hint, pg_save_snapshot s db = (Ok (with_output_unflushed false s), db') ∧
    db_notified db' = db_notified db ++ [(TASK_READY_CHANNEL, payload)] ∧ hint_decode payload = Ok hint ∧
    pg_find_hinted_task hint db' = (Ok (Some (MkAvailableTask (instance_id s) t input
      (snapshot_definition_hash s) (trace_parent s) (with_output_unflushed false s))), db').
Proof.
  intros Hwf Hs Hroom Hfit Hlive Hsync Hst Hnone Hin Hel.
  destruct (save_live_view db s) as (db' & Heq & Hwf' & Hview & _ & Hsig); try done.
  destruct (save_writes db s) as (db2 & r' & h' & data & Heq2 & Hw & _ & Hm & _ & _ & _ & Hnot & _ & _ & Hnow); try done.
  assert (db2 = db') as -> by congruence.
  set (hint := MkWakeupHint (instance_id s) (task_hash t) (def_hash (snapshot_definition_hash s)) (task_tags s)).
  assert (build_task_ready_payload s = Some (hint_encode hint)) as Hpay.
  { unfold build_task_ready_payload, current_task_id. by rewrite Hst. }
  exists db', (hint_encode hint), hint. split_and!; [done|by rewrite Hnot, Hpay|apply hint_decode_encode|].
  rewrite hinted_eq by done. f_equal. cbn [hint_instance_id hint_task_id hint].
  rewrite Hview. rewrite (w_snapshots _ _ _ _ _ Hw), lookup_insert_eq.
  assert (pg_eligible db' (instance_id s)) as Hel'.
  { unfold pg_eligible. by rewrite (w_claims _ _ _ _ _ Hw), Hsig, Hnow. }
  assert (MkTaskId (task_hash t) = t) as Ht by (by destruct t).
  assert (is_cancelled (state s) = false) as Hc by (by rewrite Hst).
  rewrite (m_current _ _ _ _ Hm Hc), (m_status _ _ _ _ Hm). unfold current_task_id. rewrite Hst, Ht.
  rewrite (bool_decide_true (_ = Some _)), (bool_decide_true (_ = "InProgress")) by done.
  apply Is_true_true in Hel'. rewrite Hel'. unfold hint_matches, build_available_task. cbn [state with_output_unflushed].
  rewrite Hst. rewrite (bool_decide_true (t = t)), (bool_decide_true (completed !! t = None)) by done. cbn [andb].
  change (initial_input (with_output_unflushed false s)) with (initial_input s).
  change (get_last_task_output (with_output_unflushed false s)) with (get_last_task_output s).
  by rewrite Hin.
Qed.
End Dispatch.
