(* ===== verification/PostgresInvariant.v ===== *)
(** * The Postgres backend: its guarantees

    Every operation as a step on the database, the invariant of the tables over
    any sequence of steps, the permanence of terminal snapshots, and the
    properties of the store as the runtime uses it. *)

From S2P Require Import Prelude Hash32 SnapshotFormat Task Workflow Snapshot Backend InMemory.
From S2P Require Import ClaimStore Postgres PostgresSignals PostgresClaims PostgresProps.
From S2P Require Import PostgresComposites PostgresDispatch.

#[local] Arguments transaction : simpl never.
#[local] Arguments decode : simpl never.
#[local] Arguments encode : simpl never.
#[local] Arguments rows_of : simpl never.
#[local] Arguments alter_rows : simpl never.
#[local] Arguments upsert_output : simpl never.
#[local] Arguments insert_history : simpl never.
#[local] Arguments notify_when : simpl never.
#[local] Arguments encode_blob : simpl never.
#[local] Arguments signal_row : simpl never.
#[local] Arguments lock_snapshot_for_mutation : simpl never.

Section Steps.
Context `{Sha256, Postgres, HintCodec, SnapshotCodec, Chrono, !PostgresLaws, !SnapshotCodecLaws}.

(** Every mutating operation, run by any caller, with the instance it deletes; the
    world takes its own steps. *)
Inductive pg_step : option string → PgDb → PgDb → Prop :=
| ps_save s db : snapshot_wf s → pg_step None db (pg_save_snapshot s db).2
| ps_result faults clock id t o db : pg_step None db (save_task_result_faulty faults clock id t o db).2
| ps_delete id db : pg_step (Some id) db (pg_delete_snapshot id db).2
| ps_store_signal id k q db : pg_step None db (pg_store_signal id k q db).2
| ps_clear_signal id k db : pg_step None db (pg_clear_signal id k db).2
| ps_send now id n p db : pg_step None db (send_event_at now id n p db).2
| ps_consume id n db : pg_step None db (pg_consume_event id n db).2
| ps_cancel now id t db : pg_step None db (pg_check_and_cancel now id t db).2
| ps_pause now id db : pg_step None db (pg_check_and_pause now id db).2
| ps_unpause now id db : pg_step None db (pg_unpause now id db).2
| ps_claim now id t w ttl db : pg_step None db (pg_claim_task now id t w ttl db).2
| ps_release id t w db : pg_step None db (pg_release_task_claim id t w db).2
| ps_extend id t w ttl db : pg_step None db (pg_extend_task_claim id t w ttl db).2
| ps_find now w limit aging tags db : pg_step None db (pg_find_available_tasks now w limit aging tags db).2
| ps_fenced s t w db : snapshot_wf s → pg_step None db (pg_save_snapshot_fenced s t w db).2
| ps_world now rows advisory db : pg_step None db (db_set_env now rows advisory db).

(** What a step may do to instance [id]: add at most three versions, and leave a
    terminal snapshot as it is, up to the outputs of the task sidecar, unless it
    deletes the instance. *)
Definition terminal_kept (db db' : PgDb) (id : string) : Prop :=
  ∀ s, view db id = Some s → is_terminal (state s) →
    strip_task_outputs <$> view db' id = Some (strip_task_outputs s).
Record evolves (deleted : option string) (db db' : PgDb) : Prop := {
  ev_wf : db_wf db';
  ev_version : ∀ id, version db' id ≤ version db id + 3;
  ev_terminal : ∀ id, deleted ≠ Some id → terminal_kept db db' id
}.
(** A step that writes the rows of one instance, adding at most [k] versions. *)
Record touches (k : Z) (id : string) (db db' : PgDb) : Prop := {
  to_wf : db_wf db';
  to_other : ∀ id', id' ≠ id → view db' id' = view db id' ∧ version db' id' = version db id';
  to_version : version db' id ≤ version db id + k;
  to_terminal : terminal_kept db db' id
}.

Lemma terminal_kept_same db db' id : view db' id = view db id → terminal_kept db db' id.
Proof. intros Hv s Hs _. by rewrite Hv, Hs. Qed.
Lemma terminal_kept_live db db' id :
  (∀ s, view db id = Some s → is_terminal (state s) = false) → terminal_kept db db' id.
Proof. intros Hl s Hs Ht. by rewrite (Hl s Hs) in Ht. Qed.

Lemma evolves_touch k id db db' : k ≤ 3 → touches k id db db' → evolves None db db'.
Proof.
  intros Hk [Hwf Hf Hv Ht]. split; [done| |].
  - intros id'. destruct (decide (id' = id)) as [->|Hne]; [lia|]. destruct (Hf id' Hne) as [_ ->]. lia.
  - intros id' _. destruct (decide (id' = id)) as [->|Hne]; [done|]. by apply terminal_kept_same, Hf.
Qed.
Lemma touches_refl k id db : 0 ≤ k → db_wf db → touches k id db db.
Proof. intros Hk Hwf. split; [done..|lia|by apply terminal_kept_same]. Qed.
Lemma evolves_refl db : db_wf db → evolves None db db.
Proof. intros Hwf. by apply (evolves_touch 0 ""), touches_refl. Qed.

Lemma strip_terminal a b :
  strip_task_outputs a = strip_task_outputs b → is_terminal (state a) = is_terminal (state b).
Proof.
  assert (∀ s, is_terminal (state (strip_task_outputs s)) = is_terminal (state s)) as Hs by (by intros [? ? []]).
  intros E. by rewrite <-(Hs a), <-(Hs b), E.
Qed.
Lemma touches_trans j k id a b c : touches j id a b → touches k id b c → touches (j + k) id a c.
Proof.
  intros [_ Hf1 Hv1 Ht1] [Hwf Hf2 Hv2 Ht2]. split; [done| |lia|].
  - intros id' Hne. destruct (Hf1 id' Hne) as [<- <-]. by apply Hf2.
  - intros s Hs Ht. specialize (Ht1 s Hs Ht). destruct (view b id) as [s'|] eqn:Hs'; [|done]. cbn in Ht1.
    injection Ht1 as Hst. rewrite (Ht2 s' Hs'); [by rewrite Hst|]. by rewrite (strip_terminal _ _ Hst).
Qed.
Lemma touches_le j k id a b : j ≤ k → touches j id a b → touches k id a b.
Proof. intros Hle [? ? ? ?]. split; [done..|lia|done]. Qed.

(** Steps that touch no snapshot, history or task row. *)
Lemma evolves_same db db' :
  db_wf db' → db_snapshots db' = db_snapshots db → db_history db' = db_history db →
  db_tasks db' = db_tasks db → evolves None db db'.
Proof.
  intros Hwf Hs Hh Ht. split; [done|unfold version; rewrite Hs; intros; lia|].
  intros id _. apply terminal_kept_same, view_frame; congruence.
Qed.

(** The stripped view: the blob with the row's trace context. *)
Lemma strip_view_of db id r s0 :
  strip_task_outputs s0 = s0 → strip_task_outputs (view_of db id r s0) = with_trace_parent (c_trace_parent r) s0.
Proof.
  intros Hs. unfold view_of. transitivity (with_trace_parent (c_trace_parent r) (strip_task_outputs s0)); [|by rewrite Hs].
  unfold strip_task_outputs, hydrated. rewrite completed_tasks_mut_compose.
  transitivity (completed_tasks_mut (fmap clear_output) (with_trace_parent (c_trace_parent r) s0)).
  - apply completed_tasks_mut_ext. intros m _. apply map_eq. intros k. rewrite !lookup_fmap, map_lookup_imap.
    destruct (m !! k); cbn; [|done]. f_equal. unfold set_output. by case_match.
  - by destruct s0 as [? ? []].
Qed.

Lemma terminal_row_view db id s :
  db_wf db → view db id = Some s → terminal_row db id ↔ is_terminal (state s) = true.
Proof.
  intros Hwf Hv. destruct (view_inv _ _ _ Hwf Hv) as (r & s0 & Hr & _ & _).
  pose proof (view_status _ _ _ _ Hwf Hv Hr) as Hst. unfold terminal_row. split.
  - intros (r' & Hr' & Ht). simplify_eq. rewrite Hst in Ht. by destruct (state s).
  - intros Ht. exists r. split; [done|]. rewrite Hst. by destruct (state s).
Qed.

Lemma writes_version db id r' h' db' :
  writes db id r' h' db' → version db' id = c_history_version r' ∧ ∀ id', id' ≠ id → version db' id' = version db id'.
Proof.
  intros Hw. unfold version. rewrite (w_snapshots _ _ _ _ _ Hw). split; [by rewrite lookup_insert_eq|].
  intros id' Hne. by rewrite lookup_insert_ne.
Qed.
(** Task rows alone: every view keeps its snapshot up to outputs. *)
Lemma touches_tasks db id f :
  db_wf db → is_Some (db_snapshots db !! id) → tasks_ok (f (rows_of (db_tasks db) id)) →
  touches 0 id db (db_set_tasks (alter_rows id f (db_tasks db)) db).
Proof.
  intros Hwf Hs Hf. pose proof (tasks_write_wf db id f Hwf Hf Hs) as Hwf'. split; [done| |unfold version; cbn; lia|].
  - intros id' Hne. split; [|done]. apply view_frame; [done..|]. cbn. by rewrite rows_of_alter_ne.
  - intros s Hv _. destruct (view_inv _ _ _ Hwf Hv) as (r & s0 & Hr & Hok & ->).
    rewrite (view_row _ id r s0) by done. cbn. by rewrite !strip_view_of by (by eapply row_stripped).
Qed.

(** *** [save_snapshot] *)

Lemma notify_unfit s db : ¬ payload_fits s → ∃ e, notify_when (build_task_ready_payload s) db = (Err e, db).
Proof.
  intros Hn. unfold notify_when, pg_notify. destruct (build_task_ready_payload s) as [p|] eqn:E.
  - case_bool_decide as Hl; [by eexists|]. destruct Hn. intros q. rewrite E. intros [= <-]. lia.
  - destruct Hn. intros q. by rewrite E.
Qed.
Lemma payload_fits_dec s : payload_fits s ∨ ¬ payload_fits s.
Proof.
  unfold payload_fits. destruct (build_task_ready_payload s) as [p|]; [|by left].
  destruct (decide (Z.of_nat (String.length p) < 8000)); [left|right]; naive_solver.
Qed.
Lemma terminal_row_dec db id : terminal_row db id ∨ ¬ terminal_row db id.
Proof.
  unfold terminal_row. destruct (db_snapshots db !! id) as [r|]; [|right; naive_solver].
  destruct (terminal_text (c_status r)) eqn:E; [left; eauto|right]. intros (r' & [= <-] & ?). congruence.
Qed.

Lemma save_refused db s :
  db_wf db → snapshot_wf s → ¬ terminal_row db (instance_id s) →
  ¬ headroom db (instance_id s) ∨ ¬ payload_fits s → ∃ e, pg_save_snapshot s db = (Err e, db).
Proof.
  intros Hwf Hs Hlive Hbad. destruct (encode_preserving_Ok s) as (data & He & Hd); [by destruct Hs|].
  unfold pg_save_snapshot, exec_save_snapshot, mbind, io_bind, lift_result. rewrite He. cbn.
  unfold pg, io_map_err, save_statement, transaction, mbind, io_bind.
  destruct (decide (version db (instance_id s) < i32_max)) as [Hroom|Hroom].
  - apply headroom_version in Hroom. destruct Hbad as [?|Hfit]; [done|].
    destruct (save_snap_live db s (snapshot_hash data) Hroom Hlive) as (r' & -> & Hv & Htp & Hm).
    unfold insert_history. cbn. rewrite new_version_free by done. unfold modify_db. cbn.
    match goal with |- context [notify_when _ ?d] => destruct (notify_unfit s d Hfit) as [e ->] end. by eexists.
  - unfold save_snap_arm, version, terminal_row in *. destruct (db_snapshots db !! instance_id s) as [r|];
      [|by destruct Hroom].
    destruct (terminal_text (c_status r)) eqn:Ht; [destruct Hlive; eauto|].
    rewrite bool_decide_true by lia. by eexists.
Qed.

Lemma save_touches db s :
  db_wf db → snapshot_wf s → touches 1 (instance_id s) db (pg_save_snapshot s db).2.
Proof.
  intros Hwf Hs. destruct (terminal_row_dec db (instance_id s)) as [Hter|Hlive].
  { destruct (save_terminal db s Hwf Hs Hter) as (db' & -> & ->). cbn. apply (touches_le 0); [done|].
    destruct Hter as (r & Hr & _). apply touches_tasks; [done|by eexists|].
    apply save_task_arms_spec. by apply wf_tasks. }
  destruct (decide (version db (instance_id s) < i32_max)) as [Hroom|Hroom]; rewrite headroom_version in Hroom.
  2:{ destruct (save_refused db s) as [e ->]; auto. by apply touches_refl. }
  destruct (payload_fits_dec s) as [Hfit|Hfit].
  2:{ destruct (save_refused db s) as [e ->]; auto. by apply touches_refl. }
  destruct (save_writes db s Hwf Hs Hroom Hfit Hlive) as
    (db' & r' & h' & data & -> & Hw & Hd & Hm & Hv & Htp & _). cbn.
  destruct (fresh_version db (instance_id s) Hwf) as [Hfr Hge].
  destruct (write_wf db db' s data r' h' (instance_id s)) as (Hwf' & Hview & Hframe); rewrite ?Hv; try done.
  destruct (writes_version _ _ _ _ _ Hw) as [Hvid Hvo]. split; [done| | |].
  - intros id' Hne. split; [by apply Hframe|by apply Hvo].
  - rewrite Hvid, Hv, new_version_eq. lia.
  - apply terminal_kept_live. intros x Hx. apply not_true_is_false. by rewrite <-terminal_row_view.
Qed.

(** *** [save_task_result] *)

Lemma mark_task_completed_parked now t o s :
  is_in_progress (state s) = false → mark_task_completed now t o s = s.
Proof. by destruct s as [? ? []]. Qed.

Lemma once_absent now id t o db :
  db_snapshots db !! id = None → save_task_result_once now id t o db = (Err (TxOther (NotFound id)), db).
Proof.
  intros E. unfold save_task_result_once, transaction, mbind, io_bind, io_map_err, lift_result.
  unfold lock_snapshot_for_mutation. by rewrite E.
Qed.

Lemma once_touches now id t o db :
  db_wf db → headroom db id → touches 1 id db (save_task_result_once now id t o db).2.
Proof.
  intros Hwf Hroom. destruct (db_snapshots db !! id) as [r|] eqn:Hr.
  2:{ rewrite once_absent by done. by apply touches_refl. }
  destruct (wf_rows _ Hwf _ _ Hr) as [s0 Hok].
  destruct (once_writes now id t o db r s0 Hwf Hr Hok (Hroom _ Hr)) as
    (db' & r' & h' & data & -> & Hw & Hd & Hm & Hver & Htp & Hside). cbn.
  destruct (kept _ _ (mark_task_completed_ok now t o) (locked_wf _ _ _ _ Hok)) as [Hw' Hid'].
  rewrite (locked_id _ _ _ _ Hok) in Hid'. destruct (fresh_version db id Hwf) as [Hfr Hge].
  assert (c_history_version r' = new_version db id) as Hnv by (unfold new_version; by rewrite Hr).
  destruct (write_wf db db' _ data r' h' id Hwf Hw Hw' Hid' Hd Hm) as (Hwf' & Hview & Hframe); rewrite ?Hnv; try done.
  destruct (writes_version _ _ _ _ _ Hw) as [Hvid Hvo]. split; [done| | |].
  - intros id' Hne. split; [by apply Hframe|by apply Hvo].
  - rewrite Hvid, Hnv, new_version_eq. lia.
  - intros s Hs Ht. erewrite view_row in Hs by eauto. injection Hs as <-. rewrite Hview. cbn.
    rewrite !strip_view_of by (apply stored_stripped || by eapply row_stripped). rewrite Htp. do 2 f_equal.
    rewrite mark_task_completed_parked.
    + unfold locked. rewrite stored_hydrated. apply stored_form_fixed; by eapply row_stripped || by eapply row_skipped.
    + rewrite view_of_locked in Ht. cbn in Ht. by destruct (state (locked db id s0)).
Qed.

Lemma attempt_touches fault now id t o db :
  db_wf db → headroom db id → touches 1 id db (attempt fault (save_task_result_once now id t o) db).2.
Proof.
  intros Hwf Hroom. pose proof (once_touches now id t o db Hwf Hroom) as Ho. unfold attempt.
  destruct fault as [[e|e]|]; [by apply touches_refl| |done].
  by destruct (save_task_result_once now id t o db) as [[] ?].
Qed.

Lemma retry_touches faults clock id t o k n db :
  db_wf db → version db id + Z.of_nat k < i32_max →
  touches (1 + Z.of_nat k) id db (retry_from faults (λ n, save_task_result_once (clock n) id t o) k n db).2.
Proof.
  revert n db. induction k as [|k IH]; intros n db Hwf Hver; cbn;
    pose proof (attempt_touches (faults n) (clock n) id t o db Hwf) as Ht;
    specialize (Ht ltac:(apply headroom_version; lia)); destruct (attempt _ _ db) as [[] db1]; cbn in *.
  - done.
  - by case_match.
  - apply (touches_le 1); [lia|done].
  - case_match; [|apply (touches_le 1); [lia|done]]. pose proof (to_version _ _ _ _ Ht).
    apply (touches_le (1 + (1 + Z.of_nat k))); [lia|]. eapply touches_trans; [done|]. apply IH; [apply Ht|lia].
Qed.

(** *** The other operations *)

Lemma delete_evolves id db : db_wf db → evolves (Some id) db (pg_delete_snapshot id db).2.
Proof.
  intros Hwf. assert ((pg_delete_snapshot id db).2 = (pg_delete_snapshot id db).2) as E by done.
  unfold pg_delete_snapshot in E at 2. set (db' := db_set_snapshots _ _) in E.
  assert ((pg_delete_snapshot id db).2 = db') as -> by (rewrite E; by destruct (db_snapshots db !! id)).
  split.
  - destruct Hwf as [Hr Ht Hc]. split; cbn.
    + intros id' r. rewrite lookup_delete_Some. intros [Hne Hr']. rewrite rows_of_delete, bool_decide_false by done.
      by apply Hr.
    + intros id'. rewrite rows_of_delete. case_bool_decide; [by apply map_Forall_empty|apply Ht].
    + intros id'. rewrite lookup_delete_None, !rows_of_delete.
      case_bool_decide as E2; [subst; by rewrite lookup_delete_eq|].
      intros [?|Hn]; [done|]. rewrite lookup_delete_ne by done. by apply Hc.
  - intros id'. pose proof (fresh_version db id' Hwf) as [_ Hge]. rewrite new_version_eq in Hge.
    unfold version in *. cbn. destruct (decide (id' = id)) as [->|Hne]; [rewrite lookup_delete_eq; lia|].
    rewrite lookup_delete_ne by done. lia.
  - intros id' Hid. assert (id' ≠ id) as Hne by congruence. apply terminal_kept_same, view_frame; cbn;
      rewrite ?rows_of_delete, ?bool_decide_false by done; [by rewrite lookup_delete_ne|done..].
Qed.

Lemma replaced_touches db db' id s s' :
  view db id = Some s → is_terminal (state s) = false → replaced db db' id s' → touches 1 id db db'.
Proof.
  intros Hv Ht (Hwf' & _ & Hf & Hn). split; [done| | |apply terminal_kept_live; congruence].
  - intros id' Hne. split; [by apply Hf|]. rewrite Hn, bool_decide_false by done. lia.
  - rewrite Hn, bool_decide_true by done. lia.
Qed.
Lemma live_in_progress s : is_in_progress (state s) → is_terminal (state s) = false.
Proof. by destruct (state s). Qed.

Lemma cancel_touches now id t db : db_wf db → headroom db id → touches 1 id db (pg_check_and_cancel now id t db).2.
Proof.
  intros Hwf Hroom. destruct (signal_row db id Cancel) as [q|] eqn:Hq.
  2:{ unfold pg_check_and_cancel, transaction, mbind, io_bind, get_state. rewrite Hq. by apply touches_refl. }
  destruct (signal_view _ _ _ _ Hwf Hq) as [s Hv]. destruct (is_in_progress (state s)) eqn:Hp.
  - destruct (cancel_view now id t db s q Hwf Hv (Is_true_intro _ Hp) Hroom Hq) as (db' & -> & Hrep & _).
    eapply replaced_touches; eauto using live_in_progress, Is_true_intro.
  - destruct (lock_view _ _ _ Hwf Hv) as (s1 & v & Hl & Hs1 & _).
    unfold pg_check_and_cancel, transaction, mbind, io_bind, get_state. rewrite Hq, Hl, Hs1, Hp. by apply touches_refl.
Qed.
Lemma pause_touches now id db : db_wf db → headroom db id → touches 1 id db (pg_check_and_pause now id db).2.
Proof.
  intros Hwf Hroom. destruct (signal_row db id Pause) as [q|] eqn:Hq.
  2:{ unfold pg_check_and_pause, transaction, mbind, io_bind, get_state. rewrite Hq. by apply touches_refl. }
  destruct (signal_view _ _ _ _ Hwf Hq) as [s Hv]. destruct (is_in_progress (state s)) eqn:Hp.
  - destruct (pause_view now id db s q Hwf Hv (Is_true_intro _ Hp) Hroom Hq) as (db' & -> & Hrep & _).
    eapply replaced_touches; eauto using live_in_progress, Is_true_intro.
  - destruct (lock_view _ _ _ Hwf Hv) as (s1 & v & Hl & Hs1 & _).
    unfold pg_check_and_pause, transaction, mbind, io_bind, get_state. rewrite Hq, Hl, Hs1, Hp. by apply touches_refl.
Qed.
Lemma store_signal_evolves id k q db : db_wf db → evolves None db (pg_store_signal id k q db).2.
Proof.
  intros Hwf. unfold pg_store_signal, transaction, mbind, io_bind, get_state, lift_result, modify_db.
  destruct (db_snapshots db !! id) as [r|] eqn:Hr; cbn; [|by apply evolves_refl].
  destruct (validate_signal_allowed _ _); cbn; [|by apply evolves_refl].
  apply evolves_same; try done. apply signals_wf; [done|by eexists].
Qed.

Lemma events_wf db l n : db_wf db → db_wf (db_set_events l n db).
Proof. by intros [? ? ?]. Qed.
Lemma env_wf db now rows advisory : db_wf db → db_wf (db_set_env now rows advisory db).
Proof. by intros [? ? ?]. Qed.

(** Claims are held on stored instances only. *)
Lemma claims_wf db m :
  db_wf db → (∀ id, db_snapshots db !! id = None → m !! id = None) → db_wf (db_set_claims m db).
Proof.
  intros [Hr Ht Hc] Hm. split; cbn; [done..|]. intros id Hn. destruct (Hc id Hn) as (? & ? & ? & ?). auto.
Qed.
Lemma claim_stored db id c : db_wf db → db_claims db !! id = Some c → is_Some (db_snapshots db !! id).
Proof.
  intros Hwf Hc. destruct (db_snapshots db !! id) eqn:E; [done|]. destruct (wf_children _ Hwf _ E) as (_ & _ & _ & Hn).
  congruence.
Qed.
Lemma claim_inserted_wf db id c : db_wf db → is_Some (db_snapshots db !! id) → db_wf (db_set_claims (<[id := c]> (db_claims db)) db).
Proof.
  intros Hwf [r Hr]. apply claims_wf; [done|]. intros id' Hn. rewrite lookup_insert_ne by congruence.
  by apply (wf_children _ Hwf).
Qed.

Lemma claim_evolves now id t w ttl db : db_wf db → evolves None db (pg_claim_task now id t w ttl db).2.
Proof.
  intros Hwf. rewrite claim_task_spec. destruct (db_snapshots db !! id) as [r|] eqn:Hr; [|by apply evolves_refl].
  case_match; [|by apply evolves_refl]. apply evolves_same; try done. apply claim_inserted_wf; [done|by eexists].
Qed.
Lemma release_evolves id t w db : db_wf db → evolves None db (pg_release_task_claim id t w db).2.
Proof.
  intros Hwf. rewrite release_spec. destruct (owned_claim db id t w); [|by apply evolves_refl].
  apply evolves_same; try done. apply claims_wf; [done|]. intros id' Hn. apply lookup_delete_None. right.
  by apply (wf_children _ Hwf).
Qed.
Lemma extend_evolves id t w ttl db : db_wf db → evolves None db (pg_extend_task_claim id t w ttl db).2.
Proof.
  intros Hwf. unfold pg_extend_task_claim, mbind, io_bind, lift_result, get_state, put_state.
  destruct (map_err _ _); [|by apply evolves_refl]. destruct (owned_claim db id t w) as [[? ? ? [e|]]|] eqn:Ho;
    try by apply evolves_refl.
  destruct (map_err _ (pg_add_interval _ _)); [|by apply evolves_refl]. cbn.
  apply evolves_same; try done. apply claim_inserted_wf; [done|]. unfold owned_claim in Ho.
  destruct (db_claims db !! id) as [c|] eqn:Hc; [|done]. by eapply claim_stored.
Qed.

(** A write that went through had a payload the server accepts. *)
Lemma notify_fits s db x db' : notify_when (build_task_ready_payload s) db = (Ok x, db') → payload_fits s.
Proof. intros E. destruct (payload_fits_dec s) as [?|Hn]; [done|]. destruct (notify_unfit s db Hn). congruence. Qed.
Lemma payload_fits_strip s : payload_fits (strip_task_outputs s) ↔ payload_fits s.
Proof. unfold payload_fits. by rewrite payload_strip. Qed.

Lemma rewrite_fits id s v db x db' : rewrite_position id s v db = (Ok x, db') → payload_fits s.
Proof.
  unfold rewrite_position, mbind, io_bind, lift_result, pg, io_map_err.
  destruct (encode_blob_Ok s) as (data & -> & _). cbn.
  match goal with |- context [notify_when ?p ?d] => destruct (notify_when p d) as [[u|e] db1] eqn:E end; [|done].
  intros _. by apply payload_fits_strip, (notify_fits _ _ _ _ E).
Qed.
Lemma resume_fits now id p s v sid next db x db' :
  resume_at_signal now id p s v sid next db = (Ok x, db') → payload_fits (resumed now p sid next s).
Proof.
  unfold resume_at_signal, mbind, io_bind, lift_result, pg, io_map_err, upsert_output, modify_db.
  fold (resumed now p sid next s).
  destruct (encode_blob_Ok (resumed now p sid next s)) as (data & -> & _). cbn -[resumed].
  match goal with |- context [notify_when ?p ?d] => destruct (notify_when p d) as [[u|e] db1] eqn:E end; [|done].
  intros _. by apply payload_fits_strip, (notify_fits _ _ _ _ E).
Qed.


Lemma unpause_touches now id db : db_wf db → headroom db id → touches 1 id db (pg_unpause now id db).2.
Proof.
  intros Hwf Hroom. destruct (pg_unpause now id db) as [[s'|e] db'] eqn:E; cbn.
  2:{ apply transaction_Err in E as ->. by apply touches_refl. }
  pose proof E as Hrun. unfold pg_unpause in Hrun. rewrite transaction_Ok in Hrun. revert Hrun. unfold mbind, io_bind, lift_result.
  destruct (db_snapshots db !! id) as [r|] eqn:Hr.
  2:{ unfold lock_snapshot_for_mutation. by rewrite Hr. }
  destruct (wf_rows _ Hwf _ _ Hr) as [s0 Hok]. erewrite lock_row by eauto using wf_tasks. fold (locked db id s0).
  cbn [ok_or]. destruct (is_paused (state (locked db id s0))) eqn:Hp; [|done]. cbn [negb].
  intros Hfit%rewrite_fits. pose proof (view_row _ _ _ _ Hwf Hr Hok) as Hv. rewrite view_of_locked in Hv.
  destruct (unpause_view now id db _ Hwf Hv (Is_true_intro _ Hp) Hroom) as (db2 & s2 & Heq & Hrep & _).
  { revert Hfit. by destruct (locked db id s0) as [? ? []]. }
  rewrite Heq in E. injection E as <- <-. eapply replaced_touches; [done| |done].
  cbn. revert Hp. by destruct (state (locked db id s0)).
Qed.

Lemma send_touches now id name p db : db_wf db → headroom db id → touches 1 id db (send_event_at now id name p db).2.
Proof.
  intros Hwf Hroom. assert (∀ db', db' = insert_event id name p db → touches 1 id db db') as Hins.
  { intros db' ->. split; [by apply events_wf| |unfold version; cbn; lia|].
    - intros id' _. split; [by apply view_frame|done].
    - by apply terminal_kept_same, view_frame. }
  destruct (view db id) as [s|] eqn:Hv.
  2:{ rewrite send_buffers by (done || by rewrite Hv). by apply Hins. }
  destruct (signal_resume_target s name) as [[sid next]|] eqn:Htgt.
  2:{ rewrite send_buffers; [by apply Hins|done|]. intros x. rewrite Hv. by intros [= <-]. }
  assert (is_terminal (state s) = false) as Hlive by (eapply live_in_progress, target_in_progress; eauto).
  destruct (payload_fits_dec (resumed now p sid next s)) as [Hfit|Hun].
  - destruct (send_resumes now id name p db s sid next) as (db' & -> & Hrep & _); [done..|].
    by eapply replaced_touches.
  - destruct (view_inv _ _ _ Hwf Hv) as (r & s0 & Hr & Hok & ->). rewrite view_of_locked in *.
    unfold send_event_at, mbind, io_bind, get_state. rewrite Hr. case_bool_decide; [|by apply Hins]. cbn [negb].
    set (tx := transaction _). destruct (tx db) as [[x|e] db'] eqn:E; cbn.
    2:{ apply transaction_Err in E as ->. by apply touches_refl. }
    exfalso. apply Hun. unfold tx in E. rewrite transaction_Ok in E. revert E. unfold mbind, io_bind.
    erewrite lock_row by eauto using wf_tasks. fold (locked db id s0). rewrite target_trace in Htgt. rewrite Htgt.
    intros Hfit%resume_fits. by rewrite resumed_trace.
Qed.

Lemma fenced_evolves s t w db : db_wf db → snapshot_wf s → evolves None db (pg_save_snapshot_fenced s t w db).2.
Proof.
  intros Hwf Hs. destruct (holds_claim (instance_id s) t w db) eqn:Hh.
  - pose proof (fenced_held 0 s t w db (Is_true_intro _ Hh)) as He. cbn in He. rewrite He.
    eapply (evolves_touch 1); [done|]. pose proof (save_touches db s Hwf Hs) as Ht.
    by destruct (pg_save_snapshot s db) as [[] ?].
  - unfold pg_save_snapshot_fenced, transaction, mbind, io_bind, get_state. rewrite Hh. by apply evolves_refl.
Qed.

(** The dispatch loop, whether or not its saves go through. *)
Record loop_evolves (ids : list string) (db db' : PgDb) : Prop := {
  lo_wf : db_wf db';
  lo_other : ∀ id, id ∉ ids → view db' id = view db id ∧ version db' id = version db id;
  lo_version : ∀ id, version db' id ≤ version db id + 1;
  lo_terminal : ∀ id, terminal_kept db db' id
}.
Lemma loop_evolves_refl ids db : db_wf db → loop_evolves ids db db.
Proof. intros Hwf. split; [done..|intros; lia|intros; by apply terminal_kept_same]. Qed.
Lemma loop_evolves_cons id ids db db1 db2 :
  id ∉ ids → touches 1 id db db1 → loop_evolves ids db1 db2 → loop_evolves (id :: ids) db db2.
Proof.
  intros Hid [_ Hf Hv Ht] [Hwf2 Ho2 Hv2 Ht2]. destruct (Ho2 id Hid) as [Hvid Hverid]. split; [done| | |].
  - intros id' [Hne Hni]%not_elem_of_cons. destruct (Ho2 id' Hni) as [-> ->]. by apply Hf.
  - intros id'. destruct (decide (id' = id)) as [->|Hne]; [by rewrite Hverid|].
    destruct (Hf id' Hne) as [_ <-]. apply Hv2.
  - intros id'. destruct (decide (id' = id)) as [->|Hne]; unfold terminal_kept; [by rewrite Hvid|].
    destruct (Hf id' Hne) as [<- _]. apply Ht2.
Qed.

Lemma offer_loop_evolves now w limit l available db :
  db_wf db → NoDup (map instance_id l) → Forall snapshot_wf l →
  loop_evolves (map instance_id l) db (offer_loop now w limit l available db).2.
Proof.
  revert available db. induction l as [|s l IH]; intros available db Hwf Hnd Hall; [by apply loop_evolves_refl|].
  cbn in Hnd. apply NoDup_cons in Hnd as [Hs Hnd]. apply Forall_cons in Hall as [Hsw Hall]. cbn [map].
  assert (∀ f, keeps_ok f → touches 1 (instance_id s) db (pg_save_snapshot (f s) db).2) as Hsave.
  { intros f Hf. destruct (kept f s Hf Hsw) as [Hw Hid]. rewrite <-Hid. by apply save_touches. }
  assert (∀ x t av db1, touches 1 (instance_id s) db db1 →
    loop_evolves (instance_id s :: map instance_id l) db (push_task now w limit x t l av db1).2) as Hpush.
  { intros x t av db1 Ht. eapply loop_evolves_cons; [done|exact Ht|]. unfold push_task.
    case_bool_decide; [by apply loop_evolves_refl, Ht|]. apply IH; [apply Ht|done..]. }
  rewrite offer_loop_cons. unfold mbind, io_bind. destruct (offer_of now s) as [t|o|t|].
  - specialize (Hsave _ (update_position_ok now (AtTask t))).
    destruct (pg_save_snapshot _ db) as [[x|e] db1]; cbn in Hsave; [by apply Hpush|].
    eapply loop_evolves_cons; [done|exact Hsave|]. apply loop_evolves_refl, Hsave.
  - specialize (Hsave _ (mark_completed_ok now (λ _, o))). cbn beta in Hsave.
    destruct (pg_save_snapshot _ db) as [[x|e] db1]; cbn in Hsave; (eapply loop_evolves_cons; [done|exact Hsave|]).
    + apply IH; [apply Hsave|done..].
    + apply loop_evolves_refl, Hsave.
  - apply Hpush. by apply touches_refl.
  - eapply loop_evolves_cons; [done|by apply touches_refl|]. by apply IH.
Qed.

Lemma find_evolves now w limit aging tags db :
  db_wf db → evolves None db (pg_find_available_tasks now w limit aging tags db).2.
Proof.
  intros Hwf. destruct (find_candidates now w limit aging tags db Hwf) as (l & Hnd & Hall & _ & _ & ->).
  destruct (offer_loop_evolves now w limit l [] db) as [Hwf' _ Hv Ht]; [done..| |].
  - apply (Forall_impl _ _ _ Hall). intros s [Hs _]. by eapply view_wf.
  - unfold mbind, io_bind. destruct (offer_loop _ _ _ _ _ db) as [[x|e] db1]; cbn in *;
      (split; [done| |done]); intros id; specialize (Hv id); lia.
Qed.

(** *** Any step *)

Lemma consume_eq id n db :
  (pg_consume_event id n db).2 = db_set_events (pop_first (of_queue id n) (db_events db)).2 (db_event_seq db) db.
Proof. unfold pg_consume_event. by destruct (pop_first _ _). Qed.

Lemma step_evolves d db db' :
  db_wf db → (∀ id, version db id + 3 ≤ i32_max) → pg_step d db db' → evolves d db db'.
Proof.
  intros Hwf Hroom Hstep.
  assert (∀ id, headroom db id) as Hhr by (intros id; apply headroom_version; specialize (Hroom id); lia).
  destruct Hstep.
  - eapply (evolves_touch 1); [done|]. by apply save_touches.
  - apply (evolves_touch 3 id); [done|]. unfold save_task_result_faulty, with_transient_retry, io_map_err.
    pose proof (retry_touches faults clock id t o 2 0 db Hwf) as Ht.
    specialize (Ht ltac:(specialize (Hroom id); lia)).
    by destruct (retry_from _ _ _ _ db) as [[] ?].
  - by apply delete_evolves.
  - by apply store_signal_evolves.
  - apply evolves_same; try done. by apply delete_signal_wf.
  - eapply (evolves_touch 1); [done|]. by apply send_touches.
  - rewrite consume_eq. apply evolves_same; try done. by apply events_wf.
  - eapply (evolves_touch 1); [done|]. by apply cancel_touches.
  - eapply (evolves_touch 1); [done|]. by apply pause_touches.
  - eapply (evolves_touch 1); [done|]. by apply unpause_touches.
  - by apply claim_evolves.
  - by apply release_evolves.
  - by apply extend_evolves.
  - by apply find_evolves.
  - by apply fenced_evolves.
  - apply evolves_same; try done. by apply env_wf.
Qed.

Lemma empty_wf now : db_wf (db_empty now).
Proof. split; cbn; [done|intros id; by apply map_Forall_empty|done]. Qed.

Lemma version_empty now id : version (db_empty now) id = 0.
Proof. done. Qed.

(** Runs, with what each step deletes. *)
Inductive pg_run : list (option string) → PgDb → PgDb → Prop :=
| run_nil db : pg_run [] db db
| run_cons d l db db1 db2 : pg_step d db db1 → pg_run l db1 db2 → pg_run (d :: l) db db2.

Lemma run_evolves l db db' :
  db_wf db → (∀ id, version db id + 3 * Z.of_nat (length l) ≤ i32_max) → pg_run l db db' →
  db_wf db' ∧ (∀ id, version db' id ≤ version db id + 3 * Z.of_nat (length l)) ∧
  ∀ id, Some id ∉ l → terminal_kept db db' id.
Proof.
  intros Hwf Hroom Hrun. induction Hrun as [db|d l db db1 db2 Hstep _ IH]; cbn [length] in *.
  { split_and!; [done|intros; lia|]. intros id _. by apply terminal_kept_same. }
  destruct (step_evolves d db db1) as [Hwf1 Hv Ht]; [done|intros id; specialize (Hroom id); lia|done|].
  destruct IH as (? & Hv2 & Ht2); [done|intros id; specialize (Hroom id); specialize (Hv id); lia|].
  split_and!; [done|intros id; specialize (Hv id); specialize (Hv2 id); lia|].
  intros id [Hd Hl]%not_elem_of_cons s Hs Hter. specialize (Ht id (not_eq_sym Hd) s Hs Hter).
  destruct (view db1 id) as [s'|] eqn:Hs'; [|done]. cbn in Ht. injection Ht as Hst.
  rewrite (Ht2 id Hl s' Hs'); [by rewrite Hst|]. by rewrite (strip_terminal _ _ Hst).
Qed.
End Steps.

(** ** What the backend guarantees *)

Section Guarantees.
Context `{Sha256, Postgres, HintCodec, SnapshotCodec, Chrono, !PostgresLaws, !SnapshotCodecLaws}.

(** C18. What a load returns after a save.  Saving a well-formed snapshot of an
    instance whose row is not terminal, with a version left in its column and a
    notification the server accepts, succeeds and keeps the invariant, and a load
    returns the snapshot saved (the flag cleared) up to outputs: the output of the
    task completed last, when it is flagged unflushed, is the one saved; every other
    output is the one the sidecar had before, empty where it had none.  So the load
    returns exactly the snapshot saved when its other outputs are those of the
    sidecar.  Each result can be fetched on its own, as the load shows it, and no
    other instance changes. *)
Theorem pg_save_load (s : WorkflowSnapshot) (db : PgDb) :
  db_wf db → snapshot_wf s → headroom db (instance_id s) → payload_fits s →
  ¬ terminal_row db (instance_id s) →
  ∃ db' s', pg_save_snapshot s db = (Ok (with_output_unflushed false s), db') ∧ db_wf db' ∧
    pg_load_snapshot (instance_id s) db' = (Ok s', db') ∧
    strip_task_outputs s' = strip_task_outputs (with_output_unflushed false s) ∧
    (∀ t, get_task_result_bytes t s' =
      (λ o, if bool_decide (flushed s = Some t) then o
            else default [] (sidecar (rows_of (db_tasks db) (instance_id s)) t)) <$> get_task_result_bytes t s) ∧
    (save_synced (rows_of (db_tasks db) (instance_id s)) s → s' = with_output_unflushed false s) ∧
    (∀ t o, get_task_result_bytes t s' = Some o →
      pg_load_task_result (instance_id s) t db' = (Ok (Some o), db')) ∧
    ∀ id', id' ≠ instance_id s → view db' id' = view db id'.
Proof.
  intros Hwf Hs Hroom Hfit Hlive.
  destruct (save_live_restored db s) as (db' & s' & Heq & Hwf' & Hview & Hstrip & Hres & Hframe); [done..|].
  pose proof (load_view _ _ _ Hwf' Hview) as Hload. exists db', s'. split_and!; try done.
  - intros Hsync. destruct (save_live_view db s) as (db2 & Heq2 & _ & Hview2 & _); [done..|].
    rewrite Heq in Heq2. injection Heq2 as <-. rewrite Hview in Hview2. by injection Hview2.
  - intros t o Ho. unfold pg_load_task_result, mbind, io_bind, fetch_task_output.
    fold (sidecar (rows_of (db_tasks db') (instance_id s)) t).
    pose proof (view_synced _ _ _ Hwf' Hview t) as Hsy. unfold get_task_result_bytes in *.
    destruct (get_task_result t s') as [r|] eqn:Hr; [|done]. injection Ho as <-. specialize (Hsy r eq_refl).
    destruct (sidecar _ t) as [o'|]; cbn in Hsy; [by rewrite Hsy|]. rewrite Hload. by rewrite Hr.
Qed.

(** C14. The invariant of the tables holds in every state the operations can reach
    from an empty database, under any interleaving, faults and clocks, as long as
    the versions fit their column: every listed instance loads as a well-formed
    snapshot whose status is the one its row advertises, and nothing else loads. *)
Theorem pg_invariant (now : DateTime) (l : list (option string)) (db : PgDb) :
  pg_run l (db_empty now) db → 3 * Z.of_nat (length l) ≤ i32_max →
  db_wf db ∧ ∀ id,
    match db_snapshots db !! id with
    | Some r => ∃ s, pg_load_snapshot id db = (Ok s, db) ∧ snapshot_wf s ∧ instance_id s = id ∧
        c_status r = state_name (state s)
    | None => pg_load_snapshot id db = (Err (NotFound id), db)
    end.
Proof.
  intros Hrun Hlen. destruct (run_evolves l (db_empty now) db) as (Hwf & _ & _);
    [apply empty_wf|intros; rewrite version_empty; lia|done|].
  split; [done|]. intros id. destruct (db_snapshots db !! id) as [r|] eqn:Hr.
  - destruct (proj2 (view_is_Some db id Hwf)) as [s Hv]; [by eexists|]. exists s.
    split_and!; [by apply load_view|by eapply view_wf|by eapply view_id|by eapply view_status].
  - unfold pg_load_snapshot, mbind, io_bind, get_state, lift_result. cbn. by rewrite Hr.
Qed.

(** C15. Terminal snapshots are permanent: once an instance has completed, failed or
    been cancelled, no run of operations changes its stored snapshot, short of
    deleting it; only outputs of its task sidecar may still be recorded. *)
Theorem pg_terminal_permanent (now : DateTime) (l1 l2 : list (option string)) (db db' : PgDb)
    (id : string) (s : WorkflowSnapshot) :
  pg_run l1 (db_empty now) db → pg_run l2 db db' → 3 * Z.of_nat (length l1 + length l2) ≤ i32_max →
  view db id = Some s → is_terminal (state s) → Some id ∉ l2 →
  ∃ s', pg_load_snapshot id db' = (Ok s', db') ∧ strip_task_outputs s' = strip_task_outputs s.
Proof.
  intros Hrun1 Hrun2 Hlen Hv Ht Hd.
  destruct (run_evolves l1 (db_empty now) db) as (Hwf & Hver & _);
    [apply empty_wf|intros; rewrite version_empty; lia|done|].
  destruct (run_evolves l2 db db') as (Hwf' & _ & Hkept); [done| |done|].
  { intros x. specialize (Hver x). rewrite version_empty in Hver. lia. }
  specialize (Hkept id Hd s Hv Ht). destruct (view db' id) as [s'|] eqn:Hv'; [|done].
  exists s'. split; [by apply load_view|]. by injection Hkept.
Qed.

(** C16. A task result is recorded exactly once whatever the connection does: with
    attempts lost, or committed and their acknowledgement lost, [save_task_result]
    leaves the snapshot either untouched or with the result recorded once under the
    clock of one attempt; success means it was recorded with its output in the
    sidecar, an error means a fault occurred, and no other instance changes. *)
Theorem pg_result_exactly_once (faults : nat → option PgFault) (clock : nat → DateTime) (id : string)
    (t : TaskId) (o : Bytes) (db : PgDb) (s : WorkflowSnapshot) :
  db_wf db → view db id = Some s → is_in_progress (state s) → version db id + 2 < i32_max →
  let '(res, db') := save_task_result_faulty faults clock id t o db in
  db_wf db' ∧ (∀ id', id' ≠ id → view db' id' = view db id') ∧
  match res with
  | Ok _ => ∃ m, (m ≤ 2)%nat ∧ view db' id = Some (pg_recorded (clock m) t o s) ∧
      pg_load_task_result id t db' = (Ok (Some o), db')
  | Err _ => (view db' id = Some s ∨ ∃ m, (m ≤ 2)%nat ∧ view db' id = Some (pg_recorded (clock m) t o s)) ∧
      ∃ m, (m ≤ 2)%nat ∧ is_Some (faults m)
  end.
Proof.
  intros Hwf Hv Hp Hver. pose proof (retry_attempts faults clock id t o s 2 0 db Hwf Hp) as Hr.
  specialize (Hr (or_introl Hv) ltac:(lia)). unfold save_task_result_faulty, with_transient_retry, io_map_err.
  destruct (retry_from _ _ 2 0 db) as [[x|e] db']; destruct Hr as (Hwf' & Hf & Hr); split_and!; try done.
  - destruct Hr as (m & Hm & Hview & Hside). exists m. split_and!; [lia|done|].
    unfold pg_load_task_result, mbind, io_bind, fetch_task_output. unfold sidecar in Hside. by rewrite Hside.
  - destruct Hr as [[?|(m & ? & ?)] _]; [by left|right]. exists m. split; [lia|done].
  - destruct Hr as [_ (m & ? & ?)]. exists m. split; [lia|done].
Qed.
(** C19. The single-transaction composites refine the interface's default ones: on a
    well-formed database [check_and_cancel], [check_and_pause] and [unpause] answer
    as the defaults do (the snapshot [unpause] returns lacks its outputs and trace
    context) and leave the same snapshots and signals, and [check_control_signals]
    is the default body. *)
Theorem pg_composites_refine (now : DateTime) (id : string) (at_ : option TaskId) (db : PgDb) :
  db_wf db → headroom db id → (∀ s, view db id = Some s → payload_fits (mark_unpaused now s)) →
  ((pg_check_and_cancel now id at_ db).1 = (default_check_and_cancel now id at_ db).1 ∧
   same_store (pg_check_and_cancel now id at_ db).2 (default_check_and_cancel now id at_ db).2) ∧
  ((pg_check_and_pause now id db).1 = (default_check_and_pause now id db).1 ∧
   same_store (pg_check_and_pause now id db).2 (default_check_and_pause now id db).2) ∧
  ((pg_unpause now id db).1 =
     ((λ s, strip_task_outputs (with_trace_parent None s)) <$> (default_unpause now id db).1) ∧
   same_store (pg_unpause now id db).2 (default_unpause now id db).2) ∧
  pg_check_control_signals now id at_ db = check_control_signals now id at_ db.
Proof.
  intros Hwf Hroom Hfit. split; [by apply cancel_refines|]. split; [by apply pause_refines|].
  split; [by apply unpause_refines|apply control_signals_default].
Qed.

(** *** Exclusive claims *)

Lemma holds_owned id t w t' w' db :
  holds_claim id t w db → (t', w') ≠ (t, w) → owned_claim db id t' w' = None.
Proof.
  intros Hh Hne. rewrite holds_claim_eq in Hh. unfold owned_claim. destruct (db_claims db !! id) as [c|]; [|done].
  apply Is_true_true, andb_true_iff in Hh as [[Hw%bool_decide_eq_true Ht%bool_decide_eq_true]%andb_true_iff _].
  destruct (bool_decide (k_worker_id c = w') && bool_decide (k_task_id c = id_bytes t')) eqn:E; [|done].
  apply andb_true_iff in E as [Hw'%bool_decide_eq_true Ht'%bool_decide_eq_true]. destruct Hne.
  f_equal; [apply id_bytes_inj|]; congruence.
Qed.
Lemma holds_claimed id t w db : holds_claim id t w db → claimed db id.
Proof. rewrite holds_claim_eq. unfold claimed. destruct (db_claims db !! id); [|done]. by intros []%andb_prop_elim. Qed.

(** C20. Claims are exclusive: while a worker holds the live claim of an instance, it is
    the only holder; any other attempt to claim it is turned away, and another
    worker's release, renewal or fenced save of it changes nothing.  A granted claim
    is held from then on, unless it had expired by the server's clock already. *)
Theorem pg_claim_exclusive (id : string) (t : TaskId) (w : string) (db : PgDb) :
  db_wf db → holds_claim id t w db →
  (∀ now t' w' ttl, pg_claim_task now id t' w' ttl db = (Ok None, db)) ∧
  (∀ t' w', (t', w') ≠ (t, w) → ¬ holds_claim id t' w' db ∧
    (∃ e, pg_release_task_claim id t' w' db = (Err e, db)) ∧
    (∀ ttl, ∃ e, pg_extend_task_claim id t' w' ttl db = (Err e, db)) ∧
    ∀ s, instance_id s = id → pg_save_snapshot_fenced s t' w' db = (Ok (false, s), db)) ∧
  (∀ now id' t' w' ttl c db', pg_claim_task now id' t' w' ttl db = (Ok (Some c), db') →
    id' ≠ id ∧ holds_claim id t w db' ∧
    holds_claim id' t' w' db' = match pg_timestamp <$> (ttl ≫= checked_add_signed now) with
                                | Some e => bool_decide (db_now db < e) | None => true end).
Proof.
  intros Hwf Hh. pose proof (holds_claimed _ _ _ _ Hh) as Hcl. split_and!.
  - intros now t' w' ttl. rewrite claim_task_spec. rewrite holds_claim_eq in Hh.
    destruct (db_claims db !! id) as [c|] eqn:Hc; [|done]. destruct (claim_stored _ _ _ Hwf Hc) as [r ->].
    apply Is_true_true in Hcl. by rewrite Hcl, andb_false_r.
  - intros t' w' Hne. pose proof (holds_owned _ _ _ _ _ _ Hh Hne) as Hown.
    destruct (disambiguate_error db id t' w' Hown) as (e & He & _).
    assert (¬ holds_claim id t' w' db) as Hno.
    { intros Hh'. destruct (holder_unique _ _ _ _ _ _ Hh Hh'). congruence. }
    split_and!; [done|exists e; by rewrite release_spec, Hown, He| |].
    + intros ttl. unfold pg_extend_task_claim, mbind, io_bind, lift_result, get_state.
      destruct (map_err _ _) as [i|e']; [|by eexists]. rewrite Hown, He. by eexists.
    + intros s <-. unfold pg_save_snapshot_fenced, transaction, mbind, io_bind, get_state.
      by destruct (holds_claim (instance_id s) t' w' db).
  - intros now id' t' w' ttl c db' Hg. destruct (claim_granted _ _ _ _ _ _ _ _ Hg) as (Hun & Hrow & _).
    assert (id' ≠ id) as Hne by (intros ->; apply Is_true_true in Hcl; congruence).
    pose proof (claim_changes_claims now id' t' w' ttl db) as Hdb. rewrite Hg in Hdb. cbn in Hdb.
    split_and!; [done| |].
    + rewrite claim_task_spec in Hg. destruct (db_snapshots db !! id'); [|done]. case_match; [|done].
      cbn in Hg. injection Hg as <- <-. rewrite holds_claim_eq in *. cbn. by rewrite lookup_insert_ne.
    + rewrite holds_claim_eq, Hrow, Hdb. cbn. by rewrite !bool_decide_true by done.
Qed.

(** *** The event queues *)

Definition queue (db : PgDb) (id name : string) : list Bytes :=
  ev_payload <$> List.filter (of_queue id name) (db_events db).

Lemma pop_first_spec p l :
  let '(r, l') := pop_first p l in
  r = head (List.filter p l) ∧ List.filter p l' = tail (List.filter p l) ∧
  ∀ q, (∀ e, p e → q e = false) → List.filter q l' = List.filter q l.
Proof.
  induction l as [|e l IH]; cbn; [done|]. destruct (p e) eqn:E; cbn.
  - split_and!; [done..|]. intros q Hq. by rewrite Hq by (by rewrite E).
  - destruct (pop_first p l) as [r l']. destruct IH as (-> & Hl & Hq). cbn. rewrite E. split_and!; [done..|].
    intros q Hpq. by rewrite (Hq q Hpq).
Qed.
Lemma of_queue_disjoint id name id' name' e :
  (id', name') ≠ (id, name) → of_queue id name e → of_queue id' name' e = false.
Proof.
  unfold of_queue. intros Hne [<-%bool_decide_spec <-%bool_decide_spec]%andb_prop_elim.
  apply andb_false_iff. repeat case_bool_decide; subst; naive_solver.
Qed.
Lemma queue_insert id name payload db id' name' :
  queue (insert_event id name payload db) id' name' =
  queue db id' name' ++ if bool_decide ((id', name') = (id, name)) then [payload] else [].
Proof.
  unfold queue, insert_event. cbn. rewrite List.filter_app, fmap_app. f_equal. cbn. unfold of_queue. cbn.
  repeat case_bool_decide; simplify_eq; done || naive_solver.
Qed.

(** C21. Events are delivered: an event sent to an instance parked at its signal resumes
    it in the same transaction, recording the payload as the signal's output and
    moving on (or completing), and is not queued; any other event joins the end of
    its queue and changes no snapshot; [consume_event] takes the oldest event of its
    queue and leaves the other queues alone. *)
Theorem pg_event_delivery (now : DateTime) (id name : string) (payload : Bytes) (db : PgDb) :
  db_wf db → headroom db id →
  (∀ s sid next, view db id = Some s → signal_resume_target s name = Some (sid, next) →
     payload_fits (resumed now payload sid next s)) →
  (∃ db', send_event_at now id name payload db = (Ok (), db') ∧ db_wf db' ∧
    (∀ id', id' ≠ id → view db' id' = view db id') ∧
    match view db id ≫= λ s, signal_resume_target s name with
    | Some (sid, next) =>
        view db' id = (λ s, with_output_unflushed false (resumed now payload sid next s)) <$> view db id ∧
        pg_load_task_result id sid db' = (Ok (Some payload), db') ∧ db_events db' = db_events db
    | None =>
        view db' id = view db id ∧ ∀ id' name', queue db' id' name' =
          queue db id' name' ++ if bool_decide ((id', name') = (id, name)) then [payload] else []
    end) ∧
  ∃ db', pg_consume_event id name db = (Ok (head (queue db id name)), db') ∧
    queue db' id name = tail (queue db id name) ∧ (∀ id', view db' id' = view db id') ∧
    ∀ id' name', (id', name') ≠ (id, name) → queue db' id' name' = queue db id' name'.
Proof.
  intros Hwf Hroom Hfit. split.
  - destruct (view db id ≫= λ s, signal_resume_target s name) as [[sid next]|] eqn:Htgt.
    + destruct (view db id) as [s|] eqn:Hv; [|done]. cbn in Htgt.
      destruct (send_resumes now id name payload db s sid next) as (db' & Heq & (Hwf' & Hv' & Hf & _) & Hev & _ & Hside);
        [by eauto..|]. exists db'. split_and!; try done.
      unfold pg_load_task_result, mbind, io_bind, fetch_task_output. unfold sidecar in Hside. by rewrite Hside.
    + exists (insert_event id name payload db). rewrite send_buffers; [|done|].
      * split_and!; [done|by apply events_wf|intros; by apply view_frame|by apply view_frame|].
        intros. apply queue_insert.
      * intros s Hv. by rewrite Hv in Htgt.
  - unfold pg_consume_event. pose proof (pop_first_spec (of_queue id name) (db_events db)) as Hp.
    destruct (pop_first _ _) as [r l']. destruct Hp as (-> & Hl & Hq). eexists. split; [|split_and!].
    + unfold queue. destruct (List.filter _ (db_events db)); reflexivity.
    + unfold queue. cbn. rewrite Hl. destruct (List.filter _ (db_events db)); reflexivity.
    + intros id'. by apply view_frame.
    + intros id' name' Hne. unfold queue. cbn. rewrite Hq; [done|]. intros e. by apply of_queue_disjoint.
Qed.
(** *** Parking at a delay *)

(** What the worker's commit of task [t] does to a snapshot before its save when a
    delay follows: the task's result, the routing hint, the position, and the
    delay's own result, which carries the output through. *)
Definition commit_into_delay (now : DateTime) (t d : TaskId) (o : Bytes) (wake_at : DateTime)
    (next : option TaskId) (hint : TaskHint) (s : WorkflowSnapshot) : WorkflowSnapshot :=
  let s := mark_task_completed now t o s in
  let s := update_position now (AtDelay d now wake_at next) (set_task_hint hint s) in
  mark_task_completed now d (default [] (get_last_task_output s)) s.

Lemma commit_into_delay_state now t d o wake next hint s pos completed last :
  state s = InProgress pos completed last →
  state (commit_into_delay now t d o wake next hint s) =
    InProgress (AtDelay d now wake next)
      (<[d := MkTaskResult d o]> (<[t := MkTaskResult t o]> completed)) (Some d) ∧
  output_unflushed (commit_into_delay now t d o wake next hint s) = true.
Proof.
  intros Hst. unfold commit_into_delay, mark_task_completed, update_position, set_task_hint, get_last_task_output.
  rewrite Hst. cbn. by rewrite lookup_insert_eq.
Qed.

(** The output of a task followed by a delay is lost: the commit marks both the
    task and the delay, and the save flushes the output of the last one only, so the
    stored snapshot has the task completed with an empty output, which is what
    fetching its result then returns. *)
Theorem pg_delay_drops_output (now : DateTime) (t d : TaskId) (o : Bytes) (wake_at : DateTime)
    (next : option TaskId) (hint : TaskHint) (s : WorkflowSnapshot) (db : PgDb) :
  db_wf db → view db (instance_id s) = Some s → is_in_progress (state s) → headroom db (instance_id s) →
  t ≠ d → sidecar (rows_of (db_tasks db) (instance_id s)) t = None →
  ∃ s' db', pg_save_snapshot (commit_into_delay now t d o wake_at next hint s) db = (Ok s', db') ∧
    get_task_result_bytes t s' = Some o ∧
    pg_load_task_result (instance_id s) t db' = (Ok (Some []), db') ∧
    pg_load_task_result (instance_id s) d db' = (Ok (Some o), db').
Proof.
  intros Hwf Hv Hp Hroom Hne Hside. set (s2 := commit_into_delay now t d o wake_at next hint s).
  assert (∃ pos completed last, state s = InProgress pos completed last) as (pos & completed & last & Hst).
  { destruct (state s); try done. eauto. }
  destruct (commit_into_delay_state now t d o wake_at next hint s pos completed last Hst) as [Hs2 Hflag].
  assert (keeps_ok (commit_into_delay now t d o wake_at next hint)) as Hok.
  { intros k x Hx. unfold commit_into_delay. apply mark_task_completed_ok, update_position_ok.
    by apply (mark_task_completed_ok now t o k x) in Hx. }
  destruct (kept _ s Hok (view_wf _ _ _ Hwf Hv)) as [Hw2 Hid2]. fold s2 in Hw2, Hid2, Hs2, Hflag.
  assert (¬ terminal_row db (instance_id s)) as Hlive.
  { rewrite (terminal_row_view db _ s Hwf Hv). rewrite live_in_progress; done. }
  assert (payload_fits s2) as Hfit.
  { intros p. unfold build_task_ready_payload, current_task_id. by rewrite Hs2. }
  destruct (save_writes db s2) as (db' & r' & h' & data & Heq & Hw & Hd & Hm & Hver & Htp & Htasks & _);
    rewrite ?Hid2; try done.
  destruct (fresh_version db (instance_id s) Hwf) as [Hfr Hge]. rewrite Hid2 in *.
  destruct (write_wf db db' s2 data r' h' (instance_id s)) as (Hwf' & Hview & _); rewrite ?Hver; try done.
  pose proof (save_task_arms_spec (db_now db) (current_task_id s2) (is_terminal (state s2)) (terminal_status s2)
    (error_message s2) (flushed s2) (x ← flushed s2; tr_output <$> get_task_result x s2)
    _ (wf_tasks _ Hwf (instance_id s))) as [_ Hsc]. fold (saved_tasks (db_now db) s2) in Hsc.
  assert (flushed s2 = Some d) as Hfl by (unfold flushed, last_completed_task_id; by rewrite Hflag, Hs2).
  assert (∀ x, sidecar (rows_of (db_tasks db') (instance_id s)) x =
    if bool_decide (x = d) then Some o else sidecar (rows_of (db_tasks db) (instance_id s)) x) as Hside'.
  { intros x. rewrite Htasks. unfold saved_tasks. rewrite Hsc, Hfl. cbn. unfold get_task_result. rewrite Hs2.
    rewrite lookup_insert_eq. repeat case_bool_decide; naive_solver. }
  exists (with_output_unflushed false s2), db'. split_and!; [done| | |].
  - unfold get_task_result_bytes, get_task_result. cbn. rewrite Hs2, lookup_insert_ne, lookup_insert_eq by done. done.
  - unfold pg_load_task_result, mbind, io_bind, fetch_task_output.
    fold (sidecar (rows_of (db_tasks db') (instance_id s)) t). rewrite Hside', bool_decide_false, Hside by done.
    rewrite (load_view _ _ _ Hwf' Hview). unfold view_of, get_task_result_bytes. rewrite get_hydrated.
    rewrite Hside', bool_decide_false, Hside by done.
    change (get_task_result t (with_trace_parent (c_trace_parent r') (stored_form s2)))
      with (get_task_result t (strip_task_outputs s2)).
    rewrite get_stripped. unfold get_task_result. rewrite Hs2, lookup_insert_ne, lookup_insert_eq by done. done.
  - unfold pg_load_task_result, mbind, io_bind, fetch_task_output.
    fold (sidecar (rows_of (db_tasks db') (instance_id s)) d). by rewrite Hside', bool_decide_true.
Qed.
End Guarantees.
