(* ===== verification/PostgresWakeup.v ===== *)
(** * The Postgres backend: the wake-up listener ([sayiir-postgres/src/wakeup.rs])

    One listener task and any number of [wait] callers share a bounded channel and
    the set of pending keys.  Their atomic actions (a channel operation, or an
    update of the set under its lock) interleave freely; the connection and its
    reconnection decide only which notifications arrive.  The channel is bounded, every
    hint is accounted for, and the hints under way settle. *)

From S2P Require Import Prelude Hash32 Task Workflow Snapshot Backend InMemory ClaimStore.

Definition PendingKey : Type := string * Hash32.
Definition pending_key (h : TaskWakeupHint) : PendingKey := (hint_instance_id h, hint_task_id h).
Definition WAKEUP_CHANNEL_CAPACITY : Z := 16384.   (* usize *)

(** The listener between two actions: it has decoded a fresh hint, or its send was
    refused, by a full channel or by one without receivers. *)
Inductive ListenerState : Type :=
| Receiving
| Sending (hint : TaskWakeupHint)
| Retracting (hint : TaskWakeupHint) (full : bool).

(** [wl_in_hand]: hints a [wait] call has taken off the channel and not returned yet;
    [wl_returned] and [wl_dropped] record what happened to the hints, a dropped one
    with whether the channel was full ([true]) or had no receiver ([false]). *)
Record Wakeups : Type := MkWakeups {
  wl_queue : list TaskWakeupHint;
  wl_pending : gset PendingKey;
  wl_listener : ListenerState;
  wl_in_hand : list TaskWakeupHint;
  wl_connected : bool;               (* some receiver is alive *)
  wl_drops : Z;                      (* [WAKEUP_DROPS], an [AtomicU64] *)
  wl_returned : list TaskWakeupHint;
  wl_dropped : list (PendingKey * bool)
}.
Definition wakeups_spawn (drops : Z) : Wakeups := MkWakeups [] ∅ Receiving [] true drops [] [].

Section Listener.
Context `{HintCodec}.

(** [recv_until_error], one notification: decode, and insert the key. *)
Definition on_notification (payload : string) (s : Wakeups) : Wakeups :=
  match hint_decode payload with
  | Err _ => s
  | Ok hint =>
      if bool_decide (pending_key hint ∈ wl_pending s) then s
      else MkWakeups (wl_queue s) ({[pending_key hint]} ∪ wl_pending s) (Sending hint) (wl_in_hand s)
        (wl_connected s) (wl_drops s) (wl_returned s) (wl_dropped s)
  end.

(** [tx.try_send(hint)]. *)
Definition try_send (hint : TaskWakeupHint) (s : Wakeups) : Wakeups :=
  let with_listener queue l := MkWakeups queue (wl_pending s) l (wl_in_hand s) (wl_connected s)
    (wl_drops s) (wl_returned s) (wl_dropped s) in
  if negb (wl_connected s) then with_listener (wl_queue s) (Retracting hint false)
  else if bool_decide (WAKEUP_CHANNEL_CAPACITY ≤ Z.of_nat (length (wl_queue s)))
  then with_listener (wl_queue s) (Retracting hint true)
  else with_listener (wl_queue s ++ [hint]) Receiving.

(** The error arm: the key leaves the set again; a full channel is counted. *)
Definition retract (hint : TaskWakeupHint) (full : bool) (s : Wakeups) : Wakeups :=
  MkWakeups (wl_queue s) (wl_pending s ∖ {[pending_key hint]}) Receiving (wl_in_hand s) (wl_connected s)
    (if full then (wl_drops s + 1) mod 2 ^ 64 else wl_drops s) (wl_returned s)
    (wl_dropped s ++ [(pending_key hint, full)]).

(** [wait]: take a hint off the channel, remove its key, return it. *)
Definition wait_recv (hint : TaskWakeupHint) (rest : list TaskWakeupHint) (s : Wakeups) : Wakeups :=
  MkWakeups rest (wl_pending s) (wl_listener s) (hint :: wl_in_hand s) (wl_connected s) (wl_drops s)
    (wl_returned s) (wl_dropped s).
Definition wait_return (hint : TaskWakeupHint) (in_hand : list TaskWakeupHint) (s : Wakeups) : Wakeups :=
  MkWakeups (wl_queue s) (wl_pending s ∖ {[pending_key hint]}) (wl_listener s) in_hand (wl_connected s)
    (wl_drops s) (wl_returned s ++ [hint]) (wl_dropped s).

Inductive wakeup_step : Wakeups → Wakeups → Prop :=
| ws_notify payload s : wl_listener s = Receiving → wakeup_step s (on_notification payload s)
| ws_send hint s : wl_listener s = Sending hint → wakeup_step s (try_send hint s)
| ws_retract hint full s : wl_listener s = Retracting hint full → wakeup_step s (retract hint full s)
| ws_recv hint rest s : wl_queue s = hint :: rest → wl_connected s → wakeup_step s (wait_recv hint rest s)
| ws_return l1 hint l2 s :
    wl_in_hand s = l1 ++ hint :: l2 → wakeup_step s (wait_return hint (l1 ++ l2) s)
| ws_drop s : wakeup_step s (MkWakeups (wl_queue s) (wl_pending s) (wl_listener s) (wl_in_hand s) false
    (wl_drops s) (wl_returned s) (wl_dropped s)).

(** The hints under way, and the invariant: the pending set holds exactly their keys,
    each once, and the channel is within its capacity. *)
Definition listener_hints (l : ListenerState) : list TaskWakeupHint :=
  match l with Receiving => [] | Sending h | Retracting h _ => [h] end.
Definition under_way (s : Wakeups) : list TaskWakeupHint :=
  wl_queue s ++ wl_in_hand s ++ listener_hints (wl_listener s).
Record wakeups_inv (s : Wakeups) : Prop := {
  wi_pending : ∀ k, k ∈ wl_pending s ↔ k ∈ map pending_key (under_way s);
  wi_distinct : NoDup (map pending_key (under_way s));
  wi_capacity : Z.of_nat (length (wl_queue s)) ≤ WAKEUP_CHANNEL_CAPACITY
}.

Lemma inv_perm s s' :
  under_way s' ≡ₚ under_way s → wl_pending s' = wl_pending s →
  Z.of_nat (length (wl_queue s')) ≤ WAKEUP_CHANNEL_CAPACITY → wakeups_inv s → wakeups_inv s'.
Proof.
  intros Hp Hk Hc [Hpk Hnd _]. apply (Permutation_map pending_key) in Hp. split; [|by rewrite Hp|done].
  intros k. rewrite Hk, Hp. apply Hpk.
Qed.
Lemma inv_add s s' h :
  under_way s' ≡ₚ h :: under_way s → wl_pending s' = {[pending_key h]} ∪ wl_pending s →
  pending_key h ∉ wl_pending s → wl_queue s' = wl_queue s → wakeups_inv s → wakeups_inv s'.
Proof.
  intros Hp Hk Hn Hq [Hpk Hnd Hc]. apply (Permutation_map pending_key) in Hp. cbn in Hp. split; [| |by rewrite Hq].
  - intros k. rewrite Hk, Hp, elem_of_cons, elem_of_union, elem_of_singleton. by rewrite Hpk.
  - rewrite Hp. constructor; [by rewrite <-Hpk|done].
Qed.
Lemma inv_remove s s' h :
  under_way s ≡ₚ h :: under_way s' → wl_pending s' = wl_pending s ∖ {[pending_key h]} →
  wl_queue s' = wl_queue s → wakeups_inv s → wakeups_inv s'.
Proof.
  intros Hp Hk Hq [Hpk Hnd Hc]. apply (Permutation_map pending_key) in Hp. cbn in Hp.
  rewrite Hp in Hnd. apply NoDup_cons in Hnd as [Hh Hnd]. split; [|done|by rewrite Hq].
  intros k. rewrite Hk, elem_of_difference, elem_of_singleton, Hpk, Hp, elem_of_cons. naive_solver.
Qed.

Lemma spawn_inv drops : wakeups_inv (wakeups_spawn drops).
Proof. split; cbn; [set_solver|constructor|done]. Qed.

Lemma wakeup_step_inv s s' : wakeups_inv s → wakeup_step s s' → wakeups_inv s'.
Proof.
  intros Hinv Hstep. pose proof (wi_capacity _ Hinv) as Hcap.
  destruct Hstep as [payload s Hl|h s Hl|h full s Hl|h rest s Hq _|l1 h l2 s Hi|s].
  - unfold on_notification. destruct (hint_decode payload) as [h|]; [|done]. case_bool_decide as Hin; [done|].
    apply (inv_add s _ h); try done. unfold under_way. cbn. rewrite Hl. cbn. by solve_Permutation.
  - unfold try_send. destruct (wl_connected s); cbn [negb].
    + case_bool_decide as Hfull.
      * apply (inv_perm s); try done. unfold under_way. cbn. by rewrite Hl.
      * apply (inv_perm s); try done; cbn.
        -- unfold under_way. cbn. rewrite Hl. cbn. rewrite app_nil_r. by solve_Permutation.
        -- rewrite length_app. cbn. unfold WAKEUP_CHANNEL_CAPACITY in *. lia.
    + apply (inv_perm s); try done. unfold under_way. cbn. by rewrite Hl.
  - apply (inv_remove s _ h); try done. unfold under_way. cbn. rewrite Hl. cbn. by solve_Permutation.
  - apply (inv_perm s); try done; [|cbn; rewrite Hq in Hcap; cbn in Hcap; lia].
    unfold under_way. cbn. rewrite Hq. cbn. by solve_Permutation.
  - apply (inv_remove s _ h); try done. unfold under_way. cbn. rewrite Hi. by solve_Permutation.
  - by apply (inv_perm s).
Qed.

(** *** Every hint is returned or dropped *)

(** Key [k] is under way, or was returned or dropped after the first [nr] and [nd]. *)
Definition accounted (k : PendingKey) (nr nd : nat) (s : Wakeups) : Prop :=
  (nr ≤ length (wl_returned s))%nat ∧ (nd ≤ length (wl_dropped s))%nat ∧
  (k ∈ map pending_key (under_way s) ∨ k ∈ map pending_key (drop nr (wl_returned s)) ∨ k ∈ (drop nd (wl_dropped s)).*1).

Lemma under_way_grows k s s' :
  (∀ h, h ∈ under_way s → h ∈ under_way s') → k ∈ map pending_key (under_way s) → k ∈ map pending_key (under_way s').
Proof. intros Hs (h & -> & Hh)%list_elem_of_fmap. apply list_elem_of_fmap. eauto. Qed.

Lemma accounted_step k nr nd s s' : accounted k nr nd s → wakeup_step s s' → accounted k nr nd s'.
Proof.
  intros (Hnr & Hnd & Hk) Hstep.
  assert (∀ s', wl_returned s' = wl_returned s → wl_dropped s' = wl_dropped s →
    (∀ h, h ∈ under_way s → h ∈ under_way s') → accounted k nr nd s') as Hmore.
  { intros x Hr Hd Hu. unfold accounted. rewrite Hr, Hd. split_and!; try done.
    destruct Hk as [Hk|Hk]; [left|by right]. by eapply under_way_grows. }
  destruct Hstep as [payload s Hl|h s Hl|h full s Hl|h rest s Hq _|l1 h l2 s Hi|s].
  - unfold on_notification. destruct (hint_decode payload) as [h|]; [|by apply Hmore]. case_bool_decide; [by apply Hmore|].
    apply Hmore; try done. intros x. unfold under_way. cbn. rewrite Hl. cbn. rewrite !elem_of_app. set_solver.
  - unfold try_send. destruct (negb _); [|case_bool_decide]; apply Hmore; try done; intros x; unfold under_way; cbn;
      rewrite Hl; cbn; rewrite !elem_of_app; set_solver.
  - split; [done|]. unfold accounted. cbn. rewrite length_app. split; [lia|].
    destruct Hk as [Hk|[Hk|Hk]]; [|by right; left|right; right; rewrite drop_app_le, fmap_app by done; apply elem_of_app; by left].
    destruct (decide (k = pending_key h)) as [->|Hne].
    + right; right. rewrite drop_app_le, fmap_app by done. apply elem_of_app. right. constructor.
    + left. apply list_elem_of_fmap in Hk as (x & -> & Hx). apply list_elem_of_fmap. exists x. split; [done|].
      unfold under_way in *. cbn. rewrite Hl in Hx. cbn in Hx. rewrite !elem_of_app, list_elem_of_singleton in *. naive_solver.
  - apply Hmore; try done. intros x. unfold under_way. cbn. rewrite Hq, !elem_of_app, !elem_of_cons, !elem_of_app. tauto.
  - unfold accounted. cbn. rewrite length_app. split; [lia|]. split; [done|].
    destruct Hk as [Hk|[Hk|Hk]]; [|right; left; rewrite drop_app_le by done; rewrite List.map_app; apply elem_of_app; by left|by right; right].
    destruct (decide (k = pending_key h)) as [->|Hne].
    + right; left. rewrite drop_app_le by done. rewrite List.map_app. apply elem_of_app. right. constructor.
    + left. apply list_elem_of_fmap in Hk as (x & -> & Hx). apply list_elem_of_fmap. exists x. split; [done|].
      unfold under_way in *. cbn. rewrite Hi in Hx. rewrite !elem_of_app, !elem_of_cons in Hx. rewrite !elem_of_app.
      naive_solver.
  - by apply Hmore.
Qed.

(** The counter has the drops at a full channel, and no other: a drop without a
    receiver is silent. *)
Record drops_inv (d0 : Z) (s : Wakeups) : Prop := {
  di_counted : wl_drops s = (d0 + Z.of_nat (length (filter (λ d, d.2 = true) (wl_dropped s)))) mod 2 ^ 64;
  di_silent : ∀ k, (k, false) ∈ wl_dropped s → wl_connected s = false;
  di_full : wl_connected s → ∀ h, wl_listener s ≠ Retracting h false
}.
Lemma wakeup_step_drops d0 s s' : drops_inv d0 s → wakeup_step s s' → drops_inv d0 s'.
Proof.
  intros [Hc Hn Hf] Hstep. destruct Hstep as [payload s Hl|h s Hl|h full s Hl|h rest s Hq _|l1 h l2 s Hi|s]; try done.
  - unfold on_notification. destruct (hint_decode payload); [|done]. by case_bool_decide.
  - unfold try_send. destruct (wl_connected s) eqn:E; cbn; [case_bool_decide|]; split; cbn; rewrite ?E; done || auto.
  - split; cbn -[Z.modulo Z.pow]; [| |done].
    + rewrite filter_app, Hc. destruct full; cbn -[Z.modulo Z.pow].
      * rewrite Zplus_mod_idemp_l, length_app. f_equal. rewrite decide_True by done. cbn. lia.
      * by rewrite app_nil_r.
    + intros k [Hk|[= _ <-]%list_elem_of_singleton]%elem_of_app; [by eapply Hn|].
      destruct (wl_connected s) eqn:E; [|done]. by destruct (Hf I h).
Qed.

(** *** Draining

    The steps the listener and the waiters take by themselves: all but the arrival of
    a notification and the departure of the last receiver. *)
Inductive drain_step : Wakeups → Wakeups → Prop :=
| ds_send hint s : wl_listener s = Sending hint → drain_step s (try_send hint s)
| ds_retract hint full s : wl_listener s = Retracting hint full → drain_step s (retract hint full s)
| ds_recv hint rest s : wl_queue s = hint :: rest → wl_connected s → drain_step s (wait_recv hint rest s)
| ds_return l1 hint l2 s :
    wl_in_hand s = l1 ++ hint :: l2 → drain_step s (wait_return hint (l1 ++ l2) s).

Lemma drain_is_step s s' : drain_step s s' → wakeup_step s s' ∧ wl_connected s' = wl_connected s.
Proof.
  destruct 1; split; try by econstructor. unfold try_send.
  destruct (wl_connected s) eqn:E; cbn; [case_bool_decide|]; done.
Qed.

(** Work left: a send, a receive and a return per hint at most. *)
Definition drain_work (s : Wakeups) : nat :=
  2 * length (wl_queue s) + length (wl_in_hand s) +
  match wl_listener s with Receiving => 0 | Sending _ => 3 | Retracting _ _ => 1 end.
Lemma drain_decreases s s' : drain_step s s' → (S (drain_work s') ≤ drain_work s)%nat.
Proof.
  unfold drain_work. destruct 1 as [h s Hl|h full s Hl|h rest s Hq _|l1 h l2 s Hi]; cbn.
  - unfold try_send. rewrite Hl.
    destruct (wl_connected s); cbn; [case_bool_decide|]; cbn; rewrite ?length_app; cbn; lia.
  - rewrite Hl. lia.
  - rewrite Hq. cbn. lia.
  - rewrite Hi, !length_app. cbn. lia.
Qed.
Lemma drain_bound n s s' : nsteps drain_step n s s' → (n + drain_work s' ≤ drain_work s)%nat.
Proof. induction 1 as [|n s1 s2 s3 Hs _ IH]; [done|]. apply drain_decreases in Hs. lia. Qed.
Lemma drain_work_le s : (drain_work s ≤ 3 * length (under_way s))%nat.
Proof. unfold drain_work, under_way. rewrite !length_app. destruct (wl_listener s); cbn; lia. Qed.
Lemma drained s : wl_connected s → nf drain_step s → under_way s = [].
Proof.
  intros Hc Hnf. unfold under_way. destruct (wl_queue s) as [|h q] eqn:Hq.
  - destruct (wl_in_hand s) as [|h l] eqn:Hi.
    + destruct (wl_listener s) eqn:Hl; [done|..]; destruct Hnf; eexists; by constructor.
    + destruct Hnf. eexists. by apply (ds_return [] h l).
  - destruct Hnf. eexists. by eapply ds_recv.
Qed.
Lemma drain_connected n s s' : nsteps drain_step n s s' → wl_connected s' = wl_connected s.
Proof. induction 1 as [|n s1 s2 s3 Hs _ IH]; [done|]. by destruct (drain_is_step _ _ Hs) as [_ <-]. Qed.

Definition wakeup_run : Wakeups → Wakeups → Prop := rtc wakeup_step.

Lemma run_keeps d0 s s' :
  wakeups_inv s → drops_inv d0 s → wakeup_run s s' → wakeups_inv s' ∧ drops_inv d0 s'.
Proof. intros Hi Hd Hrun. induction Hrun; [done|]. eauto using wakeup_step_inv, wakeup_step_drops. Qed.
Lemma run_invs d0 s : 0 ≤ d0 < 2 ^ 64 → wakeup_run (wakeups_spawn d0) s → wakeups_inv s ∧ drops_inv d0 s.
Proof.
  intros Hd. apply run_keeps; [apply spawn_inv|]. split; cbn -[Z.modulo Z.pow]; [|by intros k ?%elem_of_nil|done].
  rewrite Z.add_0_r. symmetry. by apply Z.mod_small.
Qed.
Lemma run_accounted k nr nd s s' : accounted k nr nd s → wakeup_run s s' → accounted k nr nd s'.
Proof. intros Ha Hrun. induction Hrun; [done|]. by eauto using accounted_step. Qed.

Lemma pending_size s : wakeups_inv s → size (wl_pending s) = length (under_way s).
Proof.
  intros Hi. transitivity (size (list_to_set (map pending_key (under_way s)) : gset PendingKey)).
  - f_equal. apply set_eq. intros k. rewrite elem_of_list_to_set. apply Hi.
  - rewrite size_list_to_set by apply Hi. by rewrite List.length_map.
Qed.
Lemma drain_run n s s' : nsteps drain_step n s s' → wakeup_run s s'.
Proof. induction 1 as [|n s1 s2 s3 Hs _ IH]; [done|]. eapply rtc_l; [by apply drain_is_step|done]. Qed.

(** C22. What becomes of a wake-up in the listener.  Take any interleaving of the
    listener, the waiters, further notifications and the departure of the receivers
    after a well-formed notification was taken up.  The channel never exceeds its
    capacity, the pending set has one key per hint under way, and the drop counter
    has exactly the drops at a full channel; a drop without a receiver is silent,
    and none is made while some receiver is alive.  At any time a hint for the task
    is under way, was returned by a [wait] since, or was dropped since.  And the
    hints under way settle: the listener and the waiters, left to themselves, take
    at most three steps per hint under way, and when they can take no further step
    while some receiver is alive, a hint for the task has been returned, or dropped
    at a full channel and counted. *)
Theorem wakeup_not_lost (d0 : Z) (s s' : Wakeups) (payload : string) (hint : TaskWakeupHint) :
  0 ≤ d0 < 2 ^ 64 → wakeup_run (wakeups_spawn d0) s → wl_listener s = Receiving → hint_decode payload = Ok hint →
  wakeup_run (on_notification payload s) s' →
  Z.of_nat (length (wl_queue s')) ≤ WAKEUP_CHANNEL_CAPACITY ∧ size (wl_pending s') = length (under_way s') ∧
  wl_drops s' = (d0 + Z.of_nat (length (filter (λ d, d.2 = true) (wl_dropped s')))) mod 2 ^ 64 ∧
  (∀ k, (k, false) ∈ wl_dropped s' → wl_connected s' = false) ∧
  (pending_key hint ∈ map pending_key (under_way s') ∨
   pending_key hint ∈ map pending_key (drop (length (wl_returned s)) (wl_returned s')) ∨
   pending_key hint ∈ (drop (length (wl_dropped s)) (wl_dropped s')).*1) ∧
  ∀ n s'', nsteps drain_step n s' s'' →
    (n ≤ 3 * length (under_way s'))%nat ∧
    (wl_connected s' → nf drain_step s'' →
      pending_key hint ∈ map pending_key (drop (length (wl_returned s)) (wl_returned s'')) ∨
      (pending_key hint, true) ∈ drop (length (wl_dropped s)) (wl_dropped s'')).
Proof.
  intros Hd Hrun Hl Hdec Hrun'.
  assert (wakeup_run (wakeups_spawn d0) s') as Hrun2.
  { etransitivity; [exact Hrun|]. eapply rtc_l; [by apply (ws_notify payload)|done]. }
  destruct (run_invs d0 s' Hd Hrun2) as [Hinv' Hdrops]. destruct (run_invs d0 s Hd Hrun) as [Hinv _].
  assert (accounted (pending_key hint) (length (wl_returned s)) (length (wl_dropped s)) (on_notification payload s)) as Ha.
  { unfold on_notification. rewrite Hdec. case_bool_decide as Hin; split_and!; try done; left.
    - by apply (wi_pending _ Hinv).
    - apply list_elem_of_fmap. exists hint. split; [done|]. unfold under_way. cbn. rewrite !elem_of_app. set_solver. }
  pose proof (run_accounted _ _ _ _ _ Ha Hrun') as Hacc.
  split_and!; [apply Hinv'|by apply pending_size|apply Hdrops|apply Hdrops|apply Hacc|].
  intros n s'' Hn. pose proof (drain_bound _ _ _ Hn). pose proof (drain_work_le s'). split; [lia|].
  intros Hc Hnf. apply drain_connected in Hn as Hc''. rewrite <-Hc'' in Hc.
  destruct (run_accounted _ _ _ _ _ Hacc (drain_run _ _ _ Hn)) as (_ & _ & [Hk|[Hk|Hk]]); [|by left|].
  - rewrite (drained _ Hc Hnf) in Hk. by apply elem_of_nil in Hk.
  - right. apply list_elem_of_fmap in Hk as ([k full] & -> & Hk). destruct full; [done|exfalso].
    assert (wakeup_run (wakeups_spawn d0) s'') as Hrun3 by (etransitivity; [exact Hrun2|by eapply drain_run]).
    destruct (run_invs d0 s'' Hd Hrun3) as [_ Hdr]. rewrite (di_silent _ _ Hdr k) in Hc; [done|].
    rewrite <-(take_drop (length (wl_dropped s)) (wl_dropped s'')). apply elem_of_app. by right.
Qed.
End Listener.
