(* ===== verification/PostgresPool.v ===== *)
(** * The Postgres backend: connecting ([sayiir-postgres/src/backend.rs])

    What [connect_with_options] asks of the pool and of every new session, and the check
    of the server's version.  sqlx (the pool, the migrations) is a parameter. *)

From S2P Require Import Prelude Hash32 SnapshotFormat Task Workflow Snapshot Backend Postgres.

Record PoolOptions : Type := MkPoolOptions {
  po_max_connections : option Z;                                 (* u32 *)
  po_min_connections : option Z;                                 (* u32 *)
  acquire_timeout : option Duration;
  idle_timeout : option Duration;
  max_lifetime : option Duration;
  statement_timeout : option Duration;
  idle_in_transaction_session_timeout : option Duration
}.
Definition PoolOptions_default : PoolOptions := MkPoolOptions None None None None None None None.

(** [duration_to_ms]: at least a millisecond (zero would disable the timeout), at most
    [i32::MAX]. *)
Definition duration_to_ms (d : Duration) : Z :=
  let ms := as_millis d in
  if bool_decide (ms = 0) then 1 else if bool_decide (ms ≤ i32_max) then ms else i32_max.

(** What the pool is told: its sizes and timeouts, and the settings made on each new
    connection, in order. *)
Record PoolSetup : Type := MkPoolSetup {
  setup_max : Z;
  setup_min : Z;
  setup_acquire : option Duration;
  setup_idle : option Duration;
  setup_lifetime : option Duration;
  set_config : list (string * string)
}.
Definition session_settings (options : PoolOptions) : list (string * string) :=
  match statement_timeout options with
  | Some d => [("statement_timeout", u_to_string (duration_to_ms d))] | None => [] end ++
  match idle_in_transaction_session_timeout options with
  | Some d => [("idle_in_transaction_session_timeout", u_to_string (duration_to_ms d))] | None => [] end.
Definition pool_setup (options : PoolOptions) : PoolSetup :=
  MkPoolSetup (default 20 (po_max_connections options)) (default 2 (po_min_connections options))
    (acquire_timeout options) (idle_timeout options) (max_lifetime options) (session_settings options).

(** ** The version check *)

(** [str::parse::<u32>]: an optional plus sign and digits. *)
Definition digit_value (c : byte) : option Z :=
  let n := Z.of_N (Byte.to_N c) in if bool_decide (48 ≤ n ≤ 57) then Some (n - 48) else None.
Fixpoint parse_digits (acc : Z) (bs : Bytes) : result string Z :=
  match bs with
  | [] => Ok acc
  | c :: bs =>
      match digit_value c with
      | None => Err "invalid digit found in string"
      | Some v =>
          let acc := 10 * acc + v in
          if bool_decide (acc ≤ u32_max) then parse_digits acc bs
          else Err "number too large to fit in target type"
      end
  end.
Definition parse_u32 (s : string) : result string Z :=
  match as_bytes s with
  | [] => Err "cannot parse integer from empty string"
  | [x2b] => Err "invalid digit found in string"
  | x2b :: bs => parse_digits 0 bs
  | bs => parse_digits 0 bs
  end.

Definition MIN_PG_MAJOR_VERSION : Z := 13.
(** [check_pg_version], on what [SHOW server_version_num] answers. *)
Definition check_pg_version `{Postgres} (answer : result SqlxError string) : result BackendError unit :=
  version_str ← map_err from_pg_error answer;
  version_num ← map_err (λ e, BackendErr ("failed to parse server_version_num '" +:+ version_str +:+ "': " +:+ e))
    (parse_u32 version_str);
  let major := version_num / 10000 in
  if bool_decide (major < MIN_PG_MAJOR_VERSION)
  then Err (BackendErr ("PostgreSQL " +:+ u_to_string major +:+ " is not supported (minimum: " +:+
    u_to_string MIN_PG_MAJOR_VERSION +:+ ")"))
  else Ok ().

(** [init]: the check, then the migrations. *)
Definition pg_init `{Postgres} (answer : result SqlxError string) (migrate : result string unit) : result BackendError unit :=
  check_pg_version answer ≫= λ _, map_err (λ e, BackendErr ("migration failed: " +:+ e)) migrate.

(** ** Properties *)

(** A timeout that is asked for is never off, fits its setting, and is the one asked for,
    in whole milliseconds, when that fits. *)
Lemma duration_to_ms_bounds (d : Duration) :
  0 ≤ d → 1 ≤ duration_to_ms d ≤ i32_max ∧
  (1 ≤ as_millis d ≤ i32_max → duration_to_ms d = as_millis d).
Proof.
  intros Hd. assert (0 ≤ as_millis d) by (unfold as_millis, ns_per_ms; apply Z.div_pos; lia).
  unfold duration_to_ms, i32_max in *. repeat case_bool_decide; split; lia.
Qed.
Lemma duration_to_ms_mono (d d' : Duration) : 0 ≤ d ≤ d' → duration_to_ms d ≤ duration_to_ms d'.
Proof.
  intros [Hd Hle]. assert (0 ≤ as_millis d ≤ as_millis d').
  { unfold as_millis, ns_per_ms. split; [apply Z.div_pos|apply Z.div_le_mono]; lia. }
  unfold duration_to_ms, i32_max. repeat case_bool_decide; lia.
Qed.

(** A server is accepted exactly when it answers a version of the supported majors. *)
Lemma version_accepted `{Postgres} (answer : result SqlxError string) :
  check_pg_version answer = Ok () ↔
  ∃ v n, answer = Ok v ∧ parse_u32 v = Ok n ∧ MIN_PG_MAJOR_VERSION * 10000 ≤ n.
Proof.
  unfold check_pg_version, MIN_PG_MAJOR_VERSION. destruct answer as [v|e]; cbn; [|split; [done|by intros (? & ? & ? & _)]].
  destruct (parse_u32 v) as [n|e] eqn:Hn; cbn; [|split; [done|intros (? & ? & [= <-] & ? & _); congruence]].
  pose proof (Z.div_mod n 10000). pose proof (Z.mod_pos_bound n 10000).
  case_bool_decide as E; split; try done.
  - intros (? & n' & [= <-] & Hn' & Hle). rewrite Hn in Hn'. injection Hn' as <-. lia.
  - intros _. exists v, n. split_and!; [done|done|lia].
Qed.
Example version_17 `{Postgres} : check_pg_version (Ok "170001") = Ok ().
Proof. reflexivity. Qed.
