(* ===== verification/PostgresExample.v ===== *)
(** * The Postgres backend: a server and codecs, used as witnesses

    A concrete server (microsecond timestamps, the C collation, rows in the order
    of the table), a lawful snapshot codec and a lawful hint codec, and the
    theorems of the backend applied to a database with an order in it. *)

From S2P Require Import Prelude Hash32 SnapshotFormat Task Workflow Snapshot Backend InMemory.
From S2P Require Import ClaimStore Postgres PostgresSignals PostgresClaims PostgresProps.
From S2P Require Import PostgresComposites PostgresDispatch PostgresInvariant PostgresWakeup.
From Stdlib Require Import Floats.SpecFloat.

Module PgExample.
Import Toy Examples.

(** ** The server *)

#[export] Instance server : Postgres := {
  sqlx_to_string e := match e with Io m | Database _ m | OtherSqlx m => m | _ => "sqlx" end;
  pg_timestamp t := t / 1000 * 1000;
  pg_interval d := Ok d;
  pg_add_interval t d := Ok (t + d);
  row_order A l := l;
  text_le := string_le
}.
#[export] Instance server_laws : PostgresLaws.
Proof.
  split; cbn.
  - intros t. pose proof (Z.div_mod t 1000). pose proof (Z.mod_pos_bound t 1000). lia.
  - done.
  - apply string_le_total.
  - apply string_le_trans.
  - apply string_le_antisym.
Qed.

(** ** A snapshot codec *)

#[local] Instance spec_float_eq_dec : EqDecision spec_float.
Proof. solve_decision. Defined.
#[local] Program Instance spec_float_countable : Countable spec_float :=
  inj_countable' (λ x, match x with
    | S754_zero s => inl (inl s) | S754_infinity s => inl (inr s)
    | S754_nan => inr (inl ()) | S754_finite s m e => inr (inr (s, m, e)) end)
  (λ y, match y with
    | inl (inl s) => S754_zero s | inl (inr s) => S754_infinity s
    | inr (inl _) => S754_nan | inr (inr (s, m, e)) => S754_finite s m e end) _.
Next Obligation. by intros []. Qed.

#[local] Instance RetryPolicy_eq_dec : EqDecision RetryPolicy.
Proof. solve_decision. Defined.
#[local] Program Instance RetryPolicy_countable : Countable RetryPolicy :=
  inj_countable' (λ p, (max_retries p, initial_delay p, backoff_multiplier p, max_delay p))
    (λ '(a, b, c, d), MkRetryPolicy a b c d) _.
Next Obligation. by intros []. Qed.
#[local] Instance TaskRetryState_eq_dec : EqDecision TaskRetryState.
Proof. solve_decision. Defined.
#[local] Program Instance TaskRetryState_countable : Countable TaskRetryState :=
  inj_countable' (λ r, (attempts r, policy r, last_error r, last_failed_worker r, next_retry_at r))
    (λ '(a, b, c, d, e), MkTaskRetryState a b c d e) _.
Next Obligation. by intros []. Qed.
#[local] Instance TaskDeadline_eq_dec : EqDecision TaskDeadline.
Proof. solve_decision. Defined.
#[local] Program Instance TaskDeadline_countable : Countable TaskDeadline :=
  inj_countable' (λ d, (td_task_id d, td_deadline d, td_timeout_ms d))
    (λ '(a, b, c), MkTaskDeadline a b c) _.
Next Obligation. by intros []. Qed.
#[local] Program Instance TaskResult_countable : Countable TaskResult :=
  inj_countable' (λ r, (tr_task_id r, tr_output r)) (λ '(a, b), MkTaskResult a b) _.
Next Obligation. by intros []. Qed.

#[local] Program Instance ExecutionPosition_countable : Countable ExecutionPosition :=
  inj_countable' (λ p, match p with
    | NotStarted => inl (inl ())
    | AtTask t => inl (inr (inl t))
    | AtFork f b w => inl (inr (inr (f, b, w)))
    | AtJoin j b => inr (inl (inl (j, b)))
    | AtDelay d e w n => inr (inl (inr (d, e, w, n)))
    | AtSignal s m w n => inr (inr (inl (s, m, w, n)))
    | InLoop l i n => inr (inr (inr (l, i, n)))
    end)
  (λ y, match y with
    | inl (inl _) => NotStarted
    | inl (inr (inl t)) => AtTask t
    | inl (inr (inr (f, b, w))) => AtFork f b w
    | inr (inl (inl (j, b))) => AtJoin j b
    | inr (inl (inr (d, e, w, n))) => AtDelay d e w n
    | inr (inr (inl (s, m, w, n))) => AtSignal s m w n
    | inr (inr (inr (l, i, n))) => InLoop l i n
    end) _.
Next Obligation. by intros []. Qed.

#[local] Instance WorkflowSnapshotState_eq_dec : EqDecision WorkflowSnapshotState.
Proof. solve_decision. Defined.
#[local] Program Instance WorkflowSnapshotState_countable : Countable WorkflowSnapshotState :=
  inj_countable' (λ s, match s with
    | InProgress p c l => inl (inl (p, c, l))
    | Completed o => inl (inr o)
    | Failed e => inr (inl e)
    | Cancelled r b t c i => inr (inr (inl (r, b, t, c, i)))
    | Paused r b t c p l => inr (inr (inr (r, b, t, c, p, l)))
    end)
  (λ y, match y with
    | inl (inl (p, c, l)) => InProgress p c l
    | inl (inr o) => Completed o
    | inr (inl e) => Failed e
    | inr (inr (inl (r, b, t, c, i))) => Cancelled r b t c i
    | inr (inr (inr (r, b, t, c, p, l))) => Paused r b t c p l
    end) _.
Next Obligation. by intros []. Qed.

#[local] Instance WorkflowSnapshot_eq_dec : EqDecision WorkflowSnapshot.
Proof. solve_decision. Defined.
#[local] Program Instance WorkflowSnapshot_countable : Countable WorkflowSnapshot :=
  inj_countable' (λ s, (instance_id s, snapshot_definition_hash s, state s, created_at s, updated_at s,
      initial_input s, task_deadline s, task_retries s, loop_iterations s, task_priority s, task_tags s,
      trace_parent s, output_unflushed s))
    (λ '(a, b, c, d, e, f, g, h, i, j, k, l, m), MkSnapshot a b c d e f g h i j k l m) _.
Next Obligation. by intros []. Qed.

(** Bits, one per byte. *)
Fixpoint bits (p : positive) : Bytes :=
  match p with xH => [] | xO p => x00 :: bits p | xI p => x01 :: bits p end.
Fixpoint unbits (b : Bytes) : positive :=
  match b with [] => xH | x00 :: b => xO (unbits b) | _ :: b => xI (unbits b) end.
Lemma unbits_bits p : unbits (bits p) = p.
Proof. induction p as [p IH|p IH|]; cbn; by rewrite ?IH. Qed.

#[export] Instance codec : SnapshotCodec := {
  Frame.encode_value s := Ok (bits (countable.encode (serde_skipped s)));
  Frame.decode_value b := ok_or (countable.decode (unbits b)) "bad snapshot";
  Frame.identity := Frame.Json
}.
#[export] Instance codec_laws : SnapshotCodecLaws.
Proof.
  split.
  - intros s. by eexists.
  - intros s b. cbn. intros [= <-]. by rewrite unbits_bits, decode_encode.
Qed.

(** ** A hint codec *)

Definition put_text (s : string) : Bytes :=
  flat_map (λ c, [x01; c]) (String.list_byte_of_string s) ++ [x00].
Fixpoint get_text (l : Bytes) : option (Bytes * Bytes) :=
  match l with
  | x00 :: l => Some ([], l)
  | _ :: c :: l => '(b, r) ← get_text l; Some (c :: b, r)
  | _ => None
  end.
Lemma get_put s rest : get_text (put_text s ++ rest) = Some (String.list_byte_of_string s, rest).
Proof.
  unfold put_text. rewrite <-app_assoc. induction (String.list_byte_of_string s) as [|c b IH]; cbn; [done|].
  cbn in IH. by rewrite IH.
Qed.
Fixpoint get_texts (fuel : nat) (l : Bytes) : option (list string) :=
  match fuel with
  | O => None
  | S fuel =>
      match l with
      | [] => Some []
      | _ => '(b, r) ← get_text l; rest ← get_texts fuel r; Some (String.string_of_list_byte b :: rest)
      end
  end.
Lemma get_put_texts l fuel : (length l < fuel)%nat → get_texts fuel (flat_map put_text l) = Some l.
Proof.
  revert fuel. induction l as [|s l IH]; intros [|fuel] Hf; cbn in *; [lia|done|lia|].
  destruct (put_text s ++ flat_map put_text l) as [|x y] eqn:E.
  { unfold put_text in E. apply app_eq_nil in E as [E _]. by apply app_eq_nil in E as [_ ?]. }
  rewrite <-E, get_put. cbn. rewrite IH by lia. cbn. by rewrite String.string_of_list_byte_of_string.
Qed.

Definition put_hint (h : TaskWakeupHint) : Bytes :=
  hash_bytes (hint_task_id h) ++ hash_bytes (hint_definition_hash h) ++
  flat_map put_text (hint_instance_id h :: hint_wake_tags h).
Definition get_hint (b : Bytes) : option TaskWakeupHint :=
  t ← ok (Hash32.from_slice (take 32 b));
  d ← ok (Hash32.from_slice (take 32 (drop 32 b)));
  texts ← get_texts (S (length b)) (drop 64 b);
  match texts with id :: tags => Some (MkWakeupHint id t d tags) | [] => None end.
Lemma put_text_length s : (1 ≤ length (put_text s))%nat.
Proof. unfold put_text. rewrite length_app. cbn. lia. Qed.
Lemma put_texts_length l : (length l ≤ length (flat_map put_text l))%nat.
Proof. induction l as [|s l IH]; cbn; [lia|]. rewrite length_app. pose proof (put_text_length s). lia. Qed.
Lemma get_put_hint h : get_hint (put_hint h) = Some h.
Proof.
  unfold get_hint, put_hint. destruct h as [id t d tags]. cbn [hint_task_id hint_definition_hash hint_instance_id hint_wake_tags].
  set (body := flat_map put_text (id :: tags)).
  rewrite (take_app_length' (hash_bytes t) _ 32), (drop_app_length' (hash_bytes t) _ 32) by (by rewrite hash_bytes_length).
  rewrite (take_app_length' (hash_bytes d) _ 32) by (by rewrite hash_bytes_length). rewrite !from_slice_hash. cbn [ok mbind option_bind].
  replace (drop 64 _) with body.
  - unfold body at 2. rewrite get_put_texts; [done|]. pose proof (put_texts_length (id :: tags)).
    unfold body. rewrite !length_app. lia.
  - rewrite app_assoc. symmetry. apply drop_app_length'. by rewrite length_app, !hash_bytes_length.
Qed.

#[export] Instance hints : HintCodec := {
  ser_bin := put_hint;
  deserialize_bin b := ok_or (get_hint b) "bad hint";
  base64_encode := String.string_of_list_byte;
  base64_decode s := Ok (String.list_byte_of_string s)
}.
#[export] Instance hint_laws : HintCodecLaws.
Proof.
  split; cbn.
  - intros h. by rewrite get_put_hint.
  - intros b. f_equal. apply String.list_byte_of_string_of_list_byte.
Qed.

(** ** An order in the database *)

Definition pay : TaskId := TaskId_from "pay".
Definition ready : WorkflowSnapshot :=
  update_position 1 (AtTask pay) (with_initial_input 0 "order-1" DefinitionHash_default [x2a]).
Definition paid : WorkflowSnapshot := mark_task_completed 2 pay [x07] ready.
Definition saved : PgDb := (pg_save_snapshot ready (db_empty 5)).2.

Lemma ready_wf : snapshot_wf ready.
Proof.
  split; [by intros k r|]. split; [by intros k r|]. split_and!; try done; vm_compute; split; (discriminate || reflexivity).
Qed.
Lemma paid_wf : snapshot_wf paid.
Proof. apply (kept (mark_task_completed 2 pay [x07])), ready_wf. auto with sayiir. Qed.
Lemma ready_fits : payload_fits ready.
Proof. intros p [= <-]. vm_compute. reflexivity. Qed.
Lemma paid_fits : payload_fits paid.
Proof. intros p [= <-]. vm_compute. reflexivity. Qed.
Lemma empty_live now id : ¬ terminal_row (db_empty now) id.
Proof. by intros (r & Hr & _). Qed.
Lemma empty_room now id : headroom (db_empty now) id.
Proof. by intros r. Qed.
Lemma ready_synced rows : save_synced rows ready.
Proof. by intros k r. Qed.
Lemma paid_synced rows : save_synced rows paid.
Proof.
  intros k r. cbn. destruct (decide (pay = k)) as [<-|Hne]; [by left|]. by rewrite lookup_insert_ne by done.
Qed.

Lemma save_spec s db :
  db_wf db → snapshot_wf s → headroom db (instance_id s) → payload_fits s →
  ¬ terminal_row db (instance_id s) → save_synced (rows_of (db_tasks db) (instance_id s)) s →
  let db' := (pg_save_snapshot s db).2 in
  db_wf db' ∧ view db' (instance_id s) = Some (with_output_unflushed false s) ∧
  version db' (instance_id s) = version db (instance_id s) + 1 ∧ db_signals db' = db_signals db.
Proof.
  intros Hwf Hs Hroom Hfit Hlive Hsync.
  destruct (save_live_view db s) as (db' & Heq & Hwf' & Hv & _ & Hsig); [done..|].
  destruct (save_writes db s) as (db2 & r' & h' & data & Heq2 & Hw & _ & _ & Hver & _); [done..|].
  assert (db2 = db') as -> by congruence. rewrite Heq. cbn [snd]. split_and!; try done.
  rewrite (proj1 (writes_version _ _ _ _ _ Hw)), Hver. apply new_version_eq.
Qed.
Lemma saved_spec : db_wf saved ∧ view saved "order-1" = Some ready ∧ version saved "order-1" = 1.
Proof.
  destruct (save_spec ready (db_empty 5) (empty_wf 5) ready_wf (empty_room 5 _) ready_fits (empty_live 5 _)
    (ready_synced _)) as (Hwf & Hv & Hver & _). split_and!; [exact Hwf|exact Hv|exact Hver].
Qed.
Lemma saved_room : headroom saved "order-1".
Proof. apply headroom_version. rewrite (proj2 (proj2 saved_spec)). reflexivity. Qed.

Lemma pg_save_load_witness : ∃ db', pg_save_snapshot paid (db_empty 5) = (Ok (with_output_unflushed false paid), db') ∧
  pg_load_snapshot "order-1" db' = (Ok (with_output_unflushed false paid), db') ∧
  pg_load_task_result "order-1" pay db' = (Ok (Some [x07]), db').
Proof.
  destruct (pg_save_load paid (db_empty 5) (empty_wf 5) paid_wf (empty_room 5 _) paid_fits (empty_live 5 _))
    as (db' & s' & Hs & _ & Hl & _ & _ & Hex & Ht & _).
  rewrite (Hex (paid_synced _)) in Hl, Ht.
  exists db'. split; [exact Hs|]. split; [exact Hl|]. apply (Ht pay [x07]).
  unfold paid, get_task_result_bytes, mark_task_completed. cbn. by rewrite lookup_insert_eq.
Defined.

Lemma pg_invariant_witness : db_wf (pg_store_signal "order-1" Pause (MkSignalRequest None None 4) saved).2.
Proof.
  refine (proj1 (pg_invariant 5 [None; None] _ _ _)); [|vm_compute; discriminate].
  eapply run_cons; [exact (ps_save ready (db_empty 5) ready_wf)|].
  eapply run_cons; [apply ps_store_signal|apply run_nil].
Defined.

Definition shipped : WorkflowSnapshot := mark_completed 9 [x01] ready.
Lemma shipped_wf : snapshot_wf shipped.
Proof. apply (kept (λ s, mark_completed 9 [x01] s) ready), ready_wf. apply (mark_completed_ok 9 (λ _, [x01])). Qed.
Lemma shipped_view : view (pg_save_snapshot shipped (db_empty 5)).2 "order-1" = Some shipped.
Proof.
  refine (proj1 (proj2 (save_spec shipped (db_empty 5) (empty_wf 5) shipped_wf (empty_room 5 _)
    (payload_fits_parked shipped eq_refl) (empty_live 5 _) _))). by intros k r.
Qed.
Lemma pg_terminal_permanent_witness :
  let db' := (pg_save_snapshot paid (pg_save_snapshot shipped (db_empty 5)).2).2 in
  ∃ s', pg_load_snapshot "order-1" db' = (Ok s', db') ∧ strip_task_outputs s' = strip_task_outputs shipped.
Proof.
  refine (pg_terminal_permanent 5 [None] [None] _ _ "order-1" shipped _ _ _ shipped_view I _).
  - eapply run_cons; [exact (ps_save shipped (db_empty 5) shipped_wf)|apply run_nil].
  - eapply run_cons; [exact (ps_save paid _ paid_wf)|apply run_nil].
  - vm_compute. discriminate.
  - by intros [?|?%elem_of_nil]%elem_of_cons.
Defined.

(** The first acknowledgement is lost. *)
Definition ack_lost (n : nat) : option PgFault :=
  match n with O => Some (AckLost (Io "connection reset")) | _ => None end.
Lemma pg_result_exactly_once_witness :
  let db' := (save_task_result_faulty ack_lost (λ n, 7 + Z.of_nat n) "order-1" pay [x07] saved).2 in
  db_wf db' ∧ is_Some (view db' "order-1").
Proof.
  pose proof (pg_result_exactly_once ack_lost (λ n, 7 + Z.of_nat n) "order-1" pay [x07] saved ready
    (proj1 saved_spec) (proj1 (proj2 saved_spec)) I) as Hr.
  rewrite (proj2 (proj2 saved_spec)) in Hr. specialize (Hr eq_refl).
  destruct (save_task_result_faulty _ _ _ _ _ saved) as [[x|e] db']; destruct Hr as (Hwf & _ & Hr); cbn [snd]; split; try exact Hwf.
  - destruct Hr as (m & _ & -> & _). by eexists.
  - destruct Hr as [[->|(m & _ & ->)] _]; by eexists.
Defined.

Lemma pg_composites_refine_witness :
  (pg_check_and_pause 8 "order-1" saved).1 = (default_check_and_pause 8 "order-1" saved).1 ∧
  pg_check_control_signals 8 "order-1" None saved = check_control_signals 8 "order-1" None saved.
Proof.
  destruct (pg_composites_refine 8 "order-1" None saved (proj1 saved_spec) saved_room) as (_ & [Hp _] & _ & Hc).
  - intros s. rewrite (proj1 (proj2 saved_spec)). intros [= <-]. exact ready_fits.
  - split; [exact Hp|exact Hc].
Defined.

Definition claimed_db : PgDb := (pg_claim_task 6 "order-1" pay "w1" None saved).2.
Lemma pg_claim_exclusive_witness :
  pg_claim_task 7 "order-1" pay "w2" None claimed_db = (Ok None, claimed_db) ∧
  pg_save_snapshot_fenced paid pay "w2" claimed_db = (Ok (false, paid), claimed_db).
Proof.
  destruct (pg_claim_exclusive "order-1" pay "w1" claimed_db) as (Hc & Ho & _).
  - apply claim_evolves, saved_spec.
  - vm_compute. exact I.
  - split; [apply Hc|]. apply (Ho pay "w2"); [done|reflexivity].
Defined.

(** An order waiting for its delivery note. *)
Definition parked : WorkflowSnapshot :=
  update_position 1 (AtSignal (TaskId_from "note") "delivered" None None)
    (with_initial_input 0 "order-1" DefinitionHash_default [x2a]).
Lemma parked_wf : snapshot_wf parked.
Proof.
  split; [by intros k r|]. split; [by intros k r|]. split_and!; try done; vm_compute; split; (discriminate || reflexivity).
Qed.
Definition parked_db : PgDb := (pg_save_snapshot parked (db_empty 5)).2.
Lemma parked_spec : db_wf parked_db ∧ view parked_db "order-1" = Some parked ∧ version parked_db "order-1" = 1.
Proof.
  destruct (save_spec parked (db_empty 5) (empty_wf 5) parked_wf (empty_room 5 _)) as (Hwf & Hv & Hver & _);
    [by intros p|apply empty_live|by intros k r|]. split_and!; [exact Hwf|exact Hv|exact Hver].
Qed.
Lemma pg_event_delivery_witness :
  ∃ db', send_event_at 9 "order-1" "delivered" [x05] parked_db = (Ok (), db') ∧
    pg_load_task_result "order-1" (TaskId_from "note") db' = (Ok (Some [x05]), db').
Proof.
  destruct (pg_event_delivery 9 "order-1" "delivered" [x05] parked_db (proj1 parked_spec)) as [(db' & Hs & _ & _ & Hm) _].
  - apply headroom_version. rewrite (proj2 (proj2 parked_spec)). reflexivity.
  - intros s sid next. rewrite (proj1 (proj2 parked_spec)). intros [= <-] [= <- <-]. by intros p.
  - rewrite (proj1 (proj2 parked_spec)) in Hm. cbn [mbind option_bind] in Hm.
    change (signal_resume_target parked "delivered") with (Some (TaskId_from "note", None : option TaskId)) in Hm.
    exists db'. split; [exact Hs|apply Hm].
Defined.

Lemma pg_wakeup_resolves_witness :
  ∃ db' payload hint, pg_save_snapshot ready (db_empty 5) = (Ok ready, db') ∧ hint_decode payload = Ok hint ∧
    pg_find_hinted_task hint db' =
      (Ok (Some (MkAvailableTask "order-1" pay [x2a] DefinitionHash_default None ready)), db').
Proof.
  destruct (pg_wakeup_resolves ready pay [x2a] (db_empty 5) ∅ None (empty_wf 5) ready_wf (empty_room 5 _) ready_fits
    (empty_live 5 _) (ready_synced _) eq_refl eq_refl eq_refl) as (db' & payload & hint & Hs & _ & Hh & Hf).
  - vm_compute. exact I.
  - exists db', payload, hint. split; [exact Hs|]. split; [exact Hh|exact Hf].
Defined.

Lemma saved_only id s : view saved id = Some s → id = "order-1" ∧ s = ready.
Proof.
  destruct (save_live_view (db_empty 5) ready (empty_wf 5) ready_wf (empty_room 5 _) ready_fits (empty_live 5 _)
    (ready_synced _)) as (db' & Heq & _ & Hv & Hf & _). unfold saved. rewrite Heq. cbn [snd].
  destruct (decide (id = "order-1")) as [->|Hne].
  - change (instance_id ready) with "order-1" in Hv. rewrite Hv. by intros [= <-].
  - rewrite Hf by done. by rewrite view_none.
Qed.

Lemma saved_size : (size (db_snapshots saved) ≤ 10)%nat.
Proof.
  destruct (save_writes (db_empty 5) ready (empty_wf 5) ready_wf (empty_room 5 _) ready_fits (empty_live 5 _))
    as (db' & r' & h' & data & Heq & Hw & _). unfold saved. rewrite Heq. cbn [snd].
  rewrite (w_snapshots _ _ _ _ _ Hw). cbn [db_snapshots db_empty]. rewrite map_size_insert_None by done.
  rewrite map_size_empty. lia.
Qed.

Lemma pg_dispatch_sound_witness :
  ∃ tasks db', pg_find_available_tasks 6 "w1" 10 (from_secs 60) ["gpu"] saved = (Ok tasks, db') ∧
    MkAvailableTask "order-1" pay [x2a] DefinitionHash_default None ready ∈ tasks.
Proof.
  destruct (pg_dispatch_sound 6 "w1" 10 (from_secs 60) ["gpu"] saved (proj1 saved_spec))
    as (tasks & db' & Heq & _ & _ & _ & _ & _ & _ & Hall).
  - intros id s [-> ->]%saved_only. split; [exact saved_room|exact ready_fits].
  - exists tasks, db'. split; [exact Heq|].
    refine (Hall _ "order-1" ready pay ∅ None [x2a] (proj1 (proj2 saved_spec)) eq_refl _ eq_refl _ _ _).
    + exact saved_size.
    + split; reflexivity.
    + vm_compute. exact I.
    + right. exact (list_subseteq_nil _).
    + change (db_row_locks saved) with (∅ : gset string). apply not_elem_of_empty.
Defined.

Lemma pg_delay_drops_output_witness :
  ∃ s' db', pg_save_snapshot (commit_into_delay 7 pay (TaskId_from "wait") [x07] 90 None TaskHint_default ready) saved
      = (Ok s', db') ∧
    get_task_result_bytes pay s' = Some [x07] ∧ pg_load_task_result "order-1" pay db' = (Ok (Some []), db').
Proof.
  destruct (pg_delay_drops_output 7 pay (TaskId_from "wait") [x07] 90 None TaskHint_default ready saved
    (proj1 saved_spec) (proj1 (proj2 saved_spec)) I saved_room) as (s' & db' & Hs & Hr & Hl & _).
  - intros E%(f_equal id_bytes). vm_compute in E. discriminate E.
  - vm_compute. reflexivity.
  - exists s', db'. split; [exact Hs|]. split; [exact Hr|exact Hl].
Defined.

(** A notification that travels through the listener to a waiting worker. *)
Definition pay_hint : TaskWakeupHint := MkWakeupHint "order-1" (task_hash pay) (def_hash DefinitionHash_default) [].
Definition pay_returned : Wakeups :=
  wait_return pay_hint [] (wait_recv pay_hint [] (try_send pay_hint
    (on_notification (hint_encode pay_hint) (wakeups_spawn 0)))).
Lemma wakeup_not_lost_witness :
  size (wl_pending pay_returned) = 0%nat ∧
  (pending_key pay_hint ∈ map pending_key (wl_returned pay_returned) ∨
   (pending_key pay_hint, true) ∈ wl_dropped pay_returned).
Proof.
  pose proof (hint_decode_encode pay_hint) as Hdec.
  assert (on_notification (hint_encode pay_hint) (wakeups_spawn 0) =
    MkWakeups [] ({[pending_key pay_hint]} ∪ ∅) (Sending pay_hint) [] true 0 [] []) as Hon.
  { unfold on_notification. rewrite Hdec. cbn [wl_pending wakeups_spawn]. by rewrite bool_decide_false by set_solver. }
  destruct (wakeup_not_lost 0 (wakeups_spawn 0) pay_returned (hint_encode pay_hint) pay_hint)
    as (_ & Hsz & _ & _ & _ & Hk).
  - split; [discriminate|reflexivity].
  - apply rtc_refl.
  - reflexivity.
  - exact Hdec.
  - unfold pay_returned. rewrite Hon. eapply rtc_l; [apply ws_send; reflexivity|].
    eapply rtc_l; [apply (ws_recv pay_hint []); [reflexivity|exact I]|].
    eapply rtc_l; [apply (ws_return [] pay_hint []); reflexivity|apply rtc_refl].
  - assert (under_way pay_returned = []) as Hu by (unfold pay_returned; rewrite Hon; reflexivity).
    split; [by rewrite Hsz, Hu|].
    refine (proj2 (Hk 0%nat pay_returned (nsteps_O _ _)) _ _); [unfold pay_returned; rewrite Hon; exact I|].
    assert (wl_queue pay_returned = [] ∧ wl_in_hand pay_returned = [] ∧ wl_listener pay_returned = Receiving)
      as (Hq & Hi & Hl) by (unfold pay_returned; rewrite Hon; by split_and!).
    intros [s2 Hs]. destruct Hs as [h s Hl2|h full s Hl2|h rest s Hq2 _|l1 h l2 s Hi2]; [congruence..|].
    rewrite Hi in Hi2. by apply app_cons_not_nil in Hi2.
Defined.
End PgExample.
