(* ===== verification/Simulation.v ===== *)
(** * Simulations between backends, and the Cloudflare engine over any of them

    A backend that answers as another one does, operation by operation, can take its
    place under the engine: requests get the same answers.  Snapshots are compared up
    to the [output_unflushed] flag, which [serde] skips, so that a snapshot read back
    from a blob stands for the one that was saved. *)

From S2P Require Import Prelude Hash32 Task Workflow Snapshot Backend Runtime Lifecycle SyncExec Checkpoint.
From S2P Require Import Serializable TaskIndex Cloudflare.

(** ** Snapshots up to the flag *)

Definition same_durable (s1 s2 : WorkflowSnapshot) : Prop :=
  with_output_unflushed false s1 = with_output_unflushed false s2.
Declare Scope snapshot_scope.
#[global] Open Scope snapshot_scope.
Infix "≃" := same_durable (at level 70) : snapshot_scope.

#[export] Instance same_durable_equivalence : Equivalence same_durable.
Proof. unfold same_durable. split; [done|by intros ??|by intros ??? -> ->]. Qed.

Lemma same_durable_flag u s : with_output_unflushed u s ≃ s.
Proof. done. Qed.
Lemma same_durable_inv s1 s2 : s1 ≃ s2 → ∃ u, s1 = with_output_unflushed u s2.
Proof. destruct s1, s2. intros [=]; subst. by eexists. Qed.

(** A mutation that does not look at the flag. *)
Definition respects (g : WorkflowSnapshot → WorkflowSnapshot) : Prop := ∀ u s, g (with_output_unflushed u s) ≃ g s.
Lemma respects_same g s1 s2 : respects g → s1 ≃ s2 → g s1 ≃ g s2.
Proof. intros Hg [u ->]%same_durable_inv. apply Hg. Qed.

Create HintDb respects.
Ltac by_state := intros ? []; repeat (cbn; case_match); done.
Lemma mark_task_completed_respects t id o : respects (mark_task_completed t id o).
Proof. unfold mark_task_completed. by_state. Qed.
Lemma update_position_respects t p : respects (update_position t p).
Proof. unfold update_position. by_state. Qed.
Lemma mark_completed_respects t o : respects (mark_completed t o).
Proof. unfold mark_completed. by_state. Qed.
Lemma mark_failed_respects t e : respects (mark_failed t e).
Proof. unfold mark_failed. by_state. Qed.
Lemma mark_cancelled_respects t r w i : respects (mark_cancelled t r w i).
Proof. unfold mark_cancelled. by_state. Qed.
Lemma mark_paused_respects t r : respects (mark_paused t r).
Proof. unfold mark_paused. by_state. Qed.
Lemma mark_unpaused_respects t : respects (mark_unpaused t).
Proof. unfold mark_unpaused. by_state. Qed.
Lemma set_loop_iteration_respects t id n : respects (set_loop_iteration t id n).
Proof. unfold set_loop_iteration. by_state. Qed.
Lemma clear_loop_iteration_respects id : respects (clear_loop_iteration id).
Proof. unfold clear_loop_iteration. by_state. Qed.
Lemma remove_task_result_respects t id : respects (remove_task_result t id).
Proof. unfold remove_task_result. by_state. Qed.
#[export] Hint Resolve mark_task_completed_respects update_position_respects mark_completed_respects
  mark_failed_respects mark_cancelled_respects mark_paused_respects mark_unpaused_respects
  set_loop_iteration_respects clear_loop_iteration_respects remove_task_result_respects : respects.

(** ** Related computations *)

Definition result_rel {E A1 A2} (R : A1 → A2 → Prop) (r1 : result E A1) (r2 : result E A2) : Prop :=
  match r1, r2 with
  | Ok a1, Ok a2 => R a1 a2
  | Err e1, Err e2 => e1 = e2
  | _, _ => False
  end.
Definition io_sim {S1 S2 E A1 A2} (RS : S1 → S2 → Prop) (RA : A1 → A2 → Prop)
    (m1 : io S1 E A1) (m2 : io S2 E A2) : Prop :=
  ∀ s1 s2, RS s1 s2 → result_rel RA (m1 s1).1 (m2 s2).1 ∧ RS (m1 s1).2 (m2 s2).2.

Section IoSim.
Context {S1 S2 : Type} {RS : S1 → S2 → Prop}.

Lemma sim_ret {E A1 A2} (RA : A1 → A2 → Prop) a1 a2 :
  RA a1 a2 → io_sim RS RA (mret a1 : io S1 E A1) (mret a2).
Proof. by intros ? s1 s2. Qed.
Lemma sim_throw {E A1 A2} (RA : A1 → A2 → Prop) (e : E) : io_sim RS RA (throw e) (throw e).
Proof. by intros s1 s2. Qed.
Lemma sim_lift_result {E A} (r : result E A) : io_sim RS eq (lift_result r) (lift_result r).
Proof. intros s1 s2 ?. by destruct r. Qed.
Lemma sim_bind {E A1 A2 C1 C2} (RA : A1 → A2 → Prop) (RC : C1 → C2 → Prop)
    (m1 : io S1 E A1) (m2 : io S2 E A2) k1 k2 :
  io_sim RS RA m1 m2 → (∀ a1 a2, RA a1 a2 → io_sim RS RC (k1 a1) (k2 a2)) →
  io_sim RS RC (m1 ≫= k1) (m2 ≫= k2).
Proof.
  intros Hm Hk s1 s2 Hs. destruct (Hm s1 s2 Hs) as [Hr Hs']. unfold mbind, io_bind.
  destruct (m1 s1) as [[a1|e1] s1'], (m2 s2) as [[a2|e2] s2']; cbn in *; try done. by apply Hk.
Qed.
Lemma sim_bind_eq {E A C1 C2} (RC : C1 → C2 → Prop) (m1 : io S1 E A) (m2 : io S2 E A) k1 k2 :
  io_sim RS eq m1 m2 → (∀ a, io_sim RS RC (k1 a) (k2 a)) → io_sim RS RC (m1 ≫= k1) (m2 ≫= k2).
Proof. intros ? Hk. eapply sim_bind; [done|]. intros ? ? ->. apply Hk. Qed.
Lemma sim_fmap_eq {E A C} (g : A → C) (m1 : io S1 E A) (m2 : io S2 E A) :
  io_sim RS eq m1 m2 → io_sim RS eq (g <$> m1) (g <$> m2).
Proof.
  intros Hm s1 s2 Hs. destruct (Hm s1 s2 Hs) as [Hr Hs']. unfold fmap, io_fmap.
  destruct (m1 s1) as [[a1|e1] s1'], (m2 s2) as [[a2|e2] s2']; cbn in *; naive_solver.
Qed.
Lemma sim_map_err {E E' A1 A2} (RA : A1 → A2 → Prop) (f : E → E') (m1 : io S1 E A1) (m2 : io S2 E A2) :
  io_sim RS RA m1 m2 → io_sim RS RA (io_map_err f m1) (io_map_err f m2).
Proof.
  intros Hm s1 s2 Hs. destruct (Hm s1 s2 Hs) as [Hr Hs']. unfold io_map_err.
  destruct (m1 s1) as [[a1|e1] s1'], (m2 s2) as [[a2|e2] s2']; cbn in *; naive_solver.
Qed.
Lemma sim_try {E E' A1 A2} (RA : A1 → A2 → Prop) (m1 : io S1 E A1) (m2 : io S2 E A2) :
  io_sim RS RA m1 m2 → io_sim RS (result_rel RA) (try_io m1 (E':=E')) (try_io m2).
Proof.
  intros Hm s1 s2 Hs. destruct (Hm s1 s2 Hs) as [Hr Hs']. unfold try_io.
  destruct (m1 s1) as [r1 s1'], (m2 s2) as [r2 s2']. done.
Qed.
Lemma result_rel_eq {E A} (r1 r2 : result E A) : result_rel eq r1 r2 → r1 = r2.
Proof. destruct r1, r2; naive_solver. Qed.
End IoSim.

(** ** What one backend promises to stand in for another *)

Class BackendSim {B1 B2 : Type} `{PersistentBackend B1, PersistentBackend B2} (R : B1 → B2 → Prop) : Prop := {
  sim_save s1 s2 : s1 ≃ s2 → io_sim R same_durable (save_snapshot s1) (save_snapshot s2);
  sim_load id : io_sim R same_durable (load_snapshot id) (load_snapshot id);
  sim_delete id : io_sim R eq (delete_snapshot id) (delete_snapshot id);
  sim_clear id k : io_sim R eq (clear_signal id k) (clear_signal id k);
  sim_send id name p : io_sim R eq (send_event id name p) (send_event id name p);
  sim_consume id name : io_sim R eq (consume_event id name) (consume_event id name);
  sim_cancel t id at_ : io_sim R eq (check_and_cancel t id at_) (check_and_cancel t id at_);
  sim_pause t id : io_sim R eq (check_and_pause t id) (check_and_pause t id);
  sim_unpause t id : io_sim R same_durable (unpause t id) (unpause t id)
}.

(** ** The engine *)

Section Engine.
Context `{JsEngine, Sha256, Chrono, Display} {F : Type}.
Context {B1 B2 : Type} {R : B1 → B2 → Prop} `{BackendSim B1 B2 R} `{Environment B1, Environment B2}.
Context (same_clock : ∀ n, clock (B:=B1) n = clock (B:=B2) n).
Context (same_others : ∀ n b1 b2, R b1 b2 → R (others n b1) (others n b2)).
Context (registry : JsValue).

Definition world_sim (w1 : World B1) (w2 : World B2) : Prop := R (store w1) (store w2) ∧ steps w1 = steps w2.
Definition exec_sim (st1 : @ExecState B1) (st2 : @ExecState B2) : Prop :=
  st1.1 ≃ st2.1 ∧ world_sim st1.2 st2.2.
Abbreviation X1 := (io (@ExecState B1) Fault Bytes).
Abbreviation X2 := (io (@ExecState B2) Fault Bytes).

Lemma sim_call {A1 A2} (RA : A1 → A2 → Prop) (op1 : DateTime → io B1 BackendError A1)
    (op2 : DateTime → io B2 BackendError A2) :
  (∀ t, io_sim R RA (op1 t) (op2 t)) → io_sim world_sim RA (call op1) (call op2).
Proof.
  intros Hop [b1 n1] [b2 n2] [HR Hn]; cbn in *. subst. unfold call; cbn. rewrite same_clock.
  destruct (Hop (clock n2) _ _ (same_others n2 _ _ HR)) as [Hr HR'].
  destruct (op1 _ _), (op2 _ _). done.
Qed.
Lemma sim_clock {E} : io_sim world_sim eq (read_clock : io _ E _) read_clock.
Proof. intros [b1 n1] [b2 n2] [HR Hn]; cbn in *. subst. split; [apply same_clock|done]. Qed.
Lemma sim_run {A1 A2} (RA : A1 → A2 → Prop) (m1 : io (World B1) RuntimeError A1) m2 :
  io_sim world_sim RA m1 m2 → io_sim exec_sim RA (run m1) (run m2).
Proof.
  intros Hm [s1 w1] [s2 w2] [Hs Hw]; cbn in *. destruct (Hm w1 w2 Hw) as [Hr Hw']. unfold run; cbn.
  destruct (m1 w1) as [[] ?], (m2 w2) as [[] ?]; cbn in *; subst; done.
Qed.
Lemma sim_snap : io_sim exec_sim same_durable snap snap.
Proof. by intros ?? [??]. Qed.
Lemma sim_modify g1 g2 : (∀ s1 s2, s1 ≃ s2 → g1 s1 ≃ g2 s2) → io_sim exec_sim eq (modify g1) (modify g2).
Proof. intros Hg ?? [??]. split; [done|]. split; [by apply Hg|done]. Qed.
Lemma sim_modify_respects g : respects g → io_sim exec_sim eq (modify g) (modify g).
Proof. intros Hg. apply sim_modify. intros. by apply respects_same. Qed.
Lemma sim_now : io_sim exec_sim eq now now.
Proof. apply sim_run, sim_clock. Qed.
Lemma sim_modify_now g : (∀ t, respects (g t)) → io_sim exec_sim eq (modify_now g) (modify_now g).
Proof. intros Hg. eapply sim_bind_eq; [apply sim_now|]. intros t. by apply sim_modify_respects. Qed.
Lemma sim_js_task id input : io_sim exec_sim eq (js_task registry id input) (js_task registry id input).
Proof.
  intros [s1 [b1 n1]] [s2 [b2 n2]] [Hs [HR Hn]]; cbn in *. subst. unfold js_task; cbn.
  split; [|done]. by destruct (call_js_task _ _ _ _).
Qed.
Lemma sim_wasm_call {A1 A2} (RA : A1 → A2 → Prop) (op1 : DateTime → io B1 BackendError A1)
    (op2 : DateTime → io B2 BackendError A2) :
  (∀ t, io_sim R RA (op1 t) (op2 t)) → io_sim exec_sim RA (wasm_call op1) (wasm_call op2).
Proof. intros. by apply sim_run, sim_map_err, sim_call. Qed.
Lemma sim_lift {A} (r : result RuntimeError A) : io_sim exec_sim eq (lift r) (lift r).
Proof. apply sim_lift_result. Qed.
Lemma sim_wf_fail {A1 A2} (RA : A1 → A2 → Prop) e : io_sim exec_sim RA (wf_fail e) (wf_fail e).
Proof. apply sim_throw. Qed.

Create HintDb sim.
#[local] Hint Resolve sim_ret sim_throw sim_lift_result sim_lift sim_wf_fail sim_snap sim_now sim_js_task
  sim_modify_respects sim_modify_now sim_wasm_call sim_fmap_eq sim_save sim_load sim_delete sim_clear
  sim_send sim_consume sim_cancel sim_pause sim_unpause : sim.
#[local] Hint Extern 2 (respects _) => auto with respects : sim.

(** Peel a bind, relating what its first part answers; split a case both sides make. *)
Ltac sim_answer :=
  let a1 := fresh "a" in let a2 := fresh "a" in let Ha := fresh "Ha" in intros a1 a2 Ha;
  lazymatch type of Ha with
  | _ = _ => subst a1; try (match type of a2 with unit => destruct a2 end)
  | _ ≃ _ => apply same_durable_inv in Ha as [? ->]
  | _ => idtac
  end.
Ltac sim_step :=
  lazymatch goal with
  | |- io_sim _ _ (_ ≫= _) (_ ≫= _) =>
      first [ eapply sim_bind; [solve [eauto with sim]|sim_answer] | eapply (sim_bind eq); [|sim_answer] ]
  | |- io_sim _ _ (match ?x with _ => _ end) (match ?y with _ => _ end) => change x with y; destruct y
  | |- _ => solve [eauto with sim]
  end.
Ltac sim := repeat sim_step.

Lemma sim_checkpoint : io_sim exec_sim eq checkpoint checkpoint.
Proof.
  eapply sim_bind; [apply sim_snap|]. intros s1 s2 Hs. eapply sim_bind; [by eauto with sim|].
  intros s1' s2' Hs'. by apply sim_modify.
Qed.
Lemma sim_guards scope : io_sim exec_sim eq (wasm_guards scope) (wasm_guards scope).
Proof. unfold wasm_guards. sim. Qed.
#[local] Hint Resolve sim_checkpoint sim_guards : sim.

Lemma sim_record id output : io_sim exec_sim eq (record id output) (record id output).
Proof. unfold record. sim. Qed.
Lemma sim_recorded id (m1 : X1) (m2 : X2) :
  io_sim exec_sim eq m1 m2 → io_sim exec_sim eq (recorded id m1) (recorded id m2).
Proof. intros Hm. unfold recorded. sim. Qed.
Lemma sim_position_at_next (next : option (WorkflowContinuation F)) :
  io_sim exec_sim eq (position_at_next next) (position_at_next next).
Proof. unfold position_at_next. sim. Qed.
Lemma sim_delay_wake d : io_sim exec_sim eq (delay_wake d) (delay_wake d).
Proof. unfold delay_wake, add_or_panic. sim. Qed.
#[local] Hint Resolve sim_record sim_recorded sim_position_at_next sim_delay_wake : sim.

Lemma sim_handle_task id (next : option (WorkflowContinuation F)) input :
  io_sim exec_sim eq (handle_task registry id next input) (handle_task registry id next input).
Proof. unfold handle_task. sim. apply sim_recorded. sim. Qed.
Lemma sim_handle_delay id d (next : option (WorkflowContinuation F)) input :
  io_sim exec_sim eq (handle_delay id d next input) (handle_delay id d next input).
Proof. unfold handle_delay. sim. Qed.
Lemma sim_handle_signal id name timeout (next : option (WorkflowContinuation F)) :
  io_sim exec_sim eq (handle_await_signal id name timeout next) (handle_await_signal id name timeout next).
Proof. unfold handle_await_signal. sim. apply sim_recorded. sim. Qed.

Lemma sim_branches (f1 : WorkflowContinuation F → X1) (f2 : WorkflowContinuation F → X2) l results wake :
  Forall (λ b, io_sim exec_sim eq (f1 b) (f2 b)) l →
  io_sim exec_sim eq (wasm_branches f1 l results wake) (wasm_branches f2 l results wake).
Proof.
  intros Hl. revert results wake. induction Hl as [|b l Hb _ IH]; intros results wake; cbn [wasm_branches]; [sim|].
  eapply sim_bind; [apply sim_snap|]. sim_answer. sim_step; [apply IH|].
  eapply sim_bind; [by apply sim_try|]. intros ? r ->%result_rel_eq. sim.
Qed.
Lemma sim_handle_fork id m1 m2 :
  io_sim exec_sim eq m1 m2 → io_sim exec_sim eq (handle_fork id m1) (handle_fork id m2).
Proof. intros Hm. unfold handle_fork, wasm_park_at_fork. sim. Qed.

Lemma sim_get_branch (f1 : WorkflowContinuation F → X1) (f2 : WorkflowContinuation F → X2) key l :
  Forall (λ p, io_sim exec_sim eq (f1 p.2) (f2 p.2)) l →
  match get_branch f1 key l, get_branch f2 key l with
  | Some m1, Some m2 => io_sim exec_sim eq m1 m2
  | None, None => True
  | _, _ => False
  end.
Proof. induction 1 as [|[k b] l Hb _ IH]; cbn; [done|]. by case_bool_decide. Qed.
Lemma sim_handle_branch id l dflt (f1 : WorkflowContinuation F → X1) (f2 : WorkflowContinuation F → X2) input :
  Forall (λ p, io_sim exec_sim eq (f1 p.2) (f2 p.2)) l → (∀ d, dflt = Some d → io_sim exec_sim eq (f1 d) (f2 d)) →
  io_sim exec_sim eq (handle_branch registry id l dflt f1 input) (handle_branch registry id l dflt f2 input).
Proof.
  intros Hl Hd. unfold handle_branch. sim. apply sim_recorded. sim_step.
  eapply sim_bind_eq; [apply sim_lift|]. intros key. pose proof (sim_get_branch f1 f2 key l Hl) as Hg. eapply (sim_bind (io_sim exec_sim eq)); [|intros m1 m2 Hm; sim].
  unfold lift. intros ???. split; [|done].
  destruct (get_branch f1 _ _), (get_branch f2 _ _); try done. destruct dflt; cbn; [by apply Hd|done].
Qed.

Lemma sim_remove_results ids : io_sim exec_sim eq (remove_results ids) (remove_results ids).
Proof. induction ids; cbn; sim. Qed.
Lemma sim_loop_exit id output : io_sim exec_sim eq (loop_exit id output) (loop_exit id output).
Proof. unfold loop_exit. sim. Qed.
#[local] Hint Resolve sim_remove_results sim_loop_exit : sim.
Lemma sim_loop id (body : WorkflowContinuation F) max pol (f1 : Bytes → X1) (f2 : Bytes → X2) n k input :
  (∀ i, io_sim exec_sim eq (f1 i) (f2 i)) →
  io_sim exec_sim eq (wasm_loop id body max pol f1 n k input) (wasm_loop id body max pol f2 n k input).
Proof.
  intros Hf. revert k input. induction n as [|n IH]; intros k input; cbn [wasm_loop]; [unfold fail; sim|].
  eapply sim_bind_eq; [apply Hf|]. intros output. sim_step.
  eapply sim_bind_eq; [apply sim_lift|]. intros [tag inner]. sim.
Qed.
Lemma sim_handle_loop id (body : WorkflowContinuation F) max pol (f1 : Bytes → X1) (f2 : Bytes → X2) input :
  (∀ i, io_sim exec_sim eq (f1 i) (f2 i)) →
  io_sim exec_sim eq (handle_loop id body max pol f1 input) (handle_loop id body max pol f2 input).
Proof.
  intros Hf. unfold handle_loop. sim. apply sim_recorded. eapply sim_bind; [apply sim_snap|]. sim_answer.
  by apply sim_loop.
Qed.

(** The executor, on two backends of which one simulates the other. *)
Lemma sim_wasm_run (c : WorkflowContinuation F) input :
  io_sim exec_sim eq (wasm_run registry c input) (wasm_run registry c input).
Proof.
  assert (Hnext : ∀ (next : option (WorkflowContinuation F)) o, opt_all (λ c, ∀ i, io_sim exec_sim eq (wasm_run registry c i) (wasm_run registry c i)) next →
    io_sim exec_sim eq (proceed (wasm_run registry) next o : X1) (proceed (wasm_run registry) next o : X2)).
  { intros [n|] o Hn; cbn; [apply Hn|sim]. }
  revert input. induction c using continuation_ind; intros input; cbn [wasm_run];
    (eapply sim_bind_eq; [|intros; by apply Hnext]).
  - apply sim_handle_task.
  - apply sim_handle_fork, sim_branches. by eapply Forall_impl.
  - apply sim_handle_delay.
  - apply sim_handle_signal.
  - apply sim_handle_branch; [by eapply Forall_impl|]. by intros ? ->.
  - by apply sim_handle_loop.
  - unfold handle_child_workflow. sim. apply sim_recorded. sim.
Qed.

(** ** Requests *)

Lemma sim_js_call {A1 A2} (RA : A1 → A2 → Prop) (op1 : DateTime → io B1 BackendError A1)
    (op2 : DateTime → io B2 BackendError A2) :
  (∀ t, io_sim R RA (op1 t) (op2 t)) → io_sim world_sim RA (js_call op1) (js_call op2).
Proof. intros. by apply sim_map_err, sim_call. Qed.
Lemma sim_js_now : io_sim world_sim eq js_now js_now.
Proof. apply sim_clock. Qed.
Lemma sim_js_throw {A1 A2} (RA : A1 → A2 → Prop) msg : io_sim world_sim RA (js_throw msg) (js_throw msg).
Proof. apply sim_throw. Qed.
#[local] Hint Resolve sim_js_call sim_js_now sim_js_throw sim_clock sim_call sim_map_err : sim.

Definition fresh_sim (o1 o2 : PrepareRunOutcome) : Prop :=
  match o1, o2 with
  | Fresh s1, Fresh s2 => s1 ≃ s2
  | ExistingStatus st1 out1, ExistingStatus st2 out2 => st1 = st2 ∧ out1 = out2
  | _, _ => False
  end.
Definition parked_sim (p1 p2 : option Status.WorkflowStatus * WorkflowSnapshot) : Prop := p1.1 = p2.1 ∧ p1.2 ≃ p2.2.
Definition resume_sim (o1 o2 : ResumeOutcome) : Prop :=
  match o1, o2 with
  | Ready s1 i1, Ready s2 i2 => s1 ≃ s2 ∧ i1 = i2
  | Ready _ _, _ | _, Ready _ _ => False
  | _, _ => o1 = o2
  end.

Lemma sim_start_fresh {E} (inj : BackendError → E) id hash input hint :
  io_sim world_sim fresh_sim (start_fresh inj id hash input hint) (start_fresh inj id hash input hint).
Proof.
  unfold start_fresh. do 2 (eapply sim_bind_eq; [apply sim_clock|]; intros ?).
  eapply sim_bind; [by apply sim_map_err, sim_call; intros; apply sim_save|]. intros s1 s2 Hs. by apply sim_ret.
Qed.
#[local] Hint Resolve sim_start_fresh : sim.
Lemma sim_prepare_run id hash input hint policy :
  io_sim world_sim fresh_sim (persistence_prepare_run id hash input hint policy)
    (persistence_prepare_run id hash input hint policy).
Proof.
  unfold persistence_prepare_run. sim_step.
  eapply sim_bind; [apply sim_try, sim_call; intros; apply sim_load|]. intros [s1|e1] [s2|e2] Hr; cbn in Hr; try done.
  - apply same_durable_inv in Hr as [u ->]. sim; by apply sim_ret.
  - subst. sim.
Qed.

Lemma sim_check_cancel_pause id scope :
  io_sim world_sim eq (check_cancel_pause id scope) (check_cancel_pause id scope).
Proof. unfold check_cancel_pause. sim. Qed.
Lemma sim_pass_park next (g : WorkflowSnapshot → Bytes) s1 s2 :
  s1 ≃ s2 → (∀ u s, g (with_output_unflushed u s) = g s) →
  io_sim world_sim parked_sim (pass_park next g s1) (pass_park next g s2).
Proof.
  intros [u ->]%same_durable_inv Hg. unfold pass_park. eapply sim_bind_eq; [apply sim_js_now|]. intros t.
  destruct next as [n|].
  all: eapply sim_bind; [apply sim_js_call; intros; apply sim_save|intros; by apply sim_ret].
  - apply update_position_respects.
  - rewrite Hg. apply mark_completed_respects.
Qed.
Lemma sim_resolve_parked s1 s2 id :
  s1 ≃ s2 → io_sim world_sim parked_sim (resolve_parked s1 id) (resolve_parked s2 id).
Proof.
  intros [u ->]%same_durable_inv. unfold resolve_parked. change (state (with_output_unflushed u s2)) with (state s2).
  assert (Hret : ∀ {E} st, io_sim world_sim parked_sim (mret (st, with_output_unflushed u s2) : io _ E _) (mret (st, s2)))
    by (intros; by apply sim_ret).
  assert (Hdone : ∀ t id p, mark_task_completed t id p (with_output_unflushed u s2) ≃ mark_task_completed t id p s2)
    by (intros; apply mark_task_completed_respects).
  destruct (state s2) as [position completed last| | | |]; try apply Hret.
  destruct position as [| |fork_id branches wake_at| |delay_id entered wake_at next|signal_id name wake_at next|];
    try apply Hret.
  all: eapply sim_bind_eq; [apply sim_check_cancel_pause|]; intros [status|]; [apply Hret|].
  - eapply sim_bind_eq; [apply sim_js_now|]. intros t. case_match; [apply Hret|].
    eapply sim_bind; [by apply sim_js_call; intros; apply sim_save|]. intros. by apply sim_ret.
  - eapply sim_bind_eq; [apply sim_js_now|]. intros t. case_match; [apply Hret|]. by apply sim_pass_park.
  - eapply sim_bind_eq; [apply sim_js_call; intros; apply sim_consume|]. intros [payload|].
    + eapply sim_bind_eq; [apply sim_js_now|]. intros t. by apply sim_pass_park.
    + eapply sim_bind_eq; [destruct wake_at; sim|]. intros []; [|apply Hret].
      eapply sim_bind_eq; [apply sim_js_now|]. intros t. by apply sim_pass_park.
Qed.
Lemma sim_prepare_resume id hash :
  io_sim world_sim resume_sim (wasm_prepare_resume id hash) (wasm_prepare_resume id hash).
Proof.
  unfold wasm_prepare_resume. sim_step. eapply sim_bind; [apply sim_js_call; intros; apply sim_load|].
  intros s1 s2 Hs. pose proof (same_durable_inv _ _ Hs) as [u ->].
  change (snapshot_definition_hash (with_output_unflushed u s2)) with (snapshot_definition_hash s2).
  case_match; [apply sim_js_throw|].
  change (state (with_output_unflushed u s2)) with (state s2).
  destruct (as_terminal_status _); [apply sim_ret; by destruct (is_paused _)|].
  eapply sim_bind; [by apply sim_resolve_parked|]. intros [v1 p1] [v2 p2] [Hv Hp]; cbn in Hv, Hp. subst v1.
  apply same_durable_inv in Hp as [u' ->]. destruct v2; [by apply sim_ret|].
  eapply sim_bind_eq; [apply sim_lift_result|]. intros i. by apply sim_ret.
Qed.

Lemma sim_load_status (g : WorkflowSnapshot → Status.WorkflowStatus) d id (out : option Bytes) :
  (∀ u s, g (with_output_unflushed u s) = g s) →
  io_sim world_sim eq
    (r ← try_io (call (λ _, load_snapshot id)); mret (match r with Ok s => g s | Err _ => d end, out) : io _ JsStop _)
    (r ← try_io (call (λ _, load_snapshot id)); mret (match r with Ok s => g s | Err _ => d end, out)).
Proof.
  intros Hg. eapply sim_bind; [apply sim_try, sim_call; intros; apply sim_load|].
  intros [s1|e1] [s2|e2] Hr; cbn in Hr; try done.
  apply same_durable_inv in Hr as [u ->]. rewrite Hg. by apply sim_ret.
Qed.
Lemma sim_finalize r s1 s2 :
  s1 ≃ s2 → io_sim world_sim eq (wasm_finalize r s1) (wasm_finalize r s2).
Proof.
  intros [u ->]%same_durable_inv.
  assert (Hfail : ∀ e, io_sim world_sim eq
    (t ← js_now; try_io (call (λ _, save_snapshot (mark_failed t (error_to_string e) (with_output_unflushed u s2)))) ≫= λ _,
     mret (Status.Failed (error_to_string e), None : option Bytes) : io _ JsStop _)
    (t ← js_now; try_io (call (λ _, save_snapshot (mark_failed t (error_to_string e) s2))) ≫= λ _,
     mret (Status.Failed (error_to_string e), None))).
  { intros e. eapply sim_bind_eq; [apply sim_js_now|]. intros t.
    eapply sim_bind; [apply sim_try, sim_call; intros; apply sim_save, mark_failed_respects|]. intros. by apply sim_ret. }
  destruct r as [o|e]; cbn [wasm_finalize].
  - eapply sim_bind_eq; [apply sim_js_now|]. intros t.
    eapply sim_bind; [apply sim_js_call; intros; apply sim_save, mark_completed_respects|]. intros. by apply sim_ret.
  - destruct e as [e| | | | | | |]; try apply Hfail.
    destruct e; first [apply Hfail|by apply sim_load_status|by apply sim_ret].
Qed.

Lemma sim_settle (wf : WasmWorkflow (F:=F)) input s1 s2 :
  s1 ≃ s2 → io_sim world_sim eq (execute_and_settle wf registry input s1) (execute_and_settle wf registry input s2).
Proof.
  intros Hs w1 w2 Hw. unfold execute_and_settle.
  destruct (sim_wasm_run (wasm_continuation wf) input (s1, w1) (s2, w2)) as [Hr [Hs' Hw']]; [done|].
  destruct (wasm_run _ _ _ (s1, w1)) as [r1 [s1' w1']], (wasm_run _ _ _ (s2, w2)) as [r2 [s2' w2']]; cbn in *.
  apply result_rel_eq in Hr as ->.
  destruct r2 as [o|[e| |]]; [apply (sim_finalize (Ok o) _ _ Hs' _ _ Hw')|apply (sim_finalize (Err e) _ _ Hs' _ _ Hw')|done|done].
Qed.
Lemma sim_engine_run self (wf : WasmWorkflow (F:=F)) id input :
  io_sim world_sim eq (engine_run self wf id input registry) (engine_run self wf id input registry).
Proof.
  unfold engine_run. eapply sim_bind_eq; [apply sim_lift_result|]. intros bytes.
  eapply sim_bind; [apply sim_map_err, sim_prepare_run|].
  intros [s1|st1 out1] [s2|st2 out2] Ho; cbn in Ho; try done; [by apply sim_settle|].
  destruct Ho as [-> ->]. by apply sim_ret.
Qed.
Lemma sim_engine_resume (wf : WasmWorkflow (F:=F)) id :
  io_sim world_sim eq (engine_resume wf id registry) (engine_resume wf id registry).
Proof.
  unfold engine_resume. eapply sim_bind; [apply sim_prepare_resume|].
  intros o1 o2 Ho. assert (o1 = o2 ∨ ∃ s1 s2 i, o1 = Ready s1 i ∧ o2 = Ready s2 i ∧ s1 ≃ s2) as [->|(s1 & s2 & i & -> & -> & Hs)].
  { destruct o1, o2; cbn in Ho; naive_solver. }
  - destruct o2 as [s i|status|status|status]; [by apply sim_settle| |by apply sim_ret|by apply sim_ret].
    destruct status; try by apply sim_ret.
    eapply sim_bind; [apply sim_try, sim_call; intros; apply sim_load|].
    intros [s1|e1] [s2|e2] Hr; cbn in Hr; try done.
    apply same_durable_inv in Hr as [u ->]. by apply sim_ret.
  - by apply sim_settle.
Qed.
Lemma sim_engine_send_signal id name payload :
  io_sim world_sim eq (engine_send_signal id name payload) (engine_send_signal id name payload).
Proof. unfold engine_send_signal. sim. Qed.
Lemma sim_engine_unpause id : io_sim world_sim eq (engine_unpause id) (engine_unpause id).
Proof. unfold engine_unpause. sim. Qed.
End Engine.
