(* ===== verification/D1.v ===== *)
(** * The SQLite / Cloudflare D1 backend ([sayiir-d1/src])

    The tables of [migrations/] as a record, and every method of
    [SnapshotStore] and [SignalStore] that [SQLiteBackend] implements, statement by
    statement.  There are no transactions: each statement commits on its own, so a
    connection that fails between two of them leaves the first one's effect.  The
    state carries what will happen to the next round trips ([d1_faults]); an
    exhausted list means that nothing goes wrong any more.  One writer at a time uses
    an instance, as the crate documents, so operations are not interleaved.

    SQLite's clock functions, [chrono]'s formatting and parsing and the JSON
    serializer are parameters.  The columns no query of the crate reads
    ([history.id], [history.created_at], [events.created_at], [task_priority] and
    [task_tags], which this store never writes) are left out, and versions and event
    ids stay below 2^63. *)

From S2P Require Import Prelude Hash32 SnapshotFormat Task Workflow Snapshot Backend Postgres PostgresSignals.

(** ** What the crate calls *)

(** [serde_json] on snapshots, its errors by their messages. *)
Class SerdeSnapshot : Type := {
  to_vec : WorkflowSnapshot → result string Bytes;
  from_slice : Bytes → result string WorkflowSnapshot
}.
Class SerdeSnapshotLaws `{SerdeSnapshot} : Prop := {
  to_vec_ok s : ∃ b, to_vec s = Ok b;
  from_slice_to_vec s b : to_vec s = Ok b → from_slice b = Ok (serde_skipped s)
}.

(** Timestamps as text, and the order of an unordered result. *)
Class Sqlite : Type := {
  strftime : DateTime → string;              (* [strftime('%Y-%m-%dT%H:%M:%fZ', t)] *)
  datetime : DateTime → string;              (* [datetime(t)] *)
  format_millis : DateTime → string;         (* [chrono]: ["%Y-%m-%dT%H:%M:%S%.3fZ"] *)
  parse_from_rfc3339 : string → result string DateTime;
  sqlite_order : ∀ A, list A → list A
}.
Arguments sqlite_order {_ A}.

(** The four-digit years, and the days since 1970 of an instant. *)
Definition day_nanos : Z := 86400 * 10 ^ 9.
Definition day_of (t : DateTime) : Z := t / day_nanos.
Definition last_day : Z := 2932896.          (* 9999-12-31 *)
Definition four_digit_year (t : DateTime) : Prop := 0 ≤ day_of t ≤ last_day.
#[export] Instance four_digit_year_dec t : Decision (four_digit_year t) := _.
Definition string_lt (a b : string) : Prop := string_le a b ∧ a ≠ b.

(** Every rendering starts with the ten characters of the date, which sort as the
    days do; the two timestamp formats go on with a [T], [datetime] with a space. *)
Class SqliteLaws `{Sqlite} (date_text : Z → string) : Prop := {
  date_text_length d : String.length (date_text d) = 10%nat;
  date_text_lt d d' : 0 ≤ d → d < d' → d' ≤ last_day → string_lt (date_text d) (date_text d');
  strftime_text t : four_digit_year t → ∃ r, strftime t = date_text (day_of t) +:+ "T" +:+ r;
  format_millis_text t : four_digit_year t → ∃ r, format_millis t = date_text (day_of t) +:+ "T" +:+ r;
  datetime_text t : four_digit_year t → ∃ r, datetime t = date_text (day_of t) +:+ " " +:+ r;
  parse_strftime t : ∃ t', parse_from_rfc3339 (strftime t) = Ok t';
  sqlite_order_perm A (l : list A) : sqlite_order l ≡ₚ l
}.
Arguments sqlite_order_perm {_ _ _ A}.

(** ** The tables ([migrations/001_initial.sql]) *)

(** [sayiir_workflow_snapshots]. *)
Record D1Snapshot : Type := MkD1Snapshot {
  n_status : string;
  n_definition_hash : string;
  n_current_task_id : option string;
  n_completed_task_count : Z;
  n_data : Bytes;
  n_error : option string;
  n_position_kind : option string;
  n_delay_wake_at : option string;
  n_trace_parent : option string;
  n_awaited_signal_name : option string;
  n_started_at : string;
  n_completed_at : option string;
  n_updated_at : string
}.
(** [sayiir_workflow_snapshot_history], unique on (instance, version). *)
Record D1History : Type := MkD1History {
  y_status : string;
  y_current_task_id : option string;
  y_data : Bytes
}.
(** [sayiir_workflow_signals], primary key (instance, kind). *)
Record D1Signal : Type := MkD1Signal {
  g_reason : option string;
  g_requested_by : option string;
  g_created_at : string
}.

Record SqliteDb : Type := MkSqliteDb {
  sq_snapshots : gmap string D1Snapshot;
  sq_history : gmap string (gmap Z D1History);
  sq_signals : gmap string (gmap string D1Signal);
  sq_events : list EventRow;                  (* in the order of the AUTOINCREMENT id *)
  sq_event_seq : Z;
  sq_now : DateTime                           (* the clock of ['now'] *)
}.
Definition sqlite_empty (now : DateTime) : SqliteDb := MkSqliteDb ∅ ∅ ∅ [] 1 now.
Definition sq_set_snapshots v db :=
  MkSqliteDb v (sq_history db) (sq_signals db) (sq_events db) (sq_event_seq db) (sq_now db).
Definition sq_set_history v db :=
  MkSqliteDb (sq_snapshots db) v (sq_signals db) (sq_events db) (sq_event_seq db) (sq_now db).
Definition sq_set_signals v db :=
  MkSqliteDb (sq_snapshots db) (sq_history db) v (sq_events db) (sq_event_seq db) (sq_now db).
Definition sq_set_events v n db :=
  MkSqliteDb (sq_snapshots db) (sq_history db) (sq_signals db) v n (sq_now db).
Definition sq_set_now v db :=
  MkSqliteDb (sq_snapshots db) (sq_history db) (sq_signals db) (sq_events db) (sq_event_seq db) v.

(** What happens to a round trip that fails: the statement was not run, or it was and
    the answer was lost. *)
Inductive D1Fault : Type := NotRun (msg : string) | AnswerLost (msg : string).
Record D1 : Type := MkD1 { d1_db : SqliteDb; d1_faults : list (option D1Fault) }.
Definition d1_on (f : SqliteDb → SqliteDb) (w : D1) : D1 := MkD1 (f (d1_db w)) (d1_faults w).

Abbreviation D1Op := (io D1 BackendError).

(** [sqlx::query(..).execute(..)] and its siblings: one statement, an error being
    [BackendError::Backend]. *)
Definition statement {A} (stmt : SqliteDb → A * SqliteDb) : D1Op A := λ w,
  match d1_faults w with
  | Some (NotRun msg) :: fs => (Err (BackendErr msg), MkD1 (d1_db w) fs)
  | Some (AnswerLost msg) :: fs => (Err (BackendErr msg), MkD1 (stmt (d1_db w)).2 fs)
  | None :: fs => (Ok (stmt (d1_db w)).1, MkD1 (stmt (d1_db w)).2 fs)
  | [] => (Ok (stmt (d1_db w)).1, MkD1 (stmt (d1_db w)).2 [])
  end.
Definition select {A} (q : SqliteDb → A) : D1Op A := statement (λ db, (q db, db)).
Definition execute (f : SqliteDb → SqliteDb) : D1Op unit := statement (λ db, ((), f db)).

Section Backend.
Context `{SerdeSnapshot, Sqlite}.

(** ** Blobs and helpers ([backend.rs], [helpers.rs]) *)

(** [JsonCodec]. *)
#[local] Instance JsonCodec : SnapshotCodec := {
  Frame.encode_value := to_vec;
  Frame.decode_value := from_slice;
  Frame.identity := Frame.Json
}.
(** [SQLiteBackend::encode] and [decode]. *)
Definition d1_encode (s : WorkflowSnapshot) : result BackendError Bytes :=
  map_err Serialization (Frame.encode_framed s).
Definition d1_decode (data : Bytes) : result BackendError WorkflowSnapshot :=
  map_err (λ e, Serialization (DecodeError_to_string e)) (Frame.decode_framed data).

(** [dt_to_sqlite]. *)
Definition dt_to_sqlite (dt : option DateTime) : option string := format_millis <$> dt.

(** ** [SnapshotStore] ([snapshot_store.rs]) *)

(** The upsert of [save_snapshot]. *)
Definition upsert_snapshot (s : WorkflowSnapshot) (data : Bytes) (db : SqliteDb) : SqliteDb :=
  let id := instance_id s in
  let now := strftime (sq_now db) in
  let terminal := is_terminal (state s) in
  let row started completed_at :=
    MkD1Snapshot (state_name (state s)) (to_hex (def_hash (snapshot_definition_hash s)))
      ((λ t, to_hex (task_hash t)) <$> current_task_id s) (completed_task_count s) data
      (error_message s) (position_kind s) (dt_to_sqlite (delay_wake_at s)) (trace_parent s)
      (awaited_signal_name s) started completed_at now in
  sq_set_snapshots
    (<[id := match sq_snapshots db !! id with
             | None => row now (if terminal then Some now else None)
             | Some r => row (n_started_at r) (if terminal then Some now else n_completed_at r)
             end]> (sq_snapshots db)) db.

(** [COALESCE(MAX(version), 0) + 1]. *)
Definition next_version (rows : gmap Z D1History) : Z :=
  match map_to_list rows with
  | [] => 0 + 1
  | p :: l => foldr (λ q m, Z.max q.1 m) p.1 l + 1
  end.
(** The INSERT into the history. *)
Definition d1_append_history (s : WorkflowSnapshot) (data : Bytes) (db : SqliteDb) : SqliteDb :=
  let id := instance_id s in
  sq_set_history (alter_rows id (λ rows, <[next_version rows :=
    MkD1History (state_name (state s)) ((λ t, to_hex (task_hash t)) <$> current_task_id s) data]> rows)
    (sq_history db)) db.

Definition d1_save_snapshot (s : WorkflowSnapshot) : D1Op WorkflowSnapshot :=
  data ← lift_result (d1_encode s);
  execute (upsert_snapshot s data) ≫= λ _,
  execute (d1_append_history s data) ≫= λ _,
  mret s.

Definition d1_load_snapshot (id : string) : D1Op WorkflowSnapshot :=
  row ← select (λ db, sq_snapshots db !! id);
  row ← lift_result (ok_or row (NotFound id));
  s ← lift_result (d1_decode (n_data row));
  mret (with_trace_parent (n_trace_parent row) s).

Definition d1_save_task_result (now : DateTime) (id : string) (task_id : TaskId) (output : Bytes) : D1Op unit :=
  s ← d1_load_snapshot id;
  d1_save_snapshot (mark_task_completed now task_id output s) ≫= λ _, mret ().

(** DELETE answers the number of rows it removed. *)
Definition d1_delete_snapshot (id : string) : D1Op unit :=
  rows_affected ← statement (λ db,
    (match sq_snapshots db !! id with Some _ => 1 | None => 0 end : Z,
     sq_set_snapshots (delete id (sq_snapshots db)) db));
  if bool_decide (rows_affected < 1) then throw (NotFound id) else mret ().

Definition d1_list_snapshots : D1Op (list string) :=
  select (λ db, sqlite_order (map_to_list (sq_snapshots db)).*1).

(** ** [SignalStore] ([signal_store.rs]) *)

Definition upsert_signal (id kind : string) (request : SignalRequest) (db : SqliteDb) : SqliteDb :=
  sq_set_signals (alter_rows id (insert kind
    (MkD1Signal (sr_reason request) (sr_requested_by request) (strftime (sq_now db)))) (sq_signals db)) db.
Definition d1_store_signal (id : string) (kind : SignalKind) (request : SignalRequest) : D1Op unit :=
  row ← select (λ db, sq_snapshots db !! id);
  row ← lift_result (ok_or row (NotFound id));
  lift_result (validate_signal_allowed (n_status row) kind) ≫= λ _,
  execute (upsert_signal id (SignalKind_as_ref kind) request).

Definition d1_get_signal (id : string) (kind : SignalKind) : D1Op (option SignalRequest) :=
  row ← select (λ db, rows_of (sq_signals db) id !! SignalKind_as_ref kind);
  match row with
  | None => mret None
  | Some row =>
      requested_at ← lift_result (map_err (λ e, BackendErr ("invalid created_at timestamp " +:+
        debug_str (g_created_at row) +:+ ": " +:+ e)) (parse_from_rfc3339 (g_created_at row)));
      mret (Some (MkSignalRequest (g_reason row) (g_requested_by row) requested_at))
  end.

Definition d1_clear_signal (id : string) (kind : SignalKind) : D1Op unit :=
  execute (λ db, sq_set_signals (alter_rows id (delete (SignalKind_as_ref kind)) (sq_signals db)) db).

Definition d1_send_event (id signal_name : string) (payload : Bytes) : D1Op unit :=
  execute (λ db, sq_set_events
    (sq_events db ++ [MkEventRow (sq_event_seq db) id signal_name payload]) (sq_event_seq db + 1) db).

(** The events of one queue, oldest first. *)
Definition event_for (id name : string) (e : EventRow) : Prop := ev_instance_id e = id ∧ ev_signal_name e = name.
#[export] Instance event_for_dec id name e : Decision (event_for id name e) := _.
Definition d1_consume_event (id signal_name : string) : D1Op (option Bytes) :=
  row ← select (λ db, head (filter (event_for id signal_name) (sq_events db)));
  match row with
  | None => mret None
  | Some row =>
      execute (λ db, sq_set_events (filter (λ e, ev_id e ≠ ev_id row) (sq_events db)) (sq_event_seq db) db) ≫= λ _,
      mret (Some (ev_payload row))
  end.

(** The composites are the default bodies of the trait. *)
Definition d1_check_and_cancel (now : DateTime) (id : string) (interrupted_at_task : option TaskId) : D1Op bool :=
  request ← d1_get_signal id Cancel;
  match request with
  | None => mret false
  | Some request =>
      snapshot ← d1_load_snapshot id;
      if negb (is_in_progress (state snapshot)) then mret false
      else
        d1_save_snapshot (mark_cancelled now (sr_reason request) (sr_requested_by request)
          interrupted_at_task snapshot) ≫= λ _,
        d1_clear_signal id Cancel ≫= λ _,
        mret true
  end.
Definition d1_check_and_pause (now : DateTime) (id : string) : D1Op bool :=
  request ← d1_get_signal id Pause;
  match request with
  | None => mret false
  | Some request =>
      snapshot ← d1_load_snapshot id;
      if negb (is_in_progress (state snapshot)) then mret false
      else
        d1_save_snapshot (mark_paused now (pause_of_signal request) snapshot) ≫= λ _,
        d1_clear_signal id Pause ≫= λ _,
        mret true
  end.
Definition d1_unpause (now : DateTime) (id : string) : D1Op WorkflowSnapshot :=
  snapshot ← d1_load_snapshot id;
  if negb (is_paused (state snapshot)) then
    throw (CannotPause ("Workflow is not paused (current state: " +:+
      debug_str (state_name (state snapshot)) +:+ ")"))
  else d1_save_snapshot (mark_unpaused now snapshot).

#[export] Instance sqlite : PersistentBackend D1 := {
  save_snapshot := d1_save_snapshot;
  save_task_result := d1_save_task_result;
  load_snapshot := d1_load_snapshot;
  delete_snapshot := d1_delete_snapshot;
  list_snapshots := d1_list_snapshots;
  store_signal := d1_store_signal;
  get_signal := d1_get_signal;
  clear_signal := d1_clear_signal;
  send_event := d1_send_event;
  consume_event := d1_consume_event;
  check_and_cancel := d1_check_and_cancel;
  check_and_pause := d1_check_and_pause;
  unpause := d1_unpause
}.

(** ** The cron sweep ([find_resumable_instances]) *)

Definition ACTIVE_KINDS : list string := ["AtTask"; "AtJoin"; "InLoop"; "NotStarted"].
(** The three disjuncts of the WHERE clause: ready, signalled, stale.  A comparison of
    two TEXT values is bytewise. *)
Definition sweep_ready (db : SqliteDb) (r : D1Snapshot) : bool :=
  match n_delay_wake_at r with Some t => string_le t (datetime (sq_now db)) | None => false end.
Definition sweep_signalled (db : SqliteDb) (id : string) (r : D1Snapshot) : bool :=
  bool_decide (n_position_kind r = Some "AtSignal") &&
  match n_awaited_signal_name r with
  | Some name => bool_decide (Exists (event_for id name) (sq_events db))
  | None => false
  end.
Definition sweep_stale (db : SqliteDb) (stale_after_seconds : Z) (r : D1Snapshot) : bool :=
  bool_decide (n_delay_wake_at r = None) &&
  match n_position_kind r with Some k => bool_decide (k ∈ ACTIVE_KINDS) | None => true end &&
  string_le (n_updated_at r) (datetime (sq_now db - stale_after_seconds * 10 ^ 9)).
Definition resumable (db : SqliteDb) (stale_after_seconds : Z) (p : string * D1Snapshot) : Prop :=
  n_status p.2 = "in_progress" ∧
  (sweep_ready db p.2 || sweep_signalled db p.1 p.2 || sweep_stale db stale_after_seconds p.2).
#[export] Instance resumable_dec db n p : Decision (resumable db n p) := _.
Definition older (p q : string * D1Snapshot) : Prop := string_le (n_updated_at p.2) (n_updated_at q.2).
#[export] Instance older_dec p q : Decision (older p q) := _.
Definition find_resumable_instances (stale_after_seconds limit : Z) : D1Op (list string) :=
  select (λ db, (take (Z.to_nat limit)
    (merge_sort older (filter (resumable db stale_after_seconds)
      (sqlite_order (map_to_list (sq_snapshots db)))))).*1).
End Backend.
