(* ===== verification/D1Props.v ===== *)
(** * The SQLite / D1 backend answers as the in-memory one does

    With no fault ahead, every operation of [D1.v] simulates the in-memory
    backend's: same answers, related tables.  Snapshots agree up to the flag
    [serde] skips, pending signals up to the time they were recorded at, the order
    of [list_snapshots] is left open. *)

From S2P Require Import Prelude Hash32 SnapshotFormat Task Workflow Snapshot Backend InMemory.
From S2P Require Import Runtime Lifecycle Checkpoint Cloudflare Simulation Postgres PostgresSignals PostgresProps.
From S2P Require Import PostgresComposites D1.

#[local] Arguments rows_of : simpl never.
#[local] Arguments alter_rows : simpl never.

(** ** Queues in the event table *)

Definition queued (id name : string) (l : list EventRow) : list Bytes := ev_payload <$> filter (event_for id name) l.

Lemma queued_snoc id name l e :
  queued id name (l ++ [e]) = queued id name l ++ if bool_decide (event_for id name e) then [ev_payload e] else [].
Proof. unfold queued. rewrite filter_app, fmap_app. f_equal. by rewrite filter_cons; repeat case_decide; case_bool_decide. Qed.
(** Deleting the head of a queue by its id takes nothing else. *)
Lemma queued_delete id name l e id' name' :
  NoDup (ev_id <$> l) → head (filter (event_for id name) l) = Some e →
  queued id' name' (filter (λ x, ev_id x ≠ ev_id e) l) =
  if bool_decide (id' = id ∧ name' = name) then tail (queued id name l) else queued id' name' l.
Proof.
  unfold queued. induction l as [|x l IH]; intros Hnd Hh; [done|].
  rewrite fmap_cons in Hnd. apply NoDup_cons in Hnd as [Hx Hnd].
  rewrite (filter_cons (event_for id name)) in Hh |- *. destruct (decide (event_for id name x)) as [Hev|Hev]; cbn in Hh.
  - injection Hh as ->. rewrite filter_cons_False by auto.
    assert (filter (λ x, ev_id x ≠ ev_id e) l = l) as ->.
    { clear -Hx. induction l as [|y l IH]; [done|]. cbn in Hx. apply not_elem_of_cons in Hx as [??].
      rewrite filter_cons_True by done. by rewrite IH. }
    case_bool_decide as Hb; [by destruct Hb as [-> ->]|].
    rewrite filter_cons_False; [done|]. destruct Hev as [<- <-]. intros [<- <-]. by apply Hb.
  - assert (Hne : ev_id x ≠ ev_id e).
    { intros Heq. apply Hx. rewrite Heq. apply list_elem_of_fmap. exists e. split; [done|].
      assert (e ∈ filter (event_for id name) l) as [? ?]%list_elem_of_filter; [|done].
      destruct (filter _ l); [done|]. injection Hh as ->. left. }
    rewrite filter_cons_True by done. specialize (IH Hnd Hh).
    rewrite !(filter_cons (event_for id' name')). case_bool_decide as Hb.
    + destruct Hb as [-> ->]. by rewrite decide_False.
    + case_decide; cbn; [f_equal|]; apply IH.
Qed.
Lemma ids_filter (P : EventRow → Prop) `{!∀ e, Decision (P e)} l :
  NoDup (ev_id <$> l) → NoDup (ev_id <$> filter P l).
Proof. intros. eapply sublist_NoDup; [done|]. by apply fmap_sublist, sublist_filter. Qed.

(** The keys of a table. *)
Lemma elem_of_keys {K A} `{Countable K} (m : gmap K A) k : k ∈ (map_to_list m).*1 ↔ is_Some (m !! k).
Proof.
  rewrite list_elem_of_fmap. split.
  - intros ([k' a] & -> & Ha%elem_of_map_to_list). by exists a.
  - intros [a Ha]. exists (k, a). split; [done|]. by apply elem_of_map_to_list.
Qed.

(** ** The relation *)

Section Relation.
Context `{SerdeSnapshot, Sqlite}.

(** What a row of the snapshot table shows, and a pending signal's. *)
Definition row_shows (r : D1Snapshot) (s : WorkflowSnapshot) : Prop :=
  n_status r = state_name (state s) ∧
  ∃ s', d1_decode (n_data r) = Ok s' ∧ with_trace_parent (n_trace_parent r) s' ≃ s.
Definition signal_shows (g : D1Signal) (r : SignalRequest) : Prop :=
  g_reason g = sr_reason r ∧ g_requested_by g = sr_requested_by r ∧
  ∃ t, parse_from_rfc3339 (g_created_at g) = Ok t.
(** Event ids are those the sequence has given out. *)
Definition events_ok (db : SqliteDb) : Prop :=
  NoDup (ev_id <$> sq_events db) ∧ Forall (λ e, ev_id e < sq_event_seq db) (sq_events db).

Lemma events_ok_snoc db id name payload : events_ok db →
  events_ok (sq_set_events (sq_events db ++ [MkEventRow (sq_event_seq db) id name payload]) (sq_event_seq db + 1) db).
Proof.
  intros [Hnd Hlt]. split; cbn.
  - rewrite fmap_app. apply NoDup_app. split; [done|]. split; [|by apply NoDup_singleton].
    intros x (e & -> & He)%list_elem_of_fmap Hx%list_elem_of_singleton. rewrite Forall_forall in Hlt.
    specialize (Hlt e He). cbn in Hx. lia.
  - apply Forall_app. split; [|by constructor; [cbn; lia|]]. eapply Forall_impl; [exact Hlt|]. cbn. lia.
Qed.
Lemma events_ok_filter (P : EventRow → Prop) `{!∀ e, Decision (P e)} db :
  events_ok db → events_ok (sq_set_events (filter P (sq_events db)) (sq_event_seq db) db).
Proof.
  intros [Hnd Hlt]. split; [by apply ids_filter|]. rewrite Forall_forall in Hlt |- *.
  intros x [_ Hx]%list_elem_of_filter. by apply Hlt.
Qed.

Record tables_sim (db : SqliteDb) (b : InMemoryBackend) : Prop := MkTablesSim {
  ts_snapshots id : option_Forall2 row_shows (sq_snapshots db !! id) (snapshots b !! id);
  ts_filed : filed b;
  ts_signals id kind :
    option_Forall2 signal_shows (rows_of (sq_signals db) id !! SignalKind_as_ref kind) (pending b id kind);
  ts_events id name : queued id name (sq_events db) = queue b id name;
  ts_ids : events_ok db
}.
Definition memory_sim (w : D1) (b : InMemoryBackend) : Prop := d1_faults w = [] ∧ tables_sim (d1_db w) b.
End Relation.

Section Simulation.
Context `{SerdeSnapshot, !SerdeSnapshotLaws, Sqlite} {date_text} `{!SqliteLaws date_text}.

Lemma d1_encode_decode s : ∃ data, d1_encode s = Ok data ∧ d1_decode data = Ok (serde_skipped s).
Proof.
  destruct (to_vec_ok s) as [b Hb]. exists (Frame.frame_snapshot Frame.Json b).
  unfold d1_encode, d1_decode, Frame.encode_framed, Frame.decode_framed.
  cbn [Frame.encode_value Frame.decode_value Frame.identity JsonCodec]. rewrite Hb. split; [done|].
  rewrite Frame.unframe_checked_frame, bool_decide_true by done. cbn. by rewrite (from_slice_to_vec s b Hb).
Qed.

(** Writing a snapshot under its own id on both sides. *)
Lemma upsert_row s data db : d1_encode s = Ok data →
  ∃ r, sq_snapshots (upsert_snapshot s data db) = <[instance_id s := r]> (sq_snapshots db) ∧ row_shows r s.
Proof.
  intros Henc. destruct (d1_encode_decode s) as (data' & Henc' & Hdec).
  assert (data' = data) as -> by congruence.
  unfold upsert_snapshot. eexists. split; [done|].
  destruct (sq_snapshots db !! instance_id s); (split; [done|]; exists (serde_skipped s); split; [exact Hdec|by destruct s]).
Qed.
Lemma option_Forall2_insert {A1 A2} (P : A1 → A2 → Prop) (m1 : gmap string A1) (m2 : gmap string A2) k a1 a2 :
  P a1 a2 → (∀ i, option_Forall2 P (m1 !! i) (m2 !! i)) →
  ∀ i, option_Forall2 P (<[k := a1]> m1 !! i) (<[k := a2]> m2 !! i).
Proof.
  intros Ha Hm i. destruct (decide (k = i)) as [->|].
  - rewrite !lookup_insert_eq. by constructor.
  - by rewrite !lookup_insert_ne.
Qed.
Lemma row_shows_same r s1 s2 : row_shows r s1 → s1 ≃ s2 → row_shows r s2.
Proof.
  intros (Hst & s' & Hd & Hs') Hs. pose proof (same_durable_inv _ _ Hs) as [u ->].
  split; [done|]. exists s'. split; [done|]. by etrans.
Qed.

Lemma d1_save_quiet s db : ∃ data, d1_encode s = Ok data ∧
  d1_save_snapshot s (MkD1 db []) = (Ok s, MkD1 (d1_append_history s data (upsert_snapshot s data db)) []).
Proof.
  destruct (d1_encode_decode s) as (data & Henc & _). exists data. split; [done|].
  unfold d1_save_snapshot, mbind, io_bind, lift_result. by rewrite Henc.
Qed.
Lemma d1_load_quiet id db : d1_load_snapshot id (MkD1 db []) =
  (row ← ok_or (sq_snapshots db !! id) (NotFound id);
   s ← d1_decode (n_data row); Ok (with_trace_parent (n_trace_parent row) s), MkD1 db []).
Proof.
  unfold d1_load_snapshot, mbind, io_bind, lift_result; cbn.
  destruct (sq_snapshots db !! id) as [r|]; cbn; [|done]. by destruct (d1_decode _).
Qed.

Lemma mem_save_fields s b :
  let b' := (mem_save_snapshot s b).2 in
  snapshots b' = <[instance_id s := s]> (snapshots b) ∧ signals b' = signals b ∧ events b' = events b.
Proof. cbn. repeat case_match; done. Qed.

(** What the memory side needs of a change of its snapshots. *)
Lemma tables_sim_snapshots db b db' b' :
  tables_sim db b →
  (∀ id, option_Forall2 row_shows (sq_snapshots db' !! id) (snapshots b' !! id)) → filed b' →
  sq_signals db' = sq_signals db → sq_events db' = sq_events db → sq_event_seq db' = sq_event_seq db →
  signals b' = signals b → events b' = events b → tables_sim db' b'.
Proof.
  intros [? ? Hsig Hev Hids] Hs Hf E1 E2 E3 E4 E5. split; [done|done| | |].
  - intros id kind. unfold pending. rewrite E1, E4. apply Hsig.
  - intros id name. unfold queue. rewrite E2, E5. apply Hev.
  - unfold events_ok. by rewrite E2, E3.
Qed.

Lemma tables_put s1 s2 data db b b' :
  tables_sim db b → s1 ≃ s2 → d1_encode s1 = Ok data →
  snapshots b' = <[instance_id s2 := s2]> (snapshots b) → signals b' = signals b → events b' = events b →
  tables_sim (d1_append_history s1 data (upsert_snapshot s1 data db)) b'.
Proof.
  intros Ht Hs Henc Hm Hsig Hev. destruct (upsert_row s1 data db Henc) as (r & Hr & Hshow).
  assert (instance_id s1 = instance_id s2) as Hid by (by apply same_durable_inv in Hs as [? ->]).
  eapply tables_sim_snapshots; try done.
  - change (sq_snapshots (d1_append_history _ _ _)) with (sq_snapshots (upsert_snapshot s1 data db)).
    rewrite Hr, Hm, Hid. apply option_Forall2_insert; [|apply Ht]. by eapply row_shows_same.
  - unfold filed. rewrite Hm. by apply map_Forall_insert_2; [|apply Ht].
Qed.

Lemma memory_sim_save s1 s2 : s1 ≃ s2 → io_sim memory_sim same_durable (d1_save_snapshot s1) (mem_save_snapshot s2).
Proof.
  intros Hs [db ?] b [Hq Ht]; cbn in Hq, Ht; subst. destruct (d1_save_quiet s1 db) as (data & Henc & ->).
  split; [done|]. split; [done|]. destruct (mem_save_fields s2 b) as (Hm & Hsig & Hev). by eapply tables_put.
Qed.

Lemma memory_sim_load id : io_sim memory_sim same_durable (d1_load_snapshot id) (mem_load_snapshot id).
Proof.
  intros [db ?] b [Hq Ht]; cbn in Hq, Ht; subst. rewrite d1_load_quiet. split; [|done]. cbn.
  destruct (ts_snapshots _ _ Ht id) as [r s (_ & s' & Hd & Hs')|]; cbn; [|done]. by rewrite Hd.
Qed.

Lemma memory_sim_delete id : io_sim memory_sim eq (d1_delete_snapshot id) (mem_delete_snapshot id).
Proof.
  intros [db ?] b [Hq Ht]; cbn in Hq, Ht; subst. unfold d1_delete_snapshot, mem_delete_snapshot, mbind, io_bind; cbn.
  pose proof (ts_snapshots _ _ Ht id) as Hid. destruct (sq_snapshots db !! id) as [r|] eqn:Er; inversion Hid; subst; cbn.
  - rewrite bool_decide_false by lia. split; [done|]. split; [done|]. eapply tables_sim_snapshots; try done; cbn.
    + intros id'. destruct (decide (id = id')) as [->|].
      * rewrite !lookup_delete_eq. constructor.
      * rewrite !lookup_delete_ne by done. apply Ht.
    + apply map_Forall_delete, Ht.
  - rewrite bool_decide_true by lia. split; [done|]. split; [done|]. cbn. rewrite delete_id by done. by destruct db.
Qed.

Lemma signal_key_ne k k' : k ≠ k' → SignalKind_as_ref k ≠ SignalKind_as_ref k'.
Proof. by intros ? ?%SignalKind_as_ref_inj. Qed.

Lemma memory_sim_clear id kind : io_sim memory_sim eq (d1_clear_signal id kind) (mem_clear_signal id kind).
Proof.
  intros [db ?] b [Hq Ht]; cbn in Hq, Ht; subst. split; [done|]. split; [done|]. destruct Ht as [Hs Hf Hsig Hev Hids].
  assert (snapshots (remove_signal id kind b) = snapshots b ∧ events (remove_signal id kind b) = events b) as [Hm He]
    by (unfold remove_signal; by repeat case_match).
  split; cbn; [by rewrite Hm|by unfold filed; rewrite Hm| |by unfold queue; rewrite He|done].
  intros id' kind'. rewrite pending_remove, rows_of_alter. destruct (decide (id' = id)) as [->|].
  - rewrite (bool_decide_true (id = id)) by done. destruct (decide (kind' = kind)) as [->|].
    + rewrite lookup_delete_eq, bool_decide_true by done. constructor.
    + rewrite lookup_delete_ne by (by apply signal_key_ne). rewrite bool_decide_false by tauto. apply Hsig.
  - rewrite !bool_decide_false by tauto. apply Hsig.
Qed.

Lemma memory_sim_send id name p : io_sim memory_sim eq (d1_send_event id name p) (mem_send_event id name p).
Proof.
  intros [db ?] b [Hq Ht]; cbn in Hq, Ht; subst. split; [done|]. split; [done|]. destruct Ht as [Hs Hf Hsig Hev [Hnd Hlt]].
  split; [done|done|done| |].
  - intros id' name'. rewrite queue_send. change (sq_events (d1_db _)) with (sq_events db ++ [MkEventRow (sq_event_seq db) id name p]).
    rewrite queued_snoc, Hev.
    destruct (decide (id' = id ∧ name' = name)) as [[-> ->]|Hne].
    + by rewrite !bool_decide_true by done.
    + rewrite !bool_decide_false by (try done; intros [E1 E2]; apply Hne; by rewrite <-E1, <-E2). apply app_nil_r.
  - by apply events_ok_snoc.
Qed.

Lemma memory_sim_consume id name : io_sim memory_sim eq (d1_consume_event id name) (mem_consume_event id name).
Proof.
  intros [db ?] b [Hq Ht]; cbn in Hq, Ht; subst.
  destruct (queue_consume id name b) as [Hr Hq]. rewrite Hr.
  assert (Hsame : let b' := (mem_consume_event id name b).2 in snapshots b' = snapshots b ∧ signals b' = signals b)
    by (unfold mem_consume_event; by destruct (pop_event _ _ _)).
  destruct Hsame as [Hm Hsg]. destruct Ht as [Hs Hf Hsig Hev [Hnd Hlt]].
  unfold d1_consume_event, mbind, io_bind. cbn [select statement d1_faults d1_db fst snd].
  destruct (head (filter (event_for id name) (sq_events db))) as [e|] eqn:Hh; cbn [fst snd].
  - split; [|split; [done|]].
    { rewrite <-(Hev id name). unfold queued. destruct (filter _ _); [done|]. by injection Hh as ->. }
    split; [by rewrite Hm|by unfold filed; rewrite Hm|by unfold pending; rewrite Hsg| |].
    + intros id' name'. change (sq_events (d1_db _)) with (filter (λ x, ev_id x ≠ ev_id e) (sq_events db)). rewrite Hq, (queued_delete id name _ e) by done. by rewrite !Hev.
    + by apply (events_ok_filter (λ x, ev_id x ≠ ev_id e) db).
  - assert (queue b id name = []) as Hnil by (rewrite <-Hev; unfold queued; by destruct (filter _ _)).
    rewrite Hnil. split; [done|]. split; [done|].
    split; cbn; [by rewrite Hm|by unfold filed; rewrite Hm|by unfold pending; rewrite Hsg| |done].
    intros id' name'. rewrite Hq, Hev. case_bool_decide as E; [|done]. destruct E as [-> ->]. by rewrite Hnil.
Qed.

(** Two records of one request, up to the time they carry. *)
Definition same_request (r1 r2 : SignalRequest) : Prop :=
  sr_reason r1 = sr_reason r2 ∧ sr_requested_by r1 = sr_requested_by r2.
Lemma memory_sim_get id kind :
  io_sim memory_sim (option_Forall2 same_request) (d1_get_signal id kind) (mem_get_signal id kind).
Proof.
  intros [db ?] b [Hq Ht]; cbn in Hq, Ht; subst. unfold d1_get_signal, mbind, io_bind; cbn.
  pose proof (ts_signals _ _ Ht id kind) as Hsig. destruct (_ !! SignalKind_as_ref kind) as [g|]; inversion Hsig as [? r (Hr & Hb & t & Hp)|]; subst; cbn.
  - rewrite Hp. cbn. split; [by constructor|done].
  - split; [constructor|done].
Qed.

Lemma memory_sim_cancel t id at_ :
  io_sim memory_sim eq (d1_check_and_cancel t id at_) (mem_check_and_cancel t id at_).
Proof.
  intros w b Hs. rewrite check_and_cancel_default by apply Hs. revert w b Hs.
  change (io_sim memory_sim eq (d1_check_and_cancel t id at_) (default_check_and_cancel t id at_)).
  eapply sim_bind; [apply memory_sim_get|]. intros ? ? Hr. destruct Hr as [r1 r2 [Hr Hb]|]; [|by apply sim_ret].
  eapply sim_bind; [apply memory_sim_load|]. intros s1 s2 Hs. pose proof (same_durable_inv _ _ Hs) as [u ->].
  change (is_in_progress (state (with_output_unflushed u s2))) with (is_in_progress (state s2)).
  case_match; [by apply sim_ret|]. rewrite Hr, Hb.
  eapply sim_bind; [apply memory_sim_save, mark_cancelled_respects|]. intros _ _ _.
  eapply sim_bind; [apply memory_sim_clear|]. intros _ _ _. by apply sim_ret.
Qed.
Lemma memory_sim_pause t id : io_sim memory_sim eq (d1_check_and_pause t id) (mem_check_and_pause t id).
Proof.
  intros w b Hs. rewrite check_and_pause_default by apply Hs. revert w b Hs.
  change (io_sim memory_sim eq (d1_check_and_pause t id) (default_check_and_pause t id)).
  eapply sim_bind; [apply memory_sim_get|]. intros ? ? Hr. destruct Hr as [r1 r2 [Hr Hb]|]; [|by apply sim_ret].
  eapply sim_bind; [apply memory_sim_load|]. intros s1 s2 Hs. pose proof (same_durable_inv _ _ Hs) as [u ->].
  change (is_in_progress (state (with_output_unflushed u s2))) with (is_in_progress (state s2)).
  case_match; [by apply sim_ret|].
  eapply sim_bind; [apply memory_sim_save|].
  { unfold mark_paused; cbn. rewrite Hr, Hb. by case_match. }
  intros _ _ _. eapply sim_bind; [apply memory_sim_clear|]. intros _ _ _. by apply sim_ret.
Qed.
Lemma memory_sim_unpause t id : io_sim memory_sim same_durable (d1_unpause t id) (mem_unpause t id).
Proof.
  intros w b Hs. rewrite unpause_default by apply Hs. revert w b Hs.
  change (io_sim memory_sim same_durable (d1_unpause t id) (default_unpause t id)).
  eapply sim_bind; [apply memory_sim_load|]. intros s1 s2 Hs. pose proof (same_durable_inv _ _ Hs) as [u ->].
  change (state (with_output_unflushed u s2)) with (state s2).
  case_match; [apply sim_throw|]. apply memory_sim_save, mark_unpaused_respects.
Qed.

(** The engine's interface is discharged. *)
#[export] Instance memory_simulates : BackendSim memory_sim.
Proof.
  split; [exact memory_sim_save|exact memory_sim_load|exact memory_sim_delete|exact memory_sim_clear|
    exact memory_sim_send|exact memory_sim_consume|exact memory_sim_cancel|exact memory_sim_pause|exact memory_sim_unpause].
Qed.

(** ** The other operations *)

Lemma memory_sim_task_result t id task output :
  io_sim memory_sim eq (d1_save_task_result t id task output) (mem_save_task_result t id task output).
Proof.
  intros [db ?] b [Hq Ht]; cbn in Hq, Ht; subst. unfold d1_save_task_result, mem_save_task_result, mbind, io_bind.
  rewrite d1_load_quiet. pose proof (ts_snapshots _ _ Ht id) as Hid.
  destruct (sq_snapshots db !! id) as [r|]; inversion Hid as [? s (_ & s' & Hd & Hs) Er Es|Er Es]; subst; cbn; [|done].
  rewrite Hd. cbn. set (s1 := mark_task_completed t task output _).
  destruct (d1_save_quiet s1 db) as (data & Henc & ->). split; [done|]. split; [done|].
  assert (instance_id (mark_task_completed t task output s) = id) as Hi.
  { symmetry in Es. rewrite <-(ts_filed _ _ Ht id s Es). unfold mark_task_completed. by case_match. }
  eapply tables_put; [done| |done| |done|done]; [|by rewrite Hi].
  apply respects_same; [apply mark_task_completed_respects|done].
Qed.

Lemma memory_sim_list : io_sim memory_sim (≡ₚ) d1_list_snapshots mem_list_snapshots.
Proof.
  intros [db ?] b [Hq Ht]; cbn in Hq, Ht; subst. split; [|done]. cbn. rewrite sqlite_order_perm.
  apply NoDup_Permutation; [apply NoDup_fst_map_to_list|apply NoDup_fst_map_to_list|]. intros id.
  rewrite !elem_of_keys. destruct (ts_snapshots _ _ Ht id); [|done]. by split; eexists.
Qed.

(** A signal the in-memory backend ignores because the instance already is where
    it leads is kept by this one. *)
Definition signal_is_news (kind : SignalKind) (st : WorkflowSnapshotState) : bool :=
  match kind with Cancel => negb (is_cancelled st) | Pause => negb (is_paused st) end.
Lemma memory_sim_store id kind request w b :
  memory_sim w b → (∀ s, snapshots b !! id = Some s → signal_is_news kind (state s)) →
  result_rel eq (d1_store_signal id kind request w).1 (mem_store_signal id kind request b).1 ∧
  memory_sim (d1_store_signal id kind request w).2 (mem_store_signal id kind request b).2.
Proof.
  destruct w as [db ?]. intros [Hq Ht] Hnews; cbn in Hq, Ht; subst.
  unfold d1_store_signal, mem_store_signal, mbind, io_bind; cbn. pose proof (ts_snapshots _ _ Ht id) as Hid.
  destruct (sq_snapshots db !! id) as [r|]; inversion Hid as [? s (Hst & _) Er Es|Er Es]; subst; cbn; [|done].
  rewrite Hst. symmetry in Es. specialize (Hnews s Es).
  assert (Hput : tables_sim (upsert_signal id (SignalKind_as_ref kind) request db)
    (with_signals (<[id := <[kind := request]> (default ∅ (signals b !! id))]> (signals b)) b)).
  { destruct Ht as [? ? Hsig ? ?]. split; [done|done| |done|done]. intros id' kind'. rewrite pending_store.
    unfold upsert_signal; cbn. rewrite rows_of_alter. destruct (decide (id' = id)) as [->|].
    - rewrite (bool_decide_true (id = id)) by done. destruct (decide (kind' = kind)) as [->|].
      + rewrite lookup_insert_eq, bool_decide_true by done. constructor. split_and!; [done|done|]. apply parse_strftime.
      + rewrite lookup_insert_ne by (by apply not_eq_sym, signal_key_ne). rewrite bool_decide_false by tauto. apply Hsig.
    - rewrite !bool_decide_false by tauto. apply Hsig. }
  destruct s as [? ? []], kind; cbn in *; done.
Qed.
End Simulation.
