(* ===== verification/D1Invariant.v ===== *)
(** * The SQLite / D1 backend under faults

    The invariant of the tables, kept by every operation whatever happens to its
    round trips; what a failed save or a failed consumption leaves behind; every
    database that satisfies the invariant stands for an in-memory backend; the cron
    sweep. *)

From S2P Require Import Prelude Hash32 SnapshotFormat Task Workflow Snapshot Backend InMemory.
From S2P Require Import Simulation Postgres PostgresSignals PostgresProps PostgresComposites D1 D1Props.

#[local] Arguments rows_of : simpl never.
#[local] Arguments alter_rows : simpl never.

(** ** Calls of the backend *)

Inductive Call : Type :=
| CSave (s : WorkflowSnapshot)
| CTaskResult (now : DateTime) (id : string) (task_id : TaskId) (output : Bytes)
| CLoad (id : string)
| CDelete (id : string)
| CList
| CStore (id : string) (kind : SignalKind) (request : SignalRequest)
| CGet (id : string) (kind : SignalKind)
| CClear (id : string) (kind : SignalKind)
| CSend (id name : string) (payload : Bytes)
| CConsume (id name : string)
| CCancel (now : DateTime) (id : string) (interrupted_at_task : option TaskId)
| CPause (now : DateTime) (id : string)
| CUnpause (now : DateTime) (id : string).
Inductive Reply : Type :=
| RDone | RSnapshot (s : WorkflowSnapshot) | RIds (ids : list string)
| RSignal (request : option SignalRequest) | RPayload (payload : option Bytes) | RFlag (b : bool).

Definition perform {B} `{PersistentBackend B} (c : Call) : io B BackendError Reply :=
  match c with
  | CSave s => RSnapshot <$> save_snapshot s
  | CTaskResult now id task_id output => (λ _, RDone) <$> save_task_result now id task_id output
  | CLoad id => RSnapshot <$> load_snapshot id
  | CDelete id => (λ _, RDone) <$> delete_snapshot id
  | CList => RIds <$> list_snapshots
  | CStore id kind request => (λ _, RDone) <$> store_signal id kind request
  | CGet id kind => RSignal <$> get_signal id kind
  | CClear id kind => (λ _, RDone) <$> clear_signal id kind
  | CSend id name payload => (λ _, RDone) <$> send_event id name payload
  | CConsume id name => RPayload <$> consume_event id name
  | CCancel now id at_ => RFlag <$> check_and_cancel now id at_
  | CPause now id => RFlag <$> check_and_pause now id
  | CUnpause now id => RSnapshot <$> unpause now id
  end.

Section Invariant.
Context `{SerdeSnapshot, !SerdeSnapshotLaws, Sqlite} {date_text} `{!SqliteLaws date_text}.

(** What can happen to a database: a call, its round trips failing as [faults] says,
    or time passing. *)
Inductive d1_step : D1 → D1 → Prop :=
| d1_call c w : d1_step w (perform c w).2
| d1_weather faults w : d1_step w (MkD1 (d1_db w) faults)
| d1_time now w : d1_step w (d1_on (sq_set_now now) w).
Definition d1_reachable (w : D1) : Prop := ∃ now, rtc d1_step (MkD1 (sqlite_empty now) []) w.

(** ** The invariant *)

(** The columns of a row repeat what its blob says. *)
Definition mirrors (r : D1Snapshot) (s : WorkflowSnapshot) : Prop :=
  n_status r = state_name (state s) ∧
  n_definition_hash r = to_hex (def_hash (snapshot_definition_hash s)) ∧
  n_current_task_id r = (λ t, to_hex (task_hash t)) <$> current_task_id s ∧
  n_completed_task_count r = completed_task_count s ∧ n_error r = error_message s ∧
  n_position_kind r = position_kind s ∧ n_delay_wake_at r = dt_to_sqlite (delay_wake_at s) ∧
  n_awaited_signal_name r = awaited_signal_name s.
Definition d1_row_ok (id : string) (r : D1Snapshot) : Prop :=
  ∃ s, d1_decode (n_data r) = Ok s ∧ instance_id s = id ∧ mirrors r s.
(** The versions of an instance are 1, 2, .., n, each a snapshot of it. *)
Definition d1_history_ok (id : string) (rows : gmap Z D1History) : Prop :=
  (∀ v, is_Some (rows !! v) ↔ 1 ≤ v ≤ Z.of_nat (size rows)) ∧
  map_Forall (λ _ h, ∃ s, d1_decode (y_data h) = Ok s ∧ instance_id s = id) rows.
Definition d1_signal_ok (g : D1Signal) : Prop := ∃ t, parse_from_rfc3339 (g_created_at g) = Ok t.

Record d1_wf (db : SqliteDb) : Prop := MkD1Wf {
  wf_rows : map_Forall d1_row_ok (sq_snapshots db);
  wf_history id : d1_history_ok id (rows_of (sq_history db) id);
  wf_signals id : map_Forall (λ _ g, d1_signal_ok g) (rows_of (sq_signals db) id);
  wf_events : events_ok db
}.

(** A statement, whatever the weather: run or not run. *)
Lemma statement_cases {A} (stmt : SqliteDb → A * SqliteDb) w :
  let '(r, w') := statement stmt w in
  match r with
  | Ok a => a = (stmt (d1_db w)).1 ∧ d1_db w' = (stmt (d1_db w)).2
  | Err _ => d1_db w' = d1_db w ∨ d1_db w' = (stmt (d1_db w)).2
  end.
Proof. unfold statement. destruct (d1_faults w) as [|[[]|] ?]; cbn; auto. Qed.

(** Computations that keep a property of the tables, faults or not. *)
Definition keeps (P : SqliteDb → Prop) {A} (m : D1Op A) : Prop := ∀ w, P (d1_db w) → P (d1_db (m w).2).
Lemma keeps_ret P {A} (a : A) : keeps P (mret a).
Proof. by intros w. Qed.
Lemma keeps_throw P {A} e : keeps P (throw e : D1Op A).
Proof. by intros w. Qed.
Lemma keeps_lift P {A} (r : result BackendError A) : keeps P (lift_result r).
Proof. by intros w. Qed.
Lemma keeps_bind P {A C} (m : D1Op A) (k : A → D1Op C) :
  keeps P m → (∀ a, keeps P (k a)) → keeps P (m ≫= k).
Proof.
  intros Hm Hk w HP. specialize (Hm w HP). unfold mbind, io_bind. destruct (m w) as [[a|e] w']; [|done]. by apply Hk.
Qed.
Lemma keeps_fmap P {A C} (f : A → C) (m : D1Op A) : keeps P m → keeps P (f <$> m).
Proof. intros Hm w HP. specialize (Hm w HP). unfold fmap, io_fmap. by destruct (m w) as [[a|e] w']. Qed.
Lemma keeps_statement P {A} (stmt : SqliteDb → A * SqliteDb) :
  (∀ db, P db → P (stmt db).2) → keeps P (statement stmt).
Proof.
  intros Hs w HP. pose proof (statement_cases stmt w) as Hc. destruct (statement stmt w) as [[a|e] w'].
  - destruct Hc as [_ Hc]. cbn. rewrite Hc. by apply Hs.
  - destruct Hc as [Hc|Hc]; cbn; rewrite Hc; [done|by apply Hs].
Qed.
Lemma keeps_select P {A} (q : SqliteDb → A) : keeps P (select q).
Proof. by apply keeps_statement. Qed.
Lemma keeps_execute P (f : SqliteDb → SqliteDb) : (∀ db, P db → P (f db)) → keeps P (execute f).
Proof. intros. by apply keeps_statement. Qed.

(** *** The statements keep it *)

Lemma mirrors_skipped r s : mirrors r s → mirrors r (serde_skipped s).
Proof. done. Qed.
Lemma upsert_wf s data db : d1_encode s = Ok data → d1_wf db → d1_wf (upsert_snapshot s data db).
Proof.
  intros Henc [Hr ? ? ?]. split; [|done|done|done]. apply map_Forall_insert_2; [|done].
  destruct (d1_encode_decode s) as (data' & Henc' & Hdec). assert (data' = data) as -> by congruence.
  exists (serde_skipped s). by destruct (sq_snapshots db !! instance_id s).
Qed.

Lemma max_version_spec {A} (p : Z * A) l :
  let m := foldr (λ q m, Z.max q.1 m) p.1 l in m ∈ (p :: l).*1 ∧ ∀ k, k ∈ (p :: l).*1 → k ≤ m.
Proof.
  cbn. induction l as [|q l [Hm Hle]]; cbn.
  - split; [left|]. intros k Hk%list_elem_of_singleton. lia.
  - split.
    + destruct (Z.max_spec q.1 (foldr (λ q m, Z.max q.1 m) p.1 l)) as [[_ ->]|[_ ->]]; set_solver.
    + intros k. rewrite !elem_of_cons. intros [->|[->|Hk]].
      * assert (p.1 ∈ p.1 :: l.*1) as Hp by left. specialize (Hle _ Hp). lia.
      * lia.
      * assert (k ∈ p.1 :: l.*1) as Hp by by right. specialize (Hle _ Hp). lia.
Qed.
Lemma next_version_size id rows : d1_history_ok id rows → next_version rows = Z.of_nat (size rows) + 1.
Proof.
  intros [Hv _]. unfold next_version. rewrite <-(length_map_to_list rows).
  pose proof (elem_of_keys rows) as Hin. rewrite <-(length_map_to_list rows) in Hv.
  destruct (map_to_list rows) as [|p l]; [done|].
  destruct (max_version_spec p l) as [Hm Hle]. set (m := foldr _ _ _) in *.
  rewrite Hin, Hv in Hm. assert (m = Z.of_nat (length (p :: l))) as ->; [|done].
  assert (is_Some (rows !! Z.of_nat (length (p :: l)))) as Hlast by (rewrite Hv; cbn; lia).
  rewrite <-Hin in Hlast. apply Hle in Hlast. lia.
Qed.
Lemma append_wf s data db : d1_encode s = Ok data → d1_wf db → d1_wf (d1_append_history s data db).
Proof.
  intros Henc [? Hh ? ?]. split; [done| |done|done]. intros id. unfold d1_append_history; cbn. rewrite rows_of_alter.
  case_bool_decide as E; [subst|done]. specialize (Hh (instance_id s)).
  rewrite (next_version_size _ _ Hh). set (rows := rows_of _ _) in *. destruct Hh as [Hv Hd].
  assert (rows !! (Z.of_nat (size rows) + 1) = None) as Hfree.
  { apply eq_None_not_Some. rewrite Hv. lia. }
  split.
  - intros v. rewrite map_size_insert_None by done. destruct (decide (v = Z.of_nat (size rows) + 1)) as [->|].
    + rewrite lookup_insert_eq. split; [lia|by eexists].
    + rewrite lookup_insert_ne by done. rewrite Hv. lia.
  - apply map_Forall_insert_2; [|done]. destruct (d1_encode_decode s) as (data' & Henc' & Hdec).
    assert (data' = data) as -> by congruence. by exists (serde_skipped s).
Qed.

Lemma save_keeps s : keeps d1_wf (d1_save_snapshot s).
Proof.
  intros w Hw. unfold d1_save_snapshot, lift_result. unfold mbind at 1. unfold io_bind at 1.
  destruct (d1_encode s) as [data|] eqn:Henc; [|done]. revert Hw. apply keeps_bind.
  { apply keeps_execute. intros. by apply upsert_wf. }
  intros _. apply keeps_bind; [|intros; apply keeps_ret]. apply keeps_execute. intros. by apply append_wf.
Qed.
Lemma load_keeps P id : keeps P (d1_load_snapshot id).
Proof.
  apply keeps_bind; [apply keeps_select|intros row]. apply keeps_bind; [apply keeps_lift|intros r].
  apply keeps_bind; [apply keeps_lift|intros; apply keeps_ret].
Qed.
Lemma clear_keeps id kind : keeps d1_wf (d1_clear_signal id kind).
Proof.
  apply keeps_execute. intros db [? ? Hs ?]. split; [done|done| |done]. intros id'; cbn. rewrite rows_of_alter.
  case_bool_decide; [|done]. subst. apply map_Forall_delete, Hs.
Qed.
Lemma get_keeps P id kind : keeps P (d1_get_signal id kind).
Proof.
  apply keeps_bind; [apply keeps_select|]. intros [row|]; [|apply keeps_ret].
  apply keeps_bind; [apply keeps_lift|intros; apply keeps_ret].
Qed.
Lemma store_keeps id kind request : keeps d1_wf (d1_store_signal id kind request).
Proof.
  apply keeps_bind; [apply keeps_select|intros row]. apply keeps_bind; [apply keeps_lift|intros r].
  apply keeps_bind; [apply keeps_lift|intros _]. apply keeps_execute. intros db [? ? Hs ?].
  split; [done|done| |done]. intros id'; cbn. rewrite rows_of_alter. case_bool_decide; [subst|done].
  apply map_Forall_insert_2; [apply parse_strftime|apply Hs].
Qed.

Lemma cancel_keeps t id at_ : keeps d1_wf (d1_check_and_cancel t id at_).
Proof.
  apply keeps_bind; [apply get_keeps|]. intros [r|]; [|apply keeps_ret].
  apply keeps_bind; [apply load_keeps|intros s]. case_match; [apply keeps_ret|].
  apply keeps_bind; [apply save_keeps|intros _]. apply keeps_bind; [apply clear_keeps|intros; apply keeps_ret].
Qed.
Lemma pause_keeps t id : keeps d1_wf (d1_check_and_pause t id).
Proof.
  apply keeps_bind; [apply get_keeps|]. intros [r|]; [|apply keeps_ret].
  apply keeps_bind; [apply load_keeps|intros s]. case_match; [apply keeps_ret|].
  apply keeps_bind; [apply save_keeps|intros _]. apply keeps_bind; [apply clear_keeps|intros; apply keeps_ret].
Qed.
Lemma unpause_keeps t id : keeps d1_wf (d1_unpause t id).
Proof. apply keeps_bind; [apply load_keeps|intros s]. case_match; [apply keeps_throw|apply save_keeps]. Qed.

Lemma perform_keeps c : keeps d1_wf (perform c).
Proof.
  destruct c; cbn [perform]; apply keeps_fmap; cbn.
  - apply save_keeps.
  - apply keeps_bind; [apply load_keeps|intros s]. apply keeps_bind; [apply save_keeps|intros; apply keeps_ret].
  - apply load_keeps.
  - apply keeps_bind; [|intros n; case_match; [apply keeps_throw|apply keeps_ret]].
    apply keeps_statement. intros db [Hr ? ? ?]. split; [by apply map_Forall_delete|done|done|done].
  - apply keeps_select.
  - apply store_keeps.
  - apply get_keeps.
  - apply clear_keeps.
  - apply keeps_execute. intros db [? ? ? He]. split; [done|done|done|by apply events_ok_snoc].
  - apply keeps_bind; [apply keeps_select|]. intros [e|]; [|apply keeps_ret].
    apply keeps_bind; [|intros; apply keeps_ret]. apply keeps_execute.
    intros db [? ? ? He]. split; [done|done|done|by apply events_ok_filter].
  - apply cancel_keeps.
  - apply pause_keeps.
  - apply unpause_keeps.
Qed.

Lemma d1_empty_wf now : d1_wf (sqlite_empty now).
Proof.
  split; [apply map_Forall_empty| | |by split; constructor].
  - intros id. unfold rows_of; cbn. rewrite lookup_empty. split; [|apply map_Forall_empty].
    intros v. cbn. rewrite lookup_empty, map_size_empty. split; [by intros [? ?]|lia].
  - intros id. unfold rows_of; cbn. rewrite lookup_empty. apply map_Forall_empty.
Qed.
Lemma reachable_wf w : d1_reachable w → d1_wf (d1_db w).
Proof.
  intros [now Hw]. remember (MkD1 (sqlite_empty now) []) as w0 eqn:E.
  assert (d1_wf (d1_db w0)) as H0' by (subst; apply d1_empty_wf). clear E.
  induction Hw as [|w0 w1 w2 Hstep _ IH]; [done|]. apply IH. destruct Hstep; cbn; [by apply perform_keeps|done|by destruct H0'].
Qed.

(** ** The in-memory backend a database stands for *)

Definition row_view (r : D1Snapshot) : option WorkflowSnapshot := with_trace_parent (n_trace_parent r) <$> ok (d1_decode (n_data r)).
Definition signal_view (g : D1Signal) : option SignalRequest :=
  MkSignalRequest (g_reason g) (g_requested_by g) <$> ok (parse_from_rfc3339 (g_created_at g)).
Definition kinds_view (rows : gmap string D1Signal) : gmap SignalKind SignalRequest :=
  let view kind := rows !! SignalKind_as_ref kind ≫= signal_view in
  partial_alter (λ _, view Cancel) Cancel (partial_alter (λ _, view Pause) Pause ∅).
Definition send_all (l : list EventRow) (b : InMemoryBackend) : InMemoryBackend :=
  foldl (λ b e, (mem_send_event (ev_instance_id e) (ev_signal_name e) (ev_payload e) b).2) b l.
Definition view (db : SqliteDb) : InMemoryBackend :=
  send_all (sq_events db) (MkBackend (omap row_view (sq_snapshots db)) ∅ (kinds_view <$> sq_signals db) ∅ ∅).

Lemma send_all_fields l b :
  snapshots (send_all l b) = snapshots b ∧ signals (send_all l b) = signals b.
Proof. revert b. induction l as [|e l IH]; intros b; [done|]. cbn. unfold send_all in IH. by rewrite !(proj1 (IH _)), !(proj2 (IH _)). Qed.
Lemma send_all_queue l b id name : queue (send_all l b) id name = queue b id name ++ queued id name l.
Proof.
  unfold send_all. induction l as [|e l IH] using rev_ind; [by rewrite app_nil_r|].
  rewrite foldl_snoc, queue_send, IH, queued_snoc.
  destruct (decide (id = ev_instance_id e ∧ name = ev_signal_name e)) as [[-> ->]|Hne].
  - rewrite !bool_decide_true by done. by rewrite IH, app_assoc.
  - rewrite !bool_decide_false by (unfold event_for; naive_solver). by rewrite app_nil_r.
Qed.
Lemma kinds_view_lookup rows kind : kinds_view rows !! kind = rows !! SignalKind_as_ref kind ≫= signal_view.
Proof.
  unfold kinds_view. destruct kind; [by rewrite lookup_partial_alter_eq|].
  rewrite lookup_partial_alter_ne by done. by rewrite lookup_partial_alter_eq.
Qed.

Lemma view_sim db : d1_wf db → memory_sim (MkD1 db []) (view db).
Proof.
  intros [Hr _ Hsig He]. split; [done|]. unfold view.
  destruct (send_all_fields (sq_events db) (MkBackend (omap row_view (sq_snapshots db)) ∅ (kinds_view <$> sq_signals db) ∅ ∅))
    as [Hs Hg]. split; cbn [d1_db]; [| | | |done].
  - intros id. rewrite Hs. cbn. rewrite lookup_omap. destruct (sq_snapshots db !! id) as [r|] eqn:E; cbn; [|constructor].
    destruct (Hr id r E) as (s & Hd & _ & Hm). unfold row_view. rewrite Hd. cbn. constructor.
    split; [apply Hm|]. by exists s.
  - unfold filed. rewrite Hs. cbn. intros id s. rewrite lookup_omap. destruct (sq_snapshots db !! id) as [r|] eqn:E; [|done].
    destruct (Hr id r E) as (s' & Hd & Hid & _). cbn. unfold row_view. rewrite Hd. by intros [= <-].
  - intros id kind. unfold pending. rewrite Hg. cbn. rewrite lookup_fmap. specialize (Hsig id). unfold rows_of in *.
    destruct (sq_signals db !! id) as [rows|]; cbn in *; [|rewrite lookup_empty; constructor].
    rewrite kinds_view_lookup. destruct (rows !! SignalKind_as_ref kind) as [g|] eqn:E; cbn; [|constructor].
    destruct (Hsig _ g E) as [t Ht]. unfold signal_view. rewrite Ht. cbn. constructor. split_and!; [done|done|by exists t].
  - intros id name. rewrite send_all_queue. by unfold queue; cbn; rewrite lookup_empty.
Qed.

(** ** One operation under faults *)

(** What a load that meets no fault would answer. *)
Definition loads (db : SqliteDb) (id : string) (s : WorkflowSnapshot) : Prop :=
  ∃ s', (d1_load_snapshot id (MkD1 db [])).1 = Ok s' ∧ s' ≃ s.
Lemma loads_ext db db' id s : sq_snapshots db' = sq_snapshots db → loads db id s → loads db' id s.
Proof. unfold loads. rewrite !d1_load_quiet. by intros ->. Qed.
Lemma upsert_loads s data db : d1_encode s = Ok data → loads (upsert_snapshot s data db) (instance_id s) s.
Proof.
  intros Henc. destruct (upsert_row s data db Henc) as (r & Hr & _ & s' & Hd & Hs').
  exists (with_trace_parent (n_trace_parent r) s'). split; [|done]. rewrite d1_load_quiet, Hr, lookup_insert_eq. cbn. by rewrite Hd.
Qed.

(** The three things a save can have done to the tables. *)
Lemma save_outcomes s w : ∃ data, d1_encode s = Ok data ∧
  let '(r, w') := d1_save_snapshot s w in
  let db1 := upsert_snapshot s data (d1_db w) in
  match r with
  | Ok s' => s' = s ∧ d1_db w' = d1_append_history s data db1
  | Err _ => d1_db w' = d1_db w ∨ d1_db w' = db1 ∨ d1_db w' = d1_append_history s data db1
  end.
Proof.
  destruct (d1_encode_decode s) as (data & Henc & _). exists data. split; [done|].
  unfold d1_save_snapshot, mbind, io_bind, lift_result. rewrite Henc.
  pose proof (statement_cases (λ db, ((), upsert_snapshot s data db)) w) as H1'. unfold execute.
  destruct (statement _ w) as [[[]|e] w1]; [|tauto]. destruct H1' as [_ Hw1]. cbn in Hw1.
  pose proof (statement_cases (λ db, ((), d1_append_history s data db)) w1) as H2'.
  destruct (statement _ w1) as [[[]|e] w2]; cbn in H2'; rewrite Hw1 in H2'; naive_solver.
Qed.
Lemma consume_outcomes id name w :
  let '(r, w') := d1_consume_event id name w in
  match head (filter (event_for id name) (sq_events (d1_db w))) with
  | None => d1_db w' = d1_db w ∧ match r with Ok o => o = None | Err _ => True end
  | Some e =>
      let db1 := sq_set_events (filter (λ x, ev_id x ≠ ev_id e) (sq_events (d1_db w))) (sq_event_seq (d1_db w)) (d1_db w) in
      match r with
      | Ok o => o = Some (ev_payload e) ∧ d1_db w' = db1
      | Err _ => d1_db w' = d1_db w ∨ d1_db w' = db1
      end
  end.
Proof.
  unfold d1_consume_event, mbind, io_bind, select, execute.
  pose proof (statement_cases (λ db, (head (filter (event_for id name) (sq_events db)), db)) w) as H1'.
  destruct (statement _ w) as [[o|e] w1]; cbn [fst snd] in H1'; [|by destruct (head _); naive_solver].
  destruct H1' as [-> Hw1]. destruct (head _) as [e|]; [|done].
  pose proof (statement_cases (λ db, ((), sq_set_events (filter (λ x, ev_id x ≠ ev_id e) (sq_events db)) (sq_event_seq db) db)) w1) as H2'.
  destruct (statement _ w1) as [[[]|err] w2]; cbn [fst snd] in H2'; rewrite Hw1 in H2'; naive_solver.
Qed.

(** ** Text timestamps *)

Lemma string_le_cons_eq x s u : string_le (String x s) (String x u) = string_le s u.
Proof. cbn. rewrite bool_decide_false by lia. by rewrite bool_decide_true. Qed.
Lemma string_le_cons_ne x y s u : x ≠ y →
  string_le (String x s) (String y u) = bool_decide (Ascii.N_of_ascii x < Ascii.N_of_ascii y)%N.
Proof.
  intros Hxy. cbn. case_bool_decide; [done|]. rewrite bool_decide_false; [done|].
  intros E. apply Hxy. by rewrite <-(Ascii.ascii_N_embedding x), <-(Ascii.ascii_N_embedding y), E.
Qed.
(** Texts that start with words of one length compare by these first. *)
Lemma string_le_app a b r r' :
  String.length a = String.length b → string_le (a +:+ r) (b +:+ r') = if decide (a = b) then string_le r r' else string_le a b.
Proof.
  revert b. induction a as [|x a IH]; intros [|y b] Hl; cbn in Hl; try lia; [done|].
  change (String x a +:+ r) with (String x (a +:+ r)). change (String y b +:+ r') with (String y (b +:+ r')).
  destruct (decide (x = y)) as [->|Hxy].
  - rewrite !string_le_cons_eq, IH by lia. repeat case_decide; naive_solver.
  - rewrite decide_False by naive_solver. by rewrite !string_le_cons_ne.
Qed.

(** A [T] timestamp is at most a [datetime] text exactly when its day is earlier. *)
Lemma stamp_le_datetime stamp t u :
  (∃ r, stamp = date_text (day_of t) +:+ "T" +:+ r) → four_digit_year t → four_digit_year u →
  string_le stamp (datetime u) = bool_decide (day_of t < day_of u).
Proof.
  intros [r ->] Ht Hu. destruct (datetime_text u Hu) as [r' ->]. unfold four_digit_year in *.
  rewrite string_le_app by (by rewrite !date_text_length).
  destruct (Z.lt_trichotomy (day_of t) (day_of u)) as [Hlt|[->|Hgt]].
  - destruct (date_text_lt (day_of t) (day_of u)) as [Hle Hne]; [lia|lia|lia|].
    rewrite decide_False, bool_decide_true by done. by destruct (string_le _ _).
  - rewrite decide_True by done. by rewrite bool_decide_false by lia.
  - destruct (date_text_lt (day_of u) (day_of t)) as [Hle Hne]; [lia|lia|lia|].
    rewrite decide_False, bool_decide_false by (done || lia). destruct (string_le (date_text (day_of t)) _) eqn:E; [|done].
    destruct Hne. apply string_le_antisym; [done|by rewrite E].
Qed.

Lemma filter_none {A} (P : A → Prop) `{!∀ a, Decision (P a)} l : (∀ a, a ∈ l → ¬ P a) → filter P l = [].
Proof.
  induction l as [|a l IH]; intros Hl; [done|]. rewrite filter_cons_False by (apply Hl; left).
  apply IH. intros. apply Hl. by right.
Qed.
Lemma no_row_swept db stale id r : d1_wf db → sq_snapshots db !! id = Some r → ¬ resumable db stale (id, r).
Proof.
  intros Hwf Hr [Hst _]. destruct (wf_rows _ Hwf id r Hr) as (s & _ & _ & Hm & _). cbn in Hst. rewrite Hst in Hm.
  by destruct (state s).
Qed.

(** ** Properties *)

(** C26. Whatever operations run, whatever happens to their round trips (there are no
    transactions: each statement commits alone) and however time passes, the tables
    stay consistent: the columns of a row repeat what its blob says, the history of an
    instance is numbered 1, 2, .., n without a gap and holds snapshots of it, signals
    can be read back and event ids are unique; and such a database stands for an
    in-memory backend, which simulates it. *)
Theorem d1_invariant (w : D1) :
  d1_reachable w → d1_wf (d1_db w) ∧ memory_sim (MkD1 (d1_db w) []) (view (d1_db w)).
Proof. intros Hw%reachable_wf. split; [done|]. by apply view_sim. Qed.

(** C27. A fault in the middle of a save or of a consumption does bounded damage.  A save
    that succeeds has stored the snapshot and appended a history row; one that fails
    has changed nothing a load sees or stored the snapshot all the same, never a
    mixture, and other instances, signals and events are untouched.  A consumption
    answers the oldest event and removes it; when it fails the queue is unchanged or
    the oldest event is gone, and other queues are untouched. *)
Theorem d1_faults_contained (w : D1) (s : WorkflowSnapshot) (id name : string) :
  d1_wf (d1_db w) →
  (let '(r, w') := d1_save_snapshot s w in
   (∀ id', id' ≠ instance_id s → sq_snapshots (d1_db w') !! id' = sq_snapshots (d1_db w) !! id' ∧
      rows_of (sq_history (d1_db w')) id' = rows_of (sq_history (d1_db w)) id') ∧
   sq_signals (d1_db w') = sq_signals (d1_db w) ∧ sq_events (d1_db w') = sq_events (d1_db w) ∧
   match r with
   | Ok s' => s' = s ∧ loads (d1_db w') (instance_id s) s ∧
       size (rows_of (sq_history (d1_db w')) (instance_id s)) = S (size (rows_of (sq_history (d1_db w)) (instance_id s)))
   | Err _ => sq_snapshots (d1_db w') = sq_snapshots (d1_db w) ∨ loads (d1_db w') (instance_id s) s
   end) ∧
  (let '(r, w') := d1_consume_event id name w in
   (∀ id' name', ¬ (id' = id ∧ name' = name) → queued id' name' (sq_events (d1_db w')) = queued id' name' (sq_events (d1_db w))) ∧
   let before := queued id name (sq_events (d1_db w)) in
   let after := queued id name (sq_events (d1_db w')) in
   match r with
   | Ok o => o = head before ∧ after = tail before
   | Err _ => after = before ∨ after = tail before
   end).
Proof.
  intros Hwf. split.
  - destruct (save_outcomes s w) as (data & Henc & Ho). destruct (d1_save_snapshot s w) as [r w'].
    assert (Hdbs : d1_db w' = d1_db w ∨ d1_db w' = upsert_snapshot s data (d1_db w) ∨
      d1_db w' = d1_append_history s data (upsert_snapshot s data (d1_db w))) by (destruct r; naive_solver).
    split; [|split; [|split]].
    + intros id' Hid. destruct Hdbs as [->|[->| ->]]; [done| |]; cbn; rewrite lookup_insert_ne by done; [done|].
      by rewrite rows_of_alter_ne.
    + by destruct Hdbs as [->|[->| ->]].
    + by destruct Hdbs as [->|[->| ->]].
    + pose proof (upsert_loads s data (d1_db w) Henc) as Hl.
      assert (loads (d1_append_history s data (upsert_snapshot s data (d1_db w))) (instance_id s) s) as Hl'
        by (by eapply loads_ext; [|exact Hl]).
      destruct r as [s'|e].
      * destruct Ho as [-> ->]. split_and!; [done|done|]. unfold d1_append_history; cbn [sq_set_history sq_history].
        rewrite rows_of_alter_eq. pose proof (wf_history _ Hwf (instance_id s)) as Hh.
        change (sq_history (upsert_snapshot s data (d1_db w))) with (sq_history (d1_db w)).
        rewrite (next_version_size _ _ Hh). apply map_size_insert_None.
        apply eq_None_not_Some. rewrite (proj1 Hh). lia.
      * destruct Ho as [->|[->| ->]]; auto.
  - pose proof (consume_outcomes id name w) as Ho. destruct (d1_consume_event id name w) as [r w'].
    destruct (wf_events _ Hwf) as [Hnd _]. cbn zeta in Ho |- *.
    destruct (head (filter (event_for id name) (sq_events (d1_db w)))) as [e|] eqn:Hh.
    + pose proof (λ id' name', queued_delete id name _ e id' name' Hnd Hh) as Hdel.
      assert (head (queued id name (sq_events (d1_db w))) = Some (ev_payload e)) as Hhead.
      { unfold queued. destruct (filter _ _); [done|]. by injection Hh as ->. }
      assert (Hdbs : d1_db w' = d1_db w ∨ sq_events (d1_db w') = filter (λ x, ev_id x ≠ ev_id e) (sq_events (d1_db w))).
      { destruct r as [o|err]; [destruct Ho as [_ ->]; by right|destruct Ho as [->| ->]; [by left|by right]]. }
      split.
      * intros id' name' Hne. destruct Hdbs as [Hd|Hd]; rewrite Hd; [done|]. rewrite Hdel by done. by rewrite bool_decide_false.
      * destruct r as [o|err]; [destruct Ho as [-> ->]|destruct Ho as [->| ->]]; cbn [sq_set_events sq_events];
          rewrite ?Hdel, ?bool_decide_true by done; auto.
    + assert (queued id name (sq_events (d1_db w)) = []) as Hnil by (unfold queued; by destruct (filter _ _)).
      destruct Ho as [-> Ho]. rewrite Hnil. split; [by intros|]. destruct r; [by subst|by left].
Qed.

(** The cron sweep finds nothing: the statuses the backend writes are the state
    names, and the query asks for [in_progress].  Were the status right, a parked
    instance would become ready only on the day after its wake time, as a wake time
    is stored with a [T] and compared as text with [datetime('now')]. *)
Theorem d1_sweep_finds_nothing (w : D1) (stale limit : Z) :
  d1_reachable w → d1_faults w = [] →
  (find_resumable_instances stale limit w).1 = Ok [] ∧
  ∀ id r s wake, sq_snapshots (d1_db w) !! id = Some r → loads (d1_db w) id s → delay_wake_at s = Some wake →
    four_digit_year wake → four_digit_year (sq_now (d1_db w)) →
    sweep_ready (d1_db w) r = bool_decide (day_of wake < day_of (sq_now (d1_db w))).
Proof.
  intros Hw%reachable_wf Hq. split.
  - unfold find_resumable_instances, select, statement. rewrite Hq. cbn [fst snd]. rewrite filter_none; [cbn; by rewrite take_nil|].
    intros [id r] Hin. rewrite sqlite_order_perm, elem_of_map_to_list in Hin. by apply no_row_swept.
  - intros id r s wake Hr (s' & Hl & Hs) Hwake H4 H4'. destruct (wf_rows _ Hw id r Hr) as (s0 & Hd & _ & Hm).
    rewrite d1_load_quiet, Hr in Hl. cbn in Hl. rewrite Hd in Hl. injection Hl as <-.
    destruct Hm as (_ & _ & _ & _ & _ & _ & Hn & _). unfold sweep_ready. rewrite Hn.
    assert (delay_wake_at s0 = Some wake) as ->.
    { rewrite <-Hwake. apply same_durable_inv in Hs as [u Hs].
      change (delay_wake_at s0) with (delay_wake_at (with_trace_parent (n_trace_parent r) s0)). by rewrite Hs. }
    by apply stamp_le_datetime; [apply format_millis_text| |].
Qed.
End Invariant.
