(* ===== verification/D1Engine.v ===== *)
(** * The Cloudflare engine over its D1 database

    Runs of backend calls on a database and on the in-memory backend it stands for
    answer alike; so do requests to the engine; and a workflow started on D1 completes
    with the output it means, by the theorem about the in-memory store. *)

From S2P Require Import Prelude Hash32 Task Workflow Snapshot Backend InMemory Runtime Lifecycle SyncExec Checkpoint.
From S2P Require Import TaskIndex Serializable Cloudflare CloudflareProps Simulation Postgres PostgresSignals PostgresProps.
From S2P Require Import D1 D1Props D1Invariant.

(** ** Runs of backend calls *)

Definition same_reply (r1 r2 : Reply) : Prop :=
  match r1, r2 with
  | RSnapshot s1, RSnapshot s2 => s1 ≃ s2
  | RIds l1, RIds l2 => l1 ≡ₚ l2
  | RSignal o1, RSignal o2 => option_Forall2 same_request o1 o2
  | _, _ => r1 = r2
  end.

(** A call that does not ask for a state the instance is in already. *)
Definition news_for (kind : SignalKind) (id : string) (b : InMemoryBackend) : bool :=
  match snapshots b !! id with Some s => signal_is_news kind (state s) | None => true end.
Definition call_news (c : Call) (b : InMemoryBackend) : bool :=
  match c with CStore id kind _ => news_for kind id b | _ => true end.
Fixpoint all_news (cs : list (DateTime * Call)) (b : InMemoryBackend) : bool :=
  match cs with
  | [] => true
  | (_, c) :: cs => call_news c b && all_news cs (perform c b).2
  end.
(** Calls in a row, each at an instant of the store's clock. *)
Fixpoint run_calls {B} `{PersistentBackend B} (tick : DateTime → B → B) (cs : list (DateTime * Call)) (b : B) :
    list (result BackendError Reply) * B :=
  match cs with
  | [] => ([], b)
  | (t, c) :: cs =>
      let '(r, b) := perform c (tick t b) in
      let '(rs, b) := run_calls tick cs b in (r :: rs, b)
  end.
Definition d1_tick (t : DateTime) : D1 → D1 := d1_on (sq_set_now t).
Definition no_tick {B} (_ : DateTime) (b : B) : B := b.

Section Calls.
Context `{SerdeSnapshot, !SerdeSnapshotLaws, Sqlite} {date_text} `{!SqliteLaws date_text}.

Lemma tick_sim t w b : memory_sim w b → memory_sim (d1_tick t w) b.
Proof. intros [Hq [? ? ? ? ?]]. split; [done|]. by split. Qed.

Lemma sim_reply {A1 A2} (RA : A1 → A2 → Prop) (f1 : A1 → Reply) (f2 : A2 → Reply) (m1 : io D1 BackendError A1)
    (m2 : io InMemoryBackend BackendError A2) w b :
  result_rel RA (m1 w).1 (m2 b).1 ∧ memory_sim (m1 w).2 (m2 b).2 → (∀ a1 a2, RA a1 a2 → same_reply (f1 a1) (f2 a2)) →
  result_rel same_reply ((f1 <$> m1) w).1 ((f2 <$> m2) b).1 ∧ memory_sim ((f1 <$> m1) w).2 ((f2 <$> m2) b).2.
Proof.
  intros [Hr Hs] Hf. unfold fmap, io_fmap. destruct (m1 w) as [[a1|e1] w'], (m2 b) as [[a2|e2] b']; cbn in *; auto.
Qed.
Lemma perform_sim c w b : memory_sim w b → call_news c b →
  result_rel same_reply (perform c w).1 (perform c b).1 ∧ memory_sim (perform c w).2 (perform c b).2.
Proof.
  intros Hs Hnews. destruct c; cbn [perform].
  all: eapply sim_reply; [first [by apply memory_sim_save|by apply memory_sim_task_result|by apply memory_sim_load
    |by apply memory_sim_delete|by apply memory_sim_list|by apply memory_sim_get|by apply memory_sim_clear
    |by apply memory_sim_send|by apply memory_sim_consume|by apply memory_sim_cancel|by apply memory_sim_pause
    |by apply memory_sim_unpause|apply memory_sim_store; [done|]]|]; try (by intros; subst).
  intros s Hl. cbn in Hnews. unfold news_for in Hnews. by rewrite Hl in Hnews.
Qed.

Lemma run_calls_sim cs w b : memory_sim w b → all_news cs b →
  Forall2 (result_rel same_reply) (run_calls d1_tick cs w).1 (run_calls no_tick cs b).1.
Proof.
  revert w b. induction cs as [|[t c] cs IH]; intros w b Hs Hn; cbn in *; [constructor|].
  apply andb_prop_elim in Hn as [Hc Hn].
  destruct (perform_sim c (d1_tick t w) b) as [Hr Hs']; [by apply tick_sim|done|].
  change (no_tick t b) with b.
  destruct (perform c (d1_tick t w)) as [r1 w1], (perform c b) as [r2 b2]; cbn in *. specialize (IH _ _ Hs' Hn).
  destruct (run_calls d1_tick cs w1), (run_calls no_tick cs b2); cbn in *. by constructor.
Qed.

(** C25. The D1 backend refines the in-memory one: from any database that operations and
    faults can lead to, calls that meet no fault get the answers the in-memory
    backend it stands for gives, errors included, snapshots up to the flag [serde]
    skips, signals up to their time stamp and lists up to order.  The calls may be
    any, except that no cancel is requested of a cancelled instance and no pause of a
    paused one, which the in-memory backend ignores and D1 records. *)
Theorem d1_refines_memory (w : D1) (cs : list (DateTime * Call)) :
  d1_reachable w → all_news cs (view (d1_db w)) →
  Forall2 (result_rel same_reply) (run_calls d1_tick cs (MkD1 (d1_db w) [])).1
    (run_calls no_tick cs (view (d1_db w))).1.
Proof. intros Hw%reachable_wf Hn. apply run_calls_sim; [by apply view_sim|done]. Qed.
End Calls.

(** ** Requests to the engine *)

Inductive Request `{JsEngine} {F : Type} : Type :=
| QRun (self : WasmDurableEngine) (wf : WasmWorkflow (F:=F)) (id : string) (input registry : JsValue)
| QResume (wf : WasmWorkflow (F:=F)) (id : string) (registry : JsValue)
| QCancel (id : string) (reason cancelled_by : option string)
| QPause (id : string) (reason paused_by : option string)
| QSignal (id signal_name : string) (payload : JsValue)
| QUnpause (id : string).
Arguments Request {_} F.
Inductive Answer : Type := AStatus (status : Status.WorkflowStatus) (output : option Bytes) | ADone.

Section Requests.
Context `{JsEngine, Sha256, Chrono, Display} {F : Type}.

Definition serve {B} `{PersistentBackend B, Environment B} (q : Request F) : io (World B) JsStop Answer :=
  match q with
  | QRun self wf id input registry => (λ p, AStatus p.1 p.2) <$> engine_run self wf id input registry
  | QResume wf id registry => (λ p, AStatus p.1 p.2) <$> engine_resume wf id registry
  | QCancel id reason by_ => (λ _, ADone) <$> engine_cancel id reason by_
  | QPause id reason by_ => (λ _, ADone) <$> engine_pause id reason by_
  | QSignal id name payload => (λ _, ADone) <$> engine_send_signal id name payload
  | QUnpause id => (λ _, ADone) <$> engine_unpause id
  end.
Fixpoint serve_all {B} `{PersistentBackend B, Environment B} (qs : list (Request F)) (w : World B) :
    list (result JsStop Answer) * World B :=
  match qs with
  | [] => ([], w)
  | q :: qs =>
      let '(r, w) := serve q w in
      let '(rs, w) := serve_all qs w in (r :: rs, w)
  end.

(** The requests that ask for a state the instance is in already when they arrive:
    the clock is read first, then the others move. *)
Definition request_news `{Environment InMemoryBackend} (q : Request F) (w : World InMemoryBackend) : bool :=
  match q with
  | QCancel id _ _ => news_for Cancel id (others (S (steps w)) (store w))
  | QPause id _ _ => news_for Pause id (others (S (steps w)) (store w))
  | _ => true
  end.
Fixpoint requests_news `{Environment InMemoryBackend} (qs : list (Request F)) (w : World InMemoryBackend) : bool :=
  match qs with
  | [] => true
  | q :: qs => request_news q w && requests_news qs (serve q w).2
  end.

Context `{SerdeSnapshot, !SerdeSnapshotLaws, Sqlite} {date_text} `{!SqliteLaws date_text}.
Context `{Environment D1, Environment InMemoryBackend}.
Context (same_clock : ∀ n, clock (B:=D1) n = clock (B:=InMemoryBackend) n).
Context (same_others : ∀ n w b, memory_sim w b → memory_sim (others n w) (others n b)).

Lemma store_request_sim id kind reason by_ w1 w2 :
  world_sim (R:=memory_sim) w1 w2 → news_for kind id (others (S (steps w2)) (store w2)) →
  let op {B} `{PersistentBackend B, Environment B} : io (World B) JsStop unit :=
    t ← js_now; js_call (λ _, store_signal id kind (SignalRequest_new t reason by_)) in
  (op w1).1 = (op w2).1 ∧ world_sim (R:=memory_sim) (op w1).2 (op w2).2.
Proof.
  destruct w1 as [b1 n1], w2 as [b2 n2]. intros [HR Hn] Hnews; cbn in *. subst n1.
  unfold mbind, io_bind, js_now, read_clock, js_call, io_map_err, call; cbn. rewrite same_clock.
  destruct (memory_sim_store id kind (SignalRequest_new (clock n2) reason by_) (others (S n2) b1) (others (S n2) b2))
    as [Hr Hs].
  - by apply same_others.
  - intros s Hl. unfold news_for in Hnews. by rewrite Hl in Hnews.
  - destruct (d1_store_signal _ _ _ _) as [[[]|] ?], (mem_store_signal _ _ _ _) as [[[]|] ?]; cbn in *; subst; done.
Qed.

Lemma io_sim_eq {E A} (m1 : io (World D1) E A) (m2 : io (World InMemoryBackend) E A) w1 w2 :
  io_sim (world_sim (R:=memory_sim)) eq m1 m2 → world_sim (R:=memory_sim) w1 w2 →
  (m1 w1).1 = (m2 w2).1 ∧ world_sim (R:=memory_sim) (m1 w1).2 (m2 w2).2.
Proof. intros Hm Hw. destruct (Hm _ _ Hw) as [Hr%result_rel_eq Hw']. done. Qed.
Lemma fmap_sim {E A C} (g : A → C) (m1 : io (World D1) E A) (m2 : io (World InMemoryBackend) E A) w1 w2 :
  (m1 w1).1 = (m2 w2).1 ∧ world_sim (R:=memory_sim) (m1 w1).2 (m2 w2).2 →
  ((g <$> m1) w1).1 = ((g <$> m2) w2).1 ∧ world_sim (R:=memory_sim) ((g <$> m1) w1).2 ((g <$> m2) w2).2.
Proof.
  intros [Hr Hw]. unfold fmap, io_fmap. destruct (m1 w1) as [[] ?], (m2 w2) as [[] ?]; cbn in *; by simplify_eq.
Qed.
Lemma serve_sim q w1 w2 : world_sim (R:=memory_sim) w1 w2 → request_news q w2 →
  (serve q w1).1 = (serve q w2).1 ∧ world_sim (R:=memory_sim) (serve q w1).2 (serve q w2).2.
Proof.
  intros Hw Hn. destruct q; cbn [serve]; apply fmap_sim.
  - apply io_sim_eq; [by apply sim_engine_run|done].
  - apply io_sim_eq; [by apply sim_engine_resume|done].
  - by apply store_request_sim.
  - by apply store_request_sim.
  - apply io_sim_eq; [by apply sim_engine_send_signal|done].
  - apply io_sim_eq; [by apply sim_engine_unpause|done].
Qed.
Lemma serve_all_sim qs w1 w2 : world_sim (R:=memory_sim) w1 w2 → requests_news qs w2 →
  (serve_all qs w1).1 = (serve_all qs w2).1.
Proof.
  revert w1 w2. induction qs as [|q qs IH]; intros w1 w2 Hw Hn; cbn in *; [done|]. apply andb_prop_elim in Hn as [Hq Hn].
  destruct (serve_sim q w1 w2 Hw Hq) as [Hr Hw'].
  destruct (serve q w1) as [r1 w1'], (serve q w2) as [r2 w2']; cbn in *. specialize (IH _ _ Hw' Hn).
  destruct (serve_all qs w1'), (serve_all qs w2'); cbn in *. by subst.
Qed.
End Requests.

(** ** Properties of the engine on D1 *)

#[local] Existing Instances js_envelopes js_json.

Section Engine.
Context `{JsEngine, Sha256, Chrono, Display} {F : Type}.
Context `{SerdeSnapshot, !SerdeSnapshotLaws, Sqlite} {date_text} `{!SqliteLaws date_text}.

(** C24. The Cloudflare engine gives the same answers over its D1 database as over the
    in-memory backend it stands for: requests to run, resume, cancel, pause, signal and
    unpause, in any order, from any database that operations and faults can lead to,
    with the same clock and other clients that act alike on both, answer the same,
    thrown errors included, so long as the round trips meet no fault, no pause is
    requested of a paused instance and no cancel of a cancelled one (which D1 records
    and the in-memory backend ignores). *)
Theorem d1_engine_equivalent `{Environment D1, Environment InMemoryBackend} (qs : list (Request F)) (w : World D1) :
  (∀ n, clock (B:=D1) n = clock (B:=InMemoryBackend) n) →
  (∀ n w b, memory_sim w b → memory_sim (others n w) (others n b)) →
  d1_reachable (store w) → d1_faults (store w) = [] →
  let m := MkWorld (view (d1_db (store w))) (steps w) in
  requests_news qs m → (serve_all qs w).1 = (serve_all qs m).1.
Proof.
  intros Hclock Hothers Hw%reachable_wf Hq m Hn. apply serve_all_sim; [done|done| |done].
  destruct w as [[db fs] n]. cbn in *. subst. split; [by apply view_sim|done].
Qed.

(** C23. A request that starts a workflow on the Cloudflare engine over its D1 database,
    end to end: a fresh instance of a workflow of tasks, forks with joins, conditional
    branches, loops and child workflows in any nesting, its functions answering [f],
    on a consistent database where only time passes meanwhile, is reported completed
    with the output the workflow means by the specification the other executors
    implement, and a load of the instance shows it. *)
Theorem d1_run_correct `{Environment D1} (registry input : JsValue) (f : string → Bytes → result BoxError Bytes)
    (self : WasmDurableEngine) (wf : WasmWorkflow (F:=F)) (id : string) (bytes o : Bytes) (w : World D1) :
  let c := wasm_continuation wf in
  let db := d1_db (store w) in
  (∀ n w, ∃ t, others n w = d1_tick t w) →
  (∀ n id i, ok (call_js_task registry n id i) = ok (f id i)) →
  (∀ v s, stringify_with_replacer_func binary_replacer v = Ok s → text (as_bytes s)) →
  immediate c = true → forks_joined c = true → find_duplicate_id c = None → collision_free (node_ids c) →
  validate_instance_id id = Ok () →
  d1_wf db → d1_faults (store w) = [] → sq_snapshots db !! id = None → rows_of (sq_signals db) id = ∅ →
  encode_js_value input = Ok bytes → evaluates f eq c bytes o →
  ∃ s w', engine_run self wf id input registry w = (Ok (Status.Completed, Some o), w') ∧
    loads (d1_db (store w')) id s ∧ state s = Completed o.
Proof.
  intros c db Hothers Hf Htext Him Hj Hd Hcf Hid Hwf Hq Hs Hsig Henc He.
  set (E := {| clock := clock (B:=D1); others _ b := b |} : Environment InMemoryBackend).
  set (m := MkWorld (view db) (steps w)).
  assert (Hm : world_sim (R:=memory_sim) w m).
  { destruct w as [[db' fs] n]. cbn in *. subst. split; [by apply view_sim|done]. }
  destruct Hm as [[Hq' Ht] Hsteps].
  assert (snapshots (view db) !! id = None) as Hms.
  { pose proof (ts_snapshots _ _ Ht id) as Hr. fold db in Hr. rewrite Hs in Hr. by inversion Hr. }
  assert (∀ kind, pending (view db) id kind = None) as Hmp.
  { intros kind. pose proof (ts_signals _ _ Ht id kind) as Hr. fold db in Hr. rewrite Hsig, lookup_empty in Hr. by inversion Hr. }
  destruct (wasm_run_correct (H3:=E) registry input f self wf id bytes o m) as (s & m' & Hrun & Hl & Hst); try done.
  destruct (io_sim_eq (engine_run self wf id input registry) (engine_run self wf id input registry) w m) as [Hr Hw'].
  { apply sim_engine_run; [done|]. intros n w0 b0 Hs0. destruct (Hothers n w0) as [t ->]. by apply tick_sim. }
  { by split. }
  rewrite Hrun in Hr, Hw'. destruct (engine_run self wf id input registry w) as [r w'] eqn:Er; cbn in Hr, Hw'. subst r.
  destruct Hw' as [[Hq2 Ht2] _]. exists s, w'. split; [done|]. split; [|done].
  pose proof (ts_snapshots _ _ Ht2 id) as Hrow. rewrite Hl in Hrow.
  inversion Hrow as [r ? (_ & s' & Hdec & Hs') Hr|]; subst. exists (with_trace_parent (n_trace_parent r) s').
  split; [|done]. rewrite d1_load_quiet, <-Hr. cbn. by rewrite Hdec.
Qed.
End Engine.
