(* ===== verification/D1Migrations.v ===== *)
(** * Schema migrations of the SQLite / D1 backend ([sayiir-d1/src/schema.rs], [backend.rs])

    The schema a database has (tables with their columns, indexes, the version row),
    the statements of [migrations/] on it, and [run_migrations].  The driver runs the
    statements of a migration in order and stops at the first error; each commits
    alone, so a connection that fails leaves the ones that ran. *)

From S2P Require Import Prelude Backend.

(** ** The schema *)

Record Schema : Type := MkSchema {
  sc_tables : gmap string (gset string);
  sc_indexes : gset string;
  sc_version : option Z                    (* the row of [sayiir_schema_version] *)
}.
#[export] Instance Schema_eq_dec : EqDecision Schema.
Proof. solve_decision. Defined.
Definition schema_empty : Schema := MkSchema ∅ ∅ None.

Inductive Sql : Type :=
| CreateTable (table : string) (columns : list string)        (* IF NOT EXISTS *)
| CreateIndex (index table : string) (columns : list string)  (* IF NOT EXISTS *)
| AddColumn (table column : string)
| SeedVersion                                                 (* INSERT OR IGNORE .. (1, 0) *)
| SetVersion (version : Z).                                   (* UPDATE .. WHERE id = 1 *)

Inductive SqlError : Type := NoSuchTable (table : string) | NoSuchColumn (column : string) | DuplicateColumn (column : string).

(** SQLite's messages. *)
Class SqlMessages : Type := sql_error_to_string : SqlError → string.
Definition contains (part s : string) : bool := match String.index 0 part s with Some _ => true | None => false end.
Definition is_duplicate_column (msg : string) : bool := contains "duplicate column name" msg.
Definition error_name (e : SqlError) : string :=
  match e with NoSuchTable n | NoSuchColumn n | DuplicateColumn n => n end.
(** A message names a duplicate column only when it reports one, or quotes a name
    that does. *)
Class SqlMessagesLaws `{SqlMessages} : Prop :=
  duplicate_message e : is_duplicate_column (error_name e) = false →
    is_duplicate_column (sql_error_to_string e) = match e with DuplicateColumn _ => true | _ => false end.

Definition version_table : string := "sayiir_schema_version".
Definition run_sql (q : Sql) (sc : Schema) : result SqlError Schema :=
  match q with
  | CreateTable t cols =>
      match sc_tables sc !! t with
      | Some _ => Ok sc
      | None => Ok (MkSchema (<[t := list_to_set cols]> (sc_tables sc)) (sc_indexes sc) (sc_version sc))
      end
  | CreateIndex i t cols =>
      match sc_tables sc !! t with
      | None => Err (NoSuchTable t)
      | Some have =>
          if bool_decide (i ∈ sc_indexes sc) then Ok sc
          else match filter (λ c, c ∉ have) cols with
               | c :: _ => Err (NoSuchColumn c)
               | [] => Ok (MkSchema (sc_tables sc) ({[i]} ∪ sc_indexes sc) (sc_version sc))
               end
      end
  | AddColumn t c =>
      match sc_tables sc !! t with
      | None => Err (NoSuchTable t)
      | Some have =>
          if bool_decide (c ∈ have) then Err (DuplicateColumn c)
          else Ok (MkSchema (<[t := {[c]} ∪ have]> (sc_tables sc)) (sc_indexes sc) (sc_version sc))
      end
  | SeedVersion =>
      match sc_tables sc !! version_table with
      | None => Err (NoSuchTable version_table)
      | Some _ => Ok (MkSchema (sc_tables sc) (sc_indexes sc) (Some (default 0 (sc_version sc))))
      end
  | SetVersion v =>
      match sc_tables sc !! version_table with
      | None => Err (NoSuchTable version_table)
      | Some _ => Ok (MkSchema (sc_tables sc) (sc_indexes sc) ((λ _, v) <$> sc_version sc))
      end
  end.
(** The statements of one [execute], up to the first error. *)
Fixpoint run_sqls (qs : list Sql) (sc : Schema) : option SqlError * Schema :=
  match qs with
  | [] => (None, sc)
  | q :: qs => match run_sql q sc with Ok sc => run_sqls qs sc | Err e => (Some e, sc) end
  end.

(** ** The migrations ([migrations/], [MIGRATIONS]) *)

Record Migration : Type := MkMigration { mig_version : Z; mig_sql : list Sql }.

Definition snapshots_table : string := "sayiir_workflow_snapshots".
Definition history_table : string := "sayiir_workflow_snapshot_history".
Definition initial_sql : list Sql := [
  CreateTable snapshots_table ["instance_id"; "status"; "definition_hash"; "current_task_id"; "completed_task_count";
    "data"; "error"; "position_kind"; "delay_wake_at"; "trace_parent"; "awaited_signal_name"; "started_at";
    "completed_at"; "updated_at"];
  CreateIndex "idx_snapshots_status" snapshots_table ["status"];
  CreateIndex "idx_snapshots_task" snapshots_table ["current_task_id"];
  CreateIndex "idx_snapshots_updated" snapshots_table ["updated_at"];
  CreateIndex "idx_snapshots_position" snapshots_table ["position_kind"];
  CreateIndex "idx_snapshots_awaited_signal" snapshots_table ["awaited_signal_name"];
  CreateTable history_table ["id"; "instance_id"; "version"; "status"; "current_task_id"; "data"; "created_at"];
  CreateIndex "idx_history_instance" history_table ["instance_id"; "version"];
  CreateTable "sayiir_workflow_signals" ["instance_id"; "kind"; "reason"; "requested_by"; "created_at"];
  CreateTable "sayiir_workflow_events" ["id"; "instance_id"; "signal_name"; "payload"; "created_at"];
  CreateIndex "idx_events_instance_signal" "sayiir_workflow_events" ["instance_id"; "signal_name"; "id"]
].
Definition priority_sql : list Sql := [AddColumn snapshots_table "task_priority"].
Definition tags_sql : list Sql := [AddColumn snapshots_table "task_tags"].
Definition awaited_sql : list Sql := [
  AddColumn snapshots_table "awaited_signal_name";
  CreateIndex "idx_snapshots_awaited_signal" snapshots_table ["awaited_signal_name"]
].
Definition MIGRATIONS : list Migration := [
  MkMigration 1 initial_sql; MkMigration 2 priority_sql; MkMigration 3 tags_sql; MkMigration 4 awaited_sql
].

(** ** [run_migrations] *)

(** The database and what happens to the next round trips: [Some (n, msg)] runs the
    first [n] statements and then fails with [msg]. *)
Record Migrator : Type := MkMigrator { mg_schema : Schema; mg_faults : list (option (nat * string)) }.
Abbreviation MigOp := (io Migrator BackendError).

Section Migrate.
Context `{SqlMessages}.

Definition run_all (qs : list Sql) (fs : list (option (nat * string))) (sc : Schema) : result string unit * Migrator :=
  let '(e, sc) := run_sqls qs sc in
  (match e with None => Ok () | Some e => Err (sql_error_to_string e) end, MkMigrator sc fs).
(** [sqlx::query(sql).execute(&conn)]. *)
Definition execute_sql (qs : list Sql) : io Migrator string unit := λ w,
  match mg_faults w with
  | Some (n, msg) :: fs =>
      let '(r, w) := run_all (take n qs) fs (mg_schema w) in
      (match r with Err e => Err e | Ok _ => Err msg end, w)
  | None :: fs => run_all qs fs (mg_schema w)
  | [] => run_all qs [] (mg_schema w)
  end.
(** [fetch_one] of the version row and its decoding. *)
Definition read_version : MigOp Z := λ w,
  match mg_faults w with
  | Some (_, msg) :: fs => (Err (BackendErr ("read schema version: " +:+ msg)), MkMigrator (mg_schema w) fs)
  | fs =>
      (ok_or (sc_version (mg_schema w)) (BackendErr "read schema version: no rows returned by a query that expected to return at least one row"),
       MkMigrator (mg_schema w) (tail fs))
  end.
Definition context (what : string) (m : io Migrator string unit) : MigOp unit :=
  io_map_err (λ e, BackendErr (what +:+ ": " +:+ e)) m.

Definition version_text (v : Z) : string := pretty (Z.to_N v).
(** The body of the loop. *)
Definition apply_migration (m : Migration) : MigOp unit := λ w,
  let '(r, w) := execute_sql (mig_sql m) w in
  let bump := context ("bump schema version to " +:+ version_text (mig_version m)) (execute_sql [SetVersion (mig_version m)]) in
  match r with
  | Ok _ => bump w
  | Err e =>
      if is_duplicate_column e then bump w
      else (Err (BackendErr ("migration " +:+ version_text (mig_version m) +:+ " failed: " +:+ e)), w)
  end.
Fixpoint apply_from (current : Z) (ms : list Migration) : MigOp unit :=
  match ms with
  | [] => mret ()
  | m :: ms =>
      if bool_decide (mig_version m ≤ current) then apply_from current ms
      else apply_migration m ≫= λ _, apply_from current ms
  end.
Definition run_migrations : MigOp unit :=
  context "create sayiir_schema_version" (execute_sql [CreateTable version_table ["id"; "version"]]) ≫= λ _,
  context "seed sayiir_schema_version" (execute_sql [SeedVersion]) ≫= λ _,
  current ← read_version;
  apply_from current MIGRATIONS.
End Migrate.

(** ** The states a migrating database goes through *)

#[export] Instance SqlError_eq_dec : EqDecision SqlError.
Proof. solve_decision. Defined.

Definition after (qs : list Sql) (sc : Schema) : Schema := (run_sqls qs sc).2.
(** Before the migration after version [k]: its statements run one by one. *)
Definition stage_from (m : Migration) (sc : Schema) : list Schema :=
  (λ n, after (take n (mig_sql m)) sc) <$> seq 0 (S (length (mig_sql m))).
Fixpoint stages (ms : list Migration) (sc : Schema) : list (list Schema) :=
  match ms with
  | [] => [[sc]]
  | m :: ms => stage_from m sc :: stages ms (after [SetVersion (mig_version m)] (after (mig_sql m) sc))
  end.
Definition bare : Schema := after [CreateTable version_table ["id"; "version"]] schema_empty.
Definition seeded : Schema := after [SeedVersion] bare.
Definition all_stages : list (list Schema) := stages MIGRATIONS seeded.

(** What a stage promises: interrupted anywhere, the migration leaves a state of the
    stage, and once it has run (or has met the column it adds) the bump leads on. *)
Definition stage_step (m : Migration) (st : list Schema) (next : Schema) (sc : Schema) (n : nat) : bool :=
  let '(e, sc') := run_sqls (take n (mig_sql m)) sc in
  let bumped := bool_decide (run_sqls [SetVersion (mig_version m)] sc' = (None, next)) in
  bool_decide (sc' ∈ st) &&
  match e with
  | None => bool_decide (n < length (mig_sql m))%nat || bumped
  | Some (DuplicateColumn _) => bumped
  | Some _ => false
  end.
Definition stage_ok (m : Migration) (st : list Schema) (next : Schema) : bool :=
  forallb (λ sc, forallb (stage_step m st next sc) (seq 0 (S (length (mig_sql m))))) st.
Fixpoint chain_ok (ms : list Migration) (sts : list (list Schema)) : bool :=
  match ms, sts with
  | [], [[_]] => true
  | m :: ms, st :: sts =>
      match sts with (next :: _) :: _ => stage_ok m st next && chain_ok ms sts | _ => false end
  | _, _ => false
  end.

Lemma migrations_chain : chain_ok MIGRATIONS all_stages.
Proof. vm_compute. exact I. Qed.

(** A round trip that fails says something else than that a column exists. *)
Definition benign (fs : list (option (nat * string))) : Prop :=
  Forall (λ f, match f with Some (_, msg) => is_duplicate_column msg = false | None => True end) fs.

(** Statements none of whose names reads like that message. *)
Definition plain_sql (q : Sql) : bool :=
  forallb (λ n, negb (is_duplicate_column n))
    match q with
    | CreateTable t _ => [t]
    | CreateIndex _ t cols => t :: cols
    | AddColumn t c => [t; c]
    | _ => [version_table]
    end.
Lemma plain_error q sc e : plain_sql q = true → run_sql q sc = Err e → is_duplicate_column (error_name e) = false.
Proof.
  unfold plain_sql. intros Hp He. rewrite forallb_forall in Hp. apply negb_true_iff, Hp. clear Hp.
  destruct q as [t cols|i t cols|t c| |v]; cbn in He; repeat case_match; simplify_eq; cbn; auto.
  right. assert (error_name (NoSuchColumn s) ∈ filter (λ c, c ∉ g) cols) as [_ Hin]%list_elem_of_filter
    by (rewrite H1; left). by apply list_elem_of_In.
Qed.
Lemma plain_errors qs sc e sc' : forallb plain_sql qs = true → run_sqls qs sc = (Some e, sc') →
  is_duplicate_column (error_name e) = false.
Proof.
  revert sc. induction qs as [|q qs IH]; intros sc Hp He; [done|]. cbn in Hp, He. apply andb_prop in Hp as [Hq Hp].
  destruct (run_sql q sc) as [sc1|e1] eqn:E; [by eapply IH|]. simplify_eq. by eapply plain_error.
Qed.
Lemma plain_take n qs : forallb plain_sql qs = true → forallb plain_sql (take n qs) = true.
Proof. rewrite !forallb_forall. intros Hp q Hq. apply Hp. rewrite <-(take_drop n qs). apply in_or_app. by left. Qed.

Section Converge.
Context `{SqlMessages, !SqlMessagesLaws}.

Lemma execute_outcomes qs w : forallb plain_sql qs = true → benign (mg_faults w) →
  let '(r, w') := execute_sql qs w in
  benign (mg_faults w') ∧ (mg_faults w = [] → mg_faults w' = []) ∧
  ∃ n, let '(e, sc') := run_sqls (take n qs) (mg_schema w) in
    mg_schema w' = sc' ∧
    match r with
    | Ok _ => e = None ∧ n = length qs
    | Err msg => match e with
                 | Some e => is_duplicate_column msg = match e with DuplicateColumn _ => true | _ => false end
                 | None => is_duplicate_column msg = false ∧ mg_faults w ≠ []
                 end
    end.
Proof.
  intros Hp Hb. unfold execute_sql, run_all. destruct w as [sc fs]; cbn in *. destruct fs as [|[[n msg]|] fs]; cbn in *.
  - destruct (run_sqls qs sc) as [e sc'] eqn:E. cbn.
    split; [done|]. split; [done|]. exists (length qs). rewrite firstn_all, E. split; [done|]. destruct e; [by eapply duplicate_message, plain_errors|done].
  - destruct (run_sqls (take n qs) sc) as [e sc'] eqn:E. inversion Hb; subst.
    destruct e; cbn; (split; [done|]); (split; [done|]); exists n; rewrite E; (split; [done|]); [|done].
    by eapply duplicate_message, plain_errors, E; apply plain_take.
  - destruct (run_sqls qs sc) as [e sc'] eqn:E. inversion Hb; subst. cbn.
    split; [done|]. split; [done|]. exists (length qs). rewrite firstn_all, E. split; [done|]. destruct e; [by eapply duplicate_message, plain_errors|done].
Qed.

Lemma stage_step_any m st next sc n : stage_ok m st next → sc ∈ st →
  ∃ n', take n' (mig_sql m) = take n (mig_sql m) ∧ (n = length (mig_sql m) → n' = n) ∧ stage_step m st next sc n'.
Proof.
  intros Hok Hsc. exists (n `min` length (mig_sql m))%nat. split; [|split; [lia|]].
  - destruct (decide (n ≤ length (mig_sql m))%nat); [by rewrite Nat.min_l|]. rewrite Nat.min_r by lia.
    by rewrite firstn_all, take_ge by lia.
  - apply Is_true_true in Hok. unfold stage_ok in Hok. rewrite forallb_forall in Hok.
    specialize (Hok sc). rewrite forallb_forall in Hok. apply Is_true_true, Hok; [by apply list_elem_of_In|].
    apply in_seq. lia.
Qed.

(** A single statement that can only succeed. *)
Lemma execute_one what q next w : plain_sql q = true → benign (mg_faults w) → run_sqls [q] (mg_schema w) = (None, next) →
  let '(r, w') := context what (execute_sql [q]) w in
  benign (mg_faults w') ∧ (mg_faults w = [] → r = Ok () ∧ mg_faults w' = []) ∧
  match r with Ok _ => mg_schema w' = next | Err _ => mg_schema w' = mg_schema w ∨ mg_schema w' = next end.
Proof.
  intros Hp Hb Hq. unfold context, io_map_err.
  pose proof (execute_outcomes [q] w ltac:(cbn; by rewrite Hp) Hb) as Ho.
  destruct (execute_sql [q] w) as [r w1]. destruct Ho as (Hb1 & Hf1 & n & Hn).
  assert (Hcase : run_sqls (take n [q]) (mg_schema w) = (None, mg_schema w) ∧ (n = 1%nat → False) ∨
    run_sqls (take n [q]) (mg_schema w) = (None, next)).
  { destruct n as [|n]; [left; split; [done|lia]|right]. by destruct n. }
  destruct Hcase as [[E Hne]|E]; rewrite E in Hn; destruct Hn as [Hsc Hr]; destruct r as [[]|msg]; cbn.
  - by destruct Hr.
  - split; [done|]. split; [intros; by destruct Hr|]. by left.
  - split; [done|]. split; [by auto|done].
  - split; [done|]. split; [intros; by destruct Hr|]. by right.
Qed.

(** One turn of the loop, from a state of its stage. *)
Lemma apply_migration_stage m st next w : forallb plain_sql (mig_sql m) = true → stage_ok m st next → mg_schema w ∈ st → benign (mg_faults w) →
  let '(r, w') := apply_migration m w in
  benign (mg_faults w') ∧ (mg_faults w = [] → r = Ok () ∧ mg_faults w' = []) ∧
  match r with Ok _ => mg_schema w' = next | Err _ => mg_schema w' ∈ st ∨ mg_schema w' = next end.
Proof.
  intros Hp Hok Hsc Hb. unfold apply_migration. pose proof (execute_outcomes (mig_sql m) w Hp Hb) as Ho.
  destruct (execute_sql (mig_sql m) w) as [r w1]. destruct Ho as (Hb1 & Hf1 & n & Hn).
  destruct (stage_step_any m st next (mg_schema w) n Hok Hsc) as (n' & Htake & Hlen & Hst). rewrite <-Htake in Hn.
  revert Hst. unfold stage_step. destruct (run_sqls (take n' (mig_sql m)) (mg_schema w)) as [e sc1].
  destruct Hn as [<- Hr]. intros [Hin%bool_decide_unpack He]%andb_prop_elim.
  assert (Hbump : bool_decide (run_sqls [SetVersion (mig_version m)] (mg_schema w1) = (None, next)) →
    let '(r, w') := context ("bump schema version to " +:+ version_text (mig_version m)) (execute_sql [SetVersion (mig_version m)]) w1 in
    benign (mg_faults w') ∧ (mg_faults w = [] → r = Ok () ∧ mg_faults w' = []) ∧
    match r with Ok _ => mg_schema w' = next | Err _ => mg_schema w' ∈ st ∨ mg_schema w' = next end).
  { intros Hq%bool_decide_unpack. pose proof (execute_one ("bump schema version to " +:+ version_text (mig_version m)) (SetVersion (mig_version m)) _ w1 eq_refl Hb1 Hq) as Ho.
    destruct (context _ _ w1) as [r2 w2]. destruct Ho as (? & ? & Hr2). split; [done|]. split; [by auto|].
    destruct r2; [done|]. destruct Hr2 as [->|Hr2]; auto. }
  destruct r as [[]|msg].
  - destruct Hr as [-> ->]. rewrite Hlen in He by done. apply Hbump. rewrite bool_decide_false in He by lia. done.
  - destruct e as [e|].
    + rewrite Hr. destruct e; try done. by apply Hbump.
    + destruct Hr as [-> Hne]. split; [done|]. split; [by intros|]. by left.
Qed.

(** The loop, from a state of a stage on. *)
Lemma apply_from_chain ms sts current w st0 : Forall (λ m, forallb plain_sql (mig_sql m) = true) ms → chain_ok ms sts → Forall (λ m, current < mig_version m) ms →
  head sts = Some st0 → mg_schema w ∈ st0 → benign (mg_faults w) →
  let '(r, w') := apply_from current ms w in
  mg_schema w' ∈ concat sts ∧ (mg_faults w = [] → r = Ok () ∧ mg_faults w' = []) ∧
  (r = Ok () → last sts = Some [mg_schema w']).
Proof.
  revert sts w st0. induction ms as [|m ms IH]; intros sts w st0 Hp Hc Hv Hh Hsc Hb.
  - destruct sts as [|[|sc [|]] [|]]; try done. injection Hh as <-. apply list_elem_of_singleton in Hsc.
    cbn. rewrite Hsc. split; [by left|done].
  - destruct sts as [|st [|[|next more] sts]]; try done. injection Hh as <-. apply andb_prop_elim in Hc as [Hok Hc].
    inversion Hv as [|? ? Hm Hv']; inversion Hp as [|? ? Hpm Hp']; subst. cbn [apply_from]. rewrite bool_decide_false by lia.
    pose proof (apply_migration_stage m st next w Hpm Hok Hsc Hb) as Ho. unfold mbind, io_bind.
    destruct (apply_migration m w) as [[[]|e] w1]; destruct Ho as (Hb1 & Hf1 & Hr).
    + specialize (IH ((next :: more) :: sts) w1 (next :: more) Hp' Hc Hv' eq_refl). rewrite Hr in IH.
      specialize (IH ltac:(left) Hb1). destruct (apply_from current ms w1) as [r w2]. destruct IH as (IH1 & IH2 & IH3).
      split; [cbn; apply elem_of_app; by right|]. split; [intros Hf; by apply IH2, Hf1|done].
    + split; [|split; [intros Hf; by destruct (Hf1 Hf)|done]].
      cbn. rewrite !elem_of_app, elem_of_cons. destruct Hr; auto.
Qed.

(** From the whole run's start. *)
Definition all_states : list Schema := schema_empty :: bare :: concat all_stages.
Definition moves (q : Sql) (from to : list Schema) : bool :=
  forallb (λ sc, let '(e, sc') := run_sqls [q] sc in bool_decide (e = None) && bool_decide (sc' ∈ to)) from.
Lemma moves_sound q from to sc : moves q from to = true → sc ∈ from → ∃ sc', run_sqls [q] sc = (None, sc') ∧ sc' ∈ to.
Proof.
  intros Hm Hsc. unfold moves in Hm. rewrite forallb_forall in Hm. specialize (Hm sc).
  rewrite <-list_elem_of_In in Hm. specialize (Hm Hsc). destruct (run_sqls [q] sc) as [e sc'].
  apply andb_prop in Hm as [->%bool_decide_eq_true Hin%bool_decide_eq_true]. by exists sc'.
Qed.
Lemma create_moves : moves (CreateTable version_table ["id"; "version"]) all_states (bare :: concat all_stages) = true.
Proof. vm_compute. reflexivity. Qed.
Lemma seed_moves : moves SeedVersion (bare :: concat all_stages) (concat all_stages) = true.
Proof. vm_compute. reflexivity. Qed.

Lemma apply_from_skip current ms ms' :
  Forall (λ m, mig_version m ≤ current) ms → apply_from current (ms ++ ms') = apply_from current ms'.
Proof. induction 1 as [|m ms Hm _ IH]; [done|]. cbn. by rewrite bool_decide_true. Qed.
Lemma forallb_Forall_decide {A} (P : A → Prop) `{!∀ a, Decision (P a)} l :
  forallb (λ a, bool_decide (P a)) l = true → Forall P l.
Proof.
  intros Hl. rewrite forallb_forall in Hl. apply Forall_forall. intros a Ha%list_elem_of_In.
  by apply Hl, bool_decide_eq_true in Ha.
Qed.
Lemma elem_of_concat {A} (x : A) ls : x ∈ concat ls ↔ ∃ l, x ∈ l ∧ l ∈ ls.
Proof. rewrite list_elem_of_In, in_concat. setoid_rewrite <-list_elem_of_In. naive_solver. Qed.

(** The version row tells the stage. *)
Section Resume.
Context (ms : list Migration) (sts : list (list Schema)).
Definition resumes (k : nat) (st : list Schema) : bool :=
  forallb (λ sc, bool_decide (sc_version sc = Some (Z.of_nat k))) st &&
  chain_ok (drop k ms) (drop k sts) &&
  forallb (λ m, bool_decide (Z.of_nat k < mig_version m)) (drop k ms) &&
  forallb (λ m, bool_decide (mig_version m ≤ Z.of_nat k)) (take k ms).
Hypothesis Hplain : Forall (λ m, forallb plain_sql (mig_sql m) = true) ms.
Hypothesis Hresumes : ∀ k st, sts !! k = Some st → resumes k st = true.

Lemma read_and_apply w : mg_schema w ∈ concat sts → benign (mg_faults w) →
  let '(r, w') := (current ← read_version; apply_from current ms) w in
  mg_schema w' ∈ concat sts ∧ (mg_faults w = [] → r = Ok () ∧ mg_faults w' = []) ∧
  (r = Ok () → last sts = Some [mg_schema w']).
Proof.
  intros Hsc Hb. pose proof Hsc as (st & Hst & [k Hk]%list_elem_of_lookup)%elem_of_concat.
  pose proof (Hresumes k st Hk) as Hres. unfold resumes in Hres. rewrite !andb_true_iff in Hres.
  destruct Hres as [[[Hver Hc] Hlt] Hle]. apply forallb_Forall_decide in Hver, Hlt, Hle.
  assert (sc_version (mg_schema w) = Some (Z.of_nat k)) as Hv by (rewrite Forall_forall in Hver; by apply Hver).
  assert (Hap : ∀ w', mg_schema w' = mg_schema w → benign (mg_faults w') →
    let '(r, w2) := apply_from (Z.of_nat k) ms w' in
    mg_schema w2 ∈ concat sts ∧ (mg_faults w' = [] → r = Ok () ∧ mg_faults w2 = []) ∧
    (r = Ok () → last sts = Some [mg_schema w2])).
  { intros w' Hw' Hb'. rewrite <-(take_drop k ms), apply_from_skip by done. rewrite <-Hw' in Hst.
    assert (head (drop k sts) = Some st) as Hh by (by rewrite head_lookup, lookup_drop, Nat.add_0_r).
    apply Is_true_true_2 in Hc. pose proof (apply_from_chain _ _ (Z.of_nat k) w' st (Forall_drop _ _ _ Hplain) Hc Hlt Hh Hst Hb') as Ho.
    destruct (apply_from _ _ w') as [r w2]. destruct Ho as (Hin & Hf & Hl). split; [|split; [done|]].
    - rewrite <-(take_drop k sts), concat_app. apply elem_of_app. by right.
    - intros Hr. rewrite <-(take_drop k sts), last_app, (Hl Hr). done. }
  unfold mbind, io_bind, read_version. destruct w as [sc [|[[n msg]|] fs]]; cbn in *.
  - rewrite Hv. cbn. by apply (Hap (MkMigrator sc [])).
  - done.
  - rewrite Hv. cbn. inversion Hb; subst. specialize (Hap (MkMigrator sc fs) eq_refl ltac:(done)).
    destruct (apply_from _ _ _). destruct Hap as (? & ? & ?). by split.
Qed.
End Resume.

Lemma stages_resume : forallb (λ k, match all_stages !! k with Some st => resumes MIGRATIONS all_stages k st | None => true end) (seq 0 5) = true.
Proof. vm_compute. reflexivity. Qed.
Lemma migrations_plain : Forall (λ m, forallb plain_sql (mig_sql m) = true) MIGRATIONS.
Proof. repeat constructor. Qed.
Lemma stages_length : length all_stages = 5%nat.
Proof. vm_compute. reflexivity. Qed.
Lemma all_stages_resume k st : all_stages !! k = Some st → resumes MIGRATIONS all_stages k st = true.
Proof.
  intros Hk. pose proof stages_resume as Hs. rewrite forallb_forall in Hs. specialize (Hs k). rewrite Hk in Hs.
  apply Hs, in_seq. apply lookup_lt_Some in Hk. rewrite stages_length in Hk. lia.
Qed.

(** One statement of the start, from a set of states to another. *)
Lemma execute_moves what q from to w : plain_sql q = true → moves q from to = true → mg_schema w ∈ from → benign (mg_faults w) →
  let '(r, w') := context what (execute_sql [q]) w in
  benign (mg_faults w') ∧ (mg_faults w = [] → r = Ok () ∧ mg_faults w' = []) ∧
  match r with Ok _ => mg_schema w' ∈ to | Err _ => mg_schema w' ∈ from ∨ mg_schema w' ∈ to end.
Proof.
  intros Hp Hm Hsc Hb. destruct (moves_sound q from to _ Hm Hsc) as (sc' & Hq & Hto).
  pose proof (execute_one what q sc' w Hp Hb Hq) as Ho. destruct (context what (execute_sql [q]) w) as [r w'].
  destruct Ho as (? & ? & Hr). split; [done|]. split; [done|]. destruct r; [by rewrite Hr|].
  destruct Hr as [->| ->]; auto.
Qed.
Lemma run_migrations_states w : mg_schema w ∈ all_states → benign (mg_faults w) →
  let '(r, w') := run_migrations w in
  mg_schema w' ∈ all_states ∧ (mg_faults w = [] → r = Ok () ∧ mg_faults w' = []) ∧
  (r = Ok () → last all_stages = Some [mg_schema w']).
Proof.
  pose proof (λ w, read_and_apply MIGRATIONS all_stages migrations_plain all_stages_resume w) as Hread.
  pose proof create_moves as Hcreate. pose proof seed_moves as Hseed. unfold all_states in *. revert Hcreate Hseed Hread.
  unfold run_migrations. generalize bare, all_stages, MIGRATIONS. intros b0 sts ms Hcreate Hseed Hread Hsc Hb.
  pose proof (execute_moves "create sayiir_schema_version" (CreateTable version_table ["id"; "version"]) _ _ w eq_refl Hcreate Hsc Hb) as H1.
  unfold mbind at 1. unfold io_bind at 1. destruct (context _ _ w) as [[[]|e] w1]; destruct H1 as (Hb1 & Hf1 & H1);
    [|split; [set_solver|split; [intros Hf; by destruct (Hf1 Hf)|done]]].
  pose proof (execute_moves "seed sayiir_schema_version" SeedVersion _ _ w1 eq_refl Hseed H1 Hb1) as H2.
  unfold mbind at 1. unfold io_bind at 1. destruct (context _ _ w1) as [[[]|e] w2]; destruct H2 as (Hb2 & Hf2 & H2);
    [|split; [set_solver|split; [intros Hf; by destruct (Hf2 (proj2 (Hf1 Hf)))|done]]].
  specialize (Hread w2 H2 Hb2). destruct ((current ← read_version; apply_from current ms) w2) as [r w3]. destruct Hread as (Hin & Hf3 & Hlast).
  split; [set_solver|]. split; [|done]. intros Hf. by apply Hf3, Hf2, Hf1.
Qed.

(** ** Properties *)

(** What one attempt makes of a database, whatever happens to its round trips. *)
Definition attempt_migration (sc sc' : Schema) : Prop :=
  ∃ faults, benign faults ∧ sc' = mg_schema (run_migrations (MkMigrator sc faults)).2.
(** The schema the queries of the crate are written for. *)
Definition current_schema : Schema :=
  MkSchema {[
    version_table := {[ "id"; "version" ]};
    snapshots_table := {[ "instance_id"; "status"; "definition_hash"; "current_task_id"; "completed_task_count"; "data";
      "error"; "position_kind"; "delay_wake_at"; "trace_parent"; "awaited_signal_name"; "started_at"; "completed_at";
      "updated_at"; "task_priority"; "task_tags" ]};
    history_table := {[ "id"; "instance_id"; "version"; "status"; "current_task_id"; "data"; "created_at" ]};
    "sayiir_workflow_signals" := {[ "instance_id"; "kind"; "reason"; "requested_by"; "created_at" ]};
    "sayiir_workflow_events" := {[ "id"; "instance_id"; "signal_name"; "payload"; "created_at" ]}
  ]} {[ "idx_snapshots_status"; "idx_snapshots_task"; "idx_snapshots_updated"; "idx_snapshots_position";
    "idx_snapshots_awaited_signal"; "idx_history_instance"; "idx_events_instance_signal" ]} (Some 4).
Lemma last_stage : last all_stages = Some [current_schema].
Proof. vm_compute. reflexivity. Qed.
(** A database from before the migrator: no version table, and a snapshot table with
    the columns the first migration indexes except the awaited signal. *)
Record legacy (sc : Schema) (columns : gset string) : Prop := {
  lg_unversioned : sc_tables sc !! version_table = None ∧ sc_version sc = None;
  lg_snapshots : sc_tables sc !! snapshots_table = Some columns;
  lg_columns : {[ "status"; "current_task_id"; "updated_at"; "position_kind" ]} ⊆ columns;
  lg_lacks : ("awaited_signal_name" ∉ columns) ∧ ("idx_snapshots_awaited_signal" ∉ sc_indexes sc) }.
(** The tables of the first release, as an instance. *)
Definition legacy_schema : Schema :=
  MkSchema {[ snapshots_table := {[ "instance_id"; "status"; "definition_hash"; "current_task_id";
    "completed_task_count"; "data"; "error"; "position_kind"; "delay_wake_at"; "trace_parent"; "started_at";
    "completed_at"; "updated_at" ]} ]} ∅ None.

Lemma attempts_states sc : rtc attempt_migration schema_empty sc → sc ∈ all_states.
Proof.
  intros Hr. remember schema_empty as sc0 eqn:E. assert (sc0 ∈ all_states) as H0' by (subst; left). clear E.
  induction Hr as [|sc0 sc1 sc2 (fs & Hb & ->) _ IH]; [done|]. apply IH.
  pose proof (run_migrations_states (MkMigrator sc0 fs) H0' Hb) as Ho. destruct (run_migrations _) as [r w']. by destruct Ho.
Qed.
Lemma some_singleton_inj {A} (a b : A) : Some [a] = Some [b] → a = b.
Proof. congruence. Qed.
Lemma migration_converges sc : sc ∈ all_states → run_migrations (MkMigrator sc []) = (Ok (), MkMigrator current_schema []).
Proof.
  intros Hsc. pose proof (run_migrations_states (MkMigrator sc []) Hsc ltac:(constructor)) as Ho.
  destruct (run_migrations _) as [r [sc' fs']]. destruct Ho as (_ & Hf & Hl). destruct (Hf eq_refl) as [-> Hf']. cbn in Hf'.
  specialize (Hl eq_refl). rewrite last_stage in Hl. apply some_singleton_inj in Hl.
  cbn [mg_schema] in Hl. by rewrite Hf', Hl.
Qed.

(** An index on a column the table has only adds to the indexes. *)
Lemma index_ok i c cols sc have :
  sc_tables sc !! snapshots_table = Some have → c ∈ have → cols = [c] →
  ∃ idx, run_sql (CreateIndex i snapshots_table cols) sc = Ok (MkSchema (sc_tables sc) idx (sc_version sc)) ∧
    idx ⊆ {[i]} ∪ sc_indexes sc.
Proof.
  intros Ht Hc ->. cbn [run_sql]. rewrite Ht. case_bool_decide.
  - exists (sc_indexes sc). split; [by destruct sc|set_solver].
  - rewrite filter_cons_False by naive_solver. cbn. by eexists.
Qed.
Lemma legacy_initial sc columns :
  sc_tables sc !! snapshots_table = Some columns →
  {[ "status"; "current_task_id"; "updated_at"; "position_kind" ]} ⊆ columns →
  "awaited_signal_name" ∉ columns → "idx_snapshots_awaited_signal" ∉ sc_indexes sc →
  (run_sqls initial_sql sc).1 = Some (NoSuchColumn "awaited_signal_name").
Proof.
  intros Ht Hcols Hno Hidx. unfold initial_sql. cbn [run_sqls]. unfold run_sql at 1. rewrite Ht.
  do 4 (match goal with |- context [run_sql (CreateIndex ?i _ [?c]) ?s] =>
    destruct (index_ok i c [c] s columns) as (? & -> & ?); [done|set_solver|done|]; cbn [run_sqls] end).
  unfold run_sql at 1. cbn [sc_tables sc_indexes] in *. rewrite Ht, bool_decide_false by set_solver.
  by rewrite filter_cons_True by done.
Qed.
Lemma legacy_fails sc columns : legacy sc columns → (run_migrations (MkMigrator sc [])).1 =
  Err (BackendErr ("migration 1 failed: " +:+ sql_error_to_string (NoSuchColumn "awaited_signal_name"))).
Proof.
  intros [[Hvt Hv] Ht Hcols [Hno Hidx]].
  set (created := MkSchema (<[version_table := list_to_set ["id"; "version"]]> (sc_tables sc)) (sc_indexes sc) None).
  set (seeded := MkSchema (sc_tables created) (sc_indexes sc) (Some 0)).
  assert (run_sqls [CreateTable version_table ["id"; "version"]] sc = (None, created)) as E1.
  { cbn. by rewrite Hvt, Hv. }
  assert (run_sqls [SeedVersion] created = (None, seeded)) as E2.
  { cbn. by rewrite lookup_insert_eq. }
  assert ((run_sqls initial_sql seeded).1 = Some (NoSuchColumn "awaited_signal_name")) as E4.
  { apply (legacy_initial seeded columns); try done. cbn. by rewrite lookup_insert_ne by done. }
  unfold run_migrations, mbind, io_bind, context, io_map_err, execute_sql, run_all, read_version, MIGRATIONS.
  cbn [mg_faults mg_schema]. rewrite E1. cbn [mg_faults mg_schema]. rewrite E2. cbn [mg_faults mg_schema tail ok_or sc_version seeded].
  cbn [ok_or apply_from mig_version]. rewrite bool_decide_false by lia.
  unfold mbind, io_bind, apply_migration, execute_sql, run_all. cbn [mg_faults mg_schema mig_sql].
  destruct (run_sqls initial_sql seeded) as [e sc']. cbn in E4. subst. by rewrite duplicate_message.
Qed.

(** C28. Migrations converge: a database created by any number of attempts, each broken
    off anywhere (between migrations, between the statements of one, between a
    migration and its version bump, with the answer lost) by errors that do not read
    like SQLite's message on duplicate columns, is brought by the next undisturbed
    attempt to the one schema the queries are written for, and a further
    attempt changes nothing.  A database from before the migrator is another matter:
    one without a version table, whose snapshot table has the columns the first
    migration indexes but not the awaited signal, fails, since that migration stops at
    its index on the column the fourth would add. *)
Theorem d1_migrations_converge (sc : Schema) :
  rtc attempt_migration schema_empty sc →
  run_migrations (MkMigrator sc []) = (Ok (), MkMigrator current_schema []) ∧
  run_migrations (MkMigrator current_schema []) = (Ok (), MkMigrator current_schema []) ∧
  ∀ old columns, legacy old columns →
    (run_migrations (MkMigrator old [])).1 =
      Err (BackendErr ("migration 1 failed: " +:+ sql_error_to_string (NoSuchColumn "awaited_signal_name"))).
Proof.
  intros Hsc%attempts_states. split; [by apply migration_converges|]. split.
  - apply migration_converges. unfold all_states. do 2 right. apply elem_of_concat. exists [current_schema].
    split; [left|]. pose proof last_stage as Hl. rewrite last_lookup in Hl. exact (list_elem_of_lookup_2 _ _ _ Hl).
  - intros old columns. apply legacy_fails.
Qed.
End Converge.
