(* ===== verification/D1Example.v ===== *)
(** * The SQLite / D1 backend: a concrete SQLite, used by the witnesses

    A clock that renders days as fixed-width numerals, the snapshot codec of
    [PostgresExample.v], SQLite's messages, and the theorems of the backend applied to
    a database with orders in it. *)

From S2P Require Import Prelude Hash32 SnapshotFormat Task Workflow Snapshot Backend InMemory Runtime Lifecycle SyncExec.
From S2P Require Import Checkpoint Durability TaskIndex Cloudflare CloudflareProps Simulation Postgres PostgresSignals.
From S2P Require Import PostgresProps PostgresExample D1 D1Props D1Invariant D1Engine D1Migrations.

Module D1Example.
Import Examples.

(** ** SQLite *)

(** [w] decimal digits. *)
Fixpoint numeral (w : nat) (d : Z) : string :=
  match w with
  | O => EmptyString
  | S w => numeral w (d / 10) +:+ String (Ascii.ascii_of_N (Z.to_N (48 + d mod 10))) EmptyString
  end.
Lemma length_append a b : String.length (a +:+ b) = (String.length a + String.length b)%nat.
Proof. by rewrite <-!as_bytes_length, as_bytes_app, length_app. Qed.
Lemma numeral_length w d : String.length (numeral w d) = w.
Proof. revert d. induction w as [|w IH]; intros d; cbn; [done|]. rewrite length_append, IH. cbn. lia. Qed.
Lemma digit_code k : 0 ≤ k < 10 → Ascii.N_of_ascii (Ascii.ascii_of_N (Z.to_N (48 + k))) = Z.to_N (48 + k).
Proof. intros. apply Ascii.N_ascii_embedding. lia. Qed.
Lemma numeral_lt w d d' : 0 ≤ d → d < d' → d' < 10 ^ Z.of_nat w → string_lt (numeral w d) (numeral w d').
Proof.
  revert d d'. induction w as [|w IH]; intros d d' H0' Hlt Hb; [cbn in Hb; lia|].
  rewrite Nat2Z.inj_succ, Z.pow_succ_r in Hb by lia. cbn [numeral].
  pose proof (Z.div_mod d 10). pose proof (Z.div_mod d' 10). pose proof (Z.mod_pos_bound d 10). pose proof (Z.mod_pos_bound d' 10).
  destruct (decide (d / 10 = d' / 10)) as [E|Hne].
  - rewrite E. assert (Hc : Ascii.ascii_of_N (Z.to_N (48 + d mod 10)) ≠ Ascii.ascii_of_N (Z.to_N (48 + d' mod 10))).
    { intros Ha%(f_equal Ascii.N_of_ascii). rewrite !digit_code in Ha by lia. lia. }
    split.
    + rewrite string_le_app by done. rewrite decide_True by done. rewrite string_le_cons_ne by done.
      rewrite !digit_code by lia. apply bool_decide_pack. lia.
    + intros Ha%string_app_inj_r; [|done]. destruct Ha as [_ Ha]. by injection Ha.
  - destruct (IH (d / 10) (d' / 10)) as [Hle Hd].
    + apply Z.div_pos; lia.
    + lia.
    + apply Z.div_lt_upper_bound; lia.
    + split.
      * rewrite string_le_app by (by rewrite !numeral_length). by rewrite decide_False.
      * intros Ha%string_app_inj_r; [|done]. by destruct Ha.
Qed.

Definition date_of (d : Z) : string := numeral 10 d.
Definition time_text (t : DateTime) : string := pretty (Z.to_N (t mod day_nanos)).
(** The day of a stamp. *)
Fixpoint read_numeral (acc : Z) (s : string) (w : nat) : Z :=
  match w, s with
  | S w, String c s => read_numeral (10 * acc + Z.of_N (Ascii.N_of_ascii c) - 48) s w
  | _, _ => acc
  end.
#[export] Instance sqlite_now : Sqlite := {
  strftime t := date_of (day_of t) +:+ "T" +:+ time_text t +:+ "Z";
  datetime t := date_of (day_of t) +:+ " " +:+ time_text t;
  format_millis t := date_of (day_of t) +:+ "T" +:+ time_text t +:+ "Z";
  parse_from_rfc3339 s := Ok (read_numeral 0 s 10 * day_nanos);
  sqlite_order A l := l
}.
#[export] Instance sqlite_now_laws : SqliteLaws date_of.
Proof.
  split.
  - apply (numeral_length 10).
  - intros. apply numeral_lt; [done|done|]. unfold last_day in *. cbn. lia.
  - intros t _. by eexists.
  - intros t _. by eexists.
  - intros t _. by eexists.
  - intros t. by eexists.
  - done.
Qed.

#[export] Instance serde : SerdeSnapshot := {
  to_vec := Frame.encode_value (SnapshotCodec:=PgExample.codec);
  from_slice := Frame.decode_value (SnapshotCodec:=PgExample.codec)
}.
#[export] Instance serde_laws : SerdeSnapshotLaws.
Proof. split; apply PgExample.codec_laws. Qed.

#[export] Instance messages : SqlMessages := λ e,
  match e with
  | NoSuchTable _ => "no such table"
  | NoSuchColumn _ => "no such column"
  | DuplicateColumn _ => "duplicate column name"
  end.
#[export] Instance messages_laws : SqlMessagesLaws.
Proof. by intros []. Qed.

(** ** A database with a parked order, a lost history row and two events *)

Definition nap : TaskId := TaskId_default.
Definition hour : Z := 3600 * 10 ^ 9.
Definition noon : DateTime := 20000 * day_nanos + 12 * hour.
Definition parked : WorkflowSnapshot :=
  update_position noon (AtDelay nap noon (noon + hour) None) (with_initial_input noon "order" DefinitionHash_default [x01]).
Definition fresh : D1 := MkD1 (sqlite_empty noon) [].
Definition saved : D1 := (perform (CSave parked) fresh).2.
Definition stormy : D1 := MkD1 (d1_db saved) [None; Some (NotRun "connection reset")].
Definition half_saved : D1 := (perform (CSave parked) stormy).2.
Definition busy : D1 := (perform (CSend "order" "go" [x02]) (perform (CSend "order" "go" [x01]) half_saved).2).2.
(** Two hours afternoon, the wake time has passed. *)
Definition afternoon : D1 := d1_on (sq_set_now (noon + 2 * hour)) busy.

Lemma afternoon_reachable : d1_reachable afternoon.
Proof.
  exists noon. eapply rtc_l; [apply (d1_call (CSave parked) fresh)|]. eapply rtc_l; [apply (d1_weather [None; Some (NotRun "connection reset")])|].
  eapply rtc_l; [apply (d1_call (CSave parked))|]. eapply rtc_l; [apply (d1_call (CSend "order" "go" [x01]))|].
  eapply rtc_l; [apply (d1_call (CSend "order" "go" [x02]))|]. eapply rtc_l; [apply (d1_time (noon + 2 * hour))|].
  apply rtc_refl.
Qed.

Lemma d1_invariant_witness : d1_wf (d1_db afternoon) ∧ memory_sim (MkD1 (d1_db afternoon) []) (view (d1_db afternoon)).
Proof. apply (d1_invariant afternoon). exact afternoon_reachable. Defined.

Definition failing : D1 := MkD1 (d1_db afternoon) [None; Some (AnswerLost "connection reset")].
Definition is_err {E A} (r : result E A) : bool := match r with Err _ => true | Ok _ => false end.
Lemma d1_faults_contained_witness :
  let '(r, w') := d1_consume_event "order" "go" failing in
  let before := queued "order" "go" (sq_events (d1_db failing)) in
  let after := queued "order" "go" (sq_events (d1_db w')) in
  is_err r = true ∧ (after = before ∨ after = tail before).
Proof.
  assert (He : is_err (d1_consume_event "order" "go" failing).1 = true) by (vm_compute; reflexivity).
  destruct (d1_faults_contained failing parked "order" "go" (reachable_wf afternoon afternoon_reachable)) as [_ Hc].
  destruct (d1_consume_event "order" "go" failing) as [r w']. destruct r; [discriminate He|].
  split; [exact He|exact (proj2 Hc)].
Defined.

Definition holds {A} (o : option A) : bool := match o with Some _ => true | None => false end.
Lemma d1_sweep_finds_nothing_witness :
  (find_resumable_instances 300 10 afternoon).1 = Ok [] ∧
  ∃ r, sq_snapshots (d1_db afternoon) !! "order" = Some r ∧ sweep_ready (d1_db afternoon) r = false.
Proof.
  destruct (d1_sweep_finds_nothing afternoon 300 10 afternoon_reachable eq_refl) as [Hf Hs].
  split; [exact Hf|]. assert (He : holds (sq_snapshots (d1_db afternoon) !! "order") = true) by (vm_compute; reflexivity).
  destruct (sq_snapshots (d1_db afternoon) !! "order") as [r|] eqn:E; [|discriminate He].
  exists r. split; [reflexivity|].
  assert (Hw : delay_wake_at <$> (d1_load_snapshot "order" (MkD1 (d1_db afternoon) [])).1 = Ok (Some (noon + hour)))
    by (vm_compute; reflexivity).
  destruct (d1_load_snapshot "order" (MkD1 (d1_db afternoon) [])).1 as [s|] eqn:El; [|discriminate Hw].
  rewrite (Hs "order" r s (noon + hour) E).
  - vm_compute. reflexivity.
  - exists s. split; [exact El|reflexivity].
  - by injection Hw.
  - apply (bool_decide_unpack _). vm_compute. exact I.
  - apply (bool_decide_unpack _). vm_compute. exact I.
Defined.

Definition calls : list (DateTime * Call) := [
  (noon, CLoad "order"); (noon, CConsume "order" "go"); (noon, CStore "order" Cancel (MkSignalRequest None None noon));
  (noon, CCancel noon "order" (Some nap)); (noon, CUnpause noon "order"); (noon, CDelete "nobody"); (noon, CList)
].
Lemma d1_refines_memory_witness :
  all_news calls (view (d1_db afternoon)) = true ∧
  Forall2 (result_rel same_reply) (run_calls d1_tick calls (MkD1 (d1_db afternoon) [])).1
    (run_calls no_tick calls (view (d1_db afternoon))).1.
Proof.
  split; [vm_compute; reflexivity|]. apply (d1_refines_memory afternoon calls); [exact afternoon_reachable|vm_compute; exact I].
Defined.

(** ** Requests to the engine *)

Import Toy WorkflowExample DurabilityExample CloudflareExample.

#[local] Instance d1_env : Environment D1 := {| clock n := noon + Z.of_nat n; others n w := d1_tick (noon + Z.of_nat n) w |}.
#[local] Instance memory_env : Environment InMemoryBackend := {| clock n := noon + Z.of_nat n; others _ b := b |}.
Definition requests : list (Request unit) := [
  QRun engine (js_flow polled_flow) "i" (Str "in") registry; QResume (js_flow polled_flow) "i" registry;
  QRun engine (js_flow polled_flow) "order" (Str "in") registry; QPause "order" None None; QSignal "i" "go" (Str "now")
].
Definition world : World D1 := MkWorld afternoon 0.
Lemma d1_engine_equivalent_witness :
  (serve_all requests world).1 = (serve_all requests (MkWorld (view (d1_db afternoon)) 0)).1.
Proof.
  apply (d1_engine_equivalent requests world).
  - reflexivity.
  - intros n w b Hs. by apply tick_sim.
  - exact afternoon_reachable.
  - vm_compute. reflexivity.
  - vm_compute. exact I.
Defined.

Lemma d1_run_correct_witness :
  ∃ s w', engine_run (B:=D1) engine (js_flow polled_flow) "i" (Str "in") registry world =
    (Ok (Status.Completed, Some polled_output), w') ∧
    loads (d1_db (store w')) "i" s ∧ state s = Completed polled_output.
Proof.
  apply (d1_run_correct (H:=js) registry (Str "in") answer engine (js_flow polled_flow) "i" (quote ++ as_bytes "in" ++ quote)
    polled_output world).
  - intros n w. by eexists.
  - exact answer_ok.
  - intros v s. by eapply stringify_text.
  - vm_compute. reflexivity.
  - vm_compute. reflexivity.
  - vm_compute. reflexivity.
  - apply (bool_decide_unpack _). vm_compute. exact I.
  - vm_compute. reflexivity.
  - exact (reachable_wf _ afternoon_reachable).
  - vm_compute. reflexivity.
  - vm_compute. reflexivity.
  - vm_compute. reflexivity.
  - vm_compute. reflexivity.
  - apply js_meaning. vm_compute. reflexivity.
Defined.

(** ** Migrations *)

Lemma legacy_first_release : ∃ columns, legacy legacy_schema columns.
Proof.
  eexists. split; [split; reflexivity|reflexivity|apply (bool_decide_unpack _); vm_compute; exact I|].
  split; [|apply not_elem_of_empty]. apply (bool_decide_unpack ("awaited_signal_name" ∉ _)). vm_compute. exact I.
Qed.

Lemma d1_migrations_converge_witness :
  let sc := mg_schema (run_migrations (MkMigrator schema_empty [None; None; None; Some (3%nat, "connection reset")])).2 in
  sc_version sc = Some 0 ∧ run_migrations (MkMigrator sc []) = (Ok (), MkMigrator current_schema []) ∧
  ∃ e, (run_migrations (MkMigrator legacy_schema [])).1 = Err e.
Proof.
  split; [vm_compute; reflexivity|].
  destruct (d1_migrations_converge (mg_schema (run_migrations (MkMigrator schema_empty [None; None; None; Some (3%nat, "connection reset")])).2))
    as (Hsc & _ & Hold).
  - eapply rtc_l; [|apply rtc_refl]. exists [None; None; None; Some (3%nat, "connection reset")]. split; [by repeat constructor|reflexivity].
  - split; [exact Hsc|]. destruct legacy_first_release as [columns Hl]. rewrite (Hold _ _ Hl). by eexists.
Defined.
End D1Example.
