(* ===== verification/Json.v ===== *)
(** * JSON documents and the JSON codec ([sayiir-runtime/src/serialization/json.rs])

    [serde_json::Value] as data.  Its text is a parameter: the reader and the printer
    of documents, strings, raw values and of the two structures the codec writes,
    with what [serde_json] documents about them as laws.  [JsonCodec] is the codec
    of the envelopes of branches and joins in the runtime's executors. *)

From S2P Require Import Prelude Hash32 SnapshotFormat Task Workflow Serializable Snapshot Backend Runtime SyncExec.
From Stdlib Require Import Floats.SpecFloat.

(** [serde_json::Number] and [Value]; a [Map] is a [BTreeMap], listed in key order. *)
Inductive JsonNumber : Type :=
| PosInt (n : Z)
| NegInt (n : Z)
| FloatNum (x : f64).
Inductive JsonValue : Type :=
| JsonNull
| JsonBool (b : bool)
| JsonNum (n : JsonNumber)
| JsonStr (s : string)
| JsonArr (items : list JsonValue)
| JsonObj (members : list (string * JsonValue)).

(** Induction with the hypothesis for the parts of arrays and objects. *)
Section JsonInd.
Context (P : JsonValue → Prop).
Context (Hnull : P JsonNull) (Hbool : ∀ b, P (JsonBool b)) (Hnum : ∀ n, P (JsonNum n)) (Hstr : ∀ s, P (JsonStr s)).
Context (Harr : ∀ items, Forall P items → P (JsonArr items)).
Context (Hobj : ∀ members, Forall (λ kv, P kv.2) members → P (JsonObj members)).
Fixpoint json_ind (j : JsonValue) : P j :=
  match j with
  | JsonNull => Hnull
  | JsonBool b => Hbool b
  | JsonNum n => Hnum n
  | JsonStr s => Hstr s
  | JsonArr items => Harr items ((fix go l : Forall P l :=
      match l with [] => Forall_nil_2 _ | j :: l => Forall_cons_2 _ _ _ (json_ind j) (go l) end) items)
  | JsonObj members => Hobj members ((fix go l : Forall (λ kv, P kv.2) l :=
      match l with [] => Forall_nil_2 _ | kv :: l => Forall_cons_2 _ _ _ (json_ind kv.2) (go l) end) members)
  end.
End JsonInd.

(** [Number::from_f64]: finite numbers only. *)
Definition from_f64 (x : f64) : option JsonNumber :=
  match x with S754_zero _ | S754_finite _ _ _ => Some (FloatNum x) | S754_infinity _ | S754_nan => None end.

(** [Map::insert] and [Map::get]. *)
Section Maps.
Context {A : Type}.
Fixpoint map_insert (k : string) (v : A) (m : list (string * A)) : list (string * A) :=
  match m with
  | [] => [(k, v)]
  | (k', v') :: m' =>
      if bool_decide (k = k') then (k, v) :: m'
      else if string_le k k' then (k, v) :: m
      else (k', v') :: map_insert k v m'
  end.
Fixpoint map_get (k : string) (m : list (string * A)) : option A :=
  match m with
  | [] => None
  | (k', v) :: m => if bool_decide (k = k') then Some v else map_get k m
  end.
(** [collect::<Map<_, _>>()]. *)
Definition map_collect (l : list (string * A)) : list (string * A) := foldl (λ m kv, map_insert kv.1 kv.2 m) [] l.
End Maps.

(** [Value::get] with a string, and [Value::as_str]. *)
Definition value_get (k : string) (j : JsonValue) : option JsonValue :=
  match j with JsonObj m => map_get k m | _ => None end.
Definition value_as_str (j : JsonValue) : option string := match j with JsonStr s => Some s | _ => None end.

(** What the program uses of [serde_json]: [from_slice] at its types, [to_vec] of a
    document, of branch results and of a branch envelope with a raw result. *)
Class JsonText : Type := {
  json_from_slice : Bytes → result BoxError JsonValue;
  string_from_slice : Bytes → result BoxError string;
  raw_from_slice : Bytes → result BoxError Bytes;
  named_from_slice : Bytes → result BoxError (list (string * Bytes));
  json_to_vec : JsonValue → result BoxError Bytes;
  named_to_vec : list (string * Bytes) → result BoxError Bytes;
  envelope_to_vec : string → Bytes → result BoxError Bytes;
  serde_message : BoxError → string                         (* [Display] of its error *)
}.

(** A document prints as text that reads back as it, when [exact] holds of its numbers. *)
Fixpoint all_numbers (p : JsonNumber → bool) (j : JsonValue) : bool :=
  match j with
  | JsonNum n => p n
  | JsonArr items => forallb (all_numbers p) items
  | JsonObj members => forallb (λ kv, all_numbers p kv.2) members
  | JsonNull | JsonBool _ | JsonStr _ => true
  end.
(** The document [NamedBranchResults] is written as: pairs of a name and an array of bytes. *)
Definition byte_json (b : byte) : JsonValue := JsonNum (PosInt (Z.of_N (Byte.to_N b))).
Definition named_json (rs : list (string * Bytes)) : JsonValue :=
  JsonArr ((λ nb, JsonArr [JsonStr nb.1; JsonArr (byte_json <$> nb.2)]) <$> rs).
(** Documents that may be read as branch results: pairs of a string and an array or, since
    bytes are read from strings too, a string. *)
Definition named_pair (j : JsonValue) : bool :=
  match j with JsonArr [JsonStr _; JsonArr _] | JsonArr [JsonStr _; JsonStr _] => true | _ => false end.
Definition named_shaped (j : JsonValue) : bool :=
  match j with JsonArr ((_ :: _) as items) => forallb named_pair items | _ => false end.
Definition envelope_json (key : string) (result : JsonValue) : JsonValue :=
  JsonObj [("branch", JsonStr key); ("result", result)].

(** Objects with their keys in order, each once, as [Map] keeps them. *)
Inductive ordered_keys {A} : list (string * A) → Prop :=
| OrderedNil : ordered_keys []
| OrderedCons k v m : ordered_keys m → Forall (λ kv, string_le k kv.1 ∧ k ≠ kv.1) m → ordered_keys ((k, v) :: m).
Inductive document : JsonValue → Prop :=
| DocNull : document JsonNull
| DocBool b : document (JsonBool b)
| DocNum n : document (JsonNum n)
| DocStr s : document (JsonStr s)
| DocArr l : Forall document l → document (JsonArr l)
| DocObj m : ordered_keys m → Forall (λ kv, document kv.2) m → document (JsonObj m).

(** A key that is printed as it is, between quotes; the objects that have it. *)
Definition quoted (k : string) : Bytes := [x22] ++ as_bytes k ++ [x22].
Definition plain_key (k : string) : bool :=
  forallb (λ b, let n := Byte.to_N b in (31 <? n)%N && (n <? 127)%N && negb (n =? 34)%N && negb (n =? 92)%N) (as_bytes k).
Fixpoint has_key (k : string) (j : JsonValue) : bool :=
  match j with
  | JsonArr items => existsb (has_key k) items
  | JsonObj members => existsb (λ kv, bool_decide (k = kv.1) || has_key k kv.2) members
  | JsonNull | JsonBool _ | JsonNum _ | JsonStr _ => false
  end.

Class JsonTextLaws `{JsonText} (exact : JsonNumber → bool) : Prop := {
  print_total j : ∃ b, json_to_vec j = Ok b;
  print_parse j b : document j → all_numbers exact j = true → json_to_vec j = Ok b → json_from_slice b = Ok j;
  print_string s b : json_to_vec (JsonStr s) = Ok b → string_from_slice b = Ok s;
  print_named rs : named_to_vec rs = json_to_vec (named_json rs);
  parse_named rs b : named_to_vec rs = Ok b → named_from_slice b = Ok rs;
  parse_shape j b rs : json_to_vec j = Ok b → named_from_slice b = Ok rs → rs = [] ∨ named_shaped j = true;
  print_raw j b : json_to_vec j = Ok b → raw_from_slice b = Ok b;
  print_envelope key j b : json_to_vec j = Ok b → envelope_to_vec key b = json_to_vec (envelope_json key j);
  print_key k j b : plain_key k = true → has_key k j = true → json_to_vec j = Ok b → ∃ p q, b = p ++ quoted k ++ q;
  print_head j b : json_to_vec j = Ok b →
    match b with [] => False | c :: _ => (c = x5b ↔ ∃ l, j = JsonArr l) ∧ c ≠ x00 ∧ c ≠ x01 end
}.

(** ** [JsonCodec] *)

Section Codec.
Context `{JsonText}.

Definition json_decode_string (bytes : Bytes) : result BoxError string := string_from_slice bytes.
(** A result that is not JSON degrades to null. *)
Definition json_encode_branch_envelope (key : string) (result_bytes : Bytes) : result BoxError Bytes :=
  raw ← (match raw_from_slice result_bytes with Ok raw => Ok raw | Err _ => raw_from_slice (as_bytes "null") end);
  envelope_to_vec key raw.
Definition json_encode_named_results (results : list (string * Bytes)) : result BoxError Bytes := named_to_vec results.

#[export] Instance json_codec : EnvelopeCodec := {|
  decode_string := json_decode_string;
  encode_branch_envelope := json_encode_branch_envelope;
  encode_named_results := json_encode_named_results
|}.
(** The documents of the runtime's loop runner. *)
#[export] Instance json_serde : SerdeJson := {|
  Value := JsonValue;
  from_slice := json_from_slice;
  json_get := value_get;
  as_str := value_as_str;
  to_vec := json_to_vec
|}.
Definition json_codec_id : Frame.CodecId := Frame.Json.
End Codec.

(** ** Maps in key order *)

Lemma map_insert_keys {A} k (v : A) m x : x ∈ map_insert k v m → x = (k, v) ∨ x ∈ m.
Proof.
  induction m as [|[k' v'] m IH]; cbn; [rewrite list_elem_of_singleton; auto|].
  case_bool_decide; [rewrite elem_of_cons; set_solver|]. destruct (string_le k k'); set_solver.
Qed.

Lemma map_insert_ordered {A} k (v : A) m : ordered_keys m → ordered_keys (map_insert k v m).
Proof.
  induction 1 as [|k' v' m Hm IH Hk]; cbn; [repeat constructor|].
  case_bool_decide as Hkk; [subst; by constructor|]. destruct (string_le k k') eqn:Hle.
  - constructor; [by constructor|]. constructor; [cbn; by rewrite Hle|]. eapply Forall_impl; [exact Hk|].
    cbn. intros [k'' v''] [Hle' Hne]. cbn in *. split; [apply (string_le_trans k k' k''); [by rewrite Hle|done]|].
    intros ->. apply Hkk. apply string_le_antisym; [by rewrite Hle|done].
  - constructor; [done|]. apply Forall_forall. intros x [->|Hx]%map_insert_keys; [|by eapply Forall_forall in Hk].
    cbn. split; [|by apply not_eq_sym]. destruct (string_le_total k k') as [Ht|Ht]; [by rewrite Hle in Ht|done].
Qed.

Lemma map_collect_ordered {A} (l : list (string * A)) : ordered_keys (map_collect l).
Proof.
  unfold map_collect. assert (Hn : ordered_keys (A:=A) []) by constructor. revert Hn. generalize (@nil (string * A)).
  induction l as [|kv l IH]; intros m Hm; [done|]. cbn. apply IH. by apply map_insert_ordered.
Qed.

Lemma map_collect_elem {A} (l : list (string * A)) x : x ∈ map_collect l → x ∈ l.
Proof.
  unfold map_collect. assert (Hn : ∀ x, x ∈ @nil (string * A) → x ∈ l) by set_solver. revert Hn. generalize (@nil (string * A)).
  assert (Hgen : ∀ l' m, (∀ x, x ∈ m → x ∈ l) → (∀ x, x ∈ l' → x ∈ l) → x ∈ foldl (λ m kv, map_insert kv.1 kv.2 m) m l' → x ∈ l).
  { induction l' as [|[k v] l' IH]; intros m Hm Hl; cbn; [apply Hm|]. apply IH; [|set_solver].
    intros y [->|Hy]%map_insert_keys; [apply Hl; left|by apply Hm]. }
  intros m Hm. by apply Hgen.
Qed.

Lemma map_insert_fresh {A} k (v : A) m : k ∉ m.*1 → map_insert k v m ≡ₚ (k, v) :: m.
Proof.
  induction m as [|[k' v'] m IH]; cbn; [done|]. intros [Hne Hnin]%not_elem_of_cons. rewrite bool_decide_false by done.
  destruct (string_le k k'); [done|]. rewrite IH by done. apply perm_swap.
Qed.

(** Distinct keys: collecting only sorts. *)
Lemma map_collect_perm {A} (l : list (string * A)) : NoDup l.*1 → map_collect l ≡ₚ l.
Proof.
  intros Hnd. unfold map_collect.
  assert (Hgen : ∀ m, (∀ k, k ∈ m.*1 → k ∉ l.*1) → foldl (λ m kv, map_insert kv.1 kv.2 m) m l ≡ₚ m ++ l).
  2: { apply (Hgen []). set_solver. }
  induction l as [|[k v] l IH]; intros m Hm; cbn; [by rewrite app_nil_r|].
  cbn in Hnd. apply NoDup_cons in Hnd as [Hk Hnd]. assert (Hkm : k ∉ m.*1) by (intros Hin; apply (Hm k Hin); left).
  rewrite IH; [|done|].
  - rewrite (map_insert_fresh k v m Hkm). cbn. apply Permutation_middle.
  - intros k'. rewrite (map_insert_fresh k v m Hkm). cbn. intros [->|Hin]%elem_of_cons; [done|].
    specialize (Hm k' Hin). cbn in Hm. by apply not_elem_of_cons in Hm as [_ ?].
Qed.

Lemma map_get_None {A} k (m : list (string * A)) : k ∉ m.*1 → map_get k m = None.
Proof.
  induction m as [|[k' v] m IH]; cbn; [done|]. intros [Hne Hnin]%not_elem_of_cons. rewrite bool_decide_false by done. by apply IH.
Qed.
