(* ===== verification/NodeCodec.v ===== *)
(** * The codec of the Node.js binding ([sayiir-node/src/codec.rs])

    JavaScript values become JSON bytes and back.  Binary values travel as tagged
    envelopes; the results of a fork, which the runtime writes as pairs of a name and
    bytes, are read back as an object.  Values are trees (a cyclic value overflows the
    stack of the source).  What napi-rs does to a value beyond looking at it is a
    parameter: its bulk conversions, its strings and buffers, calls, errors. *)

From S2P Require Import Prelude Hash32 SnapshotFormat Task Workflow Serializable Snapshot Backend Runtime SyncExec Cloudflare Json.
From Stdlib Require Import Floats.SpecFloat.

(** ** JavaScript values, as N-API shows them

    An object has its own enumerable properties and the others [get] finds.  A view is
    a typed array or a [Buffer], with the name of its constructor. *)
Inductive NodeValue : Type :=
| NUndefined
| NNull
| NBoolean (b : bool)
| NNumber (x : f64)
| NString (s : string)
| NBigInt (n : Z)
| NSymbol
| NFunction (f : nat)
| NExternal
| NArray (items : list NodeValue)
| NObject (own : list (string * NodeValue)) (others : list (string * NodeValue))
| NArrayBuffer (bytes : Bytes)
| NView (constructor : option string) (bytes : Bytes).

Section NodeInd.
Context (P : NodeValue → Prop).
Context (Hundef : P NUndefined) (Hnull : P NNull) (Hbool : ∀ b, P (NBoolean b)) (Hnum : ∀ x, P (NNumber x)).
Context (Hstr : ∀ s, P (NString s)) (Hbig : ∀ n, P (NBigInt n)) (Hsym : P NSymbol) (Hfun : ∀ f, P (NFunction f)) (Hext : P NExternal).
Context (Harr : ∀ items, Forall P items → P (NArray items)).
Context (Hobj : ∀ own others, Forall (λ kv, P kv.2) own → P (NObject own others)).
Context (Hbuf : ∀ b, P (NArrayBuffer b)) (Hview : ∀ c b, P (NView c b)).
Fixpoint node_ind (v : NodeValue) : P v :=
  match v with
  | NUndefined => Hundef | NNull => Hnull | NBoolean b => Hbool b | NNumber x => Hnum x | NString s => Hstr s
  | NBigInt n => Hbig n | NSymbol => Hsym | NFunction f => Hfun f | NExternal => Hext
  | NArray items => Harr items ((fix go l : Forall P l :=
      match l with [] => Forall_nil_2 _ | v :: l => Forall_cons_2 _ _ _ (node_ind v) (go l) end) items)
  | NObject own others => Hobj own others ((fix go l : Forall (λ kv, P kv.2) l :=
      match l with [] => Forall_nil_2 _ | kv :: l => Forall_cons_2 _ _ _ (node_ind kv.2) (go l) end) own)
  | NArrayBuffer b => Hbuf b
  | NView c b => Hview c b
  end.
End NodeInd.

(** [get_type]. *)
Inductive ValueType : Type := TUndefined | TNull | TBoolean | TNumber | TString | TSymbol | TObject | TFunction | TExternal | TBigInt.
#[export] Instance ValueType_eq_dec : EqDecision ValueType.
Proof. solve_decision. Defined.
Definition get_type (v : NodeValue) : ValueType :=
  match v with
  | NUndefined => TUndefined | NNull => TNull | NBoolean _ => TBoolean | NNumber _ => TNumber | NString _ => TString
  | NBigInt _ => TBigInt | NSymbol => TSymbol | NFunction _ => TFunction | NExternal => TExternal
  | NArray _ | NObject _ _ | NArrayBuffer _ | NView _ _ => TObject
  end.
Definition value_type_debug (ty : ValueType) : string :=
  match ty with
  | TUndefined => "Undefined" | TNull => "Null" | TBoolean => "Boolean" | TNumber => "Number" | TString => "String"
  | TSymbol => "Symbol" | TObject => "Object" | TFunction => "Function" | TExternal => "External" | TBigInt => "BigInt"
  end.

(** [Object::get]: [None] for a property that is missing or undefined. *)
Definition defined (v : NodeValue) : option NodeValue := match v with NUndefined => None | _ => Some v end.
Definition get_property (v : NodeValue) (key : string) : option NodeValue :=
  match v with NObject own others => map_get key (own ++ others) ≫= defined | _ => None end.
(** [Object::set]. *)
Fixpoint set_field (k : string) (v : NodeValue) (own : list (string * NodeValue)) : list (string * NodeValue) :=
  match own with
  | [] => [(k, v)]
  | (k', v') :: own => if bool_decide (k = k') then (k, v) :: own else (k', v') :: set_field k v own
  end.

(** napi-rs: errors, its conversions to and from documents and Rust types, the [n]-th
    call of a function; base64. *)
Inductive NapiStatus : Type := GenericFailure | InvalidArg.
Class Napi : Type := {
  NapiError : Type;
  napi_error : NapiStatus → string → NapiError;              (* [Error::new] *)
  napi_to_string : NapiError → string;                       (* [Display] *)
  from_js_value : NodeValue → result NapiError JsonValue;    (* [env.from_js_value] *)
  to_js_value : JsonValue → result NapiError NodeValue;      (* [env.to_js_value] *)
  get_string : NodeValue → result NapiError string;          (* [String::from_napi_value] *)
  buffer_slice : NodeValue → result NapiError Bytes;         (* [BufferSlice::from_napi_value] *)
  call_function : nat → nat → NodeValue → result NapiError NodeValue;
  node_base64_encode : Bytes → string;
  node_base64_decode : string → result string Bytes
}.

Section Codec.
Context `{Napi, JsonText}.
Abbreviation Res := (result NapiError).

(** [is_arraybuffer], and [is_typedarray] or [is_buffer]. *)
Definition is_arraybuffer (v : NodeValue) : bool := match v with NArrayBuffer _ => true | _ => false end.
Definition is_typedarray (v : NodeValue) : bool := match v with NView _ _ => true | _ => false end.

(** [contains_binary_type]. *)
Fixpoint contains_binary_type (v : NodeValue) : bool :=
  if is_arraybuffer v || is_typedarray v then true
  else match v with
  | NArray items => existsb contains_binary_type items
  | NObject own _ => existsb (λ kv, contains_binary_type kv.2) own
  | _ => false
  end.

(** [make_binary_json] and [constructor_name]. *)
Definition make_binary_json (bytes : Bytes) (kind : string) : JsonValue :=
  JsonObj (map_collect [(TAG_BIN, JsonStr (node_base64_encode bytes)); (TAG_KIND, JsonStr kind)]).
Definition constructor_name (v : NodeValue) : option string := match v with NView c _ => c | _ => None end.

(** [js_to_json]: undefined properties are left out. *)
Fixpoint js_to_json (v : NodeValue) : Res JsonValue :=
  match v with
  | NArrayBuffer buf => Ok (make_binary_json buf "ArrayBuffer")
  | NView _ _ =>
      slice ← buffer_slice v;
      let kind := if bool_decide (constructor_name v = Some "Buffer") then "Buffer" else "Uint8Array" in
      Ok (make_binary_json slice kind)
  | NNull | NUndefined => Ok JsonNull
  | NBoolean b => Ok (JsonBool b)
  | NNumber n => Ok (match from_f64 n with Some n => JsonNum n | None => JsonNull end)
  | NString s => Ok (JsonStr s)
  | NArray items => JsonArr <$> (fix go l := match l with [] => Ok [] | v :: l => j ← js_to_json v; js ← go l; Ok (j :: js) end) items
  | NObject own _ =>
      JsonObj ∘ map_collect <$> (fix go l := match l with
        | [] => Ok []
        | (key, v) :: l =>
            match defined v with
            | Some _ => j ← js_to_json v; js ← go l; Ok ((key, j) :: js)
            | None => go l
            end
        end) own
  | NFunction _ | NSymbol | NExternal =>
      Err (napi_error InvalidArg ("JS value of type " +:+ value_type_debug (get_type v) +:+ " cannot be serialized"))
  | NBigInt _ => Err (napi_error InvalidArg ("Unsupported JS value type: " +:+ value_type_debug (get_type v)))
  end.

(** [encode_js_value]. *)
Definition node_encode_js_value (value : NodeValue) : Res Bytes :=
  json ← (if contains_binary_type value then js_to_json value else from_js_value value);
  map_err (λ e, napi_error GenericFailure (serde_message e)) (json_to_vec json).

(** [try_rehydrate_envelope]: a tag that is there and not a string is an error. *)
Definition get_string_property (obj : NodeValue) (key : string) : Res (option string) :=
  match get_property obj key with Some v => Some <$> get_string v | None => Ok None end.
Definition node_rehydrate_envelope (obj : NodeValue) : Res (option NodeValue) :=
  kind ← get_string_property obj TAG_KIND;
  encoded ← get_string_property obj TAG_BIN;
  match kind, encoded with
  | Some kind, Some encoded =>
      bytes ← map_err (λ e, napi_error InvalidArg ("Invalid base64 in $sayiir_bin: " +:+ e)) (node_base64_decode encoded);
      if bool_decide (kind = "Buffer") then Ok (Some (NView (Some "Buffer") bytes))
      else if bool_decide (kind = "Uint8Array") then Ok (Some (NView (Some "Uint8Array") bytes))
      else if bool_decide (kind = "ArrayBuffer") then Ok (Some (NArrayBuffer bytes))
      else Ok None
  | _, _ => Ok None
  end.

(** [rehydrate_binaries], on what [env.to_js_value] makes: it has no buffers. *)
Fixpoint rehydrate_binaries (v : NodeValue) : Res NodeValue :=
  match v with
  | NArray items => NArray <$> (fix go l := match l with [] => Ok [] | v :: l => v ← rehydrate_binaries v; vs ← go l; Ok (v :: vs) end) items
  | NObject own others =>
      rehydrated ← node_rehydrate_envelope v;
      match rehydrated with
      | Some rehydrated => Ok rehydrated
      | None =>
          (fix go l acc := match l with
           | [] => Ok (NObject acc [])
           | (key, v) :: l =>
               match defined v with
               | Some _ => v ← rehydrate_binaries v; go l (set_field key v acc)
               | None => go l acc
               end
           end) own []
      end
  | _ => Ok v
  end.

(** [contains_binary_tag]. *)
Definition contains_binary_tag (bytes : Bytes) : bool := containsb (quoted TAG_BIN) bytes.

(** [decode_branch_results]. *)
Definition parse_document (bytes : Bytes) : Res NodeValue :=
  serde_val ← map_err (λ e, napi_error InvalidArg (serde_message e)) (json_from_slice bytes);
  to_js_value serde_val.
Fixpoint set_branches (named : list (string * Bytes)) (own : list (string * NodeValue)) : Res (list (string * NodeValue)) :=
  match named with
  | [] => Ok own
  | (name, data) :: named =>
      raw ← parse_document data;
      rehydrated ← rehydrate_binaries raw;
      set_branches named (set_field name rehydrated own)
  end.
Definition decode_branch_results (named : list (string * Bytes)) : Res NodeValue :=
  own ← set_branches named []; Ok (NObject own []).

(** [decode_to_js_value]. *)
Definition node_decode_plain (bytes : Bytes) : Res NodeValue :=
  unknown ← parse_document bytes;
  if contains_binary_tag bytes then rehydrate_binaries unknown else Ok unknown.
Definition node_decode_to_js_value (bytes : Bytes) : Res NodeValue :=
  match bytes with
  | x5b :: _ =>
      match named_from_slice bytes with
      | Ok ((_ :: _) as named) => decode_branch_results named
      | _ => node_decode_plain bytes
      end
  | _ => node_decode_plain bytes
  end.
End Codec.
