(* ===== verification/Node.v ===== *)
(** * The Node.js binding ([sayiir-node/src/engine.rs], [durable_engine.rs],
    [workflow_client.rs], [worker.rs], [exceptions.rs])

    Tasks are JavaScript functions looked up by name.  Three ways to run them: the
    synchronous engine over [execute_continuation_sync], the stepper of [Stepper.v]
    with the binding's own documents, driven by JavaScript, and the durable engine over
    the runtime's checkpointing executor.  A worker hands tasks to a dispatcher of the
    JavaScript side as text. *)

From S2P Require Import Prelude Hash32 SnapshotFormat Task Workflow TaskIndex Serializable Snapshot Backend Runtime Lifecycle SyncExec Checkpoint Cloudflare Stepper Json NodeCodec.

(** ** Errors ([exceptions.rs]) *)

Section Exceptions.
Context `{Napi, Display}.
Definition workflow_error (msg : string) : NapiError := napi_error GenericFailure msg.
Definition backend_error (msg : string) : NapiError := napi_error GenericFailure msg.
Definition codec_error (msg : string) : NapiError := napi_error GenericFailure ("CODEC_ERROR: " +:+ msg).
Definition instance_already_exists_error (msg : string) : NapiError :=
  napi_error GenericFailure ("INSTANCE_ALREADY_EXISTS: " +:+ msg).
Definition runtime_err_to_napi (e : RuntimeError) : NapiError :=
  match e with
  | RCodec _ => codec_error (error_to_string e)
  | RBackend _ => backend_error (error_to_string e)
  | InstanceAlreadyExists _ => instance_already_exists_error (error_to_string e)
  | _ => workflow_error (error_to_string e)
  end.
Definition backend_err_to_napi (e : BackendError) : NapiError := backend_error (backend_error_to_string e).
End Exceptions.

Record NapiWorkflow (F : Type) : Type := MkNapiWorkflow {
  napi_workflow_id : string;
  napi_definition_hash : DefinitionHash;
  napi_continuation : WorkflowContinuation F;
  napi_task_index : TaskIndex;
  napi_metadata_json : option string
}.
Arguments MkNapiWorkflow {F}.
Arguments napi_workflow_id {F}.
Arguments napi_definition_hash {F}.
Arguments napi_continuation {F}.
Arguments napi_task_index {F}.
Arguments napi_metadata_json {F}.

(** ** Tasks and the synchronous engine ([engine.rs]) *)

Section Engine.
Context `{Napi, JsonText, Sha256, Display, Backon} {F : Type}.
Abbreviation Res := (result NapiError).

(** [is_promise]: an object with a function [then]. *)
Definition is_promise (value : NodeValue) : bool :=
  bool_decide (get_type value = TObject) &&
  match get_property value "then" with Some then_val => bool_decide (get_type then_val = TFunction) | None => false end.

(** [execute_js_task]; [n] counts the calls of the run. *)
Definition registered_fn (registry : NodeValue) (task_id : string) : option nat :=
  match get_property registry task_id with Some (NFunction f) => Some f | _ => None end.
Definition execute_js_task (registry : NodeValue) (n : nat) (task_id : string) (input : Bytes) : Res Bytes :=
  callable ← ok_or (registered_fn registry task_id)
    (napi_error GenericFailure ("Task '" +:+ task_id +:+ "' not found in registry"));
  input_obj ← node_decode_to_js_value input;
  result ← call_function n callable input_obj;
  if is_promise result then
    Err (napi_error GenericFailure ("Task '" +:+ task_id +:+ "' returned a Promise. Async tasks are not supported with " +:+
      "the sync engine. Use `await runWorkflow(...)` instead, which supports both sync and async tasks."))
  else node_encode_js_value result.

(** The executor callback of both engines: the error becomes its message. *)
Definition node_callback (registry : NodeValue) : TaskCallback := λ n task_id input,
  map_err (λ e, BoxOther (napi_to_string e)) (execute_js_task registry n task_id input).

(** [NapiWorkflowEngine::run]. *)
Definition node_engine_run (workflow : NapiWorkflow F) (input task_registry : NodeValue) : io nat NapiError NodeValue :=
  input_bytes ← lift_result (node_encode_js_value input);
  result ← io_map_err runtime_err_to_napi
    (execute_continuation_sync (H3:=node_callback task_registry) (napi_continuation workflow) input_bytes);
  lift_result (node_decode_to_js_value result).

(** ** The stepper ([engine.rs]) *)

Definition serde_fail {A} (r : result BoxError A) : Res A :=
  map_err (λ e, napi_error GenericFailure (serde_message e)) r.
(** [encode_branch_map]: a result that is not JSON is left out. *)
Definition encode_branch_map (results : list (string * Bytes)) : Res Bytes :=
  let branch_map := map_collect (omap (λ ib, pair ib.1 <$> ok (json_from_slice ib.2)) results) in
  serde_fail (json_to_vec (JsonObj branch_map)).
(** The [WrapBranchEnvelope] arm: a result that is not JSON is null. *)
Definition node_wrap_envelope (key : string) (current_input : Bytes) : Res Bytes :=
  let result_value := default JsonNull (ok (json_from_slice current_input)) in
  serde_fail (json_to_vec (envelope_json key result_value)).
Definition node_decode_loop_result (bytes : Bytes) : Res (string * Bytes) :=
  v ← serde_fail (json_from_slice bytes);
  tag ← ok_or (value_get "_loop" v ≫= value_as_str)
    (napi_error GenericFailure "Missing or invalid '_loop' tag in LoopResult");
  inner ← ok_or (value_get "value" v) (napi_error GenericFailure "Missing 'value' field in LoopResult");
  inner_bytes ← serde_fail (json_to_vec inner);
  Ok (tag, inner_bytes).

#[export] Instance node_stepper : StepperCodec := {|
  StepError := NapiError;
  step_error := napi_error GenericFailure;
  unsupported_signal id := napi_error GenericFailure ("AwaitSignal '" +:+ id +:+
    "' not supported in the simple executor. Use the durable engine instead.");
  StepValue := NodeValue;
  encode_value := node_encode_js_value;
  decode_key b := serde_fail (string_from_slice b);
  wrap_envelope := node_wrap_envelope;
  collect_results := encode_branch_map;
  loop_outcome := node_decode_loop_result
|}.

(** [NapiContinuationStepper]: the machine of [Stepper.v] over these documents. *)
Abbreviation NapiContinuationStepper := Stepper.
Abbreviation NapiStepResult := StepResult.
Definition node_flatten : WorkflowContinuation F → Res (list PlannedStep) := flatten_steps (H:=node_stepper).
Definition node_handle_branch_step : PlannedStep → NapiContinuationStepper → Res NapiContinuationStepper :=
  handle_branch_step (H:=node_stepper).
Definition node_handle_loop_step : PlannedStep → NapiContinuationStepper → Res NapiContinuationStepper :=
  handle_loop_step (H:=node_stepper).
Definition node_skip_non_tasks : NapiContinuationStepper → Res NapiContinuationStepper :=
  skip_non_tasks (H:=node_stepper).
Definition node_stepper_new (workflow : NapiWorkflow F) (input : NodeValue) : Res NapiContinuationStepper :=
  stepper_new (H:=node_stepper) (napi_continuation workflow) input.
Definition node_submit_result : NodeValue → NapiContinuationStepper → Res (NapiStepResult * NapiContinuationStepper) :=
  submit_result (H:=node_stepper).
End Engine.

(** ** The caller of the stepper ([sayiir-nodejs/src/executor.ts], [binary-codec.ts])

    [JSON.parse], the lenient [Buffer.from(text, "base64")] and [await] are JavaScript's. *)
Class JsRuntime `{Napi} : Type := {
  JSON_parse : string → result NapiError NodeValue;
  buffer_from_base64 : string → Bytes;
  await : NodeValue → result NapiError NodeValue;
  JSON_stringify : NodeValue → result NapiError string
}.

Section Caller.
Context `{Napi, JsonText, !JsRuntime}.
Abbreviation Res := (result NapiError).

(** [rehydrateBinaries]. *)
Definition ts_rehydrate_envelope (v : NodeValue) : option NodeValue :=
  match get_property v TAG_BIN, get_property v TAG_KIND with
  | Some (NString bin), Some (NString kind) =>
      let buf := buffer_from_base64 bin in
      if bool_decide (kind = "Buffer") then Some (NView (Some "Buffer") buf)
      else if bool_decide (kind = "Uint8Array") then Some (NView (Some "Uint8Array") buf)
      else if bool_decide (kind = "ArrayBuffer") then Some (NArrayBuffer buf)
      else None
  | _, _ => None
  end.
Fixpoint ts_rehydrate (v : NodeValue) : NodeValue :=
  match v with
  | NArray items => NArray (map ts_rehydrate items)
  | NObject own others =>
      default (NObject (map (λ kv, (kv.1, ts_rehydrate kv.2)) own) others) (ts_rehydrate_envelope v)
  | _ => v
  end.
(** [parseAndRehydrate]. *)
Definition parse_and_rehydrate (json : string) : Res NodeValue :=
  parsed ← JSON_parse json;
  Ok (if containsb (as_bytes TAG_BIN) (as_bytes json) then ts_rehydrate parsed else parsed).

(** The body of the loop of [runWorkflow], up to [submitResult]. *)
Definition run_step_task (registry : NodeValue) (task_id : string) (input_json : option string) : Res NodeValue :=
  task_fn ← ok_or (registered_fn registry task_id)
    (napi_error GenericFailure ("Task '" +:+ task_id +:+ "' not found in registry"));
  task_input ← (match input_json with Some json => parse_and_rehydrate json | None => Ok NUndefined end);
  output ← call_function 0 task_fn task_input;
  await output.
(** [runWorkflow] without a backend. *)
Definition node_run_workflow `{Display} {F} (workflow : NapiWorkflow F) (input registry : NodeValue) : Res NodeValue :=
  step ← run_workflow (H:=node_stepper) (run_step_task registry) (napi_continuation workflow) input;
  match output_json step with Some json => parse_and_rehydrate json | None => Ok NUndefined end.

(** *** A worker's tasks ([worker.rs], [sayiir-nodejs/src/worker.ts])

    The executor of [NapiWorker::start] sends one JSON text, the dispatcher answers
    with another; [lossy] is [String::from_utf8_lossy]. *)
Context (lossy : Bytes → string).
Definition worker_payload (task_id : string) (input : Bytes) : result BoxError Bytes :=
  let value := default JsonNull (ok (json_from_slice (as_bytes (lossy input)))) in
  json_to_vec (JsonObj (map_collect [("taskId", JsonStr task_id); ("input", value)])).
Definition dispatcher (registry : NodeValue) (n : nat) (payload : string) : Res string :=
  parsed ← JSON_parse payload;
  let task_id := match get_property parsed "taskId" with Some (NString id) => id | _ => "undefined" end in
  fn ← ok_or (registered_fn registry task_id)
    (napi_error GenericFailure ("Task '" +:+ task_id +:+ "' not found in any workflow registry"));
  output ← call_function n fn (default NUndefined (get_property parsed "input"));
  result ← await output;
  JSON_stringify result.
Definition worker_executor (registry : NodeValue) (n : nat) (task_id : string) (input : Bytes) : result BoxError Bytes :=
  payload ← worker_payload task_id input;
  output_json ← map_err (λ e, BoxOther (napi_to_string e)) (dispatcher registry n (String.string_of_list_byte payload));
  Ok (as_bytes output_json).
End Caller.

(** ** The durable engine ([durable_engine.rs]) *)

Record NapiWorkflowStatus : Type := MkNapiStatus {
  ns_flat : Status.FlatWorkflowStatus;
  ns_output_json : option string
}.
(** [from_core]; [to_rfc3339] is chrono's. *)
Definition from_core (to_rfc3339 : DateTime → string) (so : Status.WorkflowStatus * option Bytes) : NapiWorkflowStatus :=
  MkNapiStatus (Status.flatten to_rfc3339 so.1) (so.2 ≫= λ bytes, ok (Utf8.from_utf8 bytes)).

(** Why a request of the engine stops: an exception, or a panic of date arithmetic. *)
Inductive NodeStop `{Napi} : Type := NodeThrown (e : NapiError) | NodePanicked.

Record NapiDurableEngine : Type := MkNapiEngine { napi_conflict_policy : Conflict.ConflictPolicy }.

Section DurableEngine.
Context `{Napi, JsonText, Sha256, Chrono, FloatOps, Display, TaskTiming}.
Context {B F : Type} `{PersistentBackend B, Environment B} (to_rfc3339 : DateTime → string).
Abbreviation Req := (io (World B) NodeStop).

(** [parse_conflict_policy]; [debug] is [{val:?}]. *)
Definition node_parse_conflict_policy (debug : string → string) (s : option string) : result NapiError Conflict.ConflictPolicy :=
  map_err (λ val, napi_error InvalidArg ("invalid conflictPolicy: " +:+ debug val +:+
    " (valid: fail, use_existing, terminate_existing)")) (Conflict.parse_optional s).
(** [with_in_memory], [with_postgres] after connecting. *)
Definition node_durable_new (debug : string → string) (policy : option string) : result NapiError NapiDurableEngine :=
  MkNapiEngine <$> node_parse_conflict_policy debug policy.

Definition stop_of (to_napi : RuntimeError → NapiError) (e : Fault) : NodeStop :=
  match e with Rt e => NodeThrown (to_napi e) | Panic | OutOfFuel => NodePanicked end.

(** The checkpointing executor over JavaScript tasks, then [finalize_execution]. *)
Definition node_execute (workflow : NapiWorkflow F) (task_registry : NodeValue) (input : Bytes) (s : WorkflowSnapshot) :
    io (World B) Fault (Status.WorkflowStatus * option Bytes) := λ w,
  let settle r s w :=
    let '(r, w) := finalize_execution r s w in (map_err Rt (fst <$> r), w) in
  match execute_continuation_with_checkpointing (H5:=node_callback task_registry)
          (napi_continuation workflow) input (s, w) with
  | (Ok output, (s, w)) => settle (Ok output) s w
  | (Err (Rt e), (s, w)) => settle (Err e) s w
  | (Err f, (_, w)) => (Err f, w)
  end.

(** [run]. *)
Definition node_durable_run (self : NapiDurableEngine) (workflow : NapiWorkflow F) (instance_id : string)
    (input task_registry : NodeValue) : Req NapiWorkflowStatus :=
  early_return ← io_map_err (NodeThrown ∘ runtime_err_to_napi)
    (check_existing_instance instance_id (napi_definition_hash workflow) (napi_conflict_policy self));
  match early_return with
  | Some so => mret (from_core to_rfc3339 so)
  | None =>
      input_bytes ← lift_result (map_err NodeThrown (node_encode_js_value input));
      outcome ← io_map_err (NodeThrown ∘ runtime_err_to_napi)
        (prepare_run instance_id (napi_definition_hash workflow) input_bytes
          (first_task_hint (napi_continuation workflow)) (napi_conflict_policy self));
      so ← (match outcome with
            | Fresh s => io_map_err (stop_of runtime_err_to_napi) (node_execute workflow task_registry input_bytes s)
            | ExistingStatus status output => mret (status, output)
            end);
      mret (from_core to_rfc3339 so)
  end.

(** [resume]: every error is a plain workflow error. *)
Definition resume_error_to_napi (e : RuntimeError) : NapiError := workflow_error (error_to_string e).
Definition node_durable_resume (workflow : NapiWorkflow F) (instance_id : string) (task_registry : NodeValue) :
    Req NapiWorkflowStatus :=
  outcome ← io_map_err (NodeThrown ∘ resume_error_to_napi) (prepare_resume instance_id (napi_definition_hash workflow));
  so ← (match outcome with
        | AlreadyTerminal status =>
            match status with
            | Status.Completed =>
                r ← try_io (call (λ _, load_snapshot instance_id));
                mret (status, ok r ≫= λ s, completed_output (state s))
            | _ => mret (status, None)
            end
        | ResumePaused status | NotReady status => mret (status, None)
        | Ready s input_bytes => io_map_err (stop_of resume_error_to_napi) (node_execute workflow task_registry input_bytes s)
        end);
  mret (from_core to_rfc3339 so).

(** [cancel], [pause], [send_signal], [unpause]; the client's are the same. *)
Definition node_call {A} (op : DateTime → io B BackendError A) : Req A :=
  io_map_err (NodeThrown ∘ backend_err_to_napi) (call op).
Definition node_cancel (instance_id : string) (reason cancelled_by : option string) : Req unit :=
  t ← read_clock; node_call (λ _, store_signal instance_id Cancel (SignalRequest_new t reason cancelled_by)).
Definition node_pause (instance_id : string) (reason paused_by : option string) : Req unit :=
  t ← read_clock; node_call (λ _, store_signal instance_id Pause (SignalRequest_new t reason paused_by)).
Definition node_send_signal (instance_id signal_name : string) (payload : NodeValue) : Req unit :=
  payload_bytes ← lift_result (map_err NodeThrown (node_encode_js_value payload));
  node_call (λ _, send_event instance_id signal_name payload_bytes).
Definition node_unpause (instance_id : string) : Req unit :=
  node_call (λ t, unpause t instance_id) ≫= λ _, mret ().

(** ** The client ([workflow_client.rs]) *)

Definition node_submit (self : NapiDurableEngine) (workflow : NapiWorkflow F) (instance_id : string) (input : NodeValue) :
    Req NapiWorkflowStatus :=
  early_return ← io_map_err (NodeThrown ∘ runtime_err_to_napi)
    (check_existing_instance instance_id (napi_definition_hash workflow) (napi_conflict_policy self));
  match early_return with
  | Some so => mret (from_core to_rfc3339 so)
  | None =>
      input_bytes ← lift_result (map_err NodeThrown (node_encode_js_value input));
      outcome ← io_map_err (NodeThrown ∘ runtime_err_to_napi)
        (prepare_run instance_id (napi_definition_hash workflow) input_bytes
          (first_task_hint (napi_continuation workflow)) (napi_conflict_policy self));
      mret (from_core to_rfc3339
        (match outcome with Fresh _ => (Status.InProgress, None) | ExistingStatus status output => (status, output) end))
  end.
(** The client's [send_signal] takes the payload as JSON text. *)
Definition node_client_send_signal (instance_id signal_name payload_json : string) : Req unit :=
  node_call (λ _, send_event instance_id signal_name (as_bytes payload_json)).
(** [getTaskResult], over the backend's [TaskResultStore]; [lossy] is [String::from_utf8_lossy]. *)
Definition node_get_task_result (load_task_result : string → TaskId → io B BackendError (option Bytes))
    (lossy : Bytes → string) (instance_id task_id : string) : Req (option string) :=
  bytes ← node_call (λ _, load_task_result instance_id (TaskId_from task_id));
  mret (lossy <$> bytes).
Definition node_status (instance_id : string) : Req NapiWorkflowStatus :=
  s ← node_call (λ _, load_snapshot instance_id);
  mret (from_core to_rfc3339 (as_status (state s), completed_output (state s))).
End DurableEngine.
