(* ===== verification/NodeCodecProps.v ===== *)
(** * Values survive the Node.js codec

    A value that JSON can carry, binary parts included, is encoded and decoded to the
    same value, up to the order of properties. *)

From S2P Require Import Prelude Hash32 SnapshotFormat Task Workflow Serializable Snapshot Backend Runtime SyncExec Cloudflare Stepper Json NodeCodec.
From Stdlib Require Import Floats.SpecFloat.

(** ** What a document is as a value *)

Definition number_value (n : JsonNumber) : f64 := match n with PosInt n | NegInt n => f64_of_Z n | FloatNum x => x end.
Fixpoint js_of_json (j : JsonValue) : NodeValue :=
  match j with
  | JsonNull => NNull
  | JsonBool b => NBoolean b
  | JsonNum n => NNumber (number_value n)
  | JsonStr s => NString s
  | JsonArr items => NArray (js_of_json <$> items)
  | JsonObj members => NObject ((λ kv, (kv.1, js_of_json kv.2)) <$> members) []
  end.

(** The same value, whatever the order of properties. *)
Inductive same_value : NodeValue → NodeValue → Prop :=
| SameAtom v : same_value v v
| SameArray l l' : Forall2 same_value l l' → same_value (NArray l) (NArray l')
| SameObject own own1 own2 : own ≡ₚ own1 → Forall2 (λ p q, p.1 = q.1 ∧ same_value p.2 q.2) own1 own2 →
    same_value (NObject own []) (NObject own2 []).

(** Values JSON and the tags can carry: finite numbers that print exactly, plain objects
    that do not use the tags as properties, buffers and byte arrays. *)
Inductive portable (exact : JsonNumber → bool) : NodeValue → Prop :=
| PNull : portable exact NNull
| PBoolean b : portable exact (NBoolean b)
| PNumber x n : from_f64 x = Some n → exact n = true → portable exact (NNumber x)
| PString s : portable exact (NString s)
| PArray items : Forall (portable exact) items → portable exact (NArray items)
| PObject own : NoDup own.*1 → TAG_BIN ∉ own.*1 → TAG_KIND ∉ own.*1 → Forall (λ kv, portable exact kv.2) own →
    portable exact (NObject own [])
| PArrayBuffer b : portable exact (NArrayBuffer b)
| PView c b : c = Some "Buffer" ∨ c = Some "Uint8Array" → portable exact (NView c b).

(** What napi-rs and base64 document: documents become the values they describe, the
    bulk conversion agrees with a walk up to the form of numbers. *)
Class NapiLaws `{Napi} (exact : JsonNumber → bool) : Prop := {
  to_js_document j : document j → all_numbers exact j = true → to_js_value j = Ok (js_of_json j);
  from_js_agrees v j : portable exact v → contains_binary_type v = false → js_to_json v = Ok j → document j →
    all_numbers exact j = true → ∃ j', from_js_value v = Ok j' ∧ document j' ∧ all_numbers exact j' = true ∧ js_of_json j' = js_of_json j;
  get_string_string s : get_string (NString s) = Ok s;
  buffer_slice_bytes c b : c = Some "Buffer" ∨ c = Some "Uint8Array" → buffer_slice (NView c b) = Ok b;
  base64_roundtrip b : node_base64_decode (node_base64_encode b) = Ok b
}.

Section Walk.
Context `{Napi} (exact : JsonNumber → bool) `{!NapiLaws exact}.
Abbreviation portable := (portable exact).

(** What the walk makes of a value: a document that is rehydrated to the value. *)
Record walks (v : NodeValue) (j : JsonValue) : Prop := MkWalks {
  walks_document : document j;
  walks_exact : all_numbers exact j = true;
  walks_back : ∃ v', rehydrate_binaries (js_of_json j) = Ok v' ∧ same_value v v';
  walks_tagged : contains_binary_type v = true → has_key TAG_BIN j = true;
  walks_plain : contains_binary_type v = false → same_value v (js_of_json j)
}.

Lemma js_of_json_defined j : defined (js_of_json j) = Some (js_of_json j).
Proof. by destruct j. Qed.

(** *** Arrays *)

Lemma js_to_json_array items : js_to_json (NArray items) = JsonArr <$> traverse js_to_json items.
Proof. reflexivity. Qed.
Lemma rehydrate_array items : rehydrate_binaries (NArray items) = NArray <$> traverse rehydrate_binaries items.
Proof. reflexivity. Qed.

Lemma traverse_Forall2 {A B E} (g : A → result E B) (P : A → B → Prop) l :
  Forall (λ a, ∃ b, g a = Ok b ∧ P a b) l → ∃ bs, traverse g l = Ok bs ∧ Forall2 P l bs.
Proof.
  induction 1 as [|a l (b & Hb & HP) _ (bs & Hbs & Hl)]; [exists []; by split|]. exists (b :: bs). cbn. rewrite Hb. cbn.
  fold (traverse g l). rewrite Hbs. split; [done|by constructor].
Qed.

Lemma forallb_Forall2 {A B} (P : A → B → Prop) (p : B → bool) l k : (∀ a b, P a b → p b = true) → Forall2 P l k → forallb p k = true.
Proof. intros Hp. induction 1 as [|a b l k HP _ IH]; [done|]. cbn. by rewrite (Hp _ _ HP), IH. Qed.
Lemma existsb_Forall2 {A B} (P : A → B → Prop) (p : A → bool) (q : B → bool) l k :
  (∀ a b, P a b → p a = true → q b = true) → Forall2 P l k → existsb p l = true → existsb q k = true.
Proof.
  intros Hp. induction 1 as [|a b l k HP _ IH]; [done|]. cbn. intros [Ha|Hl]%orb_true_iff; apply orb_true_iff; [left|right]; eauto.
Qed.

Lemma array_walks items js : Forall2 walks items js → walks (NArray items) (JsonArr js).
Proof.
  intros Hw. split.
  - constructor. apply Forall_forall. intros j (i & Hi)%list_elem_of_lookup_1. destruct (Forall2_lookup_r _ _ _ _ _ Hw Hi) as (v & _ & Hv). by destruct Hv.
  - cbn. eapply forallb_Forall2; [|exact Hw]. by intros v j [].
  - cbn [js_of_json]. rewrite rehydrate_array.
    assert (∃ vs, traverse rehydrate_binaries (js_of_json <$> js) = Ok vs ∧ Forall2 same_value items vs) as (vs & -> & Hvs).
    { induction Hw as [|v j items js [_ _ (v' & Hv & Hs) _ _] _ (vs & Hvs & Hl)]; [exists []; by split|].
      exists (v' :: vs). cbn. rewrite Hv. cbn. fold (traverse rehydrate_binaries (js_of_json <$> js)). rewrite Hvs.
      split; [done|by constructor]. }
    eexists. split; [done|by constructor].
  - cbn. eapply existsb_Forall2; [|exact Hw]. intros v j []. auto.
  - cbn. intros Hb. constructor. clear -Hw Hb. induction Hw as [|v j items js Hv _ IH]; [constructor|]. cbn in *.
    apply orb_false_iff in Hb as [Hb1 Hb2]. constructor; [by apply (walks_plain _ _ Hv)|by apply IH].
Qed.

(** *** Objects *)

Definition own_to_json : list (string * NodeValue) → result NapiError (list (string * JsonValue)) :=
  fix go l := match l with
    | [] => Ok []
    | (key, v) :: l =>
        match defined v with
        | Some _ => j ← js_to_json v; js ← go l; Ok ((key, j) :: js)
        | None => go l
        end
    end.
Lemma js_to_json_object own others : js_to_json (NObject own others) = JsonObj ∘ map_collect <$> own_to_json own.
Proof. reflexivity. Qed.

Definition rehydrate_own : list (string * NodeValue) → list (string * NodeValue) → result NapiError NodeValue :=
  fix go l acc := match l with
    | [] => Ok (NObject acc [])
    | (key, v) :: l =>
        match defined v with
        | Some _ => v ← rehydrate_binaries v; go l (set_field key v acc)
        | None => go l acc
        end
    end.
Lemma rehydrate_object own others :
  rehydrate_binaries (NObject own others) =
  (rehydrated ← node_rehydrate_envelope (NObject own others);
   match rehydrated with Some rehydrated => Ok rehydrated | None => rehydrate_own own [] end).
Proof. reflexivity. Qed.

Lemma set_field_fresh k v own : k ∉ own.*1 → set_field k v own = own ++ [(k, v)].
Proof.
  induction own as [|[k' v'] own IH]; cbn; [done|]. intros [Hne Hnin]%not_elem_of_cons. rewrite bool_decide_false by done.
  by rewrite IH.
Qed.

Lemma no_envelope own : TAG_BIN ∉ own.*1 → TAG_KIND ∉ own.*1 → node_rehydrate_envelope (NObject own []) = Ok None.
Proof.
  intros Hb Hk. unfold node_rehydrate_envelope, get_string_property, get_property.
  by rewrite app_nil_r, (map_get_None TAG_KIND own Hk), (map_get_None TAG_BIN own Hb).
Qed.

Definition members_walk : list (string * NodeValue) → list (string * JsonValue) → Prop :=
  Forall2 (λ kv kj, kv.1 = kj.1 ∧ walks kv.2 kj.2).
Abbreviation of_members := (fmap (M:=list) (λ kv : string * JsonValue, (kv.1, js_of_json kv.2))).

Lemma members_keys own kjs : members_walk own kjs → kjs.*1 = own.*1.
Proof. induction 1 as [|[] [] ? ? [Hk _] _ IH]; cbn in *; [done|]. by rewrite Hk, IH. Qed.

Lemma of_members_keys (m : list (string * JsonValue)) : (of_members m).*1 = m.*1.
Proof. induction m as [|[] m IH]; cbn; [done|]. by rewrite IH. Qed.

Lemma rehydrate_members own m acc :
  members_walk own m → NoDup m.*1 → (∀ k, k ∈ acc.*1 → k ∉ m.*1) →
  ∃ own', rehydrate_own (of_members m) acc = Ok (NObject (acc ++ own') []) ∧ Forall2 (λ p q, p.1 = q.1 ∧ same_value p.2 q.2) own own'.
Proof.
  intros Hw. revert acc. induction Hw as [|[k v] [k' j] own m [Hk Hv] Hw IH]; intros acc Hnd Hacc; cbn in *.
  { exists []. rewrite app_nil_r. by split. }
  subst k'. apply NoDup_cons in Hnd as [Hkm Hnd]. rewrite js_of_json_defined.
  destruct Hv as [_ _ (v' & Hv' & Hs) _ _]. rewrite Hv'. cbn.
  assert (Hka : k ∉ acc.*1) by (intros Hin; apply (Hacc k Hin); left).
  destruct (IH (set_field k v' acc) Hnd) as (own' & -> & Hown).
  { intros k''. rewrite (set_field_fresh _ _ _ Hka), fmap_app. cbn. intros [Hin| ->%list_elem_of_singleton]%elem_of_app; [|done].
    specialize (Hacc _ Hin). by apply not_elem_of_cons in Hacc as [_ ?]. }
  exists ((k, v') :: own'). rewrite (set_field_fresh _ _ _ Hka), <-app_assoc. split; [done|by constructor].
Qed.

Lemma object_walks own kjs :
  NoDup own.*1 → TAG_BIN ∉ own.*1 → TAG_KIND ∉ own.*1 → members_walk own kjs →
  walks (NObject own []) (JsonObj (map_collect kjs)).
Proof.
  intros Hnd Htb Htk Hw. pose proof (members_keys _ _ Hw) as Hkeys.
  assert (Hp : map_collect kjs ≡ₚ kjs) by (apply map_collect_perm; by rewrite Hkeys).
  assert (∃ own1, own ≡ₚ own1 ∧ members_walk own1 (map_collect kjs)) as (own1 & Hown1 & Hw1).
  { apply Forall2_flip in Hw. symmetry in Hp. destruct (Permutation_Forall2 Hp Hw) as (own1 & Ho & Hw1).
    exists own1. split; [done|]. by apply Forall2_flip in Hw1. }
  pose proof (members_keys _ _ Hw1) as Hkeys1. assert (Hnd1 : NoDup (map_collect kjs).*1) by (by rewrite Hkeys1, <-Hown1).
  split.
  - constructor; [apply map_collect_ordered|]. apply Forall_forall. intros kj (i & Hi)%list_elem_of_lookup_1.
    destruct (Forall2_lookup_r _ _ _ _ _ Hw1 Hi) as (kv & _ & _ & Hv). by destruct Hv.
  - cbn. eapply forallb_Forall2; [|exact Hw1]. by intros v j [_ []].
  - cbn [js_of_json]. rewrite rehydrate_object, no_envelope by (by rewrite of_members_keys, Hkeys1, <-Hown1).
    cbn. destruct (rehydrate_members own1 (map_collect kjs) []) as (own' & -> & Hs); [done..|set_solver|].
    eexists. split; [done|]. by econstructor.
  - cbn. intros Hb. eapply (existsb_Forall2 _ (λ kv, contains_binary_type kv.2)); [|exact Hw1|].
    + intros kv kj [_ Hv] Hkv. apply orb_true_iff. right. by apply (walks_tagged _ _ Hv).
    + clear -Hb Hown1. apply existsb_exists in Hb as (x & Hx & Hbx). apply existsb_exists. exists x. split; [|done].
      apply list_elem_of_In in Hx. apply list_elem_of_In. by rewrite <-Hown1.
  - cbn. intros Hb. econstructor; [exact Hown1|].
    assert (Hb1 : Forall (λ kv, contains_binary_type kv.2 = false) own1).
    { rewrite <-Hown1. clear -Hb. induction own as [|kv own IH]; [constructor|]. cbn in Hb.
      apply orb_false_iff in Hb as [??]. constructor; auto. }
    clear -Hw1 Hb1. induction Hw1 as [|kv kj own m [Hk Hv] _ IH]; [constructor|]. inversion Hb1; subst. constructor; [|by apply IH].
    split; [done|by apply (walks_plain _ _ Hv)].
Qed.

(** *** Buffers *)

Lemma binary_walks v b kind :
  contains_binary_type v = true →
  (bool_decide (kind = "Buffer") = true ∧ v = NView (Some "Buffer") b ∨
   kind = "Uint8Array" ∧ v = NView (Some "Uint8Array") b ∨ kind = "ArrayBuffer" ∧ v = NArrayBuffer b) →
  walks v (make_binary_json b kind).
Proof.
  intros Hb Hk. split.
  - constructor; [apply map_collect_ordered|]. apply Forall_forall. intros kv Hin%map_collect_elem.
    apply elem_of_cons in Hin as [->|Hin]; [constructor|]. apply list_elem_of_singleton in Hin as ->. constructor.
  - done.
  - exists v. split; [|constructor].
    change (rehydrate_binaries _) with (rehydrate_binaries (NObject
      [(TAG_BIN, NString (node_base64_encode b)); (TAG_KIND, NString kind)] [])).
    rewrite rehydrate_object. unfold node_rehydrate_envelope, get_string_property.
    change (get_property _ TAG_KIND) with (Some (NString kind)).
    change (get_property _ TAG_BIN) with (Some (NString (node_base64_encode b))).
    cbv beta match. rewrite !get_string_string. cbn. rewrite base64_roundtrip. cbn.
    destruct Hk as [[Hk ->]|[[-> ->]|[-> ->]]]; [by rewrite Hk|done|done].
  - done.
  - by rewrite Hb.
Qed.

Lemma portable_walks v : portable v → ∃ j, js_to_json v = Ok j ∧ walks v j.
Proof.
  induction v as [| | | | | | | | |items IH|own others IH|b|c b] using node_ind; inversion 1; subst.
  - eexists. split; [done|]. split; try done; [constructor|eexists; by split; [|constructor]|constructor].
  - eexists. split; [done|]. split; try done; [constructor|eexists; by split; [|constructor]|constructor].
  - match goal with Hx : from_f64 x = Some _ |- _ => cbn; rewrite Hx end. eexists. split; [done|].
    assert (number_value n = x) by (destruct x; cbn in *; by simplify_eq).
    split; try done; [constructor|eexists; split; [done|]|intros _]; cbn; subst; constructor.
  - eexists. split; [done|]. split; try done; [constructor|eexists; by split; [|constructor]|constructor].
  - rewrite js_to_json_array. destruct (traverse_Forall2 js_to_json walks items) as (js & -> & Hjs).
    + apply Forall_forall. intros v Hv. rewrite Forall_forall in IH. apply IH; [done|]. by eapply Forall_forall.
    + eexists. split; [done|]. by apply array_walks.
  - rewrite js_to_json_object.
    assert (∃ kjs, own_to_json own = Ok kjs ∧ members_walk own kjs) as (kjs & -> & Hw).
    { match goal with Hp : Forall _ own |- _ => rename Hp into Hpo end. clear -IH Hpo.
      induction own as [|[k v] own IHo]; [exists []; by split; [|constructor]|].
      inversion IH as [|? ? Hv Hi]; inversion Hpo as [|? ? Hpv Hp]; subst. cbn in *.
      destruct (Hv Hpv) as (j & Hj & Hw). destruct (IHo Hi Hp) as (kjs & Hk & Hks).
      assert (defined v = Some v) as -> by (inversion Hpv; by subst).
      rewrite Hj. cbn. fold own_to_json. rewrite Hk. eexists. split; [done|]. by constructor. }
    eexists. split; [done|]. by apply object_walks.
  - eexists. split; [done|]. apply binary_walks; [done|]. naive_solver.
  - match goal with X : _ ∨ _ |- _ => rename X into Hc end.
    eexists. split; [cbn; rewrite buffer_slice_bytes by done; reflexivity|]. cbn.
    apply binary_walks; [done|]. destruct Hc as [-> | ->]; naive_solver.
Qed.
End Walk.

(** ** Encoding and decoding *)

(** An array that reads like branch results. *)
Definition shaped_pair (v : NodeValue) : bool :=
  match v with NArray [NString _; NArray _] | NArray [NString _; NString _] => true | _ => false end.
Definition branch_shaped (v : NodeValue) : bool :=
  match v with NArray ((_ :: _) as items) => forallb shaped_pair items | _ => false end.

Lemma named_pair_value j : named_pair j = shaped_pair (js_of_json j).
Proof. destruct j as [| | | |[|[] [|[] [|]]]|]; reflexivity. Qed.
Lemma named_shaped_value j : named_shaped j = branch_shaped (js_of_json j).
Proof.
  destruct j as [| | | |items|]; try reflexivity. destruct items as [|i items]; [done|].
  unfold named_shaped, branch_shaped. cbn [js_of_json fmap list_fmap].
  change (js_of_json i :: (js_of_json <$> items)) with (js_of_json <$> (i :: items)).
  generalize (i :: items). induction l as [|j l IH]; [done|]. cbn [forallb fmap list_fmap]. by rewrite named_pair_value, IH.
Qed.

Section Shape.
Context `{Napi}.

(** Only strings and arrays are written as such. *)
Lemma to_json_inv v j : js_to_json v = Ok j →
  match j with JsonStr s => v = NString s | JsonArr js => ∃ items, v = NArray items ∧ traverse js_to_json items = Ok js | _ => True end.
Proof.
  destruct v as [| | |x| | | | | |items|own others|b|c b].
  1-9: cbn; intros Hj; simplify_eq; try done; by destruct (from_f64 x).
  - rewrite js_to_json_array. destruct (traverse js_to_json items) as [js|] eqn:Ht; [|done]. cbn. intros [= <-]. eauto.
  - rewrite js_to_json_object. destruct (own_to_json own); [|done]. cbn. by intros [= <-].
  - cbn. by intros [= <-].
  - cbn. destruct (buffer_slice _); [|done]. cbn. by intros [= <-].
Qed.

Lemma traverse_length {A B E} (g : A → result E B) l bs : traverse g l = Ok bs → Forall2 (λ a b, g a = Ok b) l bs.
Proof.
  revert bs. induction l as [|a l IH]; intros bs; cbn; [intros [= <-]; constructor|].
  destruct (g a) as [b|] eqn:Hb; [|done]. cbn. fold (traverse g l). destruct (traverse g l) as [bs'|]; [|done]. cbn.
  intros [= <-]. constructor; [done|by apply IH].
Qed.

Lemma pair_reflects v j : js_to_json v = Ok j → named_pair j = true → shaped_pair v = true.
Proof.
  intros Hv%to_json_inv Hp. destruct j as [| | | |[|j1 [|j2 [|]]]|]; try done; [by destruct j1| |by destruct j1, j2].
  destruct Hv as (items & -> & Ht%traverse_length).
  inversion Ht as [|v1 ? items' ? H1 Ht']; subst. inversion Ht' as [|v2 ? ? ? H2 Ht'']; subst. inversion Ht''; subst.
  destruct j1 as [| | |s1| |]; try done. apply to_json_inv in H1 as ->. apply to_json_inv in H2.
  destruct j2 as [| | |s2|l2|]; try done; [by subst|]. by destruct H2 as (? & -> & _).
Qed.
Lemma shape_reflects v j : js_to_json v = Ok j → named_shaped j = true → branch_shaped v = true.
Proof.
  intros Hv%to_json_inv Hs. destruct j as [| | | |[|j js]|]; try done.
  destruct Hv as (items & -> & Ht%traverse_length). inversion Ht as [|v ? items' ? Hv Ht']; subst.
  cbn in Hs. apply andb_true_iff in Hs as [Hp Hs]. cbn. rewrite (pair_reflects _ _ Hv Hp). cbn.
  clear -Ht' Hs. induction Ht' as [|v j items js Hv _ IH]; [done|]. cbn in *. apply andb_true_iff in Hs as [Hp Hs].
  by rewrite (pair_reflects _ _ Hv Hp), IH.
Qed.
End Shape.

Lemma prefixb_app p q : prefixb p (p ++ q) = true.
Proof. induction p as [|b p IH]; cbn; [by destruct q|]. by rewrite (Byte.byte_dec_lb (eq_refl b)), IH. Qed.
Lemma containsb_app p q r : containsb p (q ++ p ++ r) = true.
Proof.
  induction q as [|b q IH]; cbn.
  - destruct (p ++ r) as [|x l] eqn:He; [by apply app_eq_nil in He as [-> _]|]. cbn [containsb]. by rewrite <-He, prefixb_app.
  - by rewrite IH, orb_true_r.
Qed.

Section Survives.
Context `{Napi, JsonText} (exact : JsonNumber → bool) `{!NapiLaws exact, !JsonTextLaws exact}.

(** The text of a document without the shape of branch results is read as the document. *)
Lemma decode_plain_text j b :
  document j → all_numbers exact j = true → named_shaped j = false → json_to_vec j = Ok b →
  node_decode_to_js_value b =
  if contains_binary_tag b then rehydrate_binaries (js_of_json j) else Ok (js_of_json j).
Proof.
  intros Hd He Hs Hb.
  assert (Hp : node_decode_plain b = if contains_binary_tag b then rehydrate_binaries (js_of_json j) else Ok (js_of_json j)).
  { unfold node_decode_plain, parse_document. rewrite (print_parse _ _ Hd He Hb). cbn. by rewrite (to_js_document j). }
  unfold node_decode_to_js_value. destruct b as [|c b]; [done|]. destruct c; try done.
  destruct (named_from_slice _) as [[|nb named]|] eqn:Hn; [done| |done].
  destruct (parse_shape j _ _ Hb Hn) as [?|?]; [done|congruence].
Qed.

Lemma value_survives v :
  portable exact v → branch_shaped v = false →
  ∃ b v', node_encode_js_value v = Ok b ∧ node_decode_to_js_value b = Ok v' ∧ same_value v v'.
Proof.
  intros Hv Hs. destruct (portable_walks exact v Hv) as (j & Hj & [Hd He (v' & Hback & Hsame) Htag Hplain]).
  assert (Hsj : named_shaped j = false) by (apply not_true_iff_false; intros Hn%(shape_reflects v); congruence).
  unfold node_encode_js_value. destruct (contains_binary_type v) eqn:Hb.
  - rewrite Hj. cbn. destruct (print_total (exact:=exact) j) as [b Hp]. rewrite Hp. cbn. exists b, v'. split; [done|]. split; [|done].
    rewrite (decode_plain_text j b) by done. unfold contains_binary_tag.
    destruct (print_key (exact:=exact) TAG_BIN j b) as (p & q & ->); [done|by apply Htag|done|]. by rewrite containsb_app.
  - destruct (from_js_agrees v j Hv Hb Hj Hd He) as (j' & -> & Hd' & He' & Hsame'). cbn.
    destruct (print_total (exact:=exact) j') as [b Hp]. rewrite Hp. cbn. exists b.
    assert (Hsj' : named_shaped j' = false) by (by rewrite named_shaped_value, Hsame', <-named_shaped_value).
    rewrite (decode_plain_text j' b) by done. rewrite Hsame'.
    destruct (contains_binary_tag b); [exists v'; auto|]. eexists. split; [done|]. split; [done|by apply Hplain].
Qed.
End Survives.

(** C29. Values survive a checkpoint of the Node.js binding: whatever JSON or the tags can
    carry (buffers and byte arrays anywhere inside, plain objects that do not use the
    tags as properties) is encoded, and decoding the bytes gives the same value with the
    same buffers, up to the order of properties, unless the value is an array that reads
    like branch results. *)
Theorem node_value_survives `{Napi, JsonText} (exact : JsonNumber → bool) `{!NapiLaws exact, !JsonTextLaws exact} (v : NodeValue) :
  portable exact v → branch_shaped v = false →
  ∃ b v', node_encode_js_value v = Ok b ∧ node_decode_to_js_value b = Ok v' ∧ same_value v v'.
Proof. by apply (value_survives exact). Qed.
