(* ===== verification/NodeProps.v ===== *)
(** * The Node.js engines compute what a workflow means

    The binding's stepper runs a workflow as the specification means it, over the
    binding's own documents; a durable run on a fresh instance reports and stores that
    meaning over the runtime's JSON codec. *)

From S2P Require Import Prelude Hash32 SnapshotFormat Task Workflow TaskIndex Serializable Snapshot Backend InMemory Runtime Lifecycle SyncExec Checkpoint Durability Cloudflare CloudflareProps Stepper StepperProps Json NodeCodec NodeCodecProps Node.

(** ** The stepper *)

(** The envelopes of the stepper, as a codec of the specification. *)
Section Envelopes.
Context `{JsonText}.
Definition branch_map (results : list (string * Bytes)) : JsonValue :=
  JsonObj (map_collect (omap (λ ib, pair ib.1 <$> ok (json_from_slice ib.2)) results)).
Definition wrapped (key : string) (b : Bytes) : JsonValue := envelope_json key (default JsonNull (ok (json_from_slice b))).
Definition node_envelopes : EnvelopeCodec := {|
  decode_string := string_from_slice;
  encode_branch_envelope key b := json_to_vec (wrapped key b);
  encode_named_results rs := json_to_vec (branch_map rs)
|}.
End Envelopes.

Section Stepping.
Context `{Napi, JsonText} (exact : JsonNumber → bool) `{!JsonTextLaws exact}.

Lemma printed_text j b : json_to_vec j = Ok b → text b.
Proof. intros Hb%(print_head (exact:=exact)). destruct b as [|c b]; [done|]. destruct Hb as (_ & Hz & Ho). by destruct c. Qed.

Lemma encoded_text v b : node_encode_js_value v = Ok b → text b.
Proof.
  unfold node_encode_js_value. destruct (if contains_binary_type v then _ else _) as [j|]; [|done]. cbn.
  destruct (json_to_vec j) as [b'|] eqn:Hb; [|done]. cbn. intros [= <-]. by eapply printed_text.
Qed.

Lemma node_loop_agrees out d inner : text out → decode_any_envelope out = Ok (d, inner) →
  node_decode_loop_result out = Ok (match d with LoopEnvelope.Again => "again" | LoopEnvelope.Done => "done" end, inner) ∧
  ∃ v, json_to_vec v = Ok inner.
Proof.
  intros Ht Hd.
  assert (Hj : (v ← json_from_slice out;
    tag ← ok_or (value_get "_loop" v ≫= value_as_str) (BoxOther "missing or invalid '_loop' tag in LoopResult JSON");
    decision ← ok_or (parse_decision tag) (BoxOther ("unknown loop decision tag: '" +:+ tag +:+ "'"));
    inner ← ok_or (value_get "value" v) (BoxOther "missing 'value' field in LoopResult JSON");
    out ← json_to_vec inner;
    Ok (decision, out)) = Ok (d, inner)).
  { destruct out as [|b out]; [done|]. destruct b; done. }
  clear Hd. unfold node_decode_loop_result, serde_fail.
  destruct (json_from_slice out) as [v|]; [|done]. cbn in Hj |- *.
  destruct (value_get "_loop" v ≫= value_as_str) as [tag|]; [|done]. cbn in Hj |- *.
  destruct (parse_decision tag) as [d'|] eqn:Hp; [|done]. cbn in Hj.
  destruct (value_get "value" v) as [iv|]; [|done]. cbn in Hj |- *.
  destruct (json_to_vec iv) as [o|] eqn:Ho; [|done]. cbn in Hj |- *. injection Hj as -> ->.
  unfold parse_decision in Hp. split; [|by exists iv].
  case_bool_decide; [by injection Hp as <-; subst|]. case_bool_decide; [by injection Hp as <-; subst|done].
Qed.

Lemma node_text : @StepperText node_stepper json_serde node_envelopes text.
Proof.
  split.
  - intros b key. cbn. unfold serde_fail. intros ->. done.
  - intros key b e. cbn. unfold node_wrap_envelope, serde_fail, wrapped. intros He. rewrite He. split; [done|].
    by eapply printed_text.
  - intros rs e. cbn. unfold encode_branch_map, serde_fail, branch_map. intros He. rewrite He. split; [done|].
    by eapply printed_text.
  - intros out d inner Ht Hd. destruct (node_loop_agrees out d inner Ht Hd) as (Ho & v & Hv). split; [exact Ho|].
    by eapply printed_text.
Qed.

Lemma node_stepper_ok `{Sha256} {F : Type} (call_task : string → option string → result NapiError NodeValue)
    (f : string → Bytes → result BoxError Bytes) (c : WorkflowContinuation F) (input : NodeValue) (bytes o : Bytes) :
  (∀ id i, ok (v ← call_task id (ok (Utf8.from_utf8 i)); node_encode_js_value v) = ok (f id i)) →
  steppable false c = true → node_encode_js_value input = Ok bytes → evaluates (H1:=node_envelopes) f eq c bytes o →
  run_workflow (H:=node_stepper) call_task c input = Ok (step_done o).
Proof.
  intros Hf Hst Henc He. pose proof node_text as HT.
  eapply (run_workflow_ok (H:=node_stepper) (H2:=node_envelopes) text); try done; [|by eapply encoded_text].
  intros id i x Hx. specialize (Hf id i). rewrite Hx in Hf. destruct (call_task id _) as [v|]; [|done]. cbn in Hf.
  destruct (node_encode_js_value v) as [b|] eqn:Hb; [|done]. injection Hf as ->. by eapply encoded_text.
Qed.
End Stepping.

(** ** The durable engine *)

Section Durable.
Context `{Napi, JsonText, Sha256, Chrono, FloatOps, Display, TaskTiming} {F : Type}.
Context `{Environment InMemoryBackend} (quiet : ∀ n b, others n b = b).

Lemma node_fresh_run to_rfc3339 (self : NapiDurableEngine) (wf : NapiWorkflow F) id input registry bytes o
    (f : string → Bytes → result BoxError Bytes) (w : World InMemoryBackend) :
  let c := napi_continuation wf in
  (∀ n id i, node_callback registry n id i = f id i) →
  find_duplicate_id c = None → collision_free (node_ids c) → immediate c = true →
  validate_instance_id id = Ok () → snapshots (store w) !! id = None →
  pending (store w) id Cancel = None → pending (store w) id Pause = None →
  napi_conflict_policy self = Conflict.Fail → node_encode_js_value input = Ok bytes → evaluates f eq c bytes o →
  ∃ s w', node_durable_run to_rfc3339 self wf id input registry w =
      (Ok (from_core to_rfc3339 (Status.Completed, Some o)), w') ∧
    state s = Completed o ∧ snapshots (store w') !! id = Some s.
Proof.
  intros c Hf Hd Hcf Him Hid Hs Hc Hp Hpol Henc He.
  destruct (durable_end_to_end (H5:=node_callback registry) quiet f Hf id (napi_definition_hash wf) bytes c o w)
    as (s & w1 & s2 & w2 & s3 & w3 & Hstart & Hrun & Hfin & Hs3 & Hlk); [done..|].
  exists s3, w3. split; [|done]. revert Hstart. unfold check_then_prepare, node_durable_run. rewrite Hpol.
  rewrite !io_bind_run. unfold io_map_err at 1. destruct (check_existing_instance _ _ _ w) as [[[so|]|] w0]; [by destruct so|..|done].
  intros Hstart. rewrite bind_lift, Henc. cbn [map_err]. rewrite !io_bind_run. unfold io_map_err at 1.
  change (prepare_run id (napi_definition_hash wf) bytes (first_task_hint c) Conflict.Fail w0 = (Ok (Fresh s), w1)) in Hstart.
  subst c. rewrite Hstart. cbn [map_err]. rewrite io_bind_run. unfold io_map_err, node_execute. rewrite Hrun, Hfin. done.
Qed.
End Durable.

(** C13. A durable run of the Node.js binding, end to end, on a backend nobody else
    touches: a fresh instance of a workflow of tasks, forks, joins, conditional branches,
    loops and child workflows with distinct ids, its functions answering [f], is reported
    completed with the output the workflow means by the specification the other
    executors implement, as text, and is stored as completed with it. *)
Theorem node_run_correct `{Napi, JsonText, Sha256, Chrono, FloatOps, Display, TaskTiming} {F : Type}
    `{Environment InMemoryBackend} (to_rfc3339 : DateTime → string) (self : NapiDurableEngine) (wf : NapiWorkflow F)
    (id : string) (input registry : NodeValue) (bytes o : Bytes) (f : string → Bytes → result BoxError Bytes)
    (w : World InMemoryBackend) :
  let c := napi_continuation wf in
  (∀ n b, others n b = b) → (∀ n id i, node_callback registry n id i = f id i) →
  find_duplicate_id c = None → collision_free (node_ids c) → immediate c = true →
  validate_instance_id id = Ok () → snapshots (store w) !! id = None →
  pending (store w) id Cancel = None → pending (store w) id Pause = None →
  napi_conflict_policy self = Conflict.Fail → node_encode_js_value input = Ok bytes → evaluates f eq c bytes o →
  ∃ s w', node_durable_run to_rfc3339 self wf id input registry w =
      (Ok (MkNapiStatus (Status.MkFlat "completed" None None None None None None None None) (ok (Utf8.from_utf8 o))), w') ∧
    state s = Completed o ∧ snapshots (store w') !! id = Some s.
Proof. intros c quiet Hf. by apply node_fresh_run. Qed.
