(* ===== verification/NodeFlow.v ===== *)
(** * The flow builder of the Node.js binding ([sayiir-node/src/flow.rs], [task.rs])

    [NapiFlowBuilder] turns plain objects into the calls of the bindings' [FlowBuilder]
    and compiles the result, with the listing of a workflow's nodes for JavaScript. *)

From S2P Require Import Prelude Hash32 SnapshotFormat Task Workflow TaskIndex Serializable Snapshot Backend Runtime Lifecycle SyncExec WorkerNav Worker Registry Builder FlowBuilder Cloudflare Stepper StepperProps WasmFlow Json NodeCodec Node NodeProps.
From Stdlib Require Import Floats.SpecFloat.

(** ** Metadata ([task.rs]) *)

Record NapiRetryPolicy : Type := MkNapiRetryPolicy {
  n_max_retries : Z;                 (* u32 *)
  n_initial_delay_secs : f64;
  n_backoff_multiplier : f64;
  n_max_delay_secs : option f64
}.
Record NapiTaskMetadata : Type := MkNapiTaskMetadata {
  n_display_name : option string;
  n_description : option string;
  n_timeout_secs : option f64;
  n_retries : option NapiRetryPolicy;
  n_tags : option (list string);
  n_version : option string;
  n_priority : option Z              (* u32 *)
}.

(** [Duration::as_secs_f64]. *)
Definition as_secs_f64 (d : Duration) : f64 :=
  SFadd 53 1024 (f64_of_Z (d / ns_per_sec)) (SFdiv 53 1024 (f64_of_Z (d mod ns_per_sec)) (f64_of_Z ns_per_sec)).

(** The two [From] conversions; [None] is the panic of [from_secs_f64].  The priority is
    truncated to a byte. *)
Definition napi_into_retries (n : NapiRetryPolicy) : option RetryPolicy :=
  initial_delay ← from_secs_f64 (n_initial_delay_secs n);
  max_delay ← (match n_max_delay_secs n with Some s => Some <$> from_secs_f64 s | None => Some None end);
  Some (MkRetryPolicy (n_max_retries n) initial_delay (f32_of_f64 (n_backoff_multiplier n)) max_delay).
Definition napi_into_metadata (n : NapiTaskMetadata) : option TaskMetadata :=
  timeout ← (match n_timeout_secs n with Some s => Some <$> from_secs_f64 s | None => Some None end);
  retries ← (match n_retries n with Some r => Some <$> napi_into_retries r | None => Some None end);
  Some (MkTaskMetadata (n_display_name n) (n_description n) timeout retries (default [] (n_tags n)) (n_version n)
    (n_priority n ≫= λ v, Priority_from_u8 (v mod 2 ^ 8))).
Definition napi_from_retries (r : RetryPolicy) : NapiRetryPolicy :=
  MkNapiRetryPolicy (max_retries r) (as_secs_f64 (initial_delay r)) (f64_of_f32 (backoff_multiplier r))
    (as_secs_f64 <$> max_delay r).

(** The context a running task sees, its metadata converted back. *)
Definition napi_from_metadata (m : TaskMetadata) : NapiTaskMetadata :=
  MkNapiTaskMetadata (display_name m) (description m) (as_secs_f64 <$> md_timeout m) (napi_from_retries <$> md_retries m)
    (Some (md_tags m)) (md_version m) (Priority_as_u8 <$> md_priority m).

Record NapiTaskExecutionContext : Type := MkNapiTaskContext {
  nc_workflow_id : string;
  nc_instance_id : string;
  nc_task_id : string;
  nc_metadata : NapiTaskMetadata;
  nc_workflow_metadata : option JsonValue
}.
(** [From<TaskExecutionContext>]: metadata that is not JSON is dropped. *)
Definition napi_from_context `{JsonText} (ctx : TaskExecutionContext) : NapiTaskExecutionContext :=
  MkNapiTaskContext (ctx_workflow_id ctx) (ctx_instance_id ctx) (ctx_task_id ctx) (napi_from_metadata (ctx_metadata ctx))
    (ctx_workflow_metadata_json ctx ≫= λ json, ok (json_from_slice (as_bytes json))).

(** ** The builder ([flow.rs]) *)

Record NapiBranchTask : Type := MkNapiBranchTask { nbt_task_id : string; nbt_metadata : option NapiTaskMetadata }.
Record NapiBranchEntry : Type := MkNapiBranchEntry { nbe_key : string; nbe_tasks : list NapiBranchTask }.

Record NapiNodeInfo : Type := MkNapiNodeInfo {
  nn_id : string;
  nn_kind : string;
  nn_predecessor_id : option string;
  nn_timeout_secs : option f64;
  nn_retry_policy : option NapiRetryPolicy;
  nn_priority : option Z
}.
(** [NodeKind::as_ref]: snake case. *)
Definition NodeKind_as_ref (k : NodeKind) : string :=
  match k with
  | KTask => "task" | KFork => "fork" | KDelay => "delay" | KAwaitSignal => "await_signal" | KBranch => "branch"
  | KLoop => "loop" | KChildWorkflow => "child_workflow"
  end.
(** [NapiWorkflow::iter_nodes]. *)
Definition napi_iter_nodes {F} (self : NapiWorkflow F) : list NapiNodeInfo :=
  (λ n, MkNapiNodeInfo (ni_id n) (NodeKind_as_ref (ni_kind n)) (ni_predecessor_id n) (as_secs_f64 <$> ni_timeout n)
    (napi_from_retries <$> ni_retry_policy n) (ni_priority n)) <$> iter_nodes (napi_continuation self).

Record NapiFlowBuilder : Type := MkNapiFlowBuilder {
  nfb_workflow_id : string;
  nfb_inner : FlowBuilder;
  nfb_metadata_json : option string
}.
Definition nfb_new (name : string) : NapiFlowBuilder := MkNapiFlowBuilder name flow_new None.
Definition nfb_with (inner : FlowBuilder) (self : NapiFlowBuilder) : NapiFlowBuilder :=
  MkNapiFlowBuilder (nfb_workflow_id self) inner (nfb_metadata_json self).

Section Flow.
Context `{Napi, HashOrder, Sha256, FloatOps}.
Abbreviation Build := (result NodeStop).

Definition invalid_build (e : BuildError) : NodeStop := NodeThrown (napi_error InvalidArg (build_error_to_string e)).
(** [metadata.map(Into::into).unwrap_or_default()]. *)
Definition metadata_or_default (m : option NapiTaskMetadata) : Build TaskMetadata :=
  match m with Some m => ok_or (napi_into_metadata m) NodePanicked | None => Ok TaskMetadata_default end.
Definition napi_chain (chain : list NapiBranchTask) : Build TaskChain :=
  result_collect ((λ t, pair (nbt_task_id t) <$> metadata_or_default (nbt_metadata t)) <$> chain).

Definition nfb_next_lambda_id (self : NapiFlowBuilder) : string * NapiFlowBuilder :=
  let '(id, inner) := next_lambda_id (nfb_inner self) in (id, nfb_with inner self).
Definition nfb_set_metadata_json (json : string) (self : NapiFlowBuilder) : NapiFlowBuilder :=
  MkNapiFlowBuilder (nfb_workflow_id self) (nfb_inner self) (Some json).
Definition nfb_then (task_id : string) (metadata : option NapiTaskMetadata) (self : NapiFlowBuilder) : Build NapiFlowBuilder :=
  metadata ← metadata_or_default metadata;
  Ok (nfb_with (add_sequential task_id metadata (nfb_inner self)) self).
Definition nfb_add_fork (branches : list (list NapiBranchTask)) (join_id : string) (join_metadata : option NapiTaskMetadata)
    (self : NapiFlowBuilder) : Build NapiFlowBuilder :=
  branches ← result_collect (napi_chain <$> branches);
  join_metadata ← metadata_or_default join_metadata;
  inner ← map_err invalid_build (add_fork branches join_id join_metadata (nfb_inner self));
  Ok (nfb_with inner self).
Definition nfb_wait_for_signal (signal_id signal_name : string) (timeout_secs : option f64) (self : NapiFlowBuilder) :
    Build NapiFlowBuilder :=
  inner ← map_err invalid_build (add_signal signal_id signal_name timeout_secs (nfb_inner self));
  Ok (nfb_with inner self).
Definition nfb_delay (delay_id : string) (seconds : f64) (self : NapiFlowBuilder) : Build NapiFlowBuilder :=
  inner ← map_err invalid_build (add_delay delay_id seconds (nfb_inner self));
  Ok (nfb_with inner self).
Definition nfb_add_branch (branches : list NapiBranchEntry) (default_branch : option (list NapiBranchTask))
    (self : NapiFlowBuilder) : Build (string * NapiFlowBuilder) :=
  branches ← result_collect ((λ entry, pair (nbe_key entry) <$> napi_chain (nbe_tasks entry)) <$> branches);
  dflt ← transpose (napi_chain <$> default_branch);
  ib ← map_err invalid_build (add_branch branches dflt (nfb_inner self));
  Ok (ib.1, nfb_with ib.2 self).
Definition napi_on_max (on_max : option string) : Build MaxIterationsPolicy :=
  let s := default "fail" on_max in
  if bool_decide (s = "fail") then Ok Fail
  else if bool_decide (s = "exit_with_last") then Ok ExitWithLast
  else Err (NodeThrown (napi_error InvalidArg ("Invalid onMax policy: '" +:+ s +:+ "'. Use 'fail' or 'exit_with_last'."))).
Definition nfb_add_loop (body_task_id : string) (body_metadata : option NapiTaskMetadata) (max_iterations : Z)
    (on_max : option string) (self : NapiFlowBuilder) : Build (string * NapiFlowBuilder) :=
  on_max ← napi_on_max on_max;
  metadata ← metadata_or_default body_metadata;
  li ← map_err invalid_build (add_loop body_task_id metadata max_iterations on_max (nfb_inner self));
  Ok (li.1, nfb_with li.2 self).
Definition nfb_add_child_workflow (child_id : string) (child_builder self : NapiFlowBuilder) : NapiFlowBuilder :=
  nfb_with (add_child_workflow child_id (tasks (nfb_inner child_builder)) (nfb_inner self)) self.
Definition nfb_build (self : NapiFlowBuilder) : Build (NapiWorkflow UntypedCoreTask) :=
  continuation ← map_err (λ e, match e with Failed e => invalid_build e | Panicked => NodePanicked end) (flow_build (nfb_inner self));
  Ok (MkNapiWorkflow (nfb_workflow_id self) (compute_definition_hash (to_serializable continuation)) continuation
    (index_build continuation) (nfb_metadata_json self)).
End Flow.

(** ** What the builder compiles *)

Lemma nfb_build_spec `{Napi, HashOrder, Sha256, FloatOps} (self : NapiFlowBuilder) wf :
  nfb_build self = Ok wf →
  build_continuation (tasks (nfb_inner self)) = Ok (napi_continuation wf) ∧
  napi_definition_hash wf = compute_definition_hash (to_serializable (napi_continuation wf)) ∧
  napi_task_index wf = index_build (napi_continuation wf).
Proof. unfold nfb_build, flow_build. destruct (build_continuation _) as [c|[e|]]; [|done..]. by intros [= <-]. Qed.

(** What the binding's builder compiles without signals, the binding's stepper runs as it
    means, whatever the steps. *)
Lemma node_built_steps `{Napi, JsonText, HashOrder, Sha256, FloatOps} `{!HashOrderLaws} (exact : JsonNumber → bool)
    `{!JsonTextLaws exact} (self : NapiFlowBuilder) wf
    (call_task : string → option string → result NapiError NodeValue) (f : string → Bytes → result BoxError Bytes)
    (input : NodeValue) (bytes o : Bytes) :
  (∀ id i, ok (v ← call_task id (ok (Utf8.from_utf8 i)); node_encode_js_value v) = ok (f id i)) →
  nfb_build self = Ok wf → forallb no_signals (tasks (nfb_inner self)) = true →
  node_encode_js_value input = Ok bytes → evaluates (H1:=node_envelopes) f eq (napi_continuation wf) bytes o →
  run_workflow (H:=node_stepper) call_task (napi_continuation wf) input = Ok (step_done o).
Proof.
  intros Hf (Hb & _)%nfb_build_spec Hns Henc He. eapply (node_stepper_ok exact); try done.
  apply (build_task_fit (BChildWorkflow EmptyString (tasks (nfb_inner self))) None
    (ChildWorkflow EmptyString (napi_continuation wf) None)) in Hns; [|done|by rewrite build_child, Hb].
  cbn in Hns. rewrite !andb_true_r in Hns. apply Hns.
Qed.
