(* ===== verification/NodeAgree.v ===== *)
(** * The synchronous engine and the stepper of the Node.js binding agree

    The two engines write what a join is given and what a branch returned differently:
    [JsonCodec] lists branch results as pairs of a name and bytes and splices raw
    results into envelopes, the stepper builds documents.  What a task sees is the same
    value, up to the order of properties, so the engines give the same result. *)

From S2P Require Import Prelude Hash32 SnapshotFormat Task Workflow TaskIndex Serializable Snapshot Backend Runtime SyncExec Cloudflare CloudflareProps Stepper StepperProps Json NodeCodec NodeCodecProps Node NodeProps.

(** What the JavaScript side documents: [JSON.parse] reads what [serde_json] writes, text
    is UTF-8, the lenient base64 reader reads valid base64, awaiting a plain value gives it. *)
Class JsRuntimeLaws `{JsonText, JsRuntime} (exact : JsonNumber → bool) : Prop := {
  text_utf8 j b : json_to_vec j = Ok b → ∃ s, Utf8.from_utf8 b = Ok s;
  parse_document_text j b s : document j → all_numbers exact j = true → json_to_vec j = Ok b → Utf8.from_utf8 b = Ok s →
    JSON_parse s = Ok (js_of_json j);
  buffer_base64 s b : node_base64_decode s = Ok b → buffer_from_base64 s = b;
  await_plain v : is_promise v = false → await v = Ok v
}.

Definition binary_kind (kind : string) : Prop := kind = "Buffer" ∨ kind = "Uint8Array" ∨ kind = "ArrayBuffer".

(** No array inside reads like branch results. *)
Fixpoint unshaped (v : NodeValue) : bool :=
  match v with
  | NArray items => negb (branch_shaped v) && forallb unshaped items
  | NObject own _ => forallb (λ kv, unshaped kv.2) own
  | _ => true
  end.

Section Clean.
Context `{Napi, JsonText, !JsRuntime} (exact : JsonNumber → bool) `{!NapiLaws exact, !JsonTextLaws exact, !JsRuntimeLaws exact}.

(** Values of documents in which both sides read the same buffers, and only those. *)
Inductive clean_value : NodeValue → Prop :=
| CleanNull : clean_value NNull
| CleanBoolean b : clean_value (NBoolean b)
| CleanNumber x : clean_value (NNumber x)
| CleanString s : clean_value (NString s)
| CleanArray items : Forall clean_value items → branch_shaped (NArray items) = false → clean_value (NArray items)
| CleanObject own : NoDup own.*1 → TAG_BIN ∉ own.*1 → TAG_KIND ∉ own.*1 → Forall (λ kv, clean_value kv.2) own →
    clean_value (NObject own [])
| CleanBinary b kind : binary_kind kind → clean_value (js_of_json (make_binary_json b kind)).

Lemma clean_unshaped v : clean_value v → branch_shaped v = false.
Proof. by destruct 1. Qed.
Lemma clean_defined v : clean_value v → defined v = Some v.
Proof. by destruct 1. Qed.

Lemma rehydrate_own_all own acc :
  Forall (λ kv, defined kv.2 = Some kv.2 ∧ rehydrate_binaries kv.2 = Ok (ts_rehydrate kv.2)) own →
  NoDup own.*1 → (∀ k, k ∈ acc.*1 → k ∉ own.*1) →
  rehydrate_own own acc = Ok (NObject (acc ++ map (λ kv, (kv.1, ts_rehydrate kv.2)) own) []).
Proof.
  intros Ho. revert acc. induction Ho as [|[k v] own [Hd Hr] _ IH]; intros acc Hnd Hacc; cbn in *; [by rewrite app_nil_r|].
  rewrite Hd, Hr. cbn. apply NoDup_cons in Hnd as [Hk Hnd].
  assert (Hka : k ∉ acc.*1) by (intros Hin; apply (Hacc k Hin); left). rewrite (set_field_fresh _ _ _ Hka).
  rewrite IH; [by rewrite <-app_assoc|done|]. intros k'. rewrite fmap_app. cbn.
  intros [Hin| ->%list_elem_of_singleton]%elem_of_app; [|done]. specialize (Hacc _ Hin). by apply not_elem_of_cons in Hacc as [_ ?].
Qed.

Lemma ts_no_envelope own : TAG_BIN ∉ own.*1 → ts_rehydrate_envelope (NObject own []) = None.
Proof. intros Hb. unfold ts_rehydrate_envelope, get_property. by rewrite app_nil_r, (map_get_None TAG_BIN own Hb). Qed.

Lemma binary_reads b kind : binary_kind kind →
  rehydrate_binaries (js_of_json (make_binary_json b kind)) = Ok (ts_rehydrate (js_of_json (make_binary_json b kind))).
Proof.
  intros Hk. change (js_of_json (make_binary_json b kind)) with
    (NObject [(TAG_BIN, NString (node_base64_encode b)); (TAG_KIND, NString kind)] []).
  rewrite rehydrate_object. unfold node_rehydrate_envelope, get_string_property.
  change (get_property _ TAG_KIND) with (Some (NString kind)).
  change (get_property _ TAG_BIN) with (Some (NString (node_base64_encode b))).
  cbv beta match. rewrite !get_string_string. cbn -[ts_rehydrate]. rewrite base64_roundtrip. cbn -[ts_rehydrate].
  cbn [ts_rehydrate]. unfold ts_rehydrate_envelope.
  change (get_property _ TAG_KIND) with (Some (NString kind)).
  change (get_property _ TAG_BIN) with (Some (NString (node_base64_encode b))). cbv beta match zeta.
  rewrite (buffer_base64 (exact:=exact) _ b) by apply base64_roundtrip. by destruct Hk as [-> | [-> | ->]].
Qed.

Lemma clean_rehydrates v : clean_value v → rehydrate_binaries v = Ok (ts_rehydrate v).
Proof.
  induction v as [| | | | | | | | |items IH|own others IH| |] using node_ind; inversion 1; subst; try done.
  - rewrite rehydrate_array. match goal with X : Forall clean_value items |- _ => rename X into Hi end.
    assert (traverse rehydrate_binaries items = Ok (map ts_rehydrate items)) as ->; [|done].
    clear -IH Hi. induction IH as [|v items Hv _ IHi]; [done|]. inversion Hi; subst. cbn. rewrite Hv by done. cbn.
    fold (traverse rehydrate_binaries items). by rewrite IHi.
  - match goal with X : Forall _ own |- _ => rename X into Hi end. rewrite rehydrate_object, no_envelope by done. cbn [mbind result_bind].
    rewrite rehydrate_own_all; [|..|set_solver]; [cbn; by rewrite ts_no_envelope| |done].
    clear -IH Hi. induction IH as [|kv own Hv _ IHo]; [constructor|]. inversion Hi; subst.
    constructor; [|by apply IHo]. split; [by apply clean_defined|by apply Hv].
  - by apply binary_reads.
Qed.

Lemma untagged_same j : has_key TAG_BIN j = false → ts_rehydrate (js_of_json j) = js_of_json j.
Proof.
  induction j as [| | | |items IH|members IH] using json_ind; try done; cbn -[ts_rehydrate]; intros Hk.
  - cbn. f_equal. induction IH as [|j items Hj _ IHi]; [done|]. cbn in Hk |- *. apply orb_false_iff in Hk as [Hk1 Hk2].
    f_equal; [by apply Hj|by apply IHi].
  - assert (Hb : TAG_BIN ∉ ((λ kv : string * JsonValue, (kv.1, js_of_json kv.2)) <$> members).*1).
    { clear IH. induction members as [|[k j] members IHm]; [set_solver|]. cbn -[TAG_BIN] in Hk |- *.
      apply orb_false_iff in Hk as [[Hk1%bool_decide_eq_false _]%orb_false_iff Hk2]. apply not_elem_of_cons. split; [done|by apply IHm]. }
    cbn [ts_rehydrate]. rewrite ts_no_envelope by done. cbn [default]. f_equal. clear Hb.
    induction IH as [|[k j] members Hj _ IHm]; [done|]. cbn -[TAG_BIN] in Hk |- *.
    apply orb_false_iff in Hk as [[_ Hk1]%orb_false_iff Hk2]. cbn -[TAG_BIN ts_rehydrate] in Hj. f_equal; [by rewrite Hj|by apply IHm].
Qed.

(** ** Texts of clean documents *)

Record reads_as (b : Bytes) (j : JsonValue) : Prop := MkReads {
  reads_text : json_to_vec j = Ok b;
  reads_document : document j;
  reads_exact : all_numbers exact j = true;
  reads_clean : clean_value (js_of_json j)
}.
Definition good (b : Bytes) : Prop := ∃ j, reads_as b j.

(** The synchronous engine gives a task the value of one text, the stepper of another. *)
Definition alike (b1 b2 : Bytes) : Prop := ∃ v1 v2 s,
  node_decode_to_js_value b1 = Ok v1 ∧ Utf8.from_utf8 b2 = Ok s ∧ parse_and_rehydrate s = Ok v2 ∧ same_value v1 v2.

Lemma from_utf8_bytes b s : Utf8.from_utf8 b = Ok s → as_bytes s = b.
Proof.
  unfold Utf8.from_utf8. destruct (Utf8.scan _ _ b); [done|]. intros [= <-].
  unfold as_bytes. apply String.list_byte_of_string_of_list_byte.
Qed.

Lemma reads_parse b j : reads_as b j → ∃ s, Utf8.from_utf8 b = Ok s ∧ parse_and_rehydrate s = Ok (ts_rehydrate (js_of_json j)).
Proof.
  intros [Hb Hd He Hc]. destruct (text_utf8 (exact:=exact) j b Hb) as [s Hs]. exists s. split; [done|].
  unfold parse_and_rehydrate. rewrite (parse_document_text (exact:=exact) j b s) by done. cbn [mbind result_bind].
  rewrite (from_utf8_bytes b s Hs). destruct (containsb (as_bytes TAG_BIN) b) eqn:Hin; [done|].
  rewrite untagged_same; [done|]. apply not_true_iff_false. intros Hk.
  destruct (print_key (exact:=exact) TAG_BIN j b) as (p & q & ->); [done..|]. unfold quoted in Hin.
  rewrite <-!app_assoc, (app_assoc p) in Hin. by rewrite containsb_app in Hin.
Qed.

Lemma reads_decode b j : reads_as b j → node_decode_to_js_value b = Ok (ts_rehydrate (js_of_json j)).
Proof.
  intros [Hb Hd He Hc]. rewrite (decode_plain_text exact j b); try done; [|by rewrite named_shaped_value; apply clean_unshaped].
  unfold contains_binary_tag. destruct (containsb (quoted TAG_BIN) b) eqn:Hin; [by apply clean_rehydrates|].
  rewrite untagged_same; [done|]. apply not_true_iff_false. intros Hk.
  destruct (print_key (exact:=exact) TAG_BIN j b) as (p & q & ->); [done..|]. by rewrite containsb_app in Hin.
Qed.

Lemma good_alike b : good b → alike b b.
Proof.
  intros [j Hj]. destruct (reads_parse b j Hj) as (s & Hs & Hp). exists (ts_rehydrate (js_of_json j)), (ts_rehydrate (js_of_json j)), s.
  split; [by apply reads_decode|]. split; [done|]. split; [done|constructor].
Qed.
End Clean.

(** ** Tasks *)

(** A run in which functions answer alike at every call, whatever the order of their
    argument's properties, with values JSON and the tags can carry. *)
Class Functions `{Napi} (exact : JsonNumber → bool) (apply : nat → NodeValue → result NapiError NodeValue) : Prop := {
  calls_apply n f v : call_function n f v = apply f v;
  apply_same f v v' : same_value v v' → apply f v = apply f v';
  apply_portable f v w : apply f v = Ok w → is_promise w = false → portable exact w ∧ unshaped w = true
}.

Section Outputs.
Context `{Napi} (exact : JsonNumber → bool) `{!NapiLaws exact}.

Lemma own_to_json_all own kjs : own_to_json own = Ok kjs → Forall (λ kv, defined kv.2 = Some kv.2) own →
  Forall2 (λ kv kj, kv.1 = kj.1 ∧ js_to_json kv.2 = Ok kj.2) own kjs.
Proof.
  revert kjs. induction own as [|[k v] own IH]; intros kjs; cbn; [intros [= <-] _; constructor|].
  intros Ho Hd. inversion Hd as [|? ? Hv Hown]; subst. cbn in Hv. rewrite Hv in Ho. destruct (js_to_json v) as [j|] eqn:Hj; [|done].
  cbn in Ho. fold own_to_json in Ho. destruct (own_to_json own) as [js|]; [|done]. injection Ho as <-. constructor; [done|by apply IH].
Qed.

Lemma portable_defined v : portable exact v → defined v = Some v.
Proof. by destruct 1. Qed.

Lemma to_json_clean v j : portable exact v → unshaped v = true → js_to_json v = Ok j → clean_value (js_of_json j).
Proof.
  revert j. induction v as [| | |x| | | | | |items IH|own others IH|b|c b] using node_ind; intros j Hp Hu Hj; inversion Hp; subst.
  - injection Hj as <-. constructor.
  - injection Hj as <-. constructor.
  - cbn in Hj. destruct (from_f64 x); injection Hj as <-; constructor.
  - injection Hj as <-. constructor.
  - match goal with X : Forall _ items |- _ => rename X into Hi end. cbn -[branch_shaped] in Hu. apply andb_true_iff in Hu as [Hs Hu].
    pose proof (shape_reflects _ _ Hj) as Hsh. rewrite js_to_json_array in Hj. destruct (traverse js_to_json items) as [js|] eqn:Ht; [|done].
    injection Hj as <-. constructor.
    + apply traverse_length in Ht. clear -IH Hi Hu Ht. induction Ht as [|v j items js Hv _ IHt]; [constructor|].
      inversion IH; inversion Hi; subst. cbn in Hu. apply andb_true_iff in Hu as [Hu1 Hu2]. constructor; [auto|by apply IHt].
    + apply not_true_iff_false. intros Hn. change (NArray _) with (js_of_json (JsonArr js)) in Hn.
      rewrite <-named_shaped_value in Hn. by rewrite (Hsh Hn) in Hs.
  - match goal with X : Forall _ own |- _ => rename X into Ho end. rewrite js_to_json_object in Hj.
    destruct (own_to_json own) as [kjs|] eqn:Hk; [|done]. injection Hj as <-.
    apply own_to_json_all in Hk; [|eapply Forall_impl; [exact Ho|]; intros kv; apply portable_defined].
    assert (Hkeys : kjs.*1 = own.*1) by (clear -Hk; induction Hk as [|[] [] ? ? [He _] _ IHk]; cbn in *; [done|by rewrite He, IHk]).
    assert (Hperm : map_collect kjs ≡ₚ kjs) by (apply map_collect_perm; by rewrite Hkeys).
    assert (Hk2 : ((λ kv : string * JsonValue, (kv.1, js_of_json kv.2)) <$> map_collect kjs).*1 ≡ₚ own.*1).
    { rewrite (of_members_keys (map_collect kjs)), Hperm, Hkeys. done. }
    cbn [js_of_json]. constructor; [by rewrite Hk2|by rewrite Hk2|by rewrite Hk2|].
    rewrite Hperm. clear -IH Ho Hu Hk. cbn in Hu. induction Hk as [|[k v] [k' j] own kjs [_ Hv] _ IHk]; [constructor|].
    inversion IH; inversion Ho; subst. cbn in Hu. apply andb_true_iff in Hu as [Hu1 Hu2]. cbn [fmap list_fmap].
    constructor; [cbn in *; auto|by apply IHk].
  - injection Hj as <-. apply CleanBinary. right. by right.
  - match goal with X : _ ∨ _ |- _ => rename X into Hc end. cbn in Hj. rewrite buffer_slice_bytes in Hj by done. injection Hj as <-.
    apply CleanBinary. case_bool_decide; [by left|right; by left].
Qed.
End Outputs.

Section Agree.
Context `{Napi, JsonText, !JsRuntime, Sha256, Backon, !BackonLaws, Display}.
Context (exact : JsonNumber → bool) `{!NapiLaws exact, !JsonTextLaws exact, !JsRuntimeLaws exact}.
Context (apply : nat → NodeValue → result NapiError NodeValue) `{!Functions exact apply} (registry : NodeValue).
Abbreviation good := (good exact).

Lemma output_good w : portable exact w → unshaped w = true → ∃ b, node_encode_js_value w = Ok b ∧ good b.
Proof.
  intros Hw Hu. destruct (portable_walks exact w Hw) as (j & Hj & [Hd He _ _ _]).
  pose proof (to_json_clean exact w j Hw Hu Hj) as Hc. unfold node_encode_js_value. destruct (contains_binary_type w) eqn:Hb.
  - rewrite Hj. cbn. destruct (print_total (exact:=exact) j) as [b Hp]. rewrite Hp. exists b. split; [done|]. by exists j.
  - destruct (from_js_agrees w j Hw Hb Hj Hd He) as (j' & -> & Hd' & He' & Hsame). cbn.
    destruct (print_total (exact:=exact) j') as [b Hp]. rewrite Hp. exists b. split; [done|]. exists j'. split; try done. by rewrite Hsame.
Qed.

(** What the tasks compute on bytes, in either engine. *)
Definition sync_task (id : string) (input : Bytes) : result BoxError Bytes := node_callback registry 0%nat id input.
Definition step_task_bytes (id : string) (input : Bytes) : result BoxError Bytes :=
  map_err (λ e, BoxOther (napi_to_string e))
    (v ← run_step_task registry id (ok (Utf8.from_utf8 input)); node_encode_js_value v).

Lemma sync_task_any n id input : node_callback registry n id input = sync_task id input.
Proof.
  unfold sync_task, node_callback, execute_js_task. destruct (registered_fn registry id); [|done]. cbn.
  destruct (node_decode_to_js_value input); [|done]. cbn. by rewrite !calls_apply.
Qed.

Lemma step_same id b1 b2 o : alike b1 b2 → sync_task id b1 = Ok o → step_task_bytes id b2 = Ok o ∧ good o.
Proof.
  intros (v1 & v2 & s & Hd & Hu & Hp & Hs). unfold sync_task, node_callback, execute_js_task, step_task_bytes, run_step_task.
  destruct (registered_fn registry id) as [f|]; [|done]. cbn [ok_or mbind result_bind]. rewrite Hd, Hu. cbn [mbind result_bind ok].
  rewrite Hp. cbn [mbind result_bind]. rewrite !calls_apply, (apply_same f v1 v2 Hs).
  destruct (apply f v2) as [w|] eqn:Hw; [|done]. cbn [mbind result_bind].
  destruct (is_promise w) eqn:Hpr; [done|]. rewrite (await_plain (exact:=exact) w Hpr). cbn [mbind result_bind].
  destruct (apply_portable f v2 w Hw Hpr) as [Hport Hun]. destruct (output_good w Hport Hun) as (b & Hb & Hg). rewrite Hb.
  intros [= <-]. by split.
Qed.

(** ** Joins *)

Abbreviation of_members := (fmap (M:=list) (λ kv : string * JsonValue, (kv.1, js_of_json kv.2))).
Abbreviation read_members := (fmap (M:=list) (λ kv : string * JsonValue, (kv.1, ts_rehydrate (js_of_json kv.2)))).

Lemma set_branches_all rs (njs : list (string * JsonValue)) own :
  Forall2 (λ nb nj, nb.1 = nj.1 ∧ reads_as exact nb.2 nj.2) rs njs → NoDup njs.*1 → (∀ k, k ∈ own.*1 → k ∉ njs.*1) →
  set_branches rs own = Ok (own ++ read_members njs).
Proof.
  intros Hr. revert own. induction Hr as [|[n b] [n' j] rs njs [Hn [Hb Hd He Hc]] _ IH]; intros own Hnd Hown; cbn in *;
    [by rewrite app_nil_r|].
  subst n'. unfold parse_document. rewrite (print_parse j b Hd He Hb). cbn. rewrite (to_js_document j) by done. cbn.
  rewrite (clean_rehydrates exact) by done. cbn. apply NoDup_cons in Hnd as [Hn Hnd].
  assert (Hka : n ∉ own.*1) by (intros Hin; apply (Hown n Hin); left). rewrite (set_field_fresh _ _ _ Hka).
  rewrite IH; [by rewrite <-app_assoc|done|]. intros k. rewrite fmap_app. cbn.
  intros [Hin| ->%list_elem_of_singleton]%elem_of_app; [|done]. specialize (Hown _ Hin). by apply not_elem_of_cons in Hown as [_ ?].
Qed.

Lemma good_documents (rs : list (string * Bytes)) : Forall (λ nb, good nb.2) rs →
  ∃ njs, Forall2 (λ nb nj, nb.1 = nj.1 ∧ reads_as exact nb.2 nj.2) rs njs.
Proof.
  induction 1 as [|[n b] rs [j Hj] _ [njs IH]]; [exists []; constructor|]. exists ((n, j) :: njs). by constructor.
Qed.

Lemma branch_map_eq rs njs : Forall2 (λ nb nj, nb.1 = nj.1 ∧ reads_as exact nb.2 nj.2) rs njs →
  branch_map rs = JsonObj (map_collect njs).
Proof.
  intros Hr. unfold branch_map. do 2 f_equal. induction Hr as [|[n b] [n' j] rs njs [Hn [Hb Hd He Hc]] _ IH]; [done|].
  cbn in *. subst n'. rewrite (print_parse j b Hd He Hb). cbn. by rewrite IH.
Qed.

Lemma join_alike rs e :
  Forall (λ nb, good nb.2) rs → NoDup rs.*1 → TAG_BIN ∉ rs.*1 → TAG_KIND ∉ rs.*1 → rs ≠ [] → named_to_vec rs = Ok e →
  ∃ e', json_to_vec (branch_map rs) = Ok e' ∧ alike e e'.
Proof.
  intros Hg Hnd Hb Hk Hne He. destruct (good_documents rs Hg) as [njs Hr]. rewrite (branch_map_eq rs njs Hr).
  assert (Hkeys : njs.*1 = rs.*1) by (clear -Hr; induction Hr as [|[] [] ? ? [Hn _] _ IH]; cbn in *; [done|by rewrite Hn, IH]).
  assert (Hperm : map_collect njs ≡ₚ njs) by (apply map_collect_perm; by rewrite Hkeys).
  assert (Hdoc : reads_as exact (default [] (ok (json_to_vec (JsonObj (map_collect njs))))) (JsonObj (map_collect njs))).
  { destruct (print_total (exact:=exact) (JsonObj (map_collect njs))) as [e' He']. rewrite He'. split; [done| | |].
    - constructor; [apply map_collect_ordered|]. rewrite Hperm. clear -Hr. induction Hr as [|? ? ? ? [_ []] _ IH]; by constructor.
    - cbn. apply forallb_forall. intros nj Hin%list_elem_of_In. rewrite Hperm in Hin. clear -Hr Hin.
      apply list_elem_of_lookup_1 in Hin as [i Hi]. destruct (Forall2_lookup_r _ _ _ _ _ Hr Hi) as (nb & _ & _ & Hj). by destruct Hj.
    - cbn [js_of_json]. rewrite <-Hkeys in Hnd, Hb, Hk. constructor; rewrite ?(of_members_keys (map_collect njs)), ?Hperm; try done.
      clear -Hr. induction Hr as [|? ? ? ? [_ []] _ IH]; by constructor. }
  destruct (print_total (exact:=exact) (JsonObj (map_collect njs))) as [e' He']. rewrite He' in Hdoc. cbn in Hdoc.
  exists e'. split; [done|]. destruct (reads_parse exact _ _ Hdoc) as (s & Hs & Hp).
  exists (NObject (read_members njs) []), (ts_rehydrate (js_of_json (JsonObj (map_collect njs)))), s. split; [|split; [done|split; [done|]]].
  - assert (Hhd : ∃ e0, e = x5b :: e0).
    { pose proof He as He2. rewrite (print_named (exact:=exact)) in He2. apply (print_head (exact:=exact)) in He2.
      destruct e as [|c e]; [done|]. destruct He2 as [[_ Hc] _]. exists e. f_equal. apply Hc. by eexists. }
    destruct Hhd as [e0 ->]. unfold node_decode_to_js_value. rewrite (parse_named (exact:=exact) rs _ He).
    destruct rs as [|nb rs]; [done|]. unfold decode_branch_results. rewrite (set_branches_all _ njs []); [done|done| |set_solver].
    by rewrite Hkeys.
  - cbn [js_of_json ts_rehydrate].
    rewrite ts_no_envelope by (by rewrite (of_members_keys (map_collect njs)), Hperm, Hkeys). cbn [default].
    apply (SameObject _ (read_members (map_collect njs))); [by rewrite Hperm|].
    clear. induction (map_collect njs) as [|[n j] l IH]; constructor; [|exact IH]. split; [done|constructor].
Qed.
(** ** Workflows

    Trees for both engines: no signals; forks have branches with distinct names that are
    not tags, and a task to join them. *)
Context {F : Type}.
Definition is_task (c : WorkflowContinuation F) : bool := match c with Task _ _ _ _ _ _ _ _ => true | _ => false end.
Definition fork_names (bs : list (WorkflowContinuation F)) : bool :=
  bool_decide ((bs ≠ []) ∧ NoDup (cont_id <$> bs) ∧ (TAG_BIN ∉ (cont_id <$> bs)) ∧ (TAG_KIND ∉ (cont_id <$> bs))).
Fixpoint joins_tasks (c : WorkflowContinuation F) : bool :=
  let opt (o : option (WorkflowContinuation F)) : bool := match o with Some n => joins_tasks n | None => true end in
  match c with
  | Task _ _ _ _ _ _ _ next | Delay _ _ next | AwaitSignal _ _ _ next => opt next
  | Fork _ bs join =>
      fork_names bs && forallb joins_tasks bs && match join with Some j => is_task j && joins_tasks j | None => false end
  | Branch _ _ bs dflt next => forallb (λ kb, joins_tasks kb.2) bs && opt dflt && opt next
  | Loop _ body _ _ next => joins_tasks body && opt next
  | ChildWorkflow _ child next => joins_tasks child && opt next
  end.

Abbreviation sync_evaluates := (evaluates (H1:=json_codec) sync_task eq).
Abbreviation step_evaluates := (evaluates (H1:=node_envelopes) step_task_bytes eq).
(** What a node is given in the two engines. *)
Definition given (c : WorkflowContinuation F) (b1 b2 : Bytes) : Prop := good b1 ∧ b1 = b2 ∨ is_task c = true ∧ alike b1 b2.
Definition agrees (c : WorkflowContinuation F) : Prop := ∀ b1 b2 o, joins_tasks c = true → given c b1 b2 →
  sync_evaluates c b1 o → step_evaluates c b2 o ∧ good o.

Lemma continues_agree next b o :
  opt_all agrees next → match next with Some n => joins_tasks n | None => true end = true → good b →
  continues (H1:=json_codec) sync_task eq next b o → continues (H1:=node_envelopes) step_task_bytes eq next b o ∧ good o.
Proof.
  intros Hn Hj Hb Hc. destruct next as [n|]; inversion Hc as [|? ? ? He]; subst.
  - destruct (Hn b b o Hj) as [He' Hg]; [by left|done|]. split; [by constructor|done].
  - split; [constructor|done].
Qed.

Lemma envelope_good key b e : good b → json_encode_branch_envelope key b = Ok e → json_to_vec (wrapped key b) = Ok e ∧ good e.
Proof.
  intros [j [Hb Hd He Hc]]. unfold json_encode_branch_envelope, wrapped. rewrite (print_raw (exact:=exact) j b Hb). cbn [mbind result_bind].
  rewrite (print_envelope (exact:=exact) key j b Hb), (print_parse j b Hd He Hb). cbn [ok default]. intros Hj. split; [done|].
  exists (envelope_json key j). split; [done|..].
  - constructor; [|by repeat constructor]. repeat constructor; done.
  - cbn. by rewrite He.
  - cbn [js_of_json envelope_json]. apply CleanObject; [|..|by repeat constructor].
    + apply NoDup_cons. split; [by intros ?%list_elem_of_singleton|apply NoDup_singleton].
    + cbn. by intros [?|?%list_elem_of_singleton]%elem_of_cons.
    + cbn. by intros [?|?%list_elem_of_singleton]%elem_of_cons.
Qed.

(** A member of a clean object is clean. *)
Lemma member_reads j k v : document j → all_numbers exact j = true → clean_value (js_of_json j) → k ≠ TAG_BIN → k ≠ TAG_KIND →
  value_get k j = Some v → document v ∧ all_numbers exact v = true ∧ clean_value (js_of_json v).
Proof.
  intros Hd He Hc Hb Hk Hg. destruct j as [| | | | |m]; try done. cbn in Hg.
  assert (Hin : (k, v) ∈ m).
  { clear -Hg. induction m as [|[k' v'] m IH]; cbn in Hg; [done|]. case_bool_decide; [simplify_eq; left|right; by apply IH]. }
  inversion Hd as [| | | | |? _ Hdm]; subst. split; [by apply (proj1 (Forall_forall _ _) Hdm _ Hin)|]. cbn in He.
  split; [by apply (proj1 (forallb_forall _ _) He (k, v)), list_elem_of_In|]. cbn [js_of_json] in Hc.
  inversion Hc as [| | | | |own _ _ _ Hm|b kind _ Hm]; subst.
  - rewrite Forall_fmap in Hm. by apply (proj1 (Forall_forall _ _) Hm _ Hin).
  - exfalso. assert (Hkeys : m.*1 = [TAG_BIN; TAG_KIND]).
    { rewrite <-(of_members_keys m). by rewrite <-Hm. }
    assert (Hink : k ∈ m.*1) by (apply list_elem_of_fmap; by exists (k, v)). rewrite Hkeys in Hink.
    by apply elem_of_cons in Hink as [?|?%list_elem_of_singleton].
Qed.

Lemma loop_inner_good env d o : good env → decode_any_envelope env = Ok (d, o) → good o.
Proof.
  intros [j [Hb Hd He Hc]] Hdec.
  assert (Hj : (v ← json_from_slice env;
    tag ← ok_or (value_get "_loop" v ≫= value_as_str) (BoxOther "missing or invalid '_loop' tag in LoopResult JSON");
    decision ← ok_or (parse_decision tag) (BoxOther ("unknown loop decision tag: '" +:+ tag +:+ "'"));
    inner ← ok_or (value_get "value" v) (BoxOther "missing 'value' field in LoopResult JSON");
    out ← json_to_vec inner;
    Ok (decision, out)) = Ok (d, o)).
  { pose proof (print_head (exact:=exact) j env Hb) as Hh. destruct env as [|c env]; [done|]. destruct Hh as (_ & Hz & Ho).
    by destruct c. }
  rewrite (print_parse j env Hd He Hb) in Hj. cbn in Hj.
  destruct (value_get "_loop" j ≫= value_as_str) as [tag|]; [|done]. cbn in Hj.
  destruct (parse_decision tag) as [d'|]; [|done]. cbn in Hj.
  destruct (value_get "value" j) as [v|] eqn:Hv; [|done]. cbn in Hj.
  destruct (json_to_vec v) as [o'|] eqn:Ho; [|done]. injection Hj as _ <-. exists v.
  by destruct (member_reads j "value" v Hd He Hc) as (? & ? & ?).
Qed.

Lemma branches_agree bs b rs :
  Forall agrees bs → forallb joins_tasks bs = true → good b →
  all_evaluate (H1:=json_codec) sync_task eq bs b rs →
  all_evaluate (H1:=node_envelopes) step_task_bytes eq bs b rs ∧ Forall (λ nb, good nb.2) rs ∧ rs.*1 = cont_id <$> bs.
Proof.
  intros Hbs Hj Hb Ha. revert Hbs Hj Hb. induction Ha as [i|c bs i o rs He _ IH]; intros Hbs Hj Hb; [by repeat constructor|].
  inversion Hbs as [|? ? Hc Hbs']; subst. cbn in Hj. apply andb_true_iff in Hj as [Hj1 Hj2].
  destruct (Hc i i o Hj1) as [He' Hg]; [by left|done|]. destruct (IH Hbs' Hj2 Hb) as (Ha' & Hgs & Hk).
  split; [by constructor|]. split; [by constructor|]. cbn. by rewrite Hk.
Qed.

Lemma iterates_agree body max pol k i o :
  agrees body → joins_tasks body = true → good i →
  iterates (H1:=json_codec) sync_task eq body max pol k i o → iterates (H1:=node_envelopes) step_task_bytes eq body max pol k i o ∧ good o.
Proof.
  intros Hbody Hj Hi Hit. revert Hbody Hj Hi.
  induction Hit as [body max pol k i env o Hk He Hd|body max k i env o Hk He Hd|body max pol k i env i' o Hk He Hd _ IH]; intros Hbody Hj Hi;
    (destruct (Hbody i i env Hj) as [He' Hg]; [by left|done|]).
  - split; [by eapply ItDone|by eapply loop_inner_good].
  - split; [by eapply ItLast|by eapply loop_inner_good].
  - destruct (IH Hbody Hj) as [Hit' Ho]; [by eapply loop_inner_good|]. split; [by eapply ItAgain|done].
Qed.

Lemma chosen_agrees key (bs : list (string * WorkflowContinuation F)) d c :
  Forall (λ kb, agrees kb.2) bs → opt_all agrees d → forallb (λ kb, joins_tasks kb.2) bs = true →
  match d with Some d => joins_tasks d | None => true end = true → choose key bs d = Some c → agrees c ∧ joins_tasks c = true.
Proof.
  unfold choose. intros Hbs Hd Hjb Hjd. induction Hbs as [|[k b] bs Hb _ IH]; cbn in *; [intros ->; by split|].
  apply andb_true_iff in Hjb as [Hj1 Hj2]. case_bool_decide; [intros [= <-]; by split|by apply IH].
Qed.

Lemma engines_agree (c : WorkflowContinuation F) : agrees c.
Proof.
  induction c as [id fn t r v p tg n Hn|id bs j Hbs Hjoin|id d n Hn|id s t n Hn|id k bs d n Hbs Hd Hn
    |id b m pol n Hb Hn|id ch n Hc Hn] using continuation_ind; intros b1 b2 o Hj Hgiven He.
  - apply evaluates_task in He as (x & Hx & Hco).
    assert (Ha : alike b1 b2) by (destruct Hgiven as [[Hg <-]|[_ Ha]]; [by eapply good_alike|done]).
    destruct (step_same id b1 b2 x Ha Hx) as [Hx' Hg]. destruct (continues_agree n x o Hn Hj Hg Hco) as [Hco' Ho].
    split; [|done]. apply evaluates_task. eauto.
  - destruct Hgiven as [[Hg <-]|[? _]]; [|done]. cbn in Hj. apply andb_true_iff in Hj as [[Hnames Hjb]%andb_true_iff Hjj].
    destruct j as [j|]; [|done]. apply andb_true_iff in Hjj as [Ht Hjj]. apply bool_decide_eq_true in Hnames as (Hne & Hnd & Hb & Hk).
    apply evaluates_fork in He as (rs & (rs0 & Ha & <-) & e & Henc & He).
    destruct (branches_agree bs b1 rs0 Hbs Hjb Hg Ha) as (Ha' & Hgs & Hkeys).
    destruct (join_alike rs0 e Hgs) as (e' & He' & Hal); [by rewrite Hkeys..| |done|].
    { intros ->. apply Hne. by destruct bs. }
    destruct (Hjoin e e' o Hjj) as [Hev Ho]; [by right|done|]. split; [|done]. apply evaluates_fork. eauto 10.
  - destruct Hgiven as [[Hg <-]|[? _]]; [|done]. apply evaluates_delay in He.
    destruct (continues_agree n b1 o Hn Hj Hg He) as [Hco Ho]. split; [by apply evaluates_delay|done].
  - by apply evaluates_signal in He.
  - destruct Hgiven as [[Hg <-]|[? _]]; [|done]. cbn in Hj. apply andb_true_iff in Hj as [[Hjb Hjd]%andb_true_iff Hjn].
    apply evaluates_branch in He as (kb & Hkb & key & Hkey & b & Hch & x & Hx & e & Henc & Hco).
    destruct (step_same _ b1 b1 kb (good_alike exact _ Hg) Hkb) as [Hkb' _].
    destruct (chosen_agrees key bs d b Hbs Hd Hjb Hjd Hch) as [Hag Hjc].
    destruct (Hag b1 b1 x Hjc) as [Hx' Hgx]; [by left|done|]. destruct (envelope_good key x e Hgx Henc) as [Hw Hge].
    destruct (continues_agree n e o Hn Hjn Hge Hco) as [Hco' Ho]. split; [|done]. apply evaluates_branch. eauto 15.
  - destruct Hgiven as [[Hg <-]|[? _]]; [|done]. cbn in Hj. apply andb_true_iff in Hj as [Hjb Hjn].
    apply evaluates_loop in He as (x & Hit & Hco). destruct (iterates_agree b m pol 0 b1 x Hb Hjb Hg Hit) as [Hit' Hgx].
    destruct (continues_agree n x o Hn Hjn Hgx Hco) as [Hco' Ho]. split; [|done]. apply evaluates_loop. eauto.
  - destruct Hgiven as [[Hg <-]|[? _]]; [|done]. cbn in Hj. apply andb_true_iff in Hj as [Hjc Hjn].
    apply evaluates_child in He as (x & Hx & Hco). destruct (Hc b1 b1 x Hjc) as [Hx' Hgx]; [by left|done|].
    destruct (continues_agree n x o Hn Hjn Hgx Hco) as [Hco' Ho]. split; [|done]. apply evaluates_child. eauto.
Qed.

(** The two entry points on the same input. *)
Lemma runs_agree (wf : NapiWorkflow F) input out n :
  portable exact input → unshaped input = true →
  steppable false (napi_continuation wf) = true → joins_tasks (napi_continuation wf) = true →
  (node_engine_run wf input registry n).1 = Ok out → node_run_workflow wf input registry = Ok out.
Proof.
  intros Hp Hu Hst Hj Hrun. destruct (output_good input Hp Hu) as (bytes & Henc & Hg). set (c := napi_continuation wf) in *.
  assert (∃ o, sync_evaluates c bytes o ∧ node_decode_to_js_value o = Ok out) as (o & He & Hdec).
  { pose proof (sync_computes (H4:=node_callback registry) sync_task sync_task_any c bytes n) as Hc.
    unfold node_engine_run, mbind, io_bind, lift_result, io_map_err in Hrun. rewrite Henc in Hrun. fold c in Hrun.
    destruct (execute_continuation_sync (H3:=node_callback registry) c bytes n) as [[o|] n'] eqn:Hex; [|done].
    exists o. split; [by apply Hc|exact Hrun]. }
  destruct (engines_agree c bytes bytes o Hj) as [Hev [j Hr]]; [by left|done|].
  rewrite (reads_decode exact o j Hr) in Hdec. injection Hdec as <-.
  destruct (reads_parse exact o j Hr) as (s & Hs & Hps). unfold node_run_workflow.
  rewrite (node_stepper_ok exact (run_step_task registry) step_task_bytes c input bytes o); [|..|done|done|done].
  - cbn [mbind result_bind output_json step_done]. rewrite Hs. exact Hps.
  - intros id i. unfold step_task_bytes. by destruct (v ← _; _).
Qed.
End Agree.

(** C30. The synchronous engine and the stepper of the Node.js binding agree: when the
    engine runs a workflow to a value, the stepper, driven by the caller's loop with
    the same registry, ends and gives the same value.  For workflows of tasks, delays,
    conditional branches, loops, child workflows and forks (joined by a task, none
    inside another's branch, with at least one branch, each named after its first
    task, the names distinct and not the tags'); functions that answer alike at every
    call and whatever the order of their argument's properties; and, in the input and
    the answers, values JSON and the tags can carry, no array in them shaped like
    branch results. *)
Theorem node_engines_agree `{Napi, JsonText, !JsRuntime, Sha256, Backon, !BackonLaws, Display} {F : Type}
    (exact : JsonNumber → bool) `{!NapiLaws exact, !JsonTextLaws exact, !JsRuntimeLaws exact}
    (apply : nat → NodeValue → result NapiError NodeValue) `{!Functions exact apply}
    (wf : NapiWorkflow F) (input registry out : NodeValue) (n : nat) :
  portable exact input → unshaped input = true →
  steppable false (napi_continuation wf) = true → joins_tasks (napi_continuation wf) = true →
  (node_engine_run wf input registry n).1 = Ok out → node_run_workflow wf input registry = Ok out.
Proof. intros Hp Hu Hst Hj Hr. by eapply (runs_agree exact apply). Qed.
