(* ===== verification/NodeBackend.v ===== *)
(** * The backends of the bindings ([sayiir-node/src/backend.rs])

    The engine and the client call the in-memory or the Postgres backend directly
    ([with_backend!]).  A worker gets a [BackendKind], which forwards the required
    methods only: the composites, the fence and the hints a backend overrides are
    replaced by the default bodies of the traits. *)

From S2P Require Import Prelude Hash32 SnapshotFormat Task Workflow Snapshot Backend InMemory ClaimStore.
From Stdlib Require Import Floats.SpecFloat.
From S2P Require Import FlowBuilder Postgres PostgresSignals PostgresClaims PostgresProps PostgresComposites PostgresInvariant PostgresExample PostgresPool Worker Stepper NodeCodec Node.

(** ** Pool options

    Seconds become durations, or [from_secs_f64] panics. *)

Record NapiPgPoolOptions : Type := MkNapiPgPoolOptions {
  max_connections : option Z;                                    (* u32 *)
  min_connections : option Z;                                    (* u32 *)
  acquire_timeout_secs : option f64;
  idle_timeout_secs : option f64;
  max_lifetime_secs : option f64;
  statement_timeout_secs : option f64;
  idle_in_transaction_session_timeout_secs : option f64
}.
Definition pool_secs (secs : option f64) : option (option Duration) :=
  match secs with Some x => Some <$> from_secs_f64 x | None => Some None end.
Definition pool_options (o : NapiPgPoolOptions) : option PoolOptions :=
  acquire ← pool_secs (acquire_timeout_secs o);
  idle ← pool_secs (idle_timeout_secs o);
  lifetime ← pool_secs (max_lifetime_secs o);
  statement ← pool_secs (statement_timeout_secs o);
  in_transaction ← pool_secs (idle_in_transaction_session_timeout_secs o);
  Some (MkPoolOptions (max_connections o) (min_connections o) acquire idle lifetime statement in_transaction).

(** ** The backend of a worker *)

Inductive BackendKind : Type := KindInMemory (b : InMemoryBackend) | KindPostgres (db : PgDb).

Section BackendKind.
Context `{Sha256, Chrono, MapIter, Postgres, HintCodec, SnapshotCodec}.

(** [dispatch!]. *)
Definition kind_dispatch {A} (mem : io InMemoryBackend BackendError A) (pg : io PgDb BackendError A) :
    io BackendKind BackendError A := λ self,
  match self with
  | KindInMemory b => let '(r, b) := mem b in (r, KindInMemory b)
  | KindPostgres db => let '(r, db) := pg db in (r, KindPostgres db)
  end.

(** The methods it forwards; the composites here are those of the backend inside. *)
Definition forwarded : PersistentBackend BackendKind := {|
  save_snapshot s := kind_dispatch (save_snapshot s) (save_snapshot s);
  save_task_result now id t output := kind_dispatch (save_task_result now id t output) (save_task_result now id t output);
  load_snapshot id := kind_dispatch (load_snapshot id) (load_snapshot id);
  delete_snapshot id := kind_dispatch (delete_snapshot id) (delete_snapshot id);
  list_snapshots := kind_dispatch list_snapshots list_snapshots;
  store_signal id k request := kind_dispatch (store_signal id k request) (store_signal id k request);
  get_signal id k := kind_dispatch (get_signal id k) (get_signal id k);
  clear_signal id k := kind_dispatch (clear_signal id k) (clear_signal id k);
  send_event id name payload := kind_dispatch (send_event id name payload) (send_event id name payload);
  consume_event id name := kind_dispatch (consume_event id name) (consume_event id name);
  check_and_cancel now id at_ := kind_dispatch (check_and_cancel now id at_) (check_and_cancel now id at_);
  check_and_pause now id := kind_dispatch (check_and_pause now id) (check_and_pause now id);
  unpause now id := kind_dispatch (unpause now id) (unpause now id)
|}.

(** [impl SnapshotStore], [impl SignalStore for BackendKind]: the composites are the
    default bodies. *)
#[export] Instance kind_backend : PersistentBackend BackendKind := {|
  save_snapshot := save_snapshot (PersistentBackend:=forwarded);
  save_task_result := save_task_result (PersistentBackend:=forwarded);
  load_snapshot := load_snapshot (PersistentBackend:=forwarded);
  delete_snapshot := delete_snapshot (PersistentBackend:=forwarded);
  list_snapshots := list_snapshots (PersistentBackend:=forwarded);
  store_signal := store_signal (PersistentBackend:=forwarded);
  get_signal := get_signal (PersistentBackend:=forwarded);
  clear_signal := clear_signal (PersistentBackend:=forwarded);
  send_event := send_event (PersistentBackend:=forwarded);
  consume_event := consume_event (PersistentBackend:=forwarded);
  check_and_cancel := default_check_and_cancel (H:=forwarded);
  check_and_pause := default_check_and_pause (H:=forwarded);
  unpause := default_unpause (H:=forwarded)
|}.

(** [impl TaskClaimStore for BackendKind]. *)
#[export] Instance kind_claims : Claims.TaskClaimStore BackendKind := {|
  Claims.claim_task now id t worker ttl :=
    kind_dispatch (Claims.claim_task now id t worker ttl) (Claims.claim_task now id t worker ttl);
  Claims.release_task_claim id t worker :=
    kind_dispatch (Claims.release_task_claim id t worker) (Claims.release_task_claim id t worker);
  Claims.extend_task_claim now id t worker d :=
    kind_dispatch (Claims.extend_task_claim now id t worker d) (Claims.extend_task_claim now id t worker d);
  Claims.find_available_tasks now worker limit aging tags :=
    kind_dispatch (Claims.find_available_tasks now worker limit aging tags)
      (Claims.find_available_tasks now worker limit aging tags);
  Claims.find_hinted_task := default_find_hinted_task;
  Claims.save_snapshot_fenced _ := default_save_snapshot_fenced
|}.

(** [impl TaskResultStore for BackendKind]. *)
Definition kind_load_task_result (id : string) (t : TaskId) : io BackendKind BackendError (option Bytes) :=
  kind_dispatch (InMemory.load_task_result id t) (pg_load_task_result id t).
End BackendKind.

(** ** A worker ([worker.rs]) *)

(** [x as u64] on a double: towards zero, saturating, NaN to zero. *)
Definition f64_as_u64 (x : f64) : Z :=
  match x with
  | S754_finite false m e => Z.min u64_max (Z.shiftl (Zpos m) e)
  | S754_infinity false => u64_max
  | _ => 0
  end.

Record NapiWorker : Type := MkNapiWorker {
  nw_worker_id : string;
  nw_backend_kind : BackendKind;
  nw_poll_interval : Duration;
  nw_claim_ttl : Duration;
  nw_max_concurrent_tasks : option Z;                            (* u32 *)
  nw_tags : list string
}.

(** [with_in_memory], [with_postgres]: 30 seconds between polls, leases of 5 minutes. *)
Definition napi_worker_new (worker_id : string) (backend : BackendKind) (poll_interval_ms claim_ttl_ms : option f64)
    (tags : option (list string)) (max_concurrent_tasks : option Z) : NapiWorker :=
  MkNapiWorker worker_id backend
    (from_millis (f64_as_u64 (default (f64_of_Z 30000) poll_interval_ms)))
    (from_millis (f64_as_u64 (default (f64_of_Z 300000) claim_ttl_ms)))
    max_concurrent_tasks (default [] tags).

(** [start]: the workflows by definition hash, the last one of a hash staying, and the
    worker that is spawned; a cap of zero tasks is no cap. *)
Definition external_workflows {F} (workflows : list (NapiWorkflow F)) : gmap DefinitionHash (ExternalWorkflow F) :=
  foldl (λ m wf, <[napi_definition_hash wf := MkExternalWorkflow (napi_continuation wf) (napi_task_index wf)
    (napi_workflow_id wf) (napi_metadata_json wf)]> m) ∅ workflows.
Definition napi_worker_pool (self : NapiWorker) : PooledWorker :=
  let worker := with_tags (nw_tags self) (with_claim_ttl (Some (nw_claim_ttl self)) (worker_new (nw_worker_id self))) in
  match nw_max_concurrent_tasks self with
  | Some (Zpos max) => with_max_concurrent_tasks max worker
  | _ => worker
  end.

(** ** What the default bodies cost *)

Section Kind.
Context `{Sha256, Chrono, MapIter, Postgres, HintCodec, SnapshotCodec, !PostgresLaws, !SnapshotCodecLaws}.

Definition lift_kind {B A} (K : B → BackendKind) (r : result BackendError A * B) : result BackendError A * BackendKind :=
  (r.1, K r.2).

(** A default body over the enum is the default body over the backend inside. *)
#[local] Ltac inside body :=
  split; intros; unfold body, lift_kind, mbind, io_bind; cbn; unfold body, mbind, io_bind; cbn;
  repeat (case_match; simplify_eq/=; try done).
Lemma cancel_inside now id at_ :
  (∀ b, check_and_cancel now id at_ (KindInMemory b) = lift_kind KindInMemory (default_check_and_cancel now id at_ b)) ∧
  (∀ db, check_and_cancel now id at_ (KindPostgres db) = lift_kind KindPostgres (default_check_and_cancel now id at_ db)).
Proof. inside @default_check_and_cancel. Qed.
Lemma pause_inside now id :
  (∀ b, check_and_pause now id (KindInMemory b) = lift_kind KindInMemory (default_check_and_pause now id b)) ∧
  (∀ db, check_and_pause now id (KindPostgres db) = lift_kind KindPostgres (default_check_and_pause now id db)).
Proof. inside @default_check_and_pause. Qed.
Lemma unpause_inside now id :
  (∀ b, unpause now id (KindInMemory b) = lift_kind KindInMemory (default_unpause now id b)) ∧
  (∀ db, unpause now id (KindPostgres db) = lift_kind KindPostgres (default_unpause now id db)).
Proof. inside @default_unpause. Qed.

(** Stores that answer loads and signal queries alike; a snapshot without what the
    Postgres backend leaves out of the answer of [unpause]. *)
Definition same_kind (k k' : BackendKind) : Prop :=
  match k, k' with
  | KindInMemory b, KindInMemory b' => b = b'
  | KindPostgres db, KindPostgres db' => same_store db db'
  | _, _ => False
  end.
Definition kind_wf (now : DateTime) (id : string) (k : BackendKind) : Prop :=
  match k with
  | KindInMemory b => store_wf b
  | KindPostgres db => db_wf db ∧ headroom db id ∧ ∀ s, view db id = Some s → payload_fits (mark_unpaused now s)
  end.
Definition essence (s : WorkflowSnapshot) : WorkflowSnapshot := strip_task_outputs (with_trace_parent None s).

Lemma essence_idem s : essence (essence s) = essence s.
Proof.
  assert (∀ m : gmap TaskId TaskResult, clear_output <$> (clear_output <$> m) = clear_output <$> m) as Hm.
  { intros m. apply map_eq. intros i. rewrite !lookup_fmap. by destruct (m !! i). }
  unfold essence, strip_task_outputs. destruct s as [? ? []]; cbn; unfold completed_tasks_mut; cbn;
    by rewrite ?Hm.
Qed.

(** The composites a worker of the bindings runs, the default bodies, answer as those
    of the backend inside and leave a store that looks the same: without interference
    between their calls nothing is lost. *)
Theorem kind_composites_agree (now : DateTime) (id : string) (at_ : option TaskId) (k : BackendKind) :
  kind_wf now id k →
  (let '(r, k1) := check_and_cancel now id at_ k in
   let '(r', k2) := check_and_cancel (PersistentBackend:=forwarded) now id at_ k in r = r' ∧ same_kind k1 k2) ∧
  (let '(r, k1) := check_and_pause now id k in
   let '(r', k2) := check_and_pause (PersistentBackend:=forwarded) now id k in r = r' ∧ same_kind k1 k2) ∧
  (let '(r, k1) := unpause now id k in
   let '(r', k2) := unpause (PersistentBackend:=forwarded) now id k in
   (essence <$> r) = (essence <$> r') ∧ same_kind k1 k2).
Proof.
  destruct k as [b|db]; cbn [kind_wf].
  - intros Hb%store_wf_filed.
    rewrite (proj1 (cancel_inside now id at_)), (proj1 (pause_inside now id)), (proj1 (unpause_inside now id)).
    rewrite <-check_and_cancel_default, <-check_and_pause_default, <-unpause_default by done.
    unfold lift_kind. cbn.
    by destruct (mem_check_and_cancel now id at_ b), (mem_check_and_pause now id b), (mem_unpause now id b).
  - intros (Hwf & Hroom & Hfit).
    rewrite (proj2 (cancel_inside now id at_)), (proj2 (pause_inside now id)), (proj2 (unpause_inside now id)).
    destruct (cancel_refines now id at_ db) as [Hc Hc']; [done..|].
    destruct (pause_refines now id db) as [Hp Hp']; [done..|].
    destruct (unpause_refines now id db) as [Hu Hu']; [done..|].
    assert (∀ d d' : PgDb, same_store d d' → same_store d' d) as Hsym by (intros ?? []; split; congruence).
    unfold lift_kind. cbn. destruct (pg_check_and_cancel now id at_ db), (pg_check_and_pause now id db).
    destruct (pg_unpause now id db) as [r' db']; cbn in *. split_and!; auto.
    rewrite Hu. match goal with |- fmap _ ?d.1 = _ => destruct d as [[s|e] ?] end; cbn; [|done].
    f_equal. symmetry. apply essence_idem.
Qed.

(** C33. A worker of the bindings loses the fence: when a worker does not hold the claim of
    its task (any more), the Postgres backend refuses its save and changes nothing, but
    through [BackendKind] the save succeeds, is reported as made under the claim, and
    replaces the snapshot every other party loads; the claims stay as they were. *)
Theorem binding_worker_unfenced (now : DateTime) (s : WorkflowSnapshot) (t : TaskId) (worker : string) (db : PgDb) :
  db_wf db → snapshot_wf s → headroom db (instance_id s) → payload_fits s →
  ¬ terminal_row db (instance_id s) → save_synced (rows_of (db_tasks db) (instance_id s)) s →
  holds_claim (instance_id s) t worker db = false →
  Claims.save_snapshot_fenced now s t worker db = (Ok (false, s), db) ∧
  ∃ db', Claims.save_snapshot_fenced now s t worker (KindPostgres db) =
      (Ok (true, with_output_unflushed false s), KindPostgres db') ∧
    load_snapshot (instance_id s) (KindPostgres db') = (Ok (with_output_unflushed false s), KindPostgres db') ∧
    db_claims db' = db_claims db ∧
    ∀ id, id ≠ instance_id s → view db' id = view db id.
Proof.
  intros Hwf Hs Hroom Hfit Hlive Hsync Hlost. split.
  { cbn. unfold pg_save_snapshot_fenced, transaction, mbind, io_bind, get_state. by rewrite Hlost. }
  destruct (save_live_view db s) as (db' & Heq & Hwf' & Hview & Hframe & _); [done..|].
  destruct (save_writes db s) as (db2 & ? & ? & ? & Heq2 & Hw & _); [done..|].
  rewrite Heq in Heq2. injection Heq2 as <-.
  exists db'. cbn. unfold default_save_snapshot_fenced, mbind, io_bind. cbn. rewrite Heq.
  split; [done|]. rewrite (load_view _ _ _ Hwf' Hview). split_and!; [done|by eapply w_claims|done].
Qed.
End Kind.

(** The order's task is claimed by [w1]; the late result of [w0] is stored. *)
Module KindExample.
Import Toy Examples InMemoryExample PgExample.

Lemma claimed_snapshots : db_snapshots claimed_db = db_snapshots saved.
Proof. unfold claimed_db, pg_claim_task. by case_match. Qed.
Lemma claimed_live : ¬ terminal_row claimed_db "order-1".
Proof.
  intros (r & Hr & Ht). rewrite claimed_snapshots in Hr. destruct saved_spec as (Hwf & Hv & _).
  rewrite (view_status _ _ _ _ Hwf Hv Hr) in Ht. clear -Ht. discriminate Ht.
Qed.

Lemma binding_worker_unfenced_witness :
  Claims.save_snapshot_fenced 7 paid pay "w0" claimed_db = (Ok (false, paid), claimed_db) ∧
  ∃ db', Claims.save_snapshot_fenced 7 paid pay "w0" (KindPostgres claimed_db) =
      (Ok (true, with_output_unflushed false paid), KindPostgres db') ∧
    load_snapshot "order-1" (KindPostgres db') = (Ok (with_output_unflushed false paid), KindPostgres db') ∧
    db_claims db' = db_claims claimed_db.
Proof.
  destruct (binding_worker_unfenced 7 paid pay "w0" claimed_db) as (Hf & db' & Hs & Hl & Hc & _).
  - apply claim_evolves, saved_spec.
  - exact paid_wf.
  - intros r Hr. rewrite claimed_snapshots in Hr. by apply saved_room.
  - exact paid_fits.
  - exact claimed_live.
  - apply paid_synced.
  - vm_compute. reflexivity.
  - split; [exact Hf|]. exists db'. split; [exact Hs|]. by split.
Defined.
End KindExample.
