(* ===== verification/NodeExample.v ===== *)
(** * A JSON text, a JavaScript side and workflows, for the witnesses of the Node.js binding

    The text is JSON but for numbers (bytes and small whole numbers, in hexadecimal) and
    escapes (a backslash and two hexadecimal digits). *)

From S2P Require Import Prelude Hash32 SnapshotFormat Task Workflow TaskIndex Serializable Snapshot Backend InMemory Runtime Lifecycle SyncExec Checkpoint Durability Cloudflare CloudflareProps Stepper StepperProps Json NodeCodec NodeCodecProps Node NodeProps NodeAgree.
From Stdlib Require Import Floats.SpecFloat.

Module NodeExample.
Import Toy WorkflowExample Examples DurabilityExample.
#[local] Existing Instances ExecExample.backon ExecExample.backon_laws.

(** ** Text *)

Definition hex_digit (n : N) : byte := default x30 (Byte.of_N (if (n <? 10)%N then 48 + n else 87 + n)%N).
Definition unhex (b : byte) : N := let n := Byte.to_N b in if (n <? 58)%N then (n - 48)%N else (n - 87)%N.
Definition hex2 (n : N) : Bytes := [hex_digit (n / 16)%N; hex_digit (n mod 16)%N].
Definition unhex2 (h l : byte) : N := (unhex h * 16 + unhex l)%N.
Lemma unhex2_hex2 b : unhex2 (hex_digit (Byte.to_N b / 16)%N) (hex_digit (Byte.to_N b mod 16)%N) = Byte.to_N b.
Proof. by destruct b. Qed.

Definition plain (b : byte) : bool :=
  let n := Byte.to_N b in (31 <? n)%N && (n <? 127)%N && negb (n =? 34)%N && negb (n =? 92)%N.
Definition escape (b : byte) : Bytes := if plain b then [b] else [x5c] ++ hex2 (Byte.to_N b).
Fixpoint escapes (bs : Bytes) : Bytes := match bs with [] => [] | b :: bs => escape b ++ escapes bs end.
Definition print_str (s : string) : Bytes := [x22] ++ escapes (as_bytes s) ++ [x22].

#[local] Instance f64_eq_dec : EqDecision f64.
Proof. unfold f64. solve_decision. Defined.
Definition small_float (x : f64) : option Z :=
  let n := f64_as_i64 x in if bool_decide (0 ≤ n < 256 ∧ f64_of_Z n = x) then Some n else None.
Definition print_number (n : JsonNumber) : option Bytes :=
  match n with
  | PosInt n => if bool_decide (0 ≤ n < 256) then Some (x23 :: hex2 (Z.to_N n)) else None
  | FloatNum x => (λ n, x7e :: hex2 (Z.to_N n)) <$> small_float x
  | NegInt _ => None
  end.
Definition exact (n : JsonNumber) : bool := match print_number n with Some _ => true | None => false end.

Fixpoint print (j : JsonValue) : Bytes :=
  match j with
  | JsonNull => [x6e]
  | JsonBool b => [if b then x74 else x66]
  | JsonNum n => default [x6e] (print_number n)
  | JsonStr s => print_str s
  | JsonArr items => x5b :: (fix go l := match l with [] => [x5d] | j :: l => print j ++ x2c :: go l end) items
  | JsonObj members =>
      x7b :: (fix go l := match l with [] => [x7d] | (k, j) :: l => print_str k ++ x3a :: print j ++ x2c :: go l end) members
  end.
Definition print_items : list JsonValue → Bytes := fix go l := match l with [] => [x5d] | j :: l => print j ++ x2c :: go l end.
Definition print_members : list (string * JsonValue) → Bytes :=
  fix go l := match l with [] => [x7d] | (k, j) :: l => print_str k ++ x3a :: print j ++ x2c :: go l end.

Fixpoint scan_str (bs : Bytes) : option (Bytes * Bytes) :=
  match bs with
  | [] => None
  | c :: r =>
      if Byte.eqb c x22 then Some ([], r)
      else if Byte.eqb c x5c then
        match r with
        | h :: l :: r => b ← Byte.of_N (unhex2 h l); sr ← scan_str r; Some (b :: sr.1, sr.2)
        | _ => None
        end
      else sr ← scan_str r; Some (c :: sr.1, sr.2)
  end.
(** The rest after a given byte. *)
Definition expect (c : byte) (bs : Bytes) : option Bytes :=
  match bs with b :: r => if Byte.eqb b c then Some r else None | [] => None end.
Definition parse_string (bs : Bytes) : option (string * Bytes) :=
  r ← expect x22 bs; sr ← scan_str r; Some (String.string_of_list_byte sr.1, sr.2).
Definition parse_byte (bs : Bytes) : option (Z * Bytes) :=
  match bs with h :: l :: r => Some (Z.of_N (unhex2 h l), r) | _ => None end.

Fixpoint parse (fuel : nat) (bs : Bytes) : option (JsonValue * Bytes) :=
  match fuel, bs with
  | S fuel, c :: r =>
      if Byte.eqb c x6e then Some (JsonNull, r)
      else if Byte.eqb c x74 then Some (JsonBool true, r)
      else if Byte.eqb c x66 then Some (JsonBool false, r)
      else if Byte.eqb c x23 then nr ← parse_byte r; Some (JsonNum (PosInt nr.1), nr.2)
      else if Byte.eqb c x7e then nr ← parse_byte r; Some (JsonNum (FloatNum (f64_of_Z nr.1)), nr.2)
      else if Byte.eqb c x22 then sr ← parse_string bs; Some (JsonStr sr.1, sr.2)
      else if Byte.eqb c x5b then jr ← parse_items fuel r; Some (JsonArr jr.1, jr.2)
      else if Byte.eqb c x7b then mr ← parse_members fuel r; Some (JsonObj mr.1, mr.2)
      else None
  | _, _ => None
  end
with parse_items (fuel : nat) (bs : Bytes) : option (list JsonValue * Bytes) :=
  match fuel with
  | O => None
  | S fuel =>
      match expect x5d bs with
      | Some r => Some ([], r)
      | None =>
          jr ← parse fuel bs; r ← expect x2c jr.2;
          jsr ← parse_items fuel r; Some (jr.1 :: jsr.1, jsr.2)
      end
  end
with parse_members (fuel : nat) (bs : Bytes) : option (list (string * JsonValue) * Bytes) :=
  match fuel with
  | O => None
  | S fuel =>
      match expect x7d bs with
      | Some r => Some ([], r)
      | None =>
          kr ← parse_string bs; r ← expect x3a kr.2;
          jr ← parse fuel r; r ← expect x2c jr.2;
          msr ← parse_members fuel r; Some ((kr.1, jr.1) :: msr.1, msr.2)
      end
  end.
Definition parse_all (bs : Bytes) : result BoxError JsonValue :=
  match parse (2 * length bs + 2) bs with Some (j, []) => Ok j | _ => Err (BoxOther "expected value") end.

(** What is read back: numbers that are not exact are null. *)
Fixpoint norm (j : JsonValue) : JsonValue :=
  match j with
  | JsonNum n => if exact n then JsonNum n else JsonNull
  | JsonArr items => JsonArr (norm <$> items)
  | JsonObj members => JsonObj ((λ kv, (kv.1, norm kv.2)) <$> members)
  | _ => j
  end.

(** *** Reading what is printed *)

Lemma plain_bytes b : plain b = true → Byte.eqb b x22 = false ∧ Byte.eqb b x5c = false.
Proof. by destruct b. Qed.
Lemma scan_escapes bs rest : scan_str (escapes bs ++ x22 :: rest) = Some (bs, rest).
Proof.
  induction bs as [|b bs IH]; [done|]. cbn [escapes]. unfold escape. destruct (plain b) eqn:Hb.
  - apply plain_bytes in Hb as [H1 H2]. cbn. by rewrite H1, H2, IH.
  - cbn -[unhex2 hex_digit N.div N.modulo]. by rewrite unhex2_hex2, Byte.of_to_N, IH.
Qed.
Lemma parse_print_str s rest : parse_string (print_str s ++ rest) = Some (s, rest).
Proof.
  unfold parse_string, print_str. cbn. rewrite <-app_assoc. cbn. rewrite scan_escapes. cbn.
  do 2 f_equal. apply String.string_of_list_byte_of_string.
Qed.

Lemma parse_print_byte n rest : 0 ≤ n < 256 → parse_byte (hex2 (Z.to_N n) ++ rest) = Some (n, rest).
Proof.
  intros Hn. assert (∃ b, n = Z.of_N (Byte.to_N b)) as [b ->].
  { destruct (Byte.of_N (Z.to_N n)) as [b|] eqn:Hb; [|apply Byte.of_N_None_iff in Hb; lia].
    exists b. apply Byte.to_of_N in Hb. rewrite Hb. lia. }
  rewrite N2Z.id. cbn -[unhex2 hex_digit N.div N.modulo]. by rewrite unhex2_hex2.
Qed.

Lemma print_first j : ∃ c r, print j = c :: r ∧ Byte.eqb c x5d = false ∧ Byte.eqb c x7d = false.
Proof.
  destruct j as [|[]|n| | |]; try by (do 2 eexists; split; [reflexivity|done]).
  cbn. unfold print_number. destruct n as [n|n|x]; [case_bool_decide|..|destruct (small_float x)];
    by (do 2 eexists; split; [reflexivity|done]).
Qed.
Lemma expect_not c b r : Byte.eqb b c = false → expect c (b :: r) = None.
Proof. cbn. by intros ->. Qed.

Definition reads_back (j : JsonValue) : Prop := ∀ fuel rest,
  (2 * length (print j) ≤ fuel)%nat → parse fuel (print j ++ rest) = Some (norm j, rest).

Lemma parse_print_items items fuel rest : Forall reads_back items → (2 * length (print_items items) ≤ fuel)%nat →
  parse_items fuel (print_items items ++ rest) = Some (norm <$> items, rest).
Proof.
  intros Hi. revert fuel. induction Hi as [|j items Hj _ IH]; intros [|fuel]; [cbn; lia|done|cbn [print_items]; rewrite length_app; cbn [length]; lia|].
  cbn [print_items]. fold print_items. rewrite length_app. cbn [length]. intros Hf.
  rewrite <-app_assoc. cbn [parse_items app]. destruct (print_first j) as (c & r & Hc & Hne & _).
  assert (expect x5d (print j ++ x2c :: print_items items ++ rest) = None) as -> by (rewrite Hc; by apply expect_not).
  rewrite Hj by lia. cbn. rewrite IH by lia. done.
Qed.
Lemma parse_print_members members fuel rest : Forall (λ kv, reads_back kv.2) members → (2 * length (print_members members) ≤ fuel)%nat →
  parse_members fuel (print_members members ++ rest) = Some ((λ kv, (kv.1, norm kv.2)) <$> members, rest).
Proof.
  intros Hm. revert fuel. induction Hm as [|[k j] members Hj _ IH]; intros [|fuel]; [cbn; lia|done|cbn; lia|].
  cbn [print_members]. fold print_members. rewrite length_app. cbn [length]. rewrite length_app. cbn [length]. intros Hf.
  rewrite <-app_assoc. cbn [parse_members app].
  assert (Hk : ∀ r, expect x7d (print_str k ++ r) = None) by done. rewrite Hk. rewrite parse_print_str. cbn [mbind option_bind fst snd app]. cbn [expect]. change (Byte.eqb x3a x3a) with true. cbv iota. cbn [mbind option_bind].
  rewrite <-app_assoc. cbn in Hj. rewrite Hj by lia. cbn. rewrite IH by lia. done.
Qed.

Lemma parse_print j : reads_back j.
Proof.
  induction j as [|b|n|s|items IH|members IH] using json_ind; intros fuel rest Hf.
  - destruct fuel; [cbn in Hf; lia|done].
  - destruct fuel; [cbn in Hf; lia|by destruct b].
  - destruct fuel as [|fuel]; [destruct (print_first (JsonNum n)) as (? & ? & Hn & _); rewrite Hn in Hf; cbn in Hf; lia|].
    clear Hf. cbn [norm print]. unfold exact.
    destruct n as [n|n|x]; cbn [print_number]; [case_bool_decide as Hn|..|].
    + cbn -[parse_byte hex2]. by rewrite (parse_print_byte n rest Hn).
    + done.
    + done.
    + unfold small_float. case_bool_decide as Hn; [|done]. destruct Hn as [Hn Hx]. cbn -[parse_byte hex2 f64_of_Z].
      rewrite (parse_print_byte _ rest Hn). cbn -[f64_of_Z]. by rewrite Hx.
  - destruct fuel; [cbn in Hf; lia|]. change (print (JsonStr s)) with (print_str s). cbn -[parse_string print_str].
    assert (∃ r, print_str s ++ rest = x22 :: r) as [r Hr] by by eexists. pose proof (parse_print_str s rest) as Hp. rewrite Hr in *.
    cbn -[parse_string]. by rewrite Hp.
  - change (print (JsonArr items)) with (x5b :: print_items items) in *. cbn [length] in Hf. destruct fuel; [lia|].
    cbn -[parse_items print_items norm]. rewrite parse_print_items by (done || lia). done.
  - change (print (JsonObj members)) with (x7b :: print_members members) in *. cbn [length] in Hf. destruct fuel; [lia|].
    cbn -[parse_members print_members norm]. rewrite parse_print_members by (done || lia). done.
Qed.

Lemma parse_all_print j : parse_all (print j) = Ok (norm j).
Proof. unfold parse_all. rewrite <-(app_nil_r (print j)) at 2. rewrite parse_print by lia. done. Qed.

Lemma norm_exact j : all_numbers exact j = true → norm j = j.
Proof.
  induction j as [|b|n|s|items IH|members IH] using json_ind; cbn -[exact]; intros He; try done.
  - by rewrite He.
  - f_equal. induction IH as [|j items Hj _ IHi]; [done|]. cbn -[exact] in *. apply andb_true_iff in He as [He1 He2].
    f_equal; [by apply Hj|by apply IHi].
  - f_equal. induction IH as [|[k j] members Hj _ IHm]; [done|]. cbn -[exact] in *. apply andb_true_iff in He as [He1 He2].
    f_equal; [by rewrite Hj|by apply IHm].
Qed.
(** *** The laws of the text *)

Definition ascii (bs : Bytes) : bool := forallb (λ b, Byte.to_N b <? 128)%N bs.
Lemma ascii_app l k : ascii (l ++ k) = ascii l && ascii k.
Proof. apply forallb_app. Qed.
Lemma ascii_hex2 b : ascii (hex2 (Byte.to_N b)) = true.
Proof. by destruct b. Qed.
Lemma ascii_escape b : ascii (escape b) = true.
Proof. by destruct b. Qed.
Lemma ascii_str s : ascii (print_str s) = true.
Proof.
  unfold print_str. cbn. rewrite ascii_app. cbn. rewrite andb_true_r. induction (as_bytes s) as [|b bs IH]; [done|].
  cbn [escapes]. by rewrite ascii_app, ascii_escape, IH.
Qed.
Lemma ascii_number n bs : print_number n = Some bs → ascii bs = true.
Proof.
  assert (Hz : ∀ z, 0 ≤ z < 256 → ascii (hex2 (Z.to_N z)) = true).
  { intros z Hz. destruct (Byte.of_N (Z.to_N z)) as [b|] eqn:Hb; [|apply Byte.of_N_None_iff in Hb; lia].
    apply Byte.to_of_N in Hb. rewrite <-Hb. apply ascii_hex2. }
  destruct n as [n|n|x]; cbn -[hex2]; [|done|].
  - case_bool_decide as Hn; [|done]. intros [= <-]. cbn -[hex2]. by apply Hz.
  - unfold small_float. case_bool_decide as Hn; [|done]. intros [= <-]. cbn -[hex2]. apply Hz, Hn.
Qed.
Lemma ascii_print j : ascii (print j) = true.
Proof.
  induction j as [|b|n|s|items IH|members IH] using json_ind.
  - done.
  - by destruct b.
  - cbn. destruct (print_number n) as [bs|] eqn:Hn; [by eapply ascii_number|done].
  - apply ascii_str.
  - change (ascii (print_items items) = true). induction IH as [|j items Hj _ IHi]; [done|]. cbn [print_items]. fold print_items.
    rewrite ascii_app, Hj. exact IHi.
  - change (ascii (print_members members) = true). induction IH as [|[k j] members Hj _ IHm]; [done|].
    cbn [print_members]. fold print_members. rewrite ascii_app, ascii_str. cbn -[ascii] in Hj.
    change (ascii (print j ++ x2c :: print_members members) = true). rewrite ascii_app, Hj. exact IHm.
Qed.
Lemma ascii_utf8 bs : ascii bs = true → ∃ s, Utf8.from_utf8 bs = Ok s.
Proof.
  intros Ha. unfold Utf8.from_utf8. assert (∀ i, Utf8.scan Utf8.Between i bs = None) as H; [|rewrite H; eauto].
  induction bs as [|b bs IH]; intros i; [done|]. cbn in Ha |- *. apply andb_true_iff in Ha as [Hb Ha].
  assert (Utf8.in_range 0 127 b = true) as -> by (by destruct b). by apply IH.
Qed.

Lemma escapes_plain bs : forallb plain bs = true → escapes bs = bs.
Proof.
  induction bs as [|b bs IH]; [done|]. cbn. intros [Hb Hbs]%andb_true_iff. unfold escape. by rewrite Hb, IH.
Qed.
Lemma print_has_key k j : plain_key k = true → has_key k j = true → ∃ p q, print j = p ++ Json.quoted k ++ q.
Proof.
  intros Hk. assert (Hstr : print_str k = Json.quoted k) by (unfold print_str, Json.quoted; by rewrite escapes_plain).
  induction j as [|b|n|s|items IH|members IH] using json_ind; cbn -[print]; intros Hj; try done.
  - assert (∃ p q, print_items items = p ++ Json.quoted k ++ q) as (p & q & He); [|exists (x5b :: p), q; exact (f_equal (cons x5b) He)].
    induction IH as [|j items Hji _ IHi]; [done|]. cbn in Hj. cbn [print_items]. fold print_items.
    apply orb_true_iff in Hj as [Hj|Hj].
    + destruct (Hji Hj) as (p & q & ->). eexists p, _. by rewrite <-!app_assoc.
    + destruct (IHi Hj) as (p & q & ->). exists (print j ++ x2c :: p), q. by rewrite <-app_assoc.
  - assert (∃ p q, print_members members = p ++ Json.quoted k ++ q) as (p & q & He); [|exists (x7b :: p), q; exact (f_equal (cons x7b) He)].
    induction IH as [|[k' j] members Hji _ IHm]; [done|]. cbn in Hj. cbn [print_members]. fold print_members.
    apply orb_true_iff in Hj as [[Hk'%bool_decide_eq_true|Hj]%orb_true_iff|Hj].
    + subst k'. rewrite Hstr. by exists [], (x3a :: print j ++ x2c :: print_members members).
    + destruct (Hji Hj) as (p & q & He). cbn -[Json.quoted print] in He. rewrite He. exists (print_str k' ++ x3a :: p), (q ++ x2c :: print_members members).
      by repeat (rewrite <-app_assoc; cbn [app]).
    + destruct (IHm Hj) as (p & q & ->). exists (print_str k' ++ x3a :: print j ++ x2c :: p), q. by repeat (rewrite <-app_assoc; cbn [app]).
Qed.

(** Branch results: pairs of a name and bytes, the bytes as numbers or as a string. *)
Definition read_byte (j : JsonValue) : option byte :=
  match j with JsonNum (PosInt n) => Byte.of_N (Z.to_N n) | _ => None end.
Fixpoint read_all {A} (g : JsonValue → option A) (l : list JsonValue) : option (list A) :=
  match l with [] => Some [] | j :: l => a ← g j; as_ ← read_all g l; Some (a :: as_) end.
Definition read_pair (j : JsonValue) : option (string * Bytes) :=
  match j with
  | JsonArr [JsonStr name; JsonArr data] => pair name <$> read_all read_byte data
  | JsonArr [JsonStr name; JsonStr s] => Some (name, as_bytes s)
  | _ => None
  end.
Definition read_named (j : JsonValue) : option (list (string * Bytes)) :=
  match j with JsonArr items => read_all read_pair items | _ => None end.

#[local] Instance text : JsonText := {|
  json_from_slice := parse_all;
  string_from_slice b := j ← parse_all b; match j with JsonStr s => Ok s | _ => Err (BoxOther "expected a string") end;
  raw_from_slice b := Ok b;
  named_from_slice b := j ← parse_all b; ok_or (read_named j) (BoxOther "expected branch results");
  json_to_vec j := Ok (print j);
  named_to_vec rs := Ok (print (named_json rs));
  envelope_to_vec key raw := Ok (x7b :: print_str "branch" ++ x3a :: print_str key ++ x2c ::
    print_str "result" ++ x3a :: raw ++ [x2c; x7d]);
  serde_message _ := "json"
|}.

Lemma read_all_fmap {A B} (g : JsonValue → option A) (h : B → JsonValue) (r : B → A) l :
  (∀ b, g (h b) = Some (r b)) → read_all g (h <$> l) = Some (r <$> l).
Proof. intros Hg. induction l as [|b l IH]; [done|]. cbn. by rewrite Hg, IH. Qed.
Lemma read_byte_json b : read_byte (byte_json b) = Some b.
Proof. cbn. by rewrite N2Z.id, Byte.of_to_N. Qed.
Lemma read_named_json rs : read_named (named_json rs) = Some rs.
Proof.
  cbn. rewrite (read_all_fmap _ _ id), list_fmap_id; [done|]. intros [n b]. cbn.
  by rewrite (read_all_fmap _ _ id), list_fmap_id by apply read_byte_json.
Qed.
Lemma exact_byte b : exact (PosInt (Z.of_N (Byte.to_N b))) = true.
Proof. by destruct b. Qed.
Lemma exact_named rs : all_numbers exact (named_json rs) = true.
Proof.
  cbn -[exact]. apply forallb_forall. intros j (nb & -> & _)%list_elem_of_In%list_elem_of_fmap. cbn -[exact]. rewrite andb_true_r.
  apply forallb_forall. intros j (b & -> & _)%list_elem_of_In%list_elem_of_fmap. apply exact_byte.
Qed.

Lemma norm_pair j : named_pair (norm j) = named_pair j.
Proof. destruct j as [| |n| |[|[| |[]| | |] [|[| |[]| | |] [|]]]|]; cbn -[exact]; try done; repeat (destruct (exact _); try done). Qed.
Lemma read_shape j rs : read_named (norm j) = Some rs → rs = [] ∨ named_shaped j = true.
Proof.
  destruct j as [| |n| |items|]; cbn -[exact]; try done; [by destruct (exact n)|].
  destruct items as [|j items]; [intros [= <-]; by left|]. intros Hr. right. cbn [named_shaped].
  assert (Hgen : ∀ l rs, read_all read_pair (norm <$> l) = Some rs → forallb named_pair l = true); [|by apply (Hgen (j :: items) rs)].
  clear. induction l as [|j l IH]; intros rs; [done|]. cbn [fmap list_fmap read_all forallb].
  destruct (read_pair (norm j)) as [p|] eqn:Hp; [|done]. cbn. destruct (read_all read_pair (norm <$> l)) as [ps|]; [|done].
  intros _. rewrite (IH ps), andb_true_r by done. rewrite <-norm_pair. unfold read_pair in Hp.
  destruct (norm j) as [| | | |[|[] [|[] [|]]]|]; done.
Qed.

#[local] Instance text_laws : JsonTextLaws exact.
Proof.
  split.
  - eauto.
  - intros j b _ He [= <-]. change (parse_all (print j) = Ok j). by rewrite parse_all_print, norm_exact.
  - intros s b [= <-]. unfold string_from_slice, text. change (print_str s) with (print (JsonStr s)). by rewrite parse_all_print.
  - done.
  - intros rs b [= <-]. unfold named_from_slice, text. change (parse_all _) with (parse_all (print (named_json rs))). rewrite parse_all_print, norm_exact by apply exact_named.
    cbn [mbind result_bind]. by rewrite read_named_json.
  - intros j b rs [= <-]. unfold named_from_slice, text. rewrite parse_all_print. cbn [mbind result_bind].
    destruct (read_named (norm j)) as [rs'|] eqn:Hr; [|done]. intros [= <-]. by apply read_shape.
  - by intros j b [= <-].
  - intros key j b [= <-]. cbn. done.
  - intros k j b Hk Hj [= <-]. by apply print_has_key.
  - intros j b [= <-]. destruct (print j) as [|c r] eqn:Hp; [destruct (print_first j) as (? & ? & Hf & _); congruence|].
    destruct j as [|[]|n| | |]; cbn in Hp; simplify_eq; try (split; [split; [done|by intros [? ?]]|done]).
    + unfold print_number in Hp. destruct n as [n|n|x]; [case_bool_decide|..|destruct (small_float x)]; cbn in Hp; simplify_eq;
        (split; [split; [done|by intros [? ?]]|done]).
    + split; [split; [by eexists|done]|done].
Qed.
(** ** The JavaScript side

    Base64 is hexadecimal here.  The functions look at their argument's shape only. *)

Fixpoint hex_bytes (bs : Bytes) : Bytes := match bs with [] => [] | b :: bs => hex2 (Byte.to_N b) ++ hex_bytes bs end.
Definition hex_text (bs : Bytes) : string := String.string_of_list_byte (hex_bytes bs).
Fixpoint unhex_bytes (bs : Bytes) : option Bytes :=
  match bs with
  | [] => Some []
  | h :: l :: bs => b ← Byte.of_N (unhex2 h l); r ← unhex_bytes bs; Some (b :: r)
  | _ => None
  end.
Lemma unhex_text bs : unhex_bytes (as_bytes (hex_text bs)) = Some bs.
Proof.
  unfold hex_text, as_bytes. rewrite String.list_byte_of_string_of_list_byte. induction bs as [|b bs IH]; [done|].
  cbn -[unhex2 hex_digit N.div N.modulo]. by rewrite unhex2_hex2, Byte.of_to_N, IH.
Qed.

Definition count (n : nat) : NodeValue := NString (pretty (N.of_nat n)).
Definition buffer (bs : Bytes) : NodeValue := NView (Some "Buffer") bs.
Definition apply (f : nat) (v : NodeValue) : result string NodeValue :=
  match f with
  | 0%nat => Ok (NObject [("who", NString "a"); ("file", buffer [x01; xff]); ("n", NNumber (f64_of_Z 7))] [])
  | 1%nat => Ok (NString "left")
  | 2%nat => Ok (NObject [("_loop", NString "done"); ("value", NArray [NNull; buffer [x2a]])] [])
  | 3%nat => Ok (match v with NObject own _ => count (length own) | NArray l => NArray [NBoolean true; count (length l)] | _ => NNull end)
  | _ => Ok (NObject [] [("then", NFunction 0)])
  end.

Definition napi_base : Napi := {|
  NapiError := string;
  napi_error _ msg := msg;
  napi_to_string e := e;
  from_js_value _ := Err "not converted";
  to_js_value j := Ok (js_of_json j);
  get_string v := match v with NString s => Ok s | _ => Err "not a string" end;
  buffer_slice v := match v with NView _ b => Ok b | _ => Err "not a buffer" end;
  call_function _ f v := apply f v;
  node_base64_encode := hex_text;
  node_base64_decode s := ok_or (unhex_bytes (as_bytes s)) "base64"
|}.
#[local] Instance napi : Napi := {|
  NapiError := string;
  napi_error _ msg := msg;
  napi_to_string e := e;
  from_js_value v := @js_to_json napi_base v;
  to_js_value j := Ok (js_of_json j);
  get_string v := match v with NString s => Ok s | _ => Err "not a string" end;
  buffer_slice v := match v with NView _ b => Ok b | _ => Err "not a buffer" end;
  call_function _ f v := apply f v;
  node_base64_encode := hex_text;
  node_base64_decode s := ok_or (unhex_bytes (as_bytes s)) "base64"
|}.
#[local] Instance napi_laws : NapiLaws exact.
Proof.
  split.
  - done.
  - intros v j _ _ Hj Hd He. exists j. by split.
  - done.
  - by intros c b [-> | ->].
  - intros b. unfold node_base64_decode, node_base64_encode, napi. by rewrite unhex_text.
Qed.

#[local] Instance runtime : JsRuntime := {|
  JSON_parse s := map_err (λ _, "Unexpected token") (js_of_json <$> parse_all (as_bytes s));
  buffer_from_base64 s := default [] (unhex_bytes (as_bytes s));
  await v := Ok v;
  JSON_stringify v := String.string_of_list_byte ∘ print <$> js_to_json v
|}.
#[local] Instance runtime_laws : JsRuntimeLaws exact.
Proof.
  split.
  - intros j b [= <-]. apply ascii_utf8, ascii_print.
  - intros j b s _ He [= <-] Hs%from_utf8_bytes. unfold JSON_parse, runtime. rewrite Hs, parse_all_print, norm_exact by done. done.
  - intros s b. cbn. by destruct (unhex_bytes _) as [b'|]; [intros [= <-]|].
  - done.
Qed.

Lemma same_length v v' : same_value v v' → apply 3 v = apply 3 v'.
Proof.
  destruct 1 as [v|l l' Hl|own own1 own2 Hp Hl]; [done|..].
  - cbn. by rewrite (Forall2_length _ _ _ Hl).
  - cbn. by rewrite Hp, (Forall2_length _ _ _ Hl).
Qed.
Ltac portable_tac := repeat first
  [ apply PNull | apply PBoolean | apply PString | apply PArrayBuffer | apply PView; auto
  | eapply PNumber; [reflexivity|vm_compute; reflexivity]
  | apply PArray | apply PObject; [apply (bool_decide_unpack _); vm_compute; exact I|apply (bool_decide_unpack _); vm_compute; exact I
                                  |apply (bool_decide_unpack _); vm_compute; exact I|]
  | apply Forall_nil_2 | apply Forall_cons_2 | progress cbn [fst snd] ].
#[local] Instance functions : Functions exact apply.
Proof.
  split.
  - done.
  - intros [|[|[|[|f]]]] v v' Hs; try done. by apply same_length.
  - intros [|[|[|[|f]]]] v w Hw Hp; injection Hw as <-; try done; try (split; [unfold buffer; portable_tac|reflexivity]).
    destruct v; (split; [unfold count; portable_tac|reflexivity]).
Qed.
(** ** A workflow

    [make → fork [photo, audit] → close → route ("left" ↦ pack) → poll (step)]. *)
Definition node_flow : WorkflowContinuation unit :=
  task "make" (Some (Fork "photo||audit" [task "photo" None; task "audit" None] (Some (task "close" (Some
    (Branch "route" None [("left", task "pack" None)] None (Some (Loop "poll" (task "step" None) 3 Fail None)))))))).
Definition node_wf : NapiWorkflow unit := MkNapiWorkflow "orders" hash node_flow (index_build node_flow) None.
Definition functions_of : NodeValue := NObject
  [("make", NFunction 0); ("photo", NFunction 0); ("audit", NFunction 3); ("close", NFunction 3); ("route::key_fn", NFunction 1);
   ("pack", NFunction 0); ("step", NFunction 2)] [].
Definition order : NodeValue := NObject [("id", NString "7"); ("scan", buffer [xde; xad])] [].
Definition order_bytes : Bytes := default [] (ok (node_encode_js_value order)).
Definition node_answer (id : string) (i : Bytes) : result BoxError Bytes := node_callback functions_of 0%nat id i.
Definition node_output : Bytes :=
  default [] (ok (execute_continuation_sync (H3:=node_callback functions_of) node_flow order_bytes 0%nat).1).

Lemma order_portable : portable exact order.
Proof. unfold order, buffer. portable_tac. Qed.
Lemma node_flow_collision_free : collision_free (node_ids node_flow).
Proof. apply (bool_decide_unpack _). vm_compute. exact I. Qed.
Lemma node_meaning : evaluates node_answer eq node_flow order_bytes node_output.
Proof.
  pose proof (sync_computes (H4:=node_callback functions_of) node_answer (λ _ _ _, eq_refl) node_flow order_bytes 0%nat) as Hc.
  destruct (execute_continuation_sync (H3:=node_callback functions_of) node_flow order_bytes 0%nat) as [[o|] n] eqn:Hr.
  - unfold node_output. rewrite Hr. by apply Hc.
  - exfalso. revert Hr. vm_compute. discriminate.
Qed.

Lemma node_value_survives_witness :
  portable exact order ∧
  ∃ b v', node_encode_js_value order = Ok b ∧ node_decode_to_js_value b = Ok v' ∧ same_value order v'.
Proof. split; [exact order_portable|]. apply (node_value_survives exact order); [exact order_portable|reflexivity]. Defined.

Lemma node_engines_agree_witness :
  node_run_workflow node_wf order functions_of = Ok (NArray [NNull; buffer [x2a]]).
Proof.
  apply (node_engines_agree (H:=napi) exact apply node_wf order functions_of (NArray [NNull; buffer [x2a]]) 0%nat);
    [exact order_portable|reflexivity|reflexivity|vm_compute; reflexivity|vm_compute; reflexivity].
Defined.

Definition show_time : DateTime → string := u_to_string.
Lemma node_run_correct_witness :
  ∃ s w', node_durable_run show_time (MkNapiEngine Conflict.Fail) node_wf "i" order functions_of w0 =
      (Ok (MkNapiStatus (Status.MkFlat "completed" None None None None None None None None) (ok (Utf8.from_utf8 node_output))), w') ∧
    state s = Completed node_output ∧ snapshots (store w') !! "i" = Some s.
Proof.
  apply (node_run_correct show_time (MkNapiEngine Conflict.Fail) node_wf "i" order functions_of order_bytes node_output node_answer w0).
  - reflexivity.
  - reflexivity.
  - vm_compute. reflexivity.
  - exact node_flow_collision_free.
  - reflexivity.
  - reflexivity.
  - reflexivity.
  - reflexivity.
  - reflexivity.
  - reflexivity.
  - vm_compute. reflexivity.
  - exact node_meaning.
Defined.

(** ** Where the binding surprises *)

Definition through_codec (v : NodeValue) : result string NodeValue :=
  b ← (node_encode_js_value v : result string Bytes); (node_decode_to_js_value b : result string NodeValue).

(** An array of pairs of strings comes back as an object, or not at all: it reads like
    branch results whose bytes are the second strings.  A property with the name of a tag
    that is not a string makes a value with buffers unreadable. *)
Lemma misread_values :
  through_codec (NArray [NArray [NString "a"; NString "n"]]) = Ok (NObject [("a", NNull)] []) ∧
  through_codec (NArray [NArray [NString "name"; NString "bob"]]) = Err "json" ∧
  through_codec (NObject [(TAG_KIND, NNumber (f64_of_Z 1)); ("b", buffer [x01])] []) = Err "not a string".
Proof. split; [|split]; vm_compute; reflexivity. Qed.

(** What a join is given: an object in branch order by the synchronous and durable engines,
    the same object in key order by the stepper, and the pairs themselves, their bytes
    unread, by a worker. *)
Definition branch_outputs : list (string * Bytes) := [("photo", print (JsonStr "p")); ("audit", print JsonNull)].
Definition joined : Bytes := default [] (ok (encode_named_results branch_outputs)).
Definition byte_array (bs : Bytes) : NodeValue := NArray ((λ b, NNumber (f64_of_Z (Z.of_N (Byte.to_N b)))) <$> bs).
Lemma join_inputs :
  node_decode_to_js_value joined = Ok (NObject [("photo", NString "p"); ("audit", NNull)] []) ∧
  (b ← (encode_branch_map branch_outputs : result string Bytes);
   (parse_and_rehydrate (String.string_of_list_byte b) : result string NodeValue)) =
    Ok (NObject [("audit", NNull); ("photo", NString "p")] []) ∧
  (b ← map_err (λ _, "json") (worker_payload String.string_of_list_byte "close" joined);
   (JSON_parse (String.string_of_list_byte b) : result string NodeValue)) =
    Ok (NObject [("input", NArray
          [NArray [NString "photo"; byte_array (print (JsonStr "p"))]; NArray [NString "audit"; byte_array (print JsonNull)]]);
        ("taskId", NString "close")] []).
Proof. split; [|split]; vm_compute; reflexivity. Qed.
End NodeExample.
