(* ===== verification/Python.v ===== *)
(** * The Python binding ([sayiir-py/src/codec.rs], [engine.rs], [durable_engine.rs],
    [workflow_client.rs], [worker.rs], [exceptions.rs])

    Tasks are Python functions in a dict; values cross into bytes by [json.dumps] and
    [json.loads].  Python itself is a parameter: objects, the standard library's
    [json] and [asyncio], the calls of functions. *)

From S2P Require Import Prelude Hash32 SnapshotFormat Task Workflow TaskIndex Serializable Snapshot Backend Runtime Lifecycle SyncExec Checkpoint Worker FlowBuilder Cloudflare Json NodeCodec.

(** The exceptions of [exceptions.rs] and those of Python the binding raises. *)
Inductive PyExc : Type :=
| ExcWorkflowError | ExcTaskError | ExcBackendError | ExcDeserializationError | ExcInstanceAlreadyExistsError
| ExcValueError | ExcKeyError.

Class Python : Type := {
  PyObject : Type;
  PyErr : Type;
  py_err : PyExc → string → PyErr;                           (* [PyErr::new] *)
  py_to_string : PyErr → string;                             (* [Display] *)
  py_traceback : PyErr → string;                             (* formatted, empty when there is none *)
  json_dumps : PyObject → result PyErr string;
  json_loads : string → result PyErr PyObject;
  py_dict : list (string * PyObject) → PyObject;             (* [set_item] in this order *)
  py_call : nat → PyObject → PyObject → result PyErr PyObject;   (* the [n]-th call of a task *)
  has_await : PyObject → bool;
  has_running_loop : nat → bool;
  asyncio_run : nat → PyObject → result PyErr PyObject;
  run_until_complete : nat → PyObject → result PyErr PyObject;   (* on a loop of its own *)
  try_attach : nat → bool
}.

(** ** The codec ([codec.rs]) *)

Section Codec.
Context `{Python, JsonText}.
Abbreviation Res := (result PyErr).

Definition encode_pyobject (obj : PyObject) : Res Bytes :=
  json_str ← json_dumps obj; Ok (as_bytes json_str).
(** UTF-8 bytes through [json.loads]. *)
Definition py_loads (bytes : Bytes) : Res PyObject :=
  json_str ← map_err (λ e, py_err ExcValueError (Utf8.utf8_error_to_string e)) (Utf8.from_utf8 bytes);
  json_loads json_str.
Definition decode_branch_results_to_pydict (named : list (string * Bytes)) : Res PyObject :=
  items ← result_collect ((λ nd, pair nd.1 <$> py_loads nd.2) <$> named);
  Ok (py_dict items).
Definition decode_to_pyobject (bytes : Bytes) : Res PyObject :=
  match named_from_slice bytes with
  | Ok ((_ :: _) as named) => decode_branch_results_to_pydict named
  | _ => py_loads bytes
  end.
End Codec.

(** ** Tasks and the engine ([engine.rs]) *)

Record PyWorkflow (F : Type) : Type := MkPyWorkflow {
  py_workflow_id : string;
  py_definition_hash : DefinitionHash;
  py_continuation : WorkflowContinuation F;
  py_task_index : TaskIndex;
  py_metadata_json : option string
}.
Arguments MkPyWorkflow {F}.
Arguments py_workflow_id {F}.
Arguments py_definition_hash {F}.
Arguments py_continuation {F}.
Arguments py_task_index {F}.
Arguments py_metadata_json {F}.

Section Engine.
Context `{Python, JsonText, Sha256, Display, Backon} {F : Type}.
Abbreviation Res := (result PyErr).

(** The function that runs a coroutine when the caller's thread has a running loop: on a
    thread of its own, its exception raised again here. *)
Definition run_coro_in_thread (n : nat) (coro : PyObject) : Res PyObject := run_until_complete n coro.

(** [execute_python_task]; [n] counts the calls of the run. *)
Definition execute_python_task (registry : gmap string PyObject) (n : nat) (task_id : string) (input : Bytes) : Res Bytes :=
  callable ← ok_or (registry !! task_id) (py_err ExcKeyError ("Task '" +:+ task_id +:+ "' not found"));
  input_obj ← decode_to_pyobject input;
  result ← py_call n callable input_obj;
  result ← (if has_await result then
              if has_running_loop n then run_coro_in_thread n result else asyncio_run n result
            else Ok result);
  encode_pyobject result.

(** The callback of the synchronous engine keeps the traceback in the message. *)
Definition newline : string := String (Ascii.ascii_of_nat 10) EmptyString.
Definition py_engine_callback (registry : gmap string PyObject) : TaskCallback := λ n task_id input,
  map_err (λ e,
    let traceback := py_traceback e in
    BoxOther (if bool_decide (traceback = EmptyString) then py_to_string e
              else py_to_string e +:+ newline +:+ newline +:+ traceback))
    (execute_python_task registry n task_id input).

Definition py_engine_error (e : RuntimeError) : PyErr :=
  match e with
  | RCodec _ => py_err ExcDeserializationError (error_to_string e)
  | _ => py_err ExcTaskError (error_to_string e)
  end.
(** [PyWorkflowEngine::run]. *)
Definition py_engine_run (workflow : PyWorkflow F) (input : PyObject) (task_registry : gmap string PyObject) :
    io nat PyErr PyObject :=
  input_bytes ← lift_result (encode_pyobject input);
  result ← io_map_err py_engine_error
    (execute_continuation_sync (H3:=py_engine_callback task_registry) (py_continuation workflow) input_bytes);
  lift_result (decode_to_pyobject result).

Record PyWorkflowStatus : Type := MkPyStatus {
  ps_flat : Status.FlatWorkflowStatus;
  ps_output : option PyObject
}.
(** [From<WorkflowStatus>], then the output decoded when there is one. *)
Definition py_status (to_rfc3339 : DateTime → string) (so : Status.WorkflowStatus * option Bytes) : Res PyWorkflowStatus :=
  output ← (match so.2 with Some bytes => Some <$> decode_to_pyobject bytes | None => Ok None end);
  Ok (MkPyStatus (Status.flatten to_rfc3339 so.1) output).
(** [is_completed], [is_failed] and so on, by the kind's name. *)
Definition py_status_is (kind : Status.WorkflowStatus) (self : PyWorkflowStatus) : bool :=
  bool_decide (Status.flat_status (ps_flat self) = Status.as_ref kind).
End Engine.

(** ** The durable engine ([durable_engine.rs]) *)

(** A request stops with an exception, or with a panic of date arithmetic. *)
Inductive PyStop `{Python} : Type := PyRaised (e : PyErr) | PyPanicked.

Section DurableEngine.
Context `{Python, JsonText, Sha256, Chrono, FloatOps, Display, TaskTiming}.
Context {B F : Type} `{PersistentBackend B, Environment B} (to_rfc3339 : DateTime → string).
Abbreviation Req := (io (World B) PyStop).

Definition runtime_err_to_py (e : RuntimeError) : PyErr :=
  match e with
  | RCodec _ => py_err ExcDeserializationError (error_to_string e)
  | RBackend _ => py_err ExcBackendError (error_to_string e)
  | RTask _ => py_err ExcTaskError (error_to_string e)
  | InstanceAlreadyExists _ => py_err ExcInstanceAlreadyExistsError (error_to_string e)
  | _ => py_err ExcWorkflowError (error_to_string e)
  end.
Definition backend_err_to_py (e : BackendError) : PyErr := py_err ExcBackendError (backend_error_to_string e).

(** [parse_conflict_policy]; [debug] is [{val:?}]. *)
Definition py_parse_conflict_policy (debug : string → string) (s : option string) : result PyErr Conflict.ConflictPolicy :=
  match s with
  | None => Ok Conflict.Fail
  | Some val => ok_or (Conflict.from_str val) (py_err ExcValueError ("invalid conflict_policy: " +:+ debug val +:+
      " (expected " +:+ debug_str "fail" +:+ ", " +:+ debug_str "use_existing" +:+ ", or " +:+
      debug_str "terminate_existing" +:+ ")"))
  end.
Record PyDurableEngine : Type := MkPyEngine { py_conflict_policy : Conflict.ConflictPolicy }.
Definition py_durable_new (debug : string → string) (policy : option string) : result PyErr PyDurableEngine :=
  MkPyEngine <$> py_parse_conflict_policy debug policy.

(** [make_task_executor]: the message without the traceback. *)
Definition py_task_executor (registry : gmap string PyObject) : TaskCallback := λ n task_id input,
  if try_attach n then map_err (λ e, BoxOther (py_to_string e)) (execute_python_task registry n task_id input)
  else Err (BoxOther "Failed to acquire Python GIL").

Definition py_stop_of (e : Fault) : PyStop :=
  match e with Rt e => PyRaised (runtime_err_to_py e) | Panic | OutOfFuel => PyPanicked end.
(** The checkpointing executor over Python tasks, then [finalize_execution]. *)
Definition py_execute (workflow : PyWorkflow F) (task_registry : gmap string PyObject) (input : Bytes) (s : WorkflowSnapshot) :
    io (World B) Fault (Status.WorkflowStatus * option Bytes) := λ w,
  let settle r s w :=
    let '(r, w) := finalize_execution r s w in (map_err Rt (fst <$> r), w) in
  match execute_continuation_with_checkpointing (H5:=py_task_executor task_registry)
          (py_continuation workflow) input (s, w) with
  | (Ok output, (s, w)) => settle (Ok output) s w
  | (Err (Rt e), (s, w)) => settle (Err e) s w
  | (Err f, (_, w)) => (Err f, w)
  end.
Definition py_answer (so : Status.WorkflowStatus * option Bytes) : Req PyWorkflowStatus :=
  lift_result (map_err PyRaised (py_status to_rfc3339 so)).

(** [run]. *)
Definition py_durable_run (self : PyDurableEngine) (workflow : PyWorkflow F) (instance_id : string) (input : PyObject)
    (task_registry : gmap string PyObject) : Req PyWorkflowStatus :=
  early_return ← io_map_err (PyRaised ∘ runtime_err_to_py)
    (check_existing_instance instance_id (py_definition_hash workflow) (py_conflict_policy self));
  match early_return with
  | Some so => py_answer so
  | None =>
      input_bytes ← lift_result (map_err PyRaised (encode_pyobject input));
      outcome ← io_map_err (PyRaised ∘ runtime_err_to_py)
        (prepare_run instance_id (py_definition_hash workflow) input_bytes
          (first_task_hint (py_continuation workflow)) (py_conflict_policy self));
      so ← (match outcome with
            | Fresh s => io_map_err py_stop_of (py_execute workflow task_registry input_bytes s)
            | ExistingStatus status output => mret (status, output)
            end);
      py_answer so
  end.

(** [resume]. *)
Definition py_durable_resume (workflow : PyWorkflow F) (instance_id : string) (task_registry : gmap string PyObject) :
    Req PyWorkflowStatus :=
  outcome ← io_map_err (PyRaised ∘ runtime_err_to_py) (prepare_resume instance_id (py_definition_hash workflow));
  so ← (match outcome with
        | AlreadyTerminal status =>
            match status with
            | Status.Completed =>
                r ← try_io (call (λ _, load_snapshot instance_id));
                mret (status, ok r ≫= λ s, completed_output (state s))
            | _ => mret (status, None)
            end
        | ResumePaused status | NotReady status => mret (status, None)
        | Ready s input_bytes => io_map_err py_stop_of (py_execute workflow task_registry input_bytes s)
        end);
  py_answer so.

(** [cancel], [pause], [send_signal], [unpause]; the client's are the same. *)
Definition py_backend_call {A} (op : DateTime → io B BackendError A) : Req A :=
  io_map_err (PyRaised ∘ backend_err_to_py) (call op).
Definition py_cancel (instance_id : string) (reason cancelled_by : option string) : Req unit :=
  t ← read_clock; py_backend_call (λ _, store_signal instance_id Cancel (SignalRequest_new t reason cancelled_by)).
Definition py_pause (instance_id : string) (reason paused_by : option string) : Req unit :=
  t ← read_clock; py_backend_call (λ _, store_signal instance_id Pause (SignalRequest_new t reason paused_by)).
Definition py_send_signal (instance_id signal_name : string) (payload : PyObject) : Req unit :=
  payload_bytes ← lift_result (map_err PyRaised (encode_pyobject payload));
  py_backend_call (λ _, send_event instance_id signal_name payload_bytes).
Definition py_unpause (instance_id : string) : Req unit :=
  py_backend_call (λ t, unpause t instance_id) ≫= λ _, mret ().

(** ** The client ([workflow_client.rs]) *)

Definition py_submit (self : PyDurableEngine) (workflow : PyWorkflow F) (instance_id : string) (input : PyObject) :
    Req PyWorkflowStatus :=
  early_return ← io_map_err (PyRaised ∘ runtime_err_to_py)
    (check_existing_instance instance_id (py_definition_hash workflow) (py_conflict_policy self));
  match early_return with
  | Some so => py_answer so
  | None =>
      input_bytes ← lift_result (map_err PyRaised (encode_pyobject input));
      outcome ← io_map_err (PyRaised ∘ runtime_err_to_py)
        (prepare_run instance_id (py_definition_hash workflow) input_bytes
          (first_task_hint (py_continuation workflow)) (py_conflict_policy self));
      py_answer (match outcome with Fresh _ => (Status.InProgress, None) | ExistingStatus status output => (status, output) end)
  end.
Definition py_client_status (instance_id : string) : Req PyWorkflowStatus :=
  s ← py_backend_call (λ _, load_snapshot instance_id);
  py_answer (as_status (state s), completed_output (state s)).
(** [get_task_result], over the backend's [TaskResultStore]. *)
Definition py_get_task_result (load_task_result : string → TaskId → io B BackendError (option Bytes))
    (instance_id task_id : string) : Req (option PyObject) :=
  bytes ← py_backend_call (λ _, load_task_result instance_id (TaskId_from task_id));
  match bytes with
  | Some b => Some <$> lift_result (map_err PyRaised (decode_to_pyobject b))
  | None => mret None
  end.
End DurableEngine.

(** ** The worker ([worker.rs]) *)

Section Worker.
Context `{Python, JsonText}.

(** The executor of [start]: the first registry that has a task of this name. *)
Fixpoint py_worker_task (registries : list (DefinitionHash * gmap string PyObject)) (n : nat) (task_id : string)
    (input : Bytes) : result BoxError Bytes :=
  match registries with
  | [] => Err (BoxOther ("Task '" +:+ task_id +:+ "' not found in any workflow registry"))
  | (_, registry) :: registries =>
      if bool_decide (is_Some (registry !! task_id))
      then map_err (λ e, BoxOther (py_to_string e)) (execute_python_task registry n task_id input)
      else py_worker_task registries n task_id input
  end.
Definition py_worker_executor (registries : list (DefinitionHash * gmap string PyObject)) (n : nat) (task_id : string)
    (input : Bytes) : result BoxError Bytes :=
  if try_attach n then py_worker_task registries n task_id input else Err (BoxOther "Failed to acquire Python GIL").
End Worker.

Record PyWorker : Type := MkPyWorker {
  pw_worker_id : string;
  pw_poll_interval : Duration;
  pw_claim_ttl : Duration;
  pw_max_concurrent_tasks : option nat;                      (* usize *)
  pw_tags : list string
}.
(** [new]; [None] is the panic of [from_secs_f64]. *)
Definition py_worker_new (worker_id : string) (poll_interval_secs claim_ttl_secs : f64) (tags : option (list string))
    (max_concurrent_tasks : option nat) : option PyWorker :=
  poll_interval ← from_secs_f64 poll_interval_secs;
  claim_ttl ← from_secs_f64 claim_ttl_secs;
  Some (MkPyWorker worker_id poll_interval claim_ttl max_concurrent_tasks (default [] tags)).
(** [start]: the workflows by definition hash, and the worker that is spawned. *)
Definition py_external_workflows {F} (workflows : list (PyWorkflow F)) : gmap DefinitionHash (ExternalWorkflow F) :=
  foldl (λ m wf, <[py_definition_hash wf := MkExternalWorkflow (py_continuation wf) (py_task_index wf)
    (py_workflow_id wf) (py_metadata_json wf)]> m) ∅ workflows.
Definition py_worker_pool (self : PyWorker) : PooledWorker :=
  let worker := with_tags (pw_tags self) (with_claim_ttl (Some (pw_claim_ttl self)) (worker_new (pw_worker_id self))) in
  match pw_max_concurrent_tasks self with
  | Some (S max) => with_max_concurrent_tasks (Pos.of_succ_nat max) worker
  | _ => worker
  end.
