(* ===== verification/PythonFlow.v ===== *)
(** * The flow builder of the Python binding ([sayiir-py/src/flow.rs], [task.rs])

    [PyFlowBuilder] over the bindings' [FlowBuilder], with its retry policies (no
    maximal delay), priorities (bytes) and exceptions. *)

From S2P Require Import Prelude Hash32 SnapshotFormat Task Workflow TaskIndex Serializable Snapshot Backend Runtime Lifecycle SyncExec WorkerNav Worker Registry Builder FlowBuilder Cloudflare Stepper StepperProps WasmFlow Json NodeCodec Node NodeProps NodeFlow Python.

(** ** Metadata ([task.rs]) *)

Record PyRetryPolicy : Type := MkPyRetryPolicy {
  p_max_retries : Z;                 (* u32 *)
  p_initial_delay_secs : f64;
  p_backoff_multiplier : f64
}.
Definition PyRetryPolicy_new (max_retries : option Z) (initial_delay_secs backoff_multiplier : option f64) : PyRetryPolicy :=
  MkPyRetryPolicy (default 2 max_retries) (default (f64_of_Z 1) initial_delay_secs) (default (f64_of_Z 2) backoff_multiplier).
Record PyTaskMetadata : Type := MkPyTaskMetadata {
  p_display_name : option string;
  p_description : option string;
  p_timeout_secs : option f64;
  p_retries : option PyRetryPolicy;
  p_tags : option (list string);
  p_version : option string;
  p_priority : option Z              (* u8 *)
}.

(** The [From] conversions; [None] is the panic of [from_secs_f64]. *)
Definition py_into_retries (p : PyRetryPolicy) : option RetryPolicy :=
  initial_delay ← from_secs_f64 (p_initial_delay_secs p);
  Some (MkRetryPolicy (p_max_retries p) initial_delay (f32_of_f64 (p_backoff_multiplier p)) None).
Definition py_into_metadata (p : PyTaskMetadata) : option TaskMetadata :=
  timeout ← (match p_timeout_secs p with Some s => Some <$> from_secs_f64 s | None => Some None end);
  retries ← (match p_retries p with Some r => Some <$> py_into_retries r | None => Some None end);
  Some (MkTaskMetadata (p_display_name p) (p_description p) timeout retries (default [] (p_tags p)) (p_version p)
    (p_priority p ≫= Priority_from_u8)).
Definition py_from_retries (r : RetryPolicy) : PyRetryPolicy :=
  MkPyRetryPolicy (max_retries r) (as_secs_f64 (initial_delay r)) (f64_of_f32 (backoff_multiplier r)).
Definition py_from_metadata (m : TaskMetadata) : PyTaskMetadata :=
  MkPyTaskMetadata (display_name m) (description m) (as_secs_f64 <$> md_timeout m) (py_from_retries <$> md_retries m)
    (Some (md_tags m)) (md_version m) (Priority_as_u8 <$> md_priority m).

Record PyTaskExecutionContext : Type := MkPyTaskContext {
  pc_workflow_id : string;
  pc_instance_id : string;
  pc_task_id : string;
  pc_metadata : PyTaskMetadata;
  pc_workflow_metadata_json : option string
}.
Definition py_from_context (ctx : TaskExecutionContext) : PyTaskExecutionContext :=
  MkPyTaskContext (ctx_workflow_id ctx) (ctx_instance_id ctx) (ctx_task_id ctx) (py_from_metadata (ctx_metadata ctx))
    (ctx_workflow_metadata_json ctx).
(** The getter [workflow_metadata]. *)
Definition py_workflow_metadata `{Python} (self : PyTaskExecutionContext) : result PyErr (option PyObject) :=
  match pc_workflow_metadata_json self with
  | None => Ok None
  | Some json => Some <$> json_loads json
  end.

(** ** The builder ([flow.rs]) *)

Record PyNodeInfo : Type := MkPyNodeInfo {
  pn_id : string;
  pn_kind : string;
  pn_predecessor_id : option string;
  pn_timeout_secs : option f64;
  pn_retry_policy : option PyRetryPolicy;
  pn_priority : option Z
}.
Definition py_iter_nodes {F} (self : PyWorkflow F) : list PyNodeInfo :=
  (λ n, MkPyNodeInfo (ni_id n) (NodeKind_as_ref (ni_kind n)) (ni_predecessor_id n) (as_secs_f64 <$> ni_timeout n)
    (py_from_retries <$> ni_retry_policy n) (ni_priority n)) <$> iter_nodes (py_continuation self).

Record PyFlowBuilder : Type := MkPyFlowBuilder {
  pfb_workflow_id : string;
  pfb_inner : FlowBuilder;
  pfb_metadata_json : option string
}.
Definition pfb_new (name : string) : PyFlowBuilder := MkPyFlowBuilder name flow_new None.
Definition pfb_with (inner : FlowBuilder) (self : PyFlowBuilder) : PyFlowBuilder :=
  MkPyFlowBuilder (pfb_workflow_id self) inner (pfb_metadata_json self).

Section Flow.
Context `{Python, HashOrder, Sha256, FloatOps}.
Abbreviation Build := (result PyStop).

Definition py_value_error (e : BuildError) : PyStop := PyRaised (py_err ExcValueError (build_error_to_string e)).
(** [metadata.map(Into::into).unwrap_or_default()]. *)
Definition py_metadata_or_default (m : option PyTaskMetadata) : Build TaskMetadata :=
  match m with Some m => ok_or (py_into_metadata m) PyPanicked | None => Ok TaskMetadata_default end.
Definition py_chain (chain : list (string * option PyTaskMetadata)) : Build TaskChain :=
  result_collect ((λ t, pair t.1 <$> py_metadata_or_default t.2) <$> chain).

Definition pfb_next_lambda_id (self : PyFlowBuilder) : string * PyFlowBuilder :=
  let '(id, inner) := next_lambda_id (pfb_inner self) in (id, pfb_with inner self).
Definition pfb_set_metadata_json (json : string) (self : PyFlowBuilder) : PyFlowBuilder :=
  MkPyFlowBuilder (pfb_workflow_id self) (pfb_inner self) (Some json).
Definition pfb_then (task_id : string) (metadata : option PyTaskMetadata) (self : PyFlowBuilder) : Build PyFlowBuilder :=
  metadata ← py_metadata_or_default metadata;
  Ok (pfb_with (add_sequential task_id metadata (pfb_inner self)) self).
Definition pfb_wait_for_signal (signal_id signal_name : string) (timeout_secs : option f64) (self : PyFlowBuilder) :
    Build PyFlowBuilder :=
  inner ← map_err py_value_error (add_signal signal_id signal_name timeout_secs (pfb_inner self));
  Ok (pfb_with inner self).
Definition pfb_delay (delay_id : string) (seconds : f64) (self : PyFlowBuilder) : Build PyFlowBuilder :=
  inner ← map_err py_value_error (add_delay delay_id seconds (pfb_inner self));
  Ok (pfb_with inner self).
Definition pfb_add_fork (branches : list (list (string * option PyTaskMetadata))) (join_id : string)
    (join_metadata : option PyTaskMetadata) (self : PyFlowBuilder) : Build PyFlowBuilder :=
  branches ← result_collect (py_chain <$> branches);
  join_metadata ← py_metadata_or_default join_metadata;
  inner ← map_err py_value_error (add_fork branches join_id join_metadata (pfb_inner self));
  Ok (pfb_with inner self).
Definition pfb_add_branch (branches : list (string * list (string * option PyTaskMetadata)))
    (default_branch : option (list (string * option PyTaskMetadata))) (self : PyFlowBuilder) :
    Build (string * PyFlowBuilder) :=
  branches ← result_collect ((λ entry, pair entry.1 <$> py_chain entry.2) <$> branches);
  dflt ← transpose (py_chain <$> default_branch);
  ib ← map_err py_value_error (add_branch branches dflt (pfb_inner self));
  Ok (ib.1, pfb_with ib.2 self).
Definition py_on_max (on_max : option string) : Build MaxIterationsPolicy :=
  let s := default "fail" on_max in
  if bool_decide (s = "fail") then Ok Fail
  else if bool_decide (s = "exit_with_last") then Ok ExitWithLast
  else Err (PyRaised (py_err ExcValueError ("Invalid on_max policy: '" +:+ s +:+ "'. Use 'fail' or 'exit_with_last'."))).
Definition pfb_add_loop (body_task_id : string) (body_metadata : option PyTaskMetadata) (max_iterations : option Z)
    (on_max : option string) (self : PyFlowBuilder) : Build (string * PyFlowBuilder) :=
  on_max ← py_on_max on_max;
  metadata ← py_metadata_or_default body_metadata;
  li ← map_err py_value_error (add_loop body_task_id metadata (default 10 max_iterations) on_max (pfb_inner self));
  Ok (li.1, pfb_with li.2 self).
Definition pfb_add_child_workflow (child_id : string) (child_builder self : PyFlowBuilder) : PyFlowBuilder :=
  pfb_with (add_child_workflow child_id (tasks (pfb_inner child_builder)) (pfb_inner self)) self.
Definition pfb_build (self : PyFlowBuilder) : Build (PyWorkflow UntypedCoreTask) :=
  continuation ← map_err (λ e, match e with Failed e => py_value_error e | Panicked => PyPanicked end)
    (flow_build (pfb_inner self));
  Ok (MkPyWorkflow (pfb_workflow_id self) (compute_definition_hash (to_serializable continuation)) continuation
    (index_build continuation) (pfb_metadata_json self)).
End Flow.

(** The two bindings compile the same definition: the same steps give the same tree, hash
    and index, under the same name. *)
Lemma builders_agree `{Python, Napi, HashOrder, Sha256, FloatOps} (p : PyFlowBuilder) (n : NapiFlowBuilder) pw nw :
  pfb_inner p = nfb_inner n → pfb_workflow_id p = nfb_workflow_id n → pfb_build p = Ok pw → nfb_build n = Ok nw →
  py_workflow_id pw = napi_workflow_id nw ∧ py_continuation pw = napi_continuation nw ∧
  py_definition_hash pw = napi_definition_hash nw ∧ py_task_index pw = napi_task_index nw.
Proof.
  intros Hi Hn. unfold pfb_build, nfb_build. rewrite Hi, Hn.
  destruct (flow_build (nfb_inner n)) as [c|[e|]]; cbn; [|done..]. by intros [= <-] [= <-].
Qed.
