(* ===== verification/PythonProps.v ===== *)
(** * The engines of the Python binding agree

    What the synchronous engine returns a durable run of the same workflow reports and
    stores; what a join of Python tasks is given; what an object becomes in a checkpoint. *)

From S2P Require Import Prelude Hash32 SnapshotFormat Task Workflow TaskIndex Serializable Snapshot Backend InMemory Runtime Lifecycle SyncExec Checkpoint Durability Worker Cloudflare Json NodeCodec Python.

(** ** Callbacks that differ in their errors only *)

Section Errors.
Context `{Sha256, SerdeJson, EnvelopeCodec} {F : Type}.
Context (f g : string → Bytes → result BoxError Bytes) (Hfg : ∀ id i, ok (f id i) = ok (g id i)).
Context (R : list (string * Bytes) → list (string * Bytes) → Prop).

Scheme evaluates_mut := Minimality for evaluates Sort Prop
with continues_mut := Minimality for continues Sort Prop
with all_evaluate_mut := Minimality for all_evaluate Sort Prop
with iterates_mut := Minimality for iterates Sort Prop.

Lemma answers id i o : f id i = Ok o → g id i = Ok o.
Proof. intros Hf. specialize (Hfg id i). rewrite Hf in Hfg. destruct (g id i); [|done]. by injection Hfg as <-. Qed.

Lemma evaluates_answers (c : WorkflowContinuation F) i o : evaluates f R c i o → evaluates g R c i o.
Proof.
  apply (evaluates_mut _ _ F f R (evaluates g R) (continues g R) (all_evaluate g R) (iterates g R));
    intros; eauto using answers, EvTask, EvForkJoin, EvForkLast, EvDelay, EvBranch, EvLoop, EvChild, CoEnd, CoNext,
      AllNil, AllCons, ItDone, ItLast, ItAgain.
Qed.
End Errors.

(** ** Runs *)

Section Runs.
Context `{Python, JsonText, Sha256, Chrono, FloatOps, Display, Backon, !BackonLaws, TaskTiming} {F : Type}.
Context (task : string → Bytes → result PyErr Bytes) (registry : gmap string PyObject).
Context (Htask : ∀ n id i, execute_python_task registry n id i = task id i) (Hgil : ∀ n, try_attach n = true).

Definition py_meaning (id : string) (i : Bytes) : result BoxError Bytes := py_engine_callback registry 0%nat id i.
Lemma engine_callback n id i : py_engine_callback registry n id i = py_meaning id i.
Proof. unfold py_meaning, py_engine_callback. by rewrite !Htask. Qed.
Definition py_durable_meaning (id : string) (i : Bytes) : result BoxError Bytes := py_task_executor registry 0%nat id i.
Lemma task_executor n id i : py_task_executor registry n id i = py_durable_meaning id i.
Proof. unfold py_durable_meaning, py_task_executor. by rewrite !Hgil, !Htask. Qed.
Lemma meanings_agree id i : ok (py_meaning id i) = ok (py_durable_meaning id i).
Proof.
  unfold py_meaning, py_durable_meaning, py_engine_callback, py_task_executor. rewrite Hgil.
  by destruct (execute_python_task registry 0 id i).
Qed.

(** What the synchronous engine returns is decoded from the output the workflow means. *)
Lemma engine_means (wf : PyWorkflow F) input out n :
  (py_engine_run wf input registry n).1 = Ok out →
  ∃ bytes o, encode_pyobject input = Ok bytes ∧ evaluates py_meaning eq (py_continuation wf) bytes o ∧
    decode_to_pyobject o = Ok out.
Proof.
  pose proof (λ bytes, sync_computes (H4:=py_engine_callback registry) py_meaning engine_callback (py_continuation wf) bytes n) as Hc.
  unfold py_engine_run, mbind, io_bind, lift_result, io_map_err.
  destruct (encode_pyobject input) as [bytes|]; [|done]. specialize (Hc bytes).
  destruct (execute_continuation_sync (H3:=py_engine_callback registry) _ bytes n) as [[o|] m]; [|done].
  exists bytes, o. split; [done|]. split; [by apply Hc|done].
Qed.

Lemma durable_reports `{Environment InMemoryBackend} (quiet : ∀ n b, others n b = b) to_rfc3339 (self : PyDurableEngine)
    (wf : PyWorkflow F) id input bytes o out (w : World InMemoryBackend) :
  let c := py_continuation wf in
  find_duplicate_id c = None → collision_free (node_ids c) → immediate c = true →
  validate_instance_id id = Ok () → snapshots (store w) !! id = None →
  pending (store w) id Cancel = None → pending (store w) id Pause = None →
  py_conflict_policy self = Conflict.Fail → encode_pyobject input = Ok bytes →
  evaluates py_durable_meaning eq c bytes o → decode_to_pyobject o = Ok out →
  ∃ s w', py_durable_run to_rfc3339 self wf id input registry w =
      (Ok (MkPyStatus (Status.flatten to_rfc3339 Status.Completed) (Some out)), w') ∧
    state s = Completed o ∧ snapshots (store w') !! id = Some s.
Proof.
  intros c Hd Hcf Him Hid Hs Hc Hp Hpol Henc He Hout.
  destruct (durable_end_to_end (H5:=py_task_executor registry) quiet py_durable_meaning task_executor id
    (py_definition_hash wf) bytes c o w)
    as (s & w1 & s2 & w2 & s3 & w3 & Hstart & Hrun & Hfin & Hs3 & Hlk); [done..|].
  exists s3, w3. split; [|done]. revert Hstart. unfold check_then_prepare, py_durable_run. rewrite Hpol.
  rewrite !io_bind_run. unfold io_map_err at 1. destruct (check_existing_instance _ _ _ w) as [[[so|]|] w0]; [by destruct so|..|done].
  intros Hstart. rewrite bind_lift, Henc. cbn [map_err]. rewrite !io_bind_run. unfold io_map_err at 1.
  change (prepare_run id (py_definition_hash wf) bytes (first_task_hint c) Conflict.Fail w0 = (Ok (Fresh s), w1)) in Hstart.
  subst c. rewrite Hstart. cbn [map_err]. rewrite io_bind_run. unfold io_map_err, py_execute. rewrite Hrun, Hfin.
  cbn. unfold py_answer, py_status. cbn. by rewrite Hout.
Qed.
End Runs.

(** C31. The engines of the Python binding agree: what the synchronous engine returns, a
    durable run of a fresh instance on a backend nobody else touches reports as the
    output of a completed workflow, stored as such, although the two pass the tasks'
    exceptions on differently.  For workflows of tasks without timeouts, forks, joins,
    conditional branches, loops and child workflows (no delay and no signal anywhere),
    with distinct ids whose hashes do not collide, tasks that answer alike at every
    call, a conflict policy that fails and the interpreter always available. *)
Theorem py_engines_agree `{Python, JsonText, Sha256, Chrono, FloatOps, Display, Backon, !BackonLaws, TaskTiming} {F : Type}
    `{Environment InMemoryBackend} (to_rfc3339 : DateTime → string) (self : PyDurableEngine) (wf : PyWorkflow F)
    (id : string) (input out : PyObject) (registry : gmap string PyObject) (task : string → Bytes → result PyErr Bytes)
    (n : nat) (w : World InMemoryBackend) :
  let c := py_continuation wf in
  (∀ n b, others n b = b) → (∀ n, try_attach n = true) → (∀ n id i, execute_python_task registry n id i = task id i) →
  find_duplicate_id c = None → collision_free (node_ids c) → immediate c = true →
  validate_instance_id id = Ok () → snapshots (store w) !! id = None →
  pending (store w) id Cancel = None → pending (store w) id Pause = None → py_conflict_policy self = Conflict.Fail →
  (py_engine_run wf input registry n).1 = Ok out →
  ∃ s w' o, py_durable_run to_rfc3339 self wf id input registry w =
      (Ok (MkPyStatus (Status.MkFlat "completed" None None None None None None None None) (Some out)), w') ∧
    decode_to_pyobject o = Ok out ∧ state s = Completed o ∧ snapshots (store w') !! id = Some s.
Proof.
  intros c quiet Hgil Htask Hd Hcf Him Hid Hs Hc Hp Hpol Hrun.
  destruct (engine_means task registry Htask wf input out n Hrun) as (bytes & o & Henc & He & Hout).
  apply (evaluates_answers _ (py_durable_meaning registry) (meanings_agree registry Hgil)) in He.
  destruct (durable_reports task registry Htask Hgil quiet to_rfc3339 self wf id input bytes o out w)
    as (s & w' & Hrun' & Hs' & Hlk); [done..|].
  by exists s, w', o.
Qed.

(** ** The codec *)

Section Values.
Context `{Python, JsonText} (exact : JsonNumber → bool) `{!JsonTextLaws exact}.

(** [json] gives back what [dumps] wrote, in ASCII. *)
Class PyJsonLaws (portable : PyObject → Prop) : Prop := {
  dumps_utf8 v s : json_dumps v = Ok s → Utf8.from_utf8 (as_bytes s) = Ok s;
  dumps_loads v s : portable v → json_dumps v = Ok s → json_loads s = Ok v
}.
Context (portable : PyObject → Prop) `{!PyJsonLaws portable}.

Definition reads_as_branches (b : Bytes) : bool := match named_from_slice b with Ok (_ :: _) => true | _ => false end.

Lemma py_loads_encoded v b : portable v → encode_pyobject v = Ok b → py_loads b = Ok v.
Proof.
  intros Hv. unfold encode_pyobject, py_loads. destruct (json_dumps v) as [s|] eqn:Hs; [|done]. cbn. intros [= <-].
  rewrite (dumps_utf8 v s Hs). cbn. by apply dumps_loads.
Qed.

(** An object survives a checkpoint, unless its text reads like branch results. *)
Lemma py_value_survives v b :
  portable v → encode_pyobject v = Ok b → reads_as_branches b = false → decode_to_pyobject b = Ok v.
Proof.
  intros Hv He. unfold reads_as_branches, decode_to_pyobject. destruct (named_from_slice b) as [[|]|]; [|done|];
    intros _; by apply py_loads_encoded.
Qed.

(** A join is given the dict of its branches' results, in branch order. *)
Lemma py_join_input (rs : list (string * PyObject)) (encoded : list (string * Bytes)) (b : Bytes) :
  rs ≠ [] → Forall (λ r, portable r.2) rs → Forall2 (λ r e, r.1 = e.1 ∧ encode_pyobject r.2 = Ok e.2) rs encoded →
  encode_named_results encoded = Ok b → decode_to_pyobject b = Ok (py_dict rs).
Proof.
  intros Hne Hp Hrs Hb. unfold decode_to_pyobject. rewrite (parse_named (exact:=exact) encoded b Hb).
  destruct encoded as [|e encoded]; [by inversion Hrs; subst|]. unfold decode_branch_results_to_pydict.
  enough (result_collect ((λ nd, pair nd.1 <$> py_loads nd.2) <$> (e :: encoded)) = Ok rs) as -> by done.
  clear Hne Hb. induction Hrs as [|r e' rs encoded' [Hn He] Hrs IH]; [done|].
  inversion Hp as [|? ? Hr Hp']; subst. cbn. rewrite (py_loads_encoded _ _ Hr He). cbn. rewrite (IH Hp'). cbn.
  by destruct r as [k v]; cbn in *; subst.
Qed.
End Values.
