(* ===== verification/PythonExample.v ===== *)
(** * A Python side and a workflow, for the witness of the Python binding

    Objects are JSON values, functions and coroutines; the text is that of
    [NodeExample.v]. *)

From S2P Require Import Prelude Hash32 SnapshotFormat Task Workflow TaskIndex Serializable Snapshot Backend InMemory Runtime Lifecycle SyncExec Checkpoint Durability Worker Cloudflare Json NodeCodec NodeExample Python PythonProps.

Module PyExample.
Import Toy WorkflowExample Examples DurabilityExample NodeExample.
#[local] Existing Instances ExecExample.backon ExecExample.backon_laws NodeExample.text.

Inductive Obj : Type := Value (j : JsonValue) | Fun (n : nat) | Coroutine (j : JsonValue).
Definition value_of (v : Obj) : JsonValue := match v with Value j => j | _ => JsonNull end.
(** The functions: an [async] identity, a constant key, a loop body that is done. *)
Definition answer (f : Obj) (v : Obj) : result string Obj :=
  match f with
  | Fun 0 => Ok (Coroutine (value_of v))
  | Fun 1 => Ok (Value (JsonStr "left"))
  | Fun 2 => Ok (Value (JsonObj (map_collect [("_loop", JsonStr "done"); ("value", value_of v)])))
  | _ => Err "not callable"
  end.
Definition finished (v : Obj) : result string Obj := match v with Coroutine j => Ok (Value j) | _ => Err "not awaitable" end.

#[export] Instance python : Python := {|
  PyObject := Obj;
  PyErr := string;
  py_err _ msg := msg;
  py_to_string e := e;
  py_traceback _ := "Traceback";
  json_dumps v := match v with Value j => Ok (String.string_of_list_byte (print j)) | _ => Err "not serializable" end;
  json_loads s := map_err (λ _, "JSONDecodeError") (Value <$> parse_all (as_bytes s));
  py_dict items := Value (JsonObj (map_collect ((λ kv, (kv.1, value_of kv.2)) <$> items)));
  py_call _ := answer;
  has_await v := match v with Coroutine _ => true | _ => false end;
  has_running_loop n := Nat.odd n;
  asyncio_run _ := finished;
  run_until_complete _ := finished;
  try_attach _ := true
|}.

(** [make → fork [photo, audit] → close → route ("left" ↦ pack) → poll (step)]. *)
Definition py_wf : PyWorkflow unit := MkPyWorkflow "orders" hash node_flow (index_build node_flow) None.
Definition py_functions : gmap string PyObject := list_to_map
  [("make", Fun 0); ("photo", Fun 0); ("audit", Fun 0); ("close", Fun 0); ("route::key_fn", Fun 1); ("pack", Fun 0); ("step", Fun 2)].
Definition py_task (id : string) (i : Bytes) : result PyErr Bytes := execute_python_task py_functions 0 id i.
Definition py_order : PyObject := Value (JsonStr "order").
Definition py_output : PyObject := default py_order (ok (py_engine_run py_wf py_order py_functions 0%nat).1).

Example py_output_value :
  py_output = Value (JsonObj [("branch", JsonStr "left");
    ("result", JsonObj [("audit", JsonStr "order"); ("photo", JsonStr "order")])]).
Proof. vm_compute. reflexivity. Qed.

Lemma py_tasks n id i : execute_python_task py_functions n id i = py_task id i.
Proof.
  unfold py_task, execute_python_task. destruct (ok_or _ _) as [f|]; [|done]. cbn.
  destruct (decode_to_pyobject i) as [v|]; [|done]. cbn. destruct (answer f v) as [[]|]; cbn; try done.
  by destruct (Nat.odd n).
Qed.

Lemma py_engines_agree_witness :
  ∃ s w' o, py_durable_run show_time (MkPyEngine Conflict.Fail) py_wf "i" py_order py_functions w0 =
      (Ok (MkPyStatus (Status.MkFlat "completed" None None None None None None None None) (Some py_output)), w') ∧
    decode_to_pyobject o = Ok py_output ∧ state s = Completed o ∧ snapshots (store w') !! "i" = Some s.
Proof.
  apply (py_engines_agree show_time (MkPyEngine Conflict.Fail) py_wf "i" py_order py_output py_functions
    py_task 0%nat w0).
  - reflexivity.
  - reflexivity.
  - exact py_tasks.
  - vm_compute. reflexivity.
  - exact node_flow_collision_free.
  - reflexivity.
  - reflexivity.
  - reflexivity.
  - reflexivity.
  - reflexivity.
  - reflexivity.
  - vm_compute. reflexivity.
Defined.

(** A worker of two workflows with a task of the same name: whichever workflow the task
    belongs to, the first one's function runs. *)
Definition shop_functions : gmap string PyObject := {[ "pay" := (Fun 0 : PyObject) ]}.
Definition hotel_functions : gmap string PyObject := {[ "pay" := (Fun 1 : PyObject) ]}.
Lemma shared_task_name (shop hotel : DefinitionHash) :
  py_worker_executor [(shop, shop_functions); (hotel, hotel_functions)] 0 "pay" (print (JsonStr "room")) =
    Ok (print (JsonStr "room")) ∧
  py_worker_executor [(hotel, hotel_functions)] 0 "pay" (print (JsonStr "room")) = Ok (print (JsonStr "left")).
Proof. split; vm_compute; reflexivity. Qed.
End PyExample.
